(* ===== verification/_CoqProject ===== *)
-Q . S2P
Prelude.v
Types.v
Json.v
Text.v
PlanTask.v
PlanLayers.v
PlanExec.v
PlanRun.v
PlanProps.v
PlanStore.v
PlanInvoke.v
Secrets.v
SecretsPieces.v
SecretsProps.v
SecretsStream.v
Router.v
RouterProps.v
TaskRegistry.v
TaskProps.v
Scheduler.v
SchedulerProps.v
Transaction.v
Sandbox.v
SandboxProps.v
OsSandbox.v
Shell.v
ShellProps.v
Rpc.v
Guards.v
TurnEvents.v
Dispatch.v
Approval.v
ApprovalProps.v
Hosting.v
HostingProps.v
HostingLive.v
HostingFacts.v
ToolHooks.v
ToolHooksProps.v
SessionParams.v
Network.v
WebSearch.v
ToolText.v
Orchestrator.v
OrchestratorProps.v
Review.v
ReviewProps.v
Sanitize.v
SanitizeProps.v
Executor.v
FileTools.v
FileToolsProps.v
Ordering.v
Agents.v
Delegation.v
DelegationProps.v
Communities.v
CommunitiesProps.v
CommunitiesOrder.v
Graph.v
GraphProps.v
GraphPaths.v
Embeddings.v
Notes.v
NotesProps.v
Index.v
IndexProps.v
IndexSettles.v
Fusion.v
Tiers.v
Search.v
SearchProps.v
Pages.v
PagesProps.v
PagesSweep.v
PagesRedirect.v
Merge.v
Commitments.v
Retention.v
RetentionProps.v
