(* ===== verification/Prelude.v ===== *)
(** * Zenspace core: a verification library

    Zenspace is a personal agent system in Rust.  A gateway daemon and a
    terminal interface host agents; a request is routed to a language model by
    [zen-provider], which redacts secrets on the way out ([zen-core]); agents
    call tools, among them [plan.execute], which runs a plan of delegated tasks
    with checkpoints in state.db ([zen-agents], [zen-repo]), and [shell.exec],
    whose background children live in a registry ([zen-plugin]); a scheduler
    fires the learning workers ([zen-agents]), and the distillation cycle writes
    the vault inside a transaction ([zen-vault]).  This library models these
    parts and proves what makes them correct.  All paths below are under
    src/crates/.

    ** Layout

    Foundations.
    - [Prelude] (this file): Rust's [Result], the [outcome] of computations that
      may panic or exhaust their fuel, the notations [let?] and [let!] for the
      two monads, tactics, and list lemmas.
    - [Types]: sensitivities and message roles, shared by several crates.
    - [Json]: the class [Json] of the calls the handlers make on
      [serde_json::Value], its laws, and an implementation that has them.
    - [Text]: [&str] as a list of code points, with the string operations of the
      standard library and the lemmas on searching and replacing.

    Plans: zen-agents/src/plan_task.rs, zen-repo/src/workflow_repo.rs.
    - [PlanTask]: [parse_plan] with every error message; [topological_layers],
      Kahn's algorithm with its counters.  A counter that would underflow and an
      index out of bounds panic; the loop has one unit of fuel per task and one
      to notice that nothing is ready, and [topological_layers_total] shows
      that it never panics and never runs out.
    - [PlanLayers]: the build pass computes the transpose of the dependencies;
      the layers hold every task once, each after its dependencies; a cycle is
      reported exactly when there is one.
    - [PlanExec]: the layer walk of [invoke]: replayed and blocked tasks,
      validation, batches of at most [max_concurrent], the transitions skip,
      retry and halt, checkpoints.  The sub-agents are the class [Delegate].
    - [PlanRun], [PlanProps]: the invariants of the walk and its properties, for
      every delegate: no task is launched before all its dependencies are ok,
      with inputs of that run; at most one retry; bounded batches; every task
      of a run settles; failures propagate; a halt stops exactly the later
      layers.
    - [PlanStore]: the tables of [WorkflowRepo] and its operations, each one
      transaction of the single writer; the claim fence.
    - [PlanInvoke]: [invoke] end to end: a run opened fresh, resumed or refused,
      its checkpoints written to the store, its answer.  Totality, and the
      result that resuming after a crash gives the answers already paid for.

    Secrets: zen-core/src/secrets_guard.rs, zen-core/src/env_scrub.rs.
    - [Secrets]: rules, detection, redaction sessions, restoring in one piece
      and in a stream, environments.  The regex crate is the class [Regex];
      [RegexLaws] states that spans lie in the text.  Offsets count code points
      where the source counts bytes.  The entropy gate, a comparison of
      floating-point logarithms in the source, is stated in exact integers.
    - [SecretsPieces]: texts as lists of characters and whole placeholders.
    - [SecretsProps], [SecretsStream]: for contents without the brackets of
      placeholders and rules that spare placeholders, redaction then restoring is
      the identity over a session and no corpus value survives redaction; a reply of
      text and whole placeholders, cut anywhere by the stream, restores to what it
      restores to in one piece (with a stray bracket it may not); child environments.
      The restoring loop has the source's sixteen rounds; two are enough on
      texts of characters and placeholders.

    Routing: zen-provider/src/router.rs, zen-provider/src/stream.rs.
    - [Router]: provider names, configuration, lazily built instances,
      sensitivity, preferences, the fallback chain, options, guarded calls and
      the guarded stream with its channels.  Credential stores and connections
      are the classes [Credentials] and [Wire]; the log fields of [router]
      record which keys were looked up and what left the process.
    - [RouterProps]: private data stays local unless an Ollama is configured at
      a localhost address; under the guard, guardable prompts to providers that the
      router does not take for local hold no secret of the environment; the guard is
      transparent; keys are resolved lazily; the forwarder restores what it forwards.

    Background tasks: zen-plugin/src/task_registry.rs.
    - [TaskRegistry]: spawn, wait, drain, kill, deadlines, shutdown, the
      [meta.json] mirror and the boot sweep.  A run is a sequence of operations,
      cut where the code releases its locks.  Meta writes are queued; each lands, is
      lost, or is torn by another write of the task, in any order: the module
      [AtomicFile] has the steps of [write_atomic] (zen-core/src/atomic_file.rs),
      whose writers share one temporary file.
    - [TaskProps]: terminal statuses are final, the limit holds, deadlines
      expire exactly, notices are delivered at least once and to their session,
      captures are exact, the disk never contradicts the registry, the sweep
      kills only groups it has verified.

    Scheduling: zen-agents/src/scheduler/mod.rs and lease.rs.
    - [Scheduler]: registration, tick, in-flight flags, permits, triggers, cost
      ledger.  Calendars and cron expressions are the class [Calendar]; costs
      are binary64 values of [SpecFloat].
    - [SchedulerProps]: no worker overlaps itself, the limiter holds, a tick is
      exact, totals survive a restart within the month; two defects of the
      cost cap are stated as theorems.

    Vault transactions: zen-vault/src/distill/transaction.rs, recovery.rs and
    checkpoint.rs, zen-vault/src/wiki/writer.rs.
    - [Transaction]: versions, snapshots, conditional writes, tracking files,
      rollback, replay, the checkpoint, over a map from paths to files.  An atomic
      write is its steps: the temporary file is opened, filled character by
      character and renamed.  The hash is the class [Digest], without collisions
      where a law is needed.  Conditional commits and writes are exact, a rollback
      removes exactly what was tracked, and what the replay leaves of a cycle that a
      crash cuts anywhere, also inside a write, is stated exactly: the paths that
      were written and not yet tracked, and the temporary file.

    Sandbox: zen-core/src/sandbox.rs, zen-plugin/src/tools/shell_exec.rs.
    - [Sandbox]: modes, classification and normalisation of paths, the
      canonical path of a file that may not exist, screening of commands, the
      seatbelt policy and the validator.  The file system is the class
      [FileSystem].  The climb to an existing parent has a unit of fuel per
      component and one more.
    - [SandboxProps]: the laws of POSIX resolution and a table of files that
      has them; containment is exact, an allowed write is confined, outside full
      access and the directory [.zen], on the disk as it is at the check; and the
      write that leaves the root when directories are made after the check.
    - [OsSandbox]: profiles, commands of the standard library, wrapping by
      sandbox-exec and bubblewrap, the command of [shell.exec] and what its
      child sees of the environment.

    Shell tools: zen-plugin/src/tools/shell_exec.rs, shell_collect.rs and
    shell_kill.rs.
    - [Shell]: the scanner that decomposes an embedded command, and the gates
      every segment passes.  The word splitter and the glob matcher are the
      classes [Shlex] and [Glob], without laws.  The scanner has a unit of fuel
      per character and one more.  Then the three handlers, over the registry of
      [TaskRegistry] and the command of [OsSandbox].  A child's run is a field of
      the class [Host].
    - [ShellProps]: the scanner ends; an accepted script has nothing that the shell
      would expand, and each of the commands it is taken apart into has passed every
      gate; and the scripts that evade the gates.

    The gateway daemon: zen-gateway/src/protocol and zen-gateway/src/server.
    - [Rpc]: the catalog of errors, versions, the table of methods, frames.
    - [Guards]: circuit breaker, rate of turns, watchdog; times in nanoseconds.
    - [TurnEvents]: the ring of a turn's events, its replay, and the classifier
      of tool lines.
    - [Dispatch]: one connection: handshake gate, routing, spawned requests.
    - [Approval], [ApprovalProps]: the broker between the sandbox's hook and the
      client, as steps of the hook's calls, the workers and the client; nothing
      is allowed that the client of the turn's connection did not approve.
    - [Hosting]: hosted turns.  A call of [session/turn] is a thread with a
      program counter, one step between two points where another call can act;
      the executor's tokens and answers, cancellations, deadlines, the flusher
      and the reaper are steps of their own, in any order.
    - [HostingProps]: the invariant of records, threads and scripts.
    - [HostingLive]: the permits; one execution a session, and, under a fair
      schedule, every registered turn ends.
    - [HostingFacts]: responses are the executor's, audits happen once, the
      state stays well formed, and the closed runs that go wrong.
    - [SessionParams]: the parameters of the session methods, their refusals,
      cancellation and resumption as handlers, hydration of a new session.

    Tool dispatch: zen-plugin/src/tools (confidentiality_hook.rs, audit_hook.rs,
    approval_hook.rs), zen-plugin/src/hook_isolation.rs and lib.rs,
    zen-agents/src/wiring.rs.
    - [ToolHooks]: the manifest of tools, the hooks a call passes, the isolation
      of plugin hooks, the pipeline of a wiring, the errors of a round.  The
      budget hook and the runner are third-party: parameters.
    - [ToolHooksProps]: what a call has passed when its tool starts, and in which
      environment; the approval of a hosted turn, composed with [Approval] on the
      broker of the very run; plugins neither see nor alter
      confidential calls; the shared cells that sessions and calls overwrite.

    Network tools: zen-core/src/network_policy.rs, zen-plugin/src/tools
    (web_fetch.rs, web_search.rs), zen-plugin/src/retry.rs.
    - [Network]: the egress policy is exactly its ranges of addresses, every hop
      of a fetch passes it, bodies are capped.  Parsing URLs is the class [Urls].
    - [WebSearch]: queries, results, retries within a deadline, the order of the
      backends.  What a backend replies is a parameter.

    The agent's turn: zen-agents/src/orchestrator.rs, zen-agents/src/review and
    zen-core/src/review.
    - [ToolText]: the texts of a turn: fenced tool blocks, the history of tool
      results, notices, background lines.  Scanners have a unit of fuel per
      character and one more.
    - [Orchestrator]: the loop of [execute] and [execute_stream].  The agent-run
      machine of rig is the class [AgentRun], model calls, tools and the clock
      are [TurnEnv]; what went to the model and to the tools is a field [trace].
    - [OrchestratorProps]: every turn ends, the batches answered are those that the
      run issued, with one answer per call, only granted tools are dispatched; and the closed runs where the model
      never learns of a refusal.  The laws of rig's machine are [AgentRunLaws];
      the fuel of a turn is its token budget plus its rounds.
    - [Review], [ReviewProps]: the quality gate: the heuristics of Metis, Momus,
      Hermes and Zeus, the pipeline in closed form, and its dead checks.
    - [Executor]: zen-agents/src/executor.rs: one call of a model, its route, its
      prompt and its retries; a private round reaches Ollama only, when none is
      configured at a localhost address.

    Sanitising: zen-core/src/sanitize.rs.
    - [Sanitize]: every filter, on code points, with the offsets of the source in
      bytes and the panics of its slices.  Lowering a character that is not
      ASCII is the class [Lowercase], without laws.  The loop that cuts tags has
      a unit of fuel per character and one more.
    - [SanitizeProps]: nothing but removals, no panic on ASCII, and the contents
      that defeat the filters.

    File tools: zen-plugin/src/tools (fs_write.rs, fs_edit.rs, fs_delete.rs,
    fs_move.rs, fs_copy.rs, fs_read.rs), zen-core/src/tempfile_lifecycle.rs.
    - [FileTools]: the handlers over the class [Disk], whose every call may fail
      and is logged; applying a diff is the class [Diffy].
    - [FileToolsProps]: what is touched has been validated or is a name next to
      it; an edit is all or nothing; the windows of a read; and the edit that
      leaves the workspace through a link at the name of its backup.

    Delegation: zen-agents/src (delegate_task.rs, registry.rs, agent_profile.rs).
    - [Ordering]: stable sorting by a weak order, and comparison, sums and
      quotients of floats that are not NaN or not negative.
    - [Agents]: the registry of profiles, grants, and the order of results.
    - [Delegation]: [delegate.task]: requests, gates, inheritance, the four
      rounds of a sub-turn, batches, delegation within delegation.  Recursion is
      on the levels left, so nothing needs fuel.  The calls of a sub-turn into
      the kernel are the class [SubTurns], rig's dispatcher is [Dispatcher].  The
      sub-turns of a chunk, which run concurrently, are run in order.
    - [DelegationProps]: the tree of sub-turns is bounded by roles and depth,
      rounds keep the session's policy, batches answer by position; the laws of
      the dispatcher are [DispatcherLaws].

    The graph of notions: zen-repo/src/communities.rs and notions_repo.rs.
    - [Ordering]: stable sorting; binary64, and the integers below 2^53, whose sums
      are exact.
    - [Communities]: the Louvain method; hash maps list their entries in the order
      of the class [HashIteration].  The loop over levels has a unit of fuel per
      node and one more.
    - [CommunitiesProps], [CommunitiesOrder]: it ends without a panic, with a
      partition; with counts for weights the order of iteration does not matter;
      and the loops that aggregation drops.
    - [Graph]: tables of notions, aliases, relationships and stages; validity
      windows, traversal, PageRank over the cached snapshot.  The rows of a
      statement without ORDER BY come in the order of the class [Scan].
    - [GraphProps]: facts asserted in order never overlap; PageRank and communities
      are total and, up to the cache, functions of the database.
    - [GraphPaths]: a traversal finds the ends of simple paths; the witnesses of this
      part, and the closed runs that go wrong.

    Notes and their index: zen-vault/src (note.rs, tindy), zen-repo/src
    (notes_repo.rs, embeddings_repo.rs), zen-provider/src/embedding.rs.
    - [Embeddings]: the vector of a text over binary32, its chunks, the hash that
      stands in for a model, the chain of providers with its dead flags.  A
      provider is a function of its number and of the call's number.
    - [Notes], [NotesProps]: the front matter, read and written; the creation of a
      note.  Dates are the class [Chrono].  What keeps to the format is read back.
    - [Index]: rows of notes, words and vectors; the incremental run.  What a
      statement or the disk answers is the class [Moment], the hash and the
      decoding of bytes are [Codec].
    - [IndexProps], [IndexSettles]: over any history of runs in which the marks of
      vectors can be read, a vector that is claimed fresh is the file's; when nothing
      fails a second run has nothing to do; and the failures after which words or
      vectors are lost.

    Search: zen-vault/src/search.
    - [Fusion]: reciprocal rank fusion over binary64, against a reference.
    - [Tiers]: ripgrep's process and the scan that stands in for it, the full-text
      and vector tiers, the graph tier.  Rankings of SQLite, the process and the
      walk are the class [Engines]; the record [graph_reads] says which reads of the
      graph fail.
    - [Search]: the service, its diagnostics, the filter by domain, the synthesis.
    - [SearchProps]: fusion is a ranking, a fused search is the fusion of the tiers
      that answer, what a scoped search finds; and the closed runs that go wrong.

    Pages of the wiki: zen-vault/src/distill/cascade.rs, wiki/iterations.rs.
    - [Pages]: sources of a page, its versions, the walk over the pages, redirection
      and sweep, over the files of [Transaction].  Any operation may be refused
      ([Refusals]); directories list in any order ([Listing]).  A page is rewritten by
      [fs::write], which truncates it and may be refused at any character; versions
      are written atomically, and the temporary file that a refused atomic write
      leaves is left out, as no name that ends in [.tmp] is read.  The walk has a unit
      of fuel per entry of the disk and one more.
    - [PagesProps]: sources are read back as they are written; the walk ends, visits a
      page once, and carries invariants.
    - [PagesSweep]: a sweep takes nothing but what is dead, except from the page whose
      rewriting is cut.
    - [PagesRedirect]: a redirection is exact; a rollback then deletes what it wrote;
      the witnesses of this part, and the closed runs that go wrong.
    - [Merge]: zen-vault/src/distill/merge.rs and the execution of its plans by
      pipeline.rs, over the same disk.  A page is in one plan at most; what absorbing
      keeps when names are distinct; and the merges that lose a page.  The model that
      composes a section is the class [Composer].

    Commitments: zen-memory/src/commitment.rs, frontmatter.rs.
    - [Commitments]: states, guards, milestones, stop loss; the file written and read,
      the directory.  Instants, dates and floats as texts are the class [Dates].  What
      holds over any history of calls; what a file forgets, so that a loaded
      commitment is stuck; and the closed runs that show it.

    Retention: zen-vault/src/distill/retention.rs.
    - [Retention]: the table of policies, rotation, deletion by age and by count, the
      sweep.  Any operation may be refused, and renaming a directory is left open
      ([Faults]); the crate walkdir is the class [Walkdir].  Sizes are unbounded.
    - [RetentionProps]: exact accounts of the deletions of a policy; a rotation
      shifts, and never loses the log; a sweep touches only what its table names; a
      dry run touches nothing; the places that no sweep touches; small disks.

    ** Reading the theorems

    A theorem whose doc comment opens with a claim number is a property of the
    manifest; where it has hypotheses, the lemma named after it with the suffix
    [_witness] applies it to a concrete input.  Properties quantify over every
    behaviour of the environment (delegates, regexes, clocks, calendars,
    operating system answers), and over every interleaving of operations where
    the code runs concurrently.

    ** Limits

    Strings that are only compared, joined and looked up are Rocq strings of
    bytes; provider names are taken to be ASCII.  Counters of bytes and of
    retries are unbounded; the arithmetic that can leave its width in practice
    (the in-degree counters, the deadline of a task, the sum of token counts)
    panics where a build with overflow checks does.  Input and output failures
    of the plan store and of single file operations are left out, except where
    the code branches on them.  Log lines are left out.

    Of the gateway, the transport, the frames a connection is sent (their queue
    is server/connection.rs), the files of a session and panics of the executor
    are left out; the text of messages is kept where it is all an error carries.

    Not modelled.  Of distillation (zen-vault/src/distill): the discovery tree, the
    other stages of the pipeline and their audits; of zen-memory: the decay of
    memories, beliefs, decisions, journals and the memvid store; of the scheduler:
    the workers' bodies (zen_loop and the profiles), which drive the vault and the
    models; of the agents: the decision module and zen_agent.rs, the assembly of
    rig's agents.  These are the program's own logic, left for want of room.  The
    rest is input and output or calls to third-party code: the terminal interface
    and the command line, the providers' connections, the credential stores, the
    SQL of the other repositories, configuration parsing, the listing tools
    (walks of directories), the client of external tool servers, and the wasm
    runtime. *)

From stdpp Require Export base list gmap strings sorting pretty.
From Stdlib Require Import Lia.

(** ** Rust's [Result] and the outcome of a partial computation *)

(** [Result<T, E>]. *)
Inductive result (T E : Type) : Type :=
  | Ok (t : T)
  | Err (e : E).
Arguments Ok {T E} t.
Arguments Err {T E} e.

Definition is_ok {T E} (r : result T E) : bool :=
  match r with Ok _ => true | Err _ => false end.

Definition rbind {T U E} (r : result T E) (f : T -> result U E) : result U E :=
  match r with Ok t => f t | Err e => Err e end.

(** What a terminating or panicking piece of Rust gives: a value, or a panic
    (an index out of bounds, an arithmetic underflow under overflow checks). *)
Inductive outcome (A : Type) : Type :=
  | Done (a : A)
  | Panic
  | OutOfFuel.
Arguments Done {A} a.
Arguments Panic {A}.
Arguments OutOfFuel {A}.

Definition obind {A B} (o : outcome A) (f : A -> outcome B) : outcome B :=
  match o with Done a => f a | Panic => Panic | OutOfFuel => OutOfFuel end.

Declare Scope zen_scope.
Delimit Scope zen_scope with zen.
Notation "'let?' x ':=' r 'in' k" := (rbind r (fun x => k))
  (at level 10, x pattern, r at level 100, k at level 200) : zen_scope.
Notation "'let!' x ':=' r 'in' k" := (obind r (fun x => k))
  (at level 10, x pattern, r at level 100, k at level 200) : zen_scope.
#[global] Open Scope zen_scope.

(** A loop whose body may panic, and an index that is absent. *)
Fixpoint ofold {A B} (f : B -> A -> outcome B) (l : list A) (b : B) : outcome B :=
  match l with
  | [] => Done b
  | x :: r => let! b' := f b x in ofold f r b'
  end.
Definition index {K A M} `{Lookup K A M} (m : M) (k : K) : outcome A :=
  match m !! k with Some a => Done a | None => Panic end.

(** A loop ends when each of its steps does; [P] speaks of what has been read. *)
Lemma ofold_prefix {A B} (P : list A -> B -> Prop) (f : B -> A -> outcome B) l b : P [] b ->
  (forall pre x post b, l = (pre ++ x :: post)%list -> P pre b -> exists b', f b x = Done b' /\ P (pre ++ [x])%list b') ->
  exists b', ofold f l b = Done b' /\ P l b'.
Proof.
  intros H0 Hs. cut (forall post pre b, l = (pre ++ post)%list -> P pre b -> exists b', ofold f post b = Done b' /\ P l b').
  { intros H. by apply (H l []). }
  clear b H0. induction post as [|x post IH]; intros pre b E Hb; cbn [ofold].
  - exists b. split; [done|]. by rewrite E, app_nil_r.
  - destruct (Hs pre x post b E Hb) as (b' & -> & Hb'). cbn [obind]. apply (IH (pre ++ [x])%list); [|done].
    by rewrite <- app_assoc.
Qed.
Lemma ofold_inv {A B} (P : B -> Prop) (f : B -> A -> outcome B) l b : P b ->
  (forall b x, x ∈ l -> P b -> exists b', f b x = Done b' /\ P b') -> exists b', ofold f l b = Done b' /\ P b'.
Proof.
  intros H0 Hs. apply (ofold_prefix (fun _ => P)); [done|]. intros pre x post c -> Hc. apply Hs; [|done].
  apply elem_of_app. right. by left.
Qed.

#[export] Instance result_eq_dec {T E} `{EqDecision T, EqDecision E} : EqDecision (result T E).
Proof. solve_decision. Defined.

(** ** Tactics *)

(** Split the conditionals and matches the goal and the hypotheses are stuck on. *)
Ltac split_match :=
  repeat match goal with
  | H : context [match ?x with _ => _ end] |- _ => destruct x eqn:?; simplify_eq/=
  | |- context [match ?x with _ => _ end] => destruct x eqn:?; simplify_eq/=
  end.

Ltac bool_to_prop :=
  repeat match goal with
  | H : (_ && _)%bool = true |- _ => apply andb_true_iff in H; destruct H
  | H : (_ && _)%bool = false |- _ => apply andb_false_iff in H
  | H : (_ || _)%bool = true |- _ => apply orb_true_iff in H
  | H : (_ || _)%bool = false |- _ => apply orb_false_iff in H; destruct H
  | H : negb _ = true |- _ => apply negb_true_iff in H
  | H : negb _ = false |- _ => apply negb_false_iff in H
  | H : Nat.eqb _ _ = true |- _ => apply Nat.eqb_eq in H
  | H : Nat.eqb _ _ = false |- _ => apply Nat.eqb_neq in H
  | H : Nat.ltb _ _ = true |- _ => apply Nat.ltb_lt in H
  | H : Nat.ltb _ _ = false |- _ => apply Nat.ltb_ge in H
  | H : Nat.leb _ _ = true |- _ => apply Nat.leb_le in H
  | H : Nat.leb _ _ = false |- _ => apply Nat.leb_gt in H
  | H : Z.ltb _ _ = true |- _ => apply Z.ltb_lt in H
  | H : Z.ltb _ _ = false |- _ => apply Z.ltb_ge in H
  | H : Z.leb _ _ = true |- _ => apply Z.leb_le in H
  | H : Z.leb _ _ = false |- _ => apply Z.leb_gt in H
  | H : bool_decide _ = true |- _ => apply bool_decide_eq_true in H
  | H : bool_decide _ = false |- _ => apply bool_decide_eq_false in H
  end.

(** ** Lists *)

Create HintDb zen.

Section lists.
Context {A : Type}.

(** A duplicate-free list of numbers below [n] with at least [n] elements is
    a permutation of [0 .. n-1]. *)
Lemma NoDup_below_Permutation (l : list nat) n :
  NoDup l -> (forall x, x ∈ l -> x < n) -> n <= length l -> l ≡ₚ seq 0 n.
Proof.
  intros Hnd Hb Hlen. apply (submseteq_length_Permutation l).
  - apply NoDup_submseteq; [done|]. intros x Hx%Hb. apply elem_of_seq; lia.
  - rewrite length_seq; lia.
Qed.

Lemma NoDup_below_length (l : list nat) n :
  NoDup l -> (forall x, x ∈ l -> x < n) -> length l <= n.
Proof.
  intros Hnd Hb. rewrite <- (length_seq n 0).
  apply submseteq_length, NoDup_submseteq; [done|].
  intros x Hx%Hb. apply elem_of_seq; lia.
Qed.

Lemma list_alter_lookup (f : A -> A) (l : list A) i j :
  alter f i l !! j = if decide (i = j) then f <$> l !! j else l !! j.
Proof.
  case_decide; subst; [apply list_lookup_alter_eq | by apply list_lookup_alter_ne].
Qed.

Lemma fmap_Some_lookup_lt {B} (f : A -> B) (l : list A) i :
  i < length l -> exists x, l !! i = Some x /\ (f <$> l) !! i = Some (f x).
Proof.
  intros Hi. destruct (lookup_lt_is_Some_2 l i Hi) as [x Hx].
  exists x. by rewrite list_lookup_fmap, Hx.
Qed.

Lemma list_filter_none (P : A -> Prop) `{forall x, Decision (P x)} (l : list A) :
  (forall x, x ∈ l -> ~ P x) -> filter P l = [].
Proof.
  induction l as [|x l IH]; intros Hl; [done|]. rewrite filter_cons_False by (apply Hl; left).
  apply IH. intros y Hy. apply Hl. by right.
Qed.

Lemma list_filter_all (P : A -> Prop) `{forall x, Decision (P x)} (l : list A) :
  (forall x, x ∈ l -> P x) -> filter P l = l.
Proof.
  induction l as [|x l IH]; intros Hall; [done|].
  rewrite filter_cons, decide_True by (apply Hall; left). f_equal.
  apply IH. intros y Hy. apply Hall. by right.
Qed.

Lemma concat_singletons (l : list A) : concat (map (fun x => [x]) l) = l.
Proof. induction l as [|x l IH]; [done|]. simpl. by rewrite IH. Qed.

(** In a duplicate-free concatenation an element has one block. *)
Lemma NoDup_concat_inj (ls : list (list A)) k k' l l' x :
  NoDup (concat ls) -> ls !! k = Some l -> x ∈ l -> ls !! k' = Some l' -> x ∈ l' -> k = k'.
Proof.
  assert (Hin : forall (ls : list (list A)) k l x,
    ls !! k = Some l -> x ∈ l -> x ∈ concat ls).
  { intros ms m z y Hm Hy. apply list_elem_of_In, in_concat. exists z.
    split; apply list_elem_of_In; [by eapply list_elem_of_lookup_2|done]. }
  revert k k'. induction ls as [|l0 ls IH]; intros k k' Hnd Hk Hx Hk' Hx'; [done|].
  simpl in Hnd. apply NoDup_app in Hnd as (_ & Hd & Hnd).
  destruct k, k'; simplify_eq/=; [done| | |f_equal; eauto].
  - exfalso. eapply Hd; eauto.
  - exfalso. eapply Hd; eauto.
Qed.
End lists.

#[export] Hint Resolve NoDup_below_length : zen.
