(* ===== verification/Types.v ===== *)
(** * Shared types

    Models the parts of [crates/zen-core/src/types.rs] that several components
    share: the sensitivity of data and the role of a message. *)

From S2P Require Import Prelude.
Local Open Scope string_scope.

(** ** Sensitivity *)

Inductive Sensitivity := Public | Private | Confidential.

#[export] Instance Sensitivity_eq_dec : EqDecision Sensitivity.
Proof. solve_decision. Defined.

Definition sensitivity_str (s : Sensitivity) : string :=
  match s with Public => "Public" | Private => "Private" | Confidential => "Confidential" end.

(** The derived order. *)
Definition sensitivity_rank (s : Sensitivity) : nat :=
  match s with Public => 0 | Private => 1 | Confidential => 2 end.
Definition sensitivity_max (a b : Sensitivity) : Sensitivity :=
  if (sensitivity_rank b <=? sensitivity_rank a)%nat then a else b.
Definition max_of (items : list Sensitivity) : Sensitivity :=
  match items with [] => Public | s :: rest => fold_left sensitivity_max rest s end.

(** ** Roles *)

Inductive MessageRole := System | User | Assistant | Tool.
Definition role_str (r : MessageRole) : string :=
  match r with System => "system" | User => "user" | Assistant => "assistant" | Tool => "tool" end.
Definition parse_role (s : string) : option MessageRole :=
  if String.eqb s "system" then Some System
  else if String.eqb s "user" then Some User
  else if String.eqb s "assistant" then Some Assistant
  else if String.eqb s "tool" then Some Tool
  else None.

Lemma parse_role_str r : parse_role (role_str r) = Some r.
Proof. by destruct r. Qed.
