(* ===== verification/Json.v ===== *)
(** * The JSON values the handlers read and build

    [serde_json::Value] is third-party code: the handlers are generic in a type
    of JSON values with the accessors and constructors the source calls
    ([get], [as_str], [as_array], the [json!] macro, [to_string]).
    [JsonLaws] is the documented behaviour of these calls that proofs rely on;
    [JVal] is a small concrete implementation that discharges it. *)

From S2P Require Import Prelude.

(** ** Interface *)

Class Json (V : Type) := {
  j_get : V -> string -> option V;          (* Value::get(key) *)
  j_as_str : V -> option string;            (* Value::as_str *)
  j_as_array : V -> option (list V);        (* Value::as_array *)
  j_is_null : V -> bool;                    (* matches!(v, Value::Null) *)
  j_as_bool : V -> option bool;             (* Value::as_bool *)
  j_as_u64 : V -> option N;                 (* Value::as_u64 *)
  j_as_i64 : V -> option Z;                 (* Value::as_i64 *)
  j_as_object : V -> option (list (string * V)); (* Value::as_object, in the map's order *)
  j_null : V;                               (* json!(null) *)
  j_bool : bool -> V;                       (* json!(b) *)
  j_int : Z -> V;                           (* json!(n) *)
  j_str : string -> V;                      (* json!(s) *)
  j_arr : list V -> V;                      (* json!([..]) *)
  j_obj : list (string * V) -> V;           (* json!({..}) with distinct keys *)
  j_to_string : V -> string;                (* Value::to_string *)
}.

(** First binding of a key in the fields of an object literal. *)
Fixpoint assoc {V} (k : string) (fields : list (string * V)) : option V :=
  match fields with
  | [] => None
  | (k', v) :: rest => if String.eqb k' k then Some v else assoc k rest
  end.

Class JsonLaws (V : Type) `{Json V} := {
  j_get_obj : forall fields k,
    NoDup (fields.*1) -> j_get (j_obj fields) k = assoc k fields;
  j_as_str_str : forall s, j_as_str (j_str s) = Some s;
}.

(** ** A concrete implementation *)

Inductive jval : Type :=
  | JNull
  | JBool (b : bool)
  | JNum (n : Z)
  | JStr (s : string)
  | JArr (l : list jval)
  | JObj (fields : list (string * jval)).

Definition jval_get (v : jval) (k : string) : option jval :=
  match v with JObj fields => assoc k fields | _ => None end.

Definition jval_as_str (v : jval) : option string :=
  match v with JStr s => Some s | _ => None end.

Definition jval_as_array (v : jval) : option (list jval) :=
  match v with JArr l => Some l | _ => None end.

Definition jval_is_null (v : jval) : bool :=
  match v with JNull => true | _ => false end.

Definition jval_as_bool (v : jval) : option bool :=
  match v with JBool b => Some b | _ => None end.

Definition jval_as_u64 (v : jval) : option N :=
  match v with JNum n => if (0 <=? n)%Z && (n <? 2 ^ 64)%Z then Some (Z.to_N n) else None | _ => None end.

Definition jval_as_i64 (v : jval) : option Z :=
  match v with JNum n => if (- 2 ^ 63 <=? n)%Z && (n <? 2 ^ 63)%Z then Some n else None | _ => None end.

Definition jval_as_object (v : jval) : option (list (string * jval)) :=
  match v with JObj fields => Some fields | _ => None end.

#[export] Instance jval_json : Json jval := {
  j_get := jval_get;
  j_as_str := jval_as_str;
  j_as_array := jval_as_array;
  j_is_null := jval_is_null;
  j_as_bool := jval_as_bool;
  j_as_u64 := jval_as_u64;
  j_as_i64 := jval_as_i64;
  j_as_object := jval_as_object;
  j_null := JNull;
  j_bool := JBool;
  j_int := JNum;
  j_str := JStr;
  j_arr := JArr;
  j_obj := JObj;
  j_to_string := fun _ => "{}"%string;
}.

#[export] Instance jval_laws : JsonLaws jval.
Proof. split; reflexivity. Qed.
