(* ===== verification/Text.v ===== *)
(** * Rust strings as sequences of [char]s

    A [&str] is the sequence of Unicode scalar values it encodes: [text] is a
    list of code points, and [utf8] decodes a Rocq string literal (whose bytes
    are UTF-8) into one, so that the literals of the source can be written as
    they are.  The operations are those of [core::str] the components use. *)

From S2P Require Import Prelude.
From Stdlib Require Import Lia.
Local Open Scope N_scope.

Definition char : Type := N.
Abbreviation text := (list char).

(** ** UTF-8 *)

(** Bytes of one scalar value ([char::len_utf8]). *)
Definition len_utf8 (c : char) : nat :=
  if c <? 128 then 1%nat
  else if c <? 2048 then 2%nat
  else if c <? 65536 then 3%nat
  else 4%nat.

(** [str::len]: the length in bytes. *)
Fixpoint str_len (t : text) : nat :=
  match t with
  | [] => 0
  | c :: t' => len_utf8 c + str_len t'
  end%nat.

(** Decoding of well-formed UTF-8 (a truncated sequence ends the text). *)
Fixpoint utf8_decode (bs : list N) : text :=
  match bs with
  | [] => []
  | b0 :: r0 =>
    if b0 <? 128 then b0 :: utf8_decode r0
    else match r0 with
    | [] => []
    | b1 :: r1 =>
      if b0 <? 224 then ((b0 - 192) * 64 + (b1 - 128)) :: utf8_decode r1
      else match r1 with
      | [] => []
      | b2 :: r2 =>
        if b0 <? 240 then
          ((b0 - 224) * 4096 + (b1 - 128) * 64 + (b2 - 128)) :: utf8_decode r2
        else match r2 with
        | [] => []
        | b3 :: r3 =>
          ((b0 - 240) * 262144 + (b1 - 128) * 4096 + (b2 - 128) * 64 + (b3 - 128))
            :: utf8_decode r3
        end
      end
    end
  end.

Definition utf8 (s : string) : text :=
  utf8_decode (map Ascii.N_of_ascii (String.list_ascii_of_string s)).

(** The encoder, for the texts that end up in [String.string] messages. *)
Definition utf8_encode_char (c : char) : list N :=
  if c <? 128 then [c]
  else if c <? 2048 then [192 + c / 64; 128 + c mod 64]
  else if c <? 65536 then [224 + c / 4096; 128 + (c / 64) mod 64; 128 + c mod 64]
  else [240 + c / 262144; 128 + (c / 4096) mod 64; 128 + (c / 64) mod 64; 128 + c mod 64].

Definition to_string (t : text) : string :=
  String.string_of_list_ascii (map Ascii.ascii_of_N (flat_map utf8_encode_char t)).

Example utf8_brackets : utf8 "⟦a⟧" = [10214; 97; 10215].
Proof. reflexivity. Qed.

Example utf8_back : to_string (utf8 "é⟦x⟧…") = "é⟦x⟧…"%string.
Proof. reflexivity. Qed.

Lemma length_utf8_encode_char c : length (utf8_encode_char c) = len_utf8 c.
Proof. unfold utf8_encode_char, len_utf8. by repeat case_match. Qed.

(** A line feed. *)
Definition nl : string := String (Ascii.ascii_of_N 10) EmptyString.

(** ** Character classes *)

(** [char::is_whitespace] (the Unicode White_Space property). *)
Definition is_whitespace (c : char) : bool :=
  ((9 <=? c) && (c <=? 13)) || (c =? 32) || (c =? 133) || (c =? 160) || (c =? 5760)
  || ((8192 <=? c) && (c <=? 8202)) || (c =? 8232) || (c =? 8233) || (c =? 8239)
  || (c =? 8287) || (c =? 12288).

Definition is_ascii_digit (c : char) : bool := (48 <=? c) && (c <=? 57).

(** [char::to_ascii_lowercase]. *)
Definition ascii_lower (c : char) : char :=
  if (65 <=? c) && (c <=? 90) then c + 32 else c.

(** [char::to_ascii_uppercase]. *)
Definition ascii_upper (c : char) : char :=
  if (97 <=? c) && (c <=? 122) then c - 32 else c.

(** ** Searching and rewriting *)

(** [str::starts_with]. *)
Fixpoint starts_with (t p : text) : bool :=
  match p, t with
  | [], _ => true
  | _ :: _, [] => false
  | c :: p', d :: t' => (c =? d) && starts_with t' p'
  end.

(** [str::ends_with]. *)
Definition ends_with (t p : text) : bool := starts_with (rev t) (rev p).

(** [str::find], as a [char] index. *)
Fixpoint find (t p : text) : option nat :=
  if starts_with t p then Some 0%nat
  else match t with
       | [] => None
       | _ :: t' => S <$> find t' p
       end.

(** [str::contains]. *)
Definition contains (t p : text) : bool := bool_decide (is_Some (find t p)).

(** [str::replace] for a non-empty pattern: leftmost, non-overlapping.  [skip]
    counts the characters of the current match still to be dropped. *)
Fixpoint replace_go (pat rep t : text) (skip : nat) : text :=
  match t with
  | [] => []
  | c :: t' =>
    match skip with
    | S k => replace_go pat rep t' k
    | O => if starts_with (c :: t') pat
           then rep ++ replace_go pat rep t' (length pat - 1)
           else c :: replace_go pat rep t' 0
    end
  end.

Definition replace (t pat rep : text) : text :=
  match pat with
  | [] => rep ++ flat_map (fun c => c :: rep) t
  | _ :: _ => replace_go pat rep t 0
  end.

(** [str::trim_start], [str::trim]. *)
Fixpoint trim_start (t : text) : text :=
  match t with
  | [] => []
  | c :: t' => if is_whitespace c then trim_start t' else t
  end.
Definition trim (t : text) : text := rev (trim_start (rev (trim_start t))).
Definition trim_end (t : text) : text := rev (trim_start (rev t)).

(** First token of [str::split_whitespace], or [""]. *)
Fixpoint take_while (p : char -> bool) (t : text) : text :=
  match t with
  | [] => []
  | c :: t' => if p c then c :: take_while p t' else []
  end.
Definition first_token (t : text) : text :=
  take_while (fun c => negb (is_whitespace c)) (trim_start t).

(** [str::split] on one character (always at least one piece). *)
Fixpoint split_on (sep : char) (t : text) : list text :=
  match t with
  | [] => [[]]
  | c :: t' =>
    if c =? sep then [] :: split_on sep t'
    else match split_on sep t' with
         | [] => [[c]]
         | piece :: rest => (c :: piece) :: rest
         end
  end.

(** [split_whitespace]. *)
Fixpoint split_whitespace_go (t : text) : list text :=
  match t with
  | [] => [[]]
  | c :: t' =>
    if is_whitespace c then [] :: split_whitespace_go t'
    else match split_whitespace_go t' with
         | [] => [[c]]
         | piece :: rest => (c :: piece) :: rest
         end
  end.
Definition split_whitespace (t : text) : list text :=
  filter (fun piece => piece <> []) (split_whitespace_go t).

(** [FromStr] of an unsigned integer: an optional plus sign and decimal digits. *)
Definition digits_value (t : text) : N := fold_left (fun n c => n * 10 + (c - 48))%N t 0%N.
Definition parse_unsigned (width : N) (t : text) : option N :=
  let ds := match t with 43%N :: (_ :: _) => tl t | _ => t end in
  match ds with
  | [] => None
  | _ => if forallb is_ascii_digit ds && (digits_value ds <? 2 ^ width)%N then Some (digits_value ds) else None
  end.

(** [str::split_once] on a character. *)
Fixpoint split_once (sep : char) (t : text) : option (text * text) :=
  match t with
  | [] => None
  | c :: t' => if (c =? sep)%N then Some ([], t') else '(a, b) ← split_once sep t'; Some (c :: a, b)
  end.

(** [str::split_once] on a predicate. *)
Fixpoint split_once_by (p : char -> bool) (t : text) : option (text * text) :=
  match t with
  | [] => None
  | c :: t' => if p c then Some ([], t') else '(a, b) ← split_once_by p t'; Some (c :: a, b)
  end.

(** [str::strip_prefix], [str::strip_suffix]. *)
Definition strip_prefix (t p : text) : option text := if starts_with t p then Some (drop (length p) t) else None.
Definition strip_suffix (t p : text) : option text :=
  if ends_with t p then Some (take (length t - length p) t) else None.

(** [str::trim_start_matches] on a set of characters. *)
Fixpoint trim_start_matches (p : char -> bool) (t : text) : text :=
  match t with
  | [] => []
  | c :: t' => if p c then trim_start_matches p t' else t
  end.
Definition trim_matches (p : char -> bool) (t : text) : text :=
  rev (trim_start_matches p (rev (trim_start_matches p t))).

(** [str::lines]: the pieces before line feeds, each without one carriage return
    at its end, and the piece after the last line feed unless it is empty. *)
Definition chop_return (t : text) : text := default t (strip_suffix t [13]).
Definition lines (t : text) : list text :=
  let pieces := split_on 10 t in
  map chop_return (removelast pieces) ++ match last pieces with Some ((_ :: _) as open) => [open] | _ => [] end.

(** [join] with a line feed. *)
Fixpoint join_lines (l : list text) : text :=
  match l with
  | [] => []
  | [t] => t
  | t :: rest => t ++ 10 :: join_lines rest
  end.

(** [matches(pat).count()]; an empty pattern is found around every character. *)
Fixpoint count_matches (fuel : nat) (pat t : text) : nat :=
  match fuel with
  | O => 0%nat
  | S f => match find t pat with Some i => S (count_matches f pat (drop (i + length pat) t)) | None => 0%nat end
  end.
Definition matches (t pat : text) : nat := match pat with [] => S (length t) | _ => count_matches (length t) pat t end.

(** [replacen(pat, rep, 1)]. *)
Definition replace_first (t pat rep : text) : text :=
  match find t pat with Some i => take i t ++ rep ++ drop (i + length pat) t | None => t end.

Example replace_ex : replace (utf8 "aXbXX") (utf8 "X") (utf8 "yz") = utf8 "ayzbyzyz".
Proof. reflexivity. Qed.

(** ** Facts on searching and rewriting *)

Local Close Scope N_scope.

(** [p] occurs in [t]. *)
Definition infix (p t : text) : Prop := exists u v, t = u ++ p ++ v.

Lemma starts_with_spec t p : starts_with t p = true <-> exists v, t = p ++ v.
Proof.
  revert t. induction p as [|c p IH]; intros t.
  { destruct t; simpl; split; intros; by eauto. }
  destruct t as [|d t]; simpl; [split; [done|intros [v Hv]; discriminate Hv]|].
  rewrite andb_true_iff, N.eqb_eq, IH. split.
  - intros [-> [v ->]]. by exists v.
  - intros [v [= -> ->]]. split; [done|]. by exists v.
Qed.

Lemma starts_with_app p v : starts_with (p ++ v) p = true.
Proof. apply starts_with_spec. by exists v. Qed.

Lemma find_eq t p : find t p =
  if starts_with t p then Some 0 else match t with [] => None | _ :: t' => S <$> find t' p end.
Proof. by destruct t. Qed.

Lemma find_Some t p n : find t p = Some n ->
  exists u v, t = u ++ p ++ v /\ length u = n.
Proof.
  revert n. induction t as [|c t IH]; intros n; rewrite find_eq;
    (destruct (starts_with _ p) eqn:Hs;
      [intros [= <-]; apply starts_with_spec in Hs as [v Hv]; by exists [], v|]); [done|].
  destruct (find t p) as [m|]; simpl; [|done]. intros [= <-].
  destruct (IH m eq_refl) as (u & v & -> & <-). by exists (c :: u), v.
Qed.

(** [find] answers the leftmost occurrence. *)
Lemma find_infix t p u v : t = u ++ p ++ v -> exists n, find t p = Some n /\ n <= length u.
Proof.
  revert u. induction t as [|c t IH]; intros u Huv; rewrite find_eq;
    (destruct (starts_with _ p) eqn:Hs; [exists 0; split; [done|lia]|]).
  - destruct u, p; simplify_eq/=.
  - destruct u as [|d u]; simplify_eq/=.
    + exfalso. pose proof (starts_with_app p v) as Hc. rewrite <- Huv in Hc. simpl in Hc. congruence.
    + destruct (IH u eq_refl) as (n & -> & Hn). exists (S n). split; [done|lia].
Qed.

Lemma contains_spec t p : contains t p = true <-> infix p t.
Proof.
  unfold contains. rewrite bool_decide_eq_true. split.
  - intros [n (u & v & -> & _)%find_Some]. by exists u, v.
  - intros (u & v & Huv). destruct (find_infix t p u v Huv) as (n & -> & _). by exists n.
Qed.

Lemma find_None t p : find t p = None <-> ~ infix p t.
Proof.
  rewrite <- contains_spec. unfold contains. rewrite bool_decide_eq_true.
  destruct (find t p) as [n|]; [|split; [|done]; by intros _ []].
  split; [done|]. intros Hn. exfalso. by apply Hn.
Qed.

(** What holds a text holds its parts. *)
Lemma contains_mono t p q : infix q p -> contains t p = true -> contains t q = true.
Proof.
  rewrite !contains_spec. intros (u & v & ->) (a & b & ->). exists (a ++ u), (v ++ b).
  rewrite <- !app_assoc. done.
Qed.

Lemma infix_app_l p u t : infix p t -> infix p (u ++ t).
Proof. intros (x & y & ->). exists (u ++ x), y. by rewrite <- app_assoc. Qed.

Lemma replace_go_skip pat rep u t :
  replace_go pat rep (u ++ t) (length u) = replace_go pat rep t 0.
Proof. induction u as [|c u IH]; simpl; [done|apply IH]. Qed.

Lemma replace_go_hit pat rep v : pat <> [] ->
  replace_go pat rep (pat ++ v) 0 = rep ++ replace_go pat rep v 0.
Proof.
  intros Hp. destruct pat as [|c pat]; [done|]. cbn [app replace_go].
  change (c :: pat ++ v) with ((c :: pat) ++ v). rewrite starts_with_app.
  f_equal. simpl. rewrite Nat.sub_0_r. apply replace_go_skip.
Qed.

(** Characters that do not start an occurrence are copied. *)
Lemma replace_go_miss pat rep c t :
  starts_with (c :: t) pat = false -> replace_go pat rep (c :: t) 0 = c :: replace_go pat rep t 0.
Proof. intros Hs. cbn [replace_go]. by rewrite Hs. Qed.

Lemma replace_nonempty t pat rep : pat <> [] -> replace t pat rep = replace_go pat rep t 0.
Proof. by destruct pat. Qed.

(** Lines joined with line feeds are the text they were split from. *)
Lemma split_on_nonempty sep t : split_on sep t <> [].
Proof. destruct t as [|c t]; cbn [split_on]; [done|]. destruct (c =? sep)%N; [done|]. by destruct (split_on sep t). Qed.

Lemma join_lines_cons t l : l <> [] -> join_lines (t :: l) = t ++ 10%N :: join_lines l.
Proof. by destruct l. Qed.

Lemma join_lines_feeds t l : join_lines (t :: l) = t ++ concat (map (cons 10%N) l).
Proof.
  revert t. induction l as [|u l IH]; intros t; [by rewrite app_nil_r|].
  rewrite join_lines_cons by done. by rewrite IH.
Qed.

Lemma join_split t : join_lines (split_on 10%N t) = t.
Proof.
  induction t as [|c t IH]; [done|]. cbn [split_on]. destruct (N.eqb_spec c 10) as [->|N].
  - rewrite join_lines_cons by apply split_on_nonempty. by rewrite IH.
  - pose proof (split_on_nonempty 10%N t) as H. destruct (split_on 10%N t) as [|p rest]; [done|].
    destruct rest; cbn [join_lines] in *; by rewrite <- IH.
Qed.
