(* ===== verification/PlanTask.v ===== *)
(** * [plan.execute]: parsing a plan and layering its dependency graph

    Models [crates/zen-agents/src/plan_task.rs]: [FailureAction],
    [PlanTaskSpec], [PlanSpec], [parse_plan], [parse_failure_action],
    [parse_artifact] and the Kahn layering [topological_layers]. *)

From S2P Require Import Prelude Text Json.
From Stdlib Require Import Lia.
Local Open Scope string_scope.

Definition MAX_PLAN_TASKS : nat := 12.
Definition MAX_PLAN_LAYERS : nat := 3.

Inductive FailureAction := Skip | Retry | Halt.

#[export] Instance FailureAction_eq_dec : EqDecision FailureAction.
Proof. solve_decision. Defined.

Record PlanTaskSpec := {
  id : string;
  agent : string;
  prompt : string;
  depends_on : list string;
  on_failure : FailureAction;
  artifact : option string;
}.

Record PlanSpec := {
  name : option string;
  tasks : list PlanTaskSpec;
}.

(** ** Parsing *)

Definition FailureAction_parse (value : string) : result FailureAction string :=
  if String.eqb value "skip" then Ok Skip
  else if String.eqb value "retry" then Ok Retry
  else if String.eqb value "halt" then Ok Halt
  else Err ("invalid on_failure `" ++ value ++ "` (expected retry|skip|halt)").

Definition duplicate_id_error (tid : string) : string :=
  "duplicate task id `" ++ tid ++ "`".

Definition unknown_dep_error (tid dep : string) : string :=
  "task `" ++ tid ++ "` depends on unknown task `" ++ dep ++ "`".

(** [ids.contains(&x)]. *)
Definition str_in (x : string) (l : list string) : bool := existsb (String.eqb x) l.

Section parse.
Context {V : Type} `{Json V}.

(** The [on_failure] field: absent or null is [Skip]; a string is parsed; any
    other shape is an error. *)
Definition parse_failure_action (item : V) (tid : string) : result FailureAction string :=
  match j_get item "on_failure" with
  | None => Ok Skip
  | Some v =>
    if j_is_null v then Ok Skip
    else match j_as_str v with
         | Some value =>
           match FailureAction_parse value with
           | Ok a => Ok a
           | Err e => Err ("task `" ++ tid ++ "` has " ++ e)
           end
         | None => Err ("task `" ++ tid ++ "` has a non-string `on_failure`")
         end
  end.

Definition parse_artifact (item : V) (tid : string) : result (option string) string :=
  match j_get item "artifact" with
  | None => Ok None
  | Some v =>
    if j_is_null v then Ok None
    else match j_as_str v with
         | Some value =>
           match trim (utf8 value) with
           | [] => Err ("task `" ++ tid ++ "` has an empty `artifact` path")
           | _ :: _ => Ok (Some value)
           end
         | None => Err ("task `" ++ tid ++ "` has a non-string `artifact` path")
         end
  end.

(** [item.get(key).and_then(|v| v.as_str())]. *)
Definition get_str (item : V) (key : string) : option string :=
  j_get item key ≫= j_as_str.

Fixpoint parse_deps (tid : string) (deps : list V) : result (list string) string :=
  match deps with
  | [] => Ok []
  | d :: rest =>
    match j_as_str d with
    | None => Err ("task `" ++ tid ++ "` has a non-string dependency")
    | Some dep => let? more := parse_deps tid rest in Ok (dep :: more)
    end
  end.

(** One turn of the loop over the [tasks] array. *)
Definition parse_task (item : V) : result PlanTaskSpec string :=
  match get_str item "id" with
  | None => Err "every plan task needs a string `id`"
  | Some tid =>
  match get_str item "agent" with
  | None => Err ("task `" ++ tid ++ "` needs a string `agent`")
  | Some ag =>
  match get_str item "prompt" with
  | None => Err ("task `" ++ tid ++ "` needs a string `prompt`")
  | Some pr =>
    let? deps := match j_get item "depends_on" ≫= j_as_array with
                 | Some l => parse_deps tid l
                 | None => Ok []
                 end in
    let? onf := parse_failure_action item tid in
    let? art := parse_artifact item tid in
    Ok {| id := tid; agent := ag; prompt := pr; depends_on := deps;
          on_failure := onf; artifact := art |}
  end end end.

Fixpoint parse_tasks (items : list V) : result (list PlanTaskSpec) string :=
  match items with
  | [] => Ok []
  | item :: rest =>
    let? t := parse_task item in
    let? ts := parse_tasks rest in
    Ok (t :: ts)
  end.
End parse.

(** The first dependency that names no task. *)
Fixpoint check_deps (ids : list string) (tid : string) (deps : list string)
    : result unit string :=
  match deps with
  | [] => Ok tt
  | dep :: rest =>
    if str_in dep ids then check_deps ids tid rest else Err (unknown_dep_error tid dep)
  end.

(** The validation loop: unique ids, and dependencies that exist.  [ids] are
    the ids of the whole plan; the tail of [ts] is [ids[i + 1..]]. *)
Fixpoint check_tasks (ids : list string) (ts : list PlanTaskSpec) : result unit string :=
  match ts with
  | [] => Ok tt
  | t :: rest =>
    if str_in (id t) (map id rest) then Err (duplicate_id_error (id t))
    else let? _ := check_deps ids (id t) (depends_on t) in
         check_tasks ids rest
  end.

Definition parse_plan {V} `{Json V} (args : V) : result PlanSpec string :=
  let nm := get_str args "name" in
  match j_get args "tasks" ≫= j_as_array with
  | None => Err "plan.execute requires a `tasks` array"
  | Some arr =>
    match arr with
    | [] => Err "plan.execute requires at least one task"
    | _ :: _ =>
      if (MAX_PLAN_TASKS <? length arr)%nat then
        Err ("plan has " ++ pretty (length arr) ++ " tasks; the cap is "
             ++ pretty MAX_PLAN_TASKS ++ " — split into multiple plans")
      else
        let? ts := parse_tasks arr in
        let? _ := check_tasks (map id ts) ts in
        Ok {| name := nm; tasks := ts |}
    end
  end.

(** ** Kahn layering *)

(** [plan.tasks.iter().position(|t| t.id == id)]. *)
Fixpoint position (ts : list PlanTaskSpec) (tid : string) : option nat :=
  match ts with
  | [] => None
  | t :: rest => if String.eqb (id t) tid then Some 0 else S <$> position rest tid
  end.
Definition index_of (plan : PlanSpec) (tid : string) : option nat := position (tasks plan) tid.

(** The counters of the build pass: [indegree] and [dependents]. *)
Record kahn := { indegree : list nat; dependents : list (list nat) }.

(** [indegree[i] += 1; dependents[j].push(i)]. *)
Definition add_edge (i j : nat) (st : kahn) : kahn :=
  {| indegree := alter S i (indegree st);
     dependents := alter (fun l => (l ++ [i])%list) j (dependents st) |}.

Fixpoint build_row (plan : PlanSpec) (i : nat) (tid : string) (deps : list string)
    (st : kahn) : result kahn string :=
  match deps with
  | [] => Ok st
  | dep :: rest =>
    match index_of plan dep with
    | None => Err (unknown_dep_error tid dep)
    | Some j => build_row plan i tid rest (add_edge i j st)
    end
  end.

Fixpoint build_rows (plan : PlanSpec) (i : nat) (ts : list PlanTaskSpec) (st : kahn)
    : result kahn string :=
  match ts with
  | [] => Ok st
  | t :: rest =>
    let? st' := build_row plan i (id t) (depends_on t) st in
    build_rows plan (S i) rest st'
  end.

(** The inner loop over [dependents[i]]: [indegree[d] -= 1] underflows (and
    panics under overflow checks) when the counter is already zero, and the
    index panics when out of bounds. *)
Fixpoint sweep_row (ds : list nat) (indeg : list nat) (next : list nat)
    : outcome (list nat * list nat) :=
  match ds with
  | [] => Done (indeg, next)
  | d :: rest =>
    match indeg !! d with
    | Some (S k) =>
      sweep_row rest (<[d := k]> indeg) (if (k =? 0)%nat then (next ++ [d])%list else next)
    | _ => Panic
    end
  end.

(** The loop over [&ready]. *)
Fixpoint sweep (deps_of : list (list nat)) (ready : list nat) (indeg next : list nat)
    : outcome (list nat * list nat) :=
  match ready with
  | [] => Done (indeg, next)
  | i :: rest =>
    match deps_of !! i with
    | None => Panic
    | Some ds =>
      let! (indeg', next') := sweep_row ds indeg next in
      sweep deps_of rest indeg' next'
    end
  end.

(** [while !ready.is_empty()]. *)
Fixpoint kahn_loop (fuel : nat) (deps_of : list (list nat)) (ready indeg : list nat)
    (layers : list (list nat)) (placed : nat) : outcome (list (list nat) * nat) :=
  match ready with
  | [] => Done (layers, placed)
  | _ :: _ =>
    match fuel with
    | O => OutOfFuel
    | S fuel' =>
      let! (indeg', next) := sweep deps_of ready indeg [] in
      kahn_loop fuel' deps_of next indeg' (layers ++ [ready])%list (placed + length ready)
    end
  end.

Definition cycle_error : string := "plan contains a dependency cycle".

Definition too_deep_error (k : nat) : string :=
  "plan spans " ++ pretty k ++ " layers; the cap is " ++ pretty MAX_PLAN_LAYERS
  ++ " — restructure or split the plan".

(** [Done (Ok layers)], [Done (Err message)], or a panic.  The loop is given
    one unit of fuel per task and one to notice that nothing is ready. *)
Definition topological_layers (plan : PlanSpec)
    : outcome (result (list (list nat)) string) :=
  let n := length (tasks plan) in
  let st0 := {| indegree := replicate n 0; dependents := replicate n [] |} in
  match build_rows plan 0 (tasks plan) st0 with
  | Err e => Done (Err e)
  | Ok st =>
    let ready := filter (fun i => indegree st !! i = Some 0) (seq 0 n) in
    let! (layers, placed) := kahn_loop (S n) (dependents st) ready (indegree st) [] 0 in
    if (placed <? n)%nat then Done (Err cycle_error)
    else if (MAX_PLAN_LAYERS <? length layers)%nat then Done (Err (too_deep_error (length layers)))
    else Done (Ok layers)
  end.
