(* ===== verification/PlanLayers.v ===== *)
(** * Correctness of the Kahn layering of [PlanTask]

    The combinatorial core of [topological_layers]: the build pass computes the
    transpose of the dependency lists, no counter ever underflows, the loop
    ends within its fuel, and its layers hold every task it reaches exactly
    once, each one layer after the deepest of its dependencies. *)

From S2P Require Import Prelude Text Json PlanTask.
From Stdlib Require Import Lia.

(** ** The dependency graph of a plan *)

(** Resolved dependencies of task [i], in the order of [depends_on]. *)
Definition rd (plan : PlanSpec) (i : nat) : list nat :=
  match tasks plan !! i with
  | Some t => omap (index_of plan) (depends_on t)
  | None => []
  end.

(** Task [i] lists task [j] in its [depends_on]. *)
Definition depends (plan : PlanSpec) (i j : nat) : Prop := j ∈ rd plan i.

(** Every dependency names a task of the plan, as [parse_plan] guarantees. *)
Definition deps_known (plan : PlanSpec) : Prop :=
  Forall (fun t => Forall (fun dep => is_Some (index_of plan dep)) (depends_on t)) (tasks plan).

(** No dependency cycle: the tasks can be ranked along their dependencies. *)
Definition acyclic (plan : PlanSpec) : Prop :=
  exists rank : nat -> nat, forall i j, depends plan i j -> rank j < rank i.

Lemma position_lt ts tid j : position ts tid = Some j -> j < length ts.
Proof.
  revert j. induction ts as [|t ts IH]; intros j; simpl; [done|].
  case_match; [intros [= <-]; lia|].
  destruct (position ts tid); simpl; intros [= <-]. specialize (IH n eq_refl). lia.
Qed.

Lemma rd_lt plan i j : j ∈ rd plan i -> j < length (tasks plan).
Proof.
  unfold rd. destruct (tasks plan !! i) as [t|]; [|by intros ?%elem_of_nil].
  intros (dep & _ & Hdep)%list_elem_of_omap. by eapply position_lt.
Qed.

Lemma rd_ge plan i : length (tasks plan) <= i -> rd plan i = [].
Proof. intros Hi. unfold rd. by rewrite (proj2 (lookup_ge_None _ _) Hi). Qed.

(** ** The build pass *)

(** [st] holds the counters of the dependency lists [pd]: indegrees are the
    lengths of the lists, and [dependents] is their transpose, with
    multiplicity. *)
Record Built (n : nat) (pd : nat -> list nat) (st : kahn) : Prop := {
  built_len : length (indegree st) = n;
  built_len' : length (dependents st) = n;
  built_indeg : forall i, i < n -> indegree st !! i = Some (length (pd i));
  built_rows : forall j, j < n -> exists ds, dependents st !! j = Some ds /\
    forall d, count_occ Nat.eq_dec ds d = count_occ Nat.eq_dec (pd d) j;
}.

Definition push_row (pd : nat -> list nat) (i : nat) (js : list nat) : nat -> list nat :=
  fun d => if decide (d = i) then pd d ++ js else pd d.

Lemma Built_ext n pd pd' st : (forall d, pd d = pd' d) -> Built n pd st -> Built n pd' st.
Proof.
  intros He [Hl Hl' Hi Hr]. split; [done..| |].
  - intros i Hi'. rewrite <- He. by apply Hi.
  - intros j Hj. destruct (Hr j Hj) as (ds & ? & Hc). exists ds; split; [done|].
    intros d. rewrite <- He. apply Hc.
Qed.

Lemma Built_add_edge n pd st i j :
  i < n -> j < n -> Built n pd st -> Built n (push_row pd i [j]) (add_edge i j st).
Proof.
  intros Hi Hj [Hl Hl' Hin Hr]. split; simpl.
  - by rewrite length_alter.
  - by rewrite length_alter.
  - intros i' Hi'. rewrite list_alter_lookup, Hin by done. unfold push_row.
    repeat case_decide; subst; simpl; try done. by rewrite length_app, Nat.add_comm.
  - intros j' Hj'. destruct (Hr j' Hj') as (ds & Hds & Hc).
    rewrite list_alter_lookup, Hds. unfold push_row.
    assert (Hcount : forall d, count_occ Nat.eq_dec (if decide (d = i) then pd d ++ [j] else pd d) j'
      = count_occ Nat.eq_dec ds d + (if decide (d = i) then if decide (j = j') then 1 else 0 else 0)).
    { intros d. rewrite Hc. case_decide; [|lia]. rewrite count_occ_app. simpl.
      destruct (Nat.eq_dec j j'), (decide (j = j')); congruence || lia. }
    case_decide as Hjj; simpl; eexists; (split; [done|]); intros d; rewrite Hcount.
    + rewrite count_occ_app. simpl.
      destruct (Nat.eq_dec i d), (decide (d = i)), (decide (j = j')); congruence || lia.
    + destruct (decide (d = i)), (decide (j = j')); congruence || lia.
Qed.

Lemma push_row_app pd i js js' d :
  push_row (push_row pd i js) i js' d = push_row pd i (js ++ js') d.
Proof. unfold push_row. case_decide; [by rewrite app_assoc|done]. Qed.

Lemma build_row_ok plan i tid deps pd st st' :
  i < length (tasks plan) -> Built (length (tasks plan)) pd st ->
  build_row plan i tid deps st = Ok st' ->
  Forall (fun dep => is_Some (index_of plan dep)) deps /\
  Built (length (tasks plan)) (push_row pd i (omap (index_of plan) deps)) st'.
Proof.
  intros Hi. revert pd st. induction deps as [|dep deps IH]; intros pd st HB; simpl.
  - intros [= ->]. split; [done|]. eapply Built_ext; [|done].
    intros d. unfold push_row. case_decide; [by rewrite app_nil_r|done].
  - destruct (index_of plan dep) as [j|] eqn:Hj; [|done]. intros Hrow.
    apply IH with (pd := push_row pd i [j]) in Hrow as [Hall HB'].
    + split; [constructor; eauto|].
      eapply Built_ext; [|done]. intros d. apply (push_row_app pd i [j]).
    + apply Built_add_edge; [done| |done]. by eapply position_lt.
Qed.

(** The lists of the tasks before [k]. *)
Definition rd_upto plan k d := if decide (d < k) then rd plan d else [].

Lemma build_rows_ok plan k ts st st' :
  drop k (tasks plan) = ts -> Built (length (tasks plan)) (rd_upto plan k) st ->
  build_rows plan k ts st = Ok st' ->
  Forall (fun t => Forall (fun dep => is_Some (index_of plan dep)) (depends_on t)) ts /\
  Built (length (tasks plan)) (rd plan) st'.
Proof.
  revert k st. induction ts as [|t ts IH]; intros k st Hts HB; simpl.
  - intros [= ->]. split; [done|]. eapply Built_ext; [|done].
    intros d. unfold rd_upto. case_decide; [done|]. symmetry. apply rd_ge.
    apply (f_equal length) in Hts. rewrite length_drop in Hts. simpl in Hts. lia.
  - assert (Hk : tasks plan !! k = Some t).
    { replace k with (k + 0) by lia. by rewrite <- lookup_drop, Hts. }
    assert (Hlt : k < length (tasks plan)) by (eapply lookup_lt_Some; done).
    destruct (build_row _ _ _ _ _) as [st1|e] eqn:Hrow; simpl; [|done]. intros Hrest.
    eapply build_row_ok in Hrow as [Hall HB1]; [|done..].
    apply IH in Hrest as [Hall' HB'].
    + split; [by constructor|done].
    + apply (f_equal (drop 1)) in Hts. rewrite drop_drop in Hts. simpl in Hts.
      by rewrite drop_0, Nat.add_1_r in Hts.
    + eapply Built_ext; [|exact HB1]. intros d. unfold push_row, rd_upto.
      destruct (decide (d = k)) as [->|].
      * rewrite !decide_False, decide_True by lia. unfold rd. by rewrite Hk.
      * destruct (decide (d < k)), (decide (d < S k)); done || lia.
Qed.

Lemma Built_init n plan :
  Built n (rd_upto plan 0) {| indegree := replicate n 0; dependents := replicate n [] |}.
Proof.
  split; simpl; [by rewrite length_replicate..| |].
  - intros i Hi. by rewrite lookup_replicate_2.
  - intros j Hj. exists []. by rewrite lookup_replicate_2.
Qed.

Lemma build_row_known plan i tid deps st :
  Forall (fun dep => is_Some (index_of plan dep)) deps ->
  exists st', build_row plan i tid deps st = Ok st'.
Proof.
  intros Hall. revert st. induction Hall as [|dep deps [j Hj] _ IH]; intros st; simpl; [eauto|].
  rewrite Hj. apply IH.
Qed.

Lemma build_rows_known plan k ts st :
  Forall (fun t => Forall (fun dep => is_Some (index_of plan dep)) (depends_on t)) ts ->
  exists st', build_rows plan k ts st = Ok st'.
Proof.
  intros Hall. revert k st. induction Hall as [|t ts Ht _ IH]; intros k st; simpl; [eauto|].
  destruct (build_row_known plan k (id t) (depends_on t) st Ht) as [st' ->]. simpl. apply IH.
Qed.

(** ** The sweep *)

(** Occurrences of dependencies of [d] that are not in [P]. *)
Definition pending (rdep : nat -> list nat) (P : list nat) (d : nat) : nat :=
  length (filter (fun j => j ∉ P) (rdep d)).

(** [Q] lists, once each, the tasks whose counter is zero. *)
Definition zeros (Q : list nat) (indeg : list nat) : Prop :=
  NoDup Q /\ forall d, d ∈ Q <-> indeg !! d = Some 0.

Lemma pending_snoc rdep P u d :
  u ∉ P ->
  pending rdep P d = pending rdep (P ++ [u]) d + count_occ Nat.eq_dec (rdep d) u.
Proof.
  intros Hu. unfold pending. induction (rdep d) as [|j js IH]; [done|].
  rewrite !filter_cons. simpl. destruct (Nat.eq_dec j u) as [->|Hne].
  - rewrite decide_True by done.
    rewrite decide_False by (rewrite elem_of_app, list_elem_of_singleton; tauto).
    simpl. lia.
  - destruct (decide (j ∉ P)), (decide (j ∉ P ++ [u])) as [Hn|Hn]; simpl; try lia.
    + exfalso. apply Hn. rewrite elem_of_app, list_elem_of_singleton. tauto.
    + exfalso. rewrite elem_of_app in Hn. tauto.
Qed.

Lemma pending_zero rdep P d : pending rdep P d = 0 <-> forall j, j ∈ rdep d -> j ∈ P.
Proof.
  unfold pending. rewrite length_zero_iff_nil. split.
  - intros Hf j Hj. destruct (decide (j ∈ P)) as [|Hn]; [done|].
    assert (Hin : j ∈ filter (fun j => j ∉ P) (rdep d)) by (by apply list_elem_of_filter).
    rewrite Hf in Hin. by apply elem_of_nil in Hin.
  - intros Hall. apply elem_of_nil_inv. intros j [Hn Hj]%list_elem_of_filter. auto.
Qed.

(** One row: the counter of [d] drops by the occurrences of [d] in the row,
    never below zero, and the tasks that reach zero are appended to [next]. *)
Lemma sweep_row_spec n Q tgt ds indeg next :
  length indeg = n ->
  (forall d, d ∈ ds -> d < n) ->
  (forall d, d < n -> indeg !! d = Some (tgt d + count_occ Nat.eq_dec ds d)) ->
  zeros (Q ++ next) indeg ->
  exists indeg' more, sweep_row ds indeg next = Done (indeg', next ++ more) /\
    length indeg' = n /\ (forall d, d < n -> indeg' !! d = Some (tgt d)) /\
    zeros (Q ++ next ++ more) indeg' /\ (forall d, d ∈ more -> d ∈ ds).
Proof.
  revert indeg next. induction ds as [|d ds IH]; intros indeg next Hlen Hlt Hin [Hnd Hz].
  { exists indeg, []. rewrite app_nil_r. split_and!; try done.
    intros d Hd. by rewrite Hin, Nat.add_0_r. }
  assert (Hd : d < n) by (apply Hlt; left).
  assert (Hd0 : indeg !! d = Some (S (tgt d + count_occ Nat.eq_dec ds d))).
  { rewrite Hin by done. f_equal. simpl. destruct (Nat.eq_dec d d); [lia|done]. }
  assert (Hnew : d ∉ Q ++ next) by (rewrite Hz; congruence).
  set (k := tgt d + count_occ Nat.eq_dec ds d) in *.
  simpl. rewrite Hd0.
  assert (Hstep : forall Q' : list nat, (forall x, x ∈ Q' <-> x ∈ Q ++ next \/ (k = 0 /\ x = d)) ->
            forall x, x ∈ Q' <-> <[d:=k]> indeg !! x = Some 0).
  { intros Q' HQ x. rewrite HQ, Hz. destruct (decide (x = d)) as [->|Hne].
    - rewrite list_lookup_insert_eq, Hd0 by lia. naive_solver.
    - rewrite list_lookup_insert_ne by done. naive_solver. }
  set (next1 := if k =? 0 then next ++ [d] else next).
  assert (Hz1 : zeros (Q ++ next1) (<[d:=k]> indeg)).
  { unfold next1. destruct (Nat.eqb_spec k 0) as [Hk|Hk]; split.
    - rewrite app_assoc. apply NoDup_app. split_and!; [done| |apply NoDup_singleton].
      by intros x Hx ->%list_elem_of_singleton.
    - apply Hstep. intros x. rewrite !elem_of_app, list_elem_of_singleton. naive_solver.
    - done.
    - apply Hstep. naive_solver. }
  destruct (IH (<[d:=k]> indeg) next1) as (indeg' & more & Hs & Hl' & Ht' & Hz' & Hm); [..|done|].
  - by rewrite length_insert.
  - intros x Hx. apply Hlt. by right.
  - intros x Hx. destruct (decide (x = d)) as [->|Hne].
    + by rewrite list_lookup_insert_eq by lia.
    + rewrite list_lookup_insert_ne, Hin by done. f_equal. simpl.
      destruct (Nat.eq_dec d x); [congruence|done].
  - assert (Hcons : forall x, x ∈ more -> x ∈ d :: ds) by (intros x Hx; right; auto).
    unfold next1 in *. destruct (k =? 0).
    + exists indeg', (d :: more). rewrite <- app_assoc in Hs, Hz'. split_and!; [done..|].
      intros x [->|Hx]%elem_of_cons; [left|auto].
    + exists indeg', more. split_and!; done.
Qed.

(** The rows are the transpose of [rdep]. *)
Definition transposes (n : nat) (rdep : nat -> list nat) (rows : list (list nat)) : Prop :=
  forall j, j < n -> exists ds, rows !! j = Some ds /\
    forall d, count_occ Nat.eq_dec ds d = count_occ Nat.eq_dec (rdep d) j.

Section loop.
Context (n : nat) (rdep : nat -> list nat) (rows : list (list nat)).
Context (rdep_ge : forall d, n <= d -> rdep d = []).
Context (rows_ok : transposes n rdep rows).

Lemma row_elem j ds d : j < n -> rows !! j = Some ds -> d ∈ ds -> d < n /\ j ∈ rdep d.
Proof.
  intros Hj Hds Hd. destruct (rows_ok j Hj) as (ds' & Hds' & Hc). simplify_eq.
  assert (Hin : j ∈ rdep d).
  { apply list_elem_of_In, (count_occ_In Nat.eq_dec). rewrite <- Hc.
    apply count_occ_In. by apply list_elem_of_In. }
  split; [|done]. destruct (decide (d < n)); [done|].
  rewrite rdep_ge in Hin by lia. by apply elem_of_nil in Hin.
Qed.

Lemma sweep_spec ready : forall P Q indeg next,
  length indeg = n ->
  NoDup (P ++ ready) -> (forall u, u ∈ ready -> u < n) ->
  (forall d, d < n -> indeg !! d = Some (pending rdep P d)) ->
  zeros (Q ++ next) indeg ->
  exists indeg' more, sweep rows ready indeg next = Done (indeg', next ++ more) /\
    length indeg' = n /\
    (forall d, d < n -> indeg' !! d = Some (pending rdep (P ++ ready) d)) /\
    zeros (Q ++ next ++ more) indeg' /\
    (forall d, d ∈ more -> exists u, u ∈ ready /\ u ∈ rdep d).
Proof.
  induction ready as [|u ready IH]; intros P Q indeg next Hlen Hnd Hlt Hin Hz.
  { exists indeg, []. rewrite !app_nil_r. split_and!; try done. by intros ? ?%elem_of_nil. }
  assert (Hu : u < n) by (apply Hlt; left).
  destruct (rows_ok u Hu) as (ds & Hds & Hc). simpl. rewrite Hds.
  assert (HuP : u ∉ P).
  { apply NoDup_app in Hnd as (_ & Hd & _). intros HuP. apply (Hd u HuP). left. }
  destruct (sweep_row_spec n Q (pending rdep (P ++ [u])) ds indeg next)
    as (indeg1 & more1 & -> & Hl1 & Ht1 & Hz1 & Hm1); [done| | |done|].
  { intros d Hd. by eapply row_elem. }
  { intros d Hd. by rewrite Hin, Hc, (pending_snoc rdep P u d) by done. }
  simpl.
  destruct (IH (P ++ [u]) Q indeg1 (next ++ more1))
    as (indeg2 & more2 & -> & Hl2 & Ht2 & Hz2 & Hm2); [done| | |done|done|].
  { by rewrite <- app_assoc. }
  { intros x Hx. apply Hlt. by right. }
  exists indeg2, (more1 ++ more2). rewrite <- !app_assoc in *. split_and!; try done.
  intros d [Hd|Hd]%elem_of_app.
  - exists u. split; [left|]. apply Hm1 in Hd. by eapply row_elem.
  - apply Hm2 in Hd as (v & ? & ?). exists v. split; [by right|done].
Qed.

(** What the layers built so far satisfy: every task sits one layer above
    its deepest dependency, hence all its dependencies are in earlier
    layers. *)
Definition layered (layers : list (list nat)) : Prop :=
  forall k l d, layers !! k = Some l -> d ∈ l ->
    (forall j, j ∈ rdep d -> j ∈ concat (take k layers)) /\
    (forall k', k = S k' -> exists l' j, layers !! k' = Some l' /\ j ∈ l' /\ j ∈ rdep d).

Record Inv (layers : list (list nat)) (ready indeg : list nat) : Prop := {
  inv_len : length indeg = n;
  inv_zeros : zeros (concat layers ++ ready) indeg;
  inv_pending : forall d, d < n -> indeg !! d = Some (pending rdep (concat layers) d);
  inv_layered : layered layers;
  inv_last : forall d k l, d ∈ ready -> length layers = S k -> layers !! k = Some l ->
    exists j, j ∈ l /\ j ∈ rdep d;
  inv_nonempty : Forall (fun l => l <> []) layers;
}.

Lemma Inv_ready_lt layers ready indeg d : Inv layers ready indeg -> d ∈ ready -> d < n.
Proof.
  intros HI Hd. rewrite <- (inv_len _ _ _ HI).
  eapply lookup_lt_Some, (proj2 (inv_zeros _ _ _ HI)). apply elem_of_app. by right.
Qed.

Lemma Inv_done_lt layers ready indeg d : Inv layers ready indeg -> d ∈ concat layers -> d < n.
Proof.
  intros HI Hd. rewrite <- (inv_len _ _ _ HI).
  eapply lookup_lt_Some, (proj2 (inv_zeros _ _ _ HI)). apply elem_of_app. by left.
Qed.

Lemma Inv_ready_deps layers ready indeg d j :
  Inv layers ready indeg -> d ∈ ready -> j ∈ rdep d -> j ∈ concat layers.
Proof.
  intros HI Hd Hj. pose proof (Inv_ready_lt _ _ _ _ HI Hd) as Hlt.
  pose proof (inv_pending _ _ _ HI d Hlt) as Hp.
  assert (Hz : indeg !! d = Some 0)
    by (apply (proj2 (inv_zeros _ _ _ HI)), elem_of_app; by right).
  rewrite Hz in Hp. simplify_eq. symmetry in Hp. rewrite pending_zero in Hp. auto.
Qed.

Lemma concat_snoc (layers : list (list nat)) l : concat (layers ++ [l]) = concat layers ++ l.
Proof. by rewrite concat_app; simpl; rewrite app_nil_r. Qed.

Lemma layered_snoc layers ready indeg :
  Inv layers ready indeg -> layered (layers ++ [ready]).
Proof.
  intros HI k l d Hk Hd.
  destruct (decide (k < length layers)) as [Hlt|Hge].
  - rewrite lookup_app_l in Hk by done.
    destruct (inv_layered _ _ _ HI k l d Hk Hd) as [Hdeps Hprev].
    rewrite take_app_le by lia. split; [done|].
    intros k' ->. destruct (Hprev k' eq_refl) as (l' & j & ? & ? & ?).
    exists l', j. split_and!; [|done..]. by rewrite lookup_app_l by lia.
  - apply lookup_app_Some in Hk as [Hk|[Hle Hk]]; [apply lookup_lt_Some in Hk; lia|].
    apply list_lookup_singleton_Some in Hk as [Hk <-].
    assert (k = length layers) as -> by lia.
    rewrite take_app_length. split.
    + intros j Hj. by eapply Inv_ready_deps.
    + intros k' Hk'. destruct (lookup_lt_is_Some_2 layers k') as [l' Hl']; [lia|].
      destruct (inv_last _ _ _ HI d k' l') as (j & ? & ?); [done..|].
      exists l', j. split_and!; [|done..]. by rewrite lookup_app_l by lia.
Qed.

Lemma kahn_loop_spec fuel : forall layers ready indeg,
  Inv layers ready indeg ->
  n < length (concat layers) + fuel ->
  exists layers' indeg',
    kahn_loop fuel rows ready indeg layers (length (concat layers))
      = Done (layers', length (concat layers')) /\ Inv layers' [] indeg'.
Proof.
  induction fuel as [|fuel IH]; intros layers ready indeg HI Hfuel.
  { exfalso. destruct (inv_zeros _ _ _ HI) as [Hnd _]. apply NoDup_app in Hnd as (Hnd & _ & _).
    assert (length (concat layers) <= n); [|lia].
    apply NoDup_below_length; [done|]. intros. by eapply Inv_done_lt. }
  destruct ready as [|u ready]; [simpl; eauto|].
  set (rs := u :: ready) in *.
  destruct (sweep_spec rs (concat layers) (concat layers ++ rs) indeg [])
    as (indeg' & next & Hs & Hl' & Hp' & Hz' & Hm).
  - apply HI.
  - apply (inv_zeros _ _ _ HI).
  - intros. by eapply Inv_ready_lt.
  - apply HI.
  - rewrite app_nil_r. apply HI.
  - assert (HI' : Inv (layers ++ [rs]) next indeg').
    { split.
      - done.
      - by rewrite concat_snoc, <- app_assoc in *.
      - intros d Hd. by rewrite concat_snoc, Hp'.
      - by eapply layered_snoc.
      - intros d k l Hd Hlen Hk. rewrite length_app in Hlen. simpl in Hlen.
        assert (k = length layers) as -> by lia.
        rewrite list_lookup_middle in Hk by done. simplify_eq. by apply Hm.
      - apply Forall_app. split; [apply HI|]. by constructor. }
    assert (Hlen : length (concat (layers ++ [rs])) = length (concat layers) + length rs)
      by (by rewrite concat_snoc, length_app).
    assert (Hrs : length rs = S (length ready)) by done.
    change (kahn_loop (S fuel) rows rs indeg layers (length (concat layers))) with
      (let! (indeg', next) := sweep rows rs indeg [] in
       kahn_loop fuel rows next indeg' (layers ++ [rs]) (length (concat layers) + length rs)).
    rewrite Hs. cbn [obind app]. rewrite <- Hlen. apply IH; [done|lia].
Qed.
End loop.

(** ** The layers of a plan *)

Local Abbreviation ntasks plan := (length (tasks plan)).

(** What [topological_layers] answers once the build pass has succeeded. *)
Definition verdict (plan : PlanSpec) (layers : list (list nat))
    : result (list (list nat)) string :=
  if length (concat layers) <? ntasks plan then Err cycle_error
  else if MAX_PLAN_LAYERS <? length layers then Err (too_deep_error (length layers))
  else Ok layers.

Lemma layers_run plan st0 :
  build_rows plan 0 (tasks plan)
    {| indegree := replicate (ntasks plan) 0; dependents := replicate (ntasks plan) [] |} = Ok st0 ->
  exists layers indeg, Inv (ntasks plan) (rd plan) layers [] indeg /\
    topological_layers plan = Done (verdict plan layers).
Proof.
  intros Hb. unfold topological_layers. rewrite Hb.
  eapply build_rows_ok in Hb as [_ HB]; [|done|apply Built_init].
  set (ready := filter _ _).
  assert (Hz : zeros ready (indegree st0)).
  { split; [apply NoDup_filter, NoDup_seq|]. intros d. unfold ready.
    rewrite list_elem_of_filter, elem_of_seq. split; [tauto|]. intros Hd. split; [done|].
    pose proof (lookup_lt_Some _ _ _ Hd) as Hlt. rewrite (built_len _ _ _ HB) in Hlt. lia. }
  destruct (kahn_loop_spec (ntasks plan) (rd plan) (dependents st0)
             (rd_ge plan) (built_rows _ _ _ HB) (S (ntasks plan)) [] ready (indegree st0))
    as (layers & indeg & Hrun & HI).
  - split; simpl; try done.
    + by apply (built_len _ _ _ HB).
    + intros d Hd. rewrite (built_indeg _ _ _ HB) by done. unfold pending.
      f_equal. f_equal. symmetry. apply list_filter_all.
      intros j _. apply not_elem_of_nil.
  - simpl. lia.
  - exists layers, indeg. split; [done|]. change (length (concat [])) with 0 in Hrun. rewrite Hrun. cbn [obind].
    unfold verdict. by repeat case_match.
Qed.

Lemma layers_cases plan :
  (exists layers indeg, deps_known plan /\ Inv (ntasks plan) (rd plan) layers [] indeg /\
    topological_layers plan = Done (verdict plan layers)) \/
  (exists tid dep, topological_layers plan = Done (Err (unknown_dep_error tid dep))).
Proof.
  destruct (build_rows plan 0 (tasks plan) {| indegree := replicate (ntasks plan) 0;
    dependents := replicate (ntasks plan) [] |}) as [st|e] eqn:Hb.
  - left. destruct (layers_run plan st Hb) as (layers & indeg & ? & ?).
    eapply build_rows_ok in Hb as [? _]; [|done|apply Built_init]. eauto.
  - right. unfold topological_layers. rewrite Hb.
    assert (He : forall ts k st, build_rows plan k ts st = Err e ->
              exists tid dep, e = unknown_dep_error tid dep).
    { clear Hb. induction ts as [|t ts IH]; intros k st; simpl; [done|].
      destruct (build_row _ _ _ _ _) as [st'|e'] eqn:Hrow; simpl; [by apply IH|].
      intros [= ->]. revert st Hrow. generalize (id t) (depends_on t).
      intros s l. induction l as [|dep l IHl]; intros st; simpl; [done|].
      case_match; [apply IHl|]. intros [= <-]. eauto. }
    destruct (He _ _ _ Hb) as (? & ? & ->). eauto.
Qed.

Lemma verdict_ok plan layers ls :
  verdict plan layers = Ok ls ->
  ls = layers /\ ntasks plan <= length (concat layers) /\ length layers <= MAX_PLAN_LAYERS.
Proof.
  unfold verdict. destruct (Nat.ltb_spec (length (concat layers)) (ntasks plan)); [done|].
  destruct (Nat.ltb_spec MAX_PLAN_LAYERS (length layers)); [done|]. intros [= <-]. done.
Qed.

Section final.
Context (plan : PlanSpec) (layers : list (list nat)) (indeg : list nat).
Context (HI : Inv (ntasks plan) (rd plan) layers [] indeg).

Lemma final_NoDup : NoDup (concat layers).
Proof. destruct (inv_zeros _ _ _ _ _ HI) as [Hnd _]. by rewrite app_nil_r in Hnd. Qed.

Lemma final_zero d : d ∈ concat layers <-> indeg !! d = Some 0.
Proof. rewrite <- (proj2 (inv_zeros _ _ _ _ _ HI)). by rewrite app_nil_r. Qed.

Lemma final_lt d : d ∈ concat layers -> d < ntasks plan.
Proof. intros Hd. by eapply Inv_done_lt. Qed.

Lemma concat_lookup k l d : layers !! k = Some l -> d ∈ l -> d ∈ concat layers.
Proof. intros Hk Hd. apply list_elem_of_In, in_concat. exists l.
  split; apply list_elem_of_In; [by eapply list_elem_of_lookup_2|done].
Qed.

Lemma in_concat_lookup m d :
  d ∈ concat (take m layers) -> exists k l, k < m /\ layers !! k = Some l /\ d ∈ l.
Proof.
  intros (l & Hl & Hd)%list_elem_of_In%in_concat.
  apply list_elem_of_In, list_elem_of_lookup in Hl as [k Hk].
  apply lookup_take_Some in Hk as [Hk ?]. exists k, l.
  split_and!; [done..|by apply list_elem_of_In].
Qed.

(** Dependencies sit in strictly earlier layers. *)
Lemma final_deps k l i j :
  layers !! k = Some l -> i ∈ l -> depends plan i j ->
  exists k' l', k' < k /\ layers !! k' = Some l' /\ j ∈ l'.
Proof.
  intros Hk Hi Hij. apply in_concat_lookup.
  destruct (inv_layered _ _ _ _ _ HI k l i Hk Hi) as [Hdeps _]. by apply Hdeps.
Qed.

(** A task that was not placed has a dependency that was not placed. *)
Lemma final_unplaced d :
  d < ntasks plan -> d ∉ concat layers -> exists j, depends plan d j /\ j ∉ concat layers.
Proof.
  intros Hd Hn. pose proof (inv_pending _ _ _ _ _ HI d Hd) as Hp.
  rewrite final_zero, Hp in Hn.
  assert (Hpos : pending (rd plan) (concat layers) d <> 0) by congruence.
  unfold pending in Hpos.
  destruct (filter (fun j => j ∉ concat layers) (rd plan d)) as [|j js] eqn:Hf; [done|].
  assert (Hj : j ∈ filter (fun j => j ∉ concat layers) (rd plan d)) by (rewrite Hf; left).
  apply list_elem_of_filter in Hj as [? ?]. by exists j.
Qed.

Lemma final_placed_all :
  ntasks plan <= length (concat layers) <-> concat layers ≡ₚ seq 0 (ntasks plan).
Proof.
  split.
  - intros Hle. apply NoDup_below_Permutation; [apply final_NoDup|apply final_lt|done].
  - intros Hp. by rewrite Hp, length_seq.
Qed.

Lemma acyclic_placed : acyclic plan -> ntasks plan <= length (concat layers).
Proof.
  intros [rank Hrank]. apply final_placed_all, NoDup_Permutation;
    [apply final_NoDup|apply NoDup_seq|].
  intros d. rewrite elem_of_seq. split; [intros ?%final_lt; lia|].
  intros [_ Hd]. simpl in Hd. remember (rank d) as r eqn:Hr. revert d Hr Hd.
  induction (lt_wf r) as [r _ IH]. intros d -> Hd.
  destruct (decide (d ∈ concat layers)) as [|Hn]; [done|exfalso].
  destruct (final_unplaced d Hd Hn) as (j & Hj & Hjn). apply Hjn.
  eapply IH; [by apply Hrank|done|]. by eapply rd_lt.
Qed.

(** Index of the first layer that holds [d]. *)
Definition layer_of (d : nat) : nat :=
  match list_find (fun l => d ∈ l) layers with Some (k, _) => k | None => 0 end.

Lemma layer_of_spec k l d :
  layers !! k = Some l -> d ∈ l ->
  layer_of d <= k /\ exists l', layers !! layer_of d = Some l' /\ d ∈ l'.
Proof.
  intros Hk Hd. unfold layer_of.
  destruct (list_find_elem_of (fun l => d ∈ l) layers l) as [[k0 l0] Hf];
    [by eapply list_elem_of_lookup_2|done|].
  rewrite Hf. apply list_find_Some in Hf as (Hk0 & Hd0 & Hmin).
  split; [|by exists l0]. destruct (decide (k < k0)) as [Hlt|]; [|lia].
  exfalso. exact (Hmin k l Hk Hlt Hd).
Qed.

Lemma placed_acyclic : ntasks plan <= length (concat layers) -> acyclic plan.
Proof.
  intros Hp%final_placed_all. exists layer_of. intros i j Hij.
  assert (Hi : i ∈ concat (take (length layers) layers)).
  { rewrite firstn_all, Hp. apply elem_of_seq. split; [lia|]. simpl.
    destruct (decide (i < ntasks plan)); [done|]. unfold depends in Hij.
    rewrite rd_ge in Hij by lia. by apply elem_of_nil in Hij. }
  apply in_concat_lookup in Hi as (k & l & _ & Hk & Hi).
  destruct (layer_of_spec k l i Hk Hi) as (_ & l' & Hl' & Hi').
  destruct (final_deps _ _ _ _ Hl' Hi' Hij) as (k2 & l2 & Hlt & Hk2 & Hj).
  destruct (layer_of_spec k2 l2 j Hk2 Hj) as [Hle _]. lia.
Qed.

(** A dependency path, from a task down to one of its transitive
    dependencies. *)
Fixpoint is_chain (l : list nat) : Prop :=
  match l with
  | a :: (b :: _) as rest => depends plan a b /\ is_chain rest
  | _ => True
  end.

(** Every task heads a chain as long as its layer is deep. *)
Lemma layer_chain k : forall l d,
  layers !! k = Some l -> d ∈ l -> exists c, is_chain (d :: c) /\ length c = k.
Proof.
  induction k as [|k IH]; intros l d Hk Hd; [by exists []|].
  destruct (inv_layered _ _ _ _ _ HI (S k) l d Hk Hd) as [_ Hprev].
  destruct (Hprev k eq_refl) as (l' & j & Hl' & Hj & Hdj).
  destruct (IH l' j Hl' Hj) as (c & Hc & Hlen).
  exists (j :: c). simpl. by rewrite Hlen.
Qed.

(** A chain needs as many layers as it has tasks. *)
Lemma chain_layers : ntasks plan <= length (concat layers) ->
  forall c d, is_chain (d :: c) -> c <> [] ->
  exists k l, length c <= k /\ layers !! k = Some l /\ d ∈ l.
Proof.
  intros Hp%final_placed_all. assert (Hin : forall d j, depends plan d j ->
    exists k l, layers !! k = Some l /\ d ∈ l).
  { intros d j Hj. assert (Hd : d ∈ concat (take (length layers) layers)).
    { rewrite firstn_all, Hp. apply elem_of_seq. split; [lia|]. simpl.
      destruct (decide (d < ntasks plan)); [done|]. unfold depends in Hj.
      rewrite rd_ge in Hj by lia. by apply elem_of_nil in Hj. }
    apply in_concat_lookup in Hd as (k & l & _ & ? & ?). eauto. }
  induction c as [|j c IH]; intros d Hdc Hne; [done|]; destruct Hdc as [Hdj Hc].
  destruct (Hin d j Hdj) as (k & l & Hk & Hd).
  destruct (final_deps k l d j Hk Hd Hdj) as (k' & l' & Hlt & Hk' & Hj).
  exists k, l. split; [|done]. destruct c as [|j' c]; [simpl; lia|].
  destruct (IH j Hc ltac:(done)) as (k2 & l2 & Hle & Hk2 & Hj2).
  assert (k2 = k'); [|simpl in *; lia].
  clear -HI Hk' Hj Hk2 Hj2. pose proof final_NoDup as Hnd.
  by eapply (NoDup_concat_inj layers).
Qed.
End final.

(** A list of layers as the executor relies on it. *)
Record scheduled (plan : PlanSpec) (layers : list (list nat)) : Prop := {
  sc_known : deps_known plan;
  sc_perm : concat layers ≡ₚ seq 0 (ntasks plan);
  sc_depth : length layers <= MAX_PLAN_LAYERS;
  sc_deps : forall k l i j, layers !! k = Some l -> i ∈ l -> depends plan i j ->
    j ∈ concat (take k layers);
}.

Lemma layers_scheduled plan layers :
  topological_layers plan = Done (Ok layers) -> scheduled plan layers.
Proof.
  intros Hrun. destruct (layers_cases plan) as [(ls & indeg & Hd & HI & Hv)|(tid & dep & He)];
    [|by rewrite He in Hrun].
  rewrite Hv in Hrun. simplify_eq. destruct (verdict_ok _ _ _ Hrun) as (-> & Hn & Hcap).
  split; [done|by eapply final_placed_all|done|].
  intros k l i j Hk Hi Hij. by eapply (inv_layered _ _ _ _ _ HI).
Qed.

(** ** What [topological_layers] promises *)

(** C1. When [topological_layers] answers with layers, they hold every task of
    the plan exactly once, there are at most [MAX_PLAN_LAYERS] of them, and
    every task sits in a strictly later layer than each of its dependencies. *)
Theorem topological_layers_cover plan layers :
  topological_layers plan = Done (Ok layers) ->
  concat layers ≡ₚ seq 0 (length (tasks plan)) /\
  length layers <= MAX_PLAN_LAYERS /\
  (forall i j k l, layers !! k = Some l -> i ∈ l -> depends plan i j ->
     exists k' l', k' < k /\ layers !! k' = Some l' /\ j ∈ l').
Proof.
  intros [_ Hperm Hdepth Hdeps]%layers_scheduled. split_and!; [done..|].
  intros i j k l Hk Hi Hij. by eapply in_concat_lookup, Hdeps.
Qed.

(** [topological_layers] is total: on every plan it ends within its fuel,
    and no [indegree] counter underflows or index is out of bounds. *)
Theorem topological_layers_total plan : exists r, topological_layers plan = Done r.
Proof.
  destruct (layers_cases plan) as [(? & ? & ? & ? & ->)|(? & ? & ->)]; eauto.
Qed.

Lemma too_deep_not_cycle k : too_deep_error k <> cycle_error.
Proof. done. Qed.

Lemma unknown_dep_not_cycle tid dep : unknown_dep_error tid dep <> cycle_error.
Proof. done. Qed.

Lemma build_known plan :
  deps_known plan -> exists layers indeg, Inv (length (tasks plan)) (rd plan) layers [] indeg /\
    topological_layers plan = Done (verdict plan layers).
Proof.
  intros Hk. destruct (build_rows_known plan 0 (tasks plan)
    {| indegree := replicate (length (tasks plan)) 0; dependents := replicate (length (tasks plan)) [] |}
    Hk) as [st Hst].
  by eapply layers_run.
Qed.

(** The cycle error is exact: on a plan whose dependencies all exist,
    [topological_layers] reports a cycle if and only if the dependency graph
    has one. *)
Theorem cycle_error_exact plan :
  deps_known plan ->
  topological_layers plan = Done (Err cycle_error) <-> ~ acyclic plan.
Proof.
  intros Hk. destruct (build_known plan Hk) as (layers & indeg & HI & Hv). rewrite Hv.
  unfold verdict. destruct (Nat.ltb_spec (length (concat layers)) (length (tasks plan))) as [Hlt|Hge].
  - split; [|done]. intros _ Hac. pose proof (acyclic_placed plan layers indeg HI Hac). lia.
  - pose proof (placed_acyclic plan layers indeg HI Hge) as Hac.
    split; [|done]. case_match; by intros [= ?].
Qed.

(** The depth error is exact: an acyclic plan is refused as too deep if and
    only if it has a dependency chain of more than [MAX_PLAN_LAYERS] tasks. *)
Theorem too_deep_error_exact plan :
  deps_known plan -> acyclic plan ->
  (exists k, topological_layers plan = Done (Err (too_deep_error k))) <->
  (exists c, is_chain plan c /\ length c = S MAX_PLAN_LAYERS).
Proof.
  intros Hk Hac. destruct (build_known plan Hk) as (layers & indeg & HI & Hv).
  pose proof (acyclic_placed plan layers indeg HI Hac) as Hall.
  rewrite Hv. unfold verdict. destruct (Nat.ltb_spec (length (concat layers)) (length (tasks plan))); [lia|].
  destruct (Nat.ltb_spec MAX_PLAN_LAYERS (length layers)) as [Hdeep|Hok].
  - split; [intros _|eauto].
    destruct (lookup_lt_is_Some_2 layers MAX_PLAN_LAYERS Hdeep) as [l Hl].
    destruct l as [|d l].
    { pose proof (inv_nonempty _ _ _ _ _ HI) as Hne. rewrite Forall_forall in Hne.
      exfalso. by eapply Hne; [eapply list_elem_of_lookup_2|]. }
    destruct (layer_chain plan layers indeg HI _ _ d Hl) as (c & Hc & Hlen); [left|].
    exists (d :: c). simpl. by rewrite Hlen.
  - split; [by intros [k [= ?]]|]. intros (c & Hc & Hlen). exfalso.
    destruct c as [|d [|j c]]; [done..|].
    destruct (chain_layers plan layers indeg HI Hall (j :: c) d Hc) as (k & l & Hle & Hkl & _); [done|].
    apply lookup_lt_Some in Hkl. simpl in *. lia.
Qed.

(** ** Parsed plans *)

Lemma str_in_elem x l : str_in x l = true <-> x ∈ l.
Proof.
  unfold str_in. rewrite existsb_exists. split.
  - intros (y & Hy & ->%String.eqb_eq). by apply list_elem_of_In.
  - intros Hx. exists x. by rewrite String.eqb_refl, <- list_elem_of_In.
Qed.

Lemma position_in ts tid : tid ∈ map id ts <-> is_Some (position ts tid).
Proof.
  induction ts as [|t ts IH]; simpl.
  - split; [by intros ?%elem_of_nil|by intros []].
  - destruct (String.eqb_spec (id t) tid) as [->|Hne].
    + split; [eauto|intros _; left].
    + rewrite elem_of_cons, IH, fmap_is_Some. naive_solver.
Qed.

Lemma check_deps_ok ids tid deps :
  check_deps ids tid deps = Ok tt <-> Forall (fun dep => dep ∈ ids) deps.
Proof.
  induction deps as [|dep deps IH]; simpl; [by split|].
  rewrite Forall_cons, <- str_in_elem, <- IH. destruct (str_in dep ids); naive_solver.
Qed.

Lemma check_tasks_ok ids ts :
  check_tasks ids ts = Ok tt ->
  NoDup (map id ts) /\ Forall (fun t => Forall (fun dep => dep ∈ ids) (depends_on t)) ts.
Proof.
  induction ts as [|t ts IH]; simpl; [by split; constructor|].
  destruct (str_in (id t) (map id ts)) eqn:Hin; [done|].
  destruct (check_deps ids (id t) (depends_on t)) as [[]|] eqn:Hd; simpl; [|done].
  apply check_deps_ok in Hd. intros [? ?]%IH. split; constructor; auto.
  rewrite <- str_in_elem. congruence.
Qed.

Lemma parse_tasks_length {V} `{Json V} (items : list V) ts :
  parse_tasks items = Ok ts -> length ts = length items.
Proof.
  revert ts. induction items as [|item items IH]; intros ts; simpl; [by intros [= <-]|].
  destruct (parse_task item); simpl; [|done].
  destruct (parse_tasks items) eqn:?; simpl; [|done]. intros [= <-]. simpl. f_equal. auto.
Qed.

Lemma parsed_wf {V} `{Json V} (args : V) plan :
  parse_plan args = Ok plan ->
  1 <= length (tasks plan) <= MAX_PLAN_TASKS /\ NoDup (map id (tasks plan)) /\ deps_known plan.
Proof.
  unfold parse_plan. destruct (j_get args "tasks" ≫= j_as_array) as [arr|]; [|done].
  destruct arr as [|item arr']; [done|]. set (arr := item :: arr').
  destruct (Nat.ltb_spec MAX_PLAN_TASKS (length arr)) as [|Hle]; [done|].
  destruct (parse_tasks arr) as [ts|] eqn:Hts; simpl rbind; [|done].
  destruct (check_tasks (map id ts) ts) as [[]|] eqn:Hc; simpl; [|done].
  intros [= <-]. apply check_tasks_ok in Hc as [Hnd Hdeps].
  apply parse_tasks_length in Hts. simpl tasks. split_and!; [simpl in Hts; lia|lia|done|].
  unfold deps_known. simpl tasks. eapply Forall_impl; [exact Hdeps|].
  intros t Ht. eapply Forall_impl; [exact Ht|]. intros dep Hdep. by apply position_in.
Qed.

Lemma parsed_known {V} `{Json V} (args : V) plan : parse_plan args = Ok plan -> deps_known plan.
Proof. intros Hp. by destruct (parsed_wf args plan Hp) as (_ & _ & ?). Qed.

(** A plan that [parse_plan] accepts has between one and [MAX_PLAN_TASKS]
    tasks, distinct task ids, and dependencies that all name tasks of the plan. *)
Theorem parse_plan_wf {V} `{Json V} (args : V) plan :
  parse_plan args = Ok plan ->
  1 <= length (tasks plan) <= MAX_PLAN_TASKS /\ NoDup (map id (tasks plan)) /\ deps_known plan.
Proof. apply parsed_wf. Qed.
