(* ===== verification/PlanExec.v ===== *)
(** * [plan.execute]: running the layers

    Models the execution half of [PlanExecuteTool::invoke] and its helpers in
    [crates/zen-agents/src/plan_task.rs]: the layer walk with its upstream
    gathering, the batched concurrent launches, the [on_failure] transitions
    (skip / retry / halt), the checkpoints, and the assembly of the result. *)

From S2P Require Import Prelude Text Json PlanTask PlanLayers.
From Stdlib Require Import Lia.
Local Open Scope string_scope.

(** ** Data *)

(** The three status strings of a [TaskOutcome]. *)
Inductive status := SOk | SFailed | SSkipped.

#[export] Instance status_eq_dec : EqDecision status.
Proof. solve_decision. Defined.

Definition status_str (s : status) : string :=
  match s with SOk => "ok" | SFailed => "failed" | SSkipped => "skipped" end.

Record TaskOutcome (V : Type) := { o_status : status; o_value : V }.
Arguments o_status {V} _.
Arguments o_value {V} _.

Record DelegateRequest := {
  r_agent : string;
  r_prompt : string;
  r_description : option string;
  r_independent : bool;
  r_artifact : option string;
}.

(** What the executor asks of the delegation tool: the admission gate
    [validate_task] and the sub-agent turn [run_single].  A turn is an LLM
    conversation, so its answer may depend on when it is made: [run_single]
    takes the number of turns started before it. *)
Class Delegate (V : Type) := {
  validate_task : DelegateRequest -> option string;
  run_single : nat -> DelegateRequest -> V;
}.

Definition UPSTREAM_SNIPPET_MAX_CHARS : nat := 4000.

Section exec.
Context {V : Type} `{Json V, Delegate V}.

Definition upstream_snippet (value : V) : string :=
  let text := utf8 (match get_str value "response" with
                    | Some response => response
                    | None => j_to_string value
                    end) in
  let snippet := to_string (take UPSTREAM_SNIPPET_MAX_CHARS text) in
  if (UPSTREAM_SNIPPET_MAX_CHARS <? length text)%nat then snippet ++ "…[truncated]" else snippet.

Definition compose_task_prompt (base : string) (upstream : list (string * string)) : string :=
  match upstream with
  | [] => base
  | _ :: _ =>
    fold_left
      (fun p '(tid, snippet) =>
         p ++ nl ++ nl ++ "### upstream task `" ++ tid ++ "` output" ++ nl ++ snippet)
      upstream
      (base ++ nl ++ nl ++ "## Upstream task outputs" ++ nl
         ++ "Your task depends on the tasks below; their outputs are your inputs:")
  end.

(** ** Execution state

    [outcomes], [retried], [retry_count] and [halt_hit] are the local
    variables of [invoke]; [launched] logs the tasks handed to [run_single]
    (in launch order, retries included), [batches] the groups launched
    together by [join_all], and [checkpoints] the calls to [checkpoint]. *)
Record exec := {
  outcomes : list (option (TaskOutcome V));
  retried : list bool;
  retry_count : nat;
  halt_hit : bool;
  launched : list nat;
  batches : list (list nat);
  checkpoints : list (nat * TaskOutcome V);
}.

Definition set_outcome (i : nat) (o : TaskOutcome V) (st : exec) : exec :=
  {| outcomes := <[i := Some o]> (outcomes st); retried := retried st;
     retry_count := retry_count st; halt_hit := halt_hit st; launched := launched st;
     batches := batches st; checkpoints := checkpoints st |}.

(** [self.checkpoint(&plan_id, &plan.tasks[i], &outcome)]. *)
Definition checkpoint (i : nat) (o : TaskOutcome V) (st : exec) : exec :=
  {| outcomes := outcomes st; retried := retried st;
     retry_count := retry_count st; halt_hit := halt_hit st; launched := launched st;
     batches := batches st; checkpoints := (checkpoints st ++ [(i, o)])%list |}.

Definition with_halt (st : exec) : exec :=
  {| outcomes := outcomes st; retried := retried st;
     retry_count := retry_count st; halt_hit := true; launched := launched st;
     batches := batches st; checkpoints := checkpoints st |}.

Definition mark_retried (i : nat) (st : exec) : exec :=
  {| outcomes := outcomes st; retried := <[i := true]> (retried st);
     retry_count := retry_count st; halt_hit := halt_hit st; launched := launched st;
     batches := batches st; checkpoints := checkpoints st |}.

Definition note_launch (group : list nat) (st : exec) : exec :=
  {| outcomes := outcomes st; retried := retried st;
     retry_count := retry_count st; halt_hit := halt_hit st;
     launched := (launched st ++ group)%list;
     batches := (batches st ++ [group])%list; checkpoints := checkpoints st |}.

Definition bump_retries (st : exec) : exec :=
  {| outcomes := outcomes st; retried := retried st;
     retry_count := S (retry_count st); halt_hit := halt_hit st; launched := launched st;
     batches := batches st; checkpoints := checkpoints st |}.

Definition clear_halt (st : exec) : exec :=
  {| outcomes := outcomes st; retried := retried st;
     retry_count := retry_count st; halt_hit := false; launched := launched st;
     batches := batches st; checkpoints := checkpoints st |}.

(** ** One layer *)

(** The loop over [depends_on]: the snippets of the dependencies that are ok,
    and whether one is not.  [expect("deps validated in parse_plan")] panics
    on an unknown dependency. *)
Fixpoint gather_upstream (plan : PlanSpec) (outs : list (option (TaskOutcome V)))
    (deps : list string) : outcome (list (string * string) * bool) :=
  match deps with
  | [] => Done ([], false)
  | dep :: rest =>
    match index_of plan dep with
    | None => Panic
    | Some j =>
      match outs !! j with
      | None => Panic
      | Some oj =>
        let! (up, blocked) := gather_upstream plan outs rest in
        match oj with
        | Some o => if bool_decide (o_status o = SOk)
                    then Done ((dep, upstream_snippet (o_value o)) :: up, blocked)
                    else Done (up, true)
        | None => Done (up, true)
        end
      end
    end
  end.

Definition error_value (e : string) : V := j_obj [("error", j_str e)].

Definition skipped_outcome : TaskOutcome V :=
  {| o_status := SSkipped; o_value := error_value "upstream task did not complete OK" |}.

Definition request_of (t : PlanTaskSpec) (upstream : list (string * string)) : DelegateRequest :=
  {| r_agent := agent t; r_prompt := compose_task_prompt (prompt t) upstream;
     r_description := Some ("plan task `" ++ id t ++ "`"); r_independent := true;
     r_artifact := artifact t |}.

(** The body of [for &i in layer]: a replayed task keeps its result, a blocked
    one is skipped, a rejected one fails; the others join [runnable]. *)
Definition prepare_task (plan : PlanSpec) (i : nat)
    (acc : exec * list (nat * DelegateRequest))
    : outcome (exec * list (nat * DelegateRequest)) :=
  let '(st, runnable) := acc in
  match outcomes st !! i, tasks plan !! i with
  | Some (Some _), _ => Done (st, runnable)
  | Some None, Some t =>
    let! (upstream, blocked) := gather_upstream plan (outcomes st) (depends_on t) in
    if blocked then
      Done (set_outcome i skipped_outcome (checkpoint i skipped_outcome st), runnable)
    else
      let req := request_of t upstream in
      match validate_task req with
      | Some error =>
        let st1 := if bool_decide (on_failure t = Halt) then with_halt st else st in
        let o := {| o_status := SFailed; o_value := error_value error |} in
        Done (set_outcome i o (checkpoint i o st1), runnable)
      | None => Done (st, (runnable ++ [(i, req)])%list)
      end
  | _, _ => Panic
  end.

Fixpoint prepare_layer (plan : PlanSpec) (layer : list nat)
    (acc : exec * list (nat * DelegateRequest))
    : outcome (exec * list (nat * DelegateRequest)) :=
  match layer with
  | [] => Done acc
  | i :: rest => let! acc' := prepare_task plan i acc in prepare_layer plan rest acc'
  end.

(** [if value.get("error").is_some() { "failed" } else { "ok" }]. *)
Definition outcome_of (value : V) : TaskOutcome V :=
  {| o_status := match j_get value "error" with Some _ => SFailed | None => SOk end;
     o_value := value |}.

(** [join_all] over the futures of one batch. *)
Definition run_futures (start : nat) (batch : list (nat * DelegateRequest))
    : list (TaskOutcome V) :=
  imap (fun k '(_, req) => outcome_of (run_single (start + k) req)) batch.

(** The transition edge of one failed task. *)
Definition failure_edge (plan : PlanSpec) (i : nat) (req : DelegateRequest)
    (acc : exec * list (nat * DelegateRequest)) : exec * list (nat * DelegateRequest) :=
  let '(st, retry_batch) := acc in
  match on_failure <$> tasks plan !! i with
  | Some Retry =>
    if default false (retried st !! i) then (st, retry_batch)
    else (mark_retried i st, (retry_batch ++ [(i, req)])%list)
  | Some Halt => (with_halt st, retry_batch)
  | _ => (st, retry_batch)
  end.

Definition failure_edges (plan : PlanSpec)
    (zipped : list ((nat * DelegateRequest) * TaskOutcome V))
    (acc : exec * list (nat * DelegateRequest)) : exec * list (nat * DelegateRequest) :=
  fold_left
    (fun acc '((i, req), o) =>
       if bool_decide (o_status o = SFailed) then failure_edge plan i req acc else acc)
    zipped acc.

(** One element of [retry_batch]. *)
Definition run_retry (st : exec) (task : nat * DelegateRequest) : exec :=
  let '(i, req) := task in
  let o := outcome_of (run_single (length (launched st)) req) in
  bump_retries (set_outcome i o (checkpoint i o (note_launch [i] st))).

Definition run_batch (plan : PlanSpec) (st : exec) (batch : list (nat * DelegateRequest))
    : exec :=
  let results := run_futures (length (launched st)) batch in
  let st1 := note_launch (batch.*1) st in
  let zipped := zip batch results in
  let '(st2, retry_batch) := failure_edges plan zipped (st1, []) in
  let st3 := fold_left (fun st '((i, _), o) => checkpoint i o st) zipped st2 in
  let st4 := fold_left (fun st '((i, _), o) => set_outcome i o st) zipped st3 in
  fold_left run_retry retry_batch st4.

(** [slice::chunks]. *)
Fixpoint chunks_go {A} (fuel k : nat) (l : list A) : list (list A) :=
  match fuel, l with
  | S fuel', _ :: _ => take k l :: chunks_go fuel' k (drop k l)
  | _, _ => []
  end.
Definition chunks {A} (k : nat) (l : list A) : list (list A) := chunks_go (length l) k l.

Definition run_layer (plan : PlanSpec) (max_concurrent : nat) (layer : list nat) (st : exec)
    : outcome exec :=
  let! (st1, runnable) := prepare_layer plan layer (clear_halt st, []) in
  Done (fold_left (run_batch plan) (chunks (Nat.max max_concurrent 1) runnable) st1).

(** [for layer in &layers]: returns the state and [halted]. *)
Fixpoint run_layers (plan : PlanSpec) (max_concurrent : nat) (layers : list (list nat))
    (st : exec) : outcome (exec * bool) :=
  match layers with
  | [] => Done (st, false)
  | layer :: rest =>
    let! st' := run_layer plan max_concurrent layer st in
    if halt_hit st' then Done (st', true) else run_layers plan max_concurrent rest st'
  end.

(** ** Replay of checkpoints and the whole run *)

(** A row of [workflow_tasks] as [load_task_rows] returns it. *)
Record task_row := {
  tr_task_id : string;
  tr_agent : string;
  tr_status : string;
  tr_response : option string;
  tr_updated_at : Z;
}.

(** The loop over the checkpoint rows of a resumed plan. *)
Definition replay_row (plan : PlanSpec) (outs : list (option (TaskOutcome V))) (row : task_row)
    : list (option (TaskOutcome V)) :=
  if negb (String.eqb (tr_status row) "ok") then outs
  else match index_of plan (tr_task_id row) with
       | None => outs
       | Some i =>
         match tasks plan !! i with
         | None => outs
         | Some t =>
           if negb (String.eqb (agent t) (tr_agent row)) then outs
           else <[i := Some {| o_status := SOk;
                    o_value := j_obj [("response", j_str (default "" (tr_response row)))] |}]> outs
         end
       end.

Definition replay (plan : PlanSpec) (rows : list task_row) : list (option (TaskOutcome V)) :=
  fold_left (replay_row plan) rows (replicate (length (tasks plan)) None).

Definition start (plan : PlanSpec) (rows : list task_row) : exec :=
  {| outcomes := replay plan rows; retried := replicate (length (tasks plan)) false;
     retry_count := 0; halt_hit := false; launched := []; batches := []; checkpoints := [] |}.

(** [max_concurrent.clamp(1, 8)] of [PlanExecuteTool::new]. *)
Definition clamp_concurrent (k : nat) : nat := Nat.min (Nat.max k 1) 8.

(** The execution of an accepted plan. *)
Definition execute (plan : PlanSpec) (max_concurrent : nat) (rows : list task_row)
    : outcome (result (exec * bool) string) :=
  let! r := topological_layers plan in
  match r with
  | Err e => Done (Err e)
  | Ok layers =>
    let! fin := run_layers plan (clamp_concurrent max_concurrent) layers (start plan rows) in
    Done (Ok fin)
  end.

(** ** Assembly of the answer *)

Definition never_scheduled : TaskOutcome V :=
  {| o_status := SSkipped; o_value := error_value "never scheduled" |}.

Definition final_outcome (st : exec) (i : nat) : TaskOutcome V :=
  default never_scheduled (mjoin (outcomes st !! i)).

Definition count_status (st : exec) (n : nat) (s : status) : nat :=
  length (filter (fun i => o_status (final_outcome st i) = s) (seq 0 n)).

(** [if failed + skipped == 0 { "completed" } else { "failed" }]. *)
Definition final_status (plan : PlanSpec) (st : exec) : string :=
  let n := length (tasks plan) in
  if (count_status st n SFailed + count_status st n SSkipped =? 0)%nat
  then "completed" else "failed".
End exec.

Arguments exec V : clear implicits.
