(* ===== verification/PlanRun.v ===== *)
(** * Correctness of the plan executor of [PlanExec]

    Frame lemmas for the steps of the executor, the invariant of the layer
    walk, and the properties of a run: no launch against stale inputs, at most
    one retry per task, bounded batches, and the settlement of every task. *)

From S2P Require Import Prelude Text Json PlanTask PlanLayers PlanExec.
From Stdlib Require Import Lia.

Local Abbreviation ntasks plan := (length (tasks plan)).
Local Abbreviation occ l i := (count_occ Nat.eq_dec l i).

Section run.
Context {V : Type} `{Json V, Delegate V}.
Implicit Types (st : exec V) (outs : list (option (TaskOutcome V))) (i j : nat).

(** The recorded outcome of task [j] is ok. *)
Definition ok_at outs j : Prop := exists o, outs !! j = Some (Some o) /\ o_status o = SOk.

Definition settled_at outs i : Prop := exists o, outs !! i = Some (Some o).

(** ** Upstream gathering *)

Lemma gather_upstream_spec plan outs deps :
  Forall (fun dep => is_Some (index_of plan dep)) deps -> length outs = ntasks plan ->
  exists up blocked, gather_upstream plan outs deps = Done (up, blocked) /\
    (blocked = false <-> forall j, j ∈ omap (index_of plan) deps -> ok_at outs j).
Proof.
  intros Hall Hlen. induction Hall as [|dep deps [j Hj] _ IH]; simpl.
  { exists [], false. split; [done|]. split; [|done]. by intros _ j ?%elem_of_nil. }
  destruct IH as (up & blocked & -> & Hb). rewrite Hj.
  destruct (lookup_lt_is_Some_2 outs j) as [oj Hoj].
  { rewrite Hlen. by eapply position_lt. }
  rewrite Hoj. cbn [obind]. setoid_rewrite elem_of_cons.
  destruct oj as [o|]; [case_bool_decide as Ho|].
  - eexists _, _. split; [done|]. rewrite Hb. split; [|naive_solver].
    intros Hr x [->|Hx]; [by exists o|auto].
  - eexists _, _. split; [done|]. split; [done|]. intros Hr.
    destruct (Hr j) as (o' & ? & ?); [by left|]. congruence.
  - eexists _, _. split; [done|]. split; [done|]. intros Hr.
    destruct (Hr j) as (o' & ? & ?); [by left|]. congruence.
Qed.

Lemma rd_task plan i t : tasks plan !! i = Some t -> rd plan i = omap (index_of plan) (depends_on t).
Proof. intros Ht. unfold rd. by rewrite Ht. Qed.

(** ** Preparing a layer *)

(** Everything but outcomes, checkpoints and the halt flag. *)
Definition same_logs st st' : Prop :=
  launched st' = launched st /\ batches st' = batches st /\ retried st' = retried st /\
  retry_count st' = retry_count st.

Definition failed_at outs i : Prop := exists o, outs !! i = Some (Some o) /\ o_status o = SFailed.

Definition edge plan i : option FailureAction := on_failure <$> tasks plan !! i.

(** What the first pass makes of the tasks of a layer: [new] are runnable,
    with every dependency ok; the others are settled, the blocked ones as
    skipped and the rejected ones as failed. *)
Record prepared plan (layer : list nat) st st' (new : list (nat * DelegateRequest)) : Prop := {
  pr_logs : same_logs st st';
  pr_len : length (outcomes st') = length (outcomes st);
  pr_frame : forall i, i ∉ layer -> outcomes st' !! i = outcomes st !! i;
  pr_keep : forall i, settled_at (outcomes st) i -> outcomes st' !! i = outcomes st !! i;
  pr_sub : new.*1 `sublist_of` layer;
  pr_new : forall i, i ∈ new.*1 ->
    outcomes st !! i = Some None /\ outcomes st' !! i = Some None /\
    forall j, depends plan i j -> ok_at (outcomes st) j;
  pr_rest : forall i, i ∈ layer -> i ∉ new.*1 -> outcomes st !! i = Some None ->
    exists o, outcomes st' !! i = Some (Some o) /\ o_status o <> SOk /\
      (o_status o = SSkipped <-> ~ forall j, depends plan i j -> ok_at (outcomes st) j);
  pr_halt : halt_hit st' = true <-> halt_hit st = true \/
    exists i, i ∈ layer /\ outcomes st !! i = Some None /\ edge plan i = Some Halt /\
      failed_at (outcomes st') i;
}.

Lemma prepared_nil plan st : prepared plan [] st st [].
Proof.
  split; try done; try by intros ? ?%elem_of_nil.
  split; [by left|]. by intros [|(i & ?%elem_of_nil & _)].
Qed.

Lemma prepare_task_spec plan i st runnable t :
  deps_known plan -> length (outcomes st) = ntasks plan -> tasks plan !! i = Some t ->
  exists st' new, prepare_task plan i (st, runnable) = Done (st', runnable ++ new) /\
    prepared plan [i] st st' new.
Proof.
  intros Hk Hlen Ht. unfold prepare_task. rewrite Ht.
  assert (Hi : i < length (outcomes st)) by (rewrite Hlen; by eapply lookup_lt_Some).
  destruct (lookup_lt_is_Some_2 _ _ Hi) as [oi Hoi]. rewrite Hoi.
  destruct oi as [o|].
  { exists st, []. rewrite app_nil_r. split; [done|]. split; try done.
    - apply sublist_nil_l.
    - by intros ? ?%elem_of_nil.
    - intros x ->%list_elem_of_singleton _ Hn. congruence.
    - split; [by left|]. intros [|(x & ->%list_elem_of_singleton & Hn & _)]; [done|congruence]. }
  unfold deps_known in Hk. rewrite Forall_lookup in Hk.
  destruct (gather_upstream_spec plan (outcomes st) (depends_on t) (Hk i t Ht) Hlen)
    as (up & blocked & -> & Hb). cbn [obind].
  rewrite <- (rd_task plan i t Ht) in Hb. fold (depends plan i) in Hb.
  assert (Hset : forall (o : TaskOutcome V) st1,
    same_logs st st1 -> outcomes st1 = outcomes st -> o_status o <> SOk ->
    (halt_hit st1 = true <-> halt_hit st = true \/ (edge plan i = Some Halt /\ o_status o = SFailed)) ->
    (o_status o = SSkipped <-> ~ forall j, depends plan i j -> ok_at (outcomes st) j) ->
    prepared plan [i] st (set_outcome i o (checkpoint i o st1)) []).
  { intros o st1 Hlogs Hsame Hno Hhalt Hiff. split; simpl; rewrite ?Hsame.
    - apply Hlogs.
    - by rewrite length_insert.
    - intros x Hx. rewrite list_lookup_insert_ne; [done|]. set_solver.
    - intros x [o' Hx]. rewrite list_lookup_insert_ne; [done|]. congruence.
    - apply sublist_nil_l.
    - by intros ? ?%elem_of_nil.
    - intros x ->%list_elem_of_singleton _ _. exists o.
      by rewrite list_lookup_insert_eq.
    - rewrite Hhalt. apply or_iff_compat_l. unfold failed_at.
      setoid_rewrite list_elem_of_singleton. split.
      + intros [? ?]. exists i. rewrite list_lookup_insert_eq by done. naive_solver.
      + intros (x & -> & _ & ? & o' & Hl & ?). rewrite list_lookup_insert_eq in Hl by done.
        by simplify_eq. }
  assert (Hedge : edge plan i = Some (on_failure t)) by (unfold edge; by rewrite Ht).
  destruct blocked.
  { exists (set_outcome i skipped_outcome (checkpoint i skipped_outcome st)), [].
    rewrite app_nil_r. split; [done|]. apply Hset; [done..|naive_solver|].
    split; [|done]. intros _ Hall. by apply Hb in Hall. }
  assert (Hall : forall j, depends plan i j -> ok_at (outcomes st) j) by (by apply Hb).
  destruct (validate_task (request_of t up)) as [e|].
  - eexists _, []. rewrite app_nil_r. split; [done|]. apply Hset; [by case_bool_decide..|done| |].
    { rewrite Hedge. simpl. case_bool_decide as Ho; [rewrite Ho|]; simpl; [by split; auto|].
      split; [by left|]. intros [|[[= ?] _]]; done. }
    simpl. split; [done|]. by intros [].
  - exists st, [(i, request_of t up)]. split; [done|]. split; try done.
    + by intros x ->%list_elem_of_singleton.
    + split; [by left|]. intros [|(x & ->%list_elem_of_singleton & _ & _ & o & ? & _)]; [done|congruence].
Qed.

Lemma ok_at_frame outs outs' j : outs' !! j = outs !! j -> ok_at outs' j <-> ok_at outs j.
Proof. unfold ok_at. by intros ->. Qed.

Lemma prepared_app plan i layer st st1 st' new1 new2 :
  i ∉ layer -> (forall x j, x ∈ i :: layer -> depends plan x j -> j ∉ i :: layer) ->
  prepared plan [i] st st1 new1 -> prepared plan layer st1 st' new2 ->
  prepared plan (i :: layer) st st' (new1 ++ new2).
Proof.
  intros Hi Hdeps H1 H2.
  assert (Hst : forall x, x ≠ i -> outcomes st1 !! x = outcomes st !! x).
  { intros x Hx. apply (pr_frame _ _ _ _ _ H1). by rewrite list_elem_of_singleton. }
  assert (Hok : forall x, x ∈ i :: layer ->
    (forall j, depends plan x j -> ok_at (outcomes st1) j) <->
    (forall j, depends plan x j -> ok_at (outcomes st) j)).
  { intros x Hx. split; intros Hall j Hj; specialize (Hall j Hj);
      (apply (ok_at_frame (outcomes st) (outcomes st1)) in Hall || apply (ok_at_frame (outcomes st)));
      try done; apply Hst; intros ->; by apply (Hdeps x i Hx Hj); left. }
  assert (Hsub1 : forall x, x ∈ new1.*1 -> x = i).
  { intros x Hx. eapply elem_of_sublist in Hx; [|apply (pr_sub _ _ _ _ _ H1)].
    by apply list_elem_of_singleton in Hx. }
  split.
  - destruct (pr_logs _ _ _ _ _ H1) as (?&?&?&?), (pr_logs _ _ _ _ _ H2) as (?&?&?&?).
    split_and!; congruence.
  - by rewrite (pr_len _ _ _ _ _ H2), (pr_len _ _ _ _ _ H1).
  - intros x [Hx1 Hx2]%not_elem_of_cons.
    by rewrite (pr_frame _ _ _ _ _ H2), Hst by done.
  - intros x Hx. rewrite (pr_keep _ _ _ _ _ H2 x), (pr_keep _ _ _ _ _ H1 x); try done.
    destruct Hx as [o Ho]. exists o. by rewrite (pr_keep _ _ _ _ _ H1 x) by (by exists o).
  - rewrite fmap_app. apply (sublist_app _ [i] _ layer);
      [apply (pr_sub _ _ _ _ _ H1)|apply (pr_sub _ _ _ _ _ H2)].
  - intros x. rewrite fmap_app, elem_of_app. intros [Hx|Hx].
    + assert (x = i) as -> by auto.
      destruct (pr_new _ _ _ _ _ H1 i Hx) as (? & ? & ?).
      rewrite (pr_frame _ _ _ _ _ H2 i Hi). done.
    + destruct (pr_new _ _ _ _ _ H2 x Hx) as (Hn & ? & Hd).
      assert (Hxl : x ∈ layer) by (eapply elem_of_sublist; [exact Hx|apply (pr_sub _ _ _ _ _ H2)]).
      rewrite <- (Hst x) by (intros ->; done).
      split_and!; try done. apply Hok; [by right|done].
  - intros x Hx Hnew Hnone. rewrite fmap_app, not_elem_of_app in Hnew.
    destruct Hnew as [Hn1 Hn2]. rewrite elem_of_cons in Hx.
    destruct (decide (x = i)) as [->|Hne].
    + rewrite (pr_frame _ _ _ _ _ H2 i Hi). apply (pr_rest _ _ _ _ _ H1 i); [left|done..].
    + destruct Hx as [|Hx]; [done|].
      destruct (pr_rest _ _ _ _ _ H2 x Hx Hn2) as (o & ? & ? & Hiff); [by rewrite Hst|].
      exists o. split_and!; try done. rewrite Hiff. apply not_iff_compat, Hok. by right.
  - rewrite (pr_halt _ _ _ _ _ H2), (pr_halt _ _ _ _ _ H1).
    assert (Hni : failed_at (outcomes st') i <-> failed_at (outcomes st1) i).
    { unfold failed_at. by rewrite (pr_frame _ _ _ _ _ H2 i Hi). }
    rewrite Logic.or_assoc. apply or_iff_compat_l. split.
    + intros [(x & ->%list_elem_of_singleton & ? & ? & ?)|(x & Hx & ? & ? & ?)].
      * exists i. split_and!; [left|done..|by apply Hni].
      * exists x. split_and!; [by right| |done..]. rewrite <- Hst; [done|]. by intros ->.
    + intros (x & [->|Hx]%elem_of_cons & Hn & ? & ?).
      * left. exists i. rewrite list_elem_of_singleton. split_and!; [done..|by apply Hni].
      * right. exists x. split_and!; [done| |done..]. rewrite Hst; [done|]. by intros ->.
Qed.

Lemma prepare_layer_spec plan layer : forall st runnable,
  deps_known plan -> length (outcomes st) = ntasks plan ->
  NoDup layer -> (forall i, i ∈ layer -> i < ntasks plan) ->
  (forall i j, i ∈ layer -> depends plan i j -> j ∉ layer) ->
  exists st' new, prepare_layer plan layer (st, runnable) = Done (st', runnable ++ new) /\
    prepared plan layer st st' new.
Proof.
  induction layer as [|i layer IH]; intros st runnable Hk Hlen Hnd Hlt Hdeps.
  { exists st, []. rewrite app_nil_r. split; [done|]. apply prepared_nil. }
  apply NoDup_cons in Hnd as [Hi Hnd].
  destruct (lookup_lt_is_Some_2 (tasks plan) i) as [t Ht]; [apply Hlt; left|].
  destruct (prepare_task_spec plan i st runnable t Hk Hlen Ht) as (st1 & new1 & Hp1 & H1).
  destruct (IH st1 (runnable ++ new1)) as (st' & new2 & Hp2 & H2); [done| |done| | |].
  { by rewrite (pr_len _ _ _ _ _ H1). }
  { intros x Hx. apply Hlt. by right. }
  { intros x j Hx Hj Hin. by apply (Hdeps x j); [right| |right]. }
  exists st', (new1 ++ new2). cbn [prepare_layer]. rewrite Hp1. cbn [obind]. rewrite Hp2, app_assoc.
  split; [done|]. by eapply prepared_app.
Qed.

(** ** One batch *)

(** The tasks of [zipped] (a batch with its results) that failed under the
    failure edge [a]. *)
Definition failed_with plan (zipped : list ((nat * DelegateRequest) * TaskOutcome V)) a i : Prop :=
  exists req o, ((i, req), o) ∈ zipped /\ o_status o = SFailed /\ edge plan i = Some a.

(** What the failure edges of a batch do: [more] is queued for a retry. *)
Record edges plan zipped st st' (more : list (nat * DelegateRequest)) : Prop := {
  ed_out : outcomes st' = outcomes st;
  ed_launched : launched st' = launched st;
  ed_batches : batches st' = batches st;
  ed_count : retry_count st' = retry_count st;
  ed_sub : more.*1 `sublist_of` zipped.*1.*1;
  ed_len : length (retried st') = length (retried st);
  ed_retried : forall i, i < length (retried st) ->
    retried st' !! i = if decide (i ∈ more.*1) then Some true else retried st !! i;
  ed_more : forall i, i ∈ more.*1 <-> failed_with plan zipped Retry i /\ retried st !! i = Some false;
  ed_halt : halt_hit st' = true <-> halt_hit st = true \/ exists i, failed_with plan zipped Halt i;
}.

Lemma failed_with_nil plan a i : ~ failed_with plan [] a i.
Proof. by intros (req & o & ?%elem_of_nil & _). Qed.

Lemma failed_with_cons plan i req o zipped a x :
  failed_with plan (((i, req), o) :: zipped) a x <->
  (x = i /\ o_status o = SFailed /\ edge plan i = Some a) \/ failed_with plan zipped a x.
Proof. unfold failed_with. setoid_rewrite elem_of_cons. naive_solver. Qed.

Lemma edges_nil plan st : edges plan [] st st [].
Proof.
  pose proof (failed_with_nil plan). split; try done.
  - intros x. split; [by intros ?%elem_of_nil|]. intros [Hf _]. by destruct (H1 Retry x).
  - split; [by left|]. intros [|[x Hx]]; [done|by destruct (H1 Halt x)].
Qed.

Lemma edges_skip plan i req o zipped st st1 st' more :
  outcomes st1 = outcomes st -> launched st1 = launched st -> batches st1 = batches st ->
  retry_count st1 = retry_count st -> retried st1 = retried st ->
  (halt_hit st1 = true <->
     halt_hit st = true \/ (o_status o = SFailed /\ edge plan i = Some Halt)) ->
  (o_status o = SFailed -> edge plan i = Some Retry -> retried st !! i = Some true) ->
  edges plan zipped st1 st' more -> edges plan (((i, req), o) :: zipped) st st' more.
Proof.
  intros Ho Hl Hb Hc Hr Hh Hn [E1 E2 E3 Ec E4 E5 E6 E7 E8].
  split; try congruence.
  - rewrite !fmap_cons. simpl. by apply sublist_cons.
  - intros x Hx. rewrite <- Hr. apply E6. by rewrite Hr.
  - intros x. rewrite E7, failed_with_cons, Hr. naive_solver congruence.
  - rewrite E8, Hh. setoid_rewrite failed_with_cons. naive_solver.
Qed.

Lemma edges_retry plan i req o zipped st st' more :
  o_status o = SFailed -> edge plan i = Some Retry -> retried st !! i = Some false ->
  i ∉ zipped.*1.*1 ->
  edges plan zipped (mark_retried i st) st' more ->
  edges plan (((i, req), o) :: zipped) st st' ((i, req) :: more).
Proof.
  intros Ho Hedge Hr Hi [E1 E2 E3 Ec E4 E5 E6 E7 E8]. simpl in *.
  rewrite length_insert in *. assert (i < length (retried st)) by by eapply lookup_lt_Some.
  assert (Hfw : forall a x, failed_with plan zipped a x -> x ≠ i).
  { intros a x (q & o' & Hin & _) ->. apply Hi, list_elem_of_fmap. exists (i, q).
    split; [done|]. apply list_elem_of_fmap. by exists ((i, q), o'). }
  split; try done.
  - rewrite !fmap_cons. simpl. by apply sublist_skip.
  - intros x Hx. rewrite E6 by done. rewrite fmap_cons. simpl.
    repeat case_decide; rewrite ?elem_of_cons in *; try tauto.
    + destruct (decide (x = i)) as [->|]; [by rewrite list_lookup_insert_eq|tauto].
    + rewrite list_lookup_insert_ne by naive_solver. done.
  - intros x. rewrite fmap_cons, elem_of_cons. simpl. rewrite E7, failed_with_cons.
    destruct (decide (x = i)) as [->|Hne]; [naive_solver|].
    rewrite list_lookup_insert_ne by done. naive_solver.
  - rewrite E8. setoid_rewrite failed_with_cons. naive_solver congruence.
Qed.

Lemma failure_edge_eq plan i req st rb :
  failure_edge plan i req (st, rb) =
  match edge plan i with
  | Some Retry => if default false (retried st !! i) then (st, rb)
                  else (mark_retried i st, rb ++ [(i, req)])
  | Some Halt => (with_halt st, rb)
  | _ => (st, rb)
  end.
Proof. done. Qed.

Lemma failure_edges_spec plan zipped : forall st rb,
  length (retried st) = ntasks plan -> NoDup zipped.*1.*1 ->
  (forall i, i ∈ zipped.*1.*1 -> i < ntasks plan) ->
  exists st' more, failure_edges plan zipped (st, rb) = (st', rb ++ more) /\
    edges plan zipped st st' more.
Proof.
  unfold failure_edges.
  induction zipped as [|[[i req] o] zipped IH]; intros st rb Hlen Hnd Hlt; cbn [fold_left].
  { exists st, []. rewrite app_nil_r. split; [done|]. apply edges_nil. }
  rewrite !fmap_cons in Hnd, Hlt. simpl in Hnd, Hlt. apply NoDup_cons in Hnd as [Hi Hnd].
  assert (Hlt' : forall x, x ∈ zipped.*1.*1 -> x < ntasks plan) by (intros; apply Hlt; by right).
  assert (Hil : i < length (retried st)) by (rewrite Hlen; apply Hlt; left).
  destruct (lookup_lt_is_Some_2 _ _ Hil) as [b Hb].
  case_bool_decide as Ho.
  2: { destruct (IH st rb Hlen Hnd Hlt') as (st' & more & Hf & He). exists st', more.
       split; [done|]. eapply edges_skip; try done. naive_solver. }
  rewrite failure_edge_eq. destruct (edge plan i) as [a|] eqn:Ha.
  2: { destruct (IH st rb Hlen Hnd Hlt') as (st' & more & Hf & He). exists st', more.
       split; [done|]. eapply edges_skip; try done; naive_solver. }
  destruct a.
  - destruct (IH st rb Hlen Hnd Hlt') as (st' & more & Hf & He). exists st', more.
    split; [done|]. eapply edges_skip; try done; naive_solver.
  - rewrite Hb. simpl. destruct b.
    + destruct (IH st rb Hlen Hnd Hlt') as (st' & more & Hf & He). exists st', more.
      split; [done|]. eapply edges_skip; try done; naive_solver.
    + destruct (IH (mark_retried i st) (rb ++ [(i, req)])) as (st' & more & Hf & He); [|done..|].
      { simpl. by rewrite length_insert. }
      exists st', ((i, req) :: more). rewrite Hf, <- app_assoc. split; [done|].
      by apply edges_retry.
  - destruct (IH (with_halt st) rb Hlen Hnd Hlt') as (st' & more & Hf & He). exists st', more.
    split; [done|]. eapply (edges_skip _ _ _ _ _ _ (with_halt st)); try done; simpl; [by split; auto|congruence].
Qed.

(** [st'] differs from [st] in outcomes and checkpoints only. *)
Definition same_control st st' : Prop :=
  retried st' = retried st /\ halt_hit st' = halt_hit st /\
  launched st' = launched st /\ batches st' = batches st /\ retry_count st' = retry_count st.

Lemma fold_checkpoints (zipped : list ((nat * DelegateRequest) * TaskOutcome V)) : forall st,
  same_control st (fold_left (fun st '((i, _), o) => checkpoint i o st) zipped st) /\
  outcomes (fold_left (fun st '((i, _), o) => checkpoint i o st) zipped st) = outcomes st.
Proof.
  induction zipped as [|[[i req] o] zipped IH]; intros st; [done|]. apply (IH (checkpoint i o st)).
Qed.

(** The outcomes [outs'] are [outs] with the results of [zipped] recorded. *)
Definition recorded (zipped : list ((nat * DelegateRequest) * TaskOutcome V)) outs outs' : Prop :=
  length outs' = length outs /\
  (forall i, i ∉ zipped.*1.*1 -> outs' !! i = outs !! i) /\
  (forall i req o, ((i, req), o) ∈ zipped -> outs' !! i = Some (Some o)).

Lemma fold_outcomes zipped : forall st,
  NoDup zipped.*1.*1 -> (forall i, i ∈ zipped.*1.*1 -> i < length (outcomes st)) ->
  same_control st (fold_left (fun st '((i, _), o) => set_outcome i o st) zipped st) /\
  recorded zipped (outcomes st)
    (outcomes (fold_left (fun st '((i, _), o) => set_outcome i o st) zipped st)).
Proof.
  induction zipped as [|[[i req] o] zipped IH]; intros st Hnd Hlt.
  { split; [done|]. split_and!; [done..|]. by intros ? ? ? ?%elem_of_nil. }
  rewrite !fmap_cons in Hnd, Hlt. simpl in Hnd, Hlt. apply NoDup_cons in Hnd as [Hi Hnd].
  assert (Hil : i < length (outcomes st)) by (apply Hlt; left).
  destruct (IH (set_outcome i o st) Hnd) as (Hc & Hl & Hf & Hr).
  { simpl. intros x Hx. rewrite length_insert. apply Hlt. by right. }
  split; [done|]. cbn [fold_left]. simpl in Hl, Hf. rewrite length_insert in Hl. split_and!; [done| |].
  - intros x [Hne Hx]%not_elem_of_cons. rewrite Hf by done.
    by rewrite list_lookup_insert_ne.
  - intros x q o' [[= -> -> ->]|Hin]%elem_of_cons; [|by eapply Hr].
    rewrite Hf by done. by rewrite list_lookup_insert_eq.
Qed.

Lemma outcome_of_not_skipped (v : V) : o_status (outcome_of v) <> SSkipped.
Proof. unfold outcome_of. by destruct (j_get v "error"). Qed.

(** What the retries of [rb] do. *)
Record reran (rb : list (nat * DelegateRequest)) st st' : Prop := {
  rr_len : length (outcomes st') = length (outcomes st);
  rr_frame : forall i, i ∉ rb.*1 -> outcomes st' !! i = outcomes st !! i;
  rr_run : forall i, i ∈ rb.*1 ->
    exists o, outcomes st' !! i = Some (Some o) /\ o_status o <> SSkipped;
  rr_launched : launched st' = launched st ++ rb.*1;
  rr_batches : batches st' = batches st ++ map (fun i => [i]) rb.*1;
  rr_retried : retried st' = retried st;
  rr_halt : halt_hit st' = halt_hit st;
  rr_count : retry_count st' = retry_count st + length rb;
}.

Lemma run_retries_spec rb : forall st,
  (forall i, i ∈ rb.*1 -> i < length (outcomes st)) ->
  reran rb st (fold_left run_retry rb st).
Proof.
  induction rb as [|[i req] rb IH]; intros st Hlt.
  { split; try done; simpl; rewrite ?app_nil_r; try done. by intros ? ?%elem_of_nil. }
  assert (Hil : i < length (outcomes st)) by (apply Hlt; left).
  cbn [fold_left]. set (st1 := run_retry st (i, req)).
  destruct (IH st1) as [R1 R2 R3 R4 R5 R6 R7 R8].
  { intros x Hx. simpl. rewrite length_insert. apply Hlt. by right. }
  simpl in R1, R4, R5, R6, R7, R8. rewrite length_insert in R1.
  assert (R2' : i ∉ rb.*1 -> outcomes (fold_left run_retry rb st1) !! i =
      Some (Some (outcome_of (run_single (length (launched st)) req)))).
  { intros Hin. rewrite R2 by done. simpl. by rewrite list_lookup_insert_eq. }
  split; rewrite ?fmap_cons; simpl; try done.
  - intros x [Hne Hx]%not_elem_of_cons. rewrite R2 by done. simpl.
    by rewrite list_lookup_insert_ne.
  - intros x Hx. destruct (decide (x ∈ rb.*1)) as [|Hn]; [by apply R3|].
    apply elem_of_cons in Hx as [->|]; [|done]. rewrite R2' by done.
    eexists. split; [done|]. apply outcome_of_not_skipped.
  - by rewrite R4, <- app_assoc.
  - by rewrite R5, <- app_assoc.
  - lia.
Qed.

Lemma run_futures_zip start (batch : list (nat * DelegateRequest)) :
  (zip batch (run_futures start batch)).*1 = batch.
Proof. apply fst_zip. unfold run_futures. by rewrite length_imap. Qed.

Lemma run_futures_status start (batch : list (nat * DelegateRequest)) i req o :
  ((i, req), o) ∈ zip batch (run_futures start batch) -> o_status o <> SSkipped.
Proof.
  intros Hin%elem_of_zip_r. unfold run_futures in Hin.
  apply list_elem_of_lookup in Hin as [k Hk]. rewrite list_lookup_imap in Hk.
  destruct (batch !! k) as [[x q]|]; [|done]. simplify_eq/=. apply outcome_of_not_skipped.
Qed.

(** What a batch does; [rs] are the tasks it retries. *)
Record ran plan (batch : list (nat * DelegateRequest)) (rs : list nat) st st' : Prop := {
  rn_len : length (outcomes st') = length (outcomes st);
  rn_rlen : length (retried st') = length (retried st);
  rn_frame : forall i, i ∉ batch.*1 -> outcomes st' !! i = outcomes st !! i;
  rn_run : forall i, i ∈ batch.*1 ->
    exists o, outcomes st' !! i = Some (Some o) /\ o_status o <> SSkipped;
  rn_launched : launched st' = launched st ++ batch.*1 ++ rs;
  rn_batches : batches st' = batches st ++ batch.*1 :: map (fun i => [i]) rs;
  rn_sub : rs `sublist_of` batch.*1;
  rn_retried : forall i, i < length (retried st) ->
    retried st' !! i = if decide (i ∈ rs) then Some true else retried st !! i;
  rn_rs : forall i, i ∈ rs -> edge plan i = Some Retry /\ retried st !! i = Some false;
  rn_failed : forall i, i ∈ batch.*1 -> edge plan i = Some Retry ->
    retried st !! i = Some false -> failed_at (outcomes st') i -> i ∈ rs;
  rn_halt : halt_hit st' = true <-> halt_hit st = true \/
    exists i, i ∈ batch.*1 /\ edge plan i = Some Halt /\ failed_at (outcomes st') i;
  rn_count : retry_count st' = retry_count st + length rs;
}.

(** The tasks of a batch and their results determine each other. *)
Lemma zipped_in (batch : list (nat * DelegateRequest)) (results : list (TaskOutcome V)) i :
  (zip batch results).*1 = batch -> i ∈ batch.*1 ->
  exists req o, ((i, req), o) ∈ zip batch results.
Proof.
  intros Hz Hi. apply (list_elem_of_fmap fst) in Hi as ([x q] & -> & Hi). rewrite <- Hz in Hi.
  apply list_elem_of_fmap in Hi as ([[x' q'] o] & [= -> ->] & Hin). by exists q', o.
Qed.

Lemma failed_with_outcome plan zipped outs outs' a i :
  recorded zipped outs outs' -> i ∈ zipped.*1.*1 -> edge plan i = Some a ->
  failed_with plan zipped a i <-> failed_at outs' i.
Proof.
  intros (_ & _ & Hr) Hi Ha. split.
  - intros (req & o & Hin & Ho & _). exists o. by eauto.
  - intros (o & Ho & Hf). apply list_elem_of_fmap in Hi as ([x q] & -> & Hi).
    apply list_elem_of_fmap in Hi as ([[x' q'] o'] & [= -> ->] & Hin).
    exists q', o'. simpl in *. rewrite (Hr _ _ _ Hin) in Ho. naive_solver.
Qed.

Lemma failed_with_in plan zipped a i : failed_with plan zipped a i -> i ∈ zipped.*1.*1.
Proof.
  intros (req & o & Hin & _). apply list_elem_of_fmap. exists (i, req). split; [done|].
  apply list_elem_of_fmap. by exists ((i, req), o).
Qed.

Lemma run_batch_spec plan batch st :
  length (retried st) = ntasks plan -> length (outcomes st) = ntasks plan ->
  NoDup batch.*1 -> (forall i, i ∈ batch.*1 -> i < ntasks plan) ->
  exists rs, ran plan batch rs st (run_batch plan st batch).
Proof.
  intros Hr Ho Hnd Hlt. unfold run_batch.
  set (results := run_futures (length (launched st)) batch).
  set (zipped := zip batch results).
  assert (Hz : zipped.*1 = batch) by apply run_futures_zip.
  destruct (failure_edges_spec plan zipped (note_launch batch.*1 st) []) as (st2 & more & Heq & He);
    [done|by rewrite Hz..|]. rewrite Heq. simpl app.
  destruct He as [E1 E2 E3 Ec E4 E5 E6 E7 E8]. simpl in E1, E2, E3, Ec, E5, E6, E7, E8.
  rewrite Hz in E4.
  destruct (fold_checkpoints zipped st2) as ((C1 & C2 & C3 & C4 & C6) & C5).
  set (st3 := fold_left _ zipped st2) in *.
  destruct (fold_outcomes zipped st3) as ((O1 & O2 & O3 & O4 & O5) & Hrec); [by rewrite Hz|..].
  { rewrite Hz, C5, E1, Ho. done. }
  set (st4 := fold_left _ zipped st3) in *.
  assert (Hlen4 : length (outcomes st4) = ntasks plan).
  { destruct Hrec as (-> & _). by rewrite C5, E1. }
  assert (Hmore : forall i, i ∈ more.*1 -> i ∈ batch.*1) by (intros i Hi; by eapply elem_of_sublist).
  destruct (run_retries_spec more st4) as [R1 R2 R3 R4 R5 R6 R7 R8].
  { intros i Hi. rewrite Hlen4. by apply Hlt, Hmore. }
  set (st5 := fold_left run_retry more st4) in *.
  assert (Hrun : forall i, i ∈ batch.*1 -> exists o, outcomes st4 !! i = Some (Some o) /\ o_status o <> SSkipped).
  { intros i Hi. destruct (zipped_in batch results i Hz Hi) as (req & o & Hin).
    exists o. split; [by eapply Hrec|by eapply run_futures_status]. }
  exists more.*1. split; try done.
  - by rewrite R1, Hlen4, Ho.
  - by rewrite R6, O1, C1, E5.
  - intros i Hi. rewrite R2 by auto. destruct Hrec as (_ & Hf & _). rewrite Hf, C5, E1; [done|].
    by rewrite Hz.
  - intros i Hi. destruct (decide (i ∈ more.*1)); [by apply R3|]. rewrite R2 by done. by apply Hrun.
  - by rewrite R4, O3, C3, E2, <- app_assoc.
  - by rewrite R5, O4, C4, E3, <- app_assoc.
  - intros i Hi. rewrite R6, O1, C1. by apply E6.
  - intros i Hi%E7. destruct Hi as [(? & ? & ? & ? & ?) ?]. done.
  - intros i Hi He Hfl Hf. apply E7. split; [|done].
    destruct (decide (i ∈ more.*1)) as [Hin|Hn]; [by apply E7|].
    eapply failed_with_outcome; [done|by rewrite Hz|done|]. unfold failed_at in *. by rewrite <- R2.
  - rewrite R7, O2, C2, E8.
    assert (Hnr : forall i, edge plan i = Some Halt -> i ∉ more.*1).
    { intros i Hi Hin%E7. destruct Hin as [(? & ? & ? & ? & ?) _]. congruence. }
    assert (Hfa : forall i, edge plan i = Some Halt -> failed_at (outcomes st5) i <-> failed_at (outcomes st4) i).
    { intros i Hi. unfold failed_at. by rewrite R2 by auto. }
    apply or_iff_compat_l. split; intros [i Hi]; exists i.
    + pose proof (failed_with_in _ _ _ _ Hi) as Hin.
      assert (edge plan i = Some Halt) as Hh by (by destruct Hi as (? & ? & ? & ? & ?)).
      split_and!; [by rewrite <- Hz|done|]. apply Hfa; [done|].
      by eapply (failed_with_outcome plan zipped).
    + destruct Hi as (Hin & Hh & Hfl%Hfa); [|done]. eapply (failed_with_outcome plan zipped); try done.
      by rewrite Hz.
  - by rewrite R8, length_fmap, O5, C6, Ec.
Qed.

(** ** The invariant of the layer walk

    [P] are the tasks already passed, [init] the outcomes replayed from the
    checkpoints; [fs] are the tasks launched and [rs] those launched again. *)
Record walk plan (init : list (option (TaskOutcome V))) (k : nat) (P : nat -> Prop)
    (fs rs : list nat) st : Prop := {
  w_len : length (outcomes st) = ntasks plan;
  w_rlen : length (retried st) = ntasks plan;
  w_launched : launched st ≡ₚ fs ++ rs;
  w_fs : NoDup fs;
  w_rs : NoDup rs;
  w_sub : forall i, i ∈ rs -> i ∈ fs /\ edge plan i = Some Retry;
  w_run : forall i, i ∈ fs -> P i /\ init !! i = Some None /\
    (forall j, depends plan i j -> ok_at (outcomes st) j);
  w_retried : forall i, i < ntasks plan -> retried st !! i = Some (bool_decide (i ∈ rs));
  w_failed : forall i, i ∈ fs -> edge plan i = Some Retry -> failed_at (outcomes st) i -> i ∈ rs;
  w_todo : forall i, ~ P i -> outcomes st !! i = init !! i;
  w_keep : forall i, settled_at init i -> outcomes st !! i = init !! i;
  w_settled : forall i, P i -> init !! i = Some None ->
    exists o, outcomes st !! i = Some (Some o) /\ (o_status o = SOk -> i ∈ fs) /\
      (o_status o = SSkipped <-> ~ forall j, depends plan i j -> ok_at (outcomes st) j);
  w_closed : forall i j, P i -> depends plan i j -> P j;
  w_below : forall i, P i -> i < ntasks plan;
  w_halt : halt_hit st = true <->
    exists i, P i /\ init !! i = Some None /\ edge plan i = Some Halt /\ failed_at (outcomes st) i;
  w_concat : launched st = concat (batches st);
  w_batches : Forall (fun g => length g <= k) (batches st);
  w_count : retry_count st = length rs;
}.
Arguments w_len {_ _ _ _ _ _ _}. Arguments w_rlen {_ _ _ _ _ _ _}.

Lemma walk_proper plan init k P P' fs rs st :
  (forall i, P i <-> P' i) -> walk plan init k P fs rs st -> walk plan init k P' fs rs st.
Proof.
  intros HP []. split; try done; by setoid_rewrite <- HP.
Qed.

(** The outcomes of the tasks passed are not touched any more. *)
Lemma deps_frame plan (P : nat -> Prop) outs outs' i :
  (forall x, P x -> outs' !! x = outs !! x) -> (forall j, depends plan i j -> P j) ->
  (forall j, depends plan i j -> ok_at outs' j) <-> (forall j, depends plan i j -> ok_at outs j).
Proof.
  intros Hf HP. split; intros Hall j Hj; [rewrite <- (ok_at_frame outs outs') | rewrite (ok_at_frame outs outs')];
    auto.
Qed.

Lemma walk_prepare plan init k P fs rs st st' layer new :
  walk plan init k P fs rs st ->
  (forall i, i ∈ layer -> ~ P i /\ i < ntasks plan /\ forall j, depends plan i j -> P j) ->
  length init = ntasks plan ->
  prepared plan layer st st' new ->
  walk plan init k (fun i => P i \/ (i ∈ layer /\ i ∉ new.*1)) fs rs st'.
Proof.
  intros [] Hl Hinit [(L1 & L2 & L3 & L4) ? Hframe Hkeep Hsub Hnew Hrest Hhalt].
  assert (HP : forall i, P i -> outcomes st' !! i = outcomes st !! i).
  { intros i Hi. apply Hframe. intros Hin. by destruct (Hl i Hin). }
  assert (Hdeps : forall i, P i \/ i ∈ layer ->
    (forall j, depends plan i j -> ok_at (outcomes st') j) <->
    (forall j, depends plan i j -> ok_at (outcomes st) j)).
  { intros i Hi. apply (deps_frame plan P); [done|]. intros j Hj. destruct Hi as [Hi|Hi]; [eauto|].
    by apply (Hl i Hi). }
  assert (Hfa : forall i, P i -> failed_at (outcomes st') i <-> failed_at (outcomes st) i).
  { intros i Hi. unfold failed_at. by rewrite HP. }
  split; rewrite ?L1, ?L2, ?L3, ?L4; try done; try congruence.
  - intros i Hi. destruct (w_run0 i Hi) as (? & ? & ?). split_and!; [by left|done|].
    apply Hdeps; auto.
  - intros i Hi ? Hf. apply w_failed0; try done. apply Hfa; [|done]. by apply w_run0.
  - intros i Hi. rewrite <- w_todo0 by tauto. destruct (decide (i ∈ layer)) as [Hin|]; [|by apply Hframe].
    destruct (decide (i ∈ new.*1)) as [Hn|]; [|tauto]. destruct (Hnew i Hn) as (? & ? & _). congruence.
  - intros i Hi. rewrite Hkeep; [by apply w_keep0|]. unfold settled_at. by rewrite w_keep0.
  - intros i Hi Hn. destruct Hi as [Hi|[Hi Hni]].
    + destruct (w_settled0 i Hi Hn) as (o & ? & ? & Hs). exists o. rewrite HP, Hdeps; auto.
    + destruct (Hrest i Hi Hni) as (o & ? & ? & Hs).
      { rewrite w_todo0 by by apply Hl. done. }
      exists o. rewrite Hdeps by auto. done.
  - intros i j [Hi|[Hi _]] Hj; left; [by eauto|by eapply Hl].
  - intros i [Hi|[Hi _]]; [auto|by apply Hl].
  - rewrite Hhalt, w_halt0. split.
    + intros [(i & ? & ? & ? & ?)|(i & Hi & Ho & ? & Hf)]; exists i.
      * split_and!; auto. by apply Hfa.
      * split_and!; auto; [|by rewrite <- w_todo0; [|apply Hl]].
        right. split; [done|]. intros Hn. destruct (Hnew i Hn) as (_ & Hn' & _).
        destruct Hf as (o & ? & ?). congruence.
    + intros (i & [Hi|[Hi Hn]] & Ho & ? & ?); [left|right]; exists i.
      * split_and!; auto. by apply Hfa.
      * split_and!; auto. rewrite w_todo0; [done|]. by apply Hl.
Qed.

Lemma walk_batch plan init k P fs rs st st' batch rs' :
  walk plan init k P fs rs st -> NoDup batch.*1 ->
  (forall i, i ∈ batch.*1 -> ~ P i /\ i < ntasks plan /\ init !! i = Some None /\
     (forall j, depends plan i j -> P j) /\ forall j, depends plan i j -> ok_at (outcomes st) j) ->
  length batch <= k -> 1 <= k ->
  ran plan batch rs' st st' ->
  walk plan init k (fun i => P i \/ i ∈ batch.*1) (fs ++ batch.*1) (rs ++ rs') st'.
Proof.
  intros [] Hnd Hb Hk Hk1 [? ? Hframe Hrun HL HB Hsub Hret Hrs Hfail Hhalt Hcnt].
  assert (Hsub' : forall i, i ∈ rs' -> i ∈ batch.*1) by (intros; by eapply elem_of_sublist).
  assert (Hdis : forall i, i ∈ fs -> i ∉ batch.*1).
  { intros i Hi Hin. destruct (Hb i Hin) as [Hn _]. by apply Hn, w_run0. }
  assert (HP : forall i, P i -> outcomes st' !! i = outcomes st !! i).
  { intros i Hi. apply Hframe. intros Hin. by destruct (Hb i Hin). }
  assert (Hdeps : forall i, P i \/ i ∈ batch.*1 ->
    (forall j, depends plan i j -> ok_at (outcomes st') j) <->
    (forall j, depends plan i j -> ok_at (outcomes st) j)).
  { intros i Hi. apply (deps_frame plan P); [done|]. intros j Hj. destruct Hi as [Hi|Hi]; [eauto|].
    by apply (Hb i Hi). }
  assert (Hfa : forall i, P i -> failed_at (outcomes st') i <-> failed_at (outcomes st) i).
  { intros i Hi. unfold failed_at. by rewrite HP. }
  assert (Hrdis : forall i, i ∈ rs -> i ∉ batch.*1) by (intros i Hi; by apply Hdis, w_sub0).
  split; try congruence.
  - rewrite HL, w_launched0. solve_Permutation.
  - apply NoDup_app. split_and!; auto.
  - apply NoDup_app. split_and!; [done| |by eapply sublist_NoDup].
    intros i Hi Hi'. by apply (Hrdis i Hi), Hsub'.
  - intros i. rewrite !elem_of_app. intros [Hi|Hi]; [by destruct (w_sub0 i Hi); auto|].
    split; [by auto|by apply Hrs].
  - intros i. rewrite elem_of_app. intros [Hi|Hi].
    + destruct (w_run0 i Hi) as (? & ? & ?). split_and!; [by left|done|]. apply Hdeps; auto.
    + destruct (Hb i Hi) as (? & ? & ? & ? & ?). split_and!; [by right|done|]. apply Hdeps; auto.
  - intros i Hi. rewrite Hret by (by rewrite w_rlen0). rewrite w_retried0 by done.
    case_decide; [|case_bool_decide]; f_equal; symmetry; apply bool_decide_eq_true || apply bool_decide_eq_false;
      rewrite elem_of_app; tauto.
  - intros i. rewrite !elem_of_app. intros [Hi|Hi] He Hf.
    + left. apply w_failed0; try done. apply Hfa; [|done]. by apply w_run0.
    + right. apply Hfail; try done. destruct (Hb i Hi) as (? & ? & ? & ?).
      rewrite w_retried0 by done. f_equal. apply bool_decide_eq_false. intros Hin. by apply (Hrdis i).
  - intros i Hi. rewrite Hframe by tauto. apply w_todo0. tauto.
  - intros i Hi. rewrite Hframe; [by apply w_keep0|]. intros Hin.
    destruct (Hb i Hin) as (? & ? & ? & ?), Hi as [? ?]. congruence.
  - intros i Hi Hn. setoid_rewrite elem_of_app. destruct (decide (i ∈ batch.*1)) as [Hin|Hnin].
    + destruct (Hrun i Hin) as (o & ? & ?). exists o. rewrite Hdeps by auto.
      split_and!; [done|by right|]. split; [done|]. intros Hno. destruct Hno. by apply Hb.
    + destruct Hi as [Hi|]; [|done]. destruct (w_settled0 i Hi Hn) as (o & ? & ? & Hs).
      exists o. rewrite HP, Hdeps by auto. naive_solver.
  - intros i j [Hi|Hi] Hj; left; [by eauto|by eapply Hb].
  - intros i [Hi|Hi]; [auto|by apply Hb].
  - rewrite Hhalt, w_halt0. split.
    + intros [(i & ? & ? & ? & ?)|(i & Hi & ? & Hf)]; exists i.
      * split_and!; auto. by apply Hfa.
      * split_and!; auto. by apply Hb.
    + intros (i & [Hi|Hi] & Ho & ? & ?); [left|right]; exists i.
      * split_and!; auto. by apply Hfa.
      * split_and!; auto.
  - rewrite HL, HB, w_concat0, concat_app. simpl. by rewrite concat_singletons.
  - rewrite HB. apply Forall_app. split; [done|]. constructor; [by rewrite length_fmap|].
    apply Forall_map. by apply Forall_true.
  - rewrite Hcnt, w_count0, length_app. done.
Qed.

(** ** Chunks *)

Lemma chunks_go_concat {A} fuel n (l : list A) :
  1 <= n -> length l <= fuel -> concat (chunks_go fuel n l) = l.
Proof.
  intros Hn. revert l. induction fuel as [|fuel IH]; intros [|x l] Hl; try done; [simpl in Hl; lia|].
  cbn [chunks_go concat]. rewrite IH; [apply take_drop|]. rewrite length_drop. simpl in *. lia.
Qed.

Lemma chunks_go_bound {A} fuel n (l : list A) : Forall (fun c => length c <= n) (chunks_go fuel n l).
Proof.
  revert l. induction fuel as [|fuel IH]; intros [|x l]; try constructor; [|apply IH].
  rewrite length_take. lia.
Qed.

(** The batches of a layer: the tasks of [cs] are still to run. *)
Lemma walk_batches plan init k cs : forall P fs rs st,
  walk plan init k P fs rs st -> 1 <= k -> length init = ntasks plan ->
  NoDup (concat cs).*1 -> Forall (fun c : list (nat * DelegateRequest) => length c <= k) cs ->
  (forall i, i ∈ (concat cs).*1 -> ~ P i /\ i < ntasks plan /\ init !! i = Some None /\
     (forall j, depends plan i j -> P j) /\ forall j, depends plan i j -> ok_at (outcomes st) j) ->
  exists fs' rs', walk plan init k (fun i => P i \/ i ∈ (concat cs).*1) (fs ++ fs') (rs ++ rs')
    (fold_left (run_batch plan) cs st).
Proof.
  induction cs as [|c cs IH]; intros P fs rs st HW Hk Hinit Hnd Hsz Hb.
  { exists [], []. rewrite !app_nil_r. eapply walk_proper; [|done].
    intros i. split; [by left|]. by intros [|?%elem_of_nil]. }
  cbn [concat fold_left] in *. rewrite fmap_app in Hnd, Hb.
  apply NoDup_app in Hnd as (Hnc & Hdisj & Hnd). apply Forall_cons in Hsz as [Hc Hsz].
  destruct (run_batch_spec plan c st) as [r1 Hran]; [apply HW..|done| |].
  { intros i Hi. apply Hb, elem_of_app. by left. }
  assert (HW1 := walk_batch plan init k P fs rs st _ c r1 HW Hnc
    (fun i Hi => Hb i (proj2 (elem_of_app _ _ _) (or_introl Hi))) Hc Hk Hran).
  destruct (IH _ _ _ _ HW1 Hk Hinit Hnd Hsz) as (f2 & r2 & HW2).
  { intros i Hi. destruct (Hb i) as (? & ? & ? & HdP & Hok); [apply elem_of_app; by right|].
    split_and!; try done.
    - intros [|Hin]; [done|by eapply Hdisj].
    - intros j Hj. left. by apply HdP.
    - apply (deps_frame plan P (outcomes st)); [|done..]. intros x Hx. apply (rn_frame _ _ _ _ _ Hran).
      intros Hin. by destruct (Hb x (proj2 (elem_of_app _ _ _) (or_introl Hin))). }
  exists (c.*1 ++ f2), (r1 ++ r2). rewrite !app_assoc. eapply walk_proper; [|exact HW2].
  intros i. cbn beta. rewrite fmap_app, elem_of_app. tauto.
Qed.

Lemma clear_halt_eq plan init k P fs rs st :
  walk plan init k P fs rs st -> halt_hit st = false -> clear_halt st = st.
Proof. intros _ Hh. destruct st; simpl in *. by subst. Qed.

Lemma walk_layer plan init k P fs rs st layer :
  deps_known plan -> walk plan init (Nat.max k 1) P fs rs st -> halt_hit st = false ->
  length init = ntasks plan -> NoDup layer ->
  (forall i, i ∈ layer -> ~ P i /\ i < ntasks plan /\ forall j, depends plan i j -> P j) ->
  exists st' fs' rs', run_layer plan k layer st = Done st' /\
    walk plan init (Nat.max k 1) (fun i => P i \/ i ∈ layer) (fs ++ fs') (rs ++ rs') st'.
Proof.
  intros Hk HW Hh Hinit Hnd Hl. unfold run_layer. erewrite clear_halt_eq by done.
  destruct (prepare_layer_spec plan layer st []) as (st1 & new & -> & Hp); [done|apply HW|done| | |].
  { intros i Hi. by apply Hl. }
  { intros i j Hi Hj Hin. apply (Hl j Hin). by apply (Hl i Hi). }
  cbn [obind]. simpl app. pose proof (walk_prepare _ _ _ _ _ _ _ _ _ _ HW Hl Hinit Hp) as HW1.
  assert (Hconc : concat (chunks (Nat.max k 1) new) = new) by (apply chunks_go_concat; lia).
  assert (Hin : forall i, i ∈ new.*1 -> i ∈ layer).
  { intros i Hi. eapply elem_of_sublist; [done|]. apply Hp. }
  edestruct (walk_batches plan init (Nat.max k 1) (chunks (Nat.max k 1) new)) as (f2 & r2 & HW2);
    [exact HW1|lia|done| |apply chunks_go_bound| |].
  - rewrite Hconc. by eapply sublist_NoDup, Hp.
  - rewrite Hconc. intros i Hi. destruct (Hl i (Hin i Hi)) as (HnP & Hlt & HdP).
    destruct (pr_new _ _ _ _ _ Hp i Hi) as (Hn & _ & Hok). split_and!; try done.
    + intros [|[_ ?]]; done.
    + rewrite <- (w_todo _ _ _ _ _ _ _ HW i); done.
    + intros j Hj. left. by apply HdP.
    + apply (deps_frame plan P (outcomes st)); [|done..]. intros x Hx. apply (pr_frame _ _ _ _ _ Hp).
      intros Hx'. by destruct (Hl x Hx').
  - eexists _, _, _. split; [done|]. eapply walk_proper; [|exact HW2]. intros i. cbn beta. rewrite Hconc.
    pose proof (Hin i). destruct (decide (i ∈ new.*1)); tauto.
Qed.

Lemma walk_layers plan init k layers (Hs : scheduled plan layers) (Hinit : length init = ntasks plan) :
  forall rest m fs rs st,
  rest = drop m layers ->
  walk plan init (Nat.max k 1) (fun i => i ∈ concat (take m layers)) fs rs st -> halt_hit st = false ->
  exists st' m' fs' rs', run_layers plan k rest st = Done (st', halt_hit st') /\
    walk plan init (Nat.max k 1) (fun i => i ∈ concat (take m' layers)) fs' rs' st' /\
    (halt_hit st' = false -> length layers <= m').
Proof.
  destruct Hs as [Hk Hperm _ Hdeps].
  assert (Hnd : NoDup (concat layers)) by (rewrite Hperm; apply NoDup_seq).
  induction rest as [|layer rest IH]; intros m fs rs st Hrest HW Hh; cbn [run_layers].
  { exists st, m, fs, rs. split_and!; [by rewrite Hh|done|]. intros _.
    apply (f_equal length) in Hrest. rewrite length_drop in Hrest. simpl in Hrest. lia. }
  assert (Hm : layers !! m = Some layer).
  { rewrite <- (Nat.add_0_r m), <- lookup_drop, <- Hrest. done. }
  assert (Hsplit : concat (take (S m) layers) = concat (take m layers) ++ layer).
  { by rewrite (take_S_r _ _ layer), concat_app, concat_cons, app_nil_r. }
  assert (Hsnd : NoDup (concat (take m layers) ++ layer)).
  { rewrite <- Hsplit. rewrite <- (take_drop (S m) layers), concat_app in Hnd. apply NoDup_app in Hnd. apply Hnd. }
  apply NoDup_app in Hsnd as (_ & Hdis & Hndl).
  destruct (walk_layer plan init k _ fs rs st layer Hk HW Hh Hinit Hndl) as (st1 & f1 & r1 & -> & HW1).
  { intros i Hi. split_and!; [intros Hin; by eapply Hdis| |].
    - assert (Hil : i ∈ concat layers).
      { apply list_elem_of_In, in_concat. exists layer.
        split; apply list_elem_of_In; [by eapply list_elem_of_lookup_2|done]. }
      rewrite Hperm in Hil. apply elem_of_seq in Hil. lia.
    - intros j Hj. by eapply Hdeps. }
  cbn [obind].
  assert (HW1' : walk plan init (Nat.max k 1) (fun i => i ∈ concat (take (S m) layers)) (fs ++ f1) (rs ++ r1) st1).
  { eapply walk_proper; [|exact HW1]. intros i. cbn beta. by rewrite Hsplit, elem_of_app. }
  destruct (halt_hit st1) eqn:Hh1.
  - exists st1, (S m), (fs ++ f1), (rs ++ r1). split_and!; [by rewrite Hh1|done|]. congruence.
  - eapply IH; [|exact HW1'|done].
    replace (S m) with (m + 1) by lia. by rewrite <- drop_drop, <- Hrest.
Qed.

(** ** Replay *)

(** The row vouches for task [i] of the plan: recorded ok, for a task of this
    id and this agent. *)
Definition vouches plan (row : task_row) i : Prop :=
  tr_status row = "ok"%string /\ index_of plan (tr_task_id row) = Some i /\
  agent <$> tasks plan !! i = Some (tr_agent row).

Definition replayed_outcome (row : task_row) : TaskOutcome V :=
  {| o_status := SOk; o_value := j_obj [("response"%string, j_str (default ""%string (tr_response row)))] |}.

Lemma replay_row_cases plan outs row :
  (exists i, vouches plan row i /\ replay_row plan outs row = <[i := Some (replayed_outcome row)]> outs) \/
  ((forall i, ~ vouches plan row i) /\ replay_row plan outs row = outs).
Proof.
  unfold replay_row, vouches.
  destruct (String.eqb_spec (tr_status row) "ok"); simpl; [|right; naive_solver].
  destruct (index_of plan (tr_task_id row)) as [i|] eqn:Hi; [|right; naive_solver].
  destruct (tasks plan !! i) as [t|] eqn:Ht.
  2: { right. split; [|done]. intros i' (_ & [= ->] & Ha). by rewrite Ht in Ha. }
  destruct (String.eqb_spec (agent t) (tr_agent row)) as [Ha|Ha]; simpl.
  - left. exists i. rewrite Ht. simpl. by rewrite Ha.
  - right. split; [|done]. intros i' (_ & [= ->] & Ha'). rewrite Ht in Ha'. simpl in Ha'. congruence.
Qed.

Lemma replay_length plan rows : length (replay plan rows) = ntasks plan.
Proof.
  unfold replay. rewrite <- (length_replicate (ntasks plan) (@None (TaskOutcome V))) at 2.
  generalize (replicate (ntasks plan) (@None (TaskOutcome V))).
  induction rows as [|row rows IH]; intros outs; [done|]. cbn [fold_left]. rewrite IH.
  destruct (replay_row_cases plan outs row) as [(i & _ & ->)|[_ ->]]; [apply length_insert|done].
Qed.

Lemma replay_fold plan rows : forall outs i, length outs = ntasks plan -> i < ntasks plan ->
  (outs !! i = fold_left (replay_row plan) rows outs !! i /\
     forall row, row ∈ rows -> ~ vouches plan row i) \/
  exists row, row ∈ rows /\ vouches plan row i /\
    fold_left (replay_row plan) rows outs !! i = Some (Some (replayed_outcome row)).
Proof.
  induction rows as [|row rows IH]; intros outs i Hlen Hi.
  { left. split; [done|]. by intros ? ?%elem_of_nil. }
  cbn [fold_left]. set (outs1 := replay_row plan outs row).
  assert (Hlen1 : length outs1 = ntasks plan).
  { subst outs1. destruct (replay_row_cases plan outs row) as [(x & _ & ->)|[_ ->]]; [by rewrite length_insert|done]. }
  destruct (IH outs1 i Hlen1 Hi) as [[Heq Hno]|(r & Hr & Hv & He)].
  2: { right. exists r. split_and!; [by right|done..]. }
  rewrite <- Heq. subst outs1.
  destruct (replay_row_cases plan outs row) as [(x & Hv & ->)|[Hn ->]].
  - destruct (decide (x = i)) as [->|Hne].
    + right. exists row. split_and!; [by left|done|]. by rewrite list_lookup_insert_eq by lia.
    + left. rewrite list_lookup_insert_ne by done. split; [done|].
      intros r [->|Hr]%elem_of_cons; [|by apply Hno]. intros Hv'.
      destruct Hv as (_ & Hx & _), Hv' as (_ & Hx' & _). congruence.
  - left. split; [done|]. intros r [->|Hr]%elem_of_cons; [by apply Hn|by apply Hno].
Qed.

Lemma replay_cases plan rows i : i < ntasks plan ->
  (replay plan rows !! i = Some None /\ forall row, row ∈ rows -> ~ vouches plan row i) \/
  exists row, row ∈ rows /\ vouches plan row i /\ replay plan rows !! i = Some (Some (replayed_outcome row)).
Proof.
  intros Hi. destruct (replay_fold plan rows (replicate (ntasks plan) None) i) as [[He Hn]|]; [|done| |by right].
  { apply length_replicate. }
  left. split; [|done]. unfold replay. rewrite <- He. by apply lookup_replicate.
Qed.

Lemma walk_start plan rows k :
  walk plan (replay plan rows) k (fun _ => False) [] [] (start plan rows).
Proof.
  split; simpl; try done; try (by intros ? ?%elem_of_nil).
  - apply replay_length.
  - apply length_replicate.
  - constructor.
  - constructor.
  - intros i Hi. by apply lookup_replicate.
  - split; [done|]. by intros (? & ? & _).
Qed.

(** The executor ends, and the invariant holds of the state it ends in. *)
Lemma execute_walk plan k rows layers :
  topological_layers plan = Done (Ok layers) ->
  exists st (L fs rs : list nat),
    execute plan k rows = Done (Ok (st, halt_hit st)) /\
    walk plan (replay plan rows) (clamp_concurrent k) (fun i => i ∈ L) fs rs st /\
    (halt_hit st = false -> forall i, i < ntasks plan -> i ∈ L).
Proof.
  intros Hl. pose proof (layers_scheduled plan layers Hl) as Hs.
  destruct (walk_layers plan (replay plan rows) (clamp_concurrent k) layers Hs (replay_length plan rows)
    layers 0 [] [] (start plan rows)) as (st & m & fs & rs & Hrun & HW & Hall); [done| |done|].
  { eapply walk_proper; [|apply walk_start]. intros i. rewrite take_0. simpl.
    split; [done|]. by intros ?%elem_of_nil. }
  exists st, (concat (take m layers)), fs, rs. split_and!.
  - unfold execute. rewrite Hl. cbn [obind]. by rewrite Hrun.
  - replace (Nat.max (clamp_concurrent k) 1) with (clamp_concurrent k) in HW; [done|].
    unfold clamp_concurrent. lia.
  - intros Hh i Hi. rewrite take_ge by by apply Hall. rewrite (sc_perm _ _ Hs). apply elem_of_seq. lia.
Qed.

Lemma execute_inv plan k rows st halted :
  execute plan k rows = Done (Ok (st, halted)) ->
  exists (L fs rs : list nat), halted = halt_hit st /\
    walk plan (replay plan rows) (clamp_concurrent k) (fun i => i ∈ L) fs rs st /\
    (halted = false -> forall i, i < ntasks plan -> i ∈ L).
Proof.
  intros He. destruct (topological_layers plan) as [[layers|e]| |] eqn:Hl;
    try (unfold execute in He; rewrite Hl in He; discriminate He).
  destruct (execute_walk plan k rows layers Hl) as (st' & L & fs & rs & He' & HW & Hall).
  rewrite He in He'. simplify_eq. by exists L, fs, rs.
Qed.
End run.
