(* ===== verification/PlanProps.v ===== *)
(** * What a plan run guarantees

    The properties of [PlanExec.execute], over every delegate (any answers the
    sub-agents give) and every set of checkpoint rows, with witnesses on a
    concrete plan. *)

From S2P Require Import Prelude Text Json PlanTask PlanLayers PlanExec PlanRun.
From Stdlib Require Import Lia.
Local Open Scope string_scope.

Local Abbreviation ntasks plan := (length (tasks plan)).
Local Abbreviation launches st i := (count_occ Nat.eq_dec (launched st) i).

Section props.
Context {V : Type} `{Json V, Delegate V}.
Implicit Types (plan : PlanSpec) (rows : list task_row) (st : exec V).

(** ** Counting launches *)

Lemma count_NoDup (l : list nat) i : NoDup l ->
  count_occ Nat.eq_dec l i = if decide (i ∈ l) then 1 else 0.
Proof.
  intros Hnd. case_decide as Hi.
  - apply NoDup_count_occ'; [by apply NoDup_ListNoDup|by apply list_elem_of_In].
  - apply count_occ_not_In. by rewrite <- list_elem_of_In.
Qed.

Lemma walk_launches plan init k P fs rs st i :
  walk plan init k P fs rs st ->
  launches st i = (if decide (i ∈ fs) then 1 else 0) + (if decide (i ∈ rs) then 1 else 0).
Proof.
  intros HW. rewrite (proj1 (Permutation_count_occ Nat.eq_dec _ _) (w_launched _ _ _ _ _ _ _ HW) i).
  rewrite count_occ_app, !count_NoDup; [done|apply HW..].
Qed.

Lemma walk_launched plan init k P fs rs st i :
  walk plan init k P fs rs st -> i ∈ launched st <-> i ∈ fs.
Proof.
  intros HW. rewrite (w_launched _ _ _ _ _ _ _ HW), elem_of_app.
  split; [|by left]. intros [|Hi]; [done|]. by apply (w_sub _ _ _ _ _ _ _ HW).
Qed.

(** C2. No task is launched against stale inputs: whatever the sub-agents
    answer and whatever was replayed, when a run ends every task that was
    launched had, and still has, every dependency recorded ok, and was not
    itself replayed from a checkpoint. *)
Theorem no_stale_launch plan k rows st halted i :
  execute plan k rows = Done (Ok (st, halted)) -> i ∈ launched st ->
  replay plan rows !! i = Some None /\
  forall j, depends plan i j -> ok_at (outcomes st) j.
Proof.
  intros (L & fs & rs & _ & HW & _)%execute_inv Hi.
  rewrite (walk_launched _ _ _ _ _ _ _ _ HW) in Hi. by destruct (w_run _ _ _ _ _ _ _ HW i Hi) as (_ & ? & ?).
Qed.

(** C5. A task is launched at most twice, twice only under the [retry] edge; a [retry]
    task that was launched and ends failed was launched exactly twice.  One that is
    refused before its launch ends failed without any. *)
Theorem at_most_one_retry plan k rows st halted i :
  execute plan k rows = Done (Ok (st, halted)) ->
  launches st i <= 2 /\
  (launches st i = 2 -> edge plan i = Some Retry) /\
  (i ∈ launched st -> edge plan i = Some Retry -> failed_at (outcomes st) i -> launches st i = 2).
Proof.
  intros (L & fs & rs & _ & HW & _)%execute_inv.
  rewrite (walk_launches _ _ _ _ _ _ _ i HW), (walk_launched _ _ _ _ _ _ _ i HW).
  pose proof (w_sub _ _ _ _ _ _ _ HW i). pose proof (w_failed _ _ _ _ _ _ _ HW i).
  split_and!; repeat case_decide; try lia; naive_solver.
Qed.

(** The futures of one [join_all] are at most the clamped
    [max_concurrent], hence at most 8 sub-agents run at once, and every
    launch belongs to such a batch. *)
Theorem concurrency_bounded plan k rows st halted :
  execute plan k rows = Done (Ok (st, halted)) ->
  Forall (fun g => length g <= clamp_concurrent k /\ length g <= 8) (batches st) /\
  launched st = concat (batches st).
Proof.
  intros (L & fs & rs & _ & HW & _)%execute_inv. split; [|apply HW].
  eapply Forall_impl; [apply (w_batches _ _ _ _ _ _ _ HW)|]. simpl. unfold clamp_concurrent. lia.
Qed.

(** A run that is not halted settles every task: it records an outcome
    for it; a task that was not replayed is ok only if it was launched, and
    is skipped if and only if one of its dependencies is not ok. *)
Theorem run_settles plan k rows st i :
  execute plan k rows = Done (Ok (st, false)) -> i < ntasks plan ->
  exists o, outcomes st !! i = Some (Some o) /\
    (replay plan rows !! i = Some None ->
       (o_status o = SOk -> i ∈ launched st) /\
       (o_status o = SSkipped <-> ~ forall j, depends plan i j -> ok_at (outcomes st) j)).
Proof.
  intros (L & fs & rs & _ & HW & Hall)%execute_inv Hi.
  destruct (replay_cases plan rows i Hi) as [[Hn _]|(row & _ & _ & Hr)].
  - destruct (w_settled _ _ _ _ _ _ _ HW i) as (o & Ho & Hok & Hs); [by apply Hall|done|].
    exists o. split; [done|]. intros _. by rewrite (walk_launched _ _ _ _ _ _ _ _ HW).
  - exists (replayed_outcome row). rewrite (w_keep _ _ _ _ _ _ _ HW i) by (eexists; exact Hr).
    split; [done|congruence].
Qed.

(** A run is halted exactly when a task that was not replayed failed
    under the [halt] edge. *)
Theorem halt_exact plan k rows st halted :
  execute plan k rows = Done (Ok (st, halted)) ->
  halted = true <->
  exists i, edge plan i = Some Halt /\ replay plan rows !! i = Some None /\ failed_at (outcomes st) i.
Proof.
  intros (L & fs & rs & -> & HW & Hall)%execute_inv.
  rewrite (w_halt _ _ _ _ _ _ _ HW). split; [intros (i & ? & ? & ? & ?); eauto|].
  intros (i & He & Hn & Hf). exists i. split_and!; try done.
  destruct (decide (i ∈ L)) as [|Hni]; [done|].
  apply (w_todo _ _ _ _ _ _ _ HW) in Hni. destruct Hf as (o & Ho & _). congruence.
Qed.

(** Checkpoint replay is exact: a task starts as done exactly when a row
    of its id and agent was checkpointed ok, and a replayed task keeps that
    outcome through the run and is never launched again. *)
Theorem replay_exact plan k rows st halted i :
  execute plan k rows = Done (Ok (st, halted)) -> i < ntasks plan ->
  (replay plan rows !! i = Some None <-> forall row, row ∈ rows -> ~ vouches plan row i) /\
  (forall row, row ∈ rows -> vouches plan row i ->
     i ∉ launched st /\ outcomes st !! i = replay plan rows !! i /\ ok_at (outcomes st) i).
Proof.
  intros (L & fs & rs & _ & HW & Hall)%execute_inv Hi.
  destruct (replay_cases plan rows i Hi) as [[Hn Hno]|(row & Hrow & Hv & Hr)].
  { split; [done|]. intros row Hrow Hv. by destruct (Hno row Hrow). }
  assert (Hk : outcomes st !! i = replay plan rows !! i).
  { apply (w_keep _ _ _ _ _ _ _ HW). by eexists. }
  split; [split; [congruence|intros Hno; by destruct (Hno row Hrow)]|]. intros _ _ _.
  rewrite (walk_launched _ _ _ _ _ _ _ _ HW). split_and!; [|done|].
  - intros Hin. destruct (w_run _ _ _ _ _ _ _ HW i Hin) as (_ & ? & _). congruence.
  - exists (replayed_outcome row). by rewrite Hk, Hr.
Qed.

Lemma count_status_ge st n s i :
  i < n -> o_status (final_outcome st i) = s -> 1 <= count_status st n s.
Proof.
  intros Hi Hs. unfold count_status.
  assert (Hin : i ∈ filter (fun i => o_status (final_outcome st i) = s) (seq 0 n)).
  { apply list_elem_of_filter. split; [done|]. apply elem_of_seq. lia. }
  destruct (filter _ _); [by apply elem_of_nil in Hin|simpl; lia].
Qed.

Lemma count_status_zero st n s :
  (forall i, i < n -> o_status (final_outcome st i) <> s) -> count_status st n s = 0.
Proof.
  intros Hall. unfold count_status.
  destruct (filter _ _) as [|i l] eqn:Hf; [done|]. exfalso.
  assert (Hin : i ∈ filter (fun i => o_status (final_outcome st i) = s) (seq 0 n)) by (rewrite Hf; left).
  apply list_elem_of_filter in Hin as [? [_ ?]%elem_of_seq]. by eapply Hall.
Qed.

(** The plan is reported [completed] exactly when every task is ok: a
    failed, skipped or never scheduled task makes it [failed]. *)
Theorem completed_exact plan st :
  final_status plan st = "completed" <-> forall i, i < ntasks plan -> ok_at (outcomes st) i.
Proof.
  assert (Hok : forall i, ok_at (outcomes st) i <-> o_status (final_outcome st i) = SOk).
  { intros i. unfold ok_at, final_outcome. destruct (outcomes st !! i) as [[o|]|]; simpl; naive_solver. }
  setoid_rewrite Hok. unfold final_status. split.
  - destruct (Nat.eqb_spec (count_status st (ntasks plan) SFailed + count_status st (ntasks plan) SSkipped) 0)
      as [Hz|]; [|done].
    intros _ i Hi. destruct (o_status (final_outcome st i)) eqn:Hs; [done|exfalso..];
      pose proof (count_status_ge st _ _ i Hi Hs); lia.
  - intros Hall. rewrite !count_status_zero; [done|..]; intros i Hi; by rewrite Hall.
Qed.

(** A failure reaches everything downstream: when a run ends without a
    halt, a task that was not replayed and that depends, directly or through
    other tasks that were not replayed, on a task that is not ok is itself
    skipped and was never launched. *)
Theorem failure_propagates plan k rows st i j :
  execute plan k rows = Done (Ok (st, false)) ->
  tc (fun x y => depends plan x y /\ x < ntasks plan /\ replay plan rows !! x = Some None) i j ->
  ~ ok_at (outcomes st) j ->
  (exists o, outcomes st !! i = Some (Some o) /\ o_status o = SSkipped) /\ i ∉ launched st.
Proof.
  intros (L & fs & rs & Heq & HW & Hall)%execute_inv Htc Hj.
  assert (Hone : forall x y, depends plan x y -> x < ntasks plan -> replay plan rows !! x = Some None ->
    ~ ok_at (outcomes st) y ->
    (exists o, outcomes st !! x = Some (Some o) /\ o_status o = SSkipped) /\ x ∉ launched st).
  { intros x y Hd Hx Hn Hy. rewrite (walk_launched _ _ _ _ _ _ _ _ HW). split.
    - destruct (w_settled _ _ _ _ _ _ _ HW x (Hall eq_refl x Hx) Hn) as (o & Ho & _ & Hs).
      exists o. split; [done|]. apply Hs. intros Hdeps. by apply Hy, Hdeps.
    - intros Hin. by apply Hy, (w_run _ _ _ _ _ _ _ HW x Hin). }
  induction Htc as [x y (? & ? & ?)|x y z (? & ? & ?) _ IH]; [by eapply Hone|].
  eapply Hone; try done. destruct (IH Hj) as ((o & Ho & Hs) & _). intros (o' & ? & ?). congruence.
Qed.

Lemma layers_total plan : deps_known plan ->
  (exists layers, topological_layers plan = Done (Ok layers)) \/
  topological_layers plan = Done (Err cycle_error) \/
  exists n, topological_layers plan = Done (Err (too_deep_error n)).
Proof.
  intros Hk. destruct (build_known plan Hk) as (layers & indeg & HI & ->). unfold verdict.
  repeat case_match; eauto.
Qed.

(** Execution is total: an accepted plan never panics and never loops,
    whatever the sub-agents answer; it runs, unless it is refused for a
    dependency cycle or for its depth. *)
Theorem execute_total (args : V) plan k rows :
  parse_plan args = Ok plan ->
  (exists st halted, execute plan k rows = Done (Ok (st, halted))) \/
  execute plan k rows = Done (Err cycle_error) \/
  exists n, execute plan k rows = Done (Err (too_deep_error n)).
Proof.
  intros Hp. assert (Hk : deps_known plan) by by eapply parsed_known.
  destruct (layers_total plan Hk) as [[layers Hl]|[He|[n He]]].
  - destruct (execute_walk plan k rows layers Hl) as (st & L & fs & rs & He & _). eauto.
  - unfold execute. rewrite He. by right; left.
  - unfold execute. rewrite He. right; right. by eexists.
Qed.
End props.

(** ** Witnesses on a concrete plan

    [fetch] succeeds, [build] (retry edge) needs it and keeps failing, [report]
    needs [build]. *)

Definition demo_task (tid ag : string) (deps : list string) (on_fail : string) : jval :=
  JObj [("id", JStr tid); ("agent", JStr ag); ("prompt", JStr "go");
        ("depends_on", JArr (map JStr deps)); ("on_failure", JStr on_fail)].

Definition demo_args : jval :=
  JObj [("name", JStr "demo");
        ("tasks", JArr [demo_task "fetch" "good" [] "skip"; demo_task "build" "bad" ["fetch"] "retry";
                        demo_task "report" "good" ["build"] "skip"])].

Definition demo_plan : PlanSpec :=
  match parse_plan demo_args with Ok p => p | Err _ => {| name := None; tasks := [] |} end.

(** The sub-agent [bad] always answers with an error. *)
#[local] Instance demo_delegate : Delegate jval := {
  validate_task := fun _ => None;
  run_single := fun _ req =>
    if String.eqb (r_agent req) "bad" then JObj [("error", JStr "boom")]
    else JObj [("response", JStr "fine")];
}.

Definition demo_row : task_row :=
  {| tr_task_id := "fetch"; tr_agent := "good"; tr_status := "ok"; tr_response := Some "cached";
     tr_updated_at := 0%Z |}.

Definition demo_st (rows : list task_row) : exec jval :=
  match execute demo_plan 3 rows with Done (Ok (st, _)) => st | _ => start demo_plan rows end.

Definition demo_layers : list (list nat) := [[0]; [1]; [2]].

Definition cyclic_plan : PlanSpec :=
  {| name := None; tasks := [{| id := "a"; agent := "g"; prompt := "p"; depends_on := ["a"];
       on_failure := Skip; artifact := None |}] |}.

Lemma topological_layers_cover_witness :
  topological_layers demo_plan = Done (Ok demo_layers) /\
  concat demo_layers ≡ₚ seq 0 (length (tasks demo_plan)).
Proof. split; [vm_compute; reflexivity|]. apply (topological_layers_cover demo_plan). vm_compute. reflexivity. Defined.

Lemma demo_known : deps_known demo_plan.
Proof. apply (parsed_known demo_args). reflexivity. Qed.

Lemma cycle_error_exact_witness :
  topological_layers demo_plan = Done (Err cycle_error) <-> ~ acyclic demo_plan.
Proof. apply (cycle_error_exact demo_plan). exact demo_known. Defined.

Lemma demo_acyclic : acyclic demo_plan.
Proof.
  exists (fun i => i). intros i j. unfold depends.
  destruct i as [|[|[|i]]]; vm_compute; intros Hj; repeat (apply elem_of_cons in Hj as [->|Hj]);
    try lia; by apply elem_of_nil in Hj.
Qed.

Lemma too_deep_error_exact_witness :
  (exists k, topological_layers demo_plan = Done (Err (too_deep_error k))) <->
  (exists c, is_chain demo_plan c /\ length c = S MAX_PLAN_LAYERS).
Proof. apply (too_deep_error_exact demo_plan); [exact demo_known|exact demo_acyclic]. Defined.

Lemma parse_plan_wf_witness :
  parse_plan demo_args = Ok demo_plan /\ NoDup (map id (tasks demo_plan)).
Proof. split; [vm_compute; reflexivity|]. apply (parse_plan_wf demo_args). vm_compute. reflexivity. Defined.

Lemma no_stale_launch_witness :
  1 ∈ launched (demo_st []) /\ (forall j, depends demo_plan 1 j -> ok_at (outcomes (demo_st [])) j).
Proof.
  assert (Hin : 1 ∈ launched (demo_st [])) by (vm_compute; do 1 right; left).
  split; [exact Hin|]. apply (no_stale_launch demo_plan 3 [] (demo_st []) false 1); [vm_compute; reflexivity|exact Hin].
Defined.

Lemma at_most_one_retry_witness :
  launches (demo_st []) 1 = 2 /\ edge demo_plan 1 = Some Retry.
Proof.
  assert (Heq : launches (demo_st []) 1 = 2) by (vm_compute; reflexivity).
  split; [exact Heq|]. eapply (at_most_one_retry demo_plan 3 [] (demo_st []) false 1); [vm_compute; reflexivity|exact Heq].
Defined.

Lemma concurrency_bounded_witness : launched (demo_st []) = concat (batches (demo_st [])).
Proof. apply (concurrency_bounded demo_plan 3 [] (demo_st []) false). vm_compute. reflexivity. Defined.

Lemma run_settles_witness : exists o, outcomes (demo_st []) !! 2 = Some (Some o).
Proof.
  edestruct (run_settles demo_plan 3 [] (demo_st []) 2) as (o & Ho & _); [vm_compute; reflexivity|vm_compute; lia|].
  exists o. exact Ho.
Defined.

Lemma halt_exact_witness :
  false = true <-> exists i, edge demo_plan i = Some Halt /\ replay demo_plan [] !! i = Some None /\
    failed_at (outcomes (demo_st [])) i.
Proof. eapply (halt_exact demo_plan 3 [] (demo_st []) false). vm_compute. reflexivity. Defined.

Lemma replay_exact_witness : 0 ∉ launched (demo_st [demo_row]) /\ vouches demo_plan demo_row 0.
Proof.
  assert (Hv : vouches demo_plan demo_row 0) by (split; [reflexivity|split; vm_compute; reflexivity]).
  split; [|exact Hv].
  eapply (replay_exact demo_plan 3 [demo_row] (demo_st [demo_row]) false 0);
    [vm_compute; reflexivity|vm_compute; lia|left|exact Hv].
Defined.

Lemma failure_propagates_witness : 2 ∉ launched (demo_st []).
Proof.
  apply (failure_propagates demo_plan 3 [] (demo_st []) 2 1).
  - vm_compute. reflexivity.
  - apply tc_once. split; [vm_compute; left|]. split; [vm_compute; lia|vm_compute; reflexivity].
  - intros (o & Ho & Hs). vm_compute in Ho. injection Ho as <-. discriminate Hs.
Defined.

Lemma execute_total_witness :
  (exists st halted, execute demo_plan 3 [] = Done (Ok (st, halted))) \/
  execute demo_plan 3 [] = Done (Err cycle_error) \/
  exists n, execute demo_plan 3 [] = Done (Err (too_deep_error n)).
Proof. apply (execute_total demo_args). vm_compute. reflexivity. Defined.
