(* ===== verification/PlanStore.v ===== *)
(** * The plan store: [WorkflowRepo]

    Models [crates/zen-repo/src/workflow_repo.rs] over the tables
    [workflow_plans] and [workflow_tasks] (migrations 006 and 007): creation,
    checkpoints, the claim fence of concurrent resumes, completion and the two
    reads.  Every write goes through the single writer connection, so a run of
    the system is a sequence of operations; I/O failures are not modelled. *)

From S2P Require Import Prelude PlanExec.
From Stdlib Require Import Lia.
Local Open Scope string_scope.
Local Open Scope Z_scope.

Definition STALE_CLAIM_SECS : Z := 3600.

Record WorkflowPlanRow := {
  wp_name : option string;
  wp_status : string;
  wp_spec_json : string;
  wp_summary : option string;
  wp_plan_approved : option bool;
  wp_delivery_ready : option bool;
  wp_created_at : Z;
  wp_updated_at : Z;
  wp_owner : option string;
}.

Record WorkflowTaskRow := {
  wt_agent : string;
  wt_status : string;
  wt_response : option string;
  wt_error : option string;
  wt_updated_at : Z;
}.

(** The two tables, by primary key. *)
Record store := {
  plans : gmap string WorkflowPlanRow;
  task_table : gmap (string * string) WorkflowTaskRow;
}.

Definition with_plan (pid : string) (row : WorkflowPlanRow) (db : store) : store :=
  {| plans := <[pid := row]> (plans db); task_table := task_table db |}.

(** [INSERT INTO workflow_plans]: refused on a duplicate primary key. *)
Definition create_plan (pid : string) (name : option string) (spec_json : string) (now : Z)
    (db : store) : store * bool :=
  match plans db !! pid with
  | Some _ => (db, false)
  | None =>
    (with_plan pid {| wp_name := name; wp_status := "running"; wp_spec_json := spec_json;
       wp_summary := None; wp_plan_approved := None; wp_delivery_ready := None;
       wp_created_at := now; wp_updated_at := now; wp_owner := None |} db, true)
  end.

(** [INSERT OR REPLACE INTO workflow_tasks]. *)
Definition checkpoint_task (pid tid : string) (row : WorkflowTaskRow) (db : store) : store :=
  {| plans := plans db; task_table := <[(pid, tid) := row]> (task_table db) |}.

(** The [WHERE] clause of the claim. *)
Definition claimable (row : WorkflowPlanRow) (owner : string) (now : Z) : bool :=
  String.eqb (wp_status row) "running" &&
  (match wp_owner row with None => true | Some o => String.eqb o owner end ||
   (wp_updated_at row <? now - STALE_CLAIM_SECS)).

Definition claim_plan (pid owner : string) (now : Z) (db : store) : store * bool :=
  match plans db !! pid with
  | Some row =>
    if claimable row owner now then
      (with_plan pid {| wp_name := wp_name row; wp_status := wp_status row;
         wp_spec_json := wp_spec_json row; wp_summary := wp_summary row;
         wp_plan_approved := wp_plan_approved row; wp_delivery_ready := wp_delivery_ready row;
         wp_created_at := wp_created_at row; wp_updated_at := now; wp_owner := Some owner |} db, true)
    else (db, false)
  | None => (db, false)
  end.

Definition complete_plan (pid status : string) (summary : option string)
    (plan_approved delivery_ready : option bool) (now : Z) (db : store) : store :=
  match plans db !! pid with
  | Some row =>
    with_plan pid {| wp_name := wp_name row; wp_status := status;
      wp_spec_json := wp_spec_json row; wp_summary := summary;
      wp_plan_approved := plan_approved; wp_delivery_ready := delivery_ready;
      wp_created_at := wp_created_at row; wp_updated_at := now; wp_owner := None |} db
  | None => db
  end.

Definition load_plan (pid : string) (db : store) : option WorkflowPlanRow := plans db !! pid.

(** [ORDER BY task_id]: SQLite's binary collation is the byte order. *)
Definition by_task_id (x y : task_row) : Prop := String.leb (tr_task_id x) (tr_task_id y) = true.

#[export] Instance by_task_id_dec : RelDecision by_task_id.
Proof. intros x y. unfold by_task_id. apply _. Defined.

Definition load_task_rows (pid : string) (db : store) : list task_row :=
  merge_sort by_task_id
    (omap (fun '((p, tid), row) =>
       if String.eqb p pid then
         Some {| tr_task_id := tid; tr_agent := wt_agent row; tr_status := wt_status row;
                 tr_response := wt_response row; tr_updated_at := wt_updated_at row |}
       else None) (map_to_list (task_table db))).

(** ** Runs of the store *)

Inductive store_op :=
  | OCreate (pid : string) (name : option string) (spec_json : string) (now : Z)
  | OCheckpoint (pid tid : string) (row : WorkflowTaskRow)
  | OClaim (pid owner : string) (now : Z)
  | OComplete (pid status : string) (summary : option string) (pa dr : option bool) (now : Z).

Definition run_op (db : store) (o : store_op) : store :=
  match o with
  | OCreate pid name spec now => (create_plan pid name spec now db).1
  | OCheckpoint pid tid row => checkpoint_task pid tid row db
  | OClaim pid owner now => (claim_plan pid owner now db).1
  | OComplete pid status summary pa dr now => complete_plan pid status summary pa dr now db
  end.

Definition run_ops (db : store) (ops : list store_op) : store := fold_left run_op ops db.

(** [ops] leaves plan [pid] alone while [owner] holds it: nobody completes it,
    and every claim is made before the claim taken at [t] goes stale. *)
Definition within_claim (pid : string) (t : Z) (o : store_op) : Prop :=
  match o with
  | OClaim p _ now => p = pid -> t <= now <= t + STALE_CLAIM_SECS
  | OComplete p _ _ _ _ _ => p <> pid
  | _ => True
  end.

(** Plan [pid] is running under [owner] with a claim no older than [t]. *)
Definition held (pid owner : string) (t : Z) (db : store) : Prop :=
  exists row, plans db !! pid = Some row /\ wp_status row = "running" /\
    wp_owner row = Some owner /\ t <= wp_updated_at row.

Lemma with_plan_ne pid p row db : p <> pid -> plans (with_plan p row db) !! pid = plans db !! pid.
Proof. intros Hp. simpl. by rewrite lookup_insert_ne. Qed.

Lemma create_lookup pid p name spec now db row :
  plans db !! pid = Some row -> plans (create_plan p name spec now db).1 !! pid = Some row.
Proof.
  intros Hr. unfold create_plan. destruct (plans db !! p) eqn:Hp; [done|].
  simpl. rewrite lookup_insert_ne; [done|]. intros ->. congruence.
Qed.

Lemma held_op pid owner t db o :
  held pid owner t db -> within_claim pid t o -> held pid owner t (run_op db o).
Proof.
  intros (row & Hr & Hs & Ho & Hu) Hw.
  destruct o as [p name spec now|p tid trow|p ow now|p status summary pa dr now]; simpl in *.
  - exists row. split_and!; try done. by apply create_lookup.
  - by exists row.
  - unfold claim_plan. destruct (plans db !! p) as [row'|] eqn:Hp; [|by exists row].
    destruct (claimable row' ow now) eqn:Hc; [|by exists row].
    destruct (decide (p = pid)) as [->|Hne].
    2: { exists row. cbn [fst]. by rewrite with_plan_ne. }
    rewrite Hr in Hp. injection Hp as <-. unfold claimable in Hc. rewrite Ho, Hs in Hc. simpl in Hc.
    destruct (String.eqb_spec owner ow) as [->|]; simpl in Hc.
    + eexists. cbn [fst with_plan plans]. rewrite lookup_insert_eq. split; [done|]. simpl.
      split_and!; try done. by apply Hw.
    + apply Z.ltb_lt in Hc. specialize (Hw eq_refl). lia.
  - exists row. unfold complete_plan. destruct (plans db !! p); [|done].
    by rewrite with_plan_ne.
Qed.

(** The claim fence is exclusive: once [owner] has claimed a running plan
    at time [t], a claim by anyone else within [STALE_CLAIM_SECS] is refused,
    whatever other operations (claims, creations, checkpoints, work on other
    plans) interleave, as long as nobody completes the plan. *)
Theorem claim_exclusive pid owner other t now db db' ops :
  claim_plan pid owner t db = (db', true) ->
  Forall (within_claim pid t) ops -> t <= now <= t + STALE_CLAIM_SECS -> other <> owner ->
  (claim_plan pid other now (run_ops db' ops)).2 = false.
Proof.
  intros Hc Hops Hnow Hne.
  assert (Hheld : held pid owner t db').
  { unfold claim_plan in Hc. destruct (plans db !! pid) as [row|] eqn:Hr; [|done].
    destruct (claimable row owner t) eqn:Hcl; [|done]. injection Hc as <-.
    unfold claimable in Hcl. bool_to_prop. apply String.eqb_eq in H.
    eexists. cbn [with_plan plans]. rewrite lookup_insert_eq. split; [done|]. simpl. split_and!; done || lia. }
  assert (Hfin : held pid owner t (run_ops db' ops)).
  { clear Hc. unfold run_ops. revert db' Hheld. induction Hops as [|o ops Ho _ IH]; intros db' Hheld; [done|].
    simpl. apply IH. by apply held_op. }
  destruct Hfin as (row & Hr & Hs & Ho & Hu). unfold claim_plan. rewrite Hr.
  unfold claimable. rewrite Ho. destruct (String.eqb_spec owner other); [congruence|]. simpl.
  destruct (Z.ltb_spec (wp_updated_at row) (now - STALE_CLAIM_SECS)); [lia|]. by rewrite andb_false_r.
Qed.

(** [OComplete] as the executor uses it: to a terminal status. *)
Definition completes_terminal (o : store_op) : Prop :=
  match o with OComplete _ status _ _ _ _ => status <> "running" | _ => True end.

Definition terminal (pid : string) (db : store) : Prop :=
  exists row, plans db !! pid = Some row /\ wp_status row <> "running".

Lemma terminal_op pid db o :
  terminal pid db -> completes_terminal o -> terminal pid (run_op db o).
Proof.
  intros (row & Hr & Hs) Ho.
  destruct o as [p name spec now|p tid trow|p ow now|p status summary pa dr now]; simpl in *.
  - exists row. split; [|done]. by apply create_lookup.
  - by exists row.
  - unfold claim_plan. destruct (plans db !! p) as [row'|] eqn:Hp; [|by exists row].
    destruct (claimable row' ow now) eqn:Hc; [|by exists row].
    exists row. split; [|done]. cbn [fst]. rewrite with_plan_ne; [done|]. intros ->.
    rewrite Hr in Hp. injection Hp as <-. unfold claimable in Hc. bool_to_prop.
    by apply String.eqb_eq in H.
  - unfold complete_plan. destruct (plans db !! p) as [row'|] eqn:Hp; [|by exists row].
    destruct (decide (p = pid)) as [->|Hne].
    + eexists. cbn [with_plan plans]. by rewrite lookup_insert_eq.
    + exists row. by rewrite with_plan_ne.
Qed.

(** A terminal plan stays terminal and can never be claimed for a resume
    again, whatever operations follow. *)
Theorem terminal_never_claimed pid owner now db ops :
  terminal pid db -> Forall completes_terminal ops ->
  terminal pid (run_ops db ops) /\ (claim_plan pid owner now (run_ops db ops)).2 = false.
Proof.
  intros Ht Hops. assert (Hfin : terminal pid (run_ops db ops)).
  { unfold run_ops. revert db Ht. induction Hops as [|o ops Ho _ IH]; intros db Ht; [done|].
    simpl. apply IH. by apply terminal_op. }
  split; [done|]. destruct Hfin as (row & Hr & Hs). unfold claim_plan. rewrite Hr. unfold claimable.
  destruct (String.eqb_spec (wp_status row) "running"); [done|]. done.
Qed.

(** ** Witnesses *)

Definition demo_db : store := (create_plan "p" None "{}" 1000 {| plans := ∅; task_table := ∅ |}).1.

Definition demo_cp (now : Z) : WorkflowTaskRow :=
  {| wt_agent := "Explore"; wt_status := "ok"; wt_response := None; wt_error := None; wt_updated_at := now |}.

Lemma claim_exclusive_witness :
  (claim_plan "p" "run-b" 4599
    (run_ops (claim_plan "p" "run-a" 1000 demo_db).1
       [OCheckpoint "p" "a" (demo_cp 1500); OClaim "p" "run-c" 2000])).2 = false.
Proof.
  apply (claim_exclusive "p" "run-a" "run-b" 1000 4599 demo_db _
    [OCheckpoint "p" "a" (demo_cp 1500); OClaim "p" "run-c" 2000]).
  - vm_compute. reflexivity.
  - apply Forall_cons_2; [exact I|]. apply Forall_cons_2; [|apply Forall_nil_2].
    simpl. unfold STALE_CLAIM_SECS. lia.
  - unfold STALE_CLAIM_SECS. lia.
  - discriminate.
Defined.

Lemma terminal_never_claimed_witness :
  terminal "p" (run_ops (complete_plan "p" "failed" None None None 2000 demo_db) [OClaim "p" "run-c" 2000]).
Proof.
  apply (terminal_never_claimed "p" "run-c" 2000).
  - eexists. split; [vm_compute; reflexivity|discriminate].
  - repeat constructor.
Defined.

(** A claim is not refreshed by checkpoints: a run that claimed the plan
    and checkpointed a task a moment ago loses its claim once the claim itself
    is older than [STALE_CLAIM_SECS]. *)
Theorem checkpoints_do_not_refresh pid owner other tid row t now db db' :
  claim_plan pid owner t db = (db', true) -> t + STALE_CLAIM_SECS < now ->
  (claim_plan pid other now (checkpoint_task pid tid row db')).2 = true.
Proof.
  unfold claim_plan at 1. destruct (plans db !! pid) as [r|] eqn:Hr; [|done].
  destruct (claimable r owner t) eqn:Hc; [|done]. intros [= <-] Hlt.
  unfold claimable in Hc. bool_to_prop. apply String.eqb_eq in H.
  unfold claim_plan. simpl. rewrite lookup_insert_eq. unfold claimable. simpl. rewrite H. simpl.
  replace (t <? now - STALE_CLAIM_SECS) with true by (symmetry; apply Z.ltb_lt; lia).
  by rewrite orb_true_r.
Qed.

Lemma checkpoints_do_not_refresh_witness :
  (claim_plan "p" "thief" 4601
     (checkpoint_task "p" "a" (demo_cp 4600) (claim_plan "p" "run-a" 1000 demo_db).1)).2 = true.
Proof.
  apply (checkpoints_do_not_refresh "p" "run-a" "thief" "a" (demo_cp 4600) 1000 4601 demo_db).
  - vm_compute. reflexivity.
  - unfold STALE_CLAIM_SECS. lia.
Defined.
