(* ===== verification/PlanInvoke.v ===== *)
(** * [plan.execute] end to end: persistence and resume

    Models [PlanExecuteTool::invoke] of [crates/zen-agents/src/plan_task.rs]
    over the store of [PlanStore]: the fresh, resumed and refused runs, the
    checkpoints written as the run advances, the summary and the completion
    row.  The audit line and the rewind memory are outputs the model leaves
    out. *)

From S2P Require Import Prelude Text Json PlanTask PlanLayers PlanExec PlanRun PlanProps PlanStore.
From Stdlib Require Import Lia.
Local Open Scope string_scope.

Local Abbreviation ntasks plan := (length (tasks plan)).

(** What [invoke] takes from outside: the ids [uuid] draws, the time of the
    n-th store write, and the verdict of the quality gate. *)
Record surroundings := {
  fresh_plan_id : string;
  claim_owner : string;
  clock : nat -> Z;
  gate : string -> bool * bool;
}.

Section invoke.
Context {V : Type} `{Json V, Delegate V}.
Implicit Types (plan : PlanSpec) (st : exec V) (db : store).

(** The row [checkpoint] writes for one outcome. *)
Definition checkpoint_row (t : PlanTaskSpec) (o : TaskOutcome V) (now : Z) : WorkflowTaskRow :=
  {| wt_agent := agent t; wt_status := status_str (o_status o);
     wt_response := get_str (o_value o) "response"; wt_error := get_str (o_value o) "error";
     wt_updated_at := now |}.

Definition checkpoint_db plan (pid : string) (now : Z) (i : nat) (o : TaskOutcome V) db : store :=
  if String.eqb pid "" then db
  else match tasks plan !! i with
       | Some t => checkpoint_task pid (id t) (checkpoint_row t o now) db
       | None => db
       end.

(** The checkpoints of a run, in the order they were written. *)
Fixpoint persist plan (pid : string) (clk : nat -> Z) (k : nat)
    (log : list (nat * TaskOutcome V)) db : store :=
  match log with
  | [] => db
  | (i, o) :: rest => persist plan pid clk (S k) rest (checkpoint_db plan pid (clk k) i o db)
  end.

(** ** The answer *)

Definition excerpt (v : V) : string :=
  match get_str v "response" with
  | Some r => r
  | None => default "" (get_str v "error")
  end.

Definition summary_line (t : PlanTaskSpec) (o : TaskOutcome V) : string :=
  "[" ++ status_str (o_status o) ++ "] " ++ id t ++ "/" ++ agent t ++ ": "
    ++ to_string (take 300 (utf8 (excerpt (o_value o)))).

Definition summary_of plan st : string :=
  String.concat nl (imap (fun i t => summary_line t (final_outcome st i)) (tasks plan)).

(** One element of [task_rows]. *)
Record answer_row := {
  ar_id : string;
  ar_agent : string;
  ar_status : status;
  ar_response : option V;
  ar_error : option V;
  ar_artifact_path : option V;
  ar_summary : option V;
}.

Definition answer_rows plan st : list answer_row :=
  imap (fun i t => let o := final_outcome st i in
    {| ar_id := id t; ar_agent := agent t; ar_status := o_status o;
       ar_response := j_get (o_value o) "response"; ar_error := j_get (o_value o) "error";
       ar_artifact_path := j_get (o_value o) "artifact_path";
       ar_summary := j_get (o_value o) "summary" |}) (tasks plan).

Record answer := {
  an_plan : option string;
  an_tasks : list answer_row;
  an_summary : string;
  an_gate : bool * bool;
  an_resumed : bool;
  an_plan_id : string;
  an_status : string;
  an_state : exec V;
  an_halted : bool;
}.

(** ** Opening the run *)

Inductive opening :=
  | Opened (pid : string) (resumed : bool) (rows : list task_row) (db : option store)
  | Refused (error : string).

Definition already_resumed_error (rid : string) : string :=
  "plan " ++ rid ++ " is already being resumed by another run".
Definition terminal_error (rid st : string) : string :=
  "plan " ++ rid ++ " already terminal (" ++ st ++ ")".

Definition open_run (env : surroundings) plan (spec_json : string) (db : option store)
    (resumed_id : option string) : opening :=
  match db, resumed_id with
  | Some d, Some rid =>
    match load_plan rid d with
    | Some row =>
      if String.eqb (wp_status row) "running" then
        let '(d', claimed) := claim_plan rid (claim_owner env) (clock env 0) d in
        if claimed then Opened rid true (load_task_rows rid d') (Some d')
        else Refused (already_resumed_error rid)
      else Refused (terminal_error rid (wp_status row))
    | None => Refused ("unknown plan " ++ rid)
    end
  | Some d, None =>
    let '(d', _) := create_plan (fresh_plan_id env) (name plan) spec_json (clock env 0) d in
    Opened (fresh_plan_id env) false [] (Some d')
  | None, Some _ =>
    Refused "plan store unavailable; resume is impossible without state.db"
  | None, None => Opened "" false [] None
  end.

(** [invoke]: the store it leaves and its answer. *)
Definition invoke (env : surroundings) (max_concurrent : nat) (db : option store) (args : V)
    : outcome (option store * result answer string) :=
  match parse_plan args with
  | Err e => Done (db, Err e)
  | Ok plan =>
    let! layers := topological_layers plan in
    match layers with
    | Err e => Done (db, Err e)
    | Ok layers =>
      match open_run env plan (j_to_string args) db (get_str args "resume_plan_id") with
      | Refused e => Done (db, Err e)
      | Opened pid resumed rows db1 =>
        let! (st, halted) :=
          run_layers plan (clamp_concurrent max_concurrent) layers (start plan rows) in
        let db2 := persist plan pid (clock env) 1 (checkpoints st) <$> db1 in
        let summary := summary_of plan st in
        let '(approved, ready) := gate env summary in
        let fin := final_status plan st in
        let db3 := (fun d => if String.eqb pid "" then d
                             else complete_plan pid fin (Some summary) (Some approved) (Some ready)
                                    (clock env (S (length (checkpoints st)))) d) <$> db2 in
        Done (db3, Ok {| an_plan := name plan; an_tasks := answer_rows plan st;
                         an_summary := summary; an_gate := (approved, ready);
                         an_resumed := resumed; an_plan_id := pid; an_status := fin;
                         an_state := st; an_halted := halted |})
      end
    end
  end.

(** ** The checkpoint log and the recorded outcomes *)

(** The outcomes after the checkpoints of [log]. *)
Definition apply_log (log : list (nat * TaskOutcome V)) (outs : list (option (TaskOutcome V)))
    : list (option (TaskOutcome V)) :=
  fold_left (fun outs '(i, o) => <[i := Some o]> outs) log outs.

Definition advances st st' : Prop :=
  exists more, checkpoints st' = (checkpoints st ++ more)%list /\
    outcomes st' = apply_log more (outcomes st).

Lemma advances_refl st : advances st st.
Proof. exists []. by rewrite app_nil_r. Qed.

Lemma advances_trans st1 st2 st3 : advances st1 st2 -> advances st2 st3 -> advances st1 st3.
Proof.
  intros (m1 & Hc1 & Ho1) (m2 & Hc2 & Ho2). exists (m1 ++ m2)%list.
  rewrite Hc2, Hc1, app_assoc. split; [done|]. unfold apply_log in *. by rewrite fold_left_app, <- Ho1.
Qed.

Lemma advances_one st st1 i o :
  checkpoints st1 = checkpoints st -> outcomes st1 = outcomes st ->
  advances st (set_outcome i o (checkpoint i o st1)).
Proof. intros Hc Ho. exists [(i, o)]. simpl. by rewrite Hc, Ho. Qed.

Lemma prepare_task_advances plan i st runnable st' runnable' :
  prepare_task plan i (st, runnable) = Done (st', runnable') -> advances st st'.
Proof.
  unfold prepare_task. intros Hp.
  destruct (outcomes st !! i) as [[o|]|]; [injection Hp as <- <-; apply advances_refl| |done].
  destruct (tasks plan !! i) as [t|]; [|done].
  destruct (gather_upstream plan (outcomes st) (depends_on t)) as [[up blocked]| |]; try done.
  cbn [obind] in Hp. destruct blocked; [injection Hp as <- <-; by apply advances_one|].
  destruct (validate_task (request_of t up)); injection Hp as <- <-; [|apply advances_refl].
  apply advances_one; by case_bool_decide.
Qed.

Lemma prepare_layer_advances plan layer : forall st runnable st' runnable',
  prepare_layer plan layer (st, runnable) = Done (st', runnable') -> advances st st'.
Proof.
  induction layer as [|i layer IH]; intros st runnable st' runnable'; cbn [prepare_layer].
  { intros [= <- <-]. apply advances_refl. }
  destruct (prepare_task plan i (st, runnable)) as [[st1 r1]| |] eqn:Hp; try done. cbn [obind].
  intros Hl. eapply advances_trans; [by eapply prepare_task_advances|by eapply IH].
Qed.

Lemma failure_edges_same plan zipped : forall st rb,
  checkpoints (failure_edges plan zipped (st, rb)).1 = checkpoints st /\
  outcomes (failure_edges plan zipped (st, rb)).1 = outcomes st.
Proof.
  unfold failure_edges. induction zipped as [|[[i req] o] zipped IH]; intros st rb; [done|].
  cbn [fold_left]. case_bool_decide; [|apply IH]. rewrite failure_edge_eq.
  destruct (edge plan i) as [[| |]|]; try apply IH.
  - destruct (default false (retried st !! i)); [apply IH|]. apply (IH (mark_retried i st)).
  - apply (IH (with_halt st)).
Qed.

Lemma record_batch_advances (zipped : list ((nat * DelegateRequest) * TaskOutcome V)) st :
  advances st
    (fold_left (fun st '((i, _), o) => set_outcome i o st) zipped
       (fold_left (fun st '((i, _), o) => checkpoint i o st) zipped st)).
Proof.
  exists (map (fun '((i, _), o) => (i, o)) zipped). split.
  - assert (Hs : forall l s, checkpoints (fold_left (fun st '((i, _), o) => set_outcome i o st)
      (l : list ((nat * DelegateRequest) * TaskOutcome V)) s) = checkpoints s).
    { induction l as [|[[i q] o] l IH]; intros s; [done|]. cbn [fold_left]. by rewrite IH. }
    rewrite Hs. clear Hs. revert st. induction zipped as [|[[i q] o] z IH]; intros st; cbn [fold_left map].
    { by rewrite app_nil_r. } rewrite IH. simpl. by rewrite <- app_assoc.
  - destruct (fold_checkpoints zipped st) as (_ & Ho). revert Ho.
    generalize (fold_left (fun st '((i, _), o) => checkpoint i o st) zipped st). intros s <-.
    revert s. induction zipped as [|[[i q] o] z IH]; intros s; [done|]. cbn [fold_left map].
    rewrite IH. done.
Qed.

Lemma run_retries_advances rb : forall st, advances st (fold_left run_retry rb st).
Proof.
  induction rb as [|[i req] rb IH]; intros st; [apply advances_refl|]. cbn [fold_left].
  eapply advances_trans; [|apply IH].
  destruct (advances_one st (note_launch [i] st) i
    (outcome_of (run_single (length (launched st)) req)) eq_refl eq_refl) as (more & ? & ?).
  by exists more.
Qed.

Lemma run_batch_advances plan st batch : advances st (run_batch plan st batch).
Proof.
  unfold run_batch. set (zipped := zip batch _).
  pose proof (failure_edges_same plan zipped (note_launch batch.*1 st) []) as [Hc Ho].
  destruct (failure_edges plan zipped (note_launch batch.*1 st, [])) as [st2 rb]. simpl in Hc, Ho.
  eapply advances_trans; [|apply run_retries_advances].
  destruct (record_batch_advances zipped st2) as (more & Hm & Ho'). exists more.
  by rewrite Hm, Ho', Hc, Ho.
Qed.

Lemma run_layers_advances plan k layers : forall st st' halted,
  run_layers plan k layers st = Done (st', halted) -> advances st st'.
Proof.
  induction layers as [|layer layers IH]; intros st st' halted; cbn [run_layers].
  { intros [= <- <-]. apply advances_refl. }
  unfold run_layer.
  destruct (prepare_layer plan layer (clear_halt st, [])) as [[st1 new]| |] eqn:Hp; try done. cbn [obind].
  set (st2 := fold_left (run_batch plan) (chunks (Nat.max k 1) new) st1).
  assert (Hadv : advances st st2).
  { apply prepare_layer_advances in Hp. eapply (advances_trans _ st1); [exact Hp|]. subst st2.
    clear. revert st1. induction (chunks (Nat.max k 1) new) as [|c cs IH]; intros st1; [apply advances_refl|].
    cbn [fold_left]. eapply advances_trans; [apply run_batch_advances|apply IH]. }
  destruct (halt_hit st2); [by intros [= <- <-]|]. intros Hr.
  eapply advances_trans; [exact Hadv|by eapply IH].
Qed.

(** ** The rows of the store and the log *)

Lemma index_of_id plan i t :
  NoDup (map id (tasks plan)) -> tasks plan !! i = Some t -> index_of plan (id t) = Some i.
Proof.
  unfold index_of. revert i. induction (tasks plan) as [|t0 ts IH]; intros i Hnd Ht; [done|].
  simpl in Hnd. apply NoDup_cons in Hnd as [Hn Hnd]. destruct i as [|i]; simpl in *.
  - injection Ht as ->. by rewrite String.eqb_refl.
  - destruct (String.eqb_spec (id t0) (id t)) as [He|]; [|by rewrite (IH i)].
    exfalso. apply Hn. rewrite He. change (map id ts) with (id <$> ts). apply list_elem_of_fmap_2. by eapply list_elem_of_lookup_2.
Qed.

Lemma index_of_lookup plan tid i :
  index_of plan tid = Some i -> exists t, tasks plan !! i = Some t /\ id t = tid.
Proof.
  unfold index_of. revert i. induction (tasks plan) as [|t0 ts IH]; intros i; simpl; [done|].
  destruct (String.eqb_spec (id t0) tid) as [<-|]; [intros [= <-]; by exists t0|].
  destruct (position ts tid) as [j|]; simpl; [|done]. intros [= <-].
  destruct (IH j eq_refl) as (t & ? & ?). by exists t.
Qed.

(** The rows of [pid] in the store are the recorded outcomes of the plan. *)
Definition stored plan (pid : string) (outs : list (option (TaskOutcome V))) db : Prop :=
  (forall i t, tasks plan !! i = Some t ->
     match outs !! i with
     | Some (Some o) => exists now, task_table db !! (pid, id t) = Some (checkpoint_row t o now)
     | _ => task_table db !! (pid, id t) = None
     end) /\
  (forall tid row, task_table db !! (pid, tid) = Some row -> is_Some (index_of plan tid)).

Lemma stored_persist plan pid clk log : forall k outs db,
  NoDup (map id (tasks plan)) -> pid <> "" -> length outs = ntasks plan ->
  stored plan pid outs db -> stored plan pid (apply_log log outs) (persist plan pid clk k log db).
Proof.
  induction log as [|[i o] log IH]; intros k outs db Hnd Hpid Hlen Hst; [done|].
  cbn [persist apply_log fold_left]. apply IH; try done; [by rewrite length_insert|].
  unfold checkpoint_db. destruct (String.eqb_spec pid ""); [done|].
  destruct (tasks plan !! i) as [t|] eqn:Ht.
  2: { rewrite list_insert_ge; [done|]. apply lookup_ge_None in Ht. lia. }
  assert (Hi : i < ntasks plan) by by eapply lookup_lt_Some.
  destruct Hst as [Hrows Hids]. split; simpl.
  - intros x t' Ht'. destruct (decide (x = i)) as [->|Hne].
    + rewrite list_lookup_insert_eq by lia. simplify_eq. exists (clk k). by rewrite lookup_insert_eq.
    + rewrite list_lookup_insert_ne by done. rewrite lookup_insert_ne; [by apply Hrows|].
      intros [= He]. pose proof (index_of_id plan i t Hnd Ht) as H1.
      pose proof (index_of_id plan x t' Hnd Ht') as H2. congruence.
  - intros tid row. destruct (decide (tid = id t)) as [->|Hne].
    + intros _. by rewrite (index_of_id plan i t).
    + rewrite lookup_insert_ne by congruence. apply Hids.
Qed.

Definition row_of (tid : string) (wt : WorkflowTaskRow) : task_row :=
  {| tr_task_id := tid; tr_agent := wt_agent wt; tr_status := wt_status wt;
     tr_response := wt_response wt; tr_updated_at := wt_updated_at wt |}.

Lemma load_task_rows_spec pid db row :
  row ∈ load_task_rows pid db <->
  exists tid wt, task_table db !! (pid, tid) = Some wt /\ row = row_of tid wt.
Proof.
  unfold load_task_rows. rewrite merge_sort_Permutation, list_elem_of_omap. split.
  - intros ([[p tid] wt] & Hin & Hx). destruct (String.eqb_spec p pid) as [->|]; [|done].
    apply elem_of_map_to_list in Hin. injection Hx as <-. by exists tid, wt.
  - intros (tid & wt & Hl & ->). exists ((pid, tid), wt).
    split; [by apply elem_of_map_to_list|]. by rewrite String.eqb_refl.
Qed.

(** What a resume sees of a recorded outcome. *)
Definition replay_view (oo : option (TaskOutcome V)) : option (TaskOutcome V) :=
  match oo with
  | Some o =>
    if bool_decide (o_status o = SOk)
    then Some {| o_status := SOk;
                 o_value := j_obj [("response", j_str (default "" (get_str (o_value o) "response")))] |}
    else None
  | None => None
  end.

Lemma replay_stored plan pid outs db :
  NoDup (map id (tasks plan)) -> length outs = ntasks plan -> stored plan pid outs db ->
  replay plan (load_task_rows pid db) = replay_view <$> outs.
Proof.
  intros Hnd Hlen [Hrows Hids]. apply list_eq. intros i. rewrite list_lookup_fmap.
  destruct (decide (i < ntasks plan)) as [Hi|Hi].
  2: { rewrite !lookup_ge_None_2; [done|lia|rewrite replay_length; lia]. }
  destruct (lookup_lt_is_Some_2 _ _ Hi) as [t Ht]. specialize (Hrows i t Ht).
  destruct (lookup_lt_is_Some_2 outs i) as [oo Hoo]; [lia|]. rewrite Hoo in Hrows |- *. simpl.
  destruct (replay_cases plan (load_task_rows pid db) i Hi) as [[-> Hno]|(row & Hrow & Hv & ->)].
  - f_equal. destruct oo as [o|]; [|done]. simpl. case_bool_decide as Hok; [|done].
    destruct Hrows as [now Hl]. exfalso.
    eapply (Hno (row_of (id t) (checkpoint_row t o now))); [apply load_task_rows_spec; by eauto|].
    split; simpl; [by rewrite Hok|]. split; [by apply index_of_id|by rewrite Ht].
  - apply load_task_rows_spec in Hrow as (tid & wt & Hl & ->). destruct Hv as (Hs & Hix & _). simpl in *.
    apply index_of_lookup in Hix as (t' & Ht' & <-). rewrite Ht in Ht'. injection Ht' as <-.
    destruct oo as [o|]; [|congruence]. destruct Hrows as [now Hl']. rewrite Hl in Hl'. injection Hl' as ->.
    simpl in Hs |- *. rewrite bool_decide_eq_true_2 by (by destruct (o_status o)). done.
Qed.

Lemma apply_log_length log : forall outs, length (apply_log log outs) = length outs.
Proof.
  induction log as [|[i o] log IH]; intros outs; [done|].
  cbn [apply_log fold_left]. fold (apply_log log (<[i:=Some o]> outs)). by rewrite IH, length_insert.
Qed.

Lemma stored_empty plan pid db :
  (forall tid, task_table db !! (pid, tid) = None) ->
  stored plan pid (replicate (ntasks plan) None) db.
Proof.
  intros Hn. split; [|intros tid row; by rewrite Hn]. intros i t Ht.
  rewrite lookup_replicate_2; [done|by eapply lookup_lt_Some].
Qed.

Lemma execute_log plan k rows st halted :
  execute plan k rows = Done (Ok (st, halted)) ->
  outcomes st = apply_log (checkpoints st) (replay plan rows).
Proof.
  unfold execute. destruct (topological_layers plan) as [[layers|e]| |]; try done. cbn [obind].
  destruct (run_layers plan (clamp_concurrent k) layers (start plan rows)) as [[st' h]| |] eqn:Hr; try done.
  cbn [obind]. intros [= <- <-]. destruct (run_layers_advances _ _ _ _ _ _ Hr) as (more & Hc & Ho).
  simpl in Hc, Ho. by rewrite Ho, Hc.
Qed.

(** C40. Crash and resume: the checkpoints account for the outcomes of a run
    exactly, and a process that dies after any number of them leaves rows
    from which a resume restores precisely the tasks whose last checkpoint
    was ok (with the recorded response), and no other. *)
Theorem resume_after_crash (args : V) plan k st halted pid clk db n :
  parse_plan args = Ok plan -> pid <> "" ->
  (forall tid, task_table db !! (pid, tid) = None) ->
  execute plan k [] = Done (Ok (st, halted)) ->
  outcomes st = apply_log (checkpoints st) (replicate (ntasks plan) None) /\
  replay plan (load_task_rows pid (persist plan pid clk 1 (take n (checkpoints st)) db)) =
    replay_view <$> apply_log (take n (checkpoints st)) (replicate (ntasks plan) None).
Proof.
  intros Hp Hpid Hdb He. destruct (parsed_wf args plan Hp) as (_ & Hnd & _).
  split; [exact (execute_log _ _ _ _ _ He)|].
  apply replay_stored; [done|by rewrite apply_log_length, length_replicate|].
  apply stored_persist; [done..|by rewrite length_replicate|]. by apply stored_empty.
Qed.

(** ** The whole invocation *)

Lemma run_layers_total plan k rows layers :
  topological_layers plan = Done (Ok layers) ->
  exists st, run_layers plan (clamp_concurrent k) layers (start plan rows) = Done (st, halt_hit st).
Proof.
  intros Hl. destruct (execute_walk plan k rows layers Hl) as (st & L & fs & rs & He & _).
  unfold execute in He. rewrite Hl in He. cbn [obind] in He.
  destruct (run_layers plan (clamp_concurrent k) layers (start plan rows)) as [[st' h]| |]; try done.
  cbn [obind] in He. injection He as -> ->. by exists st.
Qed.

(** [invoke] is total: it answers every argument, in every state of the
    store, with a result or an error, and an error leaves the store as it
    was. *)
Theorem invoke_total env k (db : option store) (args : V) :
  exists (db' : option store) r, invoke env k db args = Done (db', r) /\
    match r with Err _ => db' = db | Ok an => an_status an = "completed" \/ an_status an = "failed" end.
Proof.
  unfold invoke. destruct (parse_plan args) as [plan|e] eqn:Hp; [|by exists db, (Err e)].
  assert (Hk : deps_known plan) by by eapply parsed_known.
  destruct (build_known plan Hk) as (ls & indeg & _ & Ht). rewrite Ht.
  destruct (verdict plan ls) as [layers|e] eqn:Hv; cbn [obind]; [|by exists db, (Err e)].
  destruct (open_run env plan _ db _) as [pid resumed rows db1|e]; [|by exists db, (Err e)].
  destruct (run_layers_total plan k rows layers Ht) as [st ->]. cbn [obind].
  destruct (gate env (summary_of plan st)) as [approved ready].
  eexists _, _. split; [done|]. simpl. unfold final_status. case_match; auto.
Qed.

Lemma persist_plans plan pid clk log : forall k db, plans (persist plan pid clk k log db) = plans db.
Proof.
  induction log as [|[i o] log IH]; intros k db; [done|]. cbn [persist]. rewrite IH.
  unfold checkpoint_db. destruct (String.eqb pid ""); [done|]. by destruct (tasks plan !! i).
Qed.

Lemma open_run_row env plan spec d rid pid resumed rows d1 :
  open_run env plan spec (Some d) rid = Opened pid resumed rows (Some d1) ->
  is_Some (plans d1 !! pid).
Proof.
  unfold open_run. destruct rid as [r|].
  - unfold load_plan. destruct (plans d !! r) as [row|] eqn:Hr; [|done].
    destruct (String.eqb_spec (wp_status row) "running"); [|done].
    unfold claim_plan. rewrite Hr. destruct (claimable row _ _); [|done].
    intros [= <- _ _ <-]. simpl. rewrite lookup_insert_eq. by eexists.
  - unfold create_plan. destruct (plans d !! fresh_plan_id env) as [row|] eqn:Hr;
      intros [= <- _ _ <-]; [by eexists|]. simpl. rewrite lookup_insert_eq. by eexists.
Qed.

(** A plan that was run is terminal afterwards: its row carries the
    status of the answer, no owner, and it cannot be resumed again. *)
Theorem invoke_leaves_terminal env k d (args : V) d' an owner now :
  invoke env k (Some d) args = Done (Some d', Ok an) -> an_plan_id an <> "" ->
  exists row, load_plan (an_plan_id an) d' = Some row /\ wp_status row = an_status an /\
    wp_owner row = None /\ wp_summary row = Some (an_summary an) /\
    claim_plan (an_plan_id an) owner now d' = (d', false).
Proof.
  unfold invoke. destruct (parse_plan args) as [plan|e]; [|done].
  destruct (topological_layers plan) as [[layers|e]| |] eqn:Ht; try done. cbn [obind].
  destruct (open_run env plan _ (Some d) _) as [pid resumed rows db1|e] eqn:Ho; [|done].
  destruct (run_layers_total plan k rows layers Ht) as [st ->]. cbn [obind].
  destruct (gate env (summary_of plan st)) as [approved ready]. intros [= Hd <-] Hpid. simpl in *.
  destruct db1 as [d1|]; [|done]. simpl in Hd. injection Hd as <-.
  destruct (String.eqb_spec pid ""); [done|].
  destruct (open_run_row _ _ _ _ _ _ _ _ _ Ho) as [row Hrow].
  unfold complete_plan, load_plan. rewrite persist_plans, Hrow. eexists. simpl.
  rewrite lookup_insert_eq. split; [done|]. simpl. split_and!; try done.
  unfold claim_plan. simpl. rewrite lookup_insert_eq. unfold claimable. simpl.
  unfold final_status. by destruct (Nat.eqb _ 0).
Qed.
End invoke.

Arguments answer V : clear implicits.

(** ** Witnesses *)

#[local] Existing Instance demo_delegate.

Definition empty_store : store := {| plans := ∅; task_table := ∅ |}.

Definition demo_env : surroundings :=
  {| fresh_plan_id := "p1"; claim_owner := "o1"; clock := fun n => Z.of_nat n; gate := fun _ => (true, true) |}.

Lemma resume_after_crash_witness :
  replay demo_plan (load_task_rows "p1" (persist demo_plan "p1" (clock demo_env) 1
    (take 2 (checkpoints (demo_st []))) empty_store)) =
  replay_view <$> apply_log (take 2 (checkpoints (demo_st []))) (replicate 3 None).
Proof.
  eapply (resume_after_crash demo_args demo_plan 3 (demo_st []) false "p1" (clock demo_env) empty_store 2).
  - vm_compute. reflexivity.
  - discriminate.
  - reflexivity.
  - vm_compute. reflexivity.
Defined.

Definition demo_run : outcome (option store * result (answer jval) string) :=
  invoke demo_env 3 (Some empty_store) demo_args.

Definition demo_after : store :=
  match demo_run with Done (Some d, _) => d | _ => empty_store end.

Definition demo_answer : option (answer jval) :=
  match demo_run with Done (_, Ok an) => Some an | _ => None end.

Lemma invoke_leaves_terminal_witness :
  match demo_answer with
  | Some an => exists row, load_plan (an_plan_id an) demo_after = Some row /\ wp_owner row = None
  | None => False
  end.
Proof.
  destruct demo_answer as [an|] eqn:Han; [|vm_compute in Han; discriminate Han].
  destruct (invoke_leaves_terminal demo_env 3 empty_store demo_args demo_after an "o2" 9%Z)
    as (row & Hrow & _ & Ho & _).
  - vm_compute in Han. injection Han as <-. vm_compute. reflexivity.
  - vm_compute in Han. injection Han as <-. discriminate.
  - exists row. split; [exact Hrow|exact Ho].
Defined.
