(* ===== verification/Secrets.v ===== *)
(** * The secrets guard

    Models [crates/zen-core/src/secrets_guard.rs]: the rule set, the detection
    and redaction pass, the placeholder map, and the batch and streaming
    restores.  Texts are lists of [char]s; byte offsets of the source are
    [char] offsets here.  The [regex] crate is the class [Regex]; the floating
    point entropy gate is stated in exact integer arithmetic. *)

From S2P Require Import Prelude Text.
From Stdlib Require Import Lia.

(** ** Placeholders *)

(** The code points of [⟦] and [⟧]. *)
Definition OPEN : char := 10214%N.
Definition CLOSE : char := 10215%N.

Definition PLACEHOLDER_PREFIX : text := utf8 "⟦SECRET_".
Definition PLACEHOLDER_SUFFIX : text := utf8 "⟧".
Definition MIN_CORPUS_LEN : nat := 8.

(** Decimal rendering of [{n}]. *)
Fixpoint decimal_go (fuel n : nat) (acc : text) : text :=
  match fuel with
  | O => acc
  | S f =>
    let acc' := (48 + N.of_nat (n mod 10))%N :: acc in
    if n <? 10 then acc' else decimal_go f (n / 10) acc'
  end.
Definition decimal (n : nat) : text := decimal_go (S n) n [].

(** [format!("{PLACEHOLDER_PREFIX}{n}{PLACEHOLDER_SUFFIX}")]. *)
Definition placeholder (n : nat) : text := PLACEHOLDER_PREFIX ++ decimal n ++ PLACEHOLDER_SUFFIX.

#[global] Arguments placeholder n : simpl never.
#[global] Arguments decimal n : simpl never.

(** ** Rules *)

Record SecretRule := {
  kind : string;
  re : string;
  min_entropy : N * N;  (* numerator, denominator *)
  group : bool;
  allow_newlines : bool;
}.

(** One element of [captures_iter]: the span of the match and of the group
    named [value]. *)
Record capture := { cap_match : nat * nat; cap_value : option (nat * nat) }.

Class Regex := captures_iter : string -> text -> list capture.

(** What the guard relies on: spans lie in the text, and a pattern without a
    group named [value] never captures one. *)
Class RegexLaws `{Regex} := {
  match_span : forall pat t c, c ∈ captures_iter pat t ->
    (cap_match c).1 <= (cap_match c).2 <= length t;
  value_span : forall pat t c v, c ∈ captures_iter pat t -> cap_value c = Some v ->
    v.1 <= v.2 <= length t;
  value_named : forall pat t c, c ∈ captures_iter pat t ->
    contains (utf8 pat) (utf8 "(?<value>") = false -> cap_value c = None;
}.

Definition rule (k pat : string) (h : N * N) (g nls : bool) : SecretRule :=
  {| kind := k; re := pat; min_entropy := h; group := g; allow_newlines := nls |}.

(** A double quote, for the patterns that hold one. *)
Definition dq : string := String (Ascii.ascii_of_nat 34) EmptyString.

(** [SecretRules::owned_default]. *)
Definition default_rules : list SecretRule := [
  rule "github_pat" "(?i)\bghp_[0-9a-zA-Z]{36}\b" (0, 1)%N false false;
  rule "aws_access_key" "(?i)\b(?:A3T[A-Z0-9]|AKIA|ASIA|ABIA|ACCA)[A-Za-z2-7]{16}\b" (0, 1)%N false false;
  rule "openai_key"
    "(?i)sk-(?:proj|svcacct|admin)-[A-Za-z0-9_-]{20,}T3BlbkFJ[A-Za-z0-9_-]{20,}" (0, 1)%N false false;
  rule "openai_legacy_key" "(?i)\bsk-[a-zA-Z0-9]{20}T3BlbkFJ[a-zA-Z0-9]{20}\b" (0, 1)%N false false;
  rule "jwt" "(?i)\beyJ[A-Za-z0-9_-]+\.eyJ[A-Za-z0-9_-]+\.[A-Za-z0-9_-]{10,}\b" (0, 1)%N false false;
  rule "stripe_key" "(?i)\bsk_(?:test|live|prod)_[a-zA-Z0-9]{10,}\b" (0, 1)%N false false;
  rule "bearer_token" "(?i)bearer\s+[A-Za-z0-9_\-.~+/=]{16,}" (0, 1)%N true false;
  rule "generic_credential"
    ("(?i)[\w.\-]{0,30}(?:api|access|auth|credential|creds|secret|token|password|passwd|pwd|pass|key)[\w.\-]{0,10}["
      ++ dq ++ "']?\s*[:=]\s*[" ++ dq ++ "']?(?<value>[A-Za-z0-9_\-/+=]{16,})") (7, 2)%N true false;
  rule "private_key_block"
    "(?s)-----BEGIN [A-Z0-9 ]*PRIVATE KEY-----[\s\S]{10,}?-----END [A-Z0-9 ]*PRIVATE KEY-----"
    (0, 1)%N false true;
  rule "private_key_header" "-----BEGIN [A-Z0-9 ]*PRIVATE KEY-----" (0, 1)%N false false;
  rule "url_credentials"
    "(?i)\b[a-z][a-z0-9+.-]{1,15}://[^\s:/@\x22'\x60]+:(?<value>[^\s:@/\x22'\x60]{3,})@" (0, 1)%N true false;
  rule "basic_auth_header"
    "(?i)authorization['\x22]?\s*[:=]\s*['\x22]?basic\s+(?<value>[A-Za-z0-9+/=]{8,})" (0, 1)%N true false;
  rule "github_fine_grained_pat" "\bgithub_pat_[A-Za-z0-9_]{20,}\b" (0, 1)%N false false;
  rule "github_app_token" "\bgh[oprsu]_[0-9A-Za-z]{20,}\b" (0, 1)%N false false;
  rule "gitlab_pat" "(?i)\bglpat-[A-Za-z0-9_-]{15,}\b" (0, 1)%N false false;
  rule "slack_token" "(?i)\bxox[baprs]-[A-Za-z0-9-]{10,}\b" (0, 1)%N false false;
  rule "anthropic_key" "\bsk-ant-[A-Za-z0-9_-]{20,}\b" (0, 1)%N false false;
  rule "huggingface_token" "\bhf_[A-Za-z0-9]{20,}\b" (0, 1)%N false false;
  rule "npm_token" "(?i)\bnpm_[a-z0-9]{36}\b" (0, 1)%N false false;
  rule "discord_bot_token" "\b[A-Za-z0-9_-]{24}\.[A-Za-z0-9_-]{6}\.[A-Za-z0-9_-]{27}\b" (0, 1)%N false false;
  rule "base64_high_entropy" "\b[A-Za-z0-9+/=]{20,}\b" (9, 2)%N false false;
  rule "hex_high_entropy" "\b[A-Fa-f0-9]{20,}\b" (3, 1)%N false false
]%string.

(** ** Entropy

    [H >= num/den] for the Shannon entropy of the byte counts [c_i] of a run of
    [n] bytes, that is [n^(den n) >= 2^(num n) * prod c_i^(den c_i)]. *)
Definition bytes_of (t : text) : list N := flat_map utf8_encode_char t.

Definition byte_counts (bs : list N) : list N :=
  map (fun b => N.of_nat (length (filter (fun x => x = b) bs))) (remove_dups bs).

Definition entropy_at_least (t : text) (h : N * N) : bool :=
  let bs := bytes_of t in
  let n := N.of_nat (length bs) in
  let '(num, den) := h in
  (2 ^ (num * n) * fold_right (fun c acc => c ^ (den * c) * acc) 1 (byte_counts bs) <=? n ^ (den * n))%N.

Section guard.
Context `{Regex}.

(** ** Detection *)

Definition slice (t : text) (a b : nat) : text := take (b - a) (drop a t).

Definition hit : Type := string * text * (nat * nat).

(** The body of the loops of [hits] for one match. *)
Definition hit_of (content : text) (r : SecretRule) (c : capture) : option hit :=
  match (if group r then cap_value c else Some (cap_match c)) with
  | None => None
  | Some (a, b) =>
    let value := slice content a b in
    if bool_decide (value = []) || (negb (allow_newlines r) && bool_decide (10%N ∈ value)) then None
    else if (0 <? (min_entropy r).1)%N && negb (entropy_at_least value (min_entropy r)) then None
    else Some (kind r, value, (a, b))
  end.

Definition rule_hits (content : text) (r : SecretRule) : list hit :=
  omap (hit_of content r) (captures_iter (re r) content).

(** The order of [(span.start, Reverse(span.end))]. *)
Definition key_le (x y : hit) : bool :=
  let '(a1, b1) := x.2 in let '(a2, b2) := y.2 in
  (a1 <? a2) || ((a1 =? a2) && (b2 <=? b1)).

(** The stable [sort_by_key]. *)
Fixpoint insert_hit (x : hit) (l : list hit) : list hit :=
  match l with
  | [] => [x]
  | y :: l' => if key_le x y then x :: y :: l' else y :: insert_hit x l'
  end.
Definition sort_hits (l : list hit) : list hit := foldr insert_hit [] l.

(** [dedup_by(|a, b| a.2 == b.2)]. *)
Fixpoint dedup_from (prev : hit) (l : list hit) : list hit :=
  match l with
  | [] => []
  | y :: l' => if bool_decide (y.2 = prev.2) then dedup_from prev l' else y :: dedup_from y l'
  end.
Definition dedup_hits (l : list hit) : list hit :=
  match l with [] => [] | x :: l' => x :: dedup_from x l' end.

Definition hits (rules : list SecretRule) (content : text) : list hit :=
  dedup_hits (sort_hits (flat_map (rule_hits content) rules)).

(** ** Redaction *)

Definition SecretMap : Type := list (text * text).

(** [mint_or_reuse]: the placeholder of [secret] and the map after. *)
Definition mint_or_reuse (m : SecretMap) (secret : text) : text * SecretMap :=
  match list_find (fun e => e.2 = secret) m with
  | Some (_, (ph, _)) => (ph, m)
  | None => let ph := placeholder (length m + 1) in (ph, m ++ [(ph, secret)])
  end.

(** The loop of [apply_all]. *)
Fixpoint apply_hits (content : text) (hs : list hit) (last : nat) (m : SecretMap) : text * SecretMap :=
  match hs with
  | [] => (drop last content, m)
  | (_, value, (a, b)) :: hs' =>
    if a <? last then apply_hits content hs' last m
    else
      let '(ph, m1) := mint_or_reuse m value in
      let '(out, m2) := apply_hits content hs' b m1 in
      (slice content last a ++ ph ++ out, m2)
  end.

Definition apply_all (rules : list SecretRule) (content : text) (m : SecretMap) : text * SecretMap :=
  apply_hits content (hits rules content) 0 m.

Record Redactor := { r_map : SecretMap; r_corpus : list text }.

(** [Redactor::new]. *)
Definition new_redactor (corpus : list text) : Redactor :=
  {| r_map := []; r_corpus := filter (fun v => MIN_CORPUS_LEN <= str_len v) corpus |}.

(** The loop over the corpus. *)
Fixpoint corpus_pass (corpus : list text) (t : text) (m : SecretMap) : text * SecretMap :=
  match corpus with
  | [] => (t, m)
  | secret :: rest =>
    if contains t secret then
      let '(ph, m') := mint_or_reuse m secret in
      corpus_pass rest (replace t secret ph) m'
    else corpus_pass rest t m
  end.

Record RedactOutput := { ro_text : text; ro_map : SecretMap }.

(** [Redactor::redact]. *)
Definition redact_with (r : Redactor) (content : text) : RedactOutput * Redactor :=
  let '(t1, m1) := corpus_pass (r_corpus r) content (r_map r) in
  let '(t2, m2) := apply_all default_rules t1 m1 in
  ({| ro_text := t2; ro_map := m2 |}, {| r_map := m2; r_corpus := r_corpus r |}).

(** The free function [redact]. *)
Definition redact (content : text) (corpus : list text) : RedactOutput :=
  (redact_with (new_redactor corpus) content).1.
End guard.

(** ** Restoring *)

(** [placeholder_tokens] from position [i]; [fuel] bounds the turns of the
    [while] loop, each of which consumes part of the text. *)
Fixpoint tokens_go (fuel : nat) (rest : text) (found : list text) : list text :=
  match fuel with
  | O => found
  | S f =>
    match find rest PLACEHOLDER_PREFIX with
    | None => found
    | Some pos =>
      let s := drop pos rest in
      match find s PLACEHOLDER_SUFFIX with
      | None => found
      | Some end_rel =>
        let inner := slice s (length PLACEHOLDER_PREFIX) end_rel in
        if negb (bool_decide (inner = [])) && forallb is_ascii_digit inner then
          let token := take (end_rel + length PLACEHOLDER_SUFFIX) s in
          let found' := if bool_decide (token ∈ found) then found else found ++ [token] in
          tokens_go f (drop (end_rel + length PLACEHOLDER_SUFFIX) s) found'
        else tokens_go f (drop (length PLACEHOLDER_PREFIX) s) found
      end
    end
  end.
Definition placeholder_tokens (t : text) : list text := tokens_go (S (length t)) t [].

(** One turn over the entries: the text and [changed]. *)
Fixpoint restore_round (m : SecretMap) (out : text) (changed : bool) : text * bool :=
  match m with
  | [] => (out, changed)
  | (ph, secret) :: m' =>
    if contains out ph then restore_round m' (replace out ph secret) true
    else restore_round m' out changed
  end.

Fixpoint restore_rounds (n : nat) (m : SecretMap) (out : text) : text :=
  match n with
  | O => out
  | S n' => let '(out', changed) := restore_round m out false in
            if changed then restore_rounds n' m out' else out'
  end.

Definition RESTORE_ROUNDS : nat := 16.

Record RestoreOutput := { re_text : text; re_leftovers : list text }.

Definition restore (t : text) (m : SecretMap) : RestoreOutput :=
  let out := restore_rounds RESTORE_ROUNDS m t in
  {| re_text := out; re_leftovers := placeholder_tokens out |}.

(** [MAX_LOOKBACK], in bytes. *)
Definition MAX_LOOKBACK : nat := str_len PLACEHOLDER_PREFIX + 16.

Definition is_partial (tail : text) : bool :=
  starts_with PLACEHOLDER_PREFIX tail
  || (starts_with tail PLACEHOLDER_PREFIX
      && forallb is_ascii_digit (drop (length PLACEHOLDER_PREFIX) tail)).

(** The loop over [char_indices().rev()]: [rtext] is what is left, reversed. *)
Fixpoint partial_go (rtext tail : text) (k : nat) : option text :=
  match rtext with
  | [] => None
  | ch :: rtext' =>
    let k' := k + len_utf8 ch in
    if MAX_LOOKBACK <? k' then None
    else if is_partial (ch :: tail) then Some (ch :: tail)
    else partial_go rtext' (ch :: tail) k'
  end.
Definition partial_placeholder_suffix (t : text) : option text := partial_go (rev t) [] 0.

Definition restore_incremental (buffer : text) (m : SecretMap) : text * text :=
  let out := re_text (restore buffer m) in
  match partial_placeholder_suffix out with
  | Some tail => (take (length out - length tail) out, drop (length out - length tail) out)
  | None => (out, [])
  end.

Definition restore_finalize (pending carry : text) (m : SecretMap) : RestoreOutput :=
  restore (pending ++ carry) m.

(** A stream of chunks through [restore_incremental], the carry prepended to
    the next chunk and flushed at the end. *)
Fixpoint restore_stream (chunks : list text) (carry : text) (m : SecretMap) : text :=
  match chunks with
  | [] => re_text (restore_finalize [] carry m)
  | chunk :: rest =>
    let '(emit, carry') := restore_incremental (carry ++ chunk) m in
    emit ++ restore_stream rest carry' m
  end.

(** ** Environment variables *)

Definition ALWAYS_SCRUB : list string :=
  ["OPENAI_API_KEY"; "ANTHROPIC_API_KEY"; "BRAVE_SEARCH_API_KEY"; "TAVILY_API_KEY";
   "GITHUB_TOKEN"; "AWS_SECRET_ACCESS_KEY"]%string.

Definition SCRUB_SUFFIXES : list string :=
  ["_API_KEY"; "_TOKEN"; "_SECRET"; "_PASSWORD"; "_CREDENTIAL"]%string.

Record EnvScrubConfig := { extra_scrub : list text; allowlist : list text }.

(** [str::to_uppercase], as far as the (ASCII) suffixes can tell: besides the
    ASCII letters, only [ß], [ı], [ſ], [ﬅ] and [ﬆ] have an uppercase that can
    take part in one of them. *)
Definition upper_char (c : char) : text :=
  if (c =? 223)%N then [83; 83]%N
  else if (c =? 305)%N then [73]%N
  else if (c =? 383)%N then [83]%N
  else if (c =? 64261)%N || (c =? 64262)%N then [83; 84]%N
  else [ascii_upper c].

Definition is_secret_var (name : text) (config : EnvScrubConfig) : bool :=
  if bool_decide (name ∈ allowlist config) then false
  else if bool_decide (name ∈ map utf8 ALWAYS_SCRUB) then true
  else if bool_decide (name ∈ extra_scrub config) then true
  else existsb (fun suffix => ends_with (flat_map upper_char name) (utf8 suffix)) SCRUB_SUFFIXES.

Definition is_loader_injection_var (name : text) : bool :=
  bool_decide (name ∈ map utf8 ["LD_PRELOAD"; "LD_LIBRARY_PATH"; "DYLD_INSERT_LIBRARIES";
                               "DYLD_LIBRARY_PATH"]%string).

(** The parent environment as the list [std::env::vars] yields; the child's as
    a map. *)
Definition scrubbed_env (parent : list (text * text)) (inject : gmap text text)
    (config : EnvScrubConfig) : gmap text text :=
  let kept := filter (fun '(n, _) => is_secret_var n config = false /\ is_loader_injection_var n = false) parent in
  let injected := filter (fun '(n, _) => is_secret_var n config = false /\ is_loader_injection_var n = false)
                    (map_to_list inject) in
  fold_left (fun env '(k, v) => <[k := v]> env) (kept ++ injected) ∅.

(** [env_corpus]. *)
Definition env_corpus (vars : list (text * text)) : list text :=
  fold_left
    (fun out '(name, value) =>
       if is_secret_var name {| extra_scrub := []; allowlist := [] |}
          && (MIN_CORPUS_LEN <=? str_len value) && negb (bool_decide (value ∈ out))
       then out ++ [value] else out)
    vars [].
