(* ===== verification/SecretsPieces.v ===== *)
(** * Texts as characters and placeholders

    The proofs on [Secrets] see a text as a list of pieces, each a character or
    a whole placeholder; [flat] writes the pieces out.  The lemmas relate the
    searches and replacements of the source on texts to operations on pieces. *)

From S2P Require Import Prelude Text Secrets.
From Stdlib Require Import Lia.

(** Injectivity of [cons] without reducing the tails. *)
Lemma cons_eq {A} (x y : A) l k : x :: l = y :: k -> x = y /\ l = k.
Proof. by intros [= -> ->]. Qed.

(** ** Decimal numerals *)

Definition digits (ds : text) : Prop := Forall (fun c => is_ascii_digit c = true) ds.

Lemma digit_of n : is_ascii_digit (48 + N.of_nat (n mod 10))%N = true.
Proof.
  pose proof (Nat.mod_upper_bound n 10 ltac:(lia)). unfold is_ascii_digit.
  apply andb_true_iff. split; apply N.leb_le; lia.
Qed.

Lemma decimal_go_digits fuel : forall n acc, digits acc -> digits (decimal_go fuel n acc).
Proof.
  induction fuel as [|f IH]; intros n acc Hacc; cbn [decimal_go]; [done|].
  assert (digits ((48 + N.of_nat (n mod 10))%N :: acc)) by (constructor; [apply digit_of|done]).
  destruct (n <? 10); [done|]. by apply IH.
Qed.

(** The number a numeral denotes, least significant digit first. *)
Fixpoint undecimal (rds : text) : nat :=
  match rds with [] => 0 | c :: r => N.to_nat (c - 48) + 10 * undecimal r end.

Lemma decimal_go_rev fuel : forall n acc, n < fuel ->
  exists ds, decimal_go fuel n acc = ds ++ acc /\ undecimal (rev ds) = n /\ ds <> [].
Proof.
  induction fuel as [|f IH]; intros n acc Hn; [lia|]. cbn [decimal_go].
  set (c := (48 + N.of_nat (n mod 10))%N).
  assert (Hc : N.to_nat (c - 48) = n mod 10) by (subst c; lia).
  pose proof (Nat.div_mod n 10 ltac:(lia)) as Hdm.
  destruct (Nat.ltb_spec n 10) as [Hlt|Hge].
  - exists [c]. simpl. rewrite Hc, Nat.mod_small by done. split_and!; [done|lia|done].
  - destruct (IH (n / 10) (c :: acc)) as (ds & -> & Hu & Hne).
    { pose proof (Nat.div_lt n 10 ltac:(lia) ltac:(lia)). lia. }
    exists (ds ++ [c]). rewrite <- app_assoc. split; [done|].
    rewrite rev_app_distr. simpl. rewrite Hc, Hu. split; [lia|by destruct ds].
Qed.

Lemma decimal_digits n : digits (decimal n).
Proof. apply decimal_go_digits. constructor. Qed.

Lemma decimal_undecimal n : undecimal (rev (decimal n)) = n.
Proof.
  unfold decimal. destruct (decimal_go_rev (S n) n [] ltac:(lia)) as (ds & -> & Hu & _).
  by rewrite app_nil_r.
Qed.

Lemma decimal_nonempty n : decimal n <> [].
Proof.
  unfold decimal. destruct (decimal_go_rev (S n) n [] ltac:(lia)) as (ds & -> & _ & Hne).
  by rewrite app_nil_r.
Qed.

Lemma decimal_inj n k : decimal n = decimal k -> n = k.
Proof. intros He. by rewrite <- (decimal_undecimal n), He, decimal_undecimal. Qed.

Lemma digit_not_bracket c : is_ascii_digit c = true -> c <> OPEN /\ c <> CLOSE.
Proof. unfold is_ascii_digit, OPEN, CLOSE. intros Hc. bool_to_prop. apply N.leb_le in H, H0. lia. Qed.

(** ** Brackets *)

Definition no_open (t : text) : Prop := OPEN ∉ t.
Definition no_close (t : text) : Prop := CLOSE ∉ t.

Lemma digits_no_open ds : digits ds -> no_open ds.
Proof. intros Hd Hin. eapply Forall_forall in Hd; [|exact Hin]. by apply digit_not_bracket in Hd as []. Qed.
Lemma digits_no_close ds : digits ds -> no_close ds.
Proof. intros Hd Hin. eapply Forall_forall in Hd; [|exact Hin]. by apply digit_not_bracket in Hd as []. Qed.

(** What stands between the brackets. *)
Definition SECRET_ : text := utf8 "SECRET_".
Definition word (n : nat) : text := SECRET_ ++ decimal n.
#[global] Arguments word n : simpl never.

Lemma prefix_eq : PLACEHOLDER_PREFIX = OPEN :: SECRET_.
Proof. reflexivity. Qed.

Lemma suffix_eq : PLACEHOLDER_SUFFIX = [CLOSE].
Proof. reflexivity. Qed.

Lemma placeholder_eq n : placeholder n = OPEN :: word n ++ [CLOSE].
Proof. unfold placeholder, word. rewrite prefix_eq, suffix_eq. simpl. by rewrite <- ?app_assoc. Qed.

Lemma SECRET_no_open : no_open SECRET_.
Proof. unfold no_open. vm_compute. set_solver. Qed.
Lemma SECRET_no_close : no_close SECRET_.
Proof. unfold no_close. vm_compute. set_solver. Qed.

Lemma SECRET_ascii : Forall (fun c => (c < 128)%N) SECRET_.
Proof. by repeat (constructor; [done|]). Qed.
Lemma SECRET_length : length SECRET_ = 7.
Proof. reflexivity. Qed.

Lemma word_no_open n : no_open (word n).
Proof.
  unfold no_open, word. rewrite elem_of_app. intros [|];
    [by apply SECRET_no_open|by eapply digits_no_open, H; apply decimal_digits].
Qed.
Lemma word_no_close n : no_close (word n).
Proof.
  unfold no_close, word. rewrite elem_of_app. intros [|];
    [by apply SECRET_no_close|by eapply digits_no_close, H; apply decimal_digits].
Qed.

Lemma word_inj n k : word n = word k -> n = k.
Proof. unfold word. intros He%app_inv_head. by apply decimal_inj. Qed.

#[local] Opaque word placeholder.

(** A separator that neither side holds is found at one place. *)
Lemma split_unique (c : char) a b u v :
  c ∉ a -> c ∉ b -> a ++ c :: u = b ++ c :: v -> a = b /\ u = v.
Proof.
  revert b. induction a as [|x a IH]; intros [|y b] Ha Hb He; simplify_eq/=.
  - done.
  - by destruct Hb; left.
  - by destruct Ha; left.
  - apply not_elem_of_cons in Ha as [_ Ha], Hb as [_ Hb].
    destruct (IH b Ha Hb ltac:(done)) as [-> ->]. done.
Qed.

Lemma placeholder_inj n k u v : placeholder n ++ u = placeholder k ++ v -> n = k /\ u = v.
Proof.
  rewrite !placeholder_eq. simpl. rewrite <- !app_assoc. simpl.
  intros [_ He]%cons_eq. apply split_unique in He as [Hw ->]; [|apply word_no_close..].
  split; [|done]. by apply word_inj.
Qed.

Lemma placeholder_nonempty n : placeholder n <> [].
Proof. by rewrite placeholder_eq. Qed.

(** ** Pieces *)

Abbreviation piece := (char + nat)%type.

Definition flat1 (p : piece) : text :=
  match p with inl c => [c] | inr n => placeholder n end.
Definition flat (ps : list piece) : text := flat_map flat1 ps.

Definition chars (t : text) : list piece := map inl t.

(** No character of the pieces is an opening bracket. *)
Definition clean (ps : list piece) : Prop := Forall (fun p => p <> inl OPEN) ps.

Lemma flat_app ps qs : flat (ps ++ qs) = flat ps ++ flat qs.
Proof. apply flat_map_app. Qed.

Lemma flat_chars t : flat (chars t) = t.
Proof. induction t as [|c t IH]; simpl; [done|]. f_equal. exact IH. Qed.

Lemma clean_app ps qs : clean (ps ++ qs) <-> clean ps /\ clean qs.
Proof. apply Forall_app. Qed.

Lemma clean_chars t : clean (chars t) <-> no_open t.
Proof.
  unfold clean, chars, no_open. rewrite Forall_map, Forall_forall. split.
  - intros Hall Hin. by apply (Hall OPEN Hin).
  - intros Hn c Hc [= ->]. done.
Qed.

(** A text without opening brackets at the head of the pieces is characters. *)
Lemma flat_prefix s : forall ps v, no_open s -> flat ps = s ++ v -> exists qs, ps = chars s ++ qs /\ flat qs = v.
Proof.
  induction s as [|c s IH]; intros ps v Hs He; [by exists ps|].
  apply not_elem_of_cons in Hs as [Hc Hs]. destruct ps as [|[d|n] ps]; simpl in He; [done| |].
  - injection He as -> He. destruct (IH ps v Hs He) as (qs & -> & ?). by exists qs.
  - rewrite placeholder_eq in He. by apply cons_eq in He as [<- _].
Qed.

(** Texts in which no placeholder stands. *)
Definition quiet (t : text) : Prop := forall k, ~ infix (placeholder k) t.

Lemma quiet_nil : quiet [].
Proof. intros k (u & v & He). rewrite placeholder_eq in He. by destruct u. Qed.

Lemma quiet_no_close t : no_close t -> quiet t.
Proof.
  intros Ht k (u & v & ->). apply Ht. rewrite placeholder_eq. set_solver.
Qed.

(** An opening bracket past the head of a placeholder is past its end. *)
Lemma open_past_token n t u v :
  placeholder n ++ t = u ++ OPEN :: v -> u <> [] -> exists u', u = placeholder n ++ u' /\ t = u' ++ OPEN :: v.
Proof.
  intros He Hu. apply app_eq_inv in He as [(k & Hk & He)|(k & -> & ->)]; [|by exists k].
  destruct k as [|c k].
  { rewrite app_nil_r in Hk. simpl in He. exists []. by rewrite app_nil_r, Hk. }
  simpl in He. apply cons_eq in He as [<- ->]. exfalso. destruct u as [|x u]; [done|].
  rewrite placeholder_eq in Hk. simpl in Hk. apply cons_eq in Hk as [<- Hk].
  assert (Hin : OPEN ∈ word n ++ [CLOSE]) by (rewrite Hk; set_solver).
  apply elem_of_app in Hin as [Hin|Hin]; [by apply word_no_open in Hin|].
  by apply list_elem_of_singleton in Hin.
Qed.

Lemma infix_token ps tl k :
  clean ps -> quiet tl -> infix (placeholder k) (flat ps ++ tl) <-> inr k ∈ ps.
Proof.
  intros Hcl Htl. split.
  - intros (u & v & He). revert u He. induction Hcl as [|p ps Hp Hcl IH]; intros u He.
    { exfalso. apply (Htl k). by exists u, v. }
    destruct p as [c|n]; simpl in He.
    + destruct u as [|d u]; simpl in He; [|apply cons_eq in He as [-> He]; right; by eapply IH].
      rewrite placeholder_eq in He. by apply cons_eq in He as [-> _].
    + destruct u as [|d u].
      * simpl in He. rewrite <- app_assoc in He. apply placeholder_inj in He as [-> _]. left.
      * right. rewrite placeholder_eq with (n := k), <- app_assoc in He. simpl in He.
        apply (open_past_token _ _ (d :: u)) in He as (u' & _ & He); [|done]. apply (IH u').
        by rewrite He, placeholder_eq.
  - intros Hin. apply list_elem_of_split in Hin as (p1 & p2 & ->).
    exists (flat p1), (flat p2 ++ tl). rewrite flat_app. simpl. by rewrite <- !app_assoc.
Qed.

Lemma contains_token ps tl k :
  clean ps -> quiet tl -> contains (flat ps ++ tl) (placeholder k) = true <-> inr k ∈ ps.
Proof. intros ??. rewrite contains_spec. by apply infix_token. Qed.

(** Restoring one placeholder, on pieces. *)
Definition expand1 (k : nat) (s : text) (p : piece) : list piece :=
  match p with
  | inr n => if decide (n = k) then chars s else [p]
  | inl _ => [p]
  end.

Lemma replace_go_none pat rep t : pat <> [] -> ~ infix pat t -> replace_go pat rep t 0 = t.
Proof.
  intros Hp. induction t as [|c t IH]; intros Hn; [done|].
  rewrite replace_go_miss; [f_equal; apply IH; intros Hi; apply Hn; by apply (infix_app_l _ [c])|].
  apply not_true_is_false. intros [v Hv]%starts_with_spec. apply Hn. by exists [], v.
Qed.

(** Characters other than the opening bracket are copied. *)
Lemma replace_go_copy k rep u t :
  no_open u -> replace_go (placeholder k) rep (u ++ t) 0 = u ++ replace_go (placeholder k) rep t 0.
Proof.
  induction u as [|c u IH]; intros Hu; [done|]. apply not_elem_of_cons in Hu as [Hc Hu].
  simpl app. rewrite replace_go_miss; [by rewrite IH|].
  apply not_true_is_false. intros [v Hv]%starts_with_spec. rewrite placeholder_eq in Hv. apply cons_eq in Hv as [-> _]. by destruct Hc.
Qed.

Lemma replace_token ps tl k s :
  clean ps -> quiet tl ->
  replace (flat ps ++ tl) (placeholder k) s = flat (flat_map (expand1 k s) ps) ++ tl.
Proof.
  intros Hcl Htl. rewrite replace_nonempty by apply placeholder_nonempty.
  induction Hcl as [|p ps Hp Hcl IH].
  { apply replace_go_none; [apply placeholder_nonempty|apply Htl]. }
  destruct p as [c|n]; cbn [flat_map expand1]; rewrite ?flat_app; cbn [flat flat_map flat1 app];
    fold (flat ps).
  - rewrite replace_go_miss; [by rewrite IH|].
    apply not_true_is_false. intros [v Hv]%starts_with_spec. rewrite placeholder_eq in Hv. by apply cons_eq in Hv as [-> _].
  - rewrite <- app_assoc. destruct (decide (n = k)) as [->|Hne].
    + rewrite replace_go_hit by apply placeholder_nonempty.
      rewrite IH, flat_chars. by rewrite app_assoc.
    + cbn [flat flat_map flat1 app]. rewrite (placeholder_eq n) at 1. cbn [app]. rewrite replace_go_miss.
      2: { apply not_true_is_false. intros [v Hv]%starts_with_spec. apply Hne.
           change (OPEN :: (word n ++ [CLOSE]) ++ flat ps ++ tl) with
             ((OPEN :: word n ++ [CLOSE]) ++ flat ps ++ tl) in Hv.
           rewrite <- placeholder_eq in Hv. by apply placeholder_inj in Hv as [-> _]. }
      rewrite replace_go_copy.
      2: { unfold no_open. rewrite elem_of_app. intros [Hin|Hin]; [by apply word_no_open in Hin|].
           by apply list_elem_of_singleton in Hin. }
      simpl. rewrite IH, placeholder_eq, app_nil_r. simpl. by rewrite app_assoc.
Qed.

(** ** Maps and restoring *)

(** The map of a redactor that has minted the placeholders of [ss] in order. *)
Definition minted (ss : list text) : SecretMap := imap (fun i s => (placeholder (S i), s)) ss.

Definition lookup_secret (ss : list text) (n : nat) : option text :=
  match n with O => None | S i => ss !! i end.

(** Restoring every placeholder that [ss] knows, on pieces. *)
Definition subst1 (ss : list text) (p : piece) : list piece :=
  match p with
  | inr n => match lookup_secret ss n with Some s => chars s | None => [p] end
  | inl _ => [p]
  end.
Definition subst (ss : list text) (ps : list piece) : list piece := flat_map (subst1 ss) ps.

Lemma subst_app ss ps qs : subst ss (ps ++ qs) = subst ss ps ++ subst ss qs.
Proof. apply flat_map_app. Qed.

Lemma subst_chars ss t : subst ss (chars t) = chars t.
Proof. induction t as [|c t IH]; simpl; [done|]. f_equal. exact IH. Qed.

Lemma expand1_chars k s t : flat_map (expand1 k s) (chars t) = chars t.
Proof. induction t as [|c t IH]; simpl; [done|]. f_equal. exact IH. Qed.

Lemma subst_nil ps : subst [] ps = ps.
Proof. induction ps as [|[c|[|n]] ps IH]; simpl; [done|f_equal; exact IH..]. Qed.

Lemma subst_snoc ss s ps : subst (ss ++ [s]) ps = flat_map (expand1 (S (length ss)) s) (subst ss ps).
Proof.
  induction ps as [|p ps IH]; [done|]. unfold subst in *. cbn [flat_map]. rewrite flat_map_app, <- IH. f_equal.
  destruct p as [c|n]; [done|]. unfold subst1. destruct n as [|i]; simpl lookup_secret; [done|].
  destruct (decide (i < length ss)) as [Hi|Hi].
  - rewrite lookup_app_l by done. destruct (lookup_lt_is_Some_2 _ _ Hi) as [s' ->].
    by rewrite expand1_chars.
  - rewrite (lookup_ge_None_2 ss) by lia. rewrite lookup_app_r by lia.
    destruct (decide (i = length ss)) as [->|Hne].
    + rewrite Nat.sub_diag. simpl. rewrite decide_True by done. by rewrite app_nil_r.
    + rewrite lookup_ge_None_2 by (simpl; lia). simpl. by rewrite decide_False by congruence.
Qed.

Lemma subst_clean ss ps : Forall no_open ss -> clean ps -> clean (subst ss ps).
Proof.
  intros Hss Hcl. induction Hcl as [|p ps Hp Hcl IH]; [constructor|]. unfold subst. cbn [flat_map].
  apply clean_app. split; [|exact IH]. destruct p as [c|n]; [by repeat constructor|]. unfold subst1.
  destruct (lookup_secret ss n) as [s|] eqn:Hs; [|by repeat constructor].
  apply clean_chars. destruct n as [|i]; [done|]. rewrite Forall_lookup in Hss. by eapply Hss.
Qed.

Lemma subst_tokens ss ps n : inr n ∈ subst ss ps -> inr n ∈ ps /\ lookup_secret ss n = None.
Proof.
  unfold subst. rewrite list_elem_of_In, in_flat_map. intros (p & Hp & Hin). apply list_elem_of_In in Hp, Hin.
  destruct p as [c|k]; simpl in Hin; [by apply list_elem_of_singleton in Hin|].
  destruct (lookup_secret ss k) eqn:Hk; [|apply list_elem_of_singleton in Hin as [= ->]; done].
  unfold chars in Hin. apply list_elem_of_fmap in Hin as (? & ? & _). done.
Qed.

Lemma minted_snoc ss s : minted (ss ++ [s]) = minted ss ++ [(placeholder (S (length ss)), s)].
Proof. unfold minted. rewrite imap_app. simpl. by rewrite Nat.add_0_r. Qed.

Lemma restore_round_app m1 m2 out ch :
  restore_round (m1 ++ m2) out ch =
  let '(out', ch') := restore_round m1 out ch in restore_round m2 out' ch'.
Proof.
  revert out ch. induction m1 as [|[ph s] m1 IH]; intros out ch; simpl; [done|].
  destruct (contains out ph); apply IH.
Qed.

(** A placeholder that does not stand in the text is not expanded. *)
Lemma expand_absent k s ps : inr k ∉ ps -> flat_map (expand1 k s) ps = ps.
Proof.
  induction ps as [|p ps IH]; intros Hk; [done|]. apply not_elem_of_cons in Hk as [Hp Hk].
  cbn [flat_map]. rewrite IH by done. destruct p as [c|n]; [done|]. simpl.
  by rewrite decide_False by congruence.
Qed.

Lemma restore_round_pieces ss ps tl ch : Forall no_open ss -> clean ps -> quiet tl ->
  exists ch', restore_round (minted ss) (flat ps ++ tl) ch = (flat (subst ss ps) ++ tl, ch') /\
    ((forall n, inr n ∈ ps -> lookup_secret ss n = None) -> ch' = ch).
Proof.
  intros Hss Hcl Htl. induction ss as [|s ss IH] using rev_ind.
  { exists ch. simpl. by rewrite subst_nil. }
  apply Forall_app in Hss as [Hss Hs]. destruct (IH Hss) as (ch1 & Hr & Hch).
  rewrite minted_snoc, restore_round_app, Hr. simpl.
  assert (Hcl1 : clean (subst ss ps)) by by apply subst_clean.
  rewrite subst_snoc. destruct (contains (flat (subst ss ps) ++ tl) (placeholder (S (length ss)))) eqn:Hc.
  - rewrite replace_token by done. exists true. split; [done|]. intros Hn.
    apply contains_token in Hc; [|done..]. apply subst_tokens in Hc as [Hc _].
    apply Hn in Hc. simpl in Hc. rewrite lookup_app_r, Nat.sub_diag in Hc by lia. done.
  - rewrite expand_absent. { exists ch1. split; [done|]. intros Hn. apply Hch. intros n Hin.
      apply Hn in Hin. destruct n as [|i]; [done|]. simpl in *.
      apply lookup_ge_None in Hin. apply lookup_ge_None_2. rewrite length_app in Hin. simpl in Hin. lia. }
    intros Hin. apply not_true_iff_false in Hc. apply Hc. by apply contains_token.
Qed.

Lemma subst_idem ss ps : subst ss (subst ss ps) = subst ss ps.
Proof.
  induction ps as [|p ps IH]; [done|].
  change (subst ss (p :: ps)) with (subst1 ss p ++ subst ss ps). rewrite subst_app, IH. f_equal.
  destruct p as [c|n]; [done|]. unfold subst1. destruct (lookup_secret ss n) eqn:Hn.
  - apply subst_chars.
  - simpl. by rewrite Hn.
Qed.

(** Restoring, on pieces: one round does it, the second sees nothing left. *)
Lemma restore_pieces ss ps tl : Forall no_open ss -> clean ps -> quiet tl ->
  re_text (restore (flat ps ++ tl) (minted ss)) = flat (subst ss ps) ++ tl.
Proof.
  intros Hss Hcl Htl. simpl. unfold RESTORE_ROUNDS. cbn [restore_rounds].
  destruct (restore_round_pieces ss ps tl false Hss Hcl Htl) as (ch1 & -> & _).
  destruct ch1; [|done].
  destruct (restore_round_pieces ss (subst ss ps) tl false Hss) as (ch2 & -> & Hch2);
    [by apply subst_clean|done|].
  rewrite Hch2.
  - by rewrite subst_idem.
  - intros n Hn. by apply subst_tokens in Hn as [_ ?].
Qed.

(** ** Abstraction: runs of characters turned into placeholders *)

Inductive abstracts (ss : list text) : list piece -> list piece -> Prop :=
  | ab_nil : abstracts ss [] []
  | ab_keep p ps ps' : abstracts ss ps ps' -> abstracts ss (p :: ps) (p :: ps')
  | ab_token n v ps ps' : lookup_secret ss n = Some v ->
      abstracts ss ps ps' -> abstracts ss (chars v ++ ps) (inr n :: ps').

Lemma abstracts_refl ss ps : abstracts ss ps ps.
Proof. induction ps; by constructor. Qed.

Lemma abstracts_app ss ps ps' qs qs' :
  abstracts ss ps ps' -> abstracts ss qs qs' -> abstracts ss (ps ++ qs) (ps' ++ qs').
Proof.
  intros Hp Hq. induction Hp as [|p ps ps' _ IH|n v ps ps' Hn _ IH]; simpl; [done|by constructor|].
  rewrite <- app_assoc. by constructor.
Qed.

Lemma lookup_secret_prefix ss ss' n v :
  ss `prefix_of` ss' -> lookup_secret ss n = Some v -> lookup_secret ss' n = Some v.
Proof. intros Hp. destruct n as [|i]; [done|]. simpl. intros Hl. by eapply prefix_lookup_Some. Qed.

Lemma abstracts_mono ss ss' ps ps' : ss `prefix_of` ss' -> abstracts ss ps ps' -> abstracts ss' ps ps'.
Proof. intros Hp Ha. induction Ha; constructor; try done. by eapply lookup_secret_prefix. Qed.

Lemma abstracts_chars_inv ss v : forall ps qs',
  abstracts ss ps (chars v ++ qs') -> exists qs, ps = chars v ++ qs /\ abstracts ss qs qs'.
Proof.
  induction v as [|c v IH]; intros ps qs' Ha; [by exists ps|]. simpl in Ha. inversion Ha; subst.
  destruct (IH ps0 qs') as (qs & -> & ?); [done|]. by exists qs.
Qed.

Lemma abstracts_trans ss ps ps' ps'' : abstracts ss ps ps' -> abstracts ss ps' ps'' -> abstracts ss ps ps''.
Proof.
  intros H1 H2. revert ps H1. induction H2 as [|p ps' ps'' _ IH|n v ps' ps'' Hn _ IH]; intros ps H1; [done| |].
  - inversion H1; subst; constructor; auto.
  - apply abstracts_chars_inv in H1 as (qs & -> & ?). constructor; auto.
Qed.

Lemma abstracts_subst ss ps ps' : abstracts ss ps ps' -> subst ss ps' = subst ss ps.
Proof.
  intros Ha. induction Ha as [|p ps ps' _ IH|n v ps ps' Hn _ IH]; [done| |].
  - unfold subst in *. cbn [flat_map]. by rewrite IH.
  - rewrite subst_app, subst_chars, <- IH. unfold subst. cbn [flat_map]. unfold subst1 at 1. by rewrite Hn.
Qed.

Lemma abstracts_clean ss ps ps' : abstracts ss ps ps' -> clean ps -> clean ps'.
Proof.
  intros Ha. induction Ha as [|p ps ps' _ IH|n v ps ps' Hn _ IH]; intros Hc; [done| |].
  - apply Forall_cons in Hc as [? ?]. constructor; [done|by apply IH].
  - apply clean_app in Hc as [_ ?]. constructor; [done|by apply IH].
Qed.

(** A run of characters after an abstraction was one before. *)
Lemma abstracts_prefix ss ps ps' s qs' :
  abstracts ss ps ps' -> ps' = chars s ++ qs' -> exists qs, ps = chars s ++ qs.
Proof.
  intros Ha. revert s qs'. induction Ha as [|p ps ps' _ IH|n v ps ps' Hn _ IH]; intros s qs' He.
  - destruct s; [by exists []|done].
  - destruct s as [|c s]; [by eexists|]. simpl in He. injection He as -> He.
    destruct (IH s qs' He) as [qs ->]. by exists qs.
  - destruct s as [|c s]; [by eexists|done].
Qed.

Definition has_run (s : text) (ps : list piece) : Prop := exists a b, ps = a ++ chars s ++ b.

Lemma abstracts_run ss ps ps' s : abstracts ss ps ps' -> has_run s ps' -> has_run s ps.
Proof.
  intros Ha (a & b & He). revert a He.
  induction Ha as [|p ps ps' Ha IH|n v ps ps' Hn Ha IH]; intros a He.
  - destruct a, s; simplify_eq/=. by exists [], [].
  - destruct a as [|q a].
    + apply (abstracts_prefix ss (p :: ps)) in He as [qs ->]; [by exists [], qs|by constructor].
    + simpl in He. injection He as -> He. destruct (IH a He) as (a' & b' & ->). by exists (q :: a'), b'.
  - destruct a as [|q a].
    + destruct s as [|c s]; [by exists [], (chars v ++ ps)|done].
    + simpl in He. injection He as <- He. destruct (IH a He) as (a' & b' & ->).
      exists (chars v ++ a'), b'. by rewrite <- app_assoc.
Qed.

(** ** Known secrets *)

(** A corpus value that cannot be confused with a part of a placeholder. *)
Definition plain (s : text) : Prop :=
  s <> [] /\ no_open s /\ no_close s /\ forall n, ~ infix s (word n).

(** An occurrence of a plain secret does not start inside a placeholder. *)
Lemma no_start_in_token s n u k v t :
  plain s -> placeholder n = u ++ k -> k <> [] -> s ++ v = k ++ t -> False.
Proof.
  intros (Hne & Hop & Hcl & Hw) Hph Hk He. rewrite placeholder_eq in Hph.
  destruct k as [|c0 k0 _] using rev_ind; [done|].
  rewrite app_assoc in Hph. rewrite app_comm_cons in Hph. apply app_inj_tail in Hph as [Hph <-].
  apply app_eq_inv in He as [(x & -> & _)|(x & Hx & _)].
  { apply Hcl. set_solver. }
  destruct x as [|d x _] using rev_ind.
  { rewrite app_nil_r in Hx. apply Hcl. rewrite <- Hx. set_solver. }
  rewrite app_assoc in Hx. apply app_inj_tail in Hx as [-> _].
  destruct u as [|c u]; simpl in Hph.
  - destruct s as [|c s]; [done|]. apply cons_eq in Hph as [<- _]. apply Hop. left.
  - apply cons_eq in Hph as [_ Hph]. apply (Hw n). by exists u, x.
Qed.

(** A plain secret that occurs in a text is a run of its pieces. *)
Lemma infix_run s ps : plain s -> clean ps -> infix s (flat ps) -> has_run s ps.
Proof.
  intros Hp Hcl (u & v & He). revert u He. induction Hcl as [|p ps Hpc Hcl IH]; intros u He.
  { destruct Hp as [Hne _]. by destruct u, s. }
  destruct p as [c|n].
  - destruct u as [|d u].
    + destruct Hp as (_ & Hop & _). destruct (flat_prefix s _ v Hop He) as (qs & -> & _). by exists [], qs.
    + simpl in He. injection He as -> He. destruct (IH u He) as (a & b & ->). by exists (inl d :: a), b.
  - cbn [flat flat_map flat1] in He. fold (flat ps) in He.
    assert (Hin : forall w, flat ps = w ++ s ++ v -> has_run s (inr n :: ps)).
    { intros w Hw. destruct (IH w Hw) as (a & b & ->). by exists (inr n :: a), b. }
    apply app_eq_inv in He as [(k & Hk & He)|(k & -> & He)]; [|by apply (Hin k)].
    destruct k as [|c k]; [by apply (Hin [])|]. exfalso. by eapply (no_start_in_token s n u (c :: k)).
Qed.

(** [str::replace] of a plain secret by its placeholder. *)
Lemma replace_go_token s n rep k t u : plain s -> placeholder n = u ++ k ->
  replace_go s rep (k ++ t) 0 = k ++ replace_go s rep t 0.
Proof.
  intros Hp. revert u. induction k as [|c k IH]; intros u Hu; [done|].
  change ((c :: k) ++ t) with (c :: (k ++ t)). rewrite replace_go_miss.
  - simpl. f_equal. apply (IH (u ++ [c])). by rewrite <- app_assoc.
  - apply not_true_is_false. intros [v Hv]%starts_with_spec.
    by eapply (no_start_in_token s n u (c :: k) v t).
Qed.

Lemma replace_plain_go ss s j : plain s -> lookup_secret ss j = Some s ->
  forall l ps, length ps <= l -> clean ps -> exists ps',
    flat ps' = replace_go s (placeholder j) (flat ps) 0 /\ abstracts ss ps ps' /\ ~ has_run s ps'.
Proof.
  intros Hp Hj. induction l as [|l IH]; intros ps Hl Hcl.
  { destruct ps; [|simpl in Hl; lia]. exists []. split_and!; [done|constructor|].
    intros (a & b & He). destruct Hp as [Hne _]. by destruct a, s. }
  destruct ps as [|p ps].
  { exists []. split_and!; [done|constructor|]. intros (a & b & He). destruct Hp as [Hne _]. by destruct a, s. }
  apply Forall_cons in Hcl as [Hpc Hcl]. simpl in Hl.
  destruct p as [c|n].
  - destruct (starts_with (flat (inl c :: ps)) s) eqn:Hs.
    + apply starts_with_spec in Hs as [v Hv]. destruct (flat_prefix s _ v (proj1 (proj2 Hp)) Hv) as (qs & Hqs & Hv').
      assert (Hlen : length qs <= l).
      { apply (f_equal length) in Hqs. rewrite length_app in Hqs. destruct s; [by destruct Hp|].
        simpl in Hqs. lia. }
      assert (Hclq : clean qs).
      { assert (clean (chars s ++ qs)) by (rewrite <- Hqs; by constructor). by apply clean_app in H as []. }
      destruct (IH qs Hlen Hclq) as (qs' & Hf & Ha & Hn). exists (inr j :: qs'). rewrite Hqs.
      split_and!; [|by constructor|].
      * rewrite flat_app, flat_chars, replace_go_hit by apply Hp. cbn [flat flat_map flat1]. by rewrite <- Hf.
      * intros (a & b & He). destruct a as [|q a]; [destruct s; [by destruct Hp|done]|].
        simpl in He. injection He as <- He. apply Hn. by exists a, b.
    + destruct (IH ps ltac:(lia) Hcl) as (ps' & Hf & Ha & Hn). exists (inl c :: ps').
      split_and!; [|by constructor|].
      * change (flat (inl c :: ps)) with (c :: flat ps). rewrite replace_go_miss by done.
        by rewrite <- Hf.
      * intros (a & b & He). destruct a as [|q a].
        -- apply (abstracts_prefix ss (inl c :: ps)) in He as [qs Hqs]; [|by constructor].
           rewrite Hqs, flat_app, flat_chars, starts_with_app in Hs. done.
        -- simpl in He. injection He as <- He. apply Hn. by exists a, b.
  - destruct (IH ps ltac:(lia) Hcl) as (ps' & Hf & Ha & Hn). exists (inr n :: ps').
    split_and!; [|by constructor|].
    + cbn [flat flat_map flat1]. fold (flat ps) (flat ps').
      rewrite (replace_go_token s n _ (placeholder n) _ []) by done. by rewrite Hf.
    + intros (a & b & He). destruct a as [|q a]; [destruct s; [by destruct Hp|done]|].
      simpl in He. injection He as <- He. apply Hn. by exists a, b.
Qed.

Lemma replace_plain ss s j ps : plain s -> lookup_secret ss j = Some s -> clean ps ->
  exists ps', flat ps' = replace (flat ps) s (placeholder j) /\ abstracts ss ps ps' /\ ~ has_run s ps'.
Proof.
  intros Hp Hj Hcl. rewrite replace_nonempty by apply Hp. by eapply replace_plain_go.
Qed.

(** ** Minting *)

Lemma minted_find ss s :
  match list_find (fun e : text * text => e.2 = s) (minted ss) with
  | Some (i, (ph, _)) => ph = placeholder (S i) /\ ss !! i = Some s
  | None => s ∉ ss
  end.
Proof.
  destruct (list_find _ (minted ss)) as [[i [ph s']]|] eqn:Hf.
  - apply list_find_Some in Hf as (Hl & Hs & _). simpl in Hs. unfold minted in Hl.
    rewrite list_lookup_imap in Hl. destruct (ss !! i) eqn:Hi; simplify_eq/=. done.
  - apply list_find_None in Hf. rewrite Forall_lookup in Hf. intros Hin.
    apply list_elem_of_lookup in Hin as [i Hi]. apply (Hf i (placeholder (S i), s)); [|done].
    unfold minted. by rewrite list_lookup_imap, Hi.
Qed.

(** Minting answers the placeholder of the secret and extends the map by at
    most that secret. *)
Lemma mint_spec ss s : NoDup ss -> exists j ss',
  mint_or_reuse (minted ss) s = (placeholder j, minted ss') /\ lookup_secret ss' j = Some s /\
  NoDup ss' /\ ss `prefix_of` ss' /\ (forall x, x ∈ ss' -> x ∈ ss \/ x = s).
Proof.
  intros Hnd. unfold mint_or_reuse. pose proof (minted_find ss s) as Hf.
  destruct (list_find _ (minted ss)) as [[i [ph s']]|].
  - destruct Hf as [-> Hi]. exists (S i), ss. by split_and!; auto.
  - exists (S (length ss)), (ss ++ [s]). split_and!.
    + rewrite minted_snoc. unfold minted. by rewrite length_imap, Nat.add_1_r.
    + simpl. by rewrite lookup_app_r, Nat.sub_diag by lia.
    + apply NoDup_app. split_and!; [done| |apply NoDup_singleton]. intros x Hx ->%list_elem_of_singleton. done.
    + by eexists.
    + intros x [|?%list_elem_of_singleton]%elem_of_app; auto.
Qed.
