(* ===== verification/SecretsProps.v ===== *)
(** * What the secrets guard guarantees

    Round trip of redaction and restoring, no leak of known secrets, stability
    of the placeholder map over a session, exactness of the leftovers, and the
    agreement of the streaming restore with the batch one. *)

From S2P Require Import Prelude Text Secrets SecretsPieces.
From Stdlib Require Import Lia.

#[local] Opaque word placeholder.

(** ** The redaction pass on pieces *)

(** The span [a..b] meets a placeholder of the text. *)
Definition overlaps_placeholder (t : text) (a b : nat) : Prop :=
  exists u n v, t = u ++ placeholder n ++ v /\ length u < b /\ a < length u + length (placeholder n).

(** The span [a..b] is a run of characters of the pieces. *)
Definition aligned (ps : list piece) (a b : nat) : Prop :=
  exists p1 mid p2, ps = p1 ++ chars mid ++ p2 /\ length (flat p1) = a /\ length mid = b - a.

Lemma overlaps_shift x t a b :
  overlaps_placeholder t a b -> overlaps_placeholder (x ++ t) (length x + a) (length x + b).
Proof.
  intros (u & n & v & -> & H1 & H2). exists (x ++ u), n, v.
  rewrite length_app, <- app_assoc. split_and!; [done|lia..].
Qed.

Lemma aligned_cons p ps a b : aligned ps a b -> aligned (p :: ps) (length (flat1 p) + a) (length (flat1 p) + b).
Proof.
  intros (p1 & mid & p2 & -> & H1 & H2). exists (p :: p1), mid, p2. split_and!; [done| |lia].
  cbn [flat flat_map]. fold (flat p1). rewrite length_app. lia.
Qed.

Lemma aligned_head ps : forall b, b <= length (flat ps) -> ~ overlaps_placeholder (flat ps) 0 b ->
  aligned ps 0 b.
Proof.
  induction ps as [|p ps IH]; intros b Hb Hno.
  { exists [], [], []. simpl in *. split_and!; [done..|lia]. }
  destruct b as [|b]; [by exists [], [], (p :: ps)|]. destruct p as [c|n].
  - destruct (IH b) as (p1 & mid & p2 & Heq & H1 & H2).
    { simpl in Hb. lia. }
    { intros Ho. apply Hno. destruct Ho as (u & n & v & He & Hl & Hm). exists (c :: u), n, v.
      cbn [flat flat_map flat1 app]. fold (flat ps). rewrite He. simpl. split_and!; [done|lia..]. }
    destruct p1 as [|q p1].
    + exists [], (c :: mid), p2. simpl in *. split_and!; [by rewrite Heq|done|lia].
    + exfalso. cbn [flat flat_map] in H1. rewrite length_app in H1. destruct q as [d|m]; simpl in H1; [lia|].
      rewrite placeholder_eq in H1. simpl in H1. lia.
  - exfalso. apply Hno. exists [], n, (flat ps). split_and!; [done|simpl; lia|].
    rewrite placeholder_eq. simpl. lia.
Qed.

Lemma free_aligned ps : forall a b, a <= b -> b <= length (flat ps) ->
  ~ overlaps_placeholder (flat ps) a b -> a < b -> aligned ps a b.
Proof.
  induction ps as [|p ps IH]; intros a b Hab Hb Hno Hlt.
  { simpl in Hb. lia. }
  destruct (decide (length (flat1 p) <= a)) as [Hle|Hgt].
  - replace a with (length (flat1 p) + (a - length (flat1 p))) by lia.
    replace b with (length (flat1 p) + (b - length (flat1 p))) by lia.
    apply aligned_cons. cbn [flat flat_map] in Hb. fold (flat ps) in Hb. rewrite length_app in Hb.
    apply IH; [lia..| |lia]. intros Ho. apply Hno. apply (overlaps_shift (flat1 p)) in Ho.
    replace (length (flat1 p) + (a - length (flat1 p))) with a in Ho by lia.
    by replace (length (flat1 p) + (b - length (flat1 p))) with b in Ho by lia.
  - destruct p as [c|n].
    + simpl in Hgt. replace a with 0 in * by lia. by apply aligned_head.
    + exfalso. apply Hno. exists [], n, (flat ps). simpl in *. split_and!; [done|lia|lia].
Qed.

(** An aligned span past a prefix of the pieces is aligned in the rest. *)
Lemma aligned_rest q ps a b : length (flat q) <= a -> aligned (q ++ ps) a b ->
  aligned ps (a - length (flat q)) (b - length (flat q)).
Proof.
  intros Ha (p1 & mid & p2 & Heq & H1 & H2).
  apply app_eq_inv in Heq as [(k & -> & Hk)|(k & -> & ->)].
  - rewrite flat_app, length_app in Ha |- *.
    assert (Hn : length (flat k) = 0) by lia.
    destruct k as [|p k].
    + simpl in Hk. exists [], mid, p2. simpl. split_and!; [done|lia|lia].
    + cbn [flat flat_map] in Hn. rewrite length_app in Hn. destruct p as [c|n]; simpl in Hn; [lia|].
      rewrite placeholder_eq in Hn. simpl in Hn. lia.
  - rewrite flat_app, length_app in H1. exists k, mid, p2. split_and!; [done|lia|lia].
Qed.

Lemma slice_mid (u v w : text) : slice (u ++ v ++ w) (length u) (length u + length v) = v.
Proof.
  unfold slice. rewrite drop_app_length.
  replace (length u + length v - length u) with (length v) by lia. apply take_app_length.
Qed.

(** What is known of the hits of a text. *)
Definition sound_hit (content : text) (h : hit) : Prop :=
  h.2.1 < h.2.2 <= length content /\ h.1.2 = slice content h.2.1 h.2.2.

Lemma apply_hits_pieces hs : forall q ps ss,
  clean (q ++ ps) -> NoDup ss -> Forall no_open ss ->
  Forall (sound_hit (flat (q ++ ps))) hs ->
  Forall (fun h => ~ overlaps_placeholder (flat (q ++ ps)) h.2.1 h.2.2) hs ->
  exists ss' ps', apply_hits (flat (q ++ ps)) hs (length (flat q)) (minted ss) = (flat ps', minted ss') /\
    abstracts ss' ps ps' /\ ss `prefix_of` ss' /\ NoDup ss' /\ Forall no_open ss'.
Proof.
  induction hs as [|[[knd value] [a b]] hs IH]; intros q ps ss Hcl Hnd Hop Hs Hf.
  { exists ss, ps. split_and!; try done; [|apply abstracts_refl]. simpl. by rewrite flat_app, drop_app_length. }
  apply Forall_cons in Hs as [[Hab Hv] Hs], Hf as [Hfree Hf]. simpl in Hab, Hv, Hfree. cbn [apply_hits].
  destruct (Nat.ltb_spec a (length (flat q))) as [|Hge]; [by apply IH|].
  assert (Hal : aligned (q ++ ps) a b) by (apply free_aligned; [lia..|done|lia]).
  apply (aligned_rest q ps a b Hge) in Hal as (p1 & mid & p2 & -> & H1 & H2).
  assert (Ha : a = length (flat (q ++ p1))) by (rewrite flat_app, length_app; lia).
  assert (Hb : b = length (flat (q ++ p1 ++ chars mid))).
  { rewrite app_assoc, flat_app, flat_chars, length_app, <- Ha. lia. }
  assert (Hval : value = mid).
  { rewrite Hv, Ha. replace b with (length (flat (q ++ p1)) + length mid) by lia.
    rewrite (app_assoc q), flat_app, (flat_app (chars mid)), flat_chars. apply slice_mid. }
  subst value. rewrite Hval.
  destruct (mint_spec ss mid Hnd) as (j & ss1 & -> & Hj & Hnd1 & Hpre1 & Hin1).
  assert (Heq : q ++ p1 ++ chars mid ++ p2 = (q ++ p1 ++ chars mid) ++ p2) by by rewrite <- !app_assoc.
  assert (Hop1 : Forall no_open ss1).
  { apply Forall_forall. intros x Hx. apply Hin1 in Hx as [Hx| ->]; [by eapply Forall_forall in Hop|].
    apply clean_chars. apply clean_app in Hcl as [_ Hcl]. apply clean_app in Hcl as [_ Hcl].
    by apply clean_app in Hcl as []. }
  assert (Hsl : slice (flat (q ++ p1 ++ chars mid ++ p2)) (length (flat q)) a = flat p1).
  { rewrite Ha, !flat_app, length_app. apply slice_mid. }
  rewrite Hsl, Heq, Hb in *.
  destruct (IH (q ++ p1 ++ chars mid) p2 ss1 Hcl Hnd1 Hop1 Hs Hf) as (ss' & ps' & -> & Hab' & Hpre' & Hnd' & Hop').
  exists ss', (p1 ++ inr j :: ps'). split_and!; try done.
  - rewrite flat_app. done.
  - apply abstracts_app; [apply abstracts_refl|]. constructor; [|done].
    by eapply lookup_secret_prefix.
  - by etrans.
Qed.

(** ** The hits of a text are sound *)

Lemma insert_hit_perm x l : insert_hit x l ≡ₚ x :: l.
Proof.
  induction l as [|y l IH]; simpl; [done|]. destruct (key_le x y); [done|].
  rewrite IH. apply Permutation_swap.
Qed.

Lemma sort_hits_perm l : sort_hits l ≡ₚ l.
Proof. induction l as [|x l IH]; simpl; [done|]. by rewrite insert_hit_perm, IH. Qed.

Lemma dedup_from_sub prev l : forall x, x ∈ dedup_from prev l -> x ∈ l.
Proof.
  revert prev. induction l as [|y l IH]; intros prev x; simpl; [done|].
  case_bool_decide; rewrite !elem_of_cons; [intros Hx; right; by eapply IH|].
  intros [->|Hx]; [by left|right; by eapply IH].
Qed.

Section engine.
Context `{HR : Regex} `{!RegexLaws}.

Lemma hits_in rules t h : h ∈ hits rules t -> exists r c, r ∈ rules /\ c ∈ captures_iter (re r) t /\ hit_of t r c = Some h.
Proof.
  unfold hits. intros Hin.
  assert (Hs : h ∈ sort_hits (flat_map (rule_hits t) rules)).
  { destruct (sort_hits _) as [|x l]; [done|]. simpl in Hin. apply elem_of_cons in Hin as [->|Hin]; [left|].
    right. by eapply dedup_from_sub. }
  rewrite sort_hits_perm in Hs. apply list_elem_of_In, in_flat_map in Hs as (r & Hr & Hh).
  apply list_elem_of_In in Hr, Hh. unfold rule_hits in Hh. apply list_elem_of_omap in Hh as (c & Hc & Hh).
  by exists r, c.
Qed.

Lemma hits_sound rules t : Forall (sound_hit t) (hits rules t).
Proof.
  apply Forall_forall. intros h (r & c & _ & Hc & Hh)%hits_in. unfold hit_of in Hh.
  assert (Hsp : forall sp, (if group r then cap_value c else Some (cap_match c)) = Some sp -> sp.1 <= sp.2 <= length t).
  { intros sp Hsp. destruct (group r); [by eapply value_span|]. simplify_eq. by eapply match_span. }
  destruct (if group r then cap_value c else Some (cap_match c)) as [[a b]|]; [|done].
  specialize (Hsp (a, b) eq_refl). simpl in Hsp.
  destruct (bool_decide (slice t a b = []) || _) eqn:He; [done|].
  destruct ((0 <? _)%N && _); [done|]. injection Hh as <-. apply orb_false_iff in He as [He _].
  apply bool_decide_eq_false in He. split; simpl; [|done]. split; [|lia].
  destruct (decide (a < b)); [done|]. exfalso. apply He. unfold slice.
  by replace (b - a) with 0 by lia.
Qed.

(** ** Redaction *)

(** The hits of the rules on a text leave its placeholders alone, as the
    placeholder grammar is meant to ensure. *)
Definition spares_placeholders (t : text) : Prop :=
  Forall (fun h => ~ overlaps_placeholder t h.2.1 h.2.2) (hits default_rules t).

(** A redactor as [new] and [redact] leave it: [ss] are the secrets seen. *)
Definition session (r : Redactor) (ss : list text) : Prop :=
  r_map r = minted ss /\ NoDup ss /\ Forall no_open ss /\ Forall plain (r_corpus r).

Lemma corpus_pass_pieces corpus : forall ps ss,
  Forall plain corpus -> clean ps -> NoDup ss -> Forall no_open ss ->
  exists ss' ps', corpus_pass corpus (flat ps) (minted ss) = (flat ps', minted ss') /\
    abstracts ss' ps ps' /\ ss `prefix_of` ss' /\ NoDup ss' /\ Forall no_open ss' /\
    (forall s, s ∈ corpus -> ~ has_run s ps').
Proof.
  induction corpus as [|s corpus IH]; intros ps ss Hc Hcl Hnd Hop.
  { exists ss, ps. split_and!; try done; [apply abstracts_refl|]. by intros s ?%elem_of_nil. }
  apply Forall_cons in Hc as [Hp Hc]. cbn [corpus_pass].
  destruct (contains (flat ps) s) eqn:Hct.
  - destruct (mint_spec ss s Hnd) as (j & ss1 & -> & Hj & Hnd1 & Hpre1 & Hin1).
    destruct (replace_plain ss1 s j ps Hp Hj Hcl) as (ps1 & Hf1 & Ha1 & Hn1). rewrite <- Hf1.
    destruct (IH ps1 ss1) as (ss' & ps' & -> & Ha' & Hpre' & Hnd' & Hop' & Hno'); try done.
    { by eapply abstracts_clean. }
    { apply Forall_forall. intros x Hx. apply Hin1 in Hx as [Hx| ->]; [by eapply Forall_forall in Hop|apply Hp]. }
    exists ss', ps'. split_and!; try done.
    + eapply abstracts_trans; [by eapply abstracts_mono|done].
    + by etrans.
    + intros x [->|Hx]%elem_of_cons; [|by apply Hno']. intros Hr. by eapply Hn1, abstracts_run.
  - destruct (IH ps ss) as (ss' & ps' & -> & Ha' & Hpre' & Hnd' & Hop' & Hno'); try done.
    exists ss', ps'. split_and!; try done.
    intros x [->|Hx]%elem_of_cons; [|by apply Hno']. intros Hr.
    apply (abstracts_run _ _ _ _ Ha') in Hr as (a & b & ->). apply not_true_iff_false in Hct. apply Hct, contains_spec.
    exists (flat a), (flat b). by rewrite !flat_app, flat_chars.
Qed.

(** One [redact] of a session, on pieces. *)
Lemma redact_pieces r ss content :
  session r ss -> no_open content ->
  spares_placeholders (corpus_pass (r_corpus r) content (r_map r)).1 ->
  exists ss' ps out, redact_with r content = (out, {| r_map := minted ss'; r_corpus := r_corpus r |}) /\
    ro_text out = flat ps /\ ro_map out = minted ss' /\ abstracts ss' (chars content) ps /\
    ss `prefix_of` ss' /\ NoDup ss' /\ Forall no_open ss' /\
    (forall s, s ∈ r_corpus r -> ~ has_run s ps).
Proof.
  intros (Hm & Hnd & Hop & Hpl) Hc Hsp. unfold redact_with. rewrite Hm in *.
  rewrite <- (flat_chars content) in Hsp |- *.
  destruct (corpus_pass_pieces (r_corpus r) (chars content) ss) as
    (ss1 & ps1 & Heq & Ha1 & Hpre1 & Hnd1 & Hop1 & Hno1); [done|by apply clean_chars|done..|].
  rewrite Heq in Hsp |- *. simpl in Hsp. unfold apply_all.
  destruct (apply_hits_pieces (hits default_rules (flat ps1)) [] ps1 ss1) as
    (ss2 & ps2 & Heq2 & Ha2 & Hpre2 & Hnd2 & Hop2); try done.
  { eapply abstracts_clean; [done|by apply clean_chars]. }
  { apply hits_sound. }
  simpl in Heq2. rewrite Heq2. rewrite flat_chars in *.
  exists ss2, ps2. eexists. split; [done|]. simpl. split_and!; try done.
  - eapply abstracts_trans; [by eapply abstracts_mono|done].
  - by etrans.
  - intros s Hs Hr. eapply (Hno1 s Hs), abstracts_run; done.
Qed.

(** The calls of one session, in order. *)
Fixpoint redact_all (r : Redactor) (contents : list text) : list RedactOutput * Redactor :=
  match contents with
  | [] => ([], r)
  | content :: rest =>
    let '(out, r1) := redact_with r content in
    let '(outs, r2) := redact_all r1 rest in (out :: outs, r2)
  end.

(** No content holds an opening bracket, and no rule hit meets a placeholder. *)
Fixpoint admissible (r : Redactor) (contents : list text) : Prop :=
  match contents with
  | [] => True
  | content :: rest =>
    no_open content /\ spares_placeholders (corpus_pass (r_corpus r) content (r_map r)).1 /\
    admissible (redact_with r content).2 rest
  end.

Lemma redact_session r ss content :
  session r ss -> no_open content ->
  spares_placeholders (corpus_pass (r_corpus r) content (r_map r)).1 ->
  exists ss', session (redact_with r content).2 ss' /\ ss `prefix_of` ss' /\
    (exists ps, ro_text (redact_with r content).1 = flat ps /\ abstracts ss' (chars content) ps).
Proof.
  intros Hs Hc Hsp. destruct (redact_pieces r ss content Hs Hc Hsp)
    as (ss' & ps & out & -> & Ht & _ & Ha & Hpre & Hnd & Hop & _).
  exists ss'. split_and!; [|done|by exists ps]. destruct Hs as (_ & _ & _ & ?). done.
Qed.

Lemma redact_all_session contents : forall r ss,
  session r ss -> admissible r contents ->
  exists ss', session (redact_all r contents).2 ss' /\ ss `prefix_of` ss' /\
    Forall2 (fun out content => exists ps, ro_text out = flat ps /\ abstracts ss' (chars content) ps)
      (redact_all r contents).1 contents.
Proof.
  induction contents as [|content rest IH]; intros r ss Hs Had.
  { exists ss. split_and!; [done..|constructor]. }
  destruct Had as (Hc & Hsp & Had). destruct (redact_session r ss content Hs Hc Hsp) as (ss1 & Hs1 & Hp1 & ps & Ht & Ha).
  cbn [redact_all]. destruct (redact_with r content) as [out r1]. simpl in *.
  destruct (IH r1 ss1 Hs1 Had) as (ss' & Hs' & Hp' & Hall). destruct (redact_all r1 rest) as [outs r2]. simpl in *.
  exists ss'. split_and!; [done|by etrans|]. constructor; [|done]. exists ps. split; [done|].
  by eapply abstracts_mono.
Qed.

Lemma restore_abstracted ss content ps : Forall no_open ss -> no_open content ->
  abstracts ss (chars content) ps -> re_text (restore (flat ps) (minted ss)) = content.
Proof.
  intros Hop Hc Ha. rewrite <- (app_nil_r (flat ps)). rewrite restore_pieces; [|done| |apply quiet_nil].
  - by rewrite (abstracts_subst _ _ _ Ha), subst_chars, flat_chars, app_nil_r.
  - eapply abstracts_clean; [done|by apply clean_chars].
Qed.

Lemma admissible_no_open contents : forall r, admissible r contents -> Forall no_open contents.
Proof. induction contents as [|c cs IH]; intros r Ha; constructor; [apply Ha|]. eapply IH, Ha. Qed.

(** C3. Redaction is reversible over a session of admissible contents: the final map of
    the session restores the text of each of its calls to the content that was given,
    byte for byte.  A content is admissible when it holds no opening bracket of
    placeholders and the hits of the rules on it spare the placeholders that the
    corpus put in; the corpus is plain (no value is a part of a placeholder or holds a
    bracket).  A content with a literal placeholder in it is not restored. *)
Theorem session_roundtrip r contents ss :
  session r ss -> admissible r contents ->
  Forall2 (fun out content => re_text (restore (ro_text out) (r_map (redact_all r contents).2)) = content)
    (redact_all r contents).1 contents.
Proof.
  intros Hs Had. pose proof (admissible_no_open _ _ Had) as Hno.
  destruct (redact_all_session contents r ss Hs Had) as (ss' & (-> & _ & Hop & _) & _ & Hall).
  apply Forall2_same_length_lookup in Hall as [Hlen Hall]. apply Forall2_same_length_lookup. split; [done|].
  intros i out content Ho Hc. destruct (Hall i out content Ho Hc) as (ps & -> & Ha).
  apply restore_abstracted; [done| |done]. rewrite Forall_lookup in Hno. by eapply Hno.
Qed.

(** C4. No known secret leaves: when the corpus is plain, the content holds no opening
    bracket and the rules' hits on what the corpus pass made of it spare its
    placeholders, the redacted text holds no occurrence of any corpus value. *)
Theorem corpus_never_leaks r ss content s :
  session r ss -> no_open content ->
  spares_placeholders (corpus_pass (r_corpus r) content (r_map r)).1 ->
  s ∈ r_corpus r -> ~ infix s (ro_text (redact_with r content).1).
Proof.
  intros Hs Hc Hsp Hin Hi. destruct (redact_pieces r ss content Hs Hc Hsp)
    as (ss' & ps & out & Heq & Ht & _ & Ha & _ & _ & _ & Hno).
  rewrite Heq in Hi. simpl in Hi. rewrite Ht in Hi. apply (Hno s Hin). apply infix_run; [|by eapply abstracts_clean, clean_chars|done].
  destruct Hs as (_ & _ & _ & Hpl). by eapply Forall_forall in Hpl.
Qed.

(** The placeholder map of a session is stable: a call keeps the entries
    it found, appends new ones as SECRET_1, SECRET_2, ... in order, and maps
    no secret twice. *)
Theorem session_map_stable r ss content :
  session r ss -> no_open content ->
  spares_placeholders (corpus_pass (r_corpus r) content (r_map r)).1 ->
  let m := ro_map (redact_with r content).1 in
  r_map r `prefix_of` m /\ NoDup m.*2 /\
  forall i e, m !! i = Some e -> e.1 = placeholder (i + 1).
Proof.
  intros Hs Hc Hsp. destruct (redact_pieces r ss content Hs Hc Hsp)
    as (ss' & ps & out & -> & _ & Hm & _ & Hpre & Hnd & _). destruct Hs as (-> & _).
  simpl. rewrite Hm. split_and!.
  - destruct Hpre as [more ->]. unfold minted. rewrite imap_app. by eexists.
  - replace (minted ss').*2 with ss'; [done|]. apply list_eq. intros i. rewrite list_lookup_fmap.
    unfold minted. rewrite list_lookup_imap. by destruct (ss' !! i).
  - intros i e He. assert (He' : imap (fun i s => (placeholder (S i), s)) ss' !! i = Some e) by exact He.
    rewrite list_lookup_imap in He'. rewrite Nat.add_1_r. destruct (ss' !! i); by simplify_eq/=.
Qed.

(** A rule whose credential is to be taken from a group the pattern does not
    name never matches anything. *)
Lemma unnamed_group_dead r t : group r = true ->
  contains (utf8 (re r)) (utf8 "(?<value>") = false -> rule_hits t r = [].
Proof.
  intros Hg Hn. unfold rule_hits.
  assert (Hall : forall cs, (forall c, c ∈ cs -> cap_value c = None) -> omap (hit_of t r) cs = []).
  { induction cs as [|c cs IH]; intros Hc; [done|]. cbn [omap list_omap]. unfold hit_of at 1.
    rewrite Hg, (Hc c) by left. apply IH. intros x Hx. apply Hc. by right. }
  apply Hall. intros c Hc. by eapply value_named.
Qed.

(** The bearer-token rule is dead: it asks for the group [value], which its
    pattern does not define, so no bearer token is ever reported by it. *)
Theorem bearer_rule_dead t r :
  r ∈ default_rules -> kind r = "bearer_token"%string -> rule_hits t r = [].
Proof.
  intros Hr Hk. assert (Hb : Forall (fun r => kind r = "bearer_token"%string ->
    group r = true /\ contains (utf8 (re r)) (utf8 "(?<value>") = false) default_rules).
  { repeat constructor; vm_compute; intros; first [discriminate | split; reflexivity]. }
  rewrite Forall_forall in Hb. destruct (Hb r Hr Hk). by apply unnamed_group_dead.
Qed.
End engine.

(** ** Witnesses *)

(** An engine that knows one GitHub token. *)
Definition demo_token : text := utf8 "ghp_0123456789".

Definition demo_engine : Regex := fun pat t =>
  if String.eqb pat "(?i)\bghp_[0-9a-zA-Z]{36}\b" then
    match find t demo_token with
    | Some n => [{| cap_match := (n, n + length demo_token); cap_value := None |}]
    | None => []
    end
  else [].

#[local] Existing Instance demo_engine.

Lemma demo_captures pat t c : c ∈ captures_iter pat t ->
  cap_value c = None /\ (cap_match c).1 <= (cap_match c).2 <= length t.
Proof.
  unfold captures_iter, demo_engine. destruct (String.eqb _ _); [|by intros ?%elem_of_nil].
  destruct (find t demo_token) as [n|] eqn:Hf; [|by intros ?%elem_of_nil].
  intros ->%list_elem_of_singleton. apply find_Some in Hf as (u & v & -> & <-).
  split; [done|]. unfold cap_match, fst, snd. rewrite !length_app. lia.
Qed.

#[local] Instance demo_laws : RegexLaws.
Proof.
  split.
  - intros pat t c Hc. by apply (demo_captures pat t c).
  - intros pat t c v Hc Hv. apply (demo_captures pat t c) in Hc as [Hn _]. congruence.
  - intros pat t c Hc _. by apply (demo_captures pat t c) in Hc as [? _].
Qed.

(** A dash keeps a corpus value apart from the placeholder grammar. *)
Lemma plain_dash s : bool_decide (s <> [] /\ 45%N ∈ s /\ OPEN ∉ s /\ CLOSE ∉ s) = true -> plain s.
Proof.
  intros (Hne & Hd & Ho & Hc)%bool_decide_eq_true. split_and!; try done.
  intros n (u & v & Hw). assert (Hin : 45%N ∈ word n) by (rewrite Hw; set_solver).
  change (word n) with (SECRET_ ++ decimal n) in Hin.
  apply elem_of_app in Hin as [Hin|Hin]; [|by eapply Forall_forall in Hin; [|apply decimal_digits]].
  revert Hin. change (~ (45%N ∈ SECRET_)). vm_compute. set_solver.
Qed.

Definition demo_secret : text := utf8 "corpus-secret-value".
Definition demo_redactor : Redactor := new_redactor [demo_secret].
Definition demo_contents : list text :=
  [utf8 "push with ghp_0123456789 now"; utf8 "again ghp_0123456789"; utf8 "and corpus-secret-value too"].

Lemma demo_session : session demo_redactor [].
Proof.
  split_and!; [done|constructor|constructor|].
  repeat constructor. all: apply plain_dash; vm_compute; reflexivity.
Qed.

(** A text without an opening bracket has no placeholder to meet. *)
Lemma no_open_no_overlap t a b : no_open t -> ~ overlaps_placeholder t a b.
Proof.
  intros Hn (u & n & v & -> & _). apply Hn. rewrite placeholder_eq. set_solver.
Qed.

Lemma spares_no_open t : bool_decide (OPEN ∉ t) = true -> spares_placeholders t.
Proof.
  intros Hn%bool_decide_eq_true. apply Forall_forall. intros h _. by apply no_open_no_overlap.
Qed.

Lemma spares_no_hits t : hits default_rules t = [] -> spares_placeholders t.
Proof. unfold spares_placeholders. intros ->. constructor. Qed.

Lemma demo_admissible : admissible demo_redactor demo_contents.
Proof.
  do 3 (split; [apply (bool_decide_eq_true (OPEN ∉ _)); vm_compute; reflexivity|split;
    [first [solve [apply spares_no_open; vm_compute; reflexivity]
           |apply spares_no_hits; vm_compute; reflexivity]|]]).
  exact I.
Qed.

Lemma session_roundtrip_witness :
  Forall2 (fun out content => re_text (restore (ro_text out) (r_map (redact_all demo_redactor demo_contents).2)) = content)
    (redact_all demo_redactor demo_contents).1 demo_contents.
Proof. apply (session_roundtrip demo_redactor demo_contents []); [exact demo_session|exact demo_admissible]. Defined.

Definition demo_last : text := utf8 "and corpus-secret-value too".

Lemma demo_last_spared :
  spares_placeholders (corpus_pass (r_corpus demo_redactor) demo_last (r_map demo_redactor)).1.
Proof. apply spares_no_hits. vm_compute. reflexivity. Qed.

Lemma demo_last_no_open : no_open demo_last.
Proof. apply (bool_decide_eq_true (OPEN ∉ demo_last)). vm_compute. reflexivity. Qed.

Lemma corpus_never_leaks_witness :
  demo_secret ∈ r_corpus demo_redactor /\ ~ infix demo_secret (ro_text (redact_with demo_redactor demo_last).1).
Proof.
  assert (Hin : demo_secret ∈ r_corpus demo_redactor) by (vm_compute; left).
  split; [exact Hin|].
  apply (corpus_never_leaks demo_redactor [] demo_last demo_secret);
    [exact demo_session|exact demo_last_no_open|exact demo_last_spared|exact Hin].
Defined.

Lemma session_map_stable_witness :
  NoDup (ro_map (redact_with demo_redactor demo_last).1).*2.
Proof.
  apply (session_map_stable demo_redactor [] demo_last);
    [exact demo_session|exact demo_last_no_open|exact demo_last_spared].
Defined.

Definition bearer_rule : SecretRule :=
  rule "bearer_token" "(?i)bearer\s+[A-Za-z0-9_\-.~+/=]{16,}" (0, 1)%N true false.

Lemma bearer_rule_dead_witness : rule_hits (utf8 "Bearer abcdefghijklmnop") bearer_rule = [].
Proof.
  apply (bearer_rule_dead (utf8 "Bearer abcdefghijklmnop") bearer_rule); [|reflexivity].
  do 6 right. left.
Defined.
