(* ===== verification/SecretsStream.v ===== *)
(** * Streaming restore, leftovers, and the environment

    The agreement of [restore_incremental] over any chunking with the batch
    [restore], the exactness of the leftovers, and the scrubbing of child
    environments. *)

From S2P Require Import Prelude Text Secrets SecretsPieces.
From Stdlib Require Import Lia.

#[local] Opaque word placeholder SECRET_.

(** ** Cutting a text inside a placeholder *)

(** [part] is empty or the beginning of the first placeholder of [p2]. *)
Definition cut_part (part : text) (p2 : list piece) : Prop :=
  part = [] \/ exists n rest k, p2 = inr n :: rest /\ placeholder n = part ++ k /\ k <> [] /\ part <> [].

Lemma split_pieces ps : forall t1 t2, t1 ++ t2 = flat ps ->
  exists p1 part p2, ps = p1 ++ p2 /\ t1 = flat p1 ++ part /\ part ++ t2 = flat p2 /\ cut_part part p2.
Proof.
  induction ps as [|p ps IH]; intros t1 t2 He.
  { apply app_eq_nil in He as [-> ->]. exists [], [], []. split_and!; try done. by left. }
  cbn [flat flat_map] in He. fold (flat ps) in He. symmetry in He.
  apply app_eq_inv in He as [(k & Hk & ->)|(k & -> & He)].
  - destruct t1 as [|c t1].
    { exists [], [], (p :: ps). split_and!; [done..| |by left]. simpl in *. cbn [flat flat_map]. by rewrite Hk. }
    destruct p as [d|n].
    + simpl in Hk. apply cons_eq in Hk as [<- Hk]. symmetry in Hk. apply app_eq_nil in Hk as [-> ->].
      exists [inl d], [], ps. split_and!; [done..|by left].
    + simpl in Hk. destruct k as [|d k].
      * exists [inr n], [], ps. rewrite app_nil_r in Hk. cbn [flat flat_map flat1]. rewrite !app_nil_r, Hk.
        split_and!; [done..|by left].
      * exists [], (c :: t1), (inr n :: ps). split_and!; [done|done| |].
        -- cbn [flat flat_map flat1]. fold (flat ps). rewrite Hk. simpl. by rewrite <- ?app_assoc.
        -- right. by exists n, ps, (d :: k).
  - symmetry in He. destruct (IH k t2 He) as (p1 & part & p2 & -> & -> & Hp & Hc).
    exists (p :: p1), part, p2. cbn [flat flat_map]. fold (flat p1). by rewrite app_assoc.
Qed.

(** The beginning of a placeholder is the bracket and a beginning of its word. *)
Lemma part_shape n part k : placeholder n = part ++ k -> k <> [] -> part <> [] ->
  exists w x, part = OPEN :: w /\ word n = w ++ x.
Proof.
  rewrite placeholder_eq. intros He Hk Hp. destruct part as [|c w]; [done|].
  simpl in He. apply cons_eq in He as [<- He].
  destruct k as [|d k _] using rev_ind; [done|]. rewrite app_assoc in He.
  apply app_inj_tail in He as [He _]. by exists w, k.
Qed.

Lemma word_part_no_open n w x : word n = w ++ x -> no_open w.
Proof. intros He Hin. apply (word_no_open n). rewrite He. set_solver. Qed.
Lemma word_part_no_close n w x : word n = w ++ x -> no_close w.
Proof. intros He Hin. apply (word_no_close n). rewrite He. set_solver. Qed.

Lemma word_digits n : word n = SECRET_ ++ decimal n.
Proof. done. Qed.

(** ** Partial placeholders *)

Lemma drop_prefix (v : text) : drop (length (OPEN :: SECRET_)) (OPEN :: SECRET_ ++ v) = v.
Proof. apply (drop_app_length (OPEN :: SECRET_)). Qed.

Lemma is_partial_shape t : is_partial t = true -> t <> [] ->
  exists w, t = OPEN :: w /\ no_close w.
Proof.
  unfold is_partial. rewrite prefix_eq. intros Hp Hne. destruct t as [|c w]; [done|].
  apply orb_true_iff in Hp as [Hp|Hp].
  - apply starts_with_spec in Hp as [v Hv]. simpl in Hv. apply cons_eq in Hv as [<- Hv]. exists w.
    split; [done|]. intros Hin. apply SECRET_no_close. rewrite Hv. set_solver.
  - apply andb_true_iff in Hp as [Hp Hd]. apply starts_with_spec in Hp as [v Hv].
    simpl in Hv. apply cons_eq in Hv as [-> ->]. exists (SECRET_ ++ v). split; [done|].
    rewrite drop_prefix in Hd. unfold no_close. rewrite elem_of_app. intros [Hin|Hin].
    + by apply SECRET_no_close in Hin.
    + rewrite forallb_forall in Hd. apply list_elem_of_In, Hd, digit_not_bracket in Hin. by destruct Hin.
Qed.

Lemma starts_with_prefix (a b : text) : starts_with (a ++ b) a = true.
Proof. apply starts_with_app. Qed.

Lemma part_is_partial n w x : word n = w ++ x -> is_partial (OPEN :: w) = true.
Proof.
  intros He. unfold is_partial. rewrite prefix_eq. apply orb_true_iff.
  rewrite word_digits in He. symmetry in He. apply app_eq_inv in He as [(k & -> & Hk)|(k & Hk & _)].
  - right. apply andb_true_iff. split; [apply (starts_with_app (OPEN :: SECRET_))|].
    rewrite drop_prefix. apply forallb_forall. intros c Hc%list_elem_of_In. pose proof (decimal_digits n) as Hd.
    rewrite Hk in Hd. apply Forall_app in Hd as [Hd _]. by eapply Forall_forall in Hd.
  - left. rewrite Hk. apply (starts_with_app (OPEN :: w)).
Qed.

Lemma partial_go_scan w : forall r tail k, no_open w -> k + str_len w <= MAX_LOOKBACK ->
  partial_go (rev w ++ r) tail k = partial_go r (w ++ tail) (k + str_len w).
Proof.
  induction w as [|c w IH] using rev_ind; intros r tail k Hw Hk.
  { simpl. by rewrite Nat.add_0_r. }
  assert (Hlen : str_len (w ++ [c]) = str_len w + len_utf8 c).
  { clear. induction w as [|d w IH]; simpl; [lia|]. rewrite IH. lia. }
  rewrite rev_app_distr. cbn [rev app partial_go]. rewrite Hlen in Hk |- *.
  destruct (Nat.ltb_spec MAX_LOOKBACK (k + len_utf8 c)); [lia|].
  unfold no_open in Hw. rewrite elem_of_app in Hw.
  destruct (is_partial (c :: tail)) eqn:Hp.
  { exfalso. apply is_partial_shape in Hp as (u & [= -> _] & _); [|done]. apply Hw. right. left. }
  rewrite IH; [|by intros ?; apply Hw; left|lia].
  rewrite <- app_assoc. f_equal. lia.
Qed.

Lemma partial_go_sound r : forall tail k t, partial_go r tail k = Some t ->
  (exists x, rev r ++ tail = x ++ t) /\ is_partial t = true /\ t <> [].
Proof.
  induction r as [|c r IH]; intros tail k t; cbn [partial_go]; [done|].
  destruct (MAX_LOOKBACK <? k + len_utf8 c); [done|]. destruct (is_partial (c :: tail)) eqn:Hp.
  - intros [= <-]. split; [|done]. exists (rev r). simpl. by rewrite <- app_assoc.
  - intros Hr. destruct (IH _ _ _ Hr) as ([x Hx] & ? & ?). split; [|done]. exists x. simpl. by rewrite <- app_assoc.
Qed.

(** In clean pieces an opening bracket is followed by a closing one. *)
Lemma open_closed ps x w : clean ps -> flat ps = x ++ OPEN :: w -> ~ no_close w.
Proof.
  intros Hcl. revert x. induction Hcl as [|p ps Hp Hcl IH]; intros x He; [by destruct x|].
  destruct p as [c|n].
  - destruct x as [|d x]; simpl in He; apply cons_eq in He as [He1 He]; [by subst c|by eapply IH].
  - cbn [flat flat_map flat1] in He. fold (flat ps) in He. destruct x as [|d x].
    + rewrite placeholder_eq in He. simpl in He. apply cons_eq in He as [_ <-]. intros Hn. apply Hn. set_solver.
    + apply (open_past_token _ _ (d :: x)) in He as (u & _ & He); [|done]. by eapply IH.
Qed.

Lemma no_partial_clean ps : clean ps -> partial_placeholder_suffix (flat ps) = None.
Proof.
  intros Hcl. unfold partial_placeholder_suffix. destruct (partial_go (rev (flat ps)) [] 0) as [t|] eqn:Hp; [|done].
  apply partial_go_sound in Hp as ([x Hx] & Hp & Hne). rewrite app_nil_r, rev_involutive in Hx.
  apply is_partial_shape in Hp as (w & -> & Hw); [|done]. exfalso. by eapply open_closed.
Qed.

(** Placeholders whose number has at most sixteen digits fit the look-back. *)
Definition small (p : piece) : Prop :=
  match p with inl _ => True | inr n => length (decimal n) <= 16 end.

Lemma str_len_ascii t : Forall (fun c => (c < 128)%N) t -> str_len t = length t.
Proof.
  induction 1 as [|c t Hc _ IH]; simpl; [done|]. rewrite IH. unfold len_utf8.
  by destruct (N.ltb_spec c 128); [|lia].
Qed.

Lemma word_ascii n : Forall (fun c => (c < 128)%N) (word n).
Proof.
  rewrite word_digits. apply Forall_app. split; [apply SECRET_ascii|].
  eapply Forall_impl; [apply decimal_digits|]. intros c Hc. unfold is_ascii_digit in Hc.
  apply andb_true_iff in Hc as [_ Hc]. apply N.leb_le in Hc. lia.
Qed.

Lemma part_found E n w x : word n = w ++ x -> length (decimal n) <= 16 ->
  partial_placeholder_suffix (E ++ OPEN :: w) = Some (OPEN :: w).
Proof.
  intros Hw Hn. unfold partial_placeholder_suffix. rewrite rev_app_distr. simpl rev. rewrite <- app_assoc.
  assert (Hlen : str_len w <= 23).
  { pose proof (word_ascii n) as Ha. rewrite Hw in Ha. apply Forall_app in Ha as [Ha _].
    rewrite str_len_ascii by done. apply (f_equal length) in Hw. rewrite word_digits, !length_app in Hw.
    rewrite SECRET_length in Hw. unfold char in *. lia. }
  assert (Hm : MAX_LOOKBACK = 26) by reflexivity.
  rewrite partial_go_scan; [|by eapply word_part_no_open|lia].
  cbn [app partial_go]. rewrite app_nil_r. change (len_utf8 OPEN) with 3.
  destruct (Nat.ltb_spec MAX_LOOKBACK (0 + str_len w + 3)); [lia|].
  by rewrite (part_is_partial n w x).
Qed.

Lemma incremental_pieces ss p1 part p2 : Forall no_open ss -> clean p1 -> Forall small p2 -> cut_part part p2 ->
  restore_incremental (flat p1 ++ part) (minted ss) = (flat (subst ss p1), part).
Proof.
  intros Hop Hcl Hsm Hc. unfold restore_incremental.
  assert (Hq : quiet part).
  { destruct Hc as [->|(n & rest & k & _ & Hph & Hk & Hp)]; [apply quiet_nil|].
    destruct (part_shape n part k Hph Hk Hp) as (w & x & -> & Hw).
    apply quiet_no_close. unfold no_close. rewrite elem_of_cons. intros [?|Hin]; [done|].
    by eapply word_part_no_close. }
  rewrite restore_pieces by done.
  destruct Hc as [->|(n & rest & k & -> & Hph & Hk & Hp)].
  - rewrite app_nil_r, no_partial_clean; [done|]. by apply subst_clean.
  - destruct (part_shape n part k Hph Hk Hp) as (w & x & -> & Hw).
    apply Forall_cons in Hsm as [Hsm _]. rewrite (part_found _ n w x Hw Hsm).
    rewrite length_app. replace (length (flat (subst ss p1)) + length (OPEN :: w) - length (OPEN :: w))
      with (length (flat (subst ss p1))) by lia.
    by rewrite take_app_length, drop_app_length.
Qed.

Lemma stream_pieces ss chunks : forall carry ps,
  Forall no_open ss -> clean ps -> Forall small ps -> carry ++ concat chunks = flat ps ->
  restore_stream chunks carry (minted ss) = flat (subst ss ps).
Proof.
  induction chunks as [|c chunks IH]; intros carry ps Hop Hcl Hsm He.
  { simpl in He. rewrite app_nil_r in He. cbn [restore_stream]. unfold restore_finalize.
    rewrite He. simpl app. rewrite <- (app_nil_r (flat ps)), restore_pieces; [|done..|apply quiet_nil].
    by rewrite app_nil_r. }
  cbn [concat restore_stream] in *. rewrite app_assoc in He.
  apply split_pieces in He as (p1 & part & p2 & -> & -> & Hp & Hc).
  apply clean_app in Hcl as [Hcl1 Hcl2]. apply Forall_app in Hsm as [Hsm1 Hsm2].
  rewrite (incremental_pieces ss p1 part p2) by done.
  rewrite (IH part p2) by done. by rewrite subst_app, flat_app.
Qed.

(** C6. Streaming agrees with batch: a reply in which the opening bracket of
    placeholders stands only at the beginning of a placeholder, of a number of at most
    sixteen digits, restores to the same text however the stream cuts it into chunks,
    also inside placeholders; no secret holds that bracket.  With a stray bracket the
    two may differ ([stray_bracket_differs]). *)
Theorem stream_is_batch ss ps chunks :
  Forall no_open ss -> clean ps -> Forall small ps -> concat chunks = flat ps ->
  restore_stream chunks [] (minted ss) = re_text (restore (concat chunks) (minted ss)).
Proof.
  intros Hop Hcl Hsm He. rewrite (stream_pieces ss chunks [] ps) by done.
  rewrite He, <- (app_nil_r (flat ps)), restore_pieces by (done || apply quiet_nil). by rewrite app_nil_r.
Qed.

(** A placeholder inside another's brackets: the stream sends the outer beginning
    before the inner one is whole, the batch restores the one that results. *)
Example stray_bracket_differs :
  let m := minted [utf8 "2"; utf8 "hunter2"] in
  let nested := PLACEHOLDER_PREFIX ++ placeholder 1 ++ PLACEHOLDER_SUFFIX in
  let cut := length PLACEHOLDER_PREFIX + 3 in
  re_text (restore nested m) = utf8 "hunter2"
  /\ restore_stream [take cut nested; drop cut nested] [] m = PLACEHOLDER_PREFIX ++ utf8 "2" ++ PLACEHOLDER_SUFFIX.
Proof. split; by vm_compute. Qed.

(** ** Leftovers *)

(** The placeholder grammar. *)
Definition is_token (t : text) : Prop :=
  exists ds, ds <> [] /\ digits ds /\ t = PLACEHOLDER_PREFIX ++ ds ++ PLACEHOLDER_SUFFIX.

Lemma token_eq ds : PLACEHOLDER_PREFIX ++ ds ++ PLACEHOLDER_SUFFIX = OPEN :: SECRET_ ++ ds ++ [CLOSE].
Proof. by rewrite prefix_eq, suffix_eq. Qed.

(** An opening bracket past the head of a bracketed run is past the run. *)
Lemma open_past body t u v : no_open body ->
  (OPEN :: body) ++ t = u ++ OPEN :: v -> u <> [] -> exists u', u = (OPEN :: body) ++ u' /\ t = u' ++ OPEN :: v.
Proof.
  intros Hb He Hu. apply app_eq_inv in He as [(k & Hk & He)|(k & -> & ->)]; [|by exists k].
  destruct k as [|c k]; [rewrite app_nil_r in Hk; exists []; by rewrite app_nil_r, Hk|].
  simpl in He. apply cons_eq in He as [<- ->]. exfalso. destruct u as [|x u]; [done|].
  simpl in Hk. apply cons_eq in Hk as [_ Hk]. apply Hb. rewrite Hk. set_solver.
Qed.

(** From the leftmost opener on, every token is still to be seen. *)
Lemma token_from_opener x rest n : is_token x -> find rest PLACEHOLDER_PREFIX = Some n ->
  infix x rest <-> infix x (drop n rest).
Proof.
  intros (ds & _ & _ & ->) Hf. rewrite token_eq. split.
  - intros (u & v & He). apply find_Some in Hf as Hf'. destruct Hf' as (u0 & v0 & _ & _).
    destruct (find_infix rest PLACEHOLDER_PREFIX u (ds ++ [CLOSE] ++ v)) as (n' & Hf' & Hle).
    { rewrite He, prefix_eq. simpl. by rewrite <- !app_assoc. }
    rewrite Hf in Hf'. injection Hf' as <-. exists (drop n u), v.
    rewrite He, drop_app_le by done. done.
  - intros Hi. rewrite <- (take_drop n rest). by apply infix_app_l.
Qed.

Lemma find_close_split s e : find s PLACEHOLDER_SUFFIX = Some e ->
  exists y z, s = y ++ CLOSE :: z /\ length y = e /\ no_close y.
Proof.
  rewrite suffix_eq. intros Hf. apply find_Some in Hf as Hf'. destruct Hf' as (y & z & He & Hl).
  exists y, z. split_and!; [done..|]. intros Hin. apply list_elem_of_split in Hin as (y1 & y2 & Hy).
  destruct (find_infix s [CLOSE] y1 (y2 ++ CLOSE :: z)) as (n' & Hn & Hle).
  { rewrite He, Hy. by rewrite <- app_assoc. }
  rewrite Hf in Hn. injection Hn as <-. rewrite Hy, length_app in Hl. simpl in Hl. lia.
Qed.

(** What follows an opener, up to the first closing bracket. *)
Lemma opener_shape s e : find s PLACEHOLDER_SUFFIX = Some e -> (exists v, s = OPEN :: SECRET_ ++ v) ->
  exists inner z, s = OPEN :: SECRET_ ++ inner ++ CLOSE :: z /\ e = length (OPEN :: SECRET_ ++ inner) /\ no_close inner.
Proof.
  intros Hf [v Hv]. apply find_close_split in Hf as (y & z & Hs & Hl & Hy). rewrite Hv in Hs.
  change (OPEN :: SECRET_ ++ v) with ((OPEN :: SECRET_) ++ v) in Hs.
  apply app_eq_inv in Hs as [(k & Hk & He)|(k & -> & ->)].
  - destruct k as [|c k].
    + rewrite app_nil_r in Hk. simpl in He. exists [], z. subst y. rewrite Hv, <- He. simpl. rewrite !app_nil_r. split_and!; [done|by rewrite <- Hl|apply not_elem_of_nil].
    + simpl in He. apply cons_eq in He as [<- _]. exfalso. destruct y as [|d y]; simpl in Hk; apply cons_eq in Hk as [? Hk]; [done|].
      apply SECRET_no_close. rewrite Hk. set_solver.
  - exists k, z. split_and!; [by rewrite Hv|by rewrite <- Hl|]. intros Hin. apply Hy. set_solver.
Qed.

(** The tokens of an opener followed by digits and a closing bracket. *)
Lemma tokens_after_token x inner z : is_token x -> digits inner ->
  infix x (OPEN :: SECRET_ ++ inner ++ CLOSE :: z) <-> x = OPEN :: SECRET_ ++ inner ++ [CLOSE] \/ infix x z.
Proof.
  intros (ds & _ & Hds & ->) Hin. rewrite token_eq. split.
  - intros (k & v & He). destruct k as [|c k].
    + simpl in He. apply cons_eq in He as [_ He]. rewrite <- app_assoc in He. apply app_inv_head in He.
      rewrite <- app_assoc in He. simpl in He. apply split_unique in He as [-> _]; [by left|by apply digits_no_close..].
    + right. assert (Hb : no_open (SECRET_ ++ inner ++ [CLOSE])).
      { unfold no_open. rewrite !elem_of_app. intros [Hi|[Hi|Hi]];
          [by apply SECRET_no_open in Hi|by apply digits_no_open in Hi|by apply list_elem_of_singleton in Hi]. }
      destruct (open_past (SECRET_ ++ inner ++ [CLOSE]) z (c :: k) ((SECRET_ ++ ds ++ [CLOSE]) ++ v) Hb) as (u' & _ & ->); [|done|].
      { etrans; [|exact He]. simpl. by rewrite <- !app_assoc. }
      by exists u', v.
  - intros [->|(u & v & ->)].
    + exists [], z. simpl. by rewrite <- !app_assoc.
    + exists (OPEN :: SECRET_ ++ inner ++ CLOSE :: u), v. simpl. by rewrite <- !app_assoc.
Qed.

Lemma tokens_after_opener x inner z : is_token x -> no_close inner -> (inner = [] \/ ~ digits inner) ->
  infix x (OPEN :: SECRET_ ++ inner ++ CLOSE :: z) <-> infix x (inner ++ CLOSE :: z).
Proof.
  intros (ds & Hne & Hds & ->) Hcl Hbad. rewrite token_eq. split.
  - intros (k & v & He). destruct k as [|c k].
    + exfalso. simpl in He. apply cons_eq in He as [_ He]. rewrite <- app_assoc in He. apply app_inv_head in He.
      rewrite <- app_assoc in He. simpl in He. apply split_unique in He as [-> _]; [|done|by apply digits_no_close].
      by destruct Hbad.
    + destruct (open_past SECRET_ (inner ++ CLOSE :: z) (c :: k) ((SECRET_ ++ ds ++ [CLOSE]) ++ v) SECRET_no_open) as (u' & _ & Hz); [|done|].
      { exact He. }
      rewrite Hz. by exists u', v.
  - intros Hi. apply (infix_app_l _ (OPEN :: SECRET_)) in Hi. done.
Qed.

Lemma no_token_no_close x t : is_token x -> no_close t -> ~ infix x t.
Proof.
  intros (ds & _ & _ & ->) Hn (u & v & ->). rewrite token_eq in Hn. apply Hn. set_solver.
Qed.

Lemma digits_forallb ds : forallb is_ascii_digit ds = true <-> digits ds.
Proof. unfold digits. rewrite forallb_forall, Forall_forall. by setoid_rewrite list_elem_of_In. Qed.

Lemma add_found {A} `{EqDecision A} (x y : A) (l : list A) :
  x ∈ (if bool_decide (y ∈ l) then l else l ++ [y]) <-> x ∈ l \/ x = y.
Proof. case_bool_decide; [naive_solver|]. rewrite elem_of_app, list_elem_of_singleton. done. Qed.

Lemma NoDup_found {A} `{EqDecision A} (y : A) (l : list A) :
  NoDup l -> NoDup (if bool_decide (y ∈ l) then l else l ++ [y]).
Proof.
  intros Hl. case_bool_decide; [done|]. apply NoDup_app. split_and!; [done| |apply NoDup_singleton].
  by intros x Hx ->%list_elem_of_singleton.
Qed.

Lemma tokens_go_spec fuel : forall rest found, length rest < fuel -> NoDup found ->
  NoDup (tokens_go fuel rest found) /\
  forall x, x ∈ tokens_go fuel rest found <-> x ∈ found \/ (is_token x /\ infix x rest).
Proof.
  induction fuel as [|f IH]; intros rest found Hlen Hnd; [lia|]. cbn [tokens_go].
  destruct (find rest PLACEHOLDER_PREFIX) as [pos|] eqn:Hpos.
  2: { split; [done|]. intros x. split; [by left|]. intros [|[(ds & _ & _ & ->) (u & v & ->)]]; [done|exfalso].
       apply find_None in Hpos. apply Hpos. exists u, ((ds ++ PLACEHOLDER_SUFFIX) ++ v). by rewrite <- !app_assoc. }
  assert (Hs : exists v, drop pos rest = OPEN :: SECRET_ ++ v).
  { apply find_Some in Hpos as (u & v & -> & <-). exists v. by rewrite drop_app_length, prefix_eq. }
  assert (Hld : length (drop pos rest) <= length rest) by (rewrite length_drop; lia).
  assert (Hinf : forall x, is_token x -> infix x rest <-> infix x (drop pos rest)).
  { intros x Hx. by apply token_from_opener. }
  revert Hs Hld Hinf. generalize (drop pos rest) as s. intros s Hs Hld Hinf.
  destruct (find s PLACEHOLDER_SUFFIX) as [e|] eqn:He.
  2: { split; [done|]. intros x. split; [by left|]. intros [|[Hx Hi]]; [done|exfalso]. apply Hinf in Hi; [|done].
       apply find_None in He. rewrite suffix_eq in He. eapply no_token_no_close; [done| |exact Hi].
       intros Hin. apply He. apply list_elem_of_split in Hin as (a & b & ->). by exists a, b. }
  destruct (opener_shape s e He Hs) as (inner & z & -> & -> & Hcl).
  assert (Hslice : slice (OPEN :: SECRET_ ++ inner ++ CLOSE :: z) (length PLACEHOLDER_PREFIX)
     (length (OPEN :: SECRET_ ++ inner)) = inner).
  { unfold slice. rewrite prefix_eq, drop_prefix. simpl length. rewrite length_app.
    replace (_ - _) with (length inner) by lia. apply take_app_length. }
  rewrite Hslice, suffix_eq.
  assert (Hdrop : drop (length (OPEN :: SECRET_ ++ inner) + length [CLOSE]) (OPEN :: SECRET_ ++ inner ++ CLOSE :: z) = z).
  { replace (OPEN :: SECRET_ ++ inner ++ CLOSE :: z) with ((OPEN :: SECRET_ ++ inner ++ [CLOSE]) ++ z)
      by (simpl; by rewrite <- !app_assoc).
    rewrite drop_app_ge; simpl length; rewrite !length_app; simpl; [|lia].
    by replace (_ - _) with 0 by lia. }
  assert (Htake : take (length (OPEN :: SECRET_ ++ inner) + length [CLOSE]) (OPEN :: SECRET_ ++ inner ++ CLOSE :: z)
     = OPEN :: SECRET_ ++ inner ++ [CLOSE]).
  { replace (OPEN :: SECRET_ ++ inner ++ CLOSE :: z) with ((OPEN :: SECRET_ ++ inner ++ [CLOSE]) ++ z)
      by (simpl; by rewrite <- !app_assoc).
    apply take_app_length'. simpl. rewrite !length_app. simpl. lia. }
  rewrite Hdrop, Htake, prefix_eq, drop_prefix.
  simpl length in Hld. rewrite !length_app in Hld. simpl in Hld.
  destruct (negb (bool_decide (inner = [])) && forallb is_ascii_digit inner) eqn:Htok.
  - apply andb_true_iff in Htok as [Hne Hd]. apply negb_true_iff, bool_decide_eq_false in Hne.
    apply digits_forallb in Hd.
    destruct (IH z (if bool_decide ((OPEN :: SECRET_ ++ inner ++ [CLOSE]) ∈ found) then found
       else found ++ [OPEN :: SECRET_ ++ inner ++ [CLOSE]])) as [Hn Hx]; [lia|by apply NoDup_found|].
    split; [done|]. intros x. rewrite Hx, add_found.
    split.
    + intros [[Hf| ->]|[Ht Hi]]; [by left|right|right].
      * assert (Ht : is_token (OPEN :: SECRET_ ++ inner ++ [CLOSE])) by (exists inner; by rewrite token_eq).
        split; [done|]. apply Hinf; [done|]. apply tokens_after_token; [done..|by left].
      * split; [done|]. apply Hinf; [done|]. apply tokens_after_token; [done..|by right].
    + intros [|[Ht Hi]]; [by left; left|]. apply Hinf in Hi; [|done].
      apply tokens_after_token in Hi as [Hi|Hi]; [by left; right|by right|done|done].
  - assert (Hbad : inner = [] \/ ~ digits inner).
    { apply andb_false_iff in Htok as [Htok|Htok]; [left|right].
      - apply negb_false_iff in Htok. by apply bool_decide_eq_true in Htok.
      - rewrite <- digits_forallb. congruence. }
    destruct (IH (inner ++ CLOSE :: z) found) as [Hn Hx]; [rewrite length_app; simpl; lia|done|].
    split; [done|]. intros x. rewrite Hx. apply or_iff_compat_l.
    split; (intros [Ht Hi]; split; [done|]).
    + apply Hinf; [done|]. by apply tokens_after_opener.
    + apply Hinf in Hi; [|done]. by apply tokens_after_opener in Hi.
Qed.

(** The leftovers are exact: [restore] reports, once each, precisely the
    placeholder-shaped tokens that stand in the text it answers. *)
Theorem leftovers_exact t m x :
  NoDup (re_leftovers (restore t m)) /\
  (x ∈ re_leftovers (restore t m) <-> is_token x /\ infix x (re_text (restore t m))).
Proof.
  unfold restore. simpl. unfold placeholder_tokens.
  destruct (tokens_go_spec (S (length (restore_rounds RESTORE_ROUNDS m t))) (restore_rounds RESTORE_ROUNDS m t) [])
    as [Hnd Hx]; [lia|constructor|]. split; [done|]. rewrite Hx. split; [|by right]. by intros [?%elem_of_nil|].
Qed.

(** ** Environments *)

Definition benign (config : EnvScrubConfig) (n : text) : Prop :=
  is_secret_var n config = false /\ is_loader_injection_var n = false.

Abbreviation put := (fun (env : gmap text text) '(k, v) => <[k := v]> env).

Lemma put_all_notin l : forall env k, k ∉ l.*1 -> fold_left put l env !! k = env !! k.
Proof.
  induction l as [|[k' v'] l IH]; intros env k Hk; [done|]. apply not_elem_of_cons in Hk as [Hne Hk].
  cbn [fold_left]. rewrite IH by done. simpl in Hne. by rewrite lookup_insert_ne.
Qed.

Lemma put_all_in l : forall env k v, NoDup l.*1 -> (k, v) ∈ l -> fold_left put l env !! k = Some v.
Proof.
  induction l as [|[k' v'] l IH]; intros env k v Hnd Hin; [by apply elem_of_nil in Hin|].
  apply NoDup_cons in Hnd as [Hn Hnd]. cbn [fold_left]. apply elem_of_cons in Hin as [[= -> ->]|Hin]; [|by apply IH].
  rewrite put_all_notin by done. by rewrite lookup_insert_eq.
Qed.

Lemma NoDup_fst_filter {A B} (P : A * B -> Prop) `{forall x, Decision (P x)} (l : list (A * B)) :
  NoDup l.*1 -> NoDup (filter P l).*1.
Proof.
  intros Hnd. eapply sublist_NoDup; [exact Hnd|]. apply fmap_sublist, sublist_filter.
Qed.

Lemma scrubbed_env_lookup parent inject config k :
  NoDup parent.*1 ->
  scrubbed_env parent inject config !! k =
    if decide (benign config k) then
      match inject !! k with Some v => Some v | None => (list_to_map parent : gmap text text) !! k end
    else None.
Proof.
  intros Hnd. unfold scrubbed_env. rewrite fold_left_app.
  set (P := fun '(n, _) => is_secret_var n config = false /\ is_loader_injection_var n = false).
  set (kept := filter P parent). set (inj := filter P (map_to_list inject)).
  assert (Hk : forall l : list (text * text), k ∈ (filter P l).*1 -> benign config k).
  { intros l ([n v] & -> & Hin)%list_elem_of_fmap. by apply list_elem_of_filter in Hin as [? _]. }
  assert (Hinj : NoDup inj.*1) by apply NoDup_fst_filter, NoDup_fst_map_to_list.
  case_decide as Hb.
  2: { rewrite put_all_notin by (intros Hin; by apply Hb, (Hk (map_to_list inject))).
       rewrite put_all_notin by (intros Hin; by apply Hb, (Hk parent)). done. }
  destruct (inject !! k) as [v|] eqn:Hv.
  - apply put_all_in; [done|]. apply list_elem_of_filter. split; [done|by apply elem_of_map_to_list].
  - rewrite put_all_notin.
    2: { intros ([n v] & -> & Hin)%list_elem_of_fmap. apply list_elem_of_filter in Hin as [_ Hin].
         apply elem_of_map_to_list in Hin. simpl in Hv. congruence. }
    destruct ((list_to_map parent : gmap text text) !! k) as [v|] eqn:Hl.
    + apply elem_of_list_to_map_2 in Hl. apply put_all_in; [by apply NoDup_fst_filter|].
      by apply list_elem_of_filter.
    + apply not_elem_of_list_to_map_2 in Hl. rewrite put_all_notin; [done|].
      intros ([n v] & -> & Hin)%list_elem_of_fmap. apply Hl. apply list_elem_of_filter in Hin as [_ Hin].
      apply list_elem_of_fmap. by exists (n, v).
Qed.

(** Child environments hold no secret: [scrubbed_env] passes no
    secret-named and no loader-injection variable, from the parent or from the
    caller, and passes every other one, the caller's values taking priority. *)
Theorem scrubbed_env_exact parent inject config k :
  NoDup parent.*1 ->
  scrubbed_env parent inject config !! k =
    if decide (benign config k) then
      match inject !! k with Some v => Some v | None => (list_to_map parent : gmap text text) !! k end
    else None.
Proof. apply scrubbed_env_lookup. Qed.

(** ** Witnesses *)

Definition demo_reply : list piece := chars (utf8 "use ") ++ [inr 1] ++ chars (utf8 " and ") ++ [inr 7].
Definition demo_chunks : list text := [utf8 "use ⟦SEC"; utf8 "RET_1⟧ and ⟦SECRET_"; utf8 "7⟧"].

Lemma stream_is_batch_witness :
  restore_stream demo_chunks [] (minted [utf8 "ghp_0123456789"]) =
  re_text (restore (concat demo_chunks) (minted [utf8 "ghp_0123456789"])).
Proof.
  apply (stream_is_batch [utf8 "ghp_0123456789"] demo_reply demo_chunks).
  - apply Forall_singleton. apply (bool_decide_eq_true (OPEN ∉ utf8 "ghp_0123456789")). vm_compute. reflexivity.
  - unfold clean. apply (bool_decide_eq_true (Forall (fun p => p <> inl OPEN) demo_reply)). vm_compute. reflexivity.
  - repeat constructor; vm_compute; lia.
  - vm_compute. reflexivity.
Defined.

Definition demo_env_config : EnvScrubConfig := {| extra_scrub := []; allowlist := [] |}.

Lemma scrubbed_env_exact_witness :
  scrubbed_env [(utf8 "PATH", utf8 "/bin"); (utf8 "my_api_key", utf8 "s3cret")] ∅ demo_env_config !! utf8 "my_api_key" = None.
Proof.
  etransitivity.
  - apply (scrubbed_env_exact [(utf8 "PATH", utf8 "/bin"); (utf8 "my_api_key", utf8 "s3cret")] ∅ demo_env_config (utf8 "my_api_key")).
    apply (bool_decide_eq_true (NoDup _)). vm_compute. reflexivity.
  - vm_compute. reflexivity.
Defined.
