(* ===== verification/Router.v ===== *)
(** * The LLM router

    Models [crates/zen-provider/src/router.rs]: provider names, the lazily
    built provider cache and its key resolution, sensitivity enforcement,
    preference routing, the fallback chain, the stream options, the guarded
    calls and the guarded stream with its channels.  Credential stores and
    provider connections are classes; provider names are ASCII strings, and
    prompts and replies are texts. *)

From S2P Require Import Prelude Types Text Secrets.
From Stdlib Require Import Lia SpecFloat.
Local Open Scope string_scope.

(** ** Names *)

Inductive Provider :=
  | OpenAI | Anthropic | DeepSeek | Aliyun | Mistral | Groq | Moonshot | XAI
  | Perplexity | Gemini | QQBot | Ollama | Mock
  | Unknown (name : string).

#[export] Instance Provider_eq_dec : EqDecision Provider.
Proof. solve_decision. Defined.

(** [Display]. *)
Definition provider_str (p : Provider) : string :=
  match p with
  | OpenAI => "openai" | Anthropic => "anthropic" | DeepSeek => "deepseek" | Aliyun => "aliyun"
  | Mistral => "mistral" | Groq => "groq" | Moonshot => "moonshot" | XAI => "xai"
  | Perplexity => "perplexity" | Gemini => "gemini" | QQBot => "qqbot" | Ollama => "ollama"
  | Mock => "mock" | Unknown name => name
  end.

(** [str::to_lowercase] on ASCII. *)
Definition lower_ascii (a : Ascii.ascii) : Ascii.ascii :=
  let n := Ascii.nat_of_ascii a in
  if ((65 <=? n) && (n <=? 90))%nat then Ascii.ascii_of_nat (n + 32) else a.
Fixpoint to_lowercase (s : string) : string :=
  match s with
  | EmptyString => EmptyString
  | String a s' => String (lower_ascii a) (to_lowercase s')
  end.

Definition one_of (s : string) (l : list string) : bool := existsb (String.eqb s) l.

Definition parse_provider_name (name : string) : Provider :=
  let n := to_lowercase name in
  if one_of n ["openai"; "oa"] then OpenAI
  else if one_of n ["anthropic"; "an"] then Anthropic
  else if one_of n ["deepseek"; "ds"; "deep_seek"] then DeepSeek
  else if one_of n ["aliyun"; "qwen"; "alibaba"] then Aliyun
  else if one_of n ["mistral"; "mi"] then Mistral
  else if one_of n ["groq"] then Groq
  else if one_of n ["moonshot"; "ms"] then Moonshot
  else if one_of n ["xai"] then XAI
  else if one_of n ["perplexity"] then Perplexity
  else if one_of n ["gemini"; "ge"] then Gemini
  else if one_of n ["qq"; "qqbot"; "qq_bot"] then QQBot
  else if one_of n ["ollama"; "local"; "ollama-local"] then Ollama
  else if one_of n ["mock"] then Unknown "mock"
  else Unknown n.

(** ** Errors *)

Inductive LlmError :=
  | ProviderUnavailable (provider reason : string)
  | Routing (reason : string)
  | Call (reason : string).

Definition is_transient (e : LlmError) : bool :=
  match e with ProviderUnavailable _ _ | Call _ => true | Routing _ => false end.

Inductive RetryClass := Transient | Permanent.

(** [DefaultLlmRetryClassifier::classify]. *)
Definition classify (e : LlmError) : RetryClass :=
  match e with
  | ProviderUnavailable _ _ | Call _ => Transient
  | Routing _ => Permanent
  end.

(** ** Configuration *)

Record ModelOptions := {
  temperature : option spec_float;
  max_tokens : option N;
  reasoning_effort : option string;
  top_p : option spec_float;
  mo_model : option string;
}.
Definition default_options : ModelOptions :=
  {| temperature := None; max_tokens := None; reasoning_effort := None; top_p := None; mo_model := None |}.

Record VariantConfig := { vc_temperature : option spec_float; vc_max_tokens : option N }.

Record ModelEntry := { me_options : option ModelOptions; me_variants : gmap string VariantConfig }.

Record ProviderConfig := {
  provider_type : option string;
  base_url : option string;
  default_model : option string;
  api_key : option string;
  api_key_env : option string;
  models : gmap string ModelEntry;
}.

Record FallbackStep := { fs_provider : string; fs_model : option string }.
Record AgentConfig := {
  ag_provider : option string;
  ag_model : option string;
  ag_fallbacks : list FallbackStep;
}.

Record ZenConfig := {
  default_provider : option string;
  cfg_default_model : option string;
  providers : gmap string ProviderConfig;
  agents : gmap string AgentConfig;
}.

Inductive LlmPreference := Any | LocalOnly | CloudOnly | PreferProvider (name : string).

Inductive TaskContext := NotionExtraction | ContradictionDetection | Synthesis | Dispatch | Default_.
Definition config_key (t : TaskContext) : string :=
  match t with
  | NotionExtraction => "notion_extraction" | ContradictionDetection => "contradiction_detection"
  | Synthesis => "synthesis" | Dispatch => "dispatch" | Default_ => "default"
  end.

(** [zen_core::constants]. *)
Definition OLLAMA_BASE_URL := "http://127.0.0.1:11434".
Definition OPENAI_BASE_URL := "https://api.openai.com/v1".
Definition OLLAMA_DEFAULT_MODEL := "qwen3-coder".
Definition OPENAI_DEFAULT_MODEL := "gpt-4o-mini".
Definition ANTHROPIC_DEFAULT_MODEL := "claude-haiku-4-5".
Definition COHERE_DEFAULT_MODEL := "command-r".
Definition GEMINI_DEFAULT_MODEL := "gemini-2.0-flash".
Definition MISTRAL_DEFAULT_MODEL := "mistral-large-latest".

(** ** Provider instances *)

Inductive ProviderInstance :=
  | IAnthropic (key model : string)
  | IAnthropicCompatible (key model base : string)
  | ICohere (key model : string)
  | IGemini (key model : string)
  | IMistral (key model : string)
  | IOllama (base model : string)
  | IOpenAICompatible (key model base : string)
  | IMock.

Definition create_provider_instance_with_key (cfg : ProviderConfig) (key : option string)
    : option ProviderInstance :=
  let ty := default "openai-compatible" (provider_type cfg) in
  let model_or d := default d (default_model cfg) in
  if String.eqb ty "ollama" then
    Some (IOllama (default OLLAMA_BASE_URL (base_url cfg)) (model_or OLLAMA_DEFAULT_MODEL))
  else if String.eqb ty "mock" then Some IMock
  else if String.eqb ty "anthropic" then
    k ← key; Some (IAnthropic k (model_or ANTHROPIC_DEFAULT_MODEL))
  else if String.eqb ty "anthropic-compatible" then
    k ← key; b ← base_url cfg; Some (IAnthropicCompatible k (model_or ANTHROPIC_DEFAULT_MODEL) b)
  else if String.eqb ty "cohere" then k ← key; Some (ICohere k (model_or COHERE_DEFAULT_MODEL))
  else if String.eqb ty "gemini" then k ← key; Some (IGemini k (model_or GEMINI_DEFAULT_MODEL))
  else if String.eqb ty "mistral" then k ← key; Some (IMistral k (model_or MISTRAL_DEFAULT_MODEL))
  else if String.eqb ty "openai" then
    k ← key; Some (IOpenAICompatible k (model_or OPENAI_DEFAULT_MODEL) (default OPENAI_BASE_URL (base_url cfg)))
  else
    k ← key; b ← base_url cfg; Some (IOpenAICompatible k (model_or OPENAI_DEFAULT_MODEL) b).

(** The credential stores: the keychain-then-environment resolver by keychain
    name and variable, explicit secret references, and the environment. *)
Class Credentials := {
  secret_resolver : string -> string -> option string;
  resolve_secret_ref : string -> option string;
  env_var : string -> option string;
}.

(** The connections: whether the n-th health probe of an instance answers, and
    completions. *)
Class Wire := {
  health_check : nat -> ProviderInstance -> bool;
  complete : ProviderInstance -> text -> ModelOptions -> result text LlmError;
}.

(** [SecretRef::legacy_env_var]. *)
Definition upper_ascii (a : Ascii.ascii) : Ascii.ascii :=
  let n := Ascii.nat_of_ascii a in
  if ((97 <=? n) && (n <=? 122))%nat then Ascii.ascii_of_nat (n - 32) else a.
Fixpoint to_uppercase (s : string) : string :=
  match s with
  | EmptyString => EmptyString
  | String a s' => String (upper_ascii a) (to_uppercase s')
  end.
Definition legacy_env_var (provider : string) : string := to_uppercase provider ++ "_API_KEY".

(** ** The router *)

(** [config], [current_variant] and the mock reply are fixed; [cache] is
    [provider_cache].  [resolved] logs the providers whose API key was looked
    up, [probes] counts health probes, and [egress] logs the prompts handed to
    provider instances. *)
Record router := {
  config : ZenConfig;
  current_variant : option string;
  mock_response : text;
  cache : gmap string ProviderInstance;
  resolved : list string;
  probes : nat;
  egress : list (string * text);
}.

Definition with_cache (c : gmap string ProviderInstance) (r : router) : router :=
  {| config := config r; current_variant := current_variant r; mock_response := mock_response r;
     cache := c; resolved := resolved r; probes := probes r; egress := egress r |}.
Definition log_resolved (n : string) (r : router) : router :=
  {| config := config r; current_variant := current_variant r; mock_response := mock_response r;
     cache := cache r; resolved := (resolved r ++ [n])%list; probes := probes r; egress := egress r |}.
Definition log_probe (r : router) : router :=
  {| config := config r; current_variant := current_variant r; mock_response := mock_response r;
     cache := cache r; resolved := resolved r; probes := S (probes r); egress := egress r |}.
Definition log_egress (n : string) (prompt : text) (r : router) : router :=
  {| config := config r; current_variant := current_variant r; mock_response := mock_response r;
     cache := cache r; resolved := resolved r; probes := probes r; egress := (egress r ++ [(n, prompt)])%list |}.

(** [from_agentic]: only keyless providers are built. *)
Definition keyless (cfg : ProviderConfig) : bool :=
  one_of (default "" (provider_type cfg)) ["ollama"; "mock"].

Definition from_agentic (cfg : ZenConfig) : router :=
  {| config := cfg; current_variant := None; mock_response := utf8 "mock completion response";
     cache := omap (fun pc => if keyless pc then create_provider_instance_with_key pc None else None)
                (providers cfg);
     resolved := []; probes := 0; egress := [] |}.

Section router.
Context `{Credentials} `{Wire} `{Regex}.

Definition resolve_api_key (p : ProviderConfig) (name : string) : option string :=
  let default_env := legacy_env_var name in
  match secret_resolver ("zen-" ++ name ++ "-api-key") default_env with
  | Some key => Some key
  | None =>
    match (api_key p ≫= resolve_secret_ref) with
    | Some key => Some key
    | None => env_var (default default_env (api_key_env p))
    end
  end.

Definition provider_instance (name : string) (r : router) : option ProviderInstance * router :=
  match cache r !! name with
  | Some inst => (Some inst, r)
  | None =>
    match providers (config r) !! name with
    | None => (None, r)
    | Some cfg =>
      let r1 := log_resolved name r in
      match create_provider_instance_with_key cfg (resolve_api_key cfg name) with
      | None => (None, r1)
      | Some inst => (Some inst, with_cache (<[name := inst]> (cache r1)) r1)
      end
    end
  end.

Definition is_local_llm_available (r : router) : bool * router :=
  match provider_instance "ollama" r with
  | (Some (IOllama b m), r1) => (health_check (probes r1) (IOllama b m), log_probe r1)
  | (_, r1) => (false, r1)
  end.

(** ** Routing *)

Definition resolve_provider (cfg : ZenConfig) (ctx : TaskContext) : option Provider :=
  match (agents cfg !! config_key ctx ≫= ag_provider) with
  | Some name => Some (parse_provider_name name)
  | None => parse_provider_name <$> default_provider cfg
  end.

Definition localhost (url : string) : bool :=
  starts_with (utf8 url) (utf8 "http://localhost") || starts_with (utf8 url) (utf8 "http://127.0.0.1").

Definition is_local (cfg : ZenConfig) (p : Provider) : bool :=
  match (providers cfg !! "ollama" ≫= base_url) with
  | Some bu => if localhost bu then true else bool_decide (p = Ollama)
  | None => bool_decide (p = Ollama)
  end.

Definition unavailable_error (p : Provider) (s : Sensitivity) : LlmError :=
  ProviderUnavailable (provider_str p)
    ("Local LLM unavailable. Start Ollama or configure a local provider. " ++ sensitivity_str s
       ++ " data cannot be routed to cloud.").

Definition enforce_sensitivity (p : Provider) (s : Sensitivity) (r : router)
    : result Provider LlmError * router :=
  match s with
  | Public => (Ok p, r)
  | _ =>
    let '(quick, r1) := if is_local (config r) p then is_local_llm_available r else (false, r) in
    if quick then (Ok p, r1)
    else
      let '(up, r2) := is_local_llm_available r1 in
      match (if up then resolve_provider (config r) NotionExtraction else None) with
      | Some local => if is_local (config r) local then (Ok local, r2) else (Err (unavailable_error p s), r2)
      | None => (Err (unavailable_error p s), r2)
      end
  end.

Definition none_error : LlmError :=
  ProviderUnavailable "none"
    "No provider configured; set default_provider and a [providers.<name>] section in config.toml (or run `zen provider`)".

Definition route (s : Sensitivity) (r : router) : result Provider LlmError * router :=
  match resolve_provider (config r) Default_ with
  | None => (Err none_error, r)
  | Some p => enforce_sensitivity p s r
  end.

Fixpoint route_with_preferences (s : Sensitivity) (prefs : list LlmPreference) (r : router)
    : result Provider LlmError * router :=
  match prefs with
  | [] => route s r
  | LocalOnly :: rest =>
    let '(up, r1) := is_local_llm_available r in
    if up then (Ok Ollama, r1) else route_with_preferences s rest r1
  | CloudOnly :: rest =>
    match default_provider (config r) with
    | Some name =>
      let p := parse_provider_name name in
      if is_local (config r) p then route_with_preferences s rest r else enforce_sensitivity p s r
    | None => route_with_preferences s rest r
    end
  | PreferProvider name :: _ => enforce_sensitivity (parse_provider_name name) s r
  | Any :: rest => route_with_preferences s rest r
  end.

Definition build_fallback_chain (cfg : ZenConfig) (agent_name : string) : list (Provider * option string) :=
  let agent := agents cfg !! agent_name in
  let primary :=
    match agent with
    | Some a => match ag_provider a with
                | Some name => [(parse_provider_name name, ag_model a)]
                | None => []
                end
    | None => []
    end in
  let steps :=
    match agent with
    | Some a => map (fun st => (parse_provider_name (fs_provider st), fs_model st)) (ag_fallbacks a)
    | None => []
    end in
  let chain := (primary ++ steps)%list in
  let chain :=
    match chain with
    | [] => match default_provider cfg with
            | Some name => [(parse_provider_name name, cfg_default_model cfg)]
            | None => []
            end
    | _ :: _ => chain
    end in
  (chain ++ [(Mock, None)])%list.

(** ** Options *)

Definition resolve_effective_options (r : router) (name : string) : option ModelOptions :=
  p ← providers (config r) !! name;
  m ← default_model p;
  entry ← models p !! m;
  let base := default default_options (me_options entry) in
  match (v ← current_variant r; me_variants entry !! v) with
  | Some v =>
    Some {| temperature := match vc_temperature v with Some t => Some t | None => temperature base end;
            max_tokens := match vc_max_tokens v with Some m => Some m | None => max_tokens base end;
            reasoning_effort := reasoning_effort base; top_p := top_p base; mo_model := mo_model base |}
  | None => Some base
  end.

Definition stream_options (r : router) (name : string) (model_override : option string) : ModelOptions :=
  let options := default default_options (resolve_effective_options r name) in
  match model_override with
  | Some m => {| temperature := temperature options; max_tokens := max_tokens options;
                 reasoning_effort := reasoning_effort options; top_p := top_p options; mo_model := Some m |}
  | None => options
  end.

(** ** Guarded calls *)

(** [secrets_guard_redact]; [vars] is the process environment and [enabled]
    the guard's configuration switch. *)
Definition secrets_guard_redact (enabled : bool) (vars : list (text * text)) (r : router)
    (p : Provider) (prompt : text) : text * option SecretMap :=
  if enabled && negb (is_local (config r) p) then
    let out := redact prompt (env_corpus vars) in
    match ro_map out with
    | [] => (ro_text out, None)
    | _ :: _ => (ro_text out, Some (ro_map out))
    end
  else (prompt, None).

Definition secrets_guard_restore (t : text) (m : option SecretMap) : text :=
  match m with None => t | Some m => re_text (restore t m) end.

(** [MockProvider::complete]. *)
Definition mock_complete (r : router) (task : string) (prompt : text) : text :=
  utf8 "[mock] task=" ++ utf8 task ++ utf8 " prompt_len=" ++ decimal (str_len prompt)
    ++ utf8 " reply=" ++ mock_response r.

Definition not_configured_error (name : string) : LlmError :=
  ProviderUnavailable name
    ("Provider '" ++ name ++ "' not configured. Add to ~/.zen/config.toml: [providers." ++ name ++ "]").

Definition call (enabled : bool) (vars : list (text * text)) (p : Provider) (prompt : text) (r : router)
    : result text LlmError * router :=
  let '(guarded, m) := secrets_guard_redact enabled vars r p prompt in
  let name := provider_str p in
  if String.eqb name "mock" then
    (Ok (secrets_guard_restore (mock_complete r "call" guarded) m), log_egress name guarded r)
  else
    let options := default default_options (resolve_effective_options r name) in
    match provider_instance name r with
    | (Some inst, r1) =>
      match complete inst guarded options with
      | Ok reply => (Ok (secrets_guard_restore reply m), log_egress name guarded r1)
      | Err e => (Err e, log_egress name guarded r1)
      end
    | (None, r1) => (Err (not_configured_error name), r1)
    end.

(** [list_providers] reads the configuration only. *)
Definition listed_model (cfg : ProviderConfig) : string :=
  match default_model cfg with
  | Some m => m
  | None =>
    let ty := default "" (provider_type cfg) in
    if String.eqb ty "ollama" then OLLAMA_DEFAULT_MODEL
    else if one_of ty ["anthropic"; "anthropic-compatible"] then ANTHROPIC_DEFAULT_MODEL
    else if String.eqb ty "gemini" then GEMINI_DEFAULT_MODEL
    else if String.eqb ty "mistral" then MISTRAL_DEFAULT_MODEL
    else OPENAI_DEFAULT_MODEL
  end.

Definition list_providers (cfg : ZenConfig) : list (string * string) :=
  let result := map (fun '(name, pc) => (name, listed_model pc)) (map_to_list (providers cfg)) in
  match result, default_provider cfg with
  | [], Some name => [(name, default OPENAI_DEFAULT_MODEL (cfg_default_model cfg))]
  | _, _ => result
  end.
End router.

(** ** Usage *)

Record SyncUsage := { input_tokens : N; output_tokens : N }.

Definition U64_MAX : N := 18446744073709551615.

(** [reconcile_usage]; the [u64] sum panics on overflow. *)
Definition reconcile_usage (usage : option SyncUsage) (fallback_input fallback_output : N)
    : outcome (N * N) :=
  match usage with
  | Some u =>
    let s := (input_tokens u + output_tokens u)%N in
    if (U64_MAX <? s)%N then Panic
    else if (0 <? s)%N then Done (input_tokens u, output_tokens u)
    else Done (fallback_input, fallback_output)
  | None => Done (fallback_input, fallback_output)
  end.

(** [estimate_tokens]. *)
Definition estimate_tokens (t : text) : nat := str_len t / 4.

(** ** Streams *)

(** A channel is named by a number; a [StreamResponse] holds the receivers of
    two of them. *)
Record StreamResponse := { token_rx : nat; done_rx : nat }.

(** The forwarder task of [guarded_stream_call]: what it receives, in order
    (the biased [select] takes a token before a done signal). *)
Inductive stream_event :=
  | Frame (t : text)                            (* inner_rx.recv() = Some *)
  | Closed (drained : option (result unit text)) (* None; the queued done result *)
  | DoneSignal (res : result unit text).

Record forwarder := {
  fw_carry : text;
  fw_pending : bool;                            (* pending_done is Some *)
  fw_tokens : list text;                        (* sent on outer_token_tx *)
  fw_done : list (result unit text);            (* sent on outer_done_tx *)
  fw_leftovers : list text;
  fw_running : bool;
}.

Definition forwarder0 : forwarder :=
  {| fw_carry := []; fw_pending := true; fw_tokens := []; fw_done := []; fw_leftovers := []; fw_running := true |}.

Definition emit_token (t : text) (l : list text) : list text :=
  match t with [] => l | _ :: _ => (l ++ [t])%list end.

Definition forward_step (m : SecretMap) (s : forwarder) (e : stream_event) : forwarder :=
  if negb (fw_running s) then s
  else match e with
  | Frame tok =>
    let '(emit, c) := restore_incremental (fw_carry s ++ tok) m in
    {| fw_carry := c; fw_pending := fw_pending s; fw_tokens := emit_token emit (fw_tokens s);
       fw_done := fw_done s; fw_leftovers := fw_leftovers s; fw_running := true |}
  | Closed drained =>
    let done := restore_finalize [] (fw_carry s) m in
    {| fw_carry := fw_carry s; fw_pending := false;
       fw_tokens := emit_token (re_text done) (fw_tokens s);
       fw_done := if fw_pending s then
                    (fw_done s ++ [default (Err (utf8 "stream closed before done signal")) drained])%list
                  else fw_done s;
       fw_leftovers := re_leftovers done; fw_running := false |}
  | DoneSignal res =>
    {| fw_carry := fw_carry s; fw_pending := false; fw_tokens := fw_tokens s;
       fw_done := if fw_pending s then (fw_done s ++ [res])%list else fw_done s;
       fw_leftovers := fw_leftovers s; fw_running := true |}
  end.

Definition forward (m : SecretMap) (events : list stream_event) : forwarder :=
  fold_left (forward_step m) events forwarder0.

(** What the calls leave behind: the channels created so far and the messages
    sent on each token channel. *)
Record channels := {
  next_chan : nat;
  sent : list (nat * text);
}.

(** [StreamResponse::new]: two fresh channels; the sender of the first is
    returned to the caller. *)
Definition new_stream (ch : channels) : StreamResponse * nat * channels :=
  let t := next_chan ch in
  ({| token_rx := t; done_rx := S t |}, t,
   {| next_chan := S (S t); sent := sent ch |}).

Definition send_all (c : nat) (toks : list text) (ch : channels) : channels :=
  {| next_chan := next_chan ch; sent := (sent ch ++ map (fun t => (c, t)) toks)%list |}.

(** [guarded_stream_call]: its own fresh response is returned (the senders of
    that response are dropped with the function's locals), while the forwarder
    sends what the producer's events make on the caller's channel. *)
Definition guarded_stream_call (m : SecretMap) (events : list stream_event) (outer_token_tx : nat)
    (ch : channels) : StreamResponse * channels :=
  let '(stream_resp, outer_token_tx_dup, ch1) := new_stream ch in
  (stream_resp, send_all outer_token_tx (fw_tokens (forward m events)) ch1).

(** The two tails of [call_stream_with_model]: with a map the guarded stream is
    returned, without one the producer sends its frames on the response's own
    channel. *)
Definition stream_tail (m : option SecretMap) (events : list stream_event) (ch : channels)
    : StreamResponse * channels :=
  let '(stream_resp, token_tx, ch1) := new_stream ch in
  match m with
  | Some m => guarded_stream_call m events token_tx ch1
  | None =>
    let frames := omap (fun e => match e with Frame t => Some t | _ => None end) events in
    (stream_resp, send_all token_tx frames ch1)
  end.

(** What the holder of a response receives. *)
Definition received (resp : StreamResponse) (ch : channels) : list text :=
  omap (fun '(c, t) => if bool_decide (c = token_rx resp) then Some t else None) (sent ch).
