(* ===== verification/RouterProps.v ===== *)
(** * What the router guarantees

    Locality of private data (and the configuration that defeats it), the
    guard on egress and its round trip, lazy key resolution, provider names,
    and the delivery of guarded streams. *)

From S2P Require Import Prelude Types Text Secrets SecretsPieces SecretsProps SecretsStream Router.
From Stdlib Require Import Lia.
Local Open Scope string_scope.

(** ** Names *)

Lemma lower_ascii_idem a : lower_ascii (lower_ascii a) = lower_ascii a.
Proof. by destruct a as [[] [] [] [] [] [] [] []]. Qed.

Lemma to_lowercase_idem s : to_lowercase (to_lowercase s) = to_lowercase s.
Proof. induction s as [|a s IH]; simpl; [done|]. by rewrite lower_ascii_idem, IH. Qed.

(** Provider names are stable: printing a parsed provider and parsing it
    again gives the same provider, for every name a configuration can hold. *)
Theorem provider_name_roundtrip name :
  parse_provider_name (provider_str (parse_provider_name name)) = parse_provider_name name.
Proof.
  unfold parse_provider_name at 2 3. set (n := to_lowercase name).
  assert (Hn : to_lowercase n = n) by apply to_lowercase_idem.
  repeat match goal with |- context [if one_of n ?l then _ else _] => destruct (one_of n l) eqn:?; [reflexivity|] end.
  simpl. unfold parse_provider_name. rewrite Hn.
  repeat match goal with H : one_of n ?l = false |- _ => rewrite H; clear H end. done.
Qed.

Section router.
Context `{HC : Credentials} `{HW : Wire} `{HR : Regex}.
Implicit Types (r : router) (p q : Provider).

(** ** Provider instances *)

Lemma provider_instance_config name r : config (provider_instance name r).2 = config r.
Proof.
  unfold provider_instance. destruct (cache r !! name); [done|].
  destruct (providers (config r) !! name) as [cfg|]; [|done].
  by destruct (create_provider_instance_with_key cfg _).
Qed.

Lemma available_config r : config (is_local_llm_available r).2 = config r.
Proof.
  unfold is_local_llm_available. pose proof (provider_instance_config "ollama" r) as Hc.
  by destruct (provider_instance "ollama" r) as [[[]|] r1].
Qed.

Lemma available_up r r' : is_local_llm_available r = (true, r') ->
  exists n b m, health_check n (IOllama b m) = true.
Proof.
  unfold is_local_llm_available. destruct (provider_instance "ollama" r) as [[[]|] r1]; try done.
  intros [= Hh _]. eauto.
Qed.

(** API keys are resolved lazily and once: looking a provider up resolves
    at most that provider's key, and none when it is already built or not
    configured; once built, a provider is found again without resolving. *)
Theorem key_resolved_once name r :
  let '(o, r') := provider_instance name r in
  resolved r' = (resolved r ++
    (if bool_decide (cache r !! name = None /\ providers (config r) !! name <> None) then [name] else []))%list /\
  (forall inst, o = Some inst -> provider_instance name r' = (Some inst, r')) /\
  (forall other, other <> name -> cache r' !! other = cache r !! other).
Proof.
  unfold provider_instance. destruct (cache r !! name) as [inst|] eqn:Hc.
  { rewrite bool_decide_eq_false_2 by naive_solver. rewrite app_nil_r. split_and!; try done.
    intros i [= <-]. by rewrite Hc. }
  destruct (providers (config r) !! name) as [cfg|] eqn:Hp.
  2: { rewrite bool_decide_eq_false_2 by naive_solver. by rewrite app_nil_r. }
  rewrite bool_decide_eq_true_2 by done.
  destruct (create_provider_instance_with_key cfg _) as [inst|]; [|done].
  split_and!; [done| |].
  - intros i [= <-]. simpl. by rewrite lookup_insert_eq.
  - intros other Ho. simpl. by rewrite lookup_insert_ne.
Qed.

(** The effects of a local-availability probe on the key log. *)
Lemma available_resolved r : exists l, resolved (is_local_llm_available r).2 = (resolved r ++ l)%list /\
  forall x, x ∈ l -> x = "ollama".
Proof.
  unfold is_local_llm_available, provider_instance. destruct (cache r !! "ollama") as [inst|].
  { exists []. rewrite app_nil_r. split; [by destruct inst|]. by intros ? ?%elem_of_nil. }
  destruct (providers (config r) !! "ollama") as [cfg|].
  2: { exists []. rewrite app_nil_r. split; [done|]. by intros ? ?%elem_of_nil. }
  exists ["ollama"]. split; [|by intros ? ?%list_elem_of_singleton].
  by destruct (create_provider_instance_with_key cfg _) as [[]|].
Qed.

Lemma enforce_resolved p s r : exists l, resolved (enforce_sensitivity p s r).2 = (resolved r ++ l)%list /\
  forall x, x ∈ l -> x = "ollama".
Proof.
  assert (Hnil : forall x : string, x ∈ [] -> x = "ollama") by by intros ? ?%elem_of_nil.
  destruct s; simpl; [by exists []; rewrite app_nil_r| |].
  all: destruct (is_local (config r) p).
  all: try (destruct (available_resolved r) as (l1 & Hr1 & Hl1);
    destruct (is_local_llm_available r) as [quick r1]; simpl in Hr1;
    destruct quick; [by exists l1|]).
  all: match goal with
    | Hr1 : resolved ?r1 = _ |- context [is_local_llm_available ?r1] =>
      destruct (available_resolved r1) as (l2 & Hr2 & Hl2);
      destruct (is_local_llm_available r1) as [up r2]; simpl in Hr2;
      exists (l1 ++ l2)%list; rewrite app_assoc, <- Hr1, <- Hr2;
      (split; [|intros x [|]%elem_of_app; auto])
    | |- _ =>
      destruct (available_resolved r) as (l2 & Hr2 & Hl2);
      destruct (is_local_llm_available r) as [up r2]; simpl in Hr2;
      exists l2; rewrite <- Hr2; (split; [|done])
    end; clear; repeat case_match; simplify_eq; done.
Qed.

(** Routing resolves no cloud key: choosing a provider, by any preferences
    and at any sensitivity, looks up no API key but that of the provider named
    ollama. *)
Theorem routing_resolves_no_cloud_key s prefs r :
  exists l, resolved (route_with_preferences s prefs r).2 = (resolved r ++ l)%list /\
    forall x, x ∈ l -> x = "ollama".
Proof.
  revert r. induction prefs as [|pref prefs IH]; intros r; cbn [route_with_preferences].
  { unfold route. destruct (resolve_provider (config r) Default_) as [p|]; [apply enforce_resolved|].
    exists []. rewrite app_nil_r. split; [done|]. by intros ? ?%elem_of_nil. }
  destruct pref as [| | |name].
  - apply IH.
  - destruct (available_resolved r) as (l1 & Hr1 & Hl1).
    destruct (is_local_llm_available r) as [up r1]. simpl in Hr1. destruct up; [by exists l1|].
    destruct (IH r1) as (l2 & Hr2 & Hl2). exists (l1 ++ l2)%list. rewrite Hr2, Hr1, app_assoc.
    split; [done|]. intros x [|]%elem_of_app; auto.
  - destruct (default_provider (config r)) as [name|]; [|apply IH].
    destruct (is_local _ _); [apply IH|apply enforce_resolved].
  - apply enforce_resolved.
Qed.

(** ** Sensitivity *)

(** [q] is a provider the router holds to be local, and some Ollama answered a
    health probe. *)
Definition local_and_up (cfg : ZenConfig) q : Prop :=
  is_local cfg q = true /\ exists n b m, health_check n (IOllama b m) = true.

Lemma enforce_local p s r q r' : s <> Public -> enforce_sensitivity p s r = (Ok q, r') ->
  local_and_up (config r) q.
Proof.
  intros Hs He.
  assert (Hcases : exists quick r1, (quick = true -> local_and_up (config r) p) /\
    (if quick then (Ok p, r1) else
      let '(up, r2) := is_local_llm_available r1 in
      match (if up then resolve_provider (config r) NotionExtraction else None) with
      | Some local => if is_local (config r) local then (Ok local, r2) else (Err (unavailable_error p s), r2)
      | None => (Err (unavailable_error p s), r2)
      end) = (Ok q, r')).
  { destruct s; [done| |]; simpl in He; destruct (is_local (config r) p) eqn:Hl.
    all: try (destruct (is_local_llm_available r) as [quick r1] eqn:Ha; exists quick, r1; split; [|done];
              intros ->; split; [done|by eapply available_up]).
    all: exists false, r; split; [discriminate|exact He]. }
  destruct Hcases as ([] & r1 & Hq & Heq).
  { injection Heq as <- _. by apply Hq. }
  destruct (is_local_llm_available r1) as [up r2] eqn:Ha. destruct up; [|done].
  apply available_up in Ha. destruct (resolve_provider (config r) NotionExtraction) as [l|]; [|done].
  destruct (is_local (config r) l) eqn:Hl; [|done]. injection Heq as <- _. by split.
Qed.

(** No Ollama provider is configured at a localhost address. *)
Definition no_localhost_ollama (cfg : ZenConfig) : Prop :=
  forall bu, (providers cfg !! "ollama" ≫= base_url) = Some bu -> localhost bu = false.

Lemma is_local_ollama cfg q : no_localhost_ollama cfg -> is_local cfg q = true -> q = Ollama.
Proof.
  unfold no_localhost_ollama, is_local. destruct (providers cfg !! "ollama" ≫= base_url) as [bu|].
  - intros Hn. rewrite (Hn bu eq_refl). by intros ?%bool_decide_eq_true.
  - intros _. by intros ?%bool_decide_eq_true.
Qed.

Lemma route_local s prefs : forall r q r', s <> Public ->
  route_with_preferences s prefs r = (Ok q, r') ->
  q = Ollama \/ is_local (config r) q = true.
Proof.
  induction prefs as [|pref prefs IH]; intros r q r' Hs; cbn [route_with_preferences].
  { unfold route. destruct (resolve_provider (config r) Default_); [|done].
    intros He%enforce_local; [|done]. right. apply He. }
  destruct pref as [| | |name].
  - by apply IH.
  - pose proof (available_config r) as Hc. destruct (is_local_llm_available r) as [up r1]. simpl in Hc.
    destruct up; [intros [= <- _]; by left|]. intros Hr. rewrite <- Hc. by eapply IH.
  - destruct (default_provider (config r)) as [name|]; [|by apply IH].
    destruct (is_local (config r) (parse_provider_name name)); [by apply IH|].
    intros He%enforce_local; [|done]. right. apply He.
  - intros He%enforce_local; [|done]. right. apply He.
Qed.

(** Private data stays local: unless an Ollama is configured at a localhost
    address, every routing of private or confidential data that succeeds,
    whatever the preferences, gives Ollama. *)
Theorem private_stays_local s prefs r q r' :
  no_localhost_ollama (config r) -> s <> Public ->
  route_with_preferences s prefs r = (Ok q, r') -> q = Ollama.
Proof.
  intros Hn Hs Hr. apply route_local in Hr as [|Hl]; [done| |done]. by eapply is_local_ollama.
Qed.

(** Locality is a property of the configuration, not of the provider: with
    an Ollama configured at a localhost address and up, confidential data is
    routed to whatever provider was asked for, cloud providers included, and
    the secrets guard passes their prompts unredacted. *)
Theorem localhost_ollama_admits_cloud p r r1 enabled vars prompt bu :
  (providers (config r) !! "ollama" ≫= base_url) = Some bu -> localhost bu = true ->
  is_local_llm_available r = (true, r1) ->
  enforce_sensitivity p Confidential r = (Ok p, r1) /\
  secrets_guard_redact enabled vars r p prompt = (prompt, None).
Proof.
  intros Hb Hl Ha.
  assert (Hloc : is_local (config r) p = true) by (unfold is_local; by rewrite Hb, Hl).
  unfold enforce_sensitivity, secrets_guard_redact. rewrite Hloc, Ha. simpl. by rewrite andb_false_r.
Qed.

(** [LocalOnly] does not fail closed: when no local model answers, it is
    skipped, and the request is routed by the remaining preferences and then by
    the standard route. *)
Theorem local_only_falls_through s prefs r r1 :
  is_local_llm_available r = (false, r1) ->
  route_with_preferences s (LocalOnly :: prefs) r = route_with_preferences s prefs r1.
Proof. intros Ha. cbn [route_with_preferences]. by rewrite Ha. Qed.

(** ** The guard on egress *)

Lemma fold_left_Forall {A B} (P : B -> Prop) (f : list B -> A -> list B) (l : list A) :
  (forall out x, Forall P out -> Forall P (f out x)) ->
  forall out, Forall P out -> Forall P (fold_left f l out).
Proof. intros Hf. induction l as [|x l IH]; intros out Ho; [done|]. by apply IH, Hf. Qed.

Lemma env_corpus_long vars : Forall (fun v => MIN_CORPUS_LEN <= str_len v) (env_corpus vars).
Proof.
  unfold env_corpus. apply fold_left_Forall; [|by constructor]. intros out [n v] Hout.
  destruct (_ && negb _) eqn:Hc; [|done]. apply Forall_app. split; [done|].
  apply Forall_singleton. apply andb_true_iff in Hc as [Hc _]. apply andb_true_iff in Hc as [_ Hc].
  by apply Nat.leb_le in Hc.
Qed.

Lemma env_redactor vars : r_corpus (new_redactor (env_corpus vars)) = env_corpus vars.
Proof.
  simpl. apply list_filter_all. intros x Hx. pose proof (env_corpus_long vars) as Hl.
  by eapply Forall_forall in Hl.
Qed.

Context `{!RegexLaws}.

(** A prompt the guard can handle: no opening bracket, corpus values that are
    not confused with placeholders, and rule hits that spare them. *)
Definition guardable (vars : list (text * text)) (prompt : text) : Prop :=
  no_open prompt /\ Forall plain (env_corpus vars) /\
  spares_placeholders (corpus_pass (env_corpus vars) prompt []).1.

Lemma guarded_pieces vars prompt : guardable vars prompt ->
  exists ss ps, ro_text (redact prompt (env_corpus vars)) = flat ps /\
    ro_map (redact prompt (env_corpus vars)) = minted ss /\
    abstracts ss (chars prompt) ps /\ Forall no_open ss /\
    (forall s, s ∈ env_corpus vars -> ~ has_run s ps).
Proof.
  intros (Hno & Hpl & Hsp). unfold redact.
  destruct (redact_pieces (new_redactor (env_corpus vars)) [] prompt) as
    (ss & ps & out & Heq & Ht & Hm & Ha & _ & _ & Hop & Hnr); [|done| |].
  { split_and!; [done|constructor|constructor|]. by rewrite env_redactor. }
  { rewrite env_redactor. exact Hsp. }
  rewrite env_redactor in Hnr. rewrite Heq. exists ss, ps. by split_and!.
Qed.

(** C9. The guard, when it is enabled, covers egress: a call to a provider that the
    router's own test does not take for local hands it a prompt without any of the
    environment's secret values, when the prompt and the environment are guardable: no
    opening bracket in the prompt, no value that is a part of a placeholder, and hits
    of the rules that spare placeholders.  The router's test takes every provider for
    local when an Ollama is configured at a localhost address. *)
Theorem egress_holds_no_secret vars p prompt r :
  is_local (config r) p = false -> guardable vars prompt ->
  exists l, egress (call true vars p prompt r).2 = (egress r ++ l)%list /\
    forall n t s, (n, t) ∈ l -> s ∈ env_corpus vars -> ~ infix s t.
Proof.
  intros Hloc Hg. destruct (guarded_pieces vars prompt Hg) as (ss & ps & Ht & _ & Ha & _ & Hno).
  assert (Hclean : forall s, s ∈ env_corpus vars -> ~ infix s (ro_text (redact prompt (env_corpus vars)))).
  { intros s Hs Hi. rewrite Ht in Hi. apply (Hno s Hs). destruct Hg as (Hop & Hpl & _).
    apply infix_run; [by eapply Forall_forall in Hpl|by eapply abstracts_clean, clean_chars|done]. }
  assert (Hred : (secrets_guard_redact true vars r p prompt).1 = ro_text (redact prompt (env_corpus vars))).
  { unfold secrets_guard_redact. rewrite Hloc. simpl. by destruct (ro_map _). }
  assert (Heg : forall name, egress (provider_instance name r).2 = egress r).
  { intros name. unfold provider_instance. destruct (cache r !! name); [done|].
    destruct (providers (config r) !! name) as [cfg|]; [|done].
    by destruct (create_provider_instance_with_key cfg _). }
  unfold call. destruct (secrets_guard_redact true vars r p prompt) as [guarded m]. simpl in Hred. subst guarded.
  assert (Hone : forall n t s, (n, t) ∈ [(provider_str p, ro_text (redact prompt (env_corpus vars)))] ->
    s ∈ env_corpus vars -> ~ infix s t).
  { intros n t s [= -> ->]%list_elem_of_singleton. apply Hclean. }
  destruct (String.eqb (provider_str p) "mock"); [by eexists|].
  specialize (Heg (provider_str p)). destruct (provider_instance (provider_str p) r) as [[inst|] r1]; simpl in Heg.
  - eexists. split; [|exact Hone]. rewrite <- Heg. by destruct (complete inst _ _).
  - exists []. simpl. rewrite Heg, app_nil_r. split; [done|]. by intros ? ? ? ?%elem_of_nil.
Qed.

(** The guard is transparent: a provider that repeats the prompt it was
    given is heard by the caller as repeating the original prompt. *)
Theorem guard_transparent vars p prompt r inst r1 :
  guardable vars prompt -> provider_str p <> "mock" ->
  provider_instance (provider_str p) r = (Some inst, r1) ->
  (forall t options, complete inst t options = Ok t) ->
  (call true vars p prompt r).1 = Ok prompt.
Proof.
  intros Hg Hm Hi He. unfold call. apply String.eqb_neq in Hm.
  assert (Hback : forall g m, secrets_guard_redact true vars r p prompt = (g, m) -> secrets_guard_restore g m = prompt).
  { intros g m. unfold secrets_guard_redact. destruct (true && negb (is_local (config r) p)); [|by intros [= <- <-]].
    destruct (guarded_pieces vars prompt Hg) as (ss & ps & Ht & Hmap & Ha & Hop & _).
    pose proof (restore_abstracted ss prompt ps Hop (proj1 Hg) Ha) as Hr. rewrite <- Ht, <- Hmap in Hr.
    destruct (ro_map (redact prompt (env_corpus vars))) as [|e m'] eqn:Hmm; intros [= <- <-]; [|done].
    exact Hr. }
  destruct (secrets_guard_redact true vars r p prompt) as [g m] eqn:Hgm.
  rewrite Hm, Hi, He. simpl. by rewrite (Hback g m).
Qed.
End router.

(** ** Guarded streams *)

Local Open Scope list_scope.

Lemma concat_emit t l : concat (emit_token t l) = concat l ++ t.
Proof. destruct t; simpl; [by rewrite app_nil_r|]. by rewrite concat_app, concat_cons, concat_nil, app_nil_r. Qed.

Lemma forward_frames m drained toks : forall s, fw_running s = true ->
  let s' := fold_left (forward_step m) (map Frame toks ++ [Closed drained])%list s in
  concat (fw_tokens s') = (concat (fw_tokens s) ++ restore_stream toks (fw_carry s) m)%list /\
  fw_done s' = (if fw_pending s
                then fw_done s ++ [default (Err (utf8 "stream closed before done signal")) drained]
                else fw_done s)%list /\
  fw_running s' = false.
Proof.
  induction toks as [|tok toks IH]; intros s Hr; cbn [map app fold_left restore_stream].
  { unfold forward_step. rewrite Hr. simpl negb. cbn iota. simpl. rewrite concat_emit. by destruct (fw_pending s). }
  assert (Hs : forward_step m s (Frame tok) =
    let '(emit, c) := restore_incremental (fw_carry s ++ tok) m in
    {| fw_carry := c; fw_pending := fw_pending s; fw_tokens := emit_token emit (fw_tokens s);
       fw_done := fw_done s; fw_leftovers := fw_leftovers s; fw_running := true |}).
  { unfold forward_step. by rewrite Hr. }
  destruct (restore_incremental (fw_carry s ++ tok) m) as [emit c]. rewrite Hs.
  edestruct IH as (Ht & Hd & Hru); [|split_and!; [rewrite Ht|exact Hd|exact Hru]]; [done|].
  cbn [fw_tokens fw_carry]. by rewrite concat_emit, app_assoc.
Qed.

(** The forwarder restores the stream: whatever frames the producer cuts a
    reply of ordinary text and placeholders into, the frames it forwards
    concatenate to the reply's batch restoration, it ends, and it reports
    exactly one outcome: the producer's, or an error when the producer left
    none. *)
Theorem forwarder_restores ss ps toks drained :
  Forall no_open ss -> clean ps -> Forall small ps -> concat toks = flat ps ->
  let s := forward (minted ss) (map Frame toks ++ [Closed drained])%list in
  concat (fw_tokens s) = re_text (restore (concat toks) (minted ss)) /\
  fw_done s = [default (Err (utf8 "stream closed before done signal")) drained] /\
  fw_running s = false.
Proof.
  intros Hop Hcl Hsm He s.
  destruct (forward_frames (minted ss) drained toks forwarder0 eq_refl) as (Ht & Hd & Hru).
  unfold s, forward. rewrite Ht, Hd. cbn [fw_tokens fw_carry forwarder0 concat app fw_pending fw_done].
  split_and!; [|done|exact Hru]. rewrite (stream_pieces ss toks [] ps) by done.
  rewrite He, <- (app_nil_r (flat ps)), restore_pieces by (done || apply quiet_nil). by rewrite app_nil_r.
Qed.

(** Every message so far is on a channel that exists. *)
Definition channels_ok (ch : channels) : Prop :=
  forall c t, (c, t) ∈ sent ch -> (c < next_chan ch)%nat.

Lemma received_app resp ch c toks :
  received resp (send_all c toks ch) =
  (received resp ch ++ if bool_decide (c = token_rx resp) then toks else [])%list.
Proof.
  unfold received, send_all. simpl. rewrite omap_app. f_equal.
  induction toks as [|t toks IH]; simpl; [by case_bool_decide|]. case_bool_decide; [by f_equal|exact IH].
Qed.

Lemma received_fresh resp ch : (forall c t, (c, t) ∈ sent ch -> (c < token_rx resp)%nat) -> received resp ch = [].
Proof.
  unfold received. intros Hok. induction (sent ch) as [|[c t] l IH]; [done|]. simpl.
  assert (c < token_rx resp)%nat by (apply (Hok c t), list_elem_of_here).
  rewrite bool_decide_eq_false_2 by lia. apply IH. intros c' t' Hin. apply (Hok c' t'). by apply list_elem_of_further.
Qed.

(** A guarded stream is not delivered: when the prompt held a secret, the
    response returned to the caller is one on which nothing is ever sent,
    whatever the producer sends, while without secrets the response carries
    the producer's frames. *)
Theorem guarded_stream_undelivered m toks drained ch :
  channels_ok ch ->
  let events := (map Frame toks ++ [Closed drained])%list in
  let '(guarded, ch1) := stream_tail (Some m) events ch in
  let '(plain, ch2) := stream_tail None events ch in
  received guarded ch1 = [] /\ received plain ch2 = toks.
Proof.
  intros Hok events. unfold stream_tail, guarded_stream_call, new_stream. cbn [next_chan sent].
  assert (Hframes : omap (fun e => match e with Frame t => Some t | _ => None end) events = toks).
  { unfold events. rewrite omap_app. simpl. rewrite app_nil_r. clear.
    induction toks as [|t toks IH]; [done|].
    change (t :: omap (fun e => match e with Frame t => Some t | _ => None end) (map Frame toks) = t :: toks).
    by rewrite IH. }
  rewrite Hframes, !received_app. cbn [token_rx]. split.
  - rewrite bool_decide_eq_false_2 by lia. rewrite app_nil_r. apply received_fresh.
    intros c t Hin. specialize (Hok c t Hin). simpl. lia.
  - rewrite bool_decide_eq_true_2 by done. by rewrite received_fresh.
Qed.

(** ** Witnesses *)

Definition demo_credentials : Credentials :=
  {| secret_resolver n _ := if String.eqb n "zen-openai-api-key" then Some "sk-demo" else None;
     resolve_secret_ref _ := None; env_var _ := None |}.

(** Every probe answers, and every provider repeats its prompt. *)
Definition demo_wire : Wire := {| health_check _ _ := true; complete _ t _ := Ok t |}.

#[local] Existing Instance demo_credentials.
#[local] Existing Instance demo_wire.
#[local] Existing Instance demo_engine.
#[local] Existing Instance demo_laws.

Definition demo_provider (ty : string) (url : option string) : ProviderConfig :=
  {| provider_type := Some ty; base_url := url; default_model := None; api_key := None;
     api_key_env := None; models := ∅ |}.

Definition demo_config (ollama_url : string) : ZenConfig :=
  {| default_provider := Some "openai"; cfg_default_model := None;
     providers := {["ollama" := demo_provider "ollama" (Some ollama_url);
                    "openai" := demo_provider "openai" None]};
     agents := {["notion_extraction" := {| ag_provider := Some "local"; ag_model := None; ag_fallbacks := [] |}]} |}.

Definition demo_router (ollama_url : string) : router := from_agentic (demo_config ollama_url).

Lemma private_stays_local_witness :
  (route_with_preferences Private [CloudOnly] (demo_router "http://10.0.0.7:11434")).1 = Ok Ollama.
Proof.
  destruct (route_with_preferences Private [CloudOnly] (demo_router "http://10.0.0.7:11434")) as [o r'] eqn:Hr.
  assert (Hq : exists q, o = Ok q).
  { assert (Ho : o = (o, r').1) by reflexivity. rewrite <- Hr in Ho. rewrite Ho. vm_compute. by eexists. }
  destruct Hq as [q ->]. simpl. f_equal.
  apply (private_stays_local Private [CloudOnly] (demo_router "http://10.0.0.7:11434") q r'); [|done|exact Hr].
  intros bu Hb. vm_compute in Hb. injection Hb as <-. vm_compute. reflexivity.
Defined.

Lemma localhost_ollama_admits_cloud_witness :
  exists r1, enforce_sensitivity OpenAI Confidential (demo_router OLLAMA_BASE_URL) = (Ok OpenAI, r1).
Proof.
  exists (is_local_llm_available (demo_router OLLAMA_BASE_URL)).2.
  apply (localhost_ollama_admits_cloud OpenAI (demo_router OLLAMA_BASE_URL)
    (is_local_llm_available (demo_router OLLAMA_BASE_URL)).2 true [] [] OLLAMA_BASE_URL).
  - vm_compute. reflexivity.
  - vm_compute. reflexivity.
  - rewrite (surjective_pairing (is_local_llm_available _)). f_equal; vm_compute; reflexivity.
Defined.

Definition demo_vars : list (text * text) :=
  [(utf8 "GITHUB_TOKEN", demo_secret); (utf8 "HOME", utf8 "/home/someone")].
Definition demo_prompt : text := utf8 "deploy with corpus-secret-value please".

Lemma demo_guardable : guardable demo_vars demo_prompt.
Proof.
  split_and!.
  - apply (bool_decide_eq_true (OPEN ∉ _)). vm_compute. reflexivity.
  - assert (Hc : env_corpus demo_vars = [demo_secret]) by (vm_compute; reflexivity).
    rewrite Hc. repeat constructor; apply plain_dash; vm_compute; reflexivity.
  - apply spares_no_hits. vm_compute. reflexivity.
Qed.

Lemma egress_holds_no_secret_witness :
  exists l, egress (call true demo_vars OpenAI demo_prompt (demo_router "http://10.0.0.7:11434")).2 = l /\
    forall n t, (n, t) ∈ l -> ~ infix demo_secret t.
Proof.
  destruct (egress_holds_no_secret demo_vars OpenAI demo_prompt (demo_router "http://10.0.0.7:11434"))
    as (l & He & Hl).
  - vm_compute. reflexivity.
  - exact demo_guardable.
  - exists l. rewrite He. split; [done|]. intros n t Hin. apply (Hl n t demo_secret Hin).
    apply (bool_decide_eq_true (demo_secret ∈ env_corpus demo_vars)). vm_compute. reflexivity.
Defined.

Lemma guard_transparent_witness :
  (call true demo_vars OpenAI demo_prompt (demo_router "http://10.0.0.7:11434")).1 = Ok demo_prompt.
Proof.
  apply (guard_transparent demo_vars OpenAI demo_prompt (demo_router "http://10.0.0.7:11434")
    (IOpenAICompatible "sk-demo" OPENAI_DEFAULT_MODEL OPENAI_BASE_URL)
    (provider_instance "openai" (demo_router "http://10.0.0.7:11434")).2).
  - exact demo_guardable.
  - done.
  - change (provider_str OpenAI) with "openai".
    rewrite (surjective_pairing (provider_instance "openai" (demo_router _))). f_equal; vm_compute; reflexivity.
  - done.
Defined.

Lemma forwarder_restores_witness :
  fw_done (forward (minted [utf8 "ghp_0123456789"]) (map Frame demo_chunks ++ [Closed (Some (Ok tt))])) = [Ok tt] /\
  concat (fw_tokens (forward (minted [utf8 "ghp_0123456789"]) (map Frame demo_chunks ++ [Closed (Some (Ok tt))]))) =
    utf8 "use ghp_0123456789 and ⟦SECRET_7⟧".
Proof.
  destruct (forwarder_restores [utf8 "ghp_0123456789"] demo_reply demo_chunks (Some (Ok tt))) as (Ht & Hd & _).
  - apply Forall_singleton. apply (bool_decide_eq_true (OPEN ∉ utf8 "ghp_0123456789")). vm_compute. reflexivity.
  - unfold clean. apply (bool_decide_eq_true (Forall (fun p => p <> inl OPEN) demo_reply)). vm_compute. reflexivity.
  - repeat constructor; vm_compute; lia.
  - vm_compute. reflexivity.
  - split; [exact Hd|]. etransitivity; [exact Ht|]. vm_compute. reflexivity.
Defined.

Lemma guarded_stream_undelivered_witness :
  let ch := {| next_chan := 0; sent := [] |} in
  let events := map Frame demo_chunks ++ [Closed (Some (Ok tt))] in
  received (stream_tail (Some (minted [demo_secret])) events ch).1
    (stream_tail (Some (minted [demo_secret])) events ch).2 = [].
Proof.
  intros ch events.
  destruct (stream_tail (Some (minted [demo_secret])) events ch) as [g ch1] eqn:Hg.
  destruct (stream_tail None events ch) as [p ch2] eqn:Hp.
  pose proof (guarded_stream_undelivered (minted [demo_secret]) demo_chunks (Some (Ok tt)) ch) as Hw.
  cbv zeta in Hw. fold events in Hw. rewrite Hg, Hp in Hw. apply Hw. by intros c t ?%elem_of_nil.
Defined.
