(* ===== verification/TaskRegistry.v ===== *)
(** * Background tasks

    Models [crates/zen-plugin/src/task_registry.rs]: the registry of background
    children, its spawn gate, the wait and drain tasks, kill, deadlines, the
    drains at shutdown, the [meta.json] mirror and the boot sweep.  Operations
    are functions on the registry; a run of the system is a sequence of them,
    cut where the code releases the locks.  Meta writes are queued, since the
    code performs them after it has released the lock they copy from; two writes of
    one task share a temporary file (zen-core/src/atomic_file.rs), so that they may
    land, be lost or leave a file that is neither. *)

From S2P Require Import Prelude Text.
From Stdlib Require Import Lia.
Local Open Scope string_scope.

Definition OUTPUT_CAP_BYTES : N := 8 * 1024 * 1024.

(** ** Data *)

Inductive TaskStatus :=
  | Running | Completed (code : Z) | Failed (reason : string) | Timeout | Killed | Orphaned.

#[export] Instance TaskStatus_eq_dec : EqDecision TaskStatus.
Proof. solve_decision. Defined.

Definition is_terminal (s : TaskStatus) : bool := match s with Running => false | _ => true end.

Definition as_str (s : TaskStatus) : string :=
  match s with
  | Running => "running" | Completed _ => "completed" | Failed _ => "failed"
  | Timeout => "timeout" | Killed => "killed" | Orphaned => "orphaned"
  end.

Record TaskSnapshot := {
  task_id : string;
  session_id : string;
  pid : N;
  command_digest : string;
  output_dir : string;
  status : TaskStatus;
  started_at_ms : Z;
  ended_at_ms : option Z;
  bytes_stdout : N;
  bytes_stderr : N;
  truncated : bool;
}.

Record BackgroundLimits := { max_wall_secs : N; max_concurrent : nat; output_cap_bytes : N }.

(** The snapshot's fields, with the capture paths. *)
Record TaskMeta := { m_snapshot : TaskSnapshot; stdout_path : string; stderr_path : string }.

(** The Child handle is left out: it is held, never read. *)
Record TaskEntry := {
  e_session : string;
  e_limits : BackgroundLimits;
  e_snapshot : TaskSnapshot;
  reaped : bool;
  notified : bool;
}.

Definition meta_stdout_path (dir : string) : string := dir ++ "/stdout".
Definition meta_stderr_path (dir : string) : string := dir ++ "/stderr".

Definition from_snapshot (s : TaskSnapshot) : TaskMeta :=
  {| m_snapshot := s; stdout_path := meta_stdout_path (output_dir s);
     stderr_path := meta_stderr_path (output_dir s) |}.

Definition with_status (st : TaskStatus) (ended : Z) (s : TaskSnapshot) : TaskSnapshot :=
  {| task_id := task_id s; session_id := session_id s; pid := pid s;
     command_digest := command_digest s; output_dir := output_dir s; status := st;
     started_at_ms := started_at_ms s; ended_at_ms := Some ended;
     bytes_stdout := bytes_stdout s; bytes_stderr := bytes_stderr s; truncated := truncated s |}.

Definition with_snapshot (s : TaskSnapshot) (e : TaskEntry) : TaskEntry :=
  {| e_session := e_session e; e_limits := e_limits e; e_snapshot := s;
     reaped := reaped e; notified := notified e |}.
Definition set_reaped (e : TaskEntry) : TaskEntry :=
  {| e_session := e_session e; e_limits := e_limits e; e_snapshot := e_snapshot e;
     reaped := true; notified := notified e |}.
Definition set_notified (e : TaskEntry) : TaskEntry :=
  {| e_session := e_session e; e_limits := e_limits e; e_snapshot := e_snapshot e;
     reaped := reaped e; notified := true |}.

Definition is_running (e : TaskEntry) : bool := bool_decide (status (e_snapshot e) = Running).

(** ** The registry and what it touches

    [metas] is what each task's [meta.json] reads as, by task directory, a file
    that is no JSON as nothing; [writes] the meta writes under way;
    [signals] the signals sent to process groups, [armed] the escalation
    threads that are asleep. *)
Inductive signal := SIGTERM | SIGKILL.

#[export] Instance signal_eq_dec : EqDecision signal.
Proof. solve_decision. Defined.

Record registry := {
  entries : gmap string TaskEntry;
  metas : gmap string TaskMeta;
  writes : list (string * TaskMeta);
  signals : list (N * signal);
  armed : list N;
  draining : bool;
}.

Definition empty_registry : registry :=
  {| entries := ∅; metas := ∅; writes := []; signals := []; armed := []; draining := false |}.

Definition set_entry (tid : string) (e : TaskEntry) (r : registry) : registry :=
  {| entries := <[tid := e]> (entries r); metas := metas r; writes := writes r;
     signals := signals r; armed := armed r; draining := draining r |}.

(** [write_meta], begun: how the write ends is said by [OWrite], [OLose] and [OTear]. *)
Definition write_meta (tid : string) (s : TaskSnapshot) (r : registry) : registry :=
  {| entries := entries r; metas := metas r; writes := (writes r ++ [(tid, from_snapshot s)])%list;
     signals := signals r; armed := armed r; draining := draining r |}.

Definition kill_group (p : N) (sig : signal) (r : registry) : registry :=
  {| entries := entries r; metas := metas r; writes := writes r;
     signals := (signals r ++ [(p, sig)])%list; armed := armed r; draining := draining r |}.

Definition spawn_kill_escalation (p : N) (r : registry) : registry :=
  {| entries := entries r; metas := metas r; writes := writes r;
     signals := signals r; armed := (armed r ++ [p])%list; draining := draining r |}.

Definition set_draining (r : registry) : registry :=
  {| entries := entries r; metas := metas r; writes := writes r;
     signals := signals r; armed := armed r; draining := true |}.

(** ** Spawning *)

Definition live_count (r : registry) : nat :=
  length (filter (fun x => is_running x.2) (map_to_list (entries r))).

(** What the operating system answers to a spawn: the directory creation, then
    the fork. *)
Inductive spawn_answer := DirFailed (e : string) | SpawnFailed (e : string) | PidVanished | Spawned (p : N).

Definition draining_error : string :=
  "background task rejected: the daemon is shutting down (drain in progress); no new background tasks may be spawned".
Definition limit_error (live limit : nat) : string :=
  "background task rejected: " ++ pretty live ++ " live tasks already at the [agentic.background] max_concurrent limit of "
    ++ pretty limit ++ "; collect or kill existing tasks first (shell.collect / shell.kill)".

Definition spawn_background (tasks_root tid : string) (os : spawn_answer) (session digest : string)
    (limits : BackgroundLimits) (now : Z) (r : registry) : result TaskSnapshot string * registry :=
  if draining r then (Err draining_error, r)
  else
    let live := live_count r in
    if (max_concurrent limits <=? live)%nat then (Err (limit_error live (max_concurrent limits)), r)
    else
      let dir := tasks_root ++ "/" ++ tid in
      match os with
      | DirFailed e => (Err ("failed to create task output dir " ++ dir ++ ": " ++ e), r)
      | SpawnFailed e => (Err ("failed to spawn background task: " ++ e), r)
      | PidVanished => (Err "background child pid vanished immediately after spawn", r)
      | Spawned p =>
        let s := {| task_id := tid; session_id := session; pid := p; command_digest := digest;
                    output_dir := dir; status := Running; started_at_ms := now; ended_at_ms := None;
                    bytes_stdout := 0; bytes_stderr := 0; truncated := false |} in
        let e := {| e_session := session; e_limits := limits; e_snapshot := s;
                    reaped := false; notified := false |} in
        (Ok s, write_meta tid s (set_entry tid e r))
      end.

(** ** The wait task *)

Inductive exit_result := Exited (code : Z) | NoCode (exit : string) | WaitFailed (e : string).

Definition exit_status (x : exit_result) : TaskStatus :=
  match x with
  | Exited code => Completed code
  | NoCode exit => Failed ("child terminated without an exit code: " ++ exit)
  | WaitFailed e => Failed ("wait failed: " ++ e)
  end.

(** [wait_reaped.store(true)]. *)
Definition reap (tid : string) (r : registry) : registry :=
  match entries r !! tid with Some e => set_entry tid (set_reaped e) r | None => r end.

(** The locked region after it, and the terminal write. *)
Definition record_exit (tid : string) (x : exit_result) (now : Z) (r : registry) : registry :=
  match entries r !! tid with
  | Some e =>
    let s := if is_terminal (status (e_snapshot e)) then e_snapshot e
             else with_status (exit_status x) now (e_snapshot e) in
    write_meta tid s (set_entry tid (with_snapshot s e) r)
  | None => r
  end.

(** The finalizer, once the drains have settled or timed out. *)
Definition finalize (tid : string) (r : registry) : registry :=
  match entries r !! tid with
  | Some e => if is_terminal (status (e_snapshot e)) then write_meta tid (e_snapshot e) r else r
  | None => r
  end.

(** ** Drains *)

(** The locked region of one read of [n] bytes. *)
Definition count_bytes (is_stdout : bool) (n cap : N) (s : TaskSnapshot) : TaskSnapshot :=
  let bo := if is_stdout then (bytes_stdout s + n)%N else bytes_stdout s in
  let be := if is_stdout then bytes_stderr s else (bytes_stderr s + n)%N in
  let total_seen := if is_stdout then bo else be in
  {| task_id := task_id s; session_id := session_id s; pid := pid s;
     command_digest := command_digest s; output_dir := output_dir s; status := status s;
     started_at_ms := started_at_ms s; ended_at_ms := ended_at_ms s;
     bytes_stdout := bo; bytes_stderr := be;
     truncated := if (cap <? total_seen)%N then true else truncated s |}.

(** The locals of [drain_pipe]: the open capture file with its contents, or
    none once a write has failed, and [captured]. *)
Record drain := { open : bool; contents : list Byte.byte; captured : N }.

(** The write half of one turn; [write_ok] is what [write_all] answers. *)
Definition capture (cap : N) (buf : list Byte.byte) (write_ok : bool) (d : drain) : drain :=
  if open d && (captured d <? cap)%N then
    let to_write := N.min (cap - captured d) (N.of_nat (length buf)) in
    if write_ok then
      {| open := true; contents := (contents d ++ take (N.to_nat to_write) buf)%list;
         captured := (captured d + to_write)%N |}
    else {| open := false; contents := contents d; captured := captured d |}
  else d.

(** The loop: the reads the pipe gives until it closes. *)
Fixpoint drain_pipe (cap : N) (is_stdout : bool) (reads : list (list Byte.byte * bool))
    (d : drain) (s : TaskSnapshot) : drain * TaskSnapshot :=
  match reads with
  | [] => (d, s)
  | (buf, write_ok) :: rest =>
    match buf with
    | [] => (d, s)
    | _ :: _ =>
      drain_pipe cap is_stdout rest (capture cap buf write_ok d)
        (count_bytes is_stdout (N.of_nat (length buf)) cap s)
    end
  end.

(** One read as a step of the registry. *)
Definition drain_read (tid : string) (is_stdout : bool) (n : N) (r : registry) : registry :=
  match entries r !! tid with
  | Some e => set_entry tid
      (with_snapshot (count_bytes is_stdout n (output_cap_bytes (e_limits e)) (e_snapshot e)) e) r
  | None => r
  end.

(** ** Reading *)

Definition snapshot (tid : string) (r : registry) : option TaskSnapshot :=
  e_snapshot <$> entries r !! tid.

Definition entry_list (r : registry) : list TaskEntry := (map_to_list (entries r)).*2.

Definition take_status_changes (session : string) (r : registry) : list TaskSnapshot :=
  omap (fun e =>
    if negb (String.eqb (e_session e) session) || notified e then None
    else if is_terminal (status (e_snapshot e)) then Some (e_snapshot e) else None) (entry_list r).

Definition mark_notified (session : string) (ids : list string) (r : registry) : registry :=
  fold_left (fun r tid =>
    match entries r !! tid with
    | Some e => if String.eqb (e_session e) session then set_entry tid (set_notified e) r else r
    | None => r
    end) ids r.

Definition live_for_session (session : string) (r : registry) : list TaskSnapshot :=
  e_snapshot <$> filter (fun e => is_running e)
                   (filter (fun e => String.eqb (e_session e) session) (entry_list r)).

(** ** Killing *)

Definition kill (tid : string) (now : Z) (r : registry) : result TaskSnapshot string * registry :=
  match entries r !! tid with
  | None => (Err ("unknown task_id " ++ tid), r)
  | Some e =>
    if is_terminal (status (e_snapshot e)) then (Ok (e_snapshot e), r)
    else
      let s := with_status Killed now (e_snapshot e) in
      let r1 := set_entry tid (with_snapshot s e) r in
      let r2 := if reaped e then r1
                else spawn_kill_escalation (pid s) (kill_group (pid s) SIGTERM r1) in
      (Ok s, write_meta tid s r2)
  end.

(** The escalation thread, when its sleep ends. *)
Definition escalate (p : N) (alive : bool) (r : registry) : registry :=
  if bool_decide (p ∈ armed r) then
    let r1 := {| entries := entries r; metas := metas r; writes := writes r; signals := signals r;
                 armed := filter (fun q => q <> p) (armed r); draining := draining r |} in
    if alive then kill_group p SIGKILL r1 else r1
  else r.

Definition I64_MAX : Z := 9223372036854775807.
Definition I64_MIN : Z := -9223372036854775808.
Definition in_i64 (z : Z) : bool := (I64_MIN <=? z)%Z && (z <=? I64_MAX)%Z.

(** [u64 as i64]. *)
Definition as_i64 (n : N) : Z :=
  let z := (Z.of_N n mod 2 ^ 64)%Z in if (z <=? I64_MAX)%Z then z else (z - 2 ^ 64)%Z.

(** [started_at_ms + (max_wall_secs as i64) * 1000], which panics out of
    range. *)
Definition deadline (e : TaskEntry) : outcome Z :=
  let wall := (as_i64 (max_wall_secs (e_limits e)) * 1000)%Z in
  if negb (in_i64 wall) then Panic
  else let d := (started_at_ms (e_snapshot e) + wall)%Z in
       if in_i64 d then Done d else Panic.

(** The filter: [&&] looks at the deadline of running tasks only. *)
Definition due (now : Z) (e : TaskEntry) : outcome bool :=
  if is_running e then let! d := deadline e in Done (d <=? now)%Z else Done false.

Fixpoint due_ids (now : Z) (l : list (string * TaskEntry)) : outcome (list string) :=
  match l with
  | [] => Done []
  | (tid, e) :: rest =>
    let! b := due now e in
    let! ids := due_ids now rest in
    Done (if b then tid :: ids else ids)
  end.

(** The body of the loop over the expired entries; the status is looked at
    again. *)
Definition expire_one (now : Z) (acc : list string * registry) (tid : string) : list string * registry :=
  let '(ids, r) := acc in
  match entries r !! tid with
  | Some e =>
    if is_running e then
      let s := with_status Timeout now (e_snapshot e) in
      let r1 := set_entry tid (with_snapshot s e) r in
      let r2 := if reaped e then r1 else kill_group (pid s) SIGKILL r1 in
      ((ids ++ [task_id s])%list, write_meta tid s r2)
    else (ids, r)
  | None => (ids, r)
  end.

Definition expire_due (now : Z) (r : registry) : outcome (list string * registry) :=
  let! ids := due_ids now (map_to_list (entries r)) in
  Done (fold_left (expire_one now) ids ([], r)).

(** ** Shutdown *)

Definition live_ids (r : registry) : list string :=
  (filter (fun x => is_running x.2) (map_to_list (entries r))).*1.

Definition kill_all_one (escalates : bool) (now : Z) (acc : list string * registry) (tid : string)
    : list string * registry :=
  let '(ids, r) := acc in
  match entries r !! tid with
  | Some e =>
    if is_running e then
      let s := with_status Killed now (e_snapshot e) in
      let r1 := kill_group (pid s) SIGTERM (set_entry tid (with_snapshot s e) r) in
      let r2 := if escalates then spawn_kill_escalation (pid s) r1 else r1 in
      ((ids ++ [task_id s])%list, write_meta tid s r2)
    else (ids, r)
  | None => (ids, r)
  end.

Definition kill_all (now : Z) (r : registry) : list string * registry :=
  fold_left (kill_all_one true now) (live_ids r) ([], r).

(** [alive] answers the probes made after the grace period. *)
Definition kill_all_blocking (alive : N -> bool) (now : Z) (r : registry) : list string * registry :=
  let live := live_ids r in
  let pids := omap (fun tid => pid ∘ e_snapshot <$> entries r !! tid) live in
  let '(ids, r1) := fold_left (kill_all_one false now) live ([], r) in
  match ids with
  | [] => (ids, r1)
  | _ :: _ => (ids, fold_left (fun r p => if alive p then kill_group p SIGKILL r else r) pids r1)
  end.

(** ** Task ids *)

Definition is_hex (a : Ascii.ascii) : bool :=
  let n := Ascii.nat_of_ascii a in
  ((48 <=? n) && (n <=? 57) || (97 <=? n) && (n <=? 102))%nat.

Fixpoint all_chars (f : Ascii.ascii -> bool) (s : string) : bool :=
  match s with EmptyString => true | String a s' => f a && all_chars f s' end.

(** [s.split('-')]; a dash is 45. *)
Fixpoint split_dash (s : string) : list string :=
  match s with
  | EmptyString => [""]
  | String a s' =>
    if (Ascii.nat_of_ascii a =? 45)%nat then "" :: split_dash s'
    else match split_dash s' with
         | g :: gs => String a g :: gs
         | [] => [String a ""]
         end
  end.

Definition is_valid_task_id (s : string) : bool :=
  let groups := split_dash s in
  match length groups with
  | 1 => (String.length s =? 32)%nat && all_chars is_hex s
  | 5 => forallb (fun '(len, g) => (String.length g =? len)%nat && all_chars is_hex g)
           (zip [8; 4; 4; 4; 12]%nat groups)
  | _ => false
  end.

Definition meta_path (tasks_root tid : string) : string :=
  tasks_root ++ "/" ++ tid ++ "/meta.json".

(** ** The disk after a restart *)

(** A [meta.json] as the sweep finds it. *)
Inductive meta_file := Corrupt | Parsed (m : TaskMeta).

Definition read_meta (disk : gmap string meta_file) (tid : string) : option TaskMeta :=
  match disk !! tid with Some (Parsed m) => Some m | _ => None end.

(** [mark_meta_status]: [None] when unreadable or unwritable. *)
Definition mark_meta_status (disk : gmap string meta_file) (tid : string) (st : TaskStatus)
    (now : Z) (write_ok : bool) : option TaskMeta * gmap string meta_file :=
  match read_meta disk tid with
  | None => (None, disk)
  | Some m =>
    if is_terminal (status (m_snapshot m)) then (Some m, disk)
    else
      let m' := {| m_snapshot := with_status st now (m_snapshot m);
                   stdout_path := stdout_path m; stderr_path := stderr_path m |} in
      if write_ok then (Some m', <[tid := Parsed m']> disk) else (None, disk)
  end.

(** What the boot sweep probes: whether a process group has members, the age
    of its leader, and whether a rewrite succeeds. *)
Record probes := {
  group_exists : N -> bool;
  leader_age_secs : N -> option Z;
  rewrite_ok : string -> bool;
}.

(** [(a - b) / 1000] rounds towards zero. *)
Definition verify_leader_identity (pr : probes) (now : Z) (p : N) (started : Z) : bool :=
  match leader_age_secs pr p with
  | Some age => (Z.abs (age - (now - started) ÷ 1000) <=? 10)%Z
  | None => false
  end.

Definition SWEEP_HORIZON_MS : Z := 7 * 86400000.

Definition sat_i64 (z : Z) : Z := Z.max I64_MIN (Z.min I64_MAX z).

Record sweep_state := {
  disk : gmap string meta_file;
  sweep_signals : list (N * signal);
  marked : nat;
}.

(** The body of the loop over the directories; [live] is the registry of this
    process. *)
Definition sweep_dir (pr : probes) (live : registry) (now : Z) (st : sweep_state) (dir : string)
    : sweep_state :=
  match disk st !! dir with
  | Some (Parsed m) =>
    let s := m_snapshot m in
    if bool_decide (status s = Running) then
      match snapshot (task_id s) live with
      | Some _ => st
      | None =>
        if (SWEEP_HORIZON_MS <? sat_i64 (now - started_at_ms s))%Z then st
        else
          let verified_ours := group_exists pr (pid s)
                                 && verify_leader_identity pr now (pid s) (started_at_ms s) in
          let m' := {| m_snapshot := with_status Orphaned now s;
                       stdout_path := stdout_path m; stderr_path := stderr_path m |} in
          if rewrite_ok pr dir then
            {| disk := <[dir := Parsed m']> (disk st);
               sweep_signals := if verified_ours then (sweep_signals st ++ [(pid s, SIGKILL)])%list
                                else sweep_signals st;
               marked := S (marked st) |}
          else st
      end
    else st
  | _ => st
  end.

Definition sweep_orphans_on_boot (pr : probes) (live : registry) (now : Z)
    (d : gmap string meta_file) : sweep_state :=
  fold_left (sweep_dir pr live now) (map_to_list d).*1
    {| disk := d; sweep_signals := []; marked := 0 |}.

(** ** Two writers of one file

    [write_atomic]: the temporary file is created or truncated, written, synced and
    renamed over the target; its name is the target's, so that all writers of a
    target share it.  Files are numbered; [tmp] and [target] are the two names. *)
Module AtomicFile.
Record shared := { tmp : option nat; target : option nat; files : list (list N) }.
Inductive phase := Begun | Opened (i : nat) | Filled (i : nat) | Over (renamed : bool).

(** What a write from the start of a file leaves of what the file held. *)
Definition over_text (bytes old : list N) : list N := bytes ++ drop (length bytes) old.
Definition writer_step (bytes : list N) (ph : phase) (d : shared) : phase * shared :=
  match ph with
  | Begun =>
    match tmp d with
    | Some i => (Opened i, {| tmp := tmp d; target := target d; files := <[i := []]> (files d) |})
    | None => let i := length (files d) in (Opened i, {| tmp := Some i; target := target d; files := files d ++ [[]] |})
    end
  | Opened i => (Filled i, {| tmp := tmp d; target := target d; files := alter (over_text bytes) i (files d) |})
  | Filled i =>
    match tmp d with
    | Some j => (Over true, {| tmp := None; target := Some j; files := files d |})
    | None => (Over false, d)
    end
  | Over ok => (Over ok, d)
  end%list.
Definition on_disk (d : shared) : option (list N) := i ← target d; files d !! i.
(** A schedule says whose step is next. *)
Definition pair_step (a b : list N) (s : phase * phase * shared) (first : bool) : phase * phase * shared :=
  let '(pa, pb, d) := s in
  if first then let '(pa, d) := writer_step a pa d in (pa, pb, d) else let '(pb, d) := writer_step b pb d in (pa, pb, d).
Definition run_pair (a b : list N) (sched : list bool) (d : shared) : phase * phase * shared :=
  fold_left (pair_step a b) sched (Begun, Begun, d).
End AtomicFile.

(** ** Runs *)

Inductive op :=
  | OSpawn (tasks_root tid : string) (os : spawn_answer) (session digest : string)
      (limits : BackgroundLimits) (now : Z)
  | OReap (tid : string)
  | ORecordExit (tid : string) (x : exit_result) (now : Z)
  | OFinalize (tid : string)
  | ORead (tid : string) (is_stdout : bool) (n : N)
  | ONotified (session : string) (ids : list string)
  | OKill (tid : string) (now : Z)
  | OEscalate (p : N) (alive : bool)
  | OExpire (now : Z)
  | OKillAll (now : Z)
  | OKillAllBlocking (alive : N -> bool) (now : Z)
  | OSetDraining
  | OWrite (k : nat)                       (* the k-th queued meta write lands *)
  | OLose (k : nat)                        (* it fails, or finds its temporary file gone *)
  | OTear (k k' : nat).                    (* two writes of a task leave one text over the other *)

Definition land_write (k : nat) (r : registry) : registry :=
  match writes r !! k with
  | Some (tid, m) =>
    {| entries := entries r; metas := <[tid := m]> (metas r); writes := delete k (writes r);
       signals := signals r; armed := armed r; draining := draining r |}
  | None => r
  end.

Definition lose_write (k : nat) (r : registry) : registry :=
  {| entries := entries r; metas := metas r; writes := delete k (writes r);
     signals := signals r; armed := armed r; draining := draining r |}.
Definition tear_writes (k k' : nat) (r : registry) : registry :=
  match writes r !! k, writes r !! k' with
  | Some (tid, _), Some (tid', _) =>
    if bool_decide (tid = tid' /\ k < k')%nat then
      {| entries := entries r; metas := delete tid (metas r); writes := delete k (delete k' (writes r));
         signals := signals r; armed := armed r; draining := draining r |}
    else r
  | _, _ => r
  end.

(** A panicking [expire_due] leaves the registry as it was. *)
Definition run_op (r : registry) (o : op) : registry :=
  match o with
  | OSpawn root tid os session digest limits now =>
    (spawn_background root tid os session digest limits now r).2
  | OReap tid => reap tid r
  | ORecordExit tid x now => record_exit tid x now r
  | OFinalize tid => finalize tid r
  | ORead tid o n => drain_read tid o n r
  | ONotified session ids => mark_notified session ids r
  | OKill tid now => (kill tid now r).2
  | OEscalate p alive => escalate p alive r
  | OExpire now => match expire_due now r with Done (_, r') => r' | _ => r end
  | OKillAll now => (kill_all now r).2
  | OKillAllBlocking alive now => (kill_all_blocking alive now r).2
  | OSetDraining => set_draining r
  | OWrite k => land_write k r
  | OLose k => lose_write k r
  | OTear k k' => tear_writes k k' r
  end.

(** A run whose spawns draw new ids and respect the limit [K]. *)
Inductive reach (K : nat) : registry -> registry -> Prop :=
  | reach_refl r : reach K r r
  | reach_step r r' o : reach K r r' ->
      (forall root tid os session digest limits now,
         o = OSpawn root tid os session digest limits now ->
         entries r' !! tid = None /\ (max_concurrent limits <= K)%nat) ->
      reach K r (run_op r' o).
