(* ===== verification/TaskProps.v ===== *)
(** * What the task registry guarantees

    Entries only evolve: a terminal status is final, entries are never dropped
    and identities never change; the live tasks stay within the limit; deadlines
    expire exactly; notices are offered until confirmed, to their own session
    only; captures hold what the cap allows; the disk never contradicts the
    registry; the boot sweep signals only verified groups. *)

From S2P Require Import Prelude Text TaskRegistry.
From Stdlib Require Import Lia.
Local Open Scope string_scope.

Lemma is_running_terminal e : is_running e = negb (is_terminal (status (e_snapshot e))).
Proof. unfold is_running. by destruct (status (e_snapshot e)). Qed.

Lemma running_not_terminal e : is_running e = true -> is_terminal (status (e_snapshot e)) = false.
Proof. rewrite is_running_terminal. by destruct (is_terminal _). Qed.

(** ** How operations change entries

    [R] relates an entry to what it may become.  Every operation but a spawn
    and a confirmation changes entries along [R], when [R] allows a task to
    settle, to count bytes and to be reaped. *)
Section evolution.
Context (R : TaskEntry -> TaskEntry -> Prop) `{!PreOrder R}.
Context (R_settle : forall e st t, is_terminal (status (e_snapshot e)) = false ->
  R e (with_snapshot (with_status st t (e_snapshot e)) e)).
Context (R_count : forall e o n c, R e (with_snapshot (count_bytes o n c (e_snapshot e)) e)).
Context (R_same : forall e, R e (with_snapshot (e_snapshot e) e)).
Context (R_reap : forall e, R e (set_reaped e)).

Definition grows (r r' : registry) : Prop :=
  forall tid e, entries r !! tid = Some e -> exists e', entries r' !! tid = Some e' /\ R e e'.

(** Two registries track the same tasks. *)
Definition same_tasks (r r' : registry) : Prop :=
  grows r r' /\ forall tid, entries r !! tid = None -> entries r' !! tid = None.

#[local] Instance same_tasks_refl : Reflexive same_tasks.
Proof. split; [|done]. intros tid e He. by exists e. Qed.

#[local] Instance same_tasks_trans : Transitive same_tasks.
Proof.
  intros r1 r2 r3 [H1 N1] [H2 N2]. split; [|by auto].
  intros tid e He. destruct (H1 tid e He) as (e2 & He2 & Hv2).
  destruct (H2 tid e2 He2) as (e3 & He3 & Hv3). exists e3. split; [done|]. by transitivity e2.
Qed.

Lemma same_entries r r' : entries r' = entries r -> same_tasks r r'.
Proof. intros He. split; [|by rewrite He]. intros tid e Hl. exists e. by rewrite He. Qed.

(** An update of one entry and anything that leaves the entries alone. *)
Lemma touched tid e e' r r' : entries r !! tid = Some e -> R e e' ->
  entries r' = <[tid := e']> (entries r) -> same_tasks r r'.
Proof.
  intros He Hv Hr. split.
  - intros t x Hx. rewrite Hr. destruct (decide (t = tid)) as [->|Hne].
    + exists e'. rewrite lookup_insert_eq. split; [done|]. by replace x with e by congruence.
    + exists x. by rewrite lookup_insert_ne.
  - intros t Ht. rewrite Hr, lookup_insert_ne; [done|]. by intros ->; congruence.
Qed.

Lemma fold_same {A} (f : list string * registry -> A -> list string * registry) l :
  (forall acc x, same_tasks acc.2 (f acc x).2) -> forall acc, same_tasks acc.2 (fold_left f l acc).2.
Proof.
  intros Hf. induction l as [|x l IH]; intros acc; [done|]. simpl. transitivity (f acc x).2; [apply Hf|apply IH].
Qed.

Lemma expire_one_same now acc tid : same_tasks acc.2 (expire_one now acc tid).2.
Proof.
  destruct acc as [ids r]. simpl. destruct (entries r !! tid) as [e|] eqn:He; [|done].
  destruct (is_running e) eqn:Hr; [|done]. apply running_not_terminal in Hr.
  eapply touched; [done|by apply R_settle|]. simpl. by destruct (reaped e).
Qed.

Lemma kill_all_one_same b now acc tid : same_tasks acc.2 (kill_all_one b now acc tid).2.
Proof.
  destruct acc as [ids r]. simpl. destruct (entries r !! tid) as [e|] eqn:He; [|done].
  destruct (is_running e) eqn:Hr; [|done]. apply running_not_terminal in Hr.
  eapply touched; [done|by apply R_settle|]. simpl. by destruct b.
Qed.

Lemma kill_same tid now r : same_tasks r (kill tid now r).2.
Proof.
  unfold kill. destruct (entries r !! tid) as [e|] eqn:He; [|done].
  destruct (is_terminal _) eqn:Ht; [done|]. eapply touched; [done|by apply R_settle|]. simpl. by destruct (reaped e).
Qed.

Lemma record_exit_same tid x now r : same_tasks r (record_exit tid x now r).
Proof.
  unfold record_exit. destruct (entries r !! tid) as [e|] eqn:He; [|done].
  destruct (is_terminal _) eqn:Ht; (eapply touched; [done| |done]); [apply R_same|by apply R_settle].
Qed.

Lemma kill_all_blocking_same alive now r : same_tasks r (kill_all_blocking alive now r).2.
Proof.
  unfold kill_all_blocking.
  pose proof (fold_same _ (live_ids r) (kill_all_one_same false now) ([], r)) as Hf. revert Hf.
  destruct (fold_left (kill_all_one false now) (live_ids r) ([], r)) as [[|i ids] r1]; simpl; [done|].
  intros Hf. transitivity r1; [done|]. apply same_entries.
  generalize (omap (fun t => pid ∘ e_snapshot <$> entries r !! t) (live_ids r)) as pids.
  clear. intros pids. revert r1. induction pids as [|p pids IH]; intros r1; [done|]. simpl. rewrite IH.
  by destruct (alive p).
Qed.

Lemma run_op_same r o : (forall root tid os session digest limits now,
    o <> OSpawn root tid os session digest limits now) ->
  (forall session ids, o <> ONotified session ids) -> same_tasks r (run_op r o).
Proof.
  intros Hn Hm. destruct o; simpl.
  - by edestruct Hn.
  - unfold reap. destruct (entries r !! tid) as [e|] eqn:He; [|done]. eapply touched; [done|apply R_reap|done].
  - apply record_exit_same.
  - unfold finalize. destruct (entries r !! tid) as [e|]; [|done]. destruct (is_terminal _); [|done]. by apply same_entries.
  - unfold drain_read. destruct (entries r !! tid) as [e|] eqn:He; [|done].
    eapply touched; [done|apply R_count|done].
  - by edestruct Hm.
  - apply kill_same.
  - unfold escalate. case_bool_decide; [|done]. by destruct alive; apply same_entries.
  - unfold expire_due. destruct (due_ids _ _) as [ids| |]; [|done|done]. simpl.
    pose proof (fold_same (expire_one now) ids (expire_one_same now) ([], r)) as Hf.
    by destruct (fold_left (expire_one now) ids ([], r)).
  - apply (fold_same _ _ (kill_all_one_same true now) ([], r)).
  - apply kill_all_blocking_same.
  - by apply same_entries.
  - unfold land_write. destruct (writes r !! k) as [[t m]|]; [|done]. by apply same_entries.
  - by apply same_entries.
  - unfold tear_writes. destruct (writes r !! k) as [[t m]|], (writes r !! k') as [[t' m']|]; try done. case_bool_decide; [by apply same_entries|done].
Qed.

Lemma spawn_grows root tid os session digest limits now r : entries r !! tid = None ->
  grows r (spawn_background root tid os session digest limits now r).2.
Proof.
  intros Hn. assert (Hr : grows r r) by apply same_tasks_refl.
  unfold spawn_background. destruct (draining r); [done|]. destruct (_ <=? _)%nat; [done|].
  destruct os; try done. intros t e He. exists e. simpl. rewrite lookup_insert_ne; [done|]. by intros ->; congruence.
Qed.

Lemma notified_same session ids : forall r, (forall e, R e (set_notified e)) ->
  same_tasks r (mark_notified session ids r).
Proof.
  unfold mark_notified. induction ids as [|tid ids IH]; intros r Hn; [done|]. simpl. etransitivity; [|by apply IH].
  destruct (entries r !! tid) as [e|] eqn:He; [|done]. destruct (String.eqb _ _); [|done].
  by eapply touched; [done|apply Hn|].
Qed.
End evolution.

(** What never changes, and what a terminal status pins. *)
Record evolves (e e' : TaskEntry) : Prop := {
  ev_session : e_session e' = e_session e;
  ev_limits : e_limits e' = e_limits e;
  ev_id : task_id (e_snapshot e') = task_id (e_snapshot e);
  ev_pid : pid (e_snapshot e') = pid (e_snapshot e);
  ev_started : started_at_ms (e_snapshot e') = started_at_ms (e_snapshot e);
  ev_final : is_terminal (status (e_snapshot e)) = true ->
    status (e_snapshot e') = status (e_snapshot e) /\ ended_at_ms (e_snapshot e') = ended_at_ms (e_snapshot e);
  ev_reaped : reaped e = true -> reaped e' = true;
}.

#[export] Instance evolves_pre : PreOrder evolves.
Proof.
  split; [by split|].
  intros e1 e2 e3 [] []. split; try (etransitivity; eassumption); [|by auto].
  intros Ht. destruct ev_final0 as [Hs He]; [done|]. destruct ev_final1 as [Hs' He']; [by rewrite Hs|]. split; congruence.
Qed.

Lemma evolves_settle e st t : is_terminal (status (e_snapshot e)) = false ->
  evolves e (with_snapshot (with_status st t (e_snapshot e)) e).
Proof. intros Hs. split; simpl; try done. by rewrite Hs. Qed.

Lemma run_op_tracks r o : (forall root tid os session digest limits now,
    o <> OSpawn root tid os session digest limits now) -> same_tasks evolves r (run_op r o).
Proof.
  intros Hs. destruct o as [| | | | |session ids| | | | | | | | |] eqn:Ho.
  6: { apply notified_same; [apply _|]. by split. }
  all: apply run_op_same; try apply _; try done; try (by split); apply evolves_settle.
Qed.

Lemma run_op_grows r o : (forall root tid os session digest limits now,
    o = OSpawn root tid os session digest limits now -> entries r !! tid = None) ->
  grows evolves r (run_op r o).
Proof.
  intros Hf. destruct o as [root tid os session digest limits now| | | | | | | | | | | | | |] eqn:Ho.
  { apply spawn_grows; [apply _|by eapply Hf]. }
  all: by apply run_op_tracks.
Qed.

Lemma reach_grows K r r' : reach K r r' -> grows evolves r r'.
Proof.
  induction 1 as [r|r r' o _ IH Hf]; [by intros tid e He; exists e|].
  intros tid e He. destruct (IH tid e He) as (e1 & He1 & Hv1).
  destruct (run_op_grows r' o) with tid e1 as (e2 & He2 & Hv2); [by intros; edestruct Hf|done|].
  exists e2. split; [done|]. by transitivity e1.
Qed.

(** A terminal status is final: once a task has completed, failed, timed
    out or been killed, no operation of the registry changes its status or its
    end time, drops its entry, or gives its id to another process. *)
Theorem terminal_final K r r' tid e : reach K r r' ->
  entries r !! tid = Some e -> is_terminal (status (e_snapshot e)) = true ->
  exists e', entries r' !! tid = Some e' /\ status (e_snapshot e') = status (e_snapshot e) /\
    ended_at_ms (e_snapshot e') = ended_at_ms (e_snapshot e) /\
    pid (e_snapshot e') = pid (e_snapshot e) /\ e_session e' = e_session e.
Proof.
  intros Hr He Ht. destruct (reach_grows K r r' Hr tid e He) as (e' & He' & Hv).
  exists e'. destruct (ev_final _ _ Hv Ht) as [Hs Hd]. by split_and!; try apply Hv.
Qed.

(** ** The limit *)

Lemma elem_live_ids r tid : tid ∈ live_ids r <-> exists e, entries r !! tid = Some e /\ is_running e = true.
Proof.
  unfold live_ids. rewrite list_elem_of_fmap. split.
  - intros ([t e] & -> & [Hr Hin]%list_elem_of_filter). exists e. split; [by apply elem_of_map_to_list|].
    by apply Is_true_true.
  - intros (e & He & Hr). exists (tid, e). split; [done|]. apply list_elem_of_filter.
    split; [by apply Is_true_true|by apply elem_of_map_to_list].
Qed.

Lemma live_ids_NoDup r : NoDup (live_ids r).
Proof. eapply sublist_NoDup; [apply (NoDup_fst_map_to_list (entries r))|]. apply fmap_sublist, sublist_filter. Qed.

Lemma live_count_ids r : live_count r = length (live_ids r).
Proof. unfold live_count, live_ids. by rewrite length_fmap. Qed.

Lemma live_count_le r r' extra : (forall tid, tid ∈ live_ids r' -> tid ∈ extra ++ live_ids r)%list ->
  (live_count r' <= length extra + live_count r)%nat.
Proof.
  intros Hs. rewrite !live_count_ids, <- length_app. apply submseteq_length, NoDup_submseteq; [apply live_ids_NoDup|done].
Qed.

Lemma same_tasks_live r r' : same_tasks evolves r r' -> (live_count r' <= live_count r)%nat.
Proof.
  intros [Hg Hn]. apply (live_count_le r r' []). intros tid. simpl. rewrite !elem_live_ids.
  intros (e' & He' & Hr'). destruct (entries r !! tid) as [e|] eqn:He; [|apply Hn in He; congruence].
  exists e. split; [done|]. destruct (Hg tid e He) as (e2 & He2 & Hv). assert (e2 = e') as -> by congruence.
  rewrite is_running_terminal in *. destruct (is_terminal (status (e_snapshot e))) eqn:Ht; [|done].
  destruct (ev_final _ _ Hv Ht) as [Hs _]. by rewrite Hs, Ht in Hr'.
Qed.

(** The limit holds: however spawns, exits, kills and expiries interleave,
    a registry whose spawns ask for at most [K] never runs more than [K]
    tasks. *)
Theorem live_bounded K r r' : reach K r r' -> (live_count r <= K)%nat -> (live_count r' <= K)%nat.
Proof.
  induction 1 as [r|r r' o _ IH Hf]; [done|]. intros Hk. specialize (IH Hk).
  destruct o as [root tid os session digest limits now| | | | | | | | | | | | | |] eqn:Ho.
  2-15: etransitivity; [by apply same_tasks_live, run_op_tracks|done].
  destruct (Hf _ _ _ _ _ _ _ eq_refl) as [_ Hlim]. simpl. unfold spawn_background.
  destruct (draining r'); [done|]. destruct (Nat.leb_spec (max_concurrent limits) (live_count r')) as [|Hlt]; [done|].
  destruct os as [| | |p]; try done. simpl.
  match goal with |- (live_count ?r2 <= _)%nat =>
    assert ((live_count r2 <= 1 + live_count r')%nat); [|lia]; apply (live_count_le r' r2 [tid]) end.
  intros t. rewrite elem_live_ids. simpl. intros (e & He & Hr).
  destruct (decide (t = tid)) as [->|Hne]; [by left|]. right. apply elem_live_ids. exists e.
  by rewrite lookup_insert_ne in He.
Qed.

(** ** Settling a batch of tasks *)

(** Every entry sits under its own task id. *)
Definition keyed (r : registry) : Prop := forall tid e, entries r !! tid = Some e -> task_id (e_snapshot e) = tid.

Lemma keyed_reach K r r' : reach K r r' -> keyed r -> keyed r'.
Proof.
  induction 1 as [r|r r' o _ IH Hf]; [done|]. intros Hk. specialize (IH Hk).
  assert (Hcase : forall root tid os session digest limits now,
    o = OSpawn root tid os session digest limits now -> keyed (run_op r' o)).
  { intros root tid os session digest limits now ->. simpl. unfold spawn_background. destruct (draining r'); [done|].
    destruct (_ <=? _)%nat; [done|]. destruct os as [| | |p]; try done. intros t e. simpl.
    rewrite lookup_insert_Some. intros [[<- <-]|[_ He]]; [done|by apply IH]. }
  assert (Hsame : same_tasks evolves r' (run_op r' o) -> keyed (run_op r' o)).
  { intros [Hg Hn] t e' He'. destruct (entries r' !! t) as [e|] eqn:He; [|apply Hn in He; congruence].
    destruct (Hg t e He) as (e2 & He2 & Hv). assert (e2 = e') as -> by congruence. rewrite (ev_id _ _ Hv). by apply IH. }
  destruct o; try (apply Hsame, run_op_tracks; by intros). by eapply Hcase.
Qed.

(** A loop that settles the running tasks it is given, one after the other. *)
Section settle.
Context (f : list string * registry -> string -> list string * registry).
Context (g : TaskEntry -> TaskEntry) (h : TaskEntry -> list (N * signal)).
Context (f_running : forall ids r tid e, entries r !! tid = Some e -> is_running e = true ->
  (f (ids, r) tid).1 = (ids ++ [task_id (e_snapshot e)])%list /\
  entries (f (ids, r) tid).2 = <[tid := g e]> (entries r) /\
  signals (f (ids, r) tid).2 = (signals r ++ h e)%list).

Lemma fold_settle l : forall ids r, NoDup l ->
  (forall tid, tid ∈ l -> exists e, entries r !! tid = Some e /\ is_running e = true) ->
  let '(ids', r') := fold_left f l (ids, r) in
  let es := omap (fun tid => entries r !! tid) l in
  ids' = (ids ++ map (fun e => task_id (e_snapshot e)) es)%list /\
  (forall tid, entries r' !! tid = (if decide (tid ∈ l) then g else id) <$> entries r !! tid) /\
  signals r' = (signals r ++ flat_map h es)%list.
Proof.
  induction l as [|t l IH]; intros ids r Hnd Hl.
  { simpl. rewrite !app_nil_r. split_and!; try done. intros tid. 
    by destruct (entries r !! tid). }
  apply NoDup_cons in Hnd as [Hn Hnd]. destruct (Hl t) as (e & He & Hr); [by left|].
  destruct (f_running ids r t e He Hr) as (Hi & Hen & Hs). cbn [fold_left].
  destruct (f (ids, r) t) as [ids1 r1]. simpl in Hi, Hen, Hs.
  assert (Hother : forall tid, tid ∈ l -> entries r1 !! tid = entries r !! tid).
  { intros tid Hin. rewrite Hen, lookup_insert_ne; [done|]. by intros ->. }
  specialize (IH ids1 r1 Hnd). destruct (fold_left f l (ids1, r1)) as [ids' r'].
  destruct IH as (Hi' & He' & Hs'). { intros tid Hin. rewrite Hother by done. apply Hl. by right. }
  assert (Hes : omap (fun tid => entries r1 !! tid) l = omap (fun tid => entries r !! tid) l).
  { clear -Hother. induction l as [|x l IH]; [done|]. simpl. rewrite Hother by left.
    destruct (entries r !! x); [f_equal|]; apply IH; intros tid Hin; apply Hother; by right. }
  rewrite Hes in Hi', Hs'. simpl. rewrite He. split_and!.
  - rewrite Hi', Hi. simpl. by rewrite <- app_assoc.
  - intros tid. rewrite He'. destruct (decide (tid = t)) as [->|Hne].
    + rewrite decide_False by done. rewrite decide_True by left. rewrite Hen, lookup_insert_eq, He. done.
    + rewrite Hen, lookup_insert_ne by done.
      rewrite (decide_ext (tid ∈ t :: l) (tid ∈ l)); [done|]. rewrite elem_of_cons. by split; [intros [|]|right].
  - rewrite Hs', Hs, <- app_assoc. done.
Qed.
End settle.

Lemma expire_one_running now ids r tid e : entries r !! tid = Some e -> is_running e = true ->
  (expire_one now (ids, r) tid).1 = (ids ++ [task_id (e_snapshot e)])%list /\
  entries (expire_one now (ids, r) tid).2 =
    <[tid := with_snapshot (with_status Timeout now (e_snapshot e)) e]> (entries r) /\
  signals (expire_one now (ids, r) tid).2 =
    (signals r ++ if reaped e then [] else [(pid (e_snapshot e), SIGKILL)])%list.
Proof. intros He Hr. simpl. rewrite He, Hr. simpl. split_and!; destruct (reaped e); simpl; rewrite ?app_nil_r; done. Qed.

Lemma kill_all_one_running b now ids r tid e : entries r !! tid = Some e -> is_running e = true ->
  (kill_all_one b now (ids, r) tid).1 = (ids ++ [task_id (e_snapshot e)])%list /\
  entries (kill_all_one b now (ids, r) tid).2 =
    <[tid := with_snapshot (with_status Killed now (e_snapshot e)) e]> (entries r) /\
  signals (kill_all_one b now (ids, r) tid).2 = (signals r ++ [(pid (e_snapshot e), SIGTERM)])%list.
Proof. intros He Hr. simpl. rewrite He, Hr. simpl. by destruct b. Qed.

Lemma omap_entries_in (r : registry) (l : list string) e : e ∈ omap (fun tid => entries r !! tid) l <-> exists tid, tid ∈ l /\ entries r !! tid = Some e.
Proof. rewrite list_elem_of_omap. naive_solver. Qed.

Lemma omap_ids (r : registry) (l : list string) : keyed r ->
  (forall tid, tid ∈ l -> exists e, entries r !! tid = Some e) ->
  map (fun e => task_id (e_snapshot e)) (omap (fun tid => entries r !! tid) l) = l.
Proof.
  intros Hk. induction l as [|t l IH]; intros Hl; [done|]. destruct (Hl t) as [e Ht]; [by left|].
  simpl. rewrite Ht. simpl. rewrite (Hk t e Ht). f_equal. apply IH. intros x Hx. apply Hl. by right.
Qed.

(** ** Deadlines *)

(** The deadline of an entry stays in range. *)
Definition deadline_fits (e : TaskEntry) : Prop := exists d, deadline e = Done d.

Definition expired (now : Z) (e : TaskEntry) : bool :=
  match due now e with Done b => b | _ => false end.

Lemma due_ids_done now (l : list (string * TaskEntry)) : (forall x, x ∈ l -> is_running x.2 = true -> deadline_fits x.2) ->
  due_ids now l = Done (map fst (filter (fun x => expired now x.2) l)).
Proof.
  induction l as [|[tid e] l IH]; intros Hl; [done|]. cbn [due_ids].
  assert (Hd : due now e = Done (expired now e)).
  { unfold expired, due. destruct (is_running e) eqn:Hr; [|done].
    destruct (Hl (tid, e)) as [d Hd]; [by left|done|]. simpl in Hd. by rewrite Hd. }
  rewrite Hd. simpl. rewrite IH by (intros x Hx; apply Hl; by right). simpl. rewrite filter_cons.
  simpl. by destruct (expired now e).
Qed.

Lemma expired_running now e : expired now e = true -> is_running e = true.
Proof. unfold expired, due. by destruct (is_running e). Qed.

Definition timed_out (now : Z) (e : TaskEntry) : TaskEntry :=
  with_snapshot (with_status Timeout now (e_snapshot e)) e.

(** Deadlines expire exactly: unless a deadline overflows, the tick times
    out the running tasks past their deadline, each once, and nothing else; it
    answers their ids, and signals their groups, but never that of a task
    whose process was already reaped. *)
Theorem expire_exact now r : keyed r ->
  (forall tid e, entries r !! tid = Some e -> is_running e = true -> deadline_fits e) ->
  exists ids r', expire_due now r = Done (ids, r') /\ NoDup ids /\
    (forall tid, tid ∈ ids <-> exists e, entries r !! tid = Some e /\ expired now e = true) /\
    (forall tid, entries r' !! tid =
       (fun e => if expired now e then timed_out now e else e) <$> entries r !! tid) /\
    exists more, signals r' = (signals r ++ more)%list /\
      forall p sig, (p, sig) ∈ more <-> sig = SIGKILL /\ exists tid e, entries r !! tid = Some e /\
        expired now e = true /\ reaped e = false /\ pid (e_snapshot e) = p.
Proof.
  intros Hk Hfit. unfold expire_due. rewrite due_ids_done.
  2: { intros [tid e] Hin. apply elem_of_map_to_list in Hin. by apply Hfit with tid. }
  simpl. set (l := map fst (filter (fun x => expired now x.2) (map_to_list (entries r)))).
  assert (Hin : forall tid, tid ∈ l <-> exists e, entries r !! tid = Some e /\ expired now e = true).
  { intros tid. unfold l. rewrite list_elem_of_fmap. split.
    - intros ([t e] & -> & [He Hm]%list_elem_of_filter). exists e. split; [by apply elem_of_map_to_list|by apply Is_true_true].
    - intros (e & He & Hx). exists (tid, e). split; [done|]. apply list_elem_of_filter.
      split; [by apply Is_true_true|by apply elem_of_map_to_list]. }
  assert (Hnd : NoDup l).
  { eapply sublist_NoDup; [apply (NoDup_fst_map_to_list (entries r))|]. apply fmap_sublist, sublist_filter. }
  pose proof (fold_settle (expire_one now) (timed_out now)
    (fun e => if reaped e then [] else [(pid (e_snapshot e), SIGKILL)]) (expire_one_running now) l [] r Hnd) as Hf.
  destruct (fold_left (expire_one now) l ([], r)) as [ids r'].
  destruct Hf as (Hi & He & Hs). { intros tid (e & Hl & Hx)%Hin. exists e. split; [done|]. by eapply expired_running. }
  assert (Hids : ids = l).
  { rewrite Hi. apply omap_ids; [done|]. intros t (e & Ht & _)%Hin. by exists e. }
  exists ids, r'. split; [done|]. split; [by rewrite Hids|]. split; [by rewrite Hids|]. split.
  - intros tid. rewrite He. destruct (entries r !! tid) as [e|] eqn:Ht; [|done]. simpl. f_equal.
    destruct (decide (tid ∈ l)) as [Hd|Hd]; destruct (expired now e) eqn:Hx; try done.
    + apply Hin in Hd as (e2 & He2 & Hx2). congruence.
    + exfalso. apply Hd, Hin. eauto.
  - exists (flat_map (fun e => if reaped e then [] else [(pid (e_snapshot e), SIGKILL)]) (omap (fun tid => entries r !! tid) l)).
    split; [done|]. intros p sig. rewrite list_elem_of_In, in_flat_map. split.
    + intros (e & Hel & Hps). apply list_elem_of_In, omap_entries_in in Hel as (tid & Htl & Ht).
      apply Hin in Htl as (e2 & He2 & Hx). assert (e2 = e) as -> by congruence.
      destruct (reaped e) eqn:Hre; [done|]. destruct Hps as [[= <- <-]|[]]. eauto 10.
    + intros (-> & tid & e & Ht & Hx & Hre & <-). exists e. rewrite <- list_elem_of_In, omap_entries_in.
      split; [exists tid; split; [apply Hin; eauto|done]|]. rewrite Hre. by left.
Qed.

(** The drain ignores the reuse guard: [kill_all] signals the process id of
    every running task, also one whose process has been reaped, for which
    [kill] sends nothing. *)
Theorem kill_all_signals_reaped now r tid e :
  entries r !! tid = Some e -> is_running e = true -> reaped e = true ->
  (pid (e_snapshot e), SIGTERM) ∈ drop (length (signals r)) (signals (kill_all now r).2) /\
  signals (kill tid now r).2 = signals r.
Proof.
  intros He Hr Hre. split.
  - unfold kill_all.
    pose proof (fold_settle (kill_all_one true now) _ _ (kill_all_one_running true now) (live_ids r) [] r (live_ids_NoDup r)) as Hf.
    destruct (fold_left _ _ _) as [ids r']. destruct Hf as (_ & _ & Hs). { intros t Ht. by apply elem_live_ids. }
    simpl. rewrite Hs, drop_app_length, list_elem_of_In, in_flat_map. exists e.
    rewrite <- list_elem_of_In, omap_entries_in. split; [|by left]. exists tid. split; [|done]. apply elem_live_ids. eauto.
  - unfold kill. rewrite He. apply running_not_terminal in Hr. rewrite Hr, Hre. done.
Qed.

(** ** Notices *)

(** The change of task [tid] is offered to [session]. *)
Definition offered (session tid : string) (r : registry) : Prop :=
  exists s, s ∈ take_status_changes session r /\ task_id s = tid.

Definition unconfirmed (session tid : string) (r : registry) : Prop :=
  exists e, entries r !! tid = Some e /\ e_session e = session /\
    is_terminal (status (e_snapshot e)) = true /\ notified e = false.

Lemma offered_unconfirmed session tid r : keyed r -> offered session tid r <-> unconfirmed session tid r.
Proof.
  intros Hk. unfold offered, unconfirmed, take_status_changes, entry_list. setoid_rewrite list_elem_of_omap. split.
  - intros (s & (e & ([t e'] & -> & Hin)%list_elem_of_fmap & He) & <-). apply elem_of_map_to_list in Hin. simpl in *.
    destruct (String.eqb_spec (e_session e') session); [|done]. destruct (notified e') eqn:Hn; [done|]. simpl in He.
    destruct (is_terminal _) eqn:Ht; [|done]. injection He as <-. rewrite (Hk t e' Hin). eauto.
  - intros (e & He & Hs & Ht & Hn). exists (e_snapshot e). split; [|by apply Hk]. exists e. split.
    + apply list_elem_of_fmap. exists (tid, e). by rewrite elem_of_map_to_list.
    + by rewrite Hs, String.eqb_refl, Hn, Ht.
Qed.

Definition keeps_notice (e e' : TaskEntry) : Prop := evolves e e' /\ notified e' = notified e.

#[local] Instance keeps_notice_pre : PreOrder keeps_notice.
Proof.
  split; [by split|]. intros e1 e2 e3 [H1 N1] [H2 N2]. split; [by transitivity e2|congruence].
Qed.

Lemma mark_notified_lookup session ids : forall r tid,
  entries (mark_notified session ids r) !! tid =
  (fun e => if bool_decide (tid ∈ ids) && String.eqb (e_session e) session then set_notified e else e)
    <$> entries r !! tid.
Proof.
  unfold mark_notified. induction ids as [|t ids IH]; intros r tid.
  { simpl. by destruct (entries r !! tid). }
  cbn [fold_left]. rewrite IH. clear IH. destruct (decide (tid = t)) as [->|Hne].
  - rewrite (bool_decide_eq_true_2 (t ∈ t :: ids)) by left. destruct (entries r !! t) as [e|] eqn:He; [|by rewrite He].
    destruct (String.eqb (e_session e) session) eqn:Hs.
    + simpl. rewrite lookup_insert_eq. simpl. by destruct (_ && _); rewrite Hs.
    + rewrite He. simpl. by rewrite Hs, andb_false_r.
  - assert (Hd : bool_decide (tid ∈ t :: ids) = bool_decide (tid ∈ ids)).
    { apply bool_decide_ext. rewrite elem_of_cons. by split; [intros [|]|right]. }
    rewrite Hd. f_equal. destruct (entries r !! t) as [e|]; [|done]. destruct (String.eqb _ _); [|done].
    simpl. by rewrite lookup_insert_ne.
Qed.

(** Notices are delivered at least once and to their owner only: a session
    is offered exactly its own settled, unconfirmed tasks; an offer stands
    through every operation but its own confirmation by that session, which
    ends it. *)
Theorem notice_until_confirmed session tid r : keyed r ->
  (offered session tid r <-> unconfirmed session tid r) /\
  (offered session tid r -> forall o,
     (forall root t os s digest limits now, o = OSpawn root t os s digest limits now -> entries r !! t = None) ->
     (forall ids, o = ONotified session ids -> tid ∉ ids) -> unconfirmed session tid (run_op r o)) /\
  (forall ids, tid ∈ ids -> ~ unconfirmed session tid (mark_notified session ids r)).
Proof.
  intros Hk. split; [by apply offered_unconfirmed|]. split.
  - intros Ho%offered_unconfirmed o Hf Hc; [|done]. destruct Ho as (e & He & Hs & Ht & Hn).
    assert (Hkeep : grows keeps_notice r (run_op r o) -> unconfirmed session tid (run_op r o)).
    { intros Hg. destruct (Hg tid e He) as (e' & He' & Hv & Hn'). exists e'. split_and!; [done| | |congruence].
      - rewrite (ev_session _ _ Hv). done.
      - destruct (ev_final _ _ Hv Ht) as [-> _]. done. }
    destruct o as [root t os s digest limits now| | | | |s ids| | | | | | | | |].
    { apply Hkeep, spawn_grows; [apply _|]. by eapply Hf. }
    5: { exists e. simpl. rewrite mark_notified_lookup, He. simpl.
         destruct (bool_decide _ && _) eqn:Hb; [|by split_and!]. exfalso.
         apply andb_true_iff in Hb as [Hin%bool_decide_eq_true Heq%String.eqb_eq]. subst.
         by eapply Hc. }
    all: apply Hkeep, run_op_same; try apply _; try done; try (by split).
    all: by intros; split; [apply evolves_settle|].
  - intros ids Hin (e' & He' & Hs & _ & Hn). rewrite mark_notified_lookup in He'.
    destruct (entries r !! tid) as [e|]; [|done]. simpl in He'. rewrite bool_decide_eq_true_2 in He' by done.
    simpl in He'. destruct (String.eqb_spec (e_session e) session) as [|Hne]; injection He' as <-; done.
Qed.

(** ** Captures *)

Lemma capture_spec cap buf ok d before : open d = true ->
  contents d = take (N.to_nat cap) before -> captured d = N.of_nat (length (contents d)) ->
  let d' := capture cap buf ok d in
  (ok = true -> open d' = true /\ contents d' = take (N.to_nat cap) (before ++ buf) /\
     captured d' = N.of_nat (length (contents d'))) /\
  (ok = false -> contents d' = contents d /\ captured d' = captured d).
Proof.
  intros Ho Hc Hn d'. unfold d', capture. rewrite Ho. simpl. destruct (N.ltb_spec (captured d) cap) as [Hlt|Hge].
  - destruct ok; (split; [|done]); [intros _|done]. rewrite Hn, Hc, length_take in Hlt.
    assert (Hle : (length before < N.to_nat cap)%nat) by lia. simpl.
    rewrite Hc, (take_ge before), take_app_ge by lia.
    assert (Ht : take (N.to_nat (N.min (cap - captured d) (N.of_nat (length buf)))) buf =
                 take (N.to_nat cap - length before) buf).
    { rewrite Hn, Hc, (take_ge before) by lia. destruct (Nat.le_gt_cases (length buf) (N.to_nat cap - length before)).
      - rewrite !take_ge by lia. done.
      - f_equal. lia. }
    rewrite Ht, length_app, length_take, Hn, Hc, (take_ge before) by lia. split_and!; [done|done|lia].
  - split; [|done]. intros _. split_and!; [done| |done]. rewrite Hc. rewrite Hn, Hc, length_take in Hge.
    by rewrite take_app_le by lia.
Qed.

Definition stream_bytes (is_stdout : bool) (s : TaskSnapshot) : N :=
  if is_stdout then bytes_stdout s else bytes_stderr s.

Lemma count_truncated o n cap s :
  truncated (count_bytes o n cap s) = truncated s || (cap <? stream_bytes o (count_bytes o n cap s))%N.
Proof. by destruct o; cbn; destruct (cap <? _)%N, (truncated s). Qed.

Lemma capture_closed cap buf ok d : open d = false -> capture cap buf ok d = d.
Proof. intros Ho. unfold capture. by rewrite Ho. Qed.

Lemma drain_closed cap o reads : forall d s, open d = false -> (drain_pipe cap o reads d s).1 = d.
Proof.
  induction reads as [|[buf ok] reads IH]; intros d s Ho; [done|]. simpl. destruct buf; [done|].
  rewrite capture_closed by done. by apply IH.
Qed.

Lemma drain_counts cap o reads : forall d s, Forall (fun x => x.1 <> []) reads ->
  let total := N.of_nat (length (concat reads.*1)) in
  let s' := (drain_pipe cap o reads d s).2 in
  stream_bytes o s' = (stream_bytes o s + total)%N /\
  (reads <> [] -> truncated s' = truncated s || (cap <? stream_bytes o s + total)%N).
Proof.
  induction reads as [|[buf ok] reads IH]; intros d s Hne; [by split; [simpl; lia|]|].
  apply Forall_cons in Hne as [Hb Hne]. simpl in Hb. destruct buf as [|b buf]; [done|].
  cbn [drain_pipe fmap list_fmap fst concat]. set (s1 := count_bytes _ _ _ _).
  destruct (IH (capture cap (b :: buf) ok d) s1 Hne) as [Hs Ht]. cbn zeta in *. rewrite Hs, length_app.
  assert (Hs1 : stream_bytes o s1 = (stream_bytes o s + N.of_nat (length (b :: buf)))%N) by (by destruct o).
  rewrite Hs1. split; [lia|]. intros _.
  assert (Ht1 : truncated s1 = truncated s || (cap <? stream_bytes o s1)%N).
  { apply count_truncated. }
  destruct reads as [|x reads].
  - cbn [drain_pipe snd]. rewrite Ht1, Hs1. do 2 f_equal. cbn. lia.
  - rewrite Ht by done. rewrite Ht1, Hs1, <- orb_assoc. f_equal.
    match goal with |- (cap <? ?a)%N || (cap <? ?b)%N = (cap <? ?c)%N =>
      replace c with b by lia; destruct (N.ltb_spec cap a); destruct (N.ltb_spec cap b); try done; lia end.
Qed.

Lemma drain_contents cap o reads : forall d s before, open d = true ->
  Forall (fun x => x.1 <> []) reads ->
  contents d = take (N.to_nat cap) before -> captured d = N.of_nat (length (contents d)) ->
  let d' := (drain_pipe cap o reads d s).1 in
  captured d' = N.of_nat (length (contents d')) /\
  contents d' `prefix_of` take (N.to_nat cap) (before ++ concat reads.*1) /\
  (Forall (fun x => x.2 = true) reads -> contents d' = take (N.to_nat cap) (before ++ concat reads.*1)).
Proof.
  induction reads as [|[buf ok] reads IH]; intros d s before Ho Hne Hc Hn.
  { simpl. rewrite app_nil_r, Hc. split_and!; [by rewrite <- Hc|done|done]. }
  apply Forall_cons in Hne as [Hb Hne]. simpl in Hb. cbn [drain_pipe]. destruct buf as [|b buf]; [done|].
  cbn [fmap list_fmap fst concat]. set (d1 := capture _ _ _ _).
  destruct (capture_spec cap (b :: buf) ok d before Ho Hc Hn) as [Hok Hko]. fold d1 in Hok, Hko.
  destruct ok.
  - destruct Hok as (Ho1 & Hc1 & Hn1); [done|].
    match goal with |- context [drain_pipe _ _ _ _ ?s1] =>
      destruct (IH d1 s1 (before ++ b :: buf)%list Ho1 Hne Hc1 Hn1) as (Hl & Hp & He) end.
    rewrite app_assoc. split_and!; [done|done|]. intros Hall. apply Forall_cons in Hall as [_ Hall]. by apply He.
  - destruct Hko as [Hc1 Hn1]; [done|].
    assert (Hcase : open d1 = false \/ d1 = d).
    { unfold d1, capture. rewrite Ho. simpl. destruct (_ <? _)%N; [by left|by right]. }
    destruct Hcase as [Hcl|Heq].
    + cbn zeta. rewrite drain_closed by done. rewrite Hn1, Hc1. split_and!; [done| |].
      * rewrite Hc. rewrite take_app. by apply prefix_app_r.
      * intros Hall. by apply Forall_cons in Hall as [? _].
    + assert (Hcap : contents d = take (N.to_nat cap) (before ++ b :: buf)).
      { unfold d1, capture in Heq. rewrite Ho in Heq. simpl in Heq. destruct (N.ltb_spec (captured d) cap) as [|Hge].
        - rewrite <- Heq in Ho. done.
        - rewrite Hc. rewrite Hn, Hc, length_take in Hge. by rewrite take_app_le by lia. }
      rewrite Heq. match goal with |- context [drain_pipe _ _ _ _ ?s1] =>
        destruct (IH d s1 (before ++ b :: buf)%list Ho Hne Hcap Hn) as (Hl & Hp & He) end.
      rewrite app_assoc. split_and!; [done|done|]. intros Hall. by apply Forall_cons in Hall as [? _].
Qed.

(** The drain captures up to the cap and counts everything: for a fresh
    stream, the file holds a prefix of the first [cap] bytes, all of them when
    no write fails, as many as [captured] claims; every byte is counted, also
    past the cap; and the task is marked truncated exactly when bytes passed
    the cap. *)
Theorem drain_exact cap is_stdout reads s : Forall (fun x => x.1 <> []) reads ->
  stream_bytes is_stdout s = 0%N -> truncated s = false ->
  let stream := concat reads.*1 in
  let '(d', s') := drain_pipe cap is_stdout reads {| open := true; contents := []; captured := 0 |} s in
  contents d' `prefix_of` take (N.to_nat cap) stream /\
  (Forall (fun x => x.2 = true) reads -> contents d' = take (N.to_nat cap) stream) /\
  captured d' = N.of_nat (length (contents d')) /\
  stream_bytes is_stdout s' = N.of_nat (length stream) /\
  truncated s' = (cap <? N.of_nat (length stream))%N.
Proof.
  intros Hne Hs Ht stream. set (d0 := {| open := true; contents := []; captured := 0 |}).
  destruct (drain_contents cap is_stdout reads d0 s [] eq_refl Hne) as (Hl & Hp & He); [by rewrite take_nil|done|].
  destruct (drain_counts cap is_stdout reads d0 s Hne) as [Hc Hr].
  destruct (drain_pipe cap is_stdout reads d0 s) as [d' s'] eqn:Hd. cbn [fst snd] in *. rewrite Hs in Hc, Hr.
  split_and!; try done. destruct reads as [|x reads].
  - simpl in Hd. injection Hd as <- <-. rewrite Ht. unfold stream. simpl. by destruct cap.
  - rewrite Hr by done. by rewrite Ht.
Qed.

(** ** The disk *)

(** A meta, on disk or under way, of task [tid] is no further than the
    registry: it says running, or exactly the registry's status. *)
Definition meta_agrees (r : registry) (tid : string) (m : TaskMeta) : Prop :=
  exists e, entries r !! tid = Some e /\
    (status (m_snapshot m) = Running \/ status (m_snapshot m) = status (e_snapshot e)).

Definition disk_agrees (r : registry) : Prop :=
  (forall tid m, metas r !! tid = Some m -> meta_agrees r tid m) /\
  Forall (fun x => meta_agrees r x.1 x.2) (writes r).

Lemma meta_agrees_grows r r' tid m : grows evolves r r' -> meta_agrees r tid m -> meta_agrees r' tid m.
Proof.
  intros Hg (e & He & Hs). destruct (Hg tid e He) as (e' & He' & Hv). exists e'. split; [done|].
  destruct Hs as [|Hs]; [by left|]. destruct (is_terminal (status (e_snapshot e))) eqn:Ht.
  - right. destruct (ev_final _ _ Hv Ht) as [-> _]. done.
  - left. rewrite Hs. by destruct (status (e_snapshot e)).
Qed.

(** The writes an operation queues copy entries of its result. *)
Lemma disk_agrees_step r r' new : grows evolves r r' -> metas r' = metas r -> writes r' = (writes r ++ new)%list ->
  Forall (fun x => meta_agrees r' x.1 x.2) new -> disk_agrees r -> disk_agrees r'.
Proof.
  intros Hg Hm Hw Hn [Hd Hf]. split.
  - intros tid m. rewrite Hm. intros Hl. by eapply meta_agrees_grows, Hd.
  - rewrite Hw. apply Forall_app. split; [|done]. eapply Forall_impl; [exact Hf|]. intros x. by apply meta_agrees_grows.
Qed.

Lemma write_agrees r r' tid e e' : entries r !! tid = Some e -> evolves e e' ->
  entries r' = <[tid := e']> (entries r) -> metas r' = metas r ->
  writes r' = (writes r ++ [(tid, from_snapshot (e_snapshot e'))])%list -> disk_agrees r -> disk_agrees r'.
Proof.
  intros He Hv Hen Hm Hw. apply (disk_agrees_step _ _ [(tid, from_snapshot (e_snapshot e'))]); try done.
  - by eapply touched; [apply _|done|exact Hv|].
  - apply Forall_singleton. exists e'. rewrite Hen, lookup_insert_eq. split; [done|by right].
Qed.

Lemma quiet_agrees r r' : same_tasks evolves r r' -> metas r' = metas r -> writes r' = writes r ->
  disk_agrees r -> disk_agrees r'.
Proof. intros [Hg _] Hm Hw. apply (disk_agrees_step _ _ []); try done. by rewrite app_nil_r. Qed.

Lemma fold_agrees {A} (f : list string * registry -> A -> list string * registry) l :
  (forall acc x, disk_agrees acc.2 -> disk_agrees (f acc x).2) -> forall acc, disk_agrees acc.2 -> disk_agrees (fold_left f l acc).2.
Proof. intros Hf. induction l as [|x l IH]; intros acc Ha; [done|]. by apply IH, Hf. Qed.

Lemma expire_one_agrees now acc tid : disk_agrees acc.2 -> disk_agrees (expire_one now acc tid).2.
Proof.
  destruct acc as [ids r]. simpl. destruct (entries r !! tid) as [e|] eqn:He; [|done].
  destruct (is_running e) eqn:Hr; [|done]. apply running_not_terminal in Hr.
  eapply write_agrees; [done|by apply evolves_settle|..]; simpl; by destruct (reaped e).
Qed.

Lemma kill_all_one_agrees b now acc tid : disk_agrees acc.2 -> disk_agrees (kill_all_one b now acc tid).2.
Proof.
  destruct acc as [ids r]. simpl. destruct (entries r !! tid) as [e|] eqn:He; [|done].
  destruct (is_running e) eqn:Hr; [|done]. apply running_not_terminal in Hr.
  eapply write_agrees; [done|by apply evolves_settle|..]; simpl; by destruct b.
Qed.

Lemma kill_all_blocking_agrees alive now r : disk_agrees r -> disk_agrees (kill_all_blocking alive now r).2.
Proof.
  unfold kill_all_blocking. intros Hd.
  pose proof (fold_agrees _ (live_ids r) (kill_all_one_agrees false now) ([], r) Hd) as Hf. revert Hf.
  destruct (fold_left (kill_all_one false now) (live_ids r) ([], r)) as [[|i ids] r1]; simpl; [done|].
  generalize (omap (fun t => pid ∘ e_snapshot <$> entries r !! t) (live_ids r)) as pids.
  clear. intros pids. revert r1. induction pids as [|p pids IH]; intros r1 Hr; [done|]. apply IH.
  destruct (alive p); [|done]. apply (quiet_agrees r1); [by apply same_entries; [apply _|]|done|done|done].
Qed.

Lemma mark_notified_agrees session ids : forall r, disk_agrees r -> disk_agrees (mark_notified session ids r).
Proof.
  unfold mark_notified. induction ids as [|tid ids IH]; intros r Hr; [done|]. apply IH.
  destruct (entries r !! tid) as [e|] eqn:He; [|done]. destruct (String.eqb _ _); [|done].
  apply (quiet_agrees r); [|done..]. eapply touched; [apply _|exact He| |reflexivity]. by split.
Qed.

Lemma run_op_agrees r o : (forall root tid os session digest limits now,
    o = OSpawn root tid os session digest limits now -> entries r !! tid = None) ->
  disk_agrees r -> disk_agrees (run_op r o).
Proof.
  intros Hf Hd. assert (Hg := run_op_grows r o Hf). destruct o; simpl in *.
  - specialize (Hf _ _ _ _ _ _ _ eq_refl). revert Hg. unfold spawn_background. destruct (draining r); [done|].
    destruct (_ <=? _)%nat; [done|]. destruct os as [| | |p]; try done. simpl. intros Hg.
    eapply disk_agrees_step; [exact Hg|reflexivity|reflexivity| |done]. apply Forall_singleton. eexists.
    simpl. rewrite lookup_insert_eq. split; [done|by left].
  - unfold reap. destruct (entries r !! tid) as [e|] eqn:He; [|done]. apply (quiet_agrees r); [|done..].
    eapply touched; [apply _|exact He| |reflexivity]. by split.
  - unfold record_exit. destruct (entries r !! tid) as [e|] eqn:He; [|done].
    destruct (is_terminal _) eqn:Ht; (eapply write_agrees; [done| |done..|done]); [by split|by apply evolves_settle].
  - unfold finalize. destruct (entries r !! tid) as [e|] eqn:He; [|done]. destruct (is_terminal _); [|done].
    eapply (write_agrees _ _ tid e e); try done. simpl. by rewrite insert_id.
  - unfold drain_read. destruct (entries r !! tid) as [e|] eqn:He; [|done]. apply (quiet_agrees r); [|done..].
    eapply touched; [apply _|exact He| |reflexivity]. by split.
  - by apply mark_notified_agrees.
  - unfold kill. destruct (entries r !! tid) as [e|] eqn:He; [|done]. destruct (is_terminal _) eqn:Ht; [done|].
    eapply write_agrees; [done|by apply evolves_settle|..|done]; simpl; by destruct (reaped e).
  - unfold escalate in *. case_bool_decide; [|done]. destruct alive; (apply (quiet_agrees r); [|done..]);
      (apply same_entries; [apply _|done]).
  - unfold expire_due. destruct (due_ids _ _) as [ids| |]; [|done|done]. simpl.
    pose proof (fold_agrees (expire_one now) ids (expire_one_agrees now) ([], r) Hd) as Hx.
    by destruct (fold_left (expire_one now) ids ([], r)).
  - apply (fold_agrees _ _ (kill_all_one_agrees true now) ([], r) Hd).
  - by apply kill_all_blocking_agrees.
  - apply (quiet_agrees r); [by apply same_entries; [apply _|]|done|done|done].
  - unfold land_write in *. destruct (writes r !! k) as [[t m]|] eqn:Hw; [|done]. destruct Hd as [Hd Hws]. split; simpl.
    + intros tid m'. rewrite lookup_insert_Some. intros [[<- <-]|[_ Hl]]; [|by apply Hd].
      exact (proj1 (Forall_lookup _ _) Hws k (t, m) Hw).
    + apply Forall_delete. exact Hws.
  - destruct Hd as [Hd Hws]. split; [exact Hd|]. apply Forall_delete. exact Hws.
  - unfold tear_writes in *. destruct (writes r !! k) as [[t m]|], (writes r !! k') as [[t' m']|]; try done. case_bool_decide; [|done].
    destruct Hd as [Hd Hws]. split; [|by do 2 apply Forall_delete]. intros tid x Hl. apply Hd. simpl in Hl. by apply lookup_delete_Some in Hl as [_ Hl].
Qed.

Lemma empty_agrees : disk_agrees empty_registry.
Proof. split; [|by constructor]. intros t x Hl. simpl in Hl. by rewrite lookup_empty in Hl. Qed.

Lemma reach_agrees K r r' : reach K r r' -> disk_agrees r -> disk_agrees r'.
Proof.
  induction 1 as [r|r r' o _ IH Hf]; [done|]. intros Hd. apply run_op_agrees; [|by apply IH].
  intros. by edestruct Hf.
Qed.

(** C38. The disk never contradicts the registry: whatever the order in which
    the queued meta writes land, and whichever of them are lost or leave a file that
    is no JSON, each task's [meta.json] says running or the
    status the task has; so a settled task is never recorded with another
    outcome. *)
Theorem disk_never_contradicts K r tid m e : reach K empty_registry r ->
  metas r !! tid = Some m -> is_terminal (status (m_snapshot m)) = true ->
  entries r !! tid = Some e -> status (m_snapshot m) = status (e_snapshot e).
Proof.
  intros Hr Hm Ht He. assert (Hd : disk_agrees r) by (by eapply reach_agrees, empty_agrees).
  destruct (proj1 Hd tid m Hm) as (e' & He' & [Hs|Hs]); [by rewrite Hs in Ht|]. by replace e with e' by congruence.
Qed.

(** ** What two writers of one file leave

    Whatever the schedule of two writers of a [meta.json], the file holds the text of
    one of them or the text of one over a longer one of the other. *)
Import AtomicFile.
Fixpoint schedules (m n : nat) : list (list bool) :=
  match m with
  | O => [repeat false n]
  | S m' => (fix go n := match n with O => [repeat true m] | S n' => map (cons true) (schedules m' n) ++ map (cons false) (go n') end) n
  end%list.
Theorem two_writers (a b old : list N) (there : bool) sched : In sched (schedules 3 3) ->
  let '(pa, pb, d) := run_pair a b sched {| tmp := None; target := if there then Some 0 else None; files := [old] |} in
  tmp d = None /\ (pa = Over true \/ pb = Over true)
  /\ (on_disk d = Some a \/ on_disk d = Some b \/ on_disk d = Some (over_text a b) \/ on_disk d = Some (over_text b a)).
Proof.
  assert (forall x, over_text x [] = x) as HE by (intros x; unfold over_text; by rewrite drop_nil, app_nil_r).
  intros Hin. unfold run_pair. cbn in Hin. repeat destruct Hin as [<-|Hin]; [..|done].
  all: cbn; rewrite ?HE; auto 8.
Qed.
(** The text of the last to write, with the end of the longer one. *)
Example torn_meta : exists sched, In sched (schedules 3 3) /\
  on_disk (run_pair [1; 2; 3; 4]%N [5; 6]%N sched {| tmp := None; target := None; files := [] |}).2 = Some [5; 6; 3; 4]%N.
Proof. exists [true; false; true; false; true; false]. split; [|by vm_compute]. vm_compute. tauto. Qed.

(** ** The boot sweep *)

(** The sweep takes the task of [dir] for an orphan it can record. *)
Definition sweeps (pr : probes) (live : registry) (now : Z) (dir : string) (m : TaskMeta) : bool :=
  let s := m_snapshot m in
  bool_decide (status s = Running) && bool_decide (snapshot (task_id s) live = None)
  && (sat_i64 (now - started_at_ms s) <=? SWEEP_HORIZON_MS)%Z && rewrite_ok pr dir.

Definition ours (pr : probes) (now : Z) (s : TaskSnapshot) : bool :=
  group_exists pr (pid s) && verify_leader_identity pr now (pid s) (started_at_ms s).

Definition swept_file (pr : probes) (live : registry) (now : Z) (dir : string) (f : meta_file) : meta_file :=
  match f with
  | Corrupt => Corrupt
  | Parsed m =>
    if sweeps pr live now dir m then
      Parsed {| m_snapshot := with_status Orphaned now (m_snapshot m);
                stdout_path := stdout_path m; stderr_path := stderr_path m |}
    else f
  end.

Definition sweep_kill (pr : probes) (live : registry) (now : Z) (x : string * meta_file) : list (N * signal) :=
  match x.2 with
  | Corrupt => []
  | Parsed m => if sweeps pr live now x.1 m && ours pr now (m_snapshot m)
                then [(pid (m_snapshot m), SIGKILL)] else []
  end.

Lemma sweep_dir_spec pr live now st dir f : disk st !! dir = Some f ->
  disk (sweep_dir pr live now st dir) = <[dir := swept_file pr live now dir f]> (disk st) /\
  sweep_signals (sweep_dir pr live now st dir) = (sweep_signals st ++ sweep_kill pr live now (dir, f))%list /\
  marked (sweep_dir pr live now st dir) =
    (marked st + match f with Parsed m => if sweeps pr live now dir m then 1 else 0 | Corrupt => 0 end)%nat.
Proof.
  intros Hd. unfold sweep_dir, swept_file, sweep_kill, sweeps, ours. rewrite Hd.
  assert (Hid : <[dir := f]> (disk st) = disk st) by (by apply insert_id).
  destruct f as [|m]; simpl; [by rewrite Hid, app_nil_r, Nat.add_0_r|].
  destruct (decide (status (m_snapshot m) = Running)) as [Hr|Hr].
  2: { rewrite (bool_decide_eq_false_2 _ Hr). simpl. by rewrite Hid, app_nil_r, Nat.add_0_r. }
  rewrite (bool_decide_eq_true_2 _ Hr). simpl. destruct (snapshot (task_id (m_snapshot m)) live) as [x|].
  { simpl. by rewrite Hid, app_nil_r, Nat.add_0_r. }
  simpl. rewrite Z.ltb_antisym. destruct (_ <=? SWEEP_HORIZON_MS)%Z; simpl; [|by rewrite Hid, app_nil_r, Nat.add_0_r].
  destruct (rewrite_ok pr dir); simpl; [|by rewrite Hid, app_nil_r, Nat.add_0_r].
  destruct (group_exists pr _ && verify_leader_identity pr now _ _); rewrite ?app_nil_r, Nat.add_1_r; done.
Qed.

Lemma sweep_fold pr live now (d : gmap string meta_file) l : forall st, NoDup l ->
  (forall dir, dir ∈ l -> disk st !! dir = d !! dir /\ is_Some (d !! dir)) ->
  let st' := fold_left (sweep_dir pr live now) l st in
  (forall dir, disk st' !! dir =
     if decide (dir ∈ l) then swept_file pr live now dir <$> d !! dir else disk st !! dir) /\
  (forall ps, ps ∈ sweep_signals st' <-> ps ∈ sweep_signals st \/
     exists dir f, dir ∈ l /\ d !! dir = Some f /\ ps ∈ sweep_kill pr live now (dir, f)) /\
  (marked st <= marked st')%nat.
Proof.
  induction l as [|t l IH]; intros st Hnd Hl.
  { cbn. split_and!; [done| |done]. intros ps. split; [by left|]. intros [|(dir & f & Hn & _)]; [done|]. by apply elem_of_nil in Hn. }
  apply NoDup_cons in Hnd as [Hn Hnd]. destruct (Hl t) as [Ht [f Hf]]; [by left|].
  destruct (sweep_dir_spec pr live now st t f) as (Hd & Hs & Hm); [by rewrite Ht|].
  cbn [fold_left]. destruct (IH (sweep_dir pr live now st t) Hnd) as (Hd' & Hs' & Hm').
  { intros dir Hin. rewrite Hd, lookup_insert_ne; [|by intros ->]. apply Hl. by right. }
  cbn zeta in *. split_and!; [| |lia].
  - intros dir. rewrite Hd'. destruct (decide (dir = t)) as [->|Hne].
    + rewrite decide_False by done. rewrite decide_True by left. by rewrite Hd, lookup_insert_eq, Hf.
    + rewrite Hd, lookup_insert_ne by done.
      rewrite (decide_ext (dir ∈ t :: l) (dir ∈ l)); [done|]. rewrite elem_of_cons. by split; [intros [|]|right].
  - intros ps. rewrite Hs', Hs, elem_of_app. split.
    + intros [[|Hk]|(dir & g & Hin & Hg & Hk)]; [by left|right; exists t, f|right; exists dir, g].
      * split_and!; [by left|done|done].
      * split_and!; [by right|done|done].
    + intros [|(dir & g & Hin & Hg & Hk)]; [by left; left|]. apply elem_of_cons in Hin as [->|Hin].
      * left. right. by replace f with g by congruence.
      * right. by exists dir, g.
Qed.

(** The boot sweep is exact and signals only its own: it marks orphaned
    the recent running tasks that this process does not track, leaves every
    other file, corrupt ones included, as it was, and kills a process group
    only for a task it has marked, whose group exists and whose leader is as
    old as the record says. *)
Theorem boot_sweep_exact pr live now d :
  let st := sweep_orphans_on_boot pr live now d in
  (forall dir, disk st !! dir = swept_file pr live now dir <$> d !! dir) /\
  forall p sig, (p, sig) ∈ sweep_signals st -> sig = SIGKILL /\
    exists dir m, d !! dir = Some (Parsed m) /\ pid (m_snapshot m) = p /\
      sweeps pr live now dir m = true /\ group_exists pr p = true /\
      verify_leader_identity pr now p (started_at_ms (m_snapshot m)) = true.
Proof.
  assert (Hin : forall dir, dir ∈ (map_to_list d).*1 <-> is_Some (d !! dir)).
  { intros dir. rewrite list_elem_of_fmap. split.
    - intros ([t f] & -> & Hf%elem_of_map_to_list). by exists f.
    - intros [f Hf]. exists (dir, f). by rewrite elem_of_map_to_list. }
  destruct (sweep_fold pr live now d (map_to_list d).*1 {| disk := d; sweep_signals := []; marked := 0 |}) as (Hd & Hs & _).
  { apply NoDup_fst_map_to_list. }
  { intros dir Hx. split; [done|]. by apply Hin. }
  cbn zeta in *. unfold sweep_orphans_on_boot. split.
  - intros dir. rewrite Hd. destruct (decide _) as [|Hno]; [done|]. simpl. rewrite Hin in Hno.
    destruct (d !! dir) eqn:He; [|done]. by destruct Hno.
  - intros p sig [Hx|(dir & f & _ & Hf & Hk)]%Hs; [by apply elem_of_nil in Hx|].
    unfold sweep_kill in Hk. simpl in Hk. destruct f as [|m]; [by apply elem_of_nil in Hk|].
    destruct (sweeps pr live now dir m && ours pr now (m_snapshot m)) eqn:Hb; [|by apply elem_of_nil in Hk].
    apply list_elem_of_singleton in Hk as [= -> ->]. apply andb_true_iff in Hb as [Hsw [Hg Hv]%andb_true_iff].
    split; [done|]. exists dir, m. by split_and!.
Qed.

(** ** Task ids *)

Definition path_char (a : Ascii.ascii) : bool :=
  let n := Ascii.nat_of_ascii a in ((n =? 46) || (n =? 47) || (n =? 92) || (n =? 0))%nat.

Lemma split_dash_nonempty s : exists g gs, split_dash s = g :: gs.
Proof.
  induction s as [|a s (g & gs & IH)]; simpl; [by exists "", []|]. rewrite IH. destruct (_ =? _)%nat; eauto.
Qed.

Lemma split_dash_spec s :
  S (String.length s) = list_sum (map (fun g => S (String.length g)) (split_dash s)) /\
  (forallb (all_chars is_hex) (split_dash s) = true -> all_chars (fun a => negb (path_char a)) s = true).
Proof.
  induction s as [|a s [IHl IHc]]; [done|]. destruct (split_dash_nonempty s) as (g & gs & Hg). simpl.
  destruct (Nat.eqb_spec (Ascii.nat_of_ascii a) 45) as [Ha|Ha].
  - simpl. rewrite <- IHl. split; [done|]. intros Hc. rewrite (IHc Hc), andb_true_r. unfold path_char. by rewrite Ha.
  - rewrite Hg in *. simpl in *. split; [by rewrite IHl|].
    intros [[Hh Hs]%andb_true_iff Hgs]%andb_true_iff. apply andb_true_iff. split; [|by apply IHc, andb_true_iff].
    unfold is_hex in Hh. unfold path_char. rewrite negb_true_iff, !orb_false_iff, !Nat.eqb_neq.
    apply orb_true_iff in Hh as [[?%Nat.leb_le ?%Nat.leb_le]%andb_true_iff|[?%Nat.leb_le ?%Nat.leb_le]%andb_true_iff]; lia.
Qed.

(** An accepted task id names one directory: it has the length of a uuid,
    and no character of it is a separator, a dot or a null, so the path built
    from it stays in the tasks directory. *)
Theorem task_id_confined s : is_valid_task_id s = true ->
  (String.length s = 32 \/ String.length s = 36)%nat /\ all_chars (fun a => negb (path_char a)) s = true.
Proof.
  unfold is_valid_task_id. destruct (split_dash_spec s) as [Hl Hc].
  destruct (split_dash s) as [|g1 [|g2 [|g3 [|g4 [|g5 [|]]]]]] eqn:Hs; simpl; try done.
  - intros [Hn%Nat.eqb_eq Hx]%andb_true_iff. split; [by left|]. apply Hc. simpl in *. rewrite andb_true_r.
    assert (g1 = s) as ->; [|done]. clear -Hs. revert g1 Hs. induction s as [|a s IH]; intros g1; simpl; [by intros [= <-]|].
    destruct (split_dash_nonempty s) as (g & gs & Hg). rewrite Hg. destruct (_ =? _)%nat; [done|].
    intros [= <- ->]. f_equal. by apply IH.
  - rewrite !andb_true_iff, !Nat.eqb_eq. intros H5. split.
    + right. simpl in Hl. lia.
    + apply Hc. simpl. rewrite !andb_true_iff. by repeat split; apply H5.
Qed.

(** ** Witnesses *)

Definition demo_limits : BackgroundLimits :=
  {| max_wall_secs := 60; max_concurrent := 1; output_cap_bytes := 4 |}.

Definition demo_run : list op :=
  [OSpawn "/tasks" "a" (Spawned 41) "local" "sleep 9" demo_limits 1000; ORead "a" true 6; OReap "a"].

Definition run_list (l : list op) (r : registry) : registry := fold_left run_op l r.

Definition demo_registry : registry := run_list demo_run empty_registry.

Lemma reach_demo : reach 1 empty_registry demo_registry.
Proof.
  apply (reach_step 1 _ _ (OReap "a")); [|done]. apply (reach_step 1 _ _ (ORead "a" true 6)); [|done].
  apply (reach_step 1 _ _ (OSpawn "/tasks" "a" (Spawned 41) "local" "sleep 9" demo_limits 1000)); [apply reach_refl|].
  intros root tid os session digest limits now [= <- <- <- <- <- <- <-]. split; [reflexivity|simpl; lia].
Qed.

Definition demo_settled : registry := run_op demo_registry (ORecordExit "a" (Exited 3) 2000).

Lemma reach_settled : reach 1 empty_registry demo_settled.
Proof. eapply reach_step; [exact reach_demo|done]. Qed.

Definition demo_entry (r : registry) : TaskEntry :=
  default {| e_session := ""; e_limits := demo_limits; reaped := false; notified := false;
             e_snapshot := {| task_id := ""; session_id := ""; pid := 0; command_digest := ""; output_dir := "";
               status := Running; started_at_ms := 0; ended_at_ms := None; bytes_stdout := 0; bytes_stderr := 0;
               truncated := false |} |} (entries r !! "a").

Lemma terminal_final_witness :
  exists e', entries (run_op demo_settled (OKill "a" 3000)) !! "a" = Some e' /\ status (e_snapshot e') = Completed 3.
Proof.
  destruct (terminal_final 1 demo_settled (run_op demo_settled (OKill "a" 3000)) "a" (demo_entry demo_settled))
    as (e' & He & Hs & _).
  - eapply reach_step; [apply reach_refl|done].
  - vm_compute. reflexivity.
  - vm_compute. reflexivity.
  - exists e'. split; [exact He|]. rewrite Hs. vm_compute. reflexivity.
Defined.

Lemma live_bounded_witness : (live_count demo_registry <= 1)%nat.
Proof. apply (live_bounded 1 empty_registry demo_registry reach_demo). vm_compute. lia. Defined.

Lemma demo_only r tid e : dom (entries r) = {["a"]} -> entries r !! tid = Some e -> tid = "a" /\ e = demo_entry r.
Proof.
  intros Hd He. assert (Hin : tid ∈ dom (entries r)) by (by apply elem_of_dom_2 in He).
  rewrite Hd in Hin. apply elem_of_singleton in Hin as ->. split; [done|]. unfold demo_entry. by rewrite He.
Qed.

Lemma keyed_demo : keyed demo_registry.
Proof. apply (keyed_reach 1 empty_registry); [exact reach_demo|]. intros t e He. simpl in He. by rewrite lookup_empty in He. Qed.

Lemma expire_exact_witness :
  exists ids r', expire_due 61000 demo_registry = Done (ids, r') /\ "a" ∈ ids.
Proof.
  destruct (expire_exact 61000 demo_registry) as (ids & r' & He & _ & Hi & _).
  - exact keyed_demo.
  - intros tid e Hl _. apply demo_only in Hl as [-> ->]; [|vm_compute; reflexivity].
    exists 61000%Z. vm_compute. reflexivity.
  - exists ids, r'. split; [exact He|]. apply Hi. exists (demo_entry demo_registry). split; vm_compute; reflexivity.
Defined.

Lemma kill_all_signals_reaped_witness :
  (41%N, SIGTERM) ∈ drop (length (signals demo_registry)) (signals (kill_all 3000 demo_registry).2).
Proof.
  apply (kill_all_signals_reaped 3000 demo_registry "a" (demo_entry demo_registry)); vm_compute; reflexivity.
Defined.

Lemma notice_until_confirmed_witness : unconfirmed "local" "a" demo_settled.
Proof.
  apply (notice_until_confirmed "local" "a" demo_settled).
  - apply (keyed_reach 1 empty_registry); [exact reach_settled|]. intros t e He. simpl in He. by rewrite lookup_empty in He.
  - exists (e_snapshot (demo_entry demo_settled)). split; [|vm_compute; reflexivity].
    apply (list_elem_of_lookup_2 _ 0). vm_compute. reflexivity.
Defined.

Definition demo_reads : list (list Byte.byte * bool) :=
  [([Byte.x61; Byte.x62; Byte.x63], true); ([Byte.x64; Byte.x65], true)].

Lemma drain_exact_witness :
  contents (drain_pipe 4 true demo_reads {| open := true; contents := []; captured := 0 |}
              (e_snapshot (demo_entry empty_registry))).1 = [Byte.x61; Byte.x62; Byte.x63; Byte.x64].
Proof.
  pose proof (drain_exact 4 true demo_reads (e_snapshot (demo_entry empty_registry))) as Hw.
  destruct (drain_pipe 4 true demo_reads _ _) as [d' s']. destruct Hw as (_ & Hw & _).
  - repeat constructor; discriminate.
  - reflexivity.
  - reflexivity.
  - simpl. rewrite Hw; [vm_compute; reflexivity|]. repeat constructor.
Defined.

Definition demo_landed : registry := run_op (run_op demo_settled (OWrite 1)) (OWrite 0).

Lemma disk_never_contradicts_witness :
  exists m, metas demo_settled !! "a" = None /\ metas (run_op demo_settled (OWrite 1)) !! "a" = Some m /\
    status (m_snapshot m) = Completed 3.
Proof.
  exists (from_snapshot (e_snapshot (demo_entry demo_settled))). split; [vm_compute; reflexivity|].
  split; [vm_compute; reflexivity|].
  etransitivity; [apply (disk_never_contradicts 1 (run_op demo_settled (OWrite 1)) "a" _ (demo_entry demo_settled))|].
  - eapply reach_step; [exact reach_settled|done].
  - vm_compute. reflexivity.
  - vm_compute. reflexivity.
  - vm_compute. reflexivity.
  - vm_compute. reflexivity.
Defined.

Lemma task_id_confined_witness :
  String.length "0123456789abcdef0123456789abcdef" = 32%nat \/ String.length "0123456789abcdef0123456789abcdef" = 36%nat.
Proof. apply (task_id_confined "0123456789abcdef0123456789abcdef"). vm_compute. reflexivity. Defined.
