(* ===== verification/Scheduler.v ===== *)
(** * The worker scheduler

    Models [crates/zen-agents/src/scheduler/mod.rs] and the lease of
    [scheduler/lease.rs]: registration, the tick's fire decision, the in-flight
    flags, the limiter's permits, manual triggers, and the monthly cost ledger
    with its sidecar.  Instants are nanoseconds; calendar months and cron
    schedules are a class; costs are IEEE binary64 values. *)

From S2P Require Import Prelude.
From Stdlib Require Import Lia SpecFloat.
Local Open Scope string_scope.

(** Costs: [f64]. *)
Definition cost : Type := spec_float.
Definition cost_zero : cost := S754_zero false.
Definition cost_add (x y : cost) : cost := SFadd 53 1024 x y.
(** 10.0, the default cap. *)
Definition cost_ten : cost := S754_finite false 5629499534213120 (-49).
Definition cost_ge (x y : cost) : bool := SFleb y x.
Definition cost_gt (x y : cost) : bool := SFltb y x.

(** The month key of an instant, the validity of a cron expression, and the
    next time an expression matches after an instant, in a time zone. *)
Class Calendar := {
  month_key : Z -> string;
  cron_ok : string -> bool;
  cron_next : string -> string -> Z -> option Z;
}.

Definition DEFAULT_TICK_INTERVAL_SECONDS : N := 30.

Inductive SchedulerError :=
  | DuplicateWorker (id : string)
  | WorkerNotFound (name : string)
  | InvalidCron (worker : string).

Record WorkerReport := {
  worker_id : string;
  success : bool;
  fact_count : N;
  duration_ms : N;
  llm_cost_usd : cost;
}.

(** What the scheduler keeps of a worker; its code is the environment's. *)
Record RegisteredWorker := {
  expr : string;
  description : string;
  enabled : bool;
  in_flight : bool;
}.

Record WorkerCostLedger := {
  month : string;
  costs : gmap string cost;
  path : option string;
}.

(** The sidecar as it is read back: [None] when it is missing. *)
Inductive ledger_file := CorruptLedger | LedgerFile (m : string) (c : gmap string cost).

(** A spawned fire task: it waits for a permit, then executes.  [run_month] is
    the month the task captured. *)
Record run := { run_worker : string; run_month : string }.

Record scheduler := {
  workers : gmap string RegisteredWorker;
  tick_interval : N;
  worker_costs : WorkerCostLedger;
  cost_cap_usd : cost;
  tz : string;
  limiter : option nat;
  waiting : list run;
  executing : list run;
  triggered : list string;             (* manual runs under way *)
  sidecar : gmap string ledger_file;   (* the disk *)
}.

Definition with_workers (w : gmap string RegisteredWorker) (s : scheduler) : scheduler :=
  {| workers := w; tick_interval := tick_interval s; worker_costs := worker_costs s;
     cost_cap_usd := cost_cap_usd s; tz := tz s; limiter := limiter s; waiting := waiting s;
     executing := executing s; triggered := triggered s; sidecar := sidecar s |}.
Definition with_runs (w e : list run) (t : list string) (s : scheduler) : scheduler :=
  {| workers := workers s; tick_interval := tick_interval s; worker_costs := worker_costs s;
     cost_cap_usd := cost_cap_usd s; tz := tz s; limiter := limiter s; waiting := w;
     executing := e; triggered := t; sidecar := sidecar s |}.
Definition with_ledger (l : WorkerCostLedger) (d : gmap string ledger_file) (s : scheduler) : scheduler :=
  {| workers := workers s; tick_interval := tick_interval s; worker_costs := l;
     cost_cap_usd := cost_cap_usd s; tz := tz s; limiter := limiter s; waiting := waiting s;
     executing := executing s; triggered := triggered s; sidecar := d |}.

Definition set_flag (b : bool) (w : RegisteredWorker) : RegisteredWorker :=
  {| expr := expr w; description := description w; enabled := enabled w; in_flight := b |}.
Definition set_enabled (b : bool) (w : RegisteredWorker) : RegisteredWorker :=
  {| expr := expr w; description := description w; enabled := b; in_flight := in_flight w |}.

Section scheduler.
Context `{Calendar}.

(** [ZenScheduler::new] at [now], over the files [disk]. *)
Definition new_scheduler (now : Z) (disk : gmap string ledger_file) : scheduler :=
  {| workers := ∅; tick_interval := DEFAULT_TICK_INTERVAL_SECONDS;
     worker_costs := {| month := month_key now; costs := ∅; path := None |};
     cost_cap_usd := cost_ten; tz := "UTC"; limiter := None;
     waiting := []; executing := []; triggered := []; sidecar := disk |}.

Definition load_cost_ledger (disk : gmap string ledger_file) (p m : string) : gmap string cost :=
  match disk !! p with
  | None => ∅
  | Some (LedgerFile fm fc) => if String.eqb fm m then fc else ∅
  | Some CorruptLedger => ∅
  end.

Definition with_cost_ledger (now : Z) (p : string) (s : scheduler) : scheduler :=
  let m := month_key now in
  with_ledger {| month := m; costs := load_cost_ledger (sidecar s) p m; path := Some p |} (sidecar s) s.

Definition cost_cap_exceeded (s : scheduler) (id : string) (now : Z) : option cost :=
  if negb (String.eqb (month (worker_costs s)) (month_key now)) then None
  else match costs (worker_costs s) !! id with
       | Some c => if cost_ge c (cost_cap_usd s) then Some c else None
       | None => None
       end.

Definition with_timezone (z : string) (s : scheduler) : scheduler :=
  {| workers := workers s; tick_interval := tick_interval s; worker_costs := worker_costs s;
     cost_cap_usd := cost_cap_usd s; tz := z; limiter := limiter s; waiting := waiting s;
     executing := executing s; triggered := triggered s; sidecar := sidecar s |}.
Definition with_limiter (permits : nat) (s : scheduler) : scheduler :=
  {| workers := workers s; tick_interval := tick_interval s; worker_costs := worker_costs s;
     cost_cap_usd := cost_cap_usd s; tz := tz s; limiter := Some permits; waiting := waiting s;
     executing := executing s; triggered := triggered s; sidecar := sidecar s |}.

Definition with_cost_cap (cap : cost) (s : scheduler) : scheduler :=
  {| workers := workers s; tick_interval := tick_interval s; worker_costs := worker_costs s;
     cost_cap_usd := cap; tz := tz s; limiter := limiter s; waiting := waiting s;
     executing := executing s; triggered := triggered s; sidecar := sidecar s |}.
Definition with_tick_interval (seconds : N) (s : scheduler) : scheduler :=
  {| workers := workers s; tick_interval := seconds; worker_costs := worker_costs s;
     cost_cap_usd := cost_cap_usd s; tz := tz s; limiter := limiter s; waiting := waiting s;
     executing := executing s; triggered := triggered s; sidecar := sidecar s |}.

Definition register (id ex desc : string) (s : scheduler) : result scheduler SchedulerError :=
  match workers s !! id with
  | Some _ => Err (DuplicateWorker id)
  | None =>
    if cron_ok ex then
      Ok (with_workers (<[id := {| expr := ex; description := desc; enabled := true; in_flight := false |}]>
            (workers s)) s)
    else Err (InvalidCron id)
  end.

(** ** The tick *)

Definition NANOS : Z := 1000000000.

(** [num_seconds] rounds towards zero. *)
Definition should_fire (s : scheduler) (w : RegisteredWorker) (now : Z) : bool :=
  match cron_next (tz s) (expr w) now with
  | Some next => (Z.abs_N ((next - now) ÷ NANOS) <? tick_interval s + 1)%N
  | None => false
  end.

(** The first loop, over the workers in the map's order: the claims, and
    [to_fire]. *)
Fixpoint collect (now : Z) (l : list (string * RegisteredWorker)) (s : scheduler)
    (to_fire : list string) : scheduler * list string :=
  match l with
  | [] => (s, to_fire)
  | (id, w) :: rest =>
    if negb (enabled w) then collect now rest s to_fire
    else if negb (should_fire s w now) then collect now rest s to_fire
    else if in_flight w then collect now rest s to_fire
    else collect now rest (with_workers (<[id := set_flag true w]> (workers s)) s) (to_fire ++ [id])%list
  end.

(** The second loop: a worker over its cap is skipped, the others are
    spawned. *)
Fixpoint spawn_fires (now : Z) (to_fire : list string) (s : scheduler) : scheduler :=
  match to_fire with
  | [] => s
  | id :: rest =>
    match cost_cap_exceeded s id now with
    | Some _ => spawn_fires now rest s
    | None =>
      spawn_fires now rest
        (with_runs (waiting s ++ [{| run_worker := id; run_month := month_key now |}])%list
           (executing s) (triggered s) s)
    end
  end.

Definition tick (now : Z) (s : scheduler) : scheduler :=
  let '(s1, to_fire) := collect now (map_to_list (workers s)) s [] in
  spawn_fires now to_fire s1.

(** ** The fire task *)

Definition permit_free (s : scheduler) : bool :=
  match limiter s with None => true | Some k => (length (executing s) <? k)%nat end.

(** The first waiter takes a permit and starts to execute. *)
Definition admit_first (s : scheduler) : scheduler :=
  match waiting s with
  | r :: rest => if permit_free s then with_runs rest (executing s ++ [r])%list (triggered s) s else s
  | [] => s
  end.

(** [InFlightGuard::drop]. *)
Definition clear_flag (id : string) (s : scheduler) : scheduler :=
  match workers s !! id with
  | Some w => with_workers (<[id := set_flag false w]> (workers s)) s
  | None => s
  end.

(** The accounting of a report; a failed save keeps the totals in memory. *)
Definition account (m : string) (rep : WorkerReport) (save_ok : bool) (s : scheduler) : scheduler :=
  if cost_gt (llm_cost_usd rep) cost_zero then
    let l := worker_costs s in
    let base := if String.eqb (month l) m then costs l else ∅ in
    let total := cost_add (default cost_zero (base !! worker_id rep)) (llm_cost_usd rep) in
    let l' := {| month := m; costs := <[worker_id rep := total]> base; path := path l |} in
    let disk := match path l with
                | Some p => if save_ok then <[p := LedgerFile m (costs l')]> (sidecar s) else sidecar s
                | None => sidecar s
                end in
    with_ledger l' disk s
  else s.

(** The [k]-th executing task ends, with a report or an error. *)
Definition finish (k : nat) (rep : option WorkerReport) (save_ok : bool) (s : scheduler) : scheduler :=
  match executing s !! k with
  | None => s
  | Some r =>
    let s1 := match rep with Some rep => account (run_month r) rep save_ok s | None => s end in
    clear_flag (run_worker r) (with_runs (waiting s1) (delete k (executing s1)) (triggered s1) s1)
  end.

(** ** Manual triggers *)

Definition busy_error (name : string) : SchedulerError :=
  WorkerNotFound (name ++ " (busy: previous run still in flight)").

(** [trigger] up to its await: the claim, or its refusal. *)
Definition trigger (name : string) (s : scheduler) : result unit SchedulerError * scheduler :=
  match workers s !! name with
  | None => (Err (WorkerNotFound name), s)
  | Some w =>
    if in_flight w then (Err (busy_error name), s)
    else (Ok tt, with_runs (waiting s) (executing s) (triggered s ++ [name])%list
                   (with_workers (<[name := set_flag true w]> (workers s)) s))
  end.

(** The rest of it: the report is returned, or the failure renamed. *)
Definition trigger_end (k : nat) (rep : option WorkerReport) (s : scheduler)
    : result WorkerReport SchedulerError * scheduler :=
  match triggered s !! k with
  | None => (Err (WorkerNotFound ""), s)
  | Some name =>
    (match rep with Some rep => Ok rep | None => Err (WorkerNotFound name) end,
     clear_flag name (with_runs (waiting s) (executing s) (delete k (triggered s)) s))
  end.

(** ** Administration *)

Definition worker_ids (s : scheduler) : list string := (map_to_list (workers s)).*1.

Definition list_workers (s : scheduler) : list (string * string * string * bool) :=
  map (fun '(id, w) => (id, expr w, description w, enabled w)) (map_to_list (workers s)).

Definition enable (b : bool) (name : string) (s : scheduler) : result scheduler SchedulerError :=
  match workers s !! name with
  | None => Err (WorkerNotFound name)
  | Some w => Ok (with_workers (<[name := set_enabled b w]> (workers s)) s)
  end.

(** ** Runs *)

Inductive sop :=
  | STick (now : Z)
  | SAdmit
  | SFinish (k : nat) (rep : option WorkerReport) (save_ok : bool)
  | STrigger (name : string)
  | STriggerEnd (k : nat) (rep : option WorkerReport)
  | SEnable (b : bool) (name : string)
  | SRegister (id ex desc : string).

Definition run_sop (s : scheduler) (o : sop) : scheduler :=
  match o with
  | STick now => tick now s
  | SAdmit => admit_first s
  | SFinish k rep ok => finish k rep ok s
  | STrigger name => (trigger name s).2
  | STriggerEnd k rep => (trigger_end k rep s).2
  | SEnable b name => match enable b name s with Ok s' => s' | Err _ => s end
  | SRegister id ex desc => match register id ex desc s with Ok s' => s' | Err _ => s end
  end.

Definition run_sops (s : scheduler) (l : list sop) : scheduler := fold_left run_sop l s.

(** The runs of a worker that were spawned and have not ended. *)
Definition runs_of (s : scheduler) (id : string) : nat :=
  length (filter (fun r => run_worker r = id) (waiting s ++ executing s)%list)
  + length (filter (fun n => n = id) (triggered s)).
End scheduler.

(** ** The lease

    The lock on [scheduler.lock], held by at most one host; the kernel releases
    it when the holder goes. *)
Inductive LeaseError := Contention | OpenFailed.

Definition try_acquire_at (host : nat) (open_ok : bool) (holder : option nat)
    : result unit LeaseError * option nat :=
  if negb open_ok then (Err OpenFailed, holder)
  else match holder with
       | None => (Ok tt, Some host)
       | Some _ => (Err Contention, holder)
       end.

Definition release (host : nat) (holder : option nat) : option nat :=
  match holder with
  | Some h => if (h =? host)%nat then None else holder
  | None => None
  end.
