(* ===== verification/SchedulerProps.v ===== *)
(** * What the scheduler guarantees

    A worker never overlaps itself, the limiter bounds what executes, a tick
    fires exactly the due workers below their cap, totals survive a restart
    within the month; a capped worker is latched, and a run that outlives its
    month forgets the totals. *)

From S2P Require Import Prelude Scheduler.
From Stdlib Require Import Lia SpecFloat.
Local Open Scope string_scope.

Section scheduler.
Context `{Calendar}.
Implicit Types (s : scheduler).

(** ** The tick *)

(** The tick claims this worker. *)
Definition fires s (now : Z) (w : RegisteredWorker) : bool :=
  enabled w && should_fire s w now && negb (in_flight w).

Lemma fires_with_workers ws s now w : fires (with_workers ws s) now w = fires s now w.
Proof. done. Qed.

Lemma with_workers_id s : with_workers (workers s) s = s.
Proof. by destruct s. Qed.

Lemma collect_spec now l : forall s tf, NoDup l.*1 ->
  exists ws, collect now l s tf = (with_workers ws s, tf ++ (filter (fun x => fires s now x.2) l).*1)%list /\
    (forall id, id ∉ l.*1 -> ws !! id = workers s !! id) /\
    (forall id w, (id, w) ∈ l -> ws !! id = if fires s now w then Some (set_flag true w) else workers s !! id).
Proof.
  induction l as [|[id w] l IH]; intros s tf Hnd.
  { exists (workers s). cbn. rewrite with_workers_id, app_nil_r. split_and!; [done..|]. by intros ? ? ?%elem_of_nil. }
  apply NoDup_cons in Hnd as [Hn Hnd]. cbn [collect].
  assert (Hskip : fires s now w = false -> exists ws,
    collect now l s tf = (with_workers ws s, tf ++ (filter (fun x => fires s now x.2) ((id, w) :: l)).*1)%list /\
    (forall i, i ∉ ((id, w) :: l).*1 -> ws !! i = workers s !! i) /\
    (forall i x, (i, x) ∈ (id, w) :: l -> ws !! i = if fires s now x then Some (set_flag true x) else workers s !! i)).
  { intros Hf. destruct (IH s tf Hnd) as (ws & Hc & Ho & Hi). exists ws. rewrite Hc, filter_cons. simpl.
    rewrite Hf. simpl. split; [done|]. split.
    - intros i Hi'. apply Ho. intros Hx. apply Hi'. by right.
    - intros i x Hx. apply elem_of_cons in Hx as [[= -> ->]|Hx]; [|by apply Hi]. rewrite Hf. by apply Ho. }
  assert (Hfe : fires s now w = enabled w && should_fire s w now && negb (in_flight w)) by done.
  destruct (enabled w); [|by apply Hskip; rewrite Hfe]. destruct (should_fire s w now); [|by apply Hskip; rewrite Hfe].
  destruct (in_flight w); [by apply Hskip; rewrite Hfe|]. clear Hskip. simpl in Hfe. simpl negb. cbn iota.
  destruct (IH (with_workers (<[id := set_flag true w]> (workers s)) s) (tf ++ [id])%list Hnd) as (ws & Hc & Ho & Hi).
  exists ws. rewrite Hc, filter_cons. simpl. rewrite Hfe. simpl. rewrite <- app_assoc. split; [done|]. split.
  - intros i Hi'. rewrite Ho; [|by intros Hx; apply Hi'; right]. simpl. rewrite lookup_insert_ne; [done|].
    intros ->. apply Hi'. by left.
  - intros i x Hx. apply elem_of_cons in Hx as [[= -> ->]|Hx].
    + rewrite Hfe, Ho by done. simpl. by rewrite lookup_insert_eq.
    + rewrite (Hi _ _ Hx), fires_with_workers. destruct (fires s now x); [done|]. simpl. rewrite lookup_insert_ne; [done|].
      intros <-. apply Hn. apply list_elem_of_fmap. by exists (id, x).
Qed.

Lemma spawn_fires_spec now tf : forall s,
  spawn_fires now tf s =
  with_runs (waiting s ++ map (fun id => {| run_worker := id; run_month := month_key now |})
               (filter (fun id => cost_cap_exceeded s id now = None) tf))%list (executing s) (triggered s) s.
Proof.
  induction tf as [|id tf IH]; intros s; simpl.
  { rewrite app_nil_r. by destruct s. }
  rewrite filter_cons. destruct (cost_cap_exceeded s id now) as [c|] eqn:Hc.
  - rewrite decide_False by done. apply IH.
  - rewrite decide_True by done. rewrite IH. simpl. by rewrite <- app_assoc.
Qed.

(** What a tick does: the workers it claims, and the flags and runs it leaves. *)
Lemma tick_spec now s : exists fired, NoDup fired /\
  (forall id, id ∈ fired <-> exists w, workers s !! id = Some w /\ fires s now w = true) /\
  (forall id, workers (tick now s) !! id =
     (fun w => if fires s now w then set_flag true w else w) <$> workers s !! id) /\
  waiting (tick now s) = (waiting s ++ map (fun id => {| run_worker := id; run_month := month_key now |})
               (filter (fun id => cost_cap_exceeded s id now = None) fired))%list /\
  executing (tick now s) = executing s /\ triggered (tick now s) = triggered s /\
  limiter (tick now s) = limiter s /\ worker_costs (tick now s) = worker_costs s /\ sidecar (tick now s) = sidecar s.
Proof.
  unfold tick. destruct (collect_spec now (map_to_list (workers s)) s [] (NoDup_fst_map_to_list _)) as (ws & Hc & Ho & Hi).
  rewrite Hc, spawn_fires_spec. cbn [app]. exists (filter (fun x => fires s now x.2) (map_to_list (workers s))).*1.
  split_and!; try done.
  - eapply sublist_NoDup; [apply (NoDup_fst_map_to_list (workers s))|]. apply fmap_sublist, sublist_filter.
  - intros id. rewrite list_elem_of_fmap. split.
    + intros ([i w] & -> & [Hf Hin]%list_elem_of_filter). exists w. split; [by apply elem_of_map_to_list|by apply Is_true_true].
    + intros (w & Hw & Hf). exists (id, w). split; [done|]. apply list_elem_of_filter.
      split; [by apply Is_true_true|by apply elem_of_map_to_list].
  - intros id. simpl. destruct (workers s !! id) as [w|] eqn:Hw; simpl.
    + rewrite (Hi id w) by (by apply elem_of_map_to_list). by destruct (fires s now w).
    + rewrite Ho; [done|]. intros ([i w] & -> & Hin)%list_elem_of_fmap. apply elem_of_map_to_list in Hin. simpl in Hw. congruence.
Qed.

(** A tick is exact: it claims the enabled workers due within the window
    and not in flight, starts one run for each of those below the cap, and
    changes nothing else. *)
Theorem tick_exact now s id :
  (exists w, workers s !! id = Some w /\ fires s now w = true /\ cost_cap_exceeded s id now = None) <->
  {| run_worker := id; run_month := month_key now |} ∈ drop (length (waiting s)) (waiting (tick now s)).
Proof.
  destruct (tick_spec now s) as (fired & _ & Hf & _ & Hw & _). rewrite Hw, drop_app_length, list_elem_of_fmap. split.
  - intros (w & Hl & Hfi & Hc). exists id. split; [done|]. apply list_elem_of_filter. split; [done|]. apply Hf. by exists w.
  - intros (i & [= <-] & [Hc Hin]%list_elem_of_filter). apply Hf in Hin as (w & Hl & Hfi). by exists w.
Qed.

(** ** One run per worker *)

Definition exclusive s : Prop :=
  forall id, (runs_of s id <= 1)%nat /\
    (runs_of s id <> 0%nat -> exists w, workers s !! id = Some w /\ in_flight w = true).

Lemma runs_with_workers ws s id : runs_of (with_workers ws s) id = runs_of s id.
Proof. done. Qed.

Lemma delete_runs (l : list run) k r id : l !! k = Some r ->
  length (filter (fun r => run_worker r = id) l) =
  (length (filter (fun r => run_worker r = id) (delete k l)) + if decide (run_worker r = id) then 1 else 0)%nat.
Proof.
  intros Hk. rewrite (delete_take_drop l k). rewrite <- (take_drop_middle l k r Hk) at 1.
  rewrite !filter_app, filter_cons, !length_app. destruct (decide _); simpl; lia.
Qed.

Lemma delete_names (l : list string) k n id : l !! k = Some n ->
  length (filter (fun r => r = id) l) =
  (length (filter (fun r => r = id) (delete k l)) + if decide (n = id) then 1 else 0)%nat.
Proof.
  intros Hk. rewrite (delete_take_drop l k). rewrite <- (take_drop_middle l k n Hk) at 1.
  rewrite !filter_app, filter_cons, !length_app. destruct (decide _); simpl; lia.
Qed.

Lemma clear_flag_lookup id s i : workers (clear_flag id s) !! i =
  (fun w => if decide (i = id) then set_flag false w else w) <$> workers s !! i.
Proof.
  unfold clear_flag. destruct (workers s !! id) as [w|] eqn:Hw.
  - simpl. destruct (decide (i = id)) as [->|Hne].
    + by rewrite lookup_insert_eq, Hw.
    + rewrite lookup_insert_ne by done. by destruct (workers s !! i).
  - destruct (decide (i = id)) as [->|Hne]; [by rewrite Hw|]. by destruct (workers s !! i).
Qed.

Lemma clear_flag_runs id s i : runs_of (clear_flag id s) i = runs_of s i.
Proof. unfold clear_flag. by destruct (workers s !! id). Qed.

Lemma account_workers m rep ok s : workers (account m rep ok s) = workers s.
Proof. unfold account. by destruct (cost_gt _ _). Qed.

Lemma account_lists m rep ok s :
  waiting (account m rep ok s) = waiting s /\ executing (account m rep ok s) = executing s /\
  triggered (account m rep ok s) = triggered s /\ limiter (account m rep ok s) = limiter s.
Proof. unfold account. by destruct (cost_gt _ _). Qed.

(** How each operation moves the runs and the flags of one worker. *)
Lemma finish_runs k r rep ok s id : executing s !! k = Some r ->
  (runs_of s id = runs_of (finish k rep ok s) id + if decide (id = run_worker r) then 1 else 0)%nat /\
  workers (finish k rep ok s) !! id =
    (fun w => if decide (id = run_worker r) then set_flag false w else w) <$> workers s !! id.
Proof.
  intros Hk. unfold finish. rewrite Hk, clear_flag_runs, clear_flag_lookup.
  set (s1 := match rep with Some rep => account (run_month r) rep ok s | None => s end).
  assert (Hs1 : workers s1 = workers s /\ waiting s1 = waiting s /\ executing s1 = executing s /\ triggered s1 = triggered s).
  { unfold s1. destruct rep as [rep|]; [|done]. rewrite account_workers.
    destruct (account_lists (run_month r) rep ok s) as (? & ? & ? & _). by split_and!. }
  destruct Hs1 as (Hw & Hwa & He & Ht). split; [|by simpl; rewrite Hw].
  unfold runs_of. simpl. rewrite Hwa, He, Ht, !filter_app, !length_app, (delete_runs _ k r id Hk).
  repeat case_decide; congruence || lia.
Qed.

Lemma trigger_end_runs k name rep s id : triggered s !! k = Some name ->
  (runs_of s id = runs_of (trigger_end k rep s).2 id + if decide (id = name) then 1 else 0)%nat /\
  workers (trigger_end k rep s).2 !! id =
    (fun w => if decide (id = name) then set_flag false w else w) <$> workers s !! id.
Proof.
  intros Hk. unfold trigger_end. rewrite Hk. cbn [snd]. rewrite clear_flag_runs, clear_flag_lookup. split; [|done].
  unfold runs_of. simpl. rewrite (delete_names _ k name id Hk).
  repeat case_decide; congruence || lia.
Qed.

Lemma tick_runs now s id :
  runs_of (tick now s) id = (runs_of s id +
    match workers s !! id with
    | Some w => if fires s now w && bool_decide (cost_cap_exceeded s id now = None) then 1 else 0
    | None => 0
    end)%nat.
Proof.
  destruct (tick_spec now s) as (fired & Hnd & Hf & _ & Hw & He & Ht & _).
  unfold runs_of. rewrite Hw, He, Ht, !filter_app, !length_app.
  enough (Hlen : length (filter (fun r => run_worker r = id)
      (map (fun id => {| run_worker := id; run_month := month_key now |})
         (filter (fun id => cost_cap_exceeded s id now = None) fired))) =
    match workers s !! id with
    | Some w => if fires s now w && bool_decide (cost_cap_exceeded s id now = None) then 1 else 0
    | None => 0 end%nat) by lia.
  assert (Hcount : forall l : list string, NoDup l -> length (filter (fun r => run_worker r = id)
      (map (fun id => {| run_worker := id; run_month := month_key now |}) l)) = if decide (id ∈ l) then 1%nat else 0%nat).
  { clear. induction l as [|x l IH]; intros Hnd; [done|]. apply NoDup_cons in Hnd as [Hn Hnd]. cbn [map].
    rewrite filter_cons. simpl. specialize (IH Hnd). destruct (decide (x = id)) as [->|Hne].
    - simpl. rewrite IH, decide_False by done. by rewrite decide_True by left.
    - rewrite IH. apply decide_ext. rewrite elem_of_cons. split; [by right|by intros [|]]. }
  rewrite Hcount by (by apply NoDup_filter). clear Hcount.
  destruct (workers s !! id) as [w|] eqn:Hl.
  - destruct (fires s now w) eqn:Hfi; simpl.
    + case_bool_decide as Hc.
      * rewrite decide_True; [done|]. apply list_elem_of_filter. split; [done|]. apply Hf. by exists w.
      * rewrite decide_False; [done|]. by intros [? _]%list_elem_of_filter.
    + rewrite decide_False; [done|]. intros [_ (w' & ? & ?)%Hf]%list_elem_of_filter. congruence.
  - rewrite decide_False; [done|]. intros [_ (w' & ? & ?)%Hf]%list_elem_of_filter. congruence.
Qed.

Lemma trigger_runs name s id :
  runs_of (trigger name s).2 id = (runs_of s id +
    match workers s !! name with
    | Some w => if negb (in_flight w) && bool_decide (name = id) then 1 else 0
    | None => 0
    end)%nat /\
  workers (trigger name s).2 !! id =
    (fun w => if decide (id = name) then set_flag true w else w) <$> workers s !! id.
Proof.
  unfold trigger. destruct (workers s !! name) as [w|] eqn:Hw; simpl.
  2: { split; [lia|]. destruct (decide (id = name)) as [->|]; [by rewrite Hw|]. by destruct (workers s !! id). }
  destruct (in_flight w) eqn:Hf; simpl.
  - split; [lia|]. destruct (decide (id = name)) as [->|]; [|by destruct (workers s !! id)]. rewrite Hw. simpl.
    f_equal. destruct w. simpl in Hf. by subst.
  - split.
    + unfold runs_of. simpl. rewrite !filter_app, !length_app, filter_cons. case_bool_decide as Hd.
      * rewrite decide_True by done. simpl. lia.
      * rewrite decide_False by done. simpl. lia.
    + destruct (decide (id = name)) as [->|Hne]; [by rewrite lookup_insert_eq, Hw|]. rewrite lookup_insert_ne by done.
      by destruct (workers s !! id).
Qed.

Lemma admit_runs s id : runs_of (admit_first s) id = runs_of s id /\ workers (admit_first s) = workers s.
Proof.
  unfold admit_first. destruct (waiting s) as [|r rest] eqn:Hw; [done|]. destruct (permit_free s); [|done].
  split; [|done]. unfold runs_of. simpl. rewrite Hw, !filter_app, !length_app, !filter_cons.
  destruct (decide _); simpl; lia.
Qed.

Lemma enable_runs b name s id :
  runs_of (run_sop s (SEnable b name)) id = runs_of s id /\
  in_flight <$> workers (run_sop s (SEnable b name)) !! id = in_flight <$> workers s !! id.
Proof.
  simpl. unfold enable. destruct (workers s !! name) as [w|] eqn:Hw; [|done]. split; [done|]. simpl.
  destruct (decide (id = name)) as [->|Hne]; [by rewrite lookup_insert_eq, Hw|]. by rewrite lookup_insert_ne.
Qed.

Lemma register_runs n ex desc s id :
  runs_of (run_sop s (SRegister n ex desc)) id = runs_of s id /\
  (workers s !! id <> None -> workers (run_sop s (SRegister n ex desc)) !! id = workers s !! id).
Proof.
  simpl. unfold register. destruct (workers s !! n) as [w|] eqn:Hw; [done|]. destruct (cron_ok ex); [|done].
  split; [done|]. intros Hs. simpl. rewrite lookup_insert_ne; [done|]. by intros ->.
Qed.

(** What an operation may do to one worker: start its only run and set its
    flag, end its run and clear its flag, or neither. *)
Lemma run_sop_worker s o id : exclusive s ->
  (runs_of s id <> 0%nat -> exists w, workers s !! id = Some w /\ in_flight w = true) ->
  (runs_of (run_sop s o) id <= 1)%nat /\
  (runs_of (run_sop s o) id <> 0%nat -> exists w, workers (run_sop s o) !! id = Some w /\ in_flight w = true) /\
  (forall w, runs_of s id = 0%nat -> workers s !! id = Some w -> in_flight w = true ->
     runs_of (run_sop s o) id = 0%nat /\ exists w', workers (run_sop s o) !! id = Some w' /\ in_flight w' = true).
Proof.
  intros Hx Hfl. destruct (Hx id) as [Hle _]. destruct o as [now| |k rep ok|name|k rep|b name|n ex desc].
  - cbn [run_sop]. rewrite tick_runs. destruct (tick_spec now s) as (_ & _ & _ & Hw & _). rewrite Hw.
    destruct (workers s !! id) as [w|] eqn:Hl.
    + destruct (fires s now w) eqn:Hf.
      * assert (Hnf : in_flight w = false).
        { unfold fires in Hf. by destruct (in_flight w), (enabled w), (should_fire s w now). }
        assert (Hr : runs_of s id = 0%nat).
        { destruct (Nat.eq_dec (runs_of s id) 0) as [|Hne]; [done|]. destruct (Hfl Hne) as (w' & [= <-] & Hw'). congruence. }
        simpl. split_and!.
        -- case_bool_decide; lia.
        -- intros _. simpl. rewrite Hf. by eexists.
        -- intros w' _ [= <-] Hw'. congruence.
      * rewrite Nat.add_0_r. split_and!; [done| |].
        -- intros Hne. destruct (Hfl Hne) as (w' & [= <-] & Hw'). simpl. rewrite Hf. by exists w.
        -- intros w' Hr [= <-] Hw'. split; [done|]. simpl. rewrite Hf. by exists w.
    + rewrite Nat.add_0_r. split_and!; [done| |done]. intros Hne. by destruct (Hfl Hne) as (? & ? & _).
  - destruct (admit_runs s id) as [Hr Hw]. cbn [run_sop]. rewrite Hr, Hw. split_and!; [done|exact Hfl|eauto].
  - cbn [run_sop]. destruct (executing s !! k) as [r|] eqn:Hk.
    2: { unfold finish. rewrite Hk. split_and!; [done|exact Hfl|eauto]. }
    destruct (finish_runs k r rep ok s id Hk) as [Hr Hw]. rewrite Hw. destruct (decide (id = run_worker r)) as [Heq|Hne].
    + split_and!; [lia|intros; exfalso; lia|intros; exfalso; lia].
    + rewrite Nat.add_0_r in Hr. rewrite <- Hr. split_and!; [done| |].
      * intros Hn. destruct (Hfl Hn) as (w & -> & Hf). by exists w.
      * intros w Hz -> Hf. split; [done|]. by exists w.
  - cbn [run_sop]. destruct (trigger_runs name s id) as [Hr Hw]. rewrite Hr, Hw.
    destruct (decide (id = name)) as [->|Hne].
    + destruct (workers s !! name) as [w|] eqn:Hl; [|by rewrite Nat.add_0_r].
      destruct (in_flight w) eqn:Hf; simpl.
      * rewrite Nat.add_0_r. split_and!; [done|by eexists|]. intros w' Hz [= <-] _. split; [done|by eexists].
      * rewrite bool_decide_eq_true_2 by done.
        assert (Hz : runs_of s name = 0%nat).
        { destruct (Nat.eq_dec (runs_of s name) 0) as [|Hn]; [done|]. destruct (Hfl Hn) as (w' & [= <-] & Hw'). congruence. }
        split_and!; [lia|by eexists|]. intros w' _ [= <-] ?. congruence.
    + assert (Hz : match workers s !! name with
        | Some w => if negb (in_flight w) && bool_decide (name = id) then 1 else 0 | None => 0 end%nat = 0%nat).
      { destruct (workers s !! name); [|done]. rewrite bool_decide_eq_false_2 by done. by rewrite andb_false_r. }
      rewrite Hz, Nat.add_0_r. split_and!; [done| |].
      * intros Hn. destruct (Hfl Hn) as (w & -> & Hf). by exists w.
      * intros w Hr0 -> Hf. split; [done|]. by exists w.
  - cbn [run_sop]. destruct (triggered s !! k) as [name|] eqn:Hk.
    2: { unfold trigger_end. rewrite Hk. split_and!; [done|exact Hfl|eauto]. }
    destruct (trigger_end_runs k name rep s id Hk) as [Hr Hw]. rewrite Hw. destruct (decide (id = name)) as [Heq|Hne].
    + split_and!; [lia|intros; exfalso; lia|intros; exfalso; lia].
    + rewrite Nat.add_0_r in Hr. rewrite <- Hr. split_and!; [done| |].
      * intros Hn. destruct (Hfl Hn) as (w & -> & Hf). by exists w.
      * intros w Hz -> Hf. split; [done|]. by exists w.
  - destruct (enable_runs b name s id) as [Hr Hw]. rewrite Hr.
    assert (Hback : forall w, workers s !! id = Some w -> in_flight w = true ->
      exists w', workers (run_sop s (SEnable b name)) !! id = Some w' /\ in_flight w' = true).
    { intros w Hl Hf. rewrite Hl in Hw. destruct (workers (run_sop s (SEnable b name)) !! id) as [w'|]; [|done].
      exists w'. split; [done|]. simpl in Hw. congruence. }
    split_and!; [done| |].
    + intros Hn. destruct (Hfl Hn) as (w & Hl & Hf). by eapply Hback.
    + intros w Hz Hl Hf. split; [done|]. by eapply Hback.
  - destruct (register_runs n ex desc s id) as [Hr Hw]. rewrite Hr. split_and!; [done| |].
    + intros Hn. destruct (Hfl Hn) as (w & Hl & Hf). exists w. split; [|done]. rewrite Hw; congruence.
    + intros w Hz Hl Hf. split; [done|]. exists w. split; [|done]. rewrite Hw; congruence.
Qed.

Lemma run_sop_exclusive s o : exclusive s -> exclusive (run_sop s o).
Proof. intros Hx id. destruct (run_sop_worker s o id Hx) as (Hle & Hfl & _); [apply Hx|]. done. Qed.

Lemma run_sops_exclusive l : forall s, exclusive s -> exclusive (run_sops s l).
Proof. induction l as [|o l IH]; intros s Hx; [done|]. by apply IH, run_sop_exclusive. Qed.

Lemma new_exclusive now disk : exclusive (new_scheduler now disk).
Proof. intros id. split; [simpl; unfold runs_of; simpl; lia|]. unfold runs_of. simpl. lia. Qed.

(** C39. A worker never overlaps itself: however ticks, permits, completions,
    manual triggers, enabling and registrations interleave, each worker has at
    most one run spawned and not ended, and its flag is set while it has. *)
Theorem worker_never_overlaps now disk l id :
  let s := run_sops (new_scheduler now disk) l in
  (runs_of s id <= 1)%nat /\
  (runs_of s id <> 0%nat -> exists w, workers s !! id = Some w /\ in_flight w = true).
Proof. apply (run_sops_exclusive l), new_exclusive. Qed.

(** The flag of a worker is set and nothing will clear it. *)
Definition latched s (id : string) : Prop :=
  runs_of s id = 0%nat /\ exists w, workers s !! id = Some w /\ in_flight w = true.

Lemma run_sops_latched l : forall s id, exclusive s -> latched s id -> latched (run_sops s l) id.
Proof.
  induction l as [|o l IH]; intros s id Hx (Hz & w & Hw & Hf); [by split; [|exists w]|].
  destruct (run_sop_worker s o id Hx) as (_ & _ & Hl); [apply Hx|]. apply IH; [by apply run_sop_exclusive|].
  by apply (Hl w).
Qed.

(** A capped worker is latched for good: a due worker that a tick skips for
    its cost keeps the flag the tick has claimed, so whatever follows, also in
    later months, it never runs again and a manual trigger of it is refused as
    busy. *)
Theorem capped_worker_latched now disk l1 id w l2 :
  let s := run_sops (new_scheduler now disk) l1 in
  forall t c, workers s !! id = Some w -> fires s t w = true -> cost_cap_exceeded s id t = Some c ->
  let s' := run_sops (tick t s) l2 in
  runs_of s' id = 0%nat /\ (trigger id s').1 = Err (busy_error id).
Proof.
  intros s t c Hw Hf Hc. assert (Hx : exclusive s) by apply (run_sops_exclusive l1), new_exclusive.
  assert (Hl : latched (tick t s) id).
  { split.
    - rewrite tick_runs, Hw, Hf, Hc. destruct (Hx id) as [_ Hfl].
      destruct (Nat.eq_dec (runs_of s id) 0) as [->|Hne]; [done|]. destruct (Hfl Hne) as (w' & Hw' & Hi).
      exfalso. unfold fires in Hf. assert (w' = w) as -> by congruence. rewrite Hi, andb_false_r in Hf. done.
    - destruct (tick_spec t s) as (_ & _ & _ & Hws & _). exists (set_flag true w). by rewrite Hws, Hw; simpl; rewrite Hf. }
  intros s'. apply (run_sops_latched l2) in Hl; [|by apply (run_sop_exclusive s (STick t))].
  destruct Hl as (Hz & w' & Hw' & Hi). split; [done|]. unfold trigger. fold s' in Hw'. by rewrite Hw', Hi.
Qed.

(** ** The limiter *)

Lemma run_sop_limiter s o : limiter (run_sop s o) = limiter s.
Proof.
  destruct o as [now| |k rep ok|name|k rep|b name|n ex desc]; simpl.
  - by destruct (tick_spec now s) as (_ & _ & _ & _ & _ & _ & _ & -> & _).
  - unfold admit_first. destruct (waiting s); [done|]. by destruct (permit_free s).
  - unfold finish. destruct (executing s !! k) as [r|]; [|done]. unfold clear_flag.
    assert (Ha : forall rp, limiter (account (run_month r) rp ok s) = limiter s) by (intros rp; apply account_lists).
    destruct rep as [rep|]; destruct (workers _ !! _); simpl; by rewrite ?Ha.
  - unfold trigger. destruct (workers s !! name) as [w|]; [|done]. by destruct (in_flight w).
  - unfold trigger_end. destruct (triggered s !! k); [|done]. unfold clear_flag. by destruct (workers _ !! _).
  - unfold enable. by destruct (workers s !! name).
  - unfold register. destruct (workers s !! n); [done|]. by destruct (cron_ok ex).
Qed.

Lemma run_sop_executing s o k : limiter s = Some k -> (length (executing s) <= k)%nat ->
  (length (executing (run_sop s o)) <= k)%nat.
Proof.
  intros Hl Hk. destruct o as [now| |j rep ok|name|j rep|b name|n ex desc]; simpl.
  - by destruct (tick_spec now s) as (_ & _ & _ & _ & _ & -> & _).
  - unfold admit_first. destruct (waiting s) as [|r rest]; [done|]. unfold permit_free. rewrite Hl.
    destruct (Nat.ltb_spec (length (executing s)) k); [|done]. simpl. rewrite length_app. simpl. lia.
  - unfold finish. destruct (executing s !! j) as [r|]; [|done]. unfold clear_flag.
    set (s1 := match rep with Some rep => account (run_month r) rep ok s | None => s end).
    assert (He : executing s1 = executing s).
    { unfold s1. destruct rep; [|done]. apply account_lists. }
    destruct (workers _ !! _); simpl; rewrite He; etransitivity; [apply sublist_length, sublist_delete|done
      |apply sublist_length, sublist_delete|done].
  - unfold trigger. destruct (workers s !! name) as [w|]; [|done]. by destruct (in_flight w).
  - unfold trigger_end. destruct (triggered s !! j); [|done]. unfold clear_flag. by destruct (workers _ !! _).
  - unfold enable. by destruct (workers s !! name).
  - unfold register. destruct (workers s !! n); [done|]. by destruct (cron_ok ex).
Qed.

(** The limiter holds: a scheduler with [k] permits never executes more
    than [k] fired workers at once. *)
Theorem limiter_holds now disk k l :
  (length (executing (run_sops (with_limiter k (new_scheduler now disk)) l)) <= k)%nat.
Proof.
  assert (Hgen : forall s, limiter s = Some k -> (length (executing s) <= k)%nat ->
    (length (executing (run_sops s l)) <= k)%nat).
  { induction l as [|o l IH]; intros s Hl Hk; [done|]. apply IH; [by rewrite run_sop_limiter|by apply run_sop_executing]. }
  apply Hgen; [done|]. simpl. lia.
Qed.

(** ** The ledger *)

Lemma finish_ledger k r rep ok s : executing s !! k = Some r ->
  worker_costs (finish k (Some rep) ok s) = worker_costs (account (run_month r) rep ok s) /\
  sidecar (finish k (Some rep) ok s) = sidecar (account (run_month r) rep ok s).
Proof. intros Hk. unfold finish. rewrite Hk. unfold clear_flag. by destruct (workers _ !! _). Qed.

(** A late run forgets the totals: when a fired run that cost something
    ends in another month than the ledger's, also an earlier one, every other
    worker's total is lost and the ledger takes the run's month, so no other
    worker is over its cap at any time. *)
Theorem late_run_forgets_costs s k r rep ok : executing s !! k = Some r ->
  run_month r <> month (worker_costs s) -> cost_gt (llm_cost_usd rep) cost_zero = true ->
  let s' := finish k (Some rep) ok s in
  month (worker_costs s') = run_month r /\
  forall id now, id <> worker_id rep -> cost_cap_exceeded s' id now = None.
Proof.
  intros Hk Hm Hc s'. destruct (finish_ledger k r rep ok s Hk) as [Hl _]. unfold s', cost_cap_exceeded. rewrite Hl.
  unfold account. rewrite Hc. cbn [worker_costs with_ledger month costs]. split; [done|]. intros id now Hne.
  destruct (negb _); [done|]. destruct (String.eqb_spec (month (worker_costs s)) (run_month r)) as [|_]; [by destruct Hm|].
  rewrite lookup_insert_ne by done. by rewrite lookup_empty.
Qed.

(** The sidecar holds the totals of the ledger's month. *)
Definition synced s (p : string) : Prop :=
  path (worker_costs s) = Some p /\
  load_cost_ledger (sidecar s) p (month (worker_costs s)) = costs (worker_costs s).

Definition saves (o : sop) : Prop := match o with SFinish _ _ ok => ok = true | _ => True end.

Lemma synced_same s s' p : worker_costs s' = worker_costs s -> sidecar s' = sidecar s -> synced s p -> synced s' p.
Proof. unfold synced. by intros -> ->. Qed.

Lemma account_synced m rep s p : synced s p -> synced (account m rep true s) p.
Proof.
  intros [Hp Hs]. unfold account. destruct (cost_gt _ _); [|done]. split; [done|]. cbn [sidecar with_ledger worker_costs month costs].
  rewrite Hp. unfold load_cost_ledger. by rewrite lookup_insert_eq, String.eqb_refl.
Qed.

Lemma run_sop_synced s o p : saves o -> synced s p -> synced (run_sop s o) p.
Proof.
  intros Hok Hs. destruct o as [now| |k rep ok|name|k rep|b name|n ex desc]; simpl in *.
  - destruct (tick_spec now s) as (_ & _ & _ & _ & _ & _ & _ & _ & Hw & Hd). by eapply synced_same.
  - unfold admit_first. destruct (waiting s); [done|]. destruct (permit_free s); exact Hs.
  - subst ok. destruct (executing s !! k) as [r|] eqn:Hk; [|by unfold finish; rewrite Hk]. destruct rep as [rep|].
    + destruct (finish_ledger k r rep true s Hk) as [Hl Hd]. eapply synced_same; [exact Hl|exact Hd|]. by apply account_synced.
    + unfold finish. rewrite Hk. unfold clear_flag. destruct (workers _ !! _); exact Hs.
  - unfold trigger. destruct (workers s !! name) as [w|]; [|done]. destruct (in_flight w); exact Hs.
  - unfold trigger_end. destruct (triggered s !! k); [|done]. unfold clear_flag. destruct (workers _ !! _); exact Hs.
  - unfold enable. destruct (workers s !! name); exact Hs.
  - unfold register. destruct (workers s !! n); [done|]. destruct (cron_ok ex); exact Hs.
Qed.

Lemma run_sops_synced l p : Forall saves l -> forall s, synced s p -> synced (run_sops s l) p.
Proof. induction 1 as [|o l Ho _ IH]; intros s Hs; [done|]. by apply IH, run_sop_synced. Qed.

(** The cap survives restarts: when every save succeeds, a scheduler
    started over the same sidecar within the ledger's month begins with exactly
    the totals the stopped one had, and a start in another month with none. *)
Theorem restart_keeps_costs now0 disk p l now : Forall saves l ->
  let s := run_sops (with_cost_ledger now0 p (new_scheduler now0 disk)) l in
  let s' := with_cost_ledger now p (new_scheduler now (sidecar s)) in
  month_key now = month (worker_costs s) -> worker_costs s' = worker_costs s.
Proof.
  intros Hl s s' Hm. assert (Hs : synced s p) by (by apply run_sops_synced).
  destruct Hs as [Hp Hc]. unfold s', with_cost_ledger. cbn [worker_costs with_ledger sidecar new_scheduler]. rewrite Hm, Hc, <- Hp.
  by destruct (worker_costs s).
Qed.

(** ** The window *)

(** One occurrence fires twice when two ticks see it within the window: the
    window is a second wider than the tick interval. *)
Lemma occurrence_fires_twice s w t1 t2 next :
  cron_next (tz s) (expr w) t1 = Some next -> cron_next (tz s) (expr w) t2 = Some next ->
  enabled w = true -> in_flight w = false -> tick_interval s = 30%N ->
  (next - t1 = 30500000000)%Z -> (t2 = t1 + 30000000000)%Z ->
  fires s t1 w = true /\ fires s t2 w = true.
Proof.
  intros H1 H2 He Hf Hi Ht Hn. unfold fires, should_fire. rewrite H1, H2, He, Hf, Hi, Ht, Hn.
  replace (next - (t1 + 30000000000))%Z with 500000000%Z by lia. split; reflexivity.
Qed.
End scheduler.

(** ** Witnesses *)

(** Minutes that start at multiples of sixty seconds, months of thirty days. *)
Definition demo_calendar : Calendar :=
  {| month_key t := pretty (Z.to_N (t / (30 * 86400 * NANOS)));
     cron_ok e := negb (String.eqb e "");
     cron_next _ _ t := Some ((t / (60 * NANOS) + 1) * (60 * NANOS))%Z |}.

#[local] Existing Instance demo_calendar.

Definition demo_instant : Z := 45 * NANOS.
Definition demo_report : WorkerReport :=
  {| worker_id := "dream"; success := true; fact_count := 3; duration_ms := 10;
     llm_cost_usd := S754_finite false 7036874417766400 (-49) |}.

(** One worker, whose first run costs 12.5 dollars. *)
Definition demo_ops : list sop :=
  [SRegister "dream" "0 * * * * *" "nightly"; STick demo_instant; SAdmit; SFinish 0 (Some demo_report) true].

Definition demo_scheduler : scheduler := run_sops (with_cost_ledger 0 "costs.json" (new_scheduler 0 ∅)) demo_ops.
Definition demo_capped : scheduler := run_sops (new_scheduler 0 ∅) demo_ops.
Definition demo_state (s : scheduler) : RegisteredWorker :=
  default {| expr := ""; description := ""; enabled := false; in_flight := false |} (workers s !! "dream").

Lemma capped_worker_latched_witness :
  (trigger "dream" (run_sops (tick demo_instant demo_capped) [STick (70 * NANOS); SAdmit])).1 = Err (busy_error "dream").
Proof.
  apply (capped_worker_latched 0 ∅ demo_ops "dream" (demo_state demo_capped) [STick (70 * NANOS); SAdmit]
           demo_instant (llm_cost_usd demo_report)); vm_compute; reflexivity.
Defined.

Definition demo_fired : scheduler :=
  run_sops demo_scheduler [SRegister "curator" "0 * * * * *" ""; STick (30 * 86400 * NANOS + demo_instant); SAdmit].

Lemma late_run_forgets_costs_witness :
  cost_cap_exceeded demo_scheduler "dream" demo_instant = Some (llm_cost_usd demo_report) /\
  cost_cap_exceeded
    (finish 0 (Some {| worker_id := "curator"; success := true; fact_count := 0; duration_ms := 1;
                       llm_cost_usd := llm_cost_usd demo_report |}) true demo_fired) "dream" demo_instant = None.
Proof.
  split; [vm_compute; reflexivity|].
  refine (proj2 (late_run_forgets_costs demo_fired 0 {| run_worker := "curator"; run_month := "1" |} _ true _ _ _) "dream" demo_instant _).
  - vm_compute. reflexivity.
  - vm_compute. discriminate.
  - vm_compute. reflexivity.
  - discriminate.
Defined.

Lemma restart_keeps_costs_witness :
  worker_costs (with_cost_ledger demo_instant "costs.json" (new_scheduler demo_instant (sidecar demo_scheduler)))
  = worker_costs demo_scheduler.
Proof.
  apply (restart_keeps_costs 0 ∅ "costs.json" demo_ops demo_instant).
  - repeat constructor.
  - vm_compute. reflexivity.
Defined.
