(* ===== verification/Transaction.v ===== *)
(** * The vault's transactions

    Models [crates/zen-vault/src/distill/transaction.rs], [recovery.rs] and
    [checkpoint.rs], and [atomic_write] of [wiki/writer.rs]: content versions and
    their snapshots, the conditional write, the tracking file of a transaction
    with its rollback and commit, the replay of stale transactions and the
    consolidation checkpoint.  The file system is a map from paths to texts, with
    the time of their last change, and directories; an atomic write is the
    sequence of its steps on a temporary file, so that a crash can fall between
    any two of them.  Links and failures of single file operations are left out,
    except that a directory can be neither read, written, replaced nor removed as
    a file, and the directories above a path are taken to exist.  The hash is a
    class. *)

From S2P Require Import Prelude Text.
From Stdlib Require Import Lia.
Local Open Scope list_scope.

(** ** The file system *)

Inductive node := File (content : text) (modified : Z) | Dir.

Abbreviation fs := (gmap text node).

Definition exists_ (d : fs) (p : text) : bool := bool_decide (is_Some (d !! p)).

(** [fs::write], when it comes to its end. *)
Definition write (p content : text) (now : Z) (d : fs) : result fs text :=
  match d !! p with
  | Some Dir => Err (utf8 "is a directory")
  | _ => Ok (<[p := File content now]> d)
  end.

(** [fs::remove_file]. *)
Definition remove_file (p : text) (d : fs) : result fs text :=
  match d !! p with
  | Some (File _ _) => Ok (delete p d)
  | Some Dir => Err (utf8 "is a directory")
  | None => Err (utf8 "not found")
  end.

(** What the system is asked to do, one call after the other: to open a file,
    which creates or truncates it, to append to one, which may create it, and to
    rename a file over another. *)
Inductive disk_step :=
  | Open (p : text) (now : Z)
  | Append (p added : text) (now : Z)
  | Rename (p q : text).

Definition disk_act (s : disk_step) (d : fs) : result fs text :=
  match s with
  | Open p now => write p [] now d
  | Append p added now => write p (match d !! p with Some (File c _) => c ++ added | _ => added end) now d
  | Rename p q =>
    match d !! p with
    | Some (File c t) => write q c t (delete p d)
    | _ => Err (utf8 "rename: " ++ p)
    end
  end.
Fixpoint run_steps (l : list disk_step) (d : fs) : option text * fs :=
  match l with
  | [] => (None, d)
  | s :: rest => match disk_act s d with Ok d => run_steps rest d | Err e => (Some e, d) end
  end.

(** [with_extension(extension + ".tmp")]; a name without extension counts as one
    with the extension [tmp]. *)
Definition has_extension (p : text) : bool :=
  match default [] (last (split_on 47%N p)) with
  | [] => false
  | _ :: name => existsb (fun c => (c =? 46)%N) name
  end.
Definition tmp_of (p : text) : text := p ++ utf8 (if has_extension p then ".tmp" else ".tmp.tmp").
(** The content is put into the temporary file character by character: a write
    that is cut short leaves a prefix. *)
Definition atomic_steps (p content : text) (now : Z) : list disk_step :=
  Open (tmp_of p) now :: map (fun c => Append (tmp_of p) [c] now) content ++ [Rename (tmp_of p) p].
Definition atomic_write (p content : text) (now : Z) (d : fs) : option text * fs :=
  run_steps (atomic_steps p content now) d.

(** SHA-256, as 64 hex digits. *)
Class Digest := sha256 : text -> text.

(** What the conditional operations rely on: no collisions. *)
Class DigestLaws `{Digest} := sha256_inj : forall a b, sha256 a = sha256 b -> a = b.

Section transaction.
Context `{Digest}.

(** ** Versions *)

Definition content_version (d : fs) (p : text) : result (option text) text :=
  match d !! p with
  | None => Ok None
  | Some (File c _) => Ok (Some (sha256 c))
  | Some Dir => Err (utf8 "read for content version: " ++ p)
  end.

Inductive WriteOutcome := Committed | Conflict.

Inductive CasCommitOutcome := CommittedCas | RolledBack (drifted : list text).

(** [VersionSnapshot]: the captured versions. *)
Abbreviation VersionSnapshot := (gmap text (option text)).

Fixpoint capture_go (d : fs) (paths : list text) (vs : VersionSnapshot) : result VersionSnapshot text :=
  match paths with
  | [] => Ok vs
  | p :: rest => let? v := content_version d p in capture_go d rest (<[p := v]> vs)
  end.
Definition capture (d : fs) (paths : list text) : result VersionSnapshot text := capture_go d paths ∅.

(** The loop of [verify], over the map in its order. *)
Fixpoint verify_go (d : fs) (vs : list (text * option text)) : result (list text) text :=
  match vs with
  | [] => Ok []
  | (p, expected) :: rest =>
    let? current := content_version d p in
    let? drifted := verify_go d rest in
    Ok (if bool_decide (current = expected) then drifted else p :: drifted)
  end.
Definition verify (snap : VersionSnapshot) (d : fs) : result (list text) text :=
  verify_go d (map_to_list snap).

Definition write_if_unchanged (p : text) (expected : option text) (content : text) (now : Z) (d : fs)
    : result WriteOutcome text * fs :=
  match content_version d p with
  | Err e => (Err e, d)
  | Ok current =>
    if bool_decide (current = expected) then
      match atomic_write p content now d with
      | (None, d') => (Ok Committed, d')
      | (Some e, d') => (Err e, d')
      end
    else (Ok Conflict, d)
  end.

(** ** The scope *)

(** [new_for_logs]: the path of the tracking file. *)
Definition tracking_file (logs name : text) : text :=
  logs ++ utf8 "/.txn-" ++ name ++ utf8 ".jsonl".

Definition begin (tf : text) (now : Z) (d : fs) : result fs text := write tf [] now d.

(** The lines of the tracking file that name something. *)
Definition tracked_of (content : text) : list text :=
  filter (fun l => l <> []) (map trim (lines content)).

Definition tracked_paths (tf : text) (d : fs) : list text :=
  match d !! tf with Some (File c _) => tracked_of c | _ => [] end.

(** [track_path]: appends a line, creating the file. *)
Definition track_path (tf p : text) (now : Z) (d : fs) : result fs text :=
  match d !! tf with
  | Some Dir => Err (utf8 "open txn file: " ++ tf)
  | Some (File c _) => Ok (<[tf := File (c ++ p ++ [10%N]) now]> d)
  | None => Ok (<[tf := File (p ++ [10%N]) now]> d)
  end.

(** The loop of [rollback_tracking_file]: failures to remove are warnings. *)
Definition rollback_line (acc : nat * fs) (path : text) : nat * fs :=
  let '(removed, d) := acc in
  if exists_ d path then
    match remove_file path d with
    | Ok d' => (S removed, d')
    | Err _ => (removed, d)
    end
  else (removed, d).

Definition rollback_tracking_file (tf : text) (d : fs) : result (nat * fs) text :=
  match d !! tf with
  | None => Ok (0, d)
  | Some Dir => Err (utf8 "read txn file: " ++ tf)
  | Some (File c _) =>
    let '(removed, d1) := fold_left rollback_line (tracked_of c) (0, d) in
    Ok (removed, match remove_file tf d1 with Ok d2 => d2 | Err _ => d1 end)
  end.

Definition commit (tf : text) (d : fs) : result fs text :=
  if exists_ d tf then remove_file tf d else Ok d.

Definition rollback (tf : text) (d : fs) : result fs text :=
  let? r := rollback_tracking_file tf d in Ok r.2.

Definition commit_conditional (tf : text) (snap : VersionSnapshot) (d : fs)
    : result (CasCommitOutcome * fs) text :=
  let? drifted := verify snap d in
  match drifted with
  | [] => let? d' := commit tf d in Ok (CommittedCas, d')
  | _ :: _ => let? d' := rollback tf d in Ok (RolledBack drifted, d')
  end.

(** ** Crash replay *)

(** An hour, in nanoseconds. *)
Definition STALE_TXN_MIN_AGE : Z := 3600 * 1000000000.

(** [path.file_name()]. *)
Definition file_name (p : text) : text := default [] (last (split_on 47%N p)).

(** An entry of the logs directory that is a tracking file of age at least
    [min_age]. *)
Definition is_stale (logs : text) (min_age now : Z) (p : text) (n : node) : bool :=
  match n with
  | Dir => false
  | File _ modified =>
    let name := file_name p in
    bool_decide (p = logs ++ utf8 "/" ++ name)
    && (starts_with name (utf8 ".txn-") && ends_with name (utf8 ".jsonl"))
    && (0 <=? now - modified)%Z && (min_age <=? now - modified)%Z
  end.

Record ReplayReport := { tracking_files : nat; files_removed : nat }.

(** [read_dir] lists the directory once; an entry removed since is no file. *)
Fixpoint replay_go (logs : text) (min_age now : Z) (entries : list text) (rep : ReplayReport) (d : fs)
    : result (ReplayReport * fs) text :=
  match entries with
  | [] => Ok (rep, d)
  | p :: rest =>
    match d !! p with
    | Some n =>
      if is_stale logs min_age now p n then
        let? r := rollback_tracking_file p d in
        replay_go logs min_age now rest
          {| tracking_files := S (tracking_files rep); files_removed := files_removed rep + r.1 |} r.2
      else replay_go logs min_age now rest rep d
    | None => replay_go logs min_age now rest rep d
    end
  end.

Definition replay_stale_transactions_older_than (logs : text) (min_age now : Z) (d : fs)
    : result (ReplayReport * fs) text :=
  replay_go logs min_age now (map_to_list d).*1 {| tracking_files := 0; files_removed := 0 |} d.

Definition replay_stale_transactions (logs : text) (now : Z) (d : fs) : result (ReplayReport * fs) text :=
  replay_stale_transactions_older_than logs STALE_TXN_MIN_AGE now d.
End transaction.

(** ** The consolidation checkpoint *)

Record Checkpoint := { cp_status : text; started_at : text; notes_count : N }.

(** The checkpoint's place on disk: nothing, a checkpoint, or unreadable
    text. *)
Inductive checkpoint_file := NoCheckpoint | Saved (cp : Checkpoint) | Unparsable.

Definition write_checkpoint (cp : Checkpoint) : checkpoint_file := Saved cp.

Definition read_checkpoint (f : checkpoint_file) : result (option Checkpoint) text :=
  match f with
  | NoCheckpoint => Ok None
  | Saved cp => Ok (Some cp)
  | Unparsable => Err (utf8 "failed to parse checkpoint JSON")
  end.

Definition clear_checkpoint (f : checkpoint_file) : checkpoint_file := NoCheckpoint.

Definition check_incomplete (f : checkpoint_file) : result (option Checkpoint) text :=
  let? o := read_checkpoint f in
  match o with
  | Some cp => Ok (if bool_decide (cp_status cp = utf8 "completed") then None else Some cp)
  | None => Ok None
  end.

Definition recover (f : checkpoint_file) : result (option Checkpoint * checkpoint_file) text :=
  let? o := check_incomplete f in
  match o with
  | Some cp => Ok (Some cp, clear_checkpoint f)
  | None => Ok (None, f)
  end.

(** ** What the transactions guarantee

    The conditional commit sees exactly the content that changed; of two
    conditional writers only one wins; a rollback removes exactly the tracked
    files, also those it did not create; and a cycle that tracks each new file
    before it writes it leaves nothing behind, wherever it crashes. *)

(** *** The tracking file *)

(** A path the tracking file can hold on a line of its own. *)
Definition line_safe (p : text) : Prop := p <> [] /\ 10%N ∉ p /\ trim p = p.

Definition unlines (ps : list text) : text := concat (map (fun p => p ++ [10%N]) ps).

Lemma unlines_app ps qs : unlines (ps ++ qs) = unlines ps ++ unlines qs.
Proof. unfold unlines. by rewrite map_app, concat_app. Qed.

Lemma split_on_line p t : 10%N ∉ p -> split_on 10%N (p ++ 10%N :: t) = p :: split_on 10%N t.
Proof.
  induction p as [|c p IH]; intros Hn; [done|]. apply not_elem_of_cons in Hn as [Hc Hn].
  cbn [app split_on]. rewrite (proj2 (N.eqb_neq _ _) (not_eq_sym Hc)), IH by done. done.
Qed.

Lemma split_unlines ps : Forall (fun p => 10%N ∉ p) ps -> split_on 10%N (unlines ps) = ps ++ [[]].
Proof.
  induction 1 as [|p ps Hp _ IH]; [done|]. unfold unlines in *. cbn [map concat].
  rewrite <- app_assoc. simpl app. by rewrite split_on_line, IH.
Qed.

Lemma trim_start_length t : length (trim_start t) <= length t.
Proof. induction t as [|c t IH]; cbn; [done|]. destruct (is_whitespace c); cbn; lia. Qed.

(** A trimmed line ends in no carriage return. *)
Lemma chop_trimmed p : trim p = p -> chop_return p = p.
Proof.
  intros Ht. unfold chop_return, strip_suffix, ends_with. destruct (starts_with _ _) eqn:E; [exfalso|done].
  apply starts_with_spec in E as [v Hv]. apply (f_equal (@rev _)) in Hv as Hp. rewrite rev_involutive, rev_app_distr in Hp. cbn [rev app] in Hp.
  apply (f_equal length) in Ht. unfold trim in Ht. rewrite length_rev in Ht.
  pose proof (trim_start_length p) as H1. pose proof (trim_start_length (rev (trim_start p))) as H2. rewrite length_rev in H2.
  assert (trim_start p = p) as Hs.
  { clear Hp Hv. destruct p as [|c p]; [done|]. cbn [trim_start] in *. destruct (is_whitespace c); [|done].
    cbn [length] in *. pose proof (trim_start_length p). lia. }
  rewrite Hs, Hp, rev_app_distr in Ht. cbn in Ht. pose proof (trim_start_length (rev (rev v))) as H3.
  rewrite length_app, length_rev in *. rewrite length_rev in H3. cbn in *. lia.
Qed.

Lemma tracked_unlines ps : Forall line_safe ps -> tracked_of (unlines ps) = ps.
Proof.
  intros Hs. unfold tracked_of, lines. rewrite split_unlines by (eapply Forall_impl; [exact Hs|by intros p (_ & ? & _)]).
  rewrite last_snoc, removelast_last, app_nil_r. induction Hs as [|p ps (Hne & _ & Ht) _ IH]; [done|].
  cbn [map]. rewrite chop_trimmed, Ht, filter_cons, decide_True by done. by rewrite IH.
Qed.

(** *** Rollback *)

Definition is_file (d : fs) (p : text) : bool :=
  match d !! p with Some (File _ _) => true | _ => false end.

Lemma rollback_line_spec n d p q :
  (rollback_line (n, d) p).2 !! q = if decide (q = p /\ is_file d p = true) then None else d !! q.
Proof.
  unfold rollback_line, exists_, remove_file, is_file. destruct (d !! p) as [[c t|]|] eqn:Hp; simpl.
  - destruct (decide (q = p)) as [->|Hne].
    + rewrite decide_True by done. by rewrite lookup_delete_eq.
    + rewrite decide_False by naive_solver. by rewrite lookup_delete_ne.
  - by rewrite decide_False by naive_solver.
  - by rewrite decide_False by naive_solver.
Qed.

Lemma rollback_lines ps : forall n d q,
  (fold_left rollback_line ps (n, d)).2 !! q =
  if decide (q ∈ ps /\ is_file d q = true) then None else d !! q.
Proof.
  induction ps as [|p ps IH]; intros n d q.
  { rewrite decide_False; [done|]. by intros [?%elem_of_nil _]. }
  cbn [fold_left]. destruct (rollback_line (n, d) p) as [n1 d1] eqn:Hr. rewrite IH.
  assert (Hd1 : forall x, d1 !! x = if decide (x = p /\ is_file d p = true) then None else d !! x).
  { intros x. by rewrite <- (rollback_line_spec n), Hr. }
  destruct (decide (q = p /\ is_file d p = true)) as [[-> Hf]|Hn].
  - assert (Hq : d1 !! p = None) by (by rewrite Hd1, decide_True).
    assert (Hnf : is_file d1 p = false) by (unfold is_file; by rewrite Hq).
    rewrite Hnf, decide_False, Hq by naive_solver. rewrite decide_True; [done|]. split; [by left|done].
  - assert (Hq : d1 !! q = d !! q) by (by rewrite Hd1, decide_False).
    assert (Hqf : is_file d1 q = is_file d q) by (unfold is_file; by rewrite Hq).
    rewrite Hqf, Hq. apply decide_ext. rewrite elem_of_cons. split; [by intros [? ?]; split; [right|]|].
    intros [[->|Hin] Hf]; [by destruct Hn|done].
Qed.

(** A rollback removes exactly what was tracked: every tracked path that is
    a file is gone, whether this transaction created it or found it there, the
    tracking file is gone, and every other path, tracked directories included,
    is as it was. *)
Theorem rollback_exact tf d c t : d !! tf = Some (File c t) ->
  exists n d', rollback_tracking_file tf d = Ok (n, d') /\
    forall q, d' !! q = if decide (q = tf \/ q ∈ tracked_of c /\ is_file d q = true) then None else d !! q.
Proof.
  intros Htf. unfold rollback_tracking_file. rewrite Htf.
  pose proof (rollback_lines (tracked_of c) 0 d) as Hl.
  destruct (fold_left rollback_line (tracked_of c) (0, d)) as [n d1]. simpl in Hl.
  eexists n, _. split; [done|]. intros q.
  assert (Htf1 : d1 !! tf = None \/ exists c t, d1 !! tf = Some (File c t)).
  { rewrite Hl. destruct (decide _); [by left|]. right. eauto. }
  assert (Hrm : forall x, match remove_file tf d1 with Ok d2 => d2 | Err _ => d1 end !! x =
    if decide (x = tf) then None else d1 !! x).
  { intros x. unfold remove_file. destruct Htf1 as [Hn|(c1 & t1 & Hs)].
    - rewrite Hn. destruct (decide (x = tf)) as [->|]; done.
    - rewrite Hs. destruct (decide (x = tf)) as [->|Hne]; [by rewrite lookup_delete_eq|by rewrite lookup_delete_ne]. }
  rewrite Hrm. destruct (decide (q = tf)) as [->|Hne]; [by rewrite decide_True by (by left)|].
  rewrite Hl. apply decide_ext. split; [by right|by intros [|]].
Qed.

(** *** Crash recovery *)

(** What a cycle does between [begin] and its end: it records paths and writes
    pages, in whatever order. *)
Inductive cycle_op := Track (p : text) (now : Z) | Write (p content : text) (now : Z).

Definition run_cycle_op (tf : text) (d : fs) (o : cycle_op) : fs :=
  match o with
  | Track p now => match track_path tf p now d with Ok d' => d' | Err _ => d end
  | Write p content now => (atomic_write p content now d).2
  end.
Definition steps_of (tf : text) (o : cycle_op) : list disk_step :=
  match o with
  | Track p now => [Append tf (p ++ [10%N]) now]
  | Write p content now => atomic_steps p content now
  end.
(** A crash after some operations and [k] steps of the next. *)
Definition crashed (tf : text) (d : fs) (l : list cycle_op) (o : cycle_op) (k : nat) : fs :=
  (run_steps (take k (steps_of tf o)) (fold_left (run_cycle_op tf) l d)).2.

Definition tracks (l : list cycle_op) : list text :=
  omap (fun o => match o with Track p _ => Some p | Write _ _ _ => None end) l.
Definition writes (l : list cycle_op) : list text :=
  omap (fun o => match o with Track _ _ => None | Write p _ _ => Some p end) l.
Definition path_of (o : cycle_op) : text := match o with Track p _ | Write p _ _ => p end.
(** The temporary file of a write that has begun and is not over. *)
Definition in_flight (o : cycle_op) (k : nat) : option (text * node) :=
  match o with
  | Write p content now => if (0 <? k) && (k <=? S (length content)) then Some (tmp_of p, File (take (k - 1) content) now) else None
  | Track _ _ => None
  end.
(** The operations that are over. *)
Definition over (l : list cycle_op) (o : cycle_op) (k : nat) : list cycle_op :=
  match k, in_flight o k with S _, None => l ++ [o] | _, _ => l end.

Definition temporary (p : text) : bool := ends_with p (utf8 ".tmp").
(** An operation on a path that was not there when the cycle began, that is
    neither the tracking file nor temporary, and that a line can hold. *)
Definition on_new (d0 : fs) (tf : text) (o : cycle_op) : Prop :=
  line_safe (path_of o) /\ d0 !! path_of o = None /\ path_of o <> tf /\ temporary (path_of o) = false
  /\ d0 !! tmp_of (path_of o) = None.

(** During a cycle the tracking file lists what was tracked, and only what was
    written differs from the start. *)
Definition mid_cycle (d0 : fs) (tf : text) (l : list cycle_op) (d : fs) : Prop :=
  (exists t, d !! tf = Some (File (unlines (tracks l)) t)) /\
  forall q, q <> tf -> if decide (q ∈ writes l) then exists c t, d !! q = Some (File c t) else d !! q = d0 !! q.

Lemma ends_with_app a b : ends_with (a ++ b) b = true.
Proof. unfold ends_with. rewrite rev_app_distr. apply starts_with_app. Qed.
Lemma tmp_temporary p : temporary (tmp_of p) = true.
Proof.
  unfold temporary, tmp_of. destruct (has_extension p); [apply ends_with_app|].
  change (utf8 ".tmp.tmp") with (utf8 ".tmp" ++ utf8 ".tmp"). rewrite app_assoc. apply ends_with_app.
Qed.
Lemma tmp_differs p q : temporary q = false -> tmp_of p <> q.
Proof. intros Hq <-. by rewrite tmp_temporary in Hq. Qed.
(** A temporary file is no tracking file. *)
Lemma tmp_never_stale logs min_age now p n : is_stale logs min_age now (tmp_of p) n = false.
Proof.
  destruct n as [c t|]; [|done]. unfold is_stale. cbn zeta. case_bool_decide as Hp; [|done].
  assert (ends_with (file_name (tmp_of p)) (utf8 ".jsonl") = false) as ->; [|by rewrite andb_false_r].
  destruct (ends_with _ _) eqn:E; [exfalso|done]. pose proof (tmp_temporary p) as Ht. rewrite Hp in Ht. revert E Ht. unfold temporary, ends_with.
  rewrite !starts_with_spec, !rev_app_distr. intros [v ->] [w Hw]. cbn in Hw. by injection Hw.
Qed.

Lemma fill_steps p now rest : forall d c, d !! p = Some (File c now) ->
  run_steps (map (fun x => Append p [x] now) rest) d = (None, <[p := File (c ++ rest) now]> d).
Proof.
  induction rest as [|x rest IH]; intros d c Hd; cbn [map run_steps].
  - by rewrite app_nil_r, insert_id.
  - cbn [disk_act]. unfold write. rewrite Hd. rewrite (IH _ (c ++ [x])) by apply lookup_insert_eq.
    by rewrite insert_insert_eq, <- app_assoc.
Qed.
Lemma run_steps_app l1 l2 d d' : run_steps l1 d = (None, d') -> run_steps (l1 ++ l2) d = run_steps l2 d'.
Proof. revert d. induction l1 as [|s l1 IH]; intros d; cbn [run_steps app]; [by intros [= ->]|]. destruct (disk_act s d); [apply IH|done]. Qed.
(** A write that has put [n] characters. *)
Lemma tmp_filled p c now n d : d !! tmp_of p <> Some Dir ->
  run_steps (Open (tmp_of p) now :: map (fun x => Append (tmp_of p) [x] now) (take n c)) d = (None, <[tmp_of p := File (take n c) now]> d).
Proof.
  intros Hd. cbn [run_steps disk_act]. unfold write. assert (forall r, match d !! tmp_of p with Some Dir => Err r | _ => Ok (<[tmp_of p := File [] now]> d) end = Ok (<[tmp_of p := File [] now]> d)) as ->
    by (intros r; by destruct (d !! tmp_of p) as [[]|]).
  rewrite (fill_steps _ _ _ _ []) by apply lookup_insert_eq. by rewrite insert_insert_eq.
Qed.
Lemma atomic_write_ok p c now d : d !! tmp_of p <> Some Dir -> d !! p <> Some Dir -> p <> tmp_of p ->
  atomic_write p c now d = (None, <[p := File c now]> (delete (tmp_of p) d)).
Proof.
  intros Ht Hp Hne. unfold atomic_write, atomic_steps. rewrite app_comm_cons, <- (firstn_all c) at 1.
  rewrite (run_steps_app _ _ _ _ (tmp_filled p c now _ d Ht)), firstn_all. cbn [run_steps disk_act]. rewrite lookup_insert_eq. unfold write.
  rewrite delete_insert_eq, lookup_delete_ne by done. by destruct (d !! p) as [[]|].
Qed.

Lemma tracks_snoc l o : tracks (l ++ [o]) = tracks l ++ match o with Track p _ => [p] | Write _ _ _ => [] end.
Proof. unfold tracks. rewrite omap_app. by destruct o. Qed.
Lemma writes_snoc l o : writes (l ++ [o]) = writes l ++ match o with Track _ _ => [] | Write p _ _ => [p] end.
Proof. unfold writes. rewrite omap_app. by destruct o. Qed.
Lemma mid_not_dir d0 tf l d p : mid_cycle d0 tf l d -> d0 !! p = None -> p <> tf -> d !! p <> Some Dir.
Proof. intros [_ Hq] H0 Hne. specialize (Hq p Hne). destruct (decide _); [destruct Hq as (c & t & ->)|rewrite Hq, H0]; done. Qed.
Lemma written_not_tmp d0 tf l p : Forall (on_new d0 tf) l -> tmp_of p ∉ writes l.
Proof.
  intros Hl (o & Ho & Hw)%list_elem_of_omap. eapply Forall_forall in Hl as (_ & _ & _ & Ht & _); [|exact Ho].
  destruct o as [|q c t]; [done|]. injection Hw as ->. cbn [path_of] in Ht. by rewrite tmp_temporary in Ht.
Qed.
Lemma mid_step d0 tf l d o : temporary tf = false -> Forall (on_new d0 tf) l -> on_new d0 tf o -> mid_cycle d0 tf l d ->
  mid_cycle d0 tf (l ++ [o]) (run_cycle_op tf d o).
Proof.
  intros Htmp Hl (Hs & Hf & Hne & Ht & H0) Hm. pose proof Hm as [(t & Htf) Hq]. destruct o as [p now|p c now]; cbn [run_cycle_op path_of] in *.
  - unfold track_path. rewrite Htf. split.
    + exists now. rewrite lookup_insert_eq, tracks_snoc, unlines_app. unfold unlines at 3. simpl. by rewrite app_nil_r.
    + intros q Hqt. rewrite writes_snoc, app_nil_r, lookup_insert_ne by done. by apply Hq.
  - assert (tmp_of p <> tf) as Hpt by by apply tmp_differs.
    rewrite atomic_write_ok; [|by eapply mid_not_dir|by eapply mid_not_dir|by apply not_eq_sym, tmp_differs]. cbn [snd]. split.
    + exists t. by rewrite tracks_snoc, app_nil_r, lookup_insert_ne, lookup_delete_ne.
    + intros q Hqt. specialize (Hq q Hqt). rewrite writes_snoc. destruct (decide (q = p)) as [->|Hqp].
      { rewrite decide_True by (apply elem_of_app; right; by left). rewrite lookup_insert_eq. by eexists _, _. }
      rewrite lookup_insert_ne by done. destruct (decide (q ∈ writes l)) as [Hin|Hn].
      * rewrite decide_True by (apply elem_of_app; by left). rewrite lookup_delete_ne; [done|]. intros <-. by apply (written_not_tmp d0 tf l p).
      * rewrite decide_False by (intros [|?%list_elem_of_singleton]%elem_of_app; done).
        destruct (decide (q = tmp_of p)) as [->|Hqm]; [by rewrite lookup_delete_eq, H0|by rewrite lookup_delete_ne].
Qed.
Lemma mid_run d0 tf l2 : temporary tf = false -> forall l1 d, Forall (on_new d0 tf) (l1 ++ l2) -> mid_cycle d0 tf l1 d ->
  mid_cycle d0 tf (l1 ++ l2) (fold_left (run_cycle_op tf) l2 d).
Proof.
  intros Htmp. induction l2 as [|o l2 IH]; intros l1 d Hl Hm; cbn [fold_left]; [by rewrite app_nil_r|].
  pose proof (app_assoc l1 [o] l2) as E. cbn [app] in E. rewrite E in Hl |- *.
  apply IH; [done|]. apply Forall_app in Hl as [[Hl [Ho _]%Forall_cons]%Forall_app _]. by apply mid_step.
Qed.

(** A crash falls between two operations or leaves one temporary file. *)
Lemma crash_point d0 tf d l o k : temporary tf = false -> Forall (on_new d0 tf) l -> on_new d0 tf o -> mid_cycle d0 tf [] d ->
  crashed tf d l o k = match in_flight o k with
    | Some (p, n) => <[p := n]> (fold_left (run_cycle_op tf) l d)
    | None => fold_left (run_cycle_op tf) (over l o k) d
    end.
Proof.
  intros Htmp Hl Ho Hm0. pose proof (mid_run d0 tf l Htmp [] d Hl Hm0) as Hm. unfold crashed, over. set (dl := fold_left _ l d) in *.
  destruct k as [|k]; [rewrite take_0; by destruct o|]. destruct Ho as (Hs & Hf & Hne & Ht & H0). destruct o as [p now|p c now]; cbn [steps_of in_flight path_of] in *.
  - rewrite fold_left_app. cbn [fold_left run_cycle_op]. fold dl. cbn [take]. rewrite take_nil. cbn [run_steps disk_act]. unfold write, track_path.
    destruct Hm as [(t & ->) _]. done.
  - assert (dl !! tmp_of p <> Some Dir) as Hd by (eapply mid_not_dir; [exact Hm|done|by apply tmp_differs]).
    rewrite (proj2 (Nat.ltb_lt 0 (S k))) by lia. cbn [andb]. destruct (S k <=? S (length c)) eqn:E.
    + apply Nat.leb_le in E. unfold atomic_steps. cbn [take]. rewrite take_app_le by (rewrite length_map; lia). rewrite firstn_map, tmp_filled by done.
      cbn [snd]. by replace (S k - 1) with k by lia.
    + apply Nat.leb_gt in E. rewrite take_ge by (unfold atomic_steps; cbn [length]; rewrite length_app, length_map; cbn; lia).
      by rewrite fold_left_app.
Qed.

(** What a rollback makes of a crashed cycle. *)
Lemma rollback_crashed d0 tf l o k d : d0 !! tf = None -> temporary tf = false -> Forall (on_new d0 tf) (l ++ [o]) ->
  mid_cycle d0 tf (over l o k) d ->
  let d' := match in_flight o k with Some (p, n) => <[p := n]> d | None => d end in
  is_Some (d' !! tf) /\ exists n d'', rollback_tracking_file tf d' = Ok (n, d'') /\ d'' !! tf = None /\
    forall q, d'' !! q = if decide (fst <$> in_flight o k = Some q \/ q ∈ writes (over l o k) /\ q ∉ tracks (over l o k)) then d' !! q else d0 !! q.
Proof.
  intros H0 Htmp Hl Hm d'. assert (Forall (on_new d0 tf) (over l o k)) as Hov.
  { apply Forall_app in Hl as [Hl Ho]. unfold over. destruct k; [done|]. destruct (in_flight _ _); [done|by apply Forall_app]. }
  assert (forall p n, in_flight o k = Some (p, n) -> temporary p = true /\ (exists c t, n = File c t)) as Hfl.
  { destruct o as [|p c t]; cbn [in_flight]; [done|]. destruct (_ && _); [|done]. intros ? ? [= <- <-]. split; [apply tmp_temporary|by eexists _, _]. }
  assert (forall q, temporary q = false -> d' !! q = d !! q) as Hd'.
  { intros q Hq. subst d'. destruct (in_flight o k) as [[p n]|] eqn:E; [|done]. apply lookup_insert_ne. intros ->. destruct (Hfl _ _ eq_refl). congruence. }
  destruct Hm as [(t & Htf) Hq].
  assert (forall p, p ∈ tracks (over l o k) -> line_safe p /\ d0 !! p = None /\ p <> tf /\ temporary p = false) as Htr.
  { intros p (op & Hin & Hp)%list_elem_of_omap. eapply Forall_forall in Hov as (? & ? & ? & ? & ?); [|exact Hin]. destruct op; [|done]. by injection Hp as ->. }
  destruct (rollback_exact tf d' (unlines (tracks (over l o k))) t) as (n & d'' & Hr & Hl'); [by rewrite Hd'|].
  split; [by rewrite Hd', Htf|]. exists n, d''. split; [done|]. split; [by rewrite Hl', decide_True by (by left)|].
  intros q. rewrite Hl'. rewrite tracked_unlines by (apply Forall_forall; intros p Hp; by apply Htr).
  assert (fst <$> in_flight o k = Some q -> temporary q = true) as Htq.
  { destruct (in_flight o k) as [[p m]|]; [|done]. intros [= <-]. by destruct (Hfl p m eq_refl). }
  destruct (decide (q = tf)) as [->|Hne].
  { rewrite decide_True by (by left). rewrite decide_False; [done|]. intros [Hf|[Hw _]]; [apply Htq in Hf; congruence|].
    apply list_elem_of_omap in Hw as (op & Hin & Hp). eapply Forall_forall in Hov as (_ & _ & Hov & _); [|exact Hin]. destruct op; [done|]. injection Hp as ->. done. }
  specialize (Hq q Hne). destruct (decide (q ∈ tracks (over l o k))) as [Hin|Hn].
  - destruct (Htr q Hin) as (_ & Hq0 & _ & Hqt). rewrite (decide_False (P := _ \/ _ /\ q ∉ _)); [|intros [Hf|[_ Hf]]; [apply Htq in Hf; congruence|done]].
    rewrite Hq0, Hd' by done. unfold is_file. rewrite Hd' by done. destruct (decide (q ∈ writes _)) as [|Hnw].
    + destruct Hq as (c & u & ->). by rewrite decide_True by (by right).
    + rewrite Hq, Hq0. by destruct (decide _).
  - rewrite decide_False by (intros [|[? _]]; done). destruct (decide (q ∈ writes (over l o k))) as [Hw|Hnw]; [by rewrite decide_True by (by right)|].
    destruct (decide _) as [|Hno]; [done|]. subst d'. destruct (in_flight o k) as [[p m]|] eqn:E; [|done].
    rewrite lookup_insert_ne; [done|]. intros ->. apply Hno. by left.
Qed.

(** Nothing to replay. *)
Lemma replay_none logs min_age now l rep d :
  (forall p n, p ∈ l -> d !! p = Some n -> is_stale logs min_age now p n = false) ->
  replay_go logs min_age now l rep d = Ok (rep, d).
Proof.
  induction l as [|p l IH]; intros Hl; [done|]. cbn [replay_go].
  destruct (d !! p) as [n|] eqn:Hp; [rewrite (Hl p n) by (done || by left)|]; apply IH; intros q m Hq; apply Hl; by right.
Qed.

Lemma replay_one logs min_age now tf k d d0 : forall l rep,
  rollback_tracking_file tf d = Ok (k, d0) -> tf ∈ l ->
  (forall p n, d !! p = Some n -> is_stale logs min_age now p n = true -> p = tf) ->
  (exists n, d !! tf = Some n /\ is_stale logs min_age now tf n = true) ->
  (forall p n, d0 !! p = Some n -> is_stale logs min_age now p n = false) ->
  exists rep', replay_go logs min_age now l rep d = Ok (rep', d0).
Proof.
  induction l as [|p l IH]; intros rep Hr Hin Hone Hst H0; [by apply elem_of_nil in Hin|]. cbn [replay_go].
  destruct (decide (p = tf)) as [->|Hne].
  - destruct Hst as (n & Hn & Hs). rewrite Hn, Hs, Hr. simpl. eexists. apply replay_none. intros q m _. apply H0.
  - assert (Hin' : tf ∈ l) by (apply elem_of_cons in Hin as [|]; congruence).
    destruct (d !! p) as [n|] eqn:Hp; [|by apply IH].
    destruct (is_stale logs min_age now p n) eqn:Hs; [by apply Hone in Hs|by apply IH].
Qed.


(** *** Versions *)

Section versions.
Context `{DigestLaws}.

(** What a path holds. *)
Definition content (d : fs) (p : text) : option text :=
  match d !! p with Some (File c _) => Some c | _ => None end.

Lemma content_version_ok (d : fs) p : d !! p <> Some Dir ->
  content_version d p = Ok (sha256 <$> content d p).
Proof. unfold content_version, content. by destruct (d !! p) as [[]|]. Qed.

Lemma version_eq (a b : option text) : sha256 <$> a = sha256 <$> b <-> a = b.
Proof.
  split; [|by intros ->]. destruct a as [a|], b as [b|]; simpl; try done. intros [= Hs]. f_equal. by apply sha256_inj.
Qed.

Lemma capture_go_spec d paths : forall vs, (forall p, p ∈ paths -> d !! p <> Some Dir) ->
  exists vs', capture_go d paths vs = Ok vs' /\
    forall p, vs' !! p = if decide (p ∈ paths) then Some (sha256 <$> content d p) else vs !! p.
Proof.
  induction paths as [|q paths IH]; intros vs Hd.
  { exists vs. split; [done|]. intros p. rewrite decide_False; [done|]. apply not_elem_of_nil. }
  cbn [capture_go]. rewrite content_version_ok by (apply Hd; by left). simpl.
  destruct (IH (<[q := sha256 <$> content d q]> vs)) as (vs' & Hc & Hl); [intros p Hp; apply Hd; by right|].
  exists vs'. split; [done|]. intros p. rewrite Hl. destruct (decide (p ∈ paths)) as [Hin|Hn].
  - by rewrite decide_True by (by right).
  - destruct (decide (p = q)) as [->|Hne].
    + rewrite decide_True by left. by rewrite lookup_insert_eq.
    + rewrite lookup_insert_ne by done. rewrite decide_False; [done|]. by intros [|]%elem_of_cons.
Qed.

Lemma verify_go_spec d vs : NoDup vs.*1 -> (forall p v, (p, v) ∈ vs -> d !! p <> Some Dir) ->
  exists drifted, verify_go d vs = Ok drifted /\ NoDup drifted /\
    forall p, p ∈ drifted <-> exists v, (p, v) ∈ vs /\ sha256 <$> content d p <> v.
Proof.
  induction vs as [|[q v] vs IH]; intros Hnd Hd.
  { exists []. split_and!; [done|constructor|]. intros p. split; [by intros ?%elem_of_nil|]. by intros (v & ?%elem_of_nil & _). }
  apply NoDup_cons in Hnd as [Hn Hnd]. destruct IH as (dr & Hv & Hdn & Hi); [done|intros p w Hp; eapply Hd; by right|].
  cbn [verify_go]. rewrite content_version_ok by (eapply Hd; by left). simpl. rewrite Hv. simpl.
  assert (Hq : q ∉ dr).
  { intros (w & Hw & _)%Hi. apply Hn. apply list_elem_of_fmap. by exists (q, w). }
  case_bool_decide as Hb.
  - exists dr. split_and!; [done|done|]. intros p. rewrite Hi. split.
    + intros (w & Hw & Hc). exists w. split; [by right|done].
    + intros (w & [[= -> ->]|Hw]%elem_of_cons & Hc); [by destruct Hc|]. by exists w.
  - exists (q :: dr). split_and!; [done|by constructor|]. intros p. rewrite elem_of_cons, Hi. split.
    + intros [->|(w & Hw & Hc)]; [exists v; split; [by left|done]|exists w; split; [by right|done]].
    + intros (w & [[= -> ->]|Hw]%elem_of_cons & Hc); [by left|]. right. by exists w.
Qed.

(** The conditional commit is exact: when the working set holds no
    directory, it commits precisely if every captured path still has the
    content it had, also no content; otherwise it rolls back and reports the
    paths that changed, each once. *)
Theorem commit_conditional_exact d0 d paths snap tf c t :
  capture d0 paths = Ok snap -> d !! tf = Some (File c t) ->
  (forall p, p ∈ paths -> d0 !! p <> Some Dir /\ d !! p <> Some Dir) ->
  if decide (Forall (fun p => content d p = content d0 p) paths) then
    commit_conditional tf snap d = Ok (CommittedCas, delete tf d)
  else exists drifted d', commit_conditional tf snap d = Ok (RolledBack drifted, d') /\
    rollback tf d = Ok d' /\ NoDup drifted /\
    forall p, p ∈ drifted <-> p ∈ paths /\ content d p <> content d0 p.
Proof.
  intros Hc Htf Hd. unfold capture in Hc.
  destruct (capture_go_spec d0 paths ∅) as (vs & Hvs & Hl); [intros p Hp; by apply Hd|]. rewrite Hvs in Hc. injection Hc as <-.
  destruct (verify_go_spec d (map_to_list vs)) as (dr & Hv & Hnd & Hi).
  { apply NoDup_fst_map_to_list. }
  { intros p v Hp. apply elem_of_map_to_list in Hp. rewrite Hl in Hp. destruct (decide (p ∈ paths)); [by apply Hd|].
    by rewrite lookup_empty in Hp. }
  assert (Hdr : forall p, p ∈ dr <-> p ∈ paths /\ content d p <> content d0 p).
  { intros p. rewrite Hi. split.
    - intros (v & Hp & Hne). apply elem_of_map_to_list in Hp. rewrite Hl in Hp. destruct (decide (p ∈ paths)).
      + injection Hp as <-. split; [done|]. by intros Heq; apply Hne, version_eq.
      + by rewrite lookup_empty in Hp.
    - intros [Hp Hne]. exists (sha256 <$> content d0 p). rewrite elem_of_map_to_list, Hl, decide_True by done.
      split; [done|]. by rewrite version_eq. }
  unfold commit_conditional, verify. rewrite Hv. simpl. destruct (decide _) as [Hall|Hno].
  - destruct dr as [|p dr].
    + unfold commit, exists_, remove_file. by rewrite Htf.
    + exfalso. destruct (proj1 (Hdr p)) as [Hp Hne]; [by left|]. by eapply Forall_forall in Hall; [|exact Hp].
  - destruct dr as [|p dr].
    + exfalso. apply Hno, Forall_forall. intros p Hp. destruct (decide (content d p = content d0 p)) as [|Hne]; [done|].
      pose proof (proj2 (Hdr p) (conj Hp Hne)) as Hx. by apply elem_of_nil in Hx.
    + destruct (rollback_exact tf d c t Htf) as (n & d' & Hr & _). exists (p :: dr), d'.
      unfold rollback. rewrite Hr. simpl. by split_and!.
Qed.

(** Of two conditional writers one wins: after a writer that saw the same
    version has committed other content, the second's write is refused and
    changes nothing, not even a temporary file. *)
Lemma atomic_written p c t d d' : atomic_write p c t d = (None, d') -> d' !! p = Some (File c t).
Proof.
  intros Hw. assert (d !! tmp_of p <> Some Dir) as Ht.
  { intros Ht. unfold atomic_write, atomic_steps in Hw. cbn [run_steps disk_act] in Hw. unfold write in Hw. by rewrite Ht in Hw. }
  revert Hw. unfold atomic_write, atomic_steps. rewrite app_comm_cons, <- (firstn_all c) at 1.
  rewrite (run_steps_app _ _ _ _ (tmp_filled p c t _ d Ht)), firstn_all. cbn [run_steps disk_act]. rewrite lookup_insert_eq. unfold write.
  destruct (_ !! p) as [[]|]; intros [= <-]; apply lookup_insert_eq.
Qed.
Theorem cas_first_wins d p v c1 c2 t1 t2 d1 :
  content_version d p = Ok v -> content d p <> Some c1 ->
  write_if_unchanged p v c1 t1 d = (Ok Committed, d1) ->
  write_if_unchanged p v c2 t2 d1 = (Ok Conflict, d1).
Proof.
  intros Hv Hne. unfold write_if_unchanged. rewrite Hv, bool_decide_eq_true_2 by done.
  assert (Hnd : d !! p <> Some Dir) by (intros Hd; unfold content_version in Hv; by rewrite Hd in Hv).
  rewrite content_version_ok in Hv by done. injection Hv as <-.
  destruct (atomic_write p c1 t1 d) as [[e|] d2] eqn:Hw; [done|]. intros [= <-]. apply atomic_written in Hw.
  unfold content_version. rewrite Hw, bool_decide_eq_false_2; [done|]. change (Some (sha256 c1)) with (sha256 <$> Some c1).
  rewrite version_eq. congruence.
Qed.
End versions.

(** *** Witnesses *)

#[local] Instance demo_digest : Digest := fun t => t.
#[local] Instance demo_digest_laws : DigestLaws.
Proof. by intros a b. Qed.

Definition demo_logs : text := utf8 "/logs".
Definition demo_tf : text := tracking_file demo_logs (utf8 "c1").
Definition demo_disk : fs := {[utf8 "/w/old.md" := File (utf8 "old") 5]}.
Definition page_a : text := utf8 "/w/a.md".
Definition page_b : text := utf8 "/w/b.md".
Definition tracked_first : list cycle_op := [Track page_a 11; Write page_a (utf8 "draft") 12; Track page_b 13].
Definition demo_begun : fs := <[demo_tf := File [] 10]> demo_disk.
Definition demo_crashed : fs := crashed demo_tf demo_begun tracked_first (Write page_b (utf8 "second") 14) 4.
Definition replayed (d : fs) : fs :=
  match replay_stale_transactions demo_logs (STALE_TXN_MIN_AGE + 20) d with Ok (_, d') => d' | Err _ => ∅ end.

(** The crash inside the second write leaves half of its temporary file, which no
    rollback and no replay removes. *)
Example temporary_is_left : replayed demo_crashed = <[utf8 "/w/b.md.tmp" := File (utf8 "sec") 14]> demo_disk.
Proof. by vm_compute. Qed.
(** A page that is written and then tracked, as the archive is, stays when the
    crash falls between the two. *)
Example untracked_is_left :
  replayed (crashed demo_tf demo_begun [Write page_a (utf8 "draft") 12] (Track page_a 13) 0)
  = <[page_a := File (utf8 "draft") 12]> demo_disk.
Proof. by vm_compute. Qed.

Lemma rollback_exact_witness :
  exists n d', rollback_tracking_file demo_tf demo_crashed = Ok (n, d') /\ d' !! utf8 "/w/a.md" = None.
Proof.
  destruct (rollback_exact demo_tf demo_crashed (utf8 "/w/a.md" ++ [10%N] ++ utf8 "/w/b.md" ++ [10%N]) 13) as (n & d' & Hr & Hl).
  - vm_compute. reflexivity.
  - exists n, d'. split; [exact Hr|]. rewrite Hl. vm_compute. reflexivity.
Defined.

Lemma line_safe_dec p : bool_decide (p <> [] /\ 10%N ∉ p /\ trim p = p) = true -> line_safe p.
Proof. by intros ?%bool_decide_eq_true. Qed.


Lemma commit_conditional_exact_witness :
  commit_conditional demo_tf {[utf8 "/w/old.md" := Some (utf8 "old")]} demo_begun = Ok (CommittedCas, delete demo_tf demo_begun).
Proof.
  assert (Hw := commit_conditional_exact demo_disk demo_begun [utf8 "/w/old.md"] {[utf8 "/w/old.md" := Some (utf8 "old")]}
    demo_tf [] 10).
  rewrite decide_True in Hw.
  - apply Hw.
    + vm_compute. reflexivity.
    + vm_compute. reflexivity.
    + intros p ->%list_elem_of_singleton. vm_compute. split; discriminate.
  - apply Forall_singleton. vm_compute. reflexivity.
Defined.

Lemma cas_first_wins_witness :
  write_if_unchanged (utf8 "/w/old.md") (Some (utf8 "old")) (utf8 "second") 8
    (<[utf8 "/w/old.md" := File (utf8 "first") 7]> demo_disk) =
  (Ok Conflict, <[utf8 "/w/old.md" := File (utf8 "first") 7]> demo_disk).
Proof.
  apply (cas_first_wins demo_disk (utf8 "/w/old.md") (Some (utf8 "old")) (utf8 "first") (utf8 "second") 7 8).
  - vm_compute. reflexivity.
  - vm_compute. congruence.
  - vm_compute. reflexivity.
Defined.
