(* ===== verification/Sandbox.v ===== *)
(** * The sandbox's policies

    Models [crates/zen-core/src/sandbox.rs]: modes, the classification of
    paths, lexical normalisation and containment, the canonicalisation used for
    checks, the screening of commands, the seatbelt policy and the validator.
    A path is the list of components [Path::components] yields, names being
    texts; the file system is a class.  The generated macOS profile and the
    resource limits are input and output of the operating system, and are left
    out. *)

From S2P Require Import Prelude Json Text.
From Stdlib Require Import Lia.
Local Open Scope list_scope.

(** ** Modes *)

Inductive SandboxMode := ReadOnly | WorkspaceWrite | Ask | DangerFullAccess.

#[export] Instance SandboxMode_eq_dec : EqDecision SandboxMode.
Proof. solve_decision. Defined.

Definition as_str (m : SandboxMode) : string :=
  match m with
  | ReadOnly => "read-only" | WorkspaceWrite => "workspace-write" | Ask => "ask"
  | DangerFullAccess => "danger-full-access"
  end.

Definition parse_str (s : string) : option SandboxMode :=
  let among l := existsb (String.eqb s) l in
  if among ["read-only"; "readonly"; "ro"]%string then Some ReadOnly
  else if among ["workspace-write"; "workspacemode"; "ww"]%string then Some WorkspaceWrite
  else if among ["ask"; "askme"]%string then Some Ask
  else if among ["danger-full-access"; "full"; "unsafe"]%string then Some DangerFullAccess
  else None.

(** ** Paths *)

Inductive component := RootDir | CurDir | ParentDir | Normal (name : text).

#[export] Instance component_eq_dec : EqDecision component.
Proof. solve_decision. Defined.

Abbreviation path := (list component).

(** [Component::as_os_str]. *)
Definition name_of (c : component) : text :=
  match c with
  | RootDir => utf8 "/" | CurDir => utf8 "." | ParentDir => utf8 ".." | Normal n => n
  end.

Definition is_absolute (p : path) : bool :=
  match p with RootDir :: _ => true | _ => false end.

(** [Path::components] of a string: repeated separators and inner dots are
    skipped. *)
Definition component_of (piece : text) : option component :=
  if bool_decide (piece = []) then None
  else if bool_decide (piece = utf8 ".") then None
  else if bool_decide (piece = utf8 "..") then Some ParentDir
  else Some (Normal piece).
Definition components (s : text) : path :=
  let pieces := split_on 47%N s in
  if starts_with s (utf8 "/") then RootDir :: omap component_of pieces
  else match pieces with
       | first :: _ => if bool_decide (first = utf8 ".") then CurDir :: omap component_of pieces
                       else omap component_of pieces
       | [] => []
       end.

Definition join (base p : path) : path :=
  if is_absolute p then p else base ++ filter (fun c => c <> CurDir) p.

(** [Path::parent] and [Path::file_name]. *)
Definition parent (p : path) : option path :=
  match last p with
  | None | Some RootDir => None
  | Some _ => Some (removelast p)
  end.
Definition file_name (p : path) : option text :=
  match last p with Some (Normal n) => Some n | _ => None end.

(** [Path::starts_with]. *)
Definition path_starts_with (p q : path) : bool := bool_decide (q `prefix_of` p).

Definition PROTECTED_PATHS : list text :=
  map utf8 [".git"; ".zen"; ".ssh"; ".aws"; ".gnupg"; ".env"]%string.
Definition BLOCKED_COMMAND_PATTERNS : list string := ["rm -rf /"; "rm -rf ~"; "sudo "; "chmod 777"]%string.
Definition BLOCKED_NETWORK_COMMANDS : list string := ["curl"; "wget"]%string.

Definition env_name (n : text) : bool :=
  bool_decide (n = utf8 ".env") || starts_with n (utf8 ".env.") || ends_with n (utf8 ".env").

Definition is_env_file (p : path) : bool := existsb (fun c => env_name (name_of c)) p.

Definition is_zen_path (p : path) : bool := existsb (fun c => bool_decide (name_of c = utf8 ".zen")) p.

Definition is_metadata_path (p : path) : bool :=
  is_env_file p || existsb (fun c => bool_decide (name_of c ∈ PROTECTED_PATHS)) p.

(** The loop of [lexical_normalize]; [out] is reversed. *)
Fixpoint normalize_go (p : path) (out : path) : path :=
  match p with
  | [] => rev out
  | c :: rest =>
    match c with
    | CurDir => normalize_go rest out
    | ParentDir =>
      match out with
      | Normal _ :: out' => normalize_go rest out'
      | _ => normalize_go rest out
      end
    | _ => normalize_go rest (c :: out)
    end
  end.
Definition lexical_normalize (p : path) : path :=
  match normalize_go p [] with [] => [CurDir] | q => q end.

Definition is_within_root (p root : path) : bool :=
  path_starts_with (lexical_normalize p) (lexical_normalize root).

(** ** The file system *)

(** [symlink_metadata]: [None] when it fails, else whether the path is a link;
    [canonicalize]; [exists]; and the global root. *)
Class FileSystem := {
  symlink_metadata : path -> option bool;
  canonicalize : path -> option path;
  path_exists : path -> bool;
  user_root : path;
}.

Section fs.
Context `{FileSystem}.

Definition GLOBAL_ROOT_SUBTREES : list text := map utf8 ["vault"; "memories"; "logs"; "skills"]%string.

Definition resolve_agent_path (input : text) : path :=
  let p := components input in
  if is_absolute p then p
  else if path_exists p then p
  else
    let anchored := join user_root p in
    if path_exists anchored then anchored
    else match p with
         | first :: _ => if bool_decide (name_of first ∈ GLOBAL_ROOT_SUBTREES) then anchored else p
         | [] => p
         end.

(** The loop of [canonicalize_for_check], up the parents; [missing] collects
    the file names on the way, the last one first. *)
Fixpoint climb (fuel : nat) (whole current : path) (missing : list text) : option path :=
  match fuel with
  | O => None
  | S f =>
    match parent current with
    | Some par =>
      if bool_decide (par = []) then canonicalize whole
      else
        let missing' := match file_name current with Some n => missing ++ [n] | None => missing end in
        match symlink_metadata par with
        | Some _ => c ← canonicalize par; Some (c ++ map Normal (rev missing'))
        | None => climb f whole par missing'
        end
    | None => canonicalize whole
    end
  end.

Definition canonicalize_for_check (p : path) : option path :=
  match canonicalize p with
  | Some c => Some c
  | None =>
    if default false (symlink_metadata p) then canonicalize p
    else climb (S (length p)) p p []
  end.

(** ** Commands *)

(** [to_lowercase], on the letters the patterns have: no other character's
    lower case is one of them. *)
Definition lower (t : text) : text := map ascii_lower t.

Definition is_blocked_command (cmd : text) : option string :=
  let l := lower cmd in
  match list_find (fun pat => contains l (lower (utf8 pat)) = true) BLOCKED_COMMAND_PATTERNS with
  | Some (_, pat) => Some pat
  | None =>
    match list_find (fun b => first_token l = utf8 b) BLOCKED_NETWORK_COMMANDS with
    | Some (_, b) => Some b
    | None => None
    end
  end.

Definition known_hosts : list text :=
  map utf8 ["localhost"; "127.0.0.1"; "0.0.0.0"; "api.openai.com"; "api.anthropic.com"; "github.com";
            "raw.githubusercontent.com"]%string.

(** [trim_start_matches] of a pattern. *)
Fixpoint strip_matches (fuel : nat) (pat t : text) : text :=
  match fuel with
  | O => t
  | S f => if starts_with t pat && negb (bool_decide (pat = [])) then strip_matches f pat (drop (length pat) t) else t
  end.
Definition trim_start_matches (t pat : text) : text := strip_matches (length t) pat t.

Definition host_part (url : text) : text :=
  let u := trim_start_matches (trim_start_matches url (utf8 "http://")) (utf8 "https://") in
  default u (head (split_on 47%N u)).

(** The body of the loop for one network command. *)
Definition dangerous_for (trimmed first : text) (host : string) : bool :=
  let binary := default first (last (split_on 47%N first)) in
  let pattern := utf8 host ++ utf8 " " in
  if bool_decide (binary = utf8 host) && bool_decide (trimmed = first) then true
  else match find trimmed pattern with
       | Some n =>
         let url := first_token (drop (n + length pattern) trimmed) in
         negb (existsb (fun known => contains (host_part url) known) known_hosts)
       | None => false
       end.

Definition is_dangerous_network_target (cmd : text) : bool :=
  let trimmed := trim cmd in
  let first := first_token trimmed in
  existsb (dangerous_for trimmed first) BLOCKED_NETWORK_COMMANDS.

(** ** The seatbelt policy *)

Record ToolArgEntry := { path_args : list string; command_args : list string }.

Record SeatbeltPolicy := {
  sp_mode : SandboxMode;
  sp_roots : list path;
  timeout_secs : N;
  arg_registry : gmap string ToolArgEntry;
}.

Definition new_policy (m : SandboxMode) (roots : list path) : SeatbeltPolicy :=
  {| sp_mode := m; sp_roots := roots; timeout_secs := 300; arg_registry := ∅ |}.

Definition register_tool_args (tool : string) (paths commands : list string) (reg : gmap string ToolArgEntry)
    : gmap string ToolArgEntry :=
  <[tool := {| path_args := paths; command_args := commands |}]> reg.

Definition is_write_allowed (pol : SeatbeltPolicy) (p : path) : bool :=
  if bool_decide (sp_mode pol = ReadOnly) then false
  else if bool_decide (sp_mode pol = DangerFullAccess) then true
  else if is_metadata_path p then false
  else if bool_decide (sp_roots pol = []) then false
  else existsb (fun root => is_within_root p root) (sp_roots pol).

(** A text between double quotes. *)
Definition quoted (t : text) : text := [34%N] ++ t ++ [34%N].

Inductive ToolDispatchAction := Continue | Terminate (reason : text).

Definition check_command_arg (pol : SeatbeltPolicy) (args : text) : option text :=
  match is_blocked_command args with
  | Some pat => Some (utf8 "sandbox blocked command matching pattern: " ++ quoted (utf8 pat))
  | None =>
    if is_dangerous_network_target args && negb (bool_decide (sp_mode pol = DangerFullAccess))
    then Some (utf8 "sandbox blocked network command to unknown host")
    else None
  end.

Context {V : Type} `{Json V}.

(** A tool invocation: its name, and its arguments. *)
Record ToolInvocation := { ti_name : string; ti_args : V }.

Definition arg (inv : ToolInvocation) (key : string) : option string := j_get (ti_args inv) key ≫= j_as_str.

Definition check_path_arg (inv : ToolInvocation) (s : text) : option text :=
  if is_metadata_path (components s)
     && match arg inv "operation" with
        | Some o => existsb (String.eqb o) ["write"; "delete"; "remove"; "modify"]%string
        | None => false
        end
  then Some (utf8 "sandbox blocked write operation on metadata path: " ++ quoted s)
  else None.

Fixpoint first_refusal (check : text -> option text) (inv : ToolInvocation) (keys : list string) : option text :=
  match keys with
  | [] => None
  | k :: rest =>
    match (s ← arg inv k; check (utf8 s)) with
    | Some reason => Some reason
    | None => first_refusal check inv rest
    end
  end.

Definition validate_invocation (pol : SeatbeltPolicy) (inv : ToolInvocation) : ToolDispatchAction :=
  let '(command_keys, path_keys) :=
    match arg_registry pol !! ti_name inv with
    | Some e => (command_args e, path_args e)
    | None => (["command"], ["path"])%string
    end in
  match first_refusal (check_command_arg pol) inv command_keys with
  | Some reason => Terminate reason
  | None =>
    match first_refusal (check_path_arg inv) inv path_keys with
    | Some reason => Terminate reason
    | None => Continue
    end
  end.

(** ** The validator *)

Record SandboxValidator := { v_mode : SandboxMode; workspace_roots : list path; protected_set : list text }.

(** [strip_prefix('.')]: every protected name has the dot. *)
Definition new_validator (m : SandboxMode) (roots : list path) : SandboxValidator :=
  {| v_mode := m; workspace_roots := roots;
     protected_set := flat_map (fun p => match p with
                                         | c :: rest => if bool_decide (c = 46%N) then [p; rest] else [p]
                                         | [] => [p]
                                         end) PROTECTED_PATHS |}.

Definition has_protected (v : SandboxValidator) (p : path) : bool :=
  existsb (fun c => bool_decide (name_of c ∈ protected_set v)) p.

(** The loop of [path_contains_symlink] over the prefixes. *)
Fixpoint symlink_walk (current rest : path) : bool :=
  match rest with
  | [] => false
  | c :: rest' =>
    let current' := current ++ [c] in
    match symlink_metadata current' with
    | Some true => true
    | Some false => symlink_walk current' rest'
    | None => false
    end
  end.
Definition path_contains_symlink (p : path) : bool := symlink_walk [] p.

(** Why a path is refused: one constructor for each message of the source, the
    path the message shows being the argument of the check. *)
Inductive refusal :=
  | ReadOnlyMode | EnvFile | ProtectedPath | NoRoots | OutsideRoots
  | CannotCanonicalize | SymlinkToEnv | SymlinkToProtected | SymlinkEscapes.

Definition check_symlink_escape (v : SandboxValidator) (p : path) : result unit refusal :=
  if negb (path_contains_symlink p) then Ok tt
  else match canonicalize_for_check p with
       | None => Err CannotCanonicalize
       | Some c =>
         if is_env_file c then Err SymlinkToEnv
         else if has_protected v c then Err SymlinkToProtected
         else match workspace_roots v with
              | [] => Ok tt
              | roots =>
                if existsb (fun root => is_within_root c (default root (canonicalize root))) roots then Ok tt
                else Err SymlinkEscapes
              end
       end.

Definition validate_path_for_write (v : SandboxValidator) (p : path) : result unit refusal :=
  if bool_decide (v_mode v = ReadOnly) then Err ReadOnlyMode
  else if bool_decide (v_mode v = DangerFullAccess) then Ok tt
  else
    let n := lexical_normalize p in
    if is_env_file n then Err EnvFile
    else if is_zen_path n then Ok tt
    else if has_protected v n then Err ProtectedPath
    else match workspace_roots v with
         | [] => Err NoRoots
         | roots =>
           if negb (existsb (fun root => is_within_root p root) roots) then Err OutsideRoots
           else check_symlink_escape v p
         end.

Definition validate_path_for_read (v : SandboxValidator) (p : path) : result unit refusal :=
  if bool_decide (v_mode v = DangerFullAccess) then Ok tt
  else
    let n := lexical_normalize p in
    if is_env_file n then Err EnvFile
    else if is_zen_path n then Ok tt
    else if has_protected v n then Err ProtectedPath
    else check_symlink_escape v p.

Definition validate_command (v : SandboxValidator) (cmd : text) : result unit text :=
  match is_blocked_command cmd with
  | Some pat => Err (utf8 "blocked command pattern: " ++ utf8 pat)
  | None =>
    if is_dangerous_network_target cmd && negb (bool_decide (v_mode v = DangerFullAccess))
    then Err (utf8 "blocked network command to unknown host")
    else Ok tt
  end.
End fs.
