(* ===== verification/SandboxProps.v ===== *)
(** * The sandbox confines what it allows

    Lexical containment is exactly the kernel's walk in a tree without links;
    an allowed access lands on a path that is neither an environment file nor
    protected, and an allowed write lands inside a root, through any symbolic
    links, as long as no directory is made between the check and the write.
    [fs.write] makes the missing directories after the check: the last theorem
    shows the write that leaves the root this way. *)

From S2P Require Import Prelude Json Text Sandbox.
From Stdlib Require Import Lia.
Local Open Scope list_scope.

(** ** The walk of the kernel

    The names from the root to the directory reached, the deepest first. *)

Definition walk_step (st : list text) (c : component) : list text :=
  match c with
  | RootDir => []
  | CurDir => st
  | ParentDir => tail st
  | Normal n => n :: st
  end.
Definition walk (st : list text) (p : path) : list text := foldl walk_step st p.

(** The canonical path of the directory reached. *)
Definition path_of (st : list text) : path := RootDir :: map Normal (rev st).

(** An absolute path, the root being nowhere but in front. *)
Definition absolute (p : path) : Prop := exists q, p = RootDir :: q /\ RootDir ∉ q.

Lemma walk_app st p q : walk st (p ++ q) = walk (walk st p) q.
Proof. apply foldl_app. Qed.

Lemma walk_normals st ns : walk st (map Normal ns) = rev ns ++ st.
Proof.
  revert st. induction ns as [|n ns IH]; intros st; [done|].
  simpl. unfold walk in *. simpl. by rewrite IH, <- app_assoc.
Qed.

Lemma walk_parents st k : walk st (replicate k ParentDir) = drop k st.
Proof.
  revert st. induction k as [|k IH]; intros st; [done|].
  unfold walk in *. simpl. rewrite IH. destruct st; simpl; [apply drop_nil|done].
Qed.

Lemma walk_path_of st st' p : walk st (path_of st' ++ p) = walk st' p.
Proof. unfold path_of. cbn. by rewrite foldl_app, walk_normals, rev_involutive, app_nil_r. Qed.

Lemma normalize_go_walk p st : RootDir ∉ p ->
  normalize_go p (map Normal st ++ [RootDir]) = path_of (walk st p).
Proof.
  revert st. induction p as [|c p IH]; intros st Hp.
  { cbn. unfold path_of. by rewrite rev_app_distr, map_rev. }
  apply not_elem_of_cons in Hp as [Hc Hp]. destruct c as [| | |n]; cbn; [done|by apply IH| |].
  - destruct st as [|m st]; cbn; [apply (IH [])|apply IH]; done.
  - by apply (IH (n :: st)).
Qed.

Lemma normalize_walk p : absolute p -> lexical_normalize p = path_of (walk [] p).
Proof.
  intros (q & -> & Hq). unfold lexical_normalize. cbn [normalize_go].
  pose proof (normalize_go_walk q [] Hq) as Hgo. cbn in Hgo. rewrite Hgo. done.
Qed.

Lemma path_of_absolute st p : RootDir ∉ p -> absolute (path_of st ++ p).
Proof.
  intros Hp. exists (map Normal (rev st) ++ p). split; [done|].
  rewrite not_elem_of_app. split; [|done].
  intros (n & Hn & _)%list_elem_of_fmap. done.
Qed.

Lemma path_of_absolute_nil st : absolute (path_of st).
Proof. rewrite <- (app_nil_r (path_of st)). apply path_of_absolute. apply not_elem_of_nil. Qed.

Lemma normalize_path_of st : lexical_normalize (path_of st) = path_of st.
Proof.
  rewrite normalize_walk by apply path_of_absolute_nil.
  rewrite <- (app_nil_r (path_of st)) at 1. by rewrite walk_path_of.
Qed.

Lemma path_of_prefix a b : path_of a `prefix_of` path_of b <-> a `suffix_of` b.
Proof.
  unfold path_of. split.
  - intros [l Hl]. injection Hl as Hl.
    apply fmap_app_inv in Hl as (u & w & Hu & _ & Hb).
    apply (list_fmap_eq_inj Normal) in Hu; [|by intros ? ? [= ->]].
    subst u. exists (rev w). by rewrite <- (rev_involutive a), <- rev_app_distr, <- Hb, rev_involutive.
  - intros [l ->]. exists (map Normal (rev l)). by rewrite rev_app_distr, map_app.
Qed.

Lemma within_root_iff p root : absolute p -> absolute root ->
  is_within_root p root = true <-> walk [] root `suffix_of` walk [] p.
Proof.
  intros Hp Hr. unfold is_within_root, path_starts_with.
  rewrite bool_decide_eq_true, !normalize_walk by done. apply path_of_prefix.
Qed.

Lemma within_path_of a b : is_within_root (path_of a) (path_of b) = true <-> b `suffix_of` a.
Proof.
  unfold is_within_root, path_starts_with. rewrite bool_decide_eq_true, !normalize_path_of. apply path_of_prefix.
Qed.

(** [is_within_root] is exact: it accepts an absolute path just when the walk
    of its components, [..] going up and stopping at the root of the file
    system, ends at the workspace root or below it. *)
Theorem within_root_exact p root : absolute p -> absolute root ->
  is_within_root p root = true <-> exists below, walk [] p = below ++ walk [] root.
Proof. apply within_root_iff. Qed.

(** ** What the file system promises *)

(** POSIX path resolution: canonical paths are absolute and plain; a path that
    resolves has all its prefixes; without links, resolving is walking. *)
Class FileSystemLaws `{FileSystem} := {
  canonicalize_plain : forall p c, canonicalize p = Some c -> exists st, c = path_of st;
  canonicalize_exists : forall p c, canonicalize p = Some c -> is_Some (symlink_metadata p);
  prefixes_exist : forall p q, is_Some (symlink_metadata p) -> q <> [] -> q `prefix_of` p ->
    is_Some (symlink_metadata q);
  canonicalize_no_link : forall p c, absolute p -> canonicalize p = Some c ->
    (forall q, q <> [] -> q `prefix_of` p -> symlink_metadata q = Some false) ->
    c = path_of (walk [] p);
}.

(** Where an access to [p] lands: on the file it resolves to, on a new file in
    the directory its parent resolves to, or, through a dangling link, anywhere. *)
Inductive lands `{FileSystem} (p : path) : path -> Prop :=
  | lands_there c : canonicalize p = Some c -> lands p c
  | lands_new d c n : canonicalize p = None -> symlink_metadata p <> Some true ->
      parent p = Some d -> canonicalize d = Some c -> file_name p = Some n -> lands p (c ++ [Normal n])
  | lands_dangling c : canonicalize p = None -> symlink_metadata p = Some true -> lands p c.

Section confined.
Context `{FileSystemLaws}.

Lemma symlink_walk_app cur p q : symlink_walk cur (p ++ q) = false -> symlink_walk cur p = false.
Proof.
  revert cur. induction p as [|c p IH]; intros cur; simpl; [done|].
  destruct (symlink_metadata _) as [[]|]; [done|apply IH|done].
Qed.

(** Where every prefix exists, finding no link means that there is none. *)
Lemma symlink_walk_none cur p : symlink_walk cur p = false ->
  (forall q, q <> [] -> q `prefix_of` p -> is_Some (symlink_metadata (cur ++ q))) ->
  forall q, q <> [] -> q `prefix_of` p -> symlink_metadata (cur ++ q) = Some false.
Proof.
  revert cur. induction p as [|c p IH]; intros cur Hw Hex q Hq Hqp.
  { by apply prefix_nil_inv in Hqp. }
  destruct q as [|c' q]; [done|].
  pose proof (prefix_cons_inv_1 _ _ _ _ Hqp) as ->. apply prefix_cons_inv_2 in Hqp.
  simpl in Hw. destruct (Hex [c]) as [b Hb]; [done|by apply prefix_cons, prefix_nil|].
  rewrite Hb in Hw. destruct b; [done|].
  destruct q as [|c' q]; [done|].
  change (c :: c' :: q) with ([c] ++ c' :: q). rewrite (assoc_L (++)).
  apply IH; [done| |done|done].
  intros r Hr Hrp. rewrite <- (assoc_L (++)). apply Hex; [done|]. by apply prefix_cons.
Qed.

Lemma unlinked_prefixes p : path_contains_symlink p = false -> is_Some (symlink_metadata p) ->
  forall q, q <> [] -> q `prefix_of` p -> symlink_metadata q = Some false.
Proof.
  intros Hl Hp. apply (symlink_walk_none [] p Hl). intros q Hq Hqp. by eapply prefixes_exist.
Qed.

Lemma canonicalize_unlinked p c : absolute p -> canonicalize p = Some c ->
  path_contains_symlink p = false -> c = lexical_normalize p.
Proof.
  intros Hp Hc Hl. rewrite normalize_walk by done. eapply canonicalize_no_link; [done|done|].
  apply (unlinked_prefixes p Hl). by eapply canonicalize_exists.
Qed.

(** An absolute path with a file name is its parent and that name. *)
Lemma absolute_snoc p d n : absolute p -> parent p = Some d -> file_name p = Some n ->
  p = d ++ [Normal n] /\ absolute d.
Proof.
  intros (q & -> & Hq) Hd Hn. unfold parent, file_name in *.
  destruct q as [|x q] using rev_ind; [done|].
  rewrite app_comm_cons, last_snoc in Hd, Hn. destruct x; simplify_eq.
  rewrite removelast_last.
  apply not_elem_of_app in Hq as [Hq _]. split; [done|]. by exists q.
Qed.

Lemma walk_snoc st d n : walk st (d ++ [Normal n]) = n :: walk st d.
Proof. by rewrite walk_app. Qed.

Lemma path_of_snoc st n : path_of (n :: st) = path_of st ++ [Normal n].
Proof. unfold path_of. simpl. by rewrite map_app. Qed.

(** Without links an access lands on the lexical normal form. *)
Lemma lands_unlinked p c : absolute p -> path_contains_symlink p = false -> lands p c ->
  c = lexical_normalize p.
Proof.
  intros Hp Hl Hc. destruct Hc as [c Hc|d c n _ _ Hpar Hc Hn|c _ Hd].
  - by eapply canonicalize_unlinked.
  - destruct (absolute_snoc p d n) as [-> Ha]; try done.
    rewrite (canonicalize_unlinked d c); [|done|done|by eapply symlink_walk_app].
    rewrite !normalize_walk by done. by rewrite walk_snoc, path_of_snoc.
  - destruct Hp as (q & -> & _).
    assert (symlink_metadata (RootDir :: q) = Some false); [|congruence].
    by apply (unlinked_prefixes (RootDir :: q)).
Qed.

(** The path checked is where the access lands. *)
Lemma canonicalize_for_check_lands p c k : absolute p -> lands p c ->
  canonicalize_for_check p = Some k -> k = c.
Proof.
  intros Hp Hc. unfold canonicalize_for_check.
  destruct Hc as [c Hc|d c n Hnone Hd Hpar Hc Hn|c Hnone Hd].
  - rewrite Hc. by intros [= ->].
  - rewrite Hnone. destruct (symlink_metadata p) as [[]|] eqn:Hm; [done| |]; cbn [default];
      cbn [climb]; rewrite Hpar, Hn;
      (destruct (absolute_snoc p d n) as [_ (q & -> & _)]; [done..|]);
      (destruct (canonicalize_exists _ _ Hc) as [b ->]; rewrite Hc; cbn; by intros [= ->]).
  - by rewrite Hnone, Hd.
Qed.

(** What the checks give about the landing path. *)
Lemma checked_landing v p c : absolute p ->
  is_env_file (lexical_normalize p) = false -> has_protected v (lexical_normalize p) = false ->
  check_symlink_escape v p = Ok tt -> lands p c ->
  is_env_file c = false /\ has_protected v c = false
  /\ (c = lexical_normalize p \/ workspace_roots v = []
      \/ exists root, root ∈ workspace_roots v /\ is_within_root c (default root (canonicalize root)) = true).
Proof.
  intros Hp He Hpr Hchk Hc. unfold check_symlink_escape in Hchk.
  destruct (path_contains_symlink p) eqn:Hl; cbn [negb] in Hchk.
  - destruct (canonicalize_for_check p) as [k|] eqn:Hk; [|done].
    rewrite (canonicalize_for_check_lands p c k) in Hchk by done.
    destruct (is_env_file c); [done|]. destruct (has_protected v c); [done|].
    split; [done|]. split; [done|]. right. destruct (workspace_roots v) as [|r rs]; [by left|]. right.
    destruct (existsb _ _) eqn:Hex; [|done]. apply existsb_exists in Hex as (root & Hin & Hw).
    exists root. split; [by apply list_elem_of_In|done].
  - rewrite (lands_unlinked p c) by done. auto.
Qed.
End confined.

(** C21. An allowed write is confined: whatever links the path goes through, the
    file it reaches, existing or new, is not an environment file, has no
    protected component, and is inside a workspace root or inside what that root
    resolves to.  The path is absolute; the two exceptions of the source are excluded:
    full access, and paths with a component [.zen].  The disk is as it is at the
    check: directories that are made between the check and the write can lead the
    write elsewhere ([made_directories_escape]). *)
Theorem write_confined `{FileSystemLaws} v p c : absolute p -> v_mode v <> DangerFullAccess ->
  is_zen_path (lexical_normalize p) = false ->
  validate_path_for_write v p = Ok tt -> lands p c ->
  is_env_file c = false /\ has_protected v c = false
  /\ exists root, root ∈ workspace_roots v
      /\ (is_within_root c root = true \/ is_within_root c (default root (canonicalize root)) = true).
Proof.
  intros Hp Hm Hz Hok Hc. unfold validate_path_for_write in Hok.
  destruct (bool_decide (v_mode v = ReadOnly)); [done|].
  rewrite (bool_decide_eq_false_2 _ Hm), Hz in Hok.
  destruct (is_env_file (lexical_normalize p)) eqn:He; [done|].
  destruct (has_protected v (lexical_normalize p)) eqn:Hpr; [done|].
  destruct (workspace_roots v) as [|r rs] eqn:Hroots; [done|].
  destruct (existsb _ _) eqn:Hex; [|done]. cbn [negb] in Hok.
  destruct (checked_landing v p c) as (Hce & Hcp & Hin); [done..|].
  split; [done|]. split; [done|]. rewrite Hroots in Hin.
  destruct Hin as [->|[?|(root & Hin & Hw)]]; [|done|by exists root; auto].
  apply existsb_exists in Hex as (root & Hin & Hw). exists root.
  split; [by apply list_elem_of_In|]. left.
  unfold is_within_root in *. rewrite (normalize_walk p Hp) in *. by rewrite normalize_path_of.
Qed.

(** A read is confined to a root only where a link is on the way. *)
Theorem read_confined `{FileSystemLaws} v p c : absolute p -> v_mode v <> DangerFullAccess ->
  is_zen_path (lexical_normalize p) = false ->
  validate_path_for_read v p = Ok tt -> lands p c ->
  is_env_file c = false /\ has_protected v c = false.
Proof.
  intros Hp Hm Hz Hok Hc. unfold validate_path_for_read in Hok.
  rewrite (bool_decide_eq_false_2 _ Hm), Hz in Hok.
  destruct (is_env_file (lexical_normalize p)) eqn:He; [done|].
  destruct (has_protected v (lexical_normalize p)) eqn:Hpr; [done|].
  by destruct (checked_landing v p c) as (Hce & Hcp & _).
Qed.

(** ** Directories made after the check *)

Definition normal_names (p : path) : list text :=
  omap (fun c => match c with Normal n => Some n | _ => None end) p.

(** Names no rule of a validator concerns. *)
Definition clean (n : text) : Prop :=
  env_name n = false /\ n ∉ protected_set (new_validator WorkspaceWrite []).

Lemma clean_path st mode roots : Forall clean st ->
  is_env_file (path_of st) = false /\ is_zen_path (path_of st) = false
  /\ has_protected (new_validator mode roots) (path_of st) = false.
Proof.
  intros Hst.
  assert (Hall : forall f : component -> bool, f RootDir = false -> (forall n, clean n -> f (Normal n) = false) ->
    existsb f (path_of st) = false).
  { intros f H0 Hf. apply not_true_iff_false. rewrite existsb_exists. intros (c & Hc & Hfc).
    destruct Hc as [<-|Hc]; [congruence|].
    apply in_map_iff in Hc as (n & <- & Hn%in_rev).
    rewrite Hf in Hfc; [done|]. rewrite Forall_forall in Hst. by apply Hst, list_elem_of_In. }
  split_and!; apply Hall; try (by vm_compute); intros n [He Hn]; cbn [name_of]; [done| |];
    apply bool_decide_eq_false_2; [|done].
  intros ->. apply Hn. by vm_compute; repeat constructor.
Qed.

Section made.
Context `{FileSystemLaws}.

(** Climbing over components that do not exist keeps their names and drops
    their [..]. *)
Lemma climb_drops whole d c t miss fuel : canonicalize d = Some c -> d <> [] -> t <> [] ->
  Forall (fun k => k <> RootDir) t -> length t <= fuel ->
  (forall q, q <> [] -> q `prefix_of` t -> symlink_metadata (d ++ q) = None) ->
  climb fuel whole (d ++ t) miss = Some (c ++ map Normal (normal_names t ++ rev miss)).
Proof.
  intros Hc Hd. revert miss fuel. induction t as [|k t IH] using rev_ind; intros miss fuel Ht Hall Hfuel Hno; [done|].
  rewrite length_app in Hfuel. cbn in Hfuel. destruct fuel as [|fuel]; [lia|].
  apply Forall_app in Hall as [Hall Hk]. apply Forall_inv in Hk.
  unfold climb; fold climb.
  assert (Hpar : parent (d ++ t ++ [k]) = Some (d ++ t)).
  { unfold parent. rewrite (assoc_L (++)), last_snoc, removelast_last. by destruct k. }
  rewrite Hpar, bool_decide_eq_false_2 by (by intros [-> _]%app_eq_nil).
  unfold file_name. rewrite (assoc_L (++)), last_snoc.
  assert (Hnames : map Normal (normal_names (t ++ [k]) ++ rev miss) = map Normal (normal_names t ++
    rev (match k with Normal n => miss ++ [n] | _ => miss end))).
  { unfold normal_names. rewrite omap_app. destruct k; cbn; rewrite ?app_nil_r; try done.
    by rewrite rev_app_distr, <- (assoc_L (++)). }
  rewrite Hnames. clear Hnames.
  assert (Hmatch : match match k with Normal n => Some n | _ => None end with
    | Some n => miss ++ [n] | None => miss end = match k with Normal n => miss ++ [n] | _ => miss end) by by destruct k.
  rewrite Hmatch. clear Hmatch. destruct t as [|k' t'].
  - rewrite app_nil_r. destruct (canonicalize_exists _ _ Hc) as [b ->]. by rewrite Hc.
  - rewrite Hno; [|done|by apply prefix_app_r]. apply IH; [done|done|lia|].
    intros q Hq Hqt. apply Hno; [done|]. by apply prefix_app_r.
Qed.

Lemma missing_below d m q : symlink_metadata (d ++ [m]) = None -> [m] `prefix_of` q ->
  symlink_metadata (d ++ q) = None /\ canonicalize (d ++ q) = None.
Proof.
  intros Hm Hq.
  assert (Hno : symlink_metadata (d ++ q) = None).
  { apply eq_None_not_Some. intros Hs.
    eapply prefixes_exist in Hs; [by rewrite Hm in Hs; destruct Hs| |by apply prefix_app]. by destruct d. }
  split; [done|]. apply eq_None_not_Some. intros [c Hc].
  apply canonicalize_exists in Hc as [b Hb]. congruence.
Qed.
End made.

(** A missing directory [m], [k + 2] steps up, and the file [x]. *)
Definition climbing_tail (m x : text) (k : nat) : path :=
  Normal m :: replicate (k + 2) ParentDir ++ [Normal x].

Lemma walk_climbing_tail st m x k : walk st (climbing_tail m x k) = x :: drop (S k) st.
Proof.
  change (walk (m :: st) (replicate (k + 2) ParentDir ++ [Normal x]) = x :: drop (S k) st).
  rewrite walk_snoc, walk_parents, Nat.add_comm. done.
Qed.

Lemma climbing_tail_no_root m x k : Forall (fun c => c <> RootDir) (climbing_tail m x k).
Proof.
  apply Forall_cons; split; [done|]. apply Forall_app; split; [by apply Forall_replicate|by constructor].
Qed.

Lemma climbing_tail_names m x k : normal_names (climbing_tail m x k) = [m; x].
Proof.
  unfold climbing_tail, normal_names. cbn. f_equal. rewrite omap_app.
  by induction (k + 2) as [|j IH].
Qed.

Section escape.
Context `{FileSystemLaws} (R A B : list text) (w m x : text).
Let root : path := path_of (w :: R).
Let link : path := path_of (A ++ w :: R).
Let p : path := link ++ climbing_tail m x (length B).
Hypotheses (Hroot : canonicalize root = Some root)
  (Hlink : canonicalize link = Some (path_of (B ++ w :: R))) (HBA : length B < length A)
  (Hm : symlink_metadata (link ++ [Normal m]) = None)
  (Hclean : Forall clean (m :: x :: A ++ B ++ w :: R)).

Lemma escape_absolute : absolute p.
Proof.
  apply path_of_absolute. intros Hin.
  by apply (proj1 (Forall_forall _ _) (climbing_tail_no_root m x (length B)) _ Hin).
Qed.

Lemma escape_normal : lexical_normalize p = path_of (x :: drop (S (length B)) A ++ w :: R).
Proof.
  rewrite normalize_walk by apply escape_absolute. unfold p, link.
  by rewrite walk_path_of, walk_climbing_tail, drop_app_le by lia.
Qed.

Lemma escape_linked : path_contains_symlink p = true.
Proof.
  apply not_false_iff_true. intros Hl%symlink_walk_app.
  apply (canonicalize_unlinked link _) in Hlink; [|apply path_of_absolute_nil|done].
  unfold link in Hlink. rewrite normalize_path_of in Hlink.
  apply (f_equal length) in Hlink. unfold path_of in Hlink. cbn in Hlink.
  rewrite !length_map, !length_rev, !length_app in Hlink. lia.
Qed.

(** What the validator looks at is below the root. *)
Lemma escape_checked : canonicalize_for_check p = Some (path_of (x :: m :: B ++ w :: R)).
Proof.
  destruct (missing_below link (Normal m) (climbing_tail m x (length B)) Hm) as [Hno Hcan].
  { by exists (replicate (length B + 2) ParentDir ++ [Normal x]). }
  unfold canonicalize_for_check. fold p in Hno, Hcan. rewrite Hcan, Hno. cbn [default].
  etrans; [apply (climb_drops p link (path_of (B ++ w :: R)) (climbing_tail m x (length B)))|];
    [done..|apply climbing_tail_no_root| | |].
  2:{ intros q Hq Hqt. apply (missing_below _ _ _ Hm). destruct q as [|c q]; [done|].
      apply prefix_cons_inv_1 in Hqt as ->. by exists q. }
  2:{ by rewrite climbing_tail_names, !path_of_snoc, <- (assoc_L (++)). }
  unfold p. rewrite length_app. lia.
Qed.

Lemma escape_allowed : validate_path_for_write (new_validator WorkspaceWrite [root]) p = Ok tt.
Proof.
  pose proof Hclean as [Hcm [Hcx [HcA [HcB HcR]%Forall_app]%Forall_app]%Forall_cons]%Forall_cons.
  destruct (clean_path (x :: drop (S (length B)) A ++ w :: R) WorkspaceWrite [root]) as (He & Hz & Hp).
  { apply Forall_cons; split; [done|]. apply Forall_app; split; [by apply Forall_drop|done]. }
  destruct (clean_path (x :: m :: B ++ w :: R) WorkspaceWrite [root]) as (He' & _ & Hp').
  { rewrite !Forall_cons. split_and!; [done..|]. by apply Forall_app. }
  unfold validate_path_for_write. cbn [v_mode new_validator workspace_roots].
  rewrite !bool_decide_eq_false_2 by done. rewrite escape_normal, He, Hz, Hp.
  assert (Hin : is_within_root p root = true).
  { unfold is_within_root. rewrite escape_normal, <- normalize_path_of. apply within_path_of.
    by exists (x :: drop (S (length B)) A). }
  cbn [existsb]. rewrite Hin. cbn [orb negb].
  unfold check_symlink_escape. rewrite escape_linked, escape_checked. cbn [negb].
  rewrite He', Hp'. cbn [workspace_roots new_validator existsb]. rewrite Hroot. cbn [default].
  rewrite (proj2 (within_path_of _ (w :: R))); [done|]. by exists (x :: m :: B).
Qed.
End escape.

(** The confinement holds only as long as nothing changes between the check
    and the write, and [fs.write] makes the missing directories in between: when
    the root holds a link to one of its directories less deep than the link, a
    path through the link, a missing directory and enough [..] is allowed, the
    check having dropped the [..], and once the directory is made it leads
    outside the root. *)
Theorem made_directories_escape `{FileSystemLaws} R A B w m x :
  let root := path_of (w :: R) in
  let link := path_of (A ++ w :: R) in
  let tail := climbing_tail m x (length B) in
  canonicalize root = Some root ->
  canonicalize link = Some (path_of (B ++ w :: R)) -> length B < length A ->
  symlink_metadata (link ++ [Normal m]) = None ->
  Forall clean (m :: x :: A ++ B ++ w :: R) -> x <> w ->
  validate_path_for_write (new_validator WorkspaceWrite [root]) (link ++ tail) = Ok tt
  /\ is_within_root (path_of (walk (B ++ w :: R) tail)) root = false.
Proof.
  intros root link tail Hroot Hlink HBA Hm Hclean Hxw. split; [by apply escape_allowed|].
  apply not_true_iff_false. unfold root, tail. rewrite within_path_of, walk_climbing_tail.
  rewrite drop_app_ge by lia. replace (S (length B) - length B) with 1 by lia. simpl.
  rewrite drop_0. intros [l Hl].
  assert (l = []) as ->.
  { apply (f_equal length) in Hl. rewrite length_app in Hl. simpl in Hl. destruct l; [done|simpl in Hl; lia]. }
  by injection Hl.
Qed.

(** ** A concrete file system

    A table of the files and directories (by their walk from the root) and of
    the links, each with the walk it resolves to. *)

Section table.
Context (nodes : list (list text)) (links : list (list text * list text)).

Definition link_target (st : list text) : option (list text) :=
  snd <$> List.find (fun l => bool_decide (fst l = st)) links.

Fixpoint follow (st : list text) (p : path) : option (list text) :=
  match p with
  | [] => Some st
  | Normal n :: rest =>
    match link_target (n :: st) with
    | Some st' => follow st' rest
    | None => if bool_decide (n :: st ∈ nodes) then follow (n :: st) rest else None
    end
  | c :: rest => follow (walk_step st c) rest
  end.

Definition table_metadata (p : path) : option bool :=
  if is_absolute p then
    match follow [] (removelast p), last p with
    | Some st, Some (Normal n) =>
      match link_target (n :: st) with
      | Some _ => Some true
      | None => if bool_decide (n :: st ∈ nodes) then Some false else None
      end
    | Some _, Some _ => Some false
    | _, _ => None
    end
  else None.

#[local] Instance table_fs : FileSystem := {|
  symlink_metadata := table_metadata;
  canonicalize p := if is_absolute p then path_of <$> follow [] p else None;
  path_exists p := is_absolute p && bool_decide (is_Some (follow [] p));
  user_root := path_of [utf8 ".zen"]
|}.

Lemma follow_app st p q : follow st (p ++ q) = (st' ← follow st p; follow st' q).
Proof.
  revert st. induction p as [|c p IH]; intros st; [done|].
  destruct c; cbn; [apply IH..|]. destruct (link_target _); [apply IH|].
  by case_bool_decide; [apply IH|].
Qed.

Lemma table_metadata_snoc p c : is_absolute (p ++ [c]) = true ->
  table_metadata (p ++ [c]) =
    (st ← follow [] p;
     match c with
     | Normal n => match link_target (n :: st) with
                   | Some _ => Some true
                   | None => if bool_decide (n :: st ∈ nodes) then Some false else None
                   end
     | _ => Some false
     end).
Proof.
  intros Ha. unfold table_metadata. rewrite Ha, removelast_last, last_snoc.
  by destruct (follow [] p); [destruct c|].
Qed.

(** Following succeeds exactly as far as the components are there. *)
Lemma follow_metadata p st : p <> [] -> is_absolute p = true -> follow [] p = Some st ->
  is_Some (table_metadata p).
Proof.
  destruct p as [|c p] using rev_ind; intros Hne Ha Hf; [done|].
  rewrite table_metadata_snoc by done. rewrite follow_app in Hf.
  destruct (follow [] p) as [st'|]; [|done]. cbn in *. destruct c; [by eauto..|].
  destruct (link_target _); [by eauto|]. case_bool_decide; [by eauto|done].
Qed.

Lemma absolute_init p c : p <> [] -> absolute (p ++ [c]) -> absolute p /\ c <> RootDir.
Proof.
  intros Hp (q & Hq & Hn). destruct p as [|c' p]; [done|]. injection Hq as -> <-.
  apply not_elem_of_app in Hn as [Hn Hc]. split; [by exists p|].
  intros ->. apply Hc. by left.
Qed.

Lemma follow_unlinked p st : absolute p -> follow [] p = Some st ->
  (forall q, q <> [] -> q `prefix_of` p -> table_metadata q = Some false) -> st = walk [] p.
Proof.
  revert st. induction p as [|c p IH] using rev_ind; intros st Hp Hf Hno; [by injection Hf|].
  rewrite follow_app in Hf. destruct (follow [] p) as [st'|] eqn:Hp'; [|done]. cbn in Hf.
  assert (Hst : st' = walk [] p).
  { destruct (decide (p = [])) as [->|Hne]; [by injection Hp'|].
    apply IH; [by eapply absolute_init|done|].
    intros q Hq Hqp. apply Hno; [done|by apply prefix_app_r]. }
  subst st'. assert (Hc : table_metadata (p ++ [c]) = Some false) by (apply Hno; [by destruct p|done]).
  rewrite table_metadata_snoc, Hp' in Hc by by destruct Hp as (? & -> & _).
  cbn in Hc. rewrite walk_app. destruct c; [by injection Hf..|].
  destruct (link_target _); [done|]. case_bool_decide; [by injection Hf|done].
Qed.

#[local] Instance table_laws : FileSystemLaws.
Proof.
  split; cbn.
  - intros p c Hc. destruct (is_absolute p); [|done].
    destruct (follow [] p) as [st|]; [|done]. injection Hc as <-. by exists st.
  - intros p c Hc. destruct (is_absolute p) eqn:Ha; [|done].
    destruct (follow [] p) as [st|] eqn:Hf; [|done]. eapply follow_metadata; [by destruct p|done..].
  - intros p q Hp Hq [r ->]. destruct r as [|c r] using rev_ind; [by rewrite app_nil_r in Hp|].
    rewrite (assoc_L (++)) in Hp.
    assert (Ha : is_absolute ((q ++ r) ++ [c]) = true).
    { unfold table_metadata in Hp. destruct (is_absolute _); [done|by destruct Hp]. }
    rewrite table_metadata_snoc in Hp by done.
    rewrite follow_app in Hp. destruct (follow [] q) as [st|] eqn:Hf; [|by destruct Hp].
    eapply follow_metadata; [done| |done]. by destruct q as [|[]].
  - intros p c Hp Hc Hno. destruct (is_absolute p); [|done].
    destruct (follow [] p) as [st|] eqn:Hf; [|done]. injection Hc as <-. f_equal.
    by apply follow_unlinked.
Qed.
End table.

(** A root [/ws] with a link [/ws/a/l] to [/ws/top]. *)
Definition demo_ws : list text := [utf8 "ws"].
Definition demo_nodes : list (list text) := [demo_ws; utf8 "a" :: demo_ws; utf8 "top" :: demo_ws].
Definition demo_links : list (list text * list text) :=
  [(utf8 "l" :: utf8 "a" :: demo_ws, utf8 "top" :: demo_ws)].

#[local] Instance demo_fs : FileSystem := table_fs demo_nodes demo_links.
#[local] Instance demo_laws : FileSystemLaws := table_laws demo_nodes demo_links.

Lemma within_root_exact_witness :
  is_within_root [RootDir; Normal (utf8 "ws"); Normal (utf8 "a"); ParentDir] (path_of demo_ws) = true.
Proof.
  apply within_root_exact.
  - exists [Normal (utf8 "ws"); Normal (utf8 "a"); ParentDir]. split; [done|]. by apply (bool_decide_unpack _).
  - exists [Normal (utf8 "ws")]. split; [done|]. by apply (bool_decide_unpack _).
  - by exists [].
Defined.

Lemma write_confined_witness :
  let v := new_validator WorkspaceWrite [path_of demo_ws] in
  let p := path_of (utf8 "note" :: utf8 "l" :: utf8 "a" :: demo_ws) in
  let c := path_of (utf8 "note" :: utf8 "top" :: demo_ws) in
  validate_path_for_write v p = Ok tt /\ lands p c /\ is_env_file c = false /\ has_protected v c = false
  /\ exists root, root ∈ workspace_roots v
      /\ (is_within_root c root = true \/ is_within_root c (default root (canonicalize root)) = true).
Proof.
  cbv zeta.
  assert (Hok : validate_path_for_write (new_validator WorkspaceWrite [path_of demo_ws])
    (path_of (utf8 "note" :: utf8 "l" :: utf8 "a" :: demo_ws)) = Ok tt) by by vm_compute.
  assert (Hc : lands (path_of (utf8 "note" :: utf8 "l" :: utf8 "a" :: demo_ws))
    (path_of (utf8 "note" :: utf8 "top" :: demo_ws))).
  { rewrite (path_of_snoc (utf8 "top" :: demo_ws)). eapply (lands_new _ (path_of (utf8 "l" :: utf8 "a" :: demo_ws))); by vm_compute. }
  split; [done|]. split; [done|].
  apply (write_confined _ (path_of (utf8 "note" :: utf8 "l" :: utf8 "a" :: demo_ws)));
    [apply path_of_absolute_nil|done|by vm_compute|done|done].
Defined.

Lemma read_confined_witness :
  let p := path_of (utf8 "l" :: utf8 "a" :: demo_ws) in
  is_env_file (path_of (utf8 "top" :: demo_ws)) = false
  /\ has_protected (new_validator Ask [path_of demo_ws]) (path_of (utf8 "top" :: demo_ws)) = false.
Proof.
  apply (read_confined (new_validator Ask [path_of demo_ws]) (path_of (utf8 "l" :: utf8 "a" :: demo_ws)));
    [apply path_of_absolute_nil|done|by vm_compute|by vm_compute|by constructor; vm_compute].
Defined.

(** The write to [/ws/a/l/m/../../../x] is allowed, and lands on [/x]. *)
Lemma made_directories_escape_witness :
  let p := path_of (utf8 "l" :: utf8 "a" :: demo_ws) ++ climbing_tail (utf8 "m") (utf8 "x") 1 in
  validate_path_for_write (new_validator WorkspaceWrite [path_of demo_ws]) p = Ok tt
  /\ path_of (walk (utf8 "top" :: demo_ws) (climbing_tail (utf8 "m") (utf8 "x") 1)) = path_of [utf8 "x"].
Proof.
  split; [|done].
  apply (made_directories_escape [] [utf8 "l"; utf8 "a"] [utf8 "top"] (utf8 "ws") (utf8 "m") (utf8 "x"));
    [by vm_compute|by vm_compute|simpl; lia|by vm_compute| |done].
  repeat constructor; by apply (bool_decide_unpack _); vm_compute.
Defined.
