(* ===== verification/OsSandbox.v ===== *)
(** * The operating system's sandbox around a command

    Models the second half of [crates/zen-core/src/sandbox.rs], profiles, the
    classification of denials and the wrapping of a command by sandbox-exec or
    bubblewrap, and the composition of the command in
    [crates/zen-plugin/src/tools/shell_exec.rs].  [Command] is
    [std::process::Command]: its program, arguments, working directory and
    what it says about the environment; standard streams are left out.  Paths
    are texts, as the command line has them. *)

From S2P Require Import Prelude Json Text Secrets SecretsStream Sandbox.
From Stdlib Require Import Lia.
Local Open Scope list_scope.

(** ** Commands of the standard library *)

Record Command := {
  program : text;
  cmd_args : list text;
  env_cleared : bool;
  env_vars : gmap text (option text);   (* set explicitly, or removed *)
  cmd_dir : option text;
}.

Definition command_new (prog : text) : Command :=
  {| program := prog; cmd_args := []; env_cleared := false; env_vars := ∅; cmd_dir := None |}.
Definition args (l : list text) (c : Command) : Command :=
  {| program := program c; cmd_args := cmd_args c ++ l; env_cleared := env_cleared c;
     env_vars := env_vars c; cmd_dir := cmd_dir c |}.
Definition current_dir (d : text) (c : Command) : Command :=
  {| program := program c; cmd_args := cmd_args c; env_cleared := env_cleared c;
     env_vars := env_vars c; cmd_dir := Some d |}.
Definition with_env (cleared : bool) (vars : gmap text (option text)) (c : Command) : Command :=
  {| program := program c; cmd_args := cmd_args c; env_cleared := cleared;
     env_vars := vars; cmd_dir := cmd_dir c |}.

Definition env (k v : text) (c : Command) : Command :=
  with_env (env_cleared c) (<[k := Some v]> (env_vars c)) c.
Definition env_remove (k : text) (c : Command) : Command :=
  if env_cleared c then with_env true (delete k (env_vars c)) c
  else with_env false (<[k := None]> (env_vars c)) c.
Definition env_clear (c : Command) : Command := with_env true ∅ c.
Definition envs_from (m : gmap text text) (c : Command) : Command :=
  with_env (env_cleared c) ((Some <$> m) ∪ env_vars c) c.

(** [get_envs]: what was set or removed, not whether the rest is inherited. *)
Definition get_envs (c : Command) : list (text * option text) := map_to_list (env_vars c).

(** The environment the child starts with. *)
Definition child_env (parent : gmap text text) (c : Command) : gmap text text :=
  merge (fun v inherited => match v with Some set => set | None => inherited end)
        (env_vars c) (if env_cleared c then ∅ else parent).

(** ** Profiles *)

Record OsSandboxProfile := {
  readable_roots : list text;
  writable_roots : list text;
  network : bool;
  sandboxed : bool;
}.

Definition from_mode (mode : SandboxMode) (roots : list text) (network_access : bool) : OsSandboxProfile :=
  let '(readable, writable, boxed) :=
    match mode with
    | ReadOnly => (roots, [], true)
    | WorkspaceWrite | Ask => (roots, roots, true)
    | DangerFullAccess => ([], [], false)
    end in
  {| readable_roots := readable; writable_roots := writable; network := network_access; sandboxed := boxed |}.

Definition DENIAL_KEYWORDS : list string :=
  ["operation not permitted"; "permission denied"; "read-only file system"; "sandbox"; "landlock";
   "seccomp"; "failed to write file"]%string.

(** [to_lowercase] against ASCII keywords: the Kelvin sign and the dotted
    capital I are the only other characters with an ASCII letter in their
    lower case. *)
Definition lower_char (c : char) : text :=
  if (c =? 8490)%N then [107]%N
  else if (c =? 304)%N then [105; 775]%N
  else [ascii_lower c].

Definition is_likely_sandbox_denied (exit_code : option Z) (stderr : text) : bool :=
  match exit_code with
  | Some code => bool_decide (code ∈ [2; 126; 127]%Z) || (code =? 128 + 31)%Z
  | None => false
  end
  || existsb (fun k => contains (flat_map lower_char stderr) (utf8 k)) DENIAL_KEYWORDS.

(** ** Wrapping *)

Inductive OsSandboxError := SandboxUnavailable (reason : text).

(** The environment and the directory of [from] on a new command. *)
Definition copy_envs (vars : list (text * option text)) (c : Command) : Command :=
  fold_left (fun c '(k, v) => match v with Some v => env k v c | None => env_remove k c end) vars c.

Definition copy_dir (dir : option text) (c : Command) : Command :=
  match dir with Some d => current_dir d c | None => c end.

Definition SANDBOX_EXEC : text := utf8 "/usr/bin/sandbox-exec".
Definition BWRAP : text := utf8 "bwrap".

Definition escape_sbpl_path (p : text) : text :=
  replace (replace p [92%N] [92%N; 92%N]) [34%N] [92%N; 34%N].

Definition sbpl_rule (rule filter path : text) : text :=
  utf8 "(allow " ++ rule ++ utf8 " (" ++ filter ++ utf8 " " ++ quoted path ++ utf8 "))" ++ [10%N].

Definition sandbox_exec_profile (profile : OsSandboxProfile) : text :=
  concat (map (fun s => utf8 s ++ [10%N])
    ["(version 1)"; "(deny default)"; "(allow process-exec)"; "(allow process-fork)"; "(allow sysctl-read)";
     "(allow ipc-posix-sem)"; "(allow ipc-posix-shm)"; "(allow mach-lookup)"; "(allow file-read-metadata)"]%string)
  ++ sbpl_rule (utf8 "file-read*") (utf8 "subpath") (utf8 "/")
  ++ concat (map (fun dev => sbpl_rule (utf8 "file-read*") (utf8 "literal") (utf8 dev))
       ["/dev/null"; "/dev/zero"; "/dev/random"; "/dev/urandom"]%string)
  ++ sbpl_rule (utf8 "file-write*") (utf8 "subpath") (utf8 "/private/tmp")
  ++ concat (map (fun root => sbpl_rule (utf8 "file-write*") (utf8 "subpath") (escape_sbpl_path root))
       (writable_roots profile))
  ++ (if network profile then utf8 "(allow network*)" else utf8 "(deny network*)") ++ [10%N].

(** [present]: whether the sandbox's program is installed. *)
Definition wrap_sandbox_exec (present : bool) (cmd : Command) (profile : OsSandboxProfile)
    : result Command OsSandboxError :=
  if negb present then Err (SandboxUnavailable (utf8 "sandbox-exec not found; refusing unsandboxed spawn"))
  else Ok (copy_dir (cmd_dir cmd) (copy_envs (get_envs cmd)
         (args ([utf8 "-p"; sandbox_exec_profile profile; utf8 "--"; program cmd] ++ cmd_args cmd)
               (command_new SANDBOX_EXEC)))).

Definition bind_root (profile : OsSandboxProfile) (root : text) : list text :=
  if existsb (fun w => bool_decide (components w = components root)) (writable_roots profile)
  then [utf8 "--bind"; root; root] else [utf8 "--ro-bind"; root; root].

Definition wrap_bubblewrap (present : bool) (cmd : Command) (profile : OsSandboxProfile) (allow_network : bool)
    : result Command OsSandboxError :=
  if negb present
  then Err (SandboxUnavailable (utf8 "bubblewrap (bwrap) not found; install via: sudo apt install bubblewrap"))
  else
    let options :=
      map utf8 ["--ro-bind"; "/"; "/"; "--dev"; "/dev"; "--proc"; "/proc"; "--unshare-pid";
                "--die-with-parent"; "--new-session"]%string
      ++ (if allow_network then [] else [utf8 "--unshare-net"])
      ++ flat_map (bind_root profile) (readable_roots profile)
      ++ match cmd_dir cmd with Some d => [utf8 "--chdir"; d] | None => [] end in
    Ok (copy_envs (get_envs cmd)
          (args (options ++ [utf8 "--"; program cmd] ++ cmd_args cmd) (command_new BWRAP))).

Inductive Platform := MacOs | Linux | OtherOs.

#[export] Instance Platform_eq_dec : EqDecision Platform.
Proof. solve_decision. Defined.

Definition sandbox_spawn (os : Platform) (present : bool) (cmd : Command) (profile : OsSandboxProfile)
    (allow_network : bool) : result Command OsSandboxError :=
  match os with
  | MacOs => wrap_sandbox_exec present cmd profile
  | Linux => wrap_bubblewrap present cmd profile allow_network
  | OtherOs => Ok cmd
  end.

(** ** The command of [shell.exec] *)

Definition default_scrub : EnvScrubConfig := {| extra_scrub := []; allowlist := [] |}.

(** From the resolved program to the command that is spawned; [parent] is the
    environment of the daemon, [inject] the [env] argument. *)
Definition shell_command (os : Platform) (present : bool) (profile : OsSandboxProfile)
    (parent : list (text * text)) (resolved : text) (argv : list text) (cwd : text) (inject : gmap text text)
    : result Command OsSandboxError :=
  let cmd := current_dir cwd (args argv (command_new resolved)) in
  let scrubbed := scrubbed_env parent inject default_scrub in
  let cmd := envs_from scrubbed (env_clear cmd) in
  if sandboxed profile then sandbox_spawn os present cmd profile (network profile) else Ok cmd.

(** ** What the child sees *)

Lemma child_env_lookup parent c k : child_env parent c !! k =
  match env_vars c !! k with
  | Some v => v
  | None => if env_cleared c then None else parent !! k
  end.
Proof.
  unfold child_env. rewrite lookup_merge. destruct (env_vars c !! k); destruct (env_cleared c);
    rewrite ?lookup_empty; cbn; try done; by destruct (parent !! k).
Qed.

Lemma copy_envs_vars vars c : NoDup vars.*1 -> env_cleared c = false ->
  env_cleared (copy_envs vars c) = false
  /\ env_vars (copy_envs vars c) = (list_to_map vars : gmap text (option text)) ∪ env_vars c.
Proof.
  revert c. induction vars as [|[k v] vars IH]; intros c Hnd Hc; cbn.
  { split; [done|]. by rewrite (left_id_L ∅ (∪)). }
  apply NoDup_cons in Hnd as [Hk Hnd].
  set (c' := match v with Some w => env k w c | None => env_remove k c end).
  assert (Hc' : env_cleared c' = false /\ env_vars c' = <[k := v]> (env_vars c)).
  { subst c'. unfold env_remove, env. rewrite Hc. by destruct v. }
  destruct Hc' as [Hc' Hv]. destruct (IH c' Hnd Hc') as [Hcl Hvs]. split; [done|].
  unfold copy_envs in Hvs. rewrite Hvs, Hv, <- insert_union_r; [by rewrite insert_union_l|].
  by apply not_elem_of_list_to_map_1.
Qed.

Lemma copy_envs_get c c' : env_cleared c' = false -> env_vars c' = ∅ ->
  env_cleared (copy_envs (get_envs c) c') = false /\ env_vars (copy_envs (get_envs c) c') = env_vars c.
Proof.
  intros Hc Hv. destruct (copy_envs_vars (get_envs c) c') as [Hcl Hvs]; [apply NoDup_fst_map_to_list|done|].
  split; [done|]. rewrite Hvs, Hv, (right_id_L ∅ (∪)). apply list_to_map_to_list.
Qed.

(** Wrapping keeps what the command sets, and forgets that it clears. *)
Lemma sandbox_spawn_env os present cmd profile allow w : os <> OtherOs ->
  sandbox_spawn os present cmd profile allow = Ok w ->
  env_cleared w = false /\ env_vars w = env_vars cmd.
Proof.
  intros Hos Hw. destruct os; [| |done]; cbn in Hw.
  - unfold wrap_sandbox_exec in Hw. destruct present; [|done]. injection Hw as <-.
    destruct (copy_envs_get cmd (args ([utf8 "-p"; sandbox_exec_profile profile; utf8 "--"; program cmd]
      ++ cmd_args cmd) (command_new SANDBOX_EXEC))) as [Hc Hv]; [done..|].
    by destruct (cmd_dir cmd).
  - unfold wrap_bubblewrap in Hw. destruct present; [|done]. injection Hw as <-. by apply copy_envs_get.
Qed.

(** The wrapped command of [shell.exec] has forgotten that its environment was
    cleared: every secret-named variable of the parent reaches the child of a
    sandboxed run, and none reaches the child of a run with full access. *)
Theorem sandboxed_child_inherits os present profile parent resolved argv cwd inject w k v :
  os <> OtherOs -> NoDup parent.*1 -> (k, v) ∈ parent -> is_secret_var k default_scrub = true ->
  shell_command os present profile parent resolved argv cwd inject = Ok w ->
  child_env (list_to_map parent) w !! k = (if sandboxed profile then Some v else None).
Proof.
  intros Hos Hnd Hin Hsec Hw. unfold shell_command in Hw. rewrite child_env_lookup.
  set (c := envs_from _ _) in Hw.
  assert (Hk : env_vars c !! k = None).
  { cbn. rewrite (right_id_L ∅ (∪)), lookup_fmap, scrubbed_env_lookup by done.
    rewrite decide_False; [done|]. intros [Hb _]. congruence. }
  destruct (sandboxed profile).
  - destruct (sandbox_spawn_env _ _ _ _ _ _ Hos Hw) as [-> ->]. rewrite Hk. by apply elem_of_list_to_map_1.
  - injection Hw as <-. rewrite Hk. done.
Qed.

Lemma sandboxed_child_inherits_witness :
  let parent := [(utf8 "PATH", utf8 "/bin"); (utf8 "OPENAI_API_KEY", utf8 "sk-1")] in
  exists w, shell_command Linux true (from_mode WorkspaceWrite [utf8 "/ws"] false) parent (utf8 "/usr/bin/env")
    [] (utf8 "/ws") ∅ = Ok w
  /\ child_env (list_to_map parent) w !! utf8 "OPENAI_API_KEY" = Some (utf8 "sk-1").
Proof.
  eexists. split; [reflexivity|].
  apply (sandboxed_child_inherits Linux true (from_mode WorkspaceWrite [utf8 "/ws"] false)
    [(utf8 "PATH", utf8 "/bin"); (utf8 "OPENAI_API_KEY", utf8 "sk-1")]
    (utf8 "/usr/bin/env") [] (utf8 "/ws") ∅); [done| |by right; left|by vm_compute|reflexivity].
  by apply (bool_decide_unpack _).
Defined.
