(* ===== verification/Shell.v ===== *)
(** * [shell.exec]

    Models [crates/zen-plugin/src/tools/shell_exec.rs]: the decomposition of an
    embedded [sh -c] string into commands, the scans of each command, the gates
    of the handler and what it spawns.  The scanner walks an array of
    characters by index; here an index is the text that is left from it.  The
    crates [shlex], [glob] and [which] are the classes [Shlex], [Glob] and a
    field of [Host]; [Host] is also the process that runs. *)

From S2P Require Import Prelude Json Text Secrets Sandbox OsSandbox TaskRegistry.
From Stdlib Require Import Lia.
Local Open Scope list_scope.

(** ** Characters *)

Definition SQ : char := 39%N.
Definition DQ : char := 34%N.
Definition BS : char := 92%N.
Definition BT : char := 96%N.
Definition DOLLAR : char := 36%N.
Definition LPAR : char := 40%N.
Definition RPAR : char := 41%N.
Definition LESS : char := 60%N.
Definition GREATER : char := 62%N.
Definition SEMI : char := 59%N.
Definition AMP : char := 38%N.
Definition PIPE : char := 124%N.
Definition LF : char := 10%N.
Definition CR : char := 13%N.

Definition DEFAULT_TIMEOUT_MS : N := 30000.
Definition MIN_TIMEOUT_MS : N := 1000.
Definition MAX_TIMEOUT_MS : N := 600000.
Definition MAX_OUTPUT_CHARS : nat := 10000.
Definition SHELL_BINARIES : list text := map utf8 ["sh"; "bash"; "zsh"; "dash"]%string.
Definition MAX_SUBSTITUTION_DEPTH : nat := 16.

(** ** Third-party lexing *)

(** [shlex::split]. *)
Class Shlex := shlex_split : text -> option (list text).

(** [glob::Pattern::new] and [matches]: [None] when the pattern does not
    compile. *)
Class Glob := glob_matches : text -> option (text -> bool).

(** ** Decomposition *)

Record CompoundSegment := { seg_text : text; tokens : list text }.

(** [scan_backtick], after the opening backtick: the body, and what follows the
    closing one. *)
Fixpoint scan_backtick (t : text) : option (text * text) :=
  match t with
  | [] => None
  | c :: t1 =>
    if (c =? BS)%N then
      match t1 with
      | [] => None
      | d :: t2 => '(inner, rest) ← scan_backtick t2; Some (c :: d :: inner, rest)
      end
    else if (c =? BT)%N then Some ([], t1)
    else '(inner, rest) ← scan_backtick t1; Some (c :: inner, rest)
  end.

(** [scan_dollar_paren], after the opening parenthesis; [depth] is one less
    than the source's.  One unit of fuel per character read. *)
Fixpoint scan_dollar_paren (fuel : nat) (depth : nat) (quote : option char) (t : text)
    : outcome (option (text * text)) :=
  match fuel with
  | O => OutOfFuel
  | S f =>
    let read (taken : text) (depth' : nat) (quote' : option char) (rest : text) :=
      let! r := scan_dollar_paren f depth' quote' rest in
      Done ('(inner, rest') ← r; Some (taken ++ inner, rest')) in
    match t with
    | [] => Done None
    | c :: t1 =>
      let escaped rest := match rest with [] => Done None | d :: t2 => read [c; d] depth quote t2 end in
      match quote with
      | Some q =>
        if (q =? SQ)%N then read [c] depth (if (c =? SQ)%N then None else quote) t1
        else if (c =? BS)%N then escaped t1
        else read [c] depth (if (c =? DQ)%N then None else quote) t1
      | None =>
        if (c =? SQ)%N || (c =? DQ)%N then read [c] depth (Some c) t1
        else if (c =? BS)%N then escaped t1
        else if (c =? BT)%N then
          match scan_backtick t1 with
          | Some (inner, rest) => read ([BT] ++ inner ++ [BT]) depth None rest
          | None => Done None
          end
        else if (c =? LPAR)%N then read [c] (S depth) None t1
        else if (c =? RPAR)%N then
          match depth with
          | O => Done (Some ([], t1))
          | S d => read [c] d None t1
          end
        else read [c] depth None t1
      end
    end
  end.

Inductive QuoteState := Plain | Single | Double.

#[export] Instance QuoteState_eq_dec : EqDecision QuoteState.
Proof. solve_decision. Defined.


Section shell.
Context `{Shlex, Glob, FileSystem}.

(** [flush_segment], which clears [current]. *)
Definition flush_segment (segments : list CompoundSegment) (current : text) : option (list CompoundSegment) :=
  let raw := trim current in
  if bool_decide (raw = []) then Some segments
  else toks ← shlex_split raw; Some (segments ++ [{| seg_text := raw; tokens := toks |}]).

Definition next_is (t : text) (c : char) : bool :=
  match t with d :: _ => (d =? c)%N | [] => false end.

(** The loop of [decompose_chars]; the two flags of the source, never both
    set, are the [QuoteState].  One unit of fuel per character. *)
Fixpoint decompose_loop (fuel : nat) (depth : nat) (st : QuoteState) (segments : list CompoundSegment)
    (current t : text) : outcome (option (list CompoundSegment)) :=
  match fuel with
  | O => OutOfFuel
  | S f =>
    match t with
    | [] =>
      match st with
      | Plain => Done (flush_segment segments current)
      | _ => Done None
      end
    | c :: t1 =>
      let push st' := decompose_loop f depth st' segments (current ++ [c]) t1 in
      let escaped after :=
        match after with
        | [] => Done None
        | d :: t2 => decompose_loop f depth st segments (current ++ [c; d]) t2
        end in
      let flush rest :=
        match flush_segment segments current with
        | Some segments' => decompose_loop f depth Plain segments' [] rest
        | None => Done None
        end in
      let substitution body whole rest :=
        let! inner := (if (MAX_SUBSTITUTION_DEPTH <? S depth)%nat then Done None
                       else decompose_loop f (S depth) Plain [] [] body) in
        match inner with
        | Some segs => decompose_loop f depth st (segments ++ segs) (current ++ whole) rest
        | None => Done None
        end in
      let backtick after :=
        match scan_backtick after with
        | Some (body, rest) => substitution body ([BT] ++ body ++ [BT]) rest
        | None => Done None
        end in
      let dollar after :=
        if next_is (drop 1 after) LPAR then Done None
        else
          let! r := scan_dollar_paren f 0 None (drop 1 after) in
          match r with
          | Some (body, rest) => substitution body ([DOLLAR; LPAR] ++ body ++ [RPAR]) rest
          | None => Done None
          end in
      match st with
      | Single => push (if (c =? SQ)%N then Plain else Single)
      | Double =>
        if (c =? BS)%N then escaped t1
        else if (c =? DQ)%N then push Plain
        else if (c =? BT)%N then backtick t1
        else if (c =? DOLLAR)%N && next_is t1 LPAR then dollar t1
        else push Double
      | Plain =>
        if (c =? SQ)%N then push Single
        else if (c =? DQ)%N then push Double
        else if (c =? BS)%N then escaped t1
        else if (c =? BT)%N then backtick t1
        else if (c =? DOLLAR)%N && next_is t1 LPAR then dollar t1
        else if (c =? LESS)%N && next_is t1 LESS then Done None
        else if ((c =? LESS)%N || (c =? GREATER)%N) && next_is t1 LPAR then Done None
        else if (c =? LF)%N || (c =? CR)%N || (c =? SEMI)%N then flush t1
        else if (c =? AMP)%N then
          if next_is t1 AMP then flush (drop 1 t1)
          else if ends_with (trim_end current) [GREATER] || next_is t1 GREATER then push Plain
          else flush t1
        else if (c =? PIPE)%N then flush (if next_is t1 PIPE then drop 1 t1 else t1)
        else push Plain
      end
    end
  end.

Definition decompose_compound (cmd : text) : outcome (option (list CompoundSegment)) :=
  decompose_loop (S (length cmd)) 0 Plain [] [] cmd.

(** ** Embedded shells *)

(** Position of the first element that satisfies a test. *)
Definition first_index {A} (f : A -> bool) (l : list A) : option nat := fst <$> list_find (fun x => f x = true) l.

Definition is_c_cluster (arg : text) : bool :=
  match arg with
  | dash :: cluster =>
    (dash =? 45)%N && negb (bool_decide (cluster = [])) && negb (next_is cluster 45%N)
    && contains cluster (utf8 "c")
  | [] => false
  end.

Definition shell_command_string (binary : text) (argv : list text) : option text :=
  shell ← file_name (components binary);
  if negb (bool_decide (shell ∈ SHELL_BINARIES)) then None
  else flag ← first_index is_c_cluster argv; argv !! (flag + 1).

(** ** Scans of one command *)

(** Why a command is denied, one constructor for each message. *)
Inductive denial :=
  | OutsideQuotes | InsideDoubleQuotes | EvalWord | Gated (reason : text) | Refused (r : refusal).

(** The loop of [unquoted_expansion_reason]. *)
Fixpoint expansion_from (st : QuoteState) (t : text) : option denial :=
  match t with
  | [] => None
  | c :: t1 =>
    match st with
    | Plain =>
      if (c =? SQ)%N then expansion_from Single t1
      else if (c =? DQ)%N then expansion_from Double t1
      else if (c =? DOLLAR)%N || (c =? BT)%N then Some OutsideQuotes
      else if (c =? BS)%N then match t1 with [] => None | _ :: t2 => expansion_from Plain t2 end
      else expansion_from Plain t1
    | Single => expansion_from (if (c =? SQ)%N then Plain else Single) t1
    | Double =>
      if (c =? DQ)%N then expansion_from Plain t1
      else if (c =? BS)%N then match t1 with [] => None | _ :: t2 => expansion_from Double t2 end
      else if (c =? DOLLAR)%N || (c =? BT)%N then Some InsideDoubleQuotes
      else expansion_from Double t1
    end
  end.
Definition unquoted_expansion_reason (t : text) : option denial := expansion_from Plain t.

(** The loop of [unquoted_remainder]: the unquoted characters and the state at
    the end. *)
Fixpoint remainder_from (st : QuoteState) (t : text) : text * QuoteState :=
  match t with
  | [] => ([], st)
  | c :: t1 =>
    let keep '(out, final) := (c :: out, final) in
    match st with
    | Plain =>
      if (c =? SQ)%N then remainder_from Single t1
      else if (c =? DQ)%N then remainder_from Double t1
      else keep (remainder_from Plain t1)
    | Single => remainder_from (if (c =? SQ)%N then Plain else Single) t1
    | Double =>
      if (c =? DQ)%N then remainder_from Plain t1
      else if (c =? BS)%N then match t1 with [] => ([], Double) | _ :: t2 => remainder_from Double t2 end
      else remainder_from Double t1
    end
  end.
Definition unquoted_remainder (t : text) : text :=
  let '(out, final) := remainder_from Plain t in
  if bool_decide (final = Plain) then out else t.

Definition EQUALS : char := 61%N.
Definition DASH : char := 45%N.

Definition protected_path_candidate (token : text) : option text :=
  let value :=
    match split_once EQUALS token with
    | Some (flag, value) => if next_is flag DASH then value else token
    | None => token
    end in
  if bool_decide (value = []) then None
  else if is_metadata_path (components value) then Some value
  else None.

(** [true] when the token is rejected. *)
Definition glob_protected_rejection (token : text) : bool :=
  if negb (contains token [47%N] || next_is token 126%N) then false
  else existsb (fun component =>
         match glob_matches (name_of component) with
         | Some matches => existsb matches PROTECTED_PATHS
         | None => true
         end) (components token).

(** ** The gate of an embedded command *)

Record ShellExecTool := {
  workspace_root : text;
  sandbox_validator : SandboxValidator;
  sandbox_profile : OsSandboxProfile;
}.

(** The errors, one constructor for each message. *)
Inductive ShellError :=
  | MissingBinary | EmptyBinary | BackgroundType | BackgroundStdin | BinaryNotFound (binary : text)
  | InvalidCwd (r : refusal) | EnvWithShell | SegmentDenied (segment : text) (why : denial)
  | GlobProtected | ArgRejected (arg : text) (r : refusal) | SandboxFailed (e : OsSandboxError)
  | SpawnRefused | WaitRefused.

Definition NAME : string := "shell.exec".

Context {V : Type} `{Json V}.

Definition segment_gate (tool : ShellExecTool) : SeatbeltPolicy :=
  let mode := if sandboxed (sandbox_profile tool) then WorkspaceWrite else DangerFullAccess in
  {| sp_mode := mode; sp_roots := map components (readable_roots (sandbox_profile tool));
     timeout_secs := 300; arg_registry := register_tool_args NAME [] ["binary"%string] ∅ |}.

(** The blocked-command check on the unquoted remainder. *)
Definition gate_remainder (tool : ShellExecTool) (segment : CompoundSegment) : result unit ShellError :=
  let unquoted := unquoted_remainder (seg_text segment) in
  if bool_decide (unquoted = []) then Ok tt
  else
    match validate_invocation (segment_gate tool)
            {| ti_name := NAME; ti_args := j_obj [("binary"%string, j_str (to_string unquoted))] |} with
    | Terminate reason => Err (SegmentDenied (seg_text segment) (Gated reason))
    | Continue => Ok tt
    end.

Definition is_flag (token : text) : bool := next_is token DASH && (1 <? str_len token)%nat.

(** The loop over the tokens. *)
Fixpoint scan_tokens (tool : ShellExecTool) (segment : CompoundSegment) (prev_was_flag : bool)
    (toks : list text) : result unit ShellError :=
  match toks with
  | [] => Ok tt
  | token :: rest =>
    let flag := is_flag token in
    let is_flag_value := prev_was_flag && negb flag && negb (contains token [EQUALS]) in
    if is_flag_value then scan_tokens tool segment flag rest
    else
      match protected_path_candidate token with
      | None =>
        if glob_protected_rejection token then Err GlobProtected
        else scan_tokens tool segment flag rest
      | Some path =>
        match validate_path_for_read (sandbox_validator tool) (components path) with
        | Err reason => Err (SegmentDenied (seg_text segment) (Refused reason))
        | Ok _ => scan_tokens tool segment flag rest
        end
      end
  end.

Definition validate_segment (tool : ShellExecTool) (segment : CompoundSegment) : result unit ShellError :=
  if bool_decide (seg_text segment = []) then Ok tt
  else
    match unquoted_expansion_reason (seg_text segment) with
    | Some why => Err (SegmentDenied (seg_text segment) why)
    | None =>
      if bool_decide (utf8 "eval" ∈ tokens segment) then Err (SegmentDenied (seg_text segment) EvalWord)
      else
        let? _ := gate_remainder tool segment in
        scan_tokens tool segment false (tokens segment)
    end.

Fixpoint validate_segments (tool : ShellExecTool) (segments : list CompoundSegment) : result unit ShellError :=
  match segments with
  | [] => Ok tt
  | segment :: rest => let? _ := validate_segment tool segment in validate_segments tool rest
  end.

Definition rough_tokens (command : text) : list text :=
  default (split_whitespace command) (shlex_split command).

Definition validate_embedded_command (tool : ShellExecTool) (command : text)
    : outcome (result unit ShellError) :=
  let! decomposed := decompose_compound command in
  let segments :=
    match decomposed with
    | Some segments => segments
    | None => [{| seg_text := trim command; tokens := rough_tokens command |}]
    end in
  Done (validate_segments tool segments).
End shell.

(** ** The handlers of the shell tools

    Models the [invoke] methods of [shell.exec], [shell.collect] and
    [shell.kill] in [crates/zen-plugin/src/tools], with the helpers they use of
    [task_registry.rs].  What a handler asks of the process it lives in is the
    class [Host]: the environment, the sandbox's program, the run of a child.
    The polls of [shell.collect] are the list of worlds it sees. *)

(** How a child ends; its output is decoded, after the cap of the readers. *)
Inductive child_run :=
  | NotSpawned | NotWaited
  | Finished (code : option Z) (stdout stderr : text) (elapsed_ms : N)
  | Expired (stdout stderr : text).

Class Host := {
  which : text -> option text;
  parent_env : list (text * text);
  platform : Platform;
  sandbox_present : bool;
  host_user_root : text;
  background_limits : BackgroundLimits;   (* configured, or the defaults *)
  session_scope : string;
  tasks_root : string;
  run_child : Command -> option text -> N -> child_run;
  read_capture : string -> text;
}.

(** *** Helpers of the registry's module *)

Definition truncate_char_safe (t : text) (max_chars : nat) : text := take max_chars t.
Definition tail_chars (t : text) (max_chars : nat) : text :=
  if (length t <=? max_chars)%nat then t else drop (length t - max_chars) t.

Definition make_command_digest (binary : text) (argv : list text) : text :=
  truncate_char_safe (fold_left (fun digest arg => digest ++ [32%N] ++ arg) argv binary) 80.

Definition COLLECT_TAIL_CHARS : nat := 8000.
Definition COLLECT_INLINE_CHARS : nat := 4000.
Definition COLLECT_DEFAULT_WAIT_MS : N := 10000.
Definition MAX_WAIT_MS : N := 30000.

Section handlers.
Context `{Shlex, Glob, FileSystem, Host} {V : Type} `{Json V}.

(** *** [shell.exec] *)

Definition resolve_binary (binary : text) : result text ShellError :=
  if is_absolute (components binary) then Ok binary
  else match which binary with Some path => Ok path | None => Err (BinaryNotFound binary) end.

(** The string elements of an array argument. *)
Definition string_elems (v : V) : option (list text) :=
  (fun l : list V => omap (fun e : V => utf8 <$> j_as_str e) l) <$> j_as_array v.

Definition argv_of (args : V) : list text := default [] (j_get args "args" ≫= string_elems).

Definition cwd_of (tool : ShellExecTool) (args : V) : text :=
  match j_get args "cwd" ≫= j_as_str with
  | Some cwd => utf8 cwd
  | None => if bool_decide (workspace_root tool = []) then host_user_root else workspace_root tool
  end.

Definition clamp (lo hi n : N) : N := N.max lo (N.min hi n).
Definition timeout_of (args : V) : N :=
  clamp MIN_TIMEOUT_MS MAX_TIMEOUT_MS (default DEFAULT_TIMEOUT_MS (j_get args "timeout_ms" ≫= j_as_u64)).

Definition background_of (args : V) : result bool ShellError :=
  match j_get args "background" with
  | None => Ok false
  | Some v =>
    if j_is_null v then Ok false
    else match j_as_bool v with Some b => Ok b | None => Err BackgroundType end
  end.

Definition inject_of (args : V) : gmap text text :=
  match j_get args "env" ≫= j_as_object with
  | Some fields => list_to_map (omap (fun '(k, v) => s ← j_as_str v; Some (utf8 k, utf8 s)) fields)
  | None => ∅
  end.

Definition injects_env (args : V) : bool :=
  match j_get args "env" ≫= j_as_object with Some (_ :: _) => true | _ => false end.

(** The scan of direct arguments. *)
Fixpoint scan_args (tool : ShellExecTool) (argv : list text) : result unit ShellError :=
  match argv with
  | [] => Ok tt
  | arg :: rest =>
    match protected_path_candidate arg with
    | None => scan_args tool rest
    | Some path =>
      match validate_path_for_read (sandbox_validator tool) (components path) with
      | Err r => Err (ArgRejected arg r)
      | Ok _ => scan_args tool rest
      end
    end
  end.

Definition scan_invocation (tool : ShellExecTool) (binary : text) (argv : list text) (args : V)
    : outcome (result unit ShellError) :=
  match shell_command_string binary argv with
  | Some embedded =>
    if injects_env args then Done (Err EnvWithShell) else validate_embedded_command tool embedded
  | None => Done (scan_args tool argv)
  end.

(** What passes the gates: the command to spawn and how. *)
Record Prepared := {
  p_binary : text;
  p_argv : list text;
  p_command : Command;
  p_stdin : option text;
  p_timeout : N;
  p_background : bool;
  p_timeout_supplied : bool;
}.

Definition prepare (tool : ShellExecTool) (args : V) : outcome (result Prepared ShellError) :=
  match j_get args "binary" ≫= j_as_str with
  | None => Done (Err MissingBinary)
  | Some b =>
    let binary := utf8 b in
    if bool_decide (trim binary = []) then Done (Err EmptyBinary)
    else
      let argv := argv_of args in
      let cwd := cwd_of tool args in
      let stdin := utf8 <$> (j_get args "stdin" ≫= j_as_str) in
      match background_of args with
      | Err e => Done (Err e)
      | Ok background =>
        if background && bool_decide (is_Some stdin) then Done (Err BackgroundStdin)
        else
          match resolve_binary binary with
          | Err e => Done (Err e)
          | Ok resolved =>
            match validate_path_for_read (sandbox_validator tool) (components cwd) with
            | Err r => Done (Err (InvalidCwd r))
            | Ok _ =>
              let! scanned := scan_invocation tool binary argv args in
              Done (
                let? _ := scanned in
                match shell_command platform sandbox_present (sandbox_profile tool) parent_env
                        resolved argv cwd (inject_of args) with
                | Err e => Err (SandboxFailed e)
                | Ok command =>
                  Ok {| p_binary := binary; p_argv := argv; p_command := command; p_stdin := stdin;
                        p_timeout := timeout_of args; p_background := background;
                        p_timeout_supplied := bool_decide (is_Some (j_get args "timeout_ms" ≫= j_as_u64)) |}
                end)
            end
          end
      end
  end.

Definition truncate_output (t : text) : text := take MAX_OUTPUT_CHARS t.

Definition denied_hint : string :=
  "sandbox denied this command. escalate: retry with --sandbox danger-full-access, or use ask-for-approval".

(** The foreground path, from the spawn on. *)
Definition run_foreground (p : Prepared) : result V ShellError :=
  match run_child (p_command p) (p_stdin p) (p_timeout p) with
  | NotSpawned => Err SpawnRefused
  | NotWaited => Err WaitRefused
  | Finished code stdout stderr elapsed =>
    let err := truncate_output stderr in
    let denied := is_likely_sandbox_denied code err in
    Ok (j_obj [("exit_code", j_int (default (-1)%Z code));
               ("stdout", j_str (to_string (truncate_output stdout)));
               ("stderr", j_str (to_string err));
               ("timed_out", j_bool false);
               ("duration_ms", j_int (Z.of_N elapsed));
               ("sandbox_denied", j_bool denied);
               ("hint", if denied then j_str denied_hint else j_null)]%string)
  | Expired stdout stderr =>
    Ok (j_obj [("exit_code", j_int (-1));
               ("stdout", j_str (to_string (truncate_output stdout)));
               ("stderr", j_str (to_string (truncate_output stderr)));
               ("timed_out", j_bool true);
               ("duration_ms", j_int (Z.of_N (p_timeout p)));
               ("sandbox_denied", j_bool false)]%string)
  end.

Definition background_note (timeout_supplied : bool) : string :=
  ("running in background; poll with shell.collect(task_id), stop with shell.kill(task_id)"
   ++ if timeout_supplied
      then "; timeout_ms ignored for background tasks — the [agentic.background] max_wall_secs deadline governs"
      else "")%string.

Definition spawn_background_task (tid : string) (os : spawn_answer) (now : Z) (p : Prepared) (r : registry)
    : V * registry :=
  let '(spawned, r') :=
    spawn_background tasks_root tid os session_scope
      (to_string (make_command_digest (p_binary p) (p_argv p))) background_limits now r in
  match spawned with
  | Ok s =>
    (j_obj [("task_id", j_str (task_id s)); ("status", j_str (as_str (status s)));
            ("output_dir", j_str (output_dir s));
            ("stdout_path", j_str (meta_stdout_path (output_dir s)));
            ("stderr_path", j_str (meta_stderr_path (output_dir s)));
            ("note", j_str (background_note (p_timeout_supplied p)))]%string, r')
  | Err e => (j_obj [("error", j_str e)]%string, r')
  end.

Definition shell_exec_invoke (tool : ShellExecTool) (tid : string) (os : spawn_answer) (now : Z) (args : V)
    (r : registry) : outcome (result V ShellError * registry) :=
  let! prepared := prepare tool args in
  Done (match prepared with
        | Err e => (Err e, r)
        | Ok p =>
          if p_background p then
            let '(v, r') := spawn_background_task tid os now p r in (Ok v, r')
          else (run_foreground p, r)
        end).

(** *** [shell.kill] and [shell.collect] *)

Inductive TaskToolError := MissingTaskId | InvalidTaskId (tid : string).

Definition task_id_of (args : V) : result string TaskToolError :=
  match j_get args "task_id" ≫= j_as_str with
  | None => Err MissingTaskId
  | Some tid =>
    if bool_decide (trim (utf8 tid) = []) then Err MissingTaskId
    else if is_valid_task_id tid then Ok tid
    else Err (InvalidTaskId tid)
  end.

Definition unknown_task (tid : string) : V :=
  j_obj [("error", j_str ("unknown task_id " ++ tid
                           ++ ": no registry entry and no meta.json under logs/tasks/"))]%string.

(** [write_ok]: whether the rewrite of [meta.json] succeeds. *)
Definition shell_kill_invoke (args : V) (now : Z) (write_ok : bool) (r : registry) (d : gmap string meta_file)
    : result V TaskToolError * registry * gmap string meta_file :=
  match task_id_of args with
  | Err e => (Err e, r, d)
  | Ok tid =>
    match kill tid now r with
    | (Ok s, r') =>
      (Ok (j_obj [("task_id", j_str (task_id s)); ("status", j_str (as_str (status s)));
                  ("pid", j_int (Z.of_N (pid s)));
                  ("note", j_str "SIGTERM sent to the process group; SIGKILL escalates after 3s if the group is still alive")]%string),
       r', d)
    | (Err _, r') =>
      match mark_meta_status d tid Killed now write_ok with
      | (Some m, d') =>
        (Ok (j_obj [("task_id", j_str (task_id (m_snapshot m))); ("status", j_str (as_str (status (m_snapshot m))));
                    ("pid", j_int (Z.of_N (pid (m_snapshot m))));
                    ("note", j_str "task not in the registry (daemon restart?); meta.json marked killed, no signal sent (pid-reuse guard)")]%string),
         r', d')
      | (None, d') => (Ok (unknown_task tid), r', d')
      end
    end
  end.

(** [meta_capture_paths_are_safe]. *)
Definition capture_path_is_safe (expected : path) (raw : string) : bool :=
  let p := components (utf8 raw) in
  is_absolute p
  && negb (existsb (fun c => bool_decide (c = ParentDir) || bool_decide (c = CurDir)) p)
  && match file_name p, parent p ≫= canonicalize with
     | Some n, Some c =>
       (bool_decide (n = utf8 "stdout") || bool_decide (n = utf8 "stderr"))
       && bool_decide (c = expected)
       && match canonicalize p with
          | Some file => bool_decide (file = expected ++ [Normal n])
          | None => true
          end
     | _, _ => false
     end.

Definition meta_capture_paths_are_safe (tid : string) (m : TaskMeta) : bool :=
  match parent (components (utf8 (meta_path tasks_root tid))) ≫= canonicalize with
  | Some expected => capture_path_is_safe expected (stdout_path m) && capture_path_is_safe expected (stderr_path m)
  | None => false
  end.

Definition stream_view (t : text) (inline_key tail_key : string) : string * V :=
  if (length t <=? COLLECT_INLINE_CHARS)%nat then (inline_key, j_str (to_string t))
  else (tail_key, j_str (to_string (tail_chars t COLLECT_TAIL_CHARS))).

(** [render]: the fields of the answer. *)
Definition render (tid : string) (s : TaskSnapshot) (stdout stderr : text) : list (string * V) :=
  [("task_id", j_str tid); ("status", j_str (as_str (status s)));
   ("bytes_stdout", j_int (Z.of_N (bytes_stdout s))); ("bytes_stderr", j_int (Z.of_N (bytes_stderr s)));
   ("truncated", j_bool (truncated s)); ("output_path", j_str (output_dir s))]%string
  ++ match status s with Completed code => [("exit_code"%string, j_int code)] | _ => [] end
  ++ [stream_view stdout "stdout" "stdout_tail"; stream_view stderr "stderr" "stderr_tail"].

Definition wait_of (args : V) : N :=
  N.min MAX_WAIT_MS (default COLLECT_DEFAULT_WAIT_MS (j_get args "wait_ms" ≫= j_as_u64)).

(** What one poll sees: the registry and the disk. *)
Abbreviation world := (registry * gmap string meta_file)%type.

Definition render_snapshot (tid : string) (s : TaskSnapshot) : list (string * V) :=
  render tid s (read_capture (meta_stdout_path (output_dir s))) (read_capture (meta_stderr_path (output_dir s))).
Definition render_meta (tid : string) (m : TaskMeta) : list (string * V) :=
  render tid (m_snapshot m) (read_capture (stdout_path m)) (read_capture (stderr_path m)).
Definition corrupt_meta (tid : string) : V :=
  j_obj [("error", j_str ("corrupt meta for task " ++ tid ++ ": recorded capture " ++
          "paths escape the task output dir; refusing to read"))]%string.

(** One turn of the loop: [None] to poll again. *)
Definition collect_poll (tid : string) (w : world) : option V :=
  match snapshot tid w.1 with
  | Some s => if is_terminal (status s) then Some (j_obj (render_snapshot tid s)) else None
  | None =>
    match read_meta w.2 tid with
    | Some m =>
      if is_terminal (status (m_snapshot m)) then
        if meta_capture_paths_are_safe tid m then Some (j_obj (render_meta tid m))
        else Some (corrupt_meta tid)
      else None
    | None => Some (unknown_task tid)
    end
  end.

Definition still_note (s : TaskSnapshot) (wait_ms : N) (restarted : bool) : string :=
  ("still " ++ as_str (status s) ++ " after waiting " ++ pretty wait_ms ++ "ms"
   ++ (if restarted then " (registry entry gone — daemon restart?)" else "")
   ++ "; call shell.collect again later")%string.

(** After the deadline. *)
Definition collect_final (tid : string) (wait_ms : N) (w : world) : V :=
  match snapshot tid w.1 with
  | Some s => j_obj (render_snapshot tid s ++ [("note"%string, j_str (still_note s wait_ms false))])
  | None =>
    match read_meta w.2 tid with
    | Some m =>
      if meta_capture_paths_are_safe tid m
      then j_obj (render_meta tid m ++ [("note"%string, j_str (still_note (m_snapshot m) wait_ms true))])
      else corrupt_meta tid
    | None => unknown_task tid
    end
  end.

(** [polls]: the worlds seen until the deadline; [final]: the one after it. *)
Fixpoint collect_loop (tid : string) (wait_ms : N) (polls : list world) (final : world) : V :=
  match polls with
  | [] => collect_final tid wait_ms final
  | w :: rest =>
    match collect_poll tid w with
    | Some v => v
    | None => collect_loop tid wait_ms rest final
    end
  end.

(** The loop polls once whatever the deadline. *)
Definition shell_collect_invoke (args : V) (first : world) (polls : list world) (final : world)
    : result V TaskToolError :=
  match task_id_of args with
  | Err e => Err e
  | Ok tid => Ok (collect_loop tid (wait_of args) (first :: polls) final)
  end.
End handlers.
