(* ===== verification/ShellProps.v ===== *)
(** * The gates of [shell.exec]

    The scanner always ends and loses nothing; an embedded command that is
    accepted has no live expansion anywhere; what is spawned has passed every
    gate.  The quoting rules are the automaton [lex_step], which has no
    comments, like the scanner. *)

From S2P Require Import Prelude Json Text Secrets SecretsStream Sandbox SandboxProps OsSandbox TaskRegistry Shell.
From Stdlib Require Import Lia.
Local Open Scope list_scope.

(** ** The scanners end *)

Lemma scan_backtick_body t body rest : scan_backtick t = Some (body, rest) -> t = body ++ BT :: rest.
Proof.
  revert body rest. induction t as [t IH] using (induction_ltof1 _ (@length char)); unfold ltof in IH.
  intros body rest Hs. destruct t as [|c t1]; [done|]. simpl in Hs.
  destruct (c =? BS)%N eqn:Hc.
  - destruct t1 as [|d t2]; [done|]. destruct (scan_backtick t2) as [[b r]|] eqn:Ht; [|done]. simplify_eq/=.
    by rewrite <- (IH t2) by (simpl; lia || done).
  - destruct (c =? BT)%N eqn:Hb; [apply N.eqb_eq in Hb; by simplify_eq/=|].
    destruct (scan_backtick t1) as [[b r]|] eqn:Ht; [|done]. simplify_eq/=.
    by rewrite <- (IH t1) by (simpl; lia || done).
Qed.

Lemma obind_Done {A B} (o : outcome A) (f : A -> outcome B) b :
  obind o f = Done b -> exists a, o = Done a /\ f a = Done b.
Proof. destruct o; cbn; intros; [eauto|done|done]. Qed.

(** Where a closing parenthesis is found, the text is the body, the parenthesis
    and the rest; the scan ends when it has fuel for every character. *)
Lemma scan_dollar_paren_body fuel depth quote t body rest :
  scan_dollar_paren fuel depth quote t = Done (Some (body, rest)) -> t = body ++ RPAR :: rest.
Proof.
  revert depth quote t body rest. induction fuel as [|f IH]; intros depth quote t body rest Hs; [done|].
  assert (Hread : forall taken d q t', (let! r := scan_dollar_paren f d q t' in
      Done ('(inner, rest') ← r; Some (taken ++ inner, rest'))) = Done (Some (body, rest)) ->
      taken ++ t' = body ++ RPAR :: rest).
  { intros taken d q t' Hr. destruct (scan_dollar_paren f d q t') as [[[b r]|]| |] eqn:He; simplify_eq/=.
    apply IH in He as ->. by rewrite (assoc_L (++)). }
  cbn in Hs. destruct t as [|c t1]; [done|].
  assert (Hesc : forall d q, match t1 with [] => Done None | e :: t2 => let! r := scan_dollar_paren f d q t2 in
      Done ('(inner, rest') ← r; Some ([c; e] ++ inner, rest')) end = Done (Some (body, rest)) ->
      c :: t1 = body ++ RPAR :: rest).
  { intros d q Hr. destruct t1 as [|e t2]; [done|]. by apply (Hread [c; e]) in Hr. }
  destruct quote as [q|].
  - repeat case_match; try (by eapply Hesc); by apply (Hread [c]) in Hs.
  - destruct ((c =? SQ)%N || (c =? DQ)%N); [by apply (Hread [c]) in Hs|].
    destruct (c =? BS)%N; [by eapply Hesc|].
    destruct (c =? BT)%N eqn:Hb.
    { apply N.eqb_eq in Hb as ->. destruct (scan_backtick t1) as [[i r]|] eqn:Ht; [|done].
      apply scan_backtick_body in Ht as ->. apply (Hread ([BT] ++ i ++ [BT])) in Hs. rewrite <- Hs. simpl. by rewrite <- (assoc_L (++)). }
    destruct (c =? LPAR)%N; [by apply (Hread [c]) in Hs|].
    destruct (c =? RPAR)%N eqn:Hp; [|by apply (Hread [c]) in Hs].
    apply N.eqb_eq in Hp as ->. destruct depth; [by simplify_eq/=|by apply (Hread [RPAR]) in Hs].
Qed.

Lemma scan_dollar_paren_total fuel depth quote t : length t < fuel ->
  exists r, scan_dollar_paren fuel depth quote t = Done r.
Proof.
  revert depth quote t. induction fuel as [|f IH]; intros depth quote t Hf; [lia|].
  cbn -[app]. destruct t as [|c t1]; [eauto|]. simpl in Hf.
  assert (Hread : forall taken d q t', length t' < f -> exists r, (let! r := scan_dollar_paren f d q t' in
      Done ('(inner, rest') ← r; Some (taken ++ inner, rest'))) = Done r).
  { intros taken d q t' Ht. destruct (IH d q t' Ht) as [r ->]. cbn. eauto. }
  repeat case_match; eauto with lia; try (apply Hread; simpl in *; lia).
  apply Hread. match goal with Hb : scan_backtick _ = _ |- _ => apply scan_backtick_body in Hb as -> end.
  rewrite length_app in Hf. simpl in Hf. lia.
Qed.

(** ** Quoting

    The states of a POSIX shell's lexer, comments left out. *)

Inductive lex := LPlain | LPlainEsc | LSingle | LDouble | LDoubleEsc.

#[export] Instance lex_eq_dec : EqDecision lex.
Proof. solve_decision. Defined.

Definition lex_step (l : lex) (c : char) : lex :=
  match l with
  | LPlain => if (c =? SQ)%N then LSingle else if (c =? DQ)%N then LDouble
              else if (c =? BS)%N then LPlainEsc else LPlain
  | LSingle => if (c =? SQ)%N then LPlain else LSingle
  | LDouble => if (c =? DQ)%N then LPlain else if (c =? BS)%N then LDoubleEsc else LDouble
  | LPlainEsc => LPlain
  | LDoubleEsc => LDouble
  end.

(** The state in front of the character at [i]. *)
Definition lex_at (t : text) (i : nat) : lex := foldl lex_step LPlain (take i t).

(** A character that the shell expands. *)
Definition expands (l : lex) (c : char) : bool :=
  ((c =? DOLLAR)%N || (c =? BT)%N) && (bool_decide (l = LPlain) || bool_decide (l = LDouble)).

Fixpoint quiet (l : lex) (t : text) : bool :=
  match t with
  | [] => true
  | c :: t' => negb (expands l c) && quiet (lex_step l c) t'
  end.

Definition lex_of (st : QuoteState) : lex :=
  match st with Plain => LPlain | Single => LSingle | Double => LDouble end.

Lemma quiet_app l a b : quiet l (a ++ b) = quiet l a && quiet (foldl lex_step l a) b.
Proof. revert l. induction a as [|c a IH]; intros l; simpl; [done|]. by rewrite IH, andb_assoc. Qed.

Lemma quiet_spec t : quiet LPlain t = true <->
  forall i c, t !! i = Some c -> expands (lex_at t i) c = false.
Proof.
  unfold lex_at. generalize LPlain as l. induction t as [|c t IH]; intros l; simpl; [done|].
  rewrite andb_true_iff, negb_true_iff, IH. split.
  - intros [Hc Ht] [|i] d Hd; simplify_eq/=; [done|by apply Ht].
  - intros Ht. split; [by apply (Ht 0)|]. intros i d Hd. by apply (Ht (S i)).
Qed.

(** Case analysis on the first character: the special ones, then the rest. *)
Ltac char_cases c :=
  repeat match goal with
  | |- context [(c =? ?k)%N] =>
    let E := fresh "E" in
    destruct (c =? k)%N eqn:E; [apply N.eqb_eq in E; subst c|]; cbn -[quiet expansion_from]
  end.

Lemma quiet_escaped l d t : l = LPlainEsc \/ l = LDoubleEsc -> quiet l (d :: t) = quiet (lex_step l d) t.
Proof. intros [->| ->]; simpl; unfold expands; by rewrite andb_false_r. Qed.

(** The scan of the source is this automaton. *)
Lemma expansion_from_quiet st t : expansion_from st t = None <-> quiet (lex_of st) t = true.
Proof.
  revert st. induction t as [t IH] using (induction_ltof1 _ (@length char)); unfold ltof in IH.
  intros st. destruct t as [|c t1]; [done|].
  assert (H1 : forall st, expansion_from st t1 = None <-> quiet (lex_of st) t1 = true).
  { intros. apply IH. simpl. lia. }
  assert (H2 : forall d t2 st, t1 = d :: t2 -> expansion_from st t2 = None <-> quiet (lex_of st) t2 = true).
  { intros d t2 st' ->. apply IH. simpl. lia. }
  destruct st; cbn [expansion_from quiet lex_of lex_step expands]; unfold expands; char_cases c;
    try apply (H1 Plain); try apply (H1 Single); try apply (H1 Double); try done.
  all: destruct t1 as [|d t2]; [done|]; rewrite quiet_escaped by auto; by eapply H2.
Qed.

(** ** One turn of the decomposition *)

Section decomposition.
Context `{Shlex, Glob, FileSystem}.

(** A turn appends what it reads to the command under way, and follows the
    quoting unless it reads an expansion. *)
Definition appends fuel depth st segs cur t out : Prop :=
  exists w t1 st' more, t = w ++ t1 /\ w <> [] /\
    decompose_loop fuel depth st' (segs ++ more) (cur ++ w) t1 = Done (Some out) /\
    (quiet (lex_of st) w = true -> foldl lex_step (lex_of st) w = lex_of st').

(** Or it ends the command, at characters that neither expand nor quote. *)
Definition separator (w : text) : Prop := quiet LPlain w = true /\ foldl lex_step LPlain w = LPlain.
Definition ends_command fuel depth (st : QuoteState) segs cur t out : Prop :=
  exists w t1 segs', t = w ++ t1 /\ st = Plain /\ flush_segment segs cur = Some segs' /\
    decompose_loop fuel depth Plain segs' [] t1 = Done (Some out) /\ separator w.

Section turn.
Context (fuel depth : nat) (st : QuoteState) (segs : list CompoundSegment) (cur : text) (c : char) (t1 : text)
  (out : list CompoundSegment).

Lemma push_turn st' : decompose_loop fuel depth st' segs (cur ++ [c]) t1 = Done (Some out) ->
  (quiet (lex_of st) [c] = true -> lex_step (lex_of st) c = lex_of st') ->
  appends fuel depth st segs cur (c :: t1) out.
Proof. intros Hr Hst. exists [c], t1, st', []. rewrite app_nil_r. auto. Qed.

Lemma escape_turn : c = BS -> st <> Single ->
  match t1 with [] => Done None | d :: t2 => decompose_loop fuel depth st segs (cur ++ [c; d]) t2 end
    = Done (Some out) ->
  appends fuel depth st segs cur (c :: t1) out.
Proof.
  intros -> Hst Hr. destruct t1 as [|d t2]; [done|]. exists [BS; d], t2, st, [].
  rewrite app_nil_r. split_and!; [done..|]. intros _. by destruct st.
Qed.

Lemma flush_turn w t2 : st = Plain -> c :: t1 = w ++ t2 -> separator w ->
  match flush_segment segs cur with
  | Some segs' => decompose_loop fuel depth Plain segs' [] t2
  | None => Done None
  end = Done (Some out) ->
  ends_command fuel depth st segs cur (c :: t1) out.
Proof.
  intros Hst Hw Hsep Hr. destruct (flush_segment segs cur) as [segs'|] eqn:Hf; [|done]. by exists w, t2, segs'.
Qed.

Lemma substitution_turn body whole rest : st <> Single -> c = BT \/ c = DOLLAR -> c :: t1 = whole ++ rest ->
  head whole = Some c ->
  (let! inner := (if (MAX_SUBSTITUTION_DEPTH <? S depth)%nat then Done None
                  else decompose_loop fuel (S depth) Plain [] [] body) in
   match inner with
   | Some more => decompose_loop fuel depth st (segs ++ more) (cur ++ whole) rest
   | None => Done None
   end) = Done (Some out) ->
  appends fuel depth st segs cur (c :: t1) out.
Proof.
  intros Hst Hc Hw Hh Hr. destruct (obind_Done _ _ _ Hr) as ([more|] & _ & Hm); [|done].
  destruct whole as [|c' whole]; [done|]. injection Hh as ->.
  exists (c :: whole), rest, st, more. split_and!; [done..|]. intros Hq. exfalso.
  simpl in Hq. by destruct st, Hc as [->| ->].
Qed.

Lemma backtick_turn : st <> Single -> c = BT ->
  match scan_backtick t1 with
  | Some (body, rest) =>
    let! inner := (if (MAX_SUBSTITUTION_DEPTH <? S depth)%nat then Done None
                   else decompose_loop fuel (S depth) Plain [] [] body) in
    match inner with
    | Some more => decompose_loop fuel depth st (segs ++ more) (cur ++ [BT] ++ body ++ [BT]) rest
    | None => Done None
    end
  | None => Done None
  end = Done (Some out) ->
  appends fuel depth st segs cur (c :: t1) out.
Proof.
  intros Hst Hc Hr. destruct (scan_backtick t1) as [[body rest]|] eqn:Ht; [|done].
  apply scan_backtick_body in Ht.
  eapply (substitution_turn body ([BT] ++ body ++ [BT]) rest); [done|by left| |by rewrite Hc|done].
  rewrite Ht, Hc. simpl. by rewrite <- (assoc_L (++)).
Qed.

Lemma dollar_turn : st <> Single -> c = DOLLAR -> next_is t1 LPAR = true ->
  (if next_is (drop 1 t1) LPAR then Done None
   else
     let! r := scan_dollar_paren fuel 0 None (drop 1 t1) in
     match r with
     | Some (body, rest) =>
       let! inner := (if (MAX_SUBSTITUTION_DEPTH <? S depth)%nat then Done None
                      else decompose_loop fuel (S depth) Plain [] [] body) in
       match inner with
       | Some more => decompose_loop fuel depth st (segs ++ more) (cur ++ [DOLLAR; LPAR] ++ body ++ [RPAR]) rest
       | None => Done None
       end
     | None => Done None
     end) = Done (Some out) ->
  appends fuel depth st segs cur (c :: t1) out.
Proof.
  intros Hst Hc Hn Hr. assert (Ht1 : t1 = LPAR :: drop 1 t1).
  { destruct t1 as [|d t2]; [done|]. by apply N.eqb_eq in Hn as ->. }
  destruct (next_is (drop 1 t1) LPAR); [done|].
  apply obind_Done in Hr as ([[body rest]|] & Ht & Hr); [|done].
  apply scan_dollar_paren_body in Ht.
  eapply (substitution_turn body ([DOLLAR; LPAR] ++ body ++ [RPAR]) rest); [done|by right| |by rewrite Hc|done].
  rewrite Ht1, Ht, Hc. simpl. by rewrite <- (assoc_L (++)).
Qed.
End turn.

Lemma decompose_loop_inv fuel depth st segs cur t out :
  decompose_loop (S fuel) depth st segs cur t = Done (Some out) ->
  (t = [] /\ st = Plain /\ flush_segment segs cur = Some out)
  \/ appends fuel depth st segs cur t out \/ ends_command fuel depth st segs cur t out.
Proof.
  intros Hd. cbn -[app drop] in Hd. destruct t as [|c t1].
  { left. destruct st; [by injection Hd|done|done]. }
  right. destruct st.
  - destruct (c =? SQ)%N eqn:E1; [left; apply N.eqb_eq in E1 as ->; by eapply push_turn|].
    destruct (c =? DQ)%N eqn:E2; [left; apply N.eqb_eq in E2 as ->; by eapply push_turn|].
    destruct (c =? BS)%N eqn:E3; [left; apply N.eqb_eq in E3; by apply escape_turn|].
    destruct (c =? BT)%N eqn:E4; [left; apply N.eqb_eq in E4; by apply backtick_turn|].
    destruct ((c =? DOLLAR)%N && next_is t1 LPAR) eqn:E5.
    { left. apply andb_true_iff in E5 as [E5%N.eqb_eq Hn]. by apply dollar_turn. }
    destruct ((c =? LESS)%N && next_is t1 LESS); [done|].
    destruct (((c =? LESS)%N || (c =? GREATER)%N) && next_is t1 LPAR); [done|].
    destruct ((c =? LF)%N || (c =? CR)%N || (c =? SEMI)%N) eqn:E6.
    { right. apply (flush_turn _ _ _ _ _ _ _ _ [c] t1); [done..| |done].
      rewrite !orb_true_iff, !N.eqb_eq in E6. by destruct E6 as [[->| ->]| ->]. }
    destruct (c =? AMP)%N eqn:E7.
    { apply N.eqb_eq in E7 as ->. destruct (next_is t1 AMP) eqn:En.
      { right. destruct t1 as [|d t2]; [done|]. apply N.eqb_eq in En as ->.
        by apply (flush_turn _ _ _ _ _ _ _ _ [AMP; AMP] t2). }
      destruct (ends_with _ _ || _); [left; by eapply push_turn|].
      right. by apply (flush_turn _ _ _ _ _ _ _ _ [AMP] t1). }
    destruct (c =? PIPE)%N eqn:E8.
    { apply N.eqb_eq in E8 as ->. right. destruct (next_is t1 PIPE) eqn:En.
      - destruct t1 as [|d t2]; [done|]. apply N.eqb_eq in En as ->.
        by apply (flush_turn _ _ _ _ _ _ _ _ [PIPE; PIPE] t2).
      - by apply (flush_turn _ _ _ _ _ _ _ _ [PIPE] t1). }
    left. eapply push_turn; [exact Hd|]. intros _. simpl. by rewrite E1, E2, E3.
  - left. eapply push_turn; [exact Hd|]. intros _. simpl. by destruct (c =? SQ)%N.
  - left. destruct (c =? BS)%N eqn:E1; [apply N.eqb_eq in E1; by apply escape_turn|].
    destruct (c =? DQ)%N eqn:E2; [apply N.eqb_eq in E2 as ->; by eapply push_turn|].
    destruct (c =? BT)%N eqn:E3; [apply N.eqb_eq in E3; by apply backtick_turn|].
    destruct ((c =? DOLLAR)%N && next_is t1 LPAR) eqn:E4.
    { apply andb_true_iff in E4 as [E4%N.eqb_eq Hn]. by apply dollar_turn. }
    eapply push_turn; [exact Hd|]. intros _. simpl. by rewrite E1, E2.
Qed.

(** ** The decomposition ends *)

Lemma decompose_loop_total fuel depth st segs cur t : length t < fuel ->
  exists r, decompose_loop fuel depth st segs cur t = Done r.
Proof.
  revert depth st segs cur t. induction fuel as [|f IH]; intros depth st segs cur t Hf; [lia|].
  cbn -[app drop]. destruct t as [|c t1]; [destruct st; eauto|]. simpl in Hf.
  assert (Hsub : forall body k (rest : text), length body < f /\ length rest < f ->
    exists r, (let! inner := (if (MAX_SUBSTITUTION_DEPTH <? S depth)%nat then Done None
                   else decompose_loop f (S depth) Plain [] [] body) in
     match inner with
     | Some more => decompose_loop f depth st (segs ++ more) k rest
     | None => Done None end) = Done r).
  { intros body k rest [Hb Hr]. destruct (MAX_SUBSTITUTION_DEPTH <? S depth); cbn; [eauto|].
    destruct (IH (S depth) Plain [] [] body Hb) as [[more|] ->]; cbn; [by apply IH|eauto]. }
  assert (Hdrop : length (drop 1 t1) < f) by (rewrite length_drop; lia).
  destruct (scan_dollar_paren_total f 0 None (drop 1 t1) Hdrop) as [r Hr]. rewrite Hr.
  assert (Hbody : forall body rest, r = Some (body, rest) -> length body < f /\ length rest < f).
  { intros body rest ->. apply scan_dollar_paren_body in Hr. rewrite Hr, length_app in Hdrop. simpl in Hdrop. lia. }
  assert (Hback : forall body rest, scan_backtick t1 = Some (body, rest) -> length body < f /\ length rest < f).
  { intros body rest Hb%scan_backtick_body. rewrite Hb, length_app in Hf. simpl in Hf. lia. }
  cbn [obind]. repeat case_match; subst;
    first [ eexists; reflexivity
          | simple apply IH; simpl in *; rewrite ?length_drop; lia
          | simple apply Hsub; first [by apply Hback|by apply Hbody]
          | exfalso; done ].
Qed.

(** ** No command under way loses an expansion *)

Lemma flush_segment_incl segs cur out : flush_segment segs cur = Some out -> segs `prefix_of` out.
Proof.
  unfold flush_segment. case_bool_decide; intros; simplify_eq; [done|].
  destruct (shlex_split (trim cur)); simplify_eq/=. by apply prefix_app_r.
Qed.

Lemma decompose_loop_incl fuel depth st segs cur t out :
  decompose_loop fuel depth st segs cur t = Done (Some out) -> segs `prefix_of` out.
Proof.
  revert depth st segs cur t. induction fuel as [|f IH]; intros depth st segs cur t Hd; [done|].
  destruct (decompose_loop_inv _ _ _ _ _ _ _ Hd) as
    [(_ & _ & Hf)|[(w & t1 & st' & more & _ & _ & Hr & _)|(w & t1 & segs' & _ & _ & Hf & Hr & _)]].
  - by eapply flush_segment_incl.
  - apply IH in Hr. etrans; [|exact Hr]. by apply prefix_app_r.
  - apply flush_segment_incl in Hf. by etrans; [|eapply IH].
Qed.

Lemma trim_start_split t : exists ws, t = ws ++ trim_start t /\ Forall (fun c => is_whitespace c = true) ws.
Proof.
  induction t as [|c t (ws & Ht & Hws)]; [by exists []|]. simpl. destruct (is_whitespace c) eqn:Hc.
  - exists (c :: ws). split; [simpl; by f_equal|by constructor].
  - by exists [].
Qed.

Lemma whitespace_quiet l ws : Forall (fun c => is_whitespace c = true) ws -> quiet l ws = true.
Proof.
  revert l. induction ws as [|c ws IH]; intros l Hws; [done|]. apply Forall_cons in Hws as [Hc Hws].
  simpl. rewrite (IH _ Hws), andb_true_r, negb_true_iff. unfold expands.
  destruct (c =? DOLLAR)%N eqn:E1; [apply N.eqb_eq in E1 as ->; done|].
  destruct (c =? BT)%N eqn:E2; [apply N.eqb_eq in E2 as ->; done|]. done.
Qed.

Lemma whitespace_plain ws : Forall (fun c => is_whitespace c = true) ws -> foldl lex_step LPlain ws = LPlain.
Proof.
  induction ws as [|c ws IH]; intros Hws; [done|]. apply Forall_cons in Hws as [Hc Hws].
  simpl. rewrite <- IH at 2 by done. f_equal.
  destruct (c =? SQ)%N eqn:E1; [apply N.eqb_eq in E1 as ->; done|].
  destruct (c =? DQ)%N eqn:E2; [apply N.eqb_eq in E2 as ->; done|].
  destruct (c =? BS)%N eqn:E3; [apply N.eqb_eq in E3 as ->; done|]. done.
Qed.

(** Trimming removes no expansion. *)
Lemma quiet_trim t : quiet LPlain (trim t) = quiet LPlain t.
Proof.
  destruct (trim_start_split t) as (ws & Ht & Hws). rewrite Ht at 2.
  rewrite quiet_app, (whitespace_quiet _ ws), whitespace_plain by done. cbn [andb].
  destruct (trim_start_split (rev (trim_start t))) as (ws' & Ht' & Hws').
  unfold trim. rewrite <- (rev_involutive (trim_start t)) at 2. rewrite Ht' at 2.
  rewrite rev_app_distr, quiet_app, (whitespace_quiet _ (rev ws')); [by rewrite andb_true_r|].
  rewrite Forall_forall in *. intros c Hc. apply Hws'. apply list_elem_of_In in Hc.
  apply list_elem_of_In. by apply in_rev.
Qed.

Lemma flush_segment_noisy segs cur out : quiet LPlain cur = false -> flush_segment segs cur = Some out ->
  exists s, s ∈ out /\ quiet LPlain (seg_text s) = false.
Proof.
  intros Hq. unfold flush_segment. rewrite <- quiet_trim in Hq. case_bool_decide as Ht; [by rewrite Ht in Hq|].
  destruct (shlex_split (trim cur)) as [toks|]; [|done]. intros [= <-].
  eexists. split; [apply elem_of_app; right; by left|done].
Qed.

(** A command under way with an expansion ends up in the segments with it. *)
Lemma decompose_loop_noisy fuel depth st segs cur t out : quiet LPlain cur = false ->
  decompose_loop fuel depth st segs cur t = Done (Some out) ->
  exists s, s ∈ out /\ quiet LPlain (seg_text s) = false.
Proof.
  revert depth st segs cur t. induction fuel as [|f IH]; intros depth st segs cur t Hq Hd; [done|].
  destruct (decompose_loop_inv _ _ _ _ _ _ _ Hd) as
    [(_ & _ & Hf)|[(w & t1 & st' & more & _ & _ & Hr & _)|(w & t1 & segs' & _ & _ & Hf & Hr & _)]].
  - by eapply flush_segment_noisy.
  - eapply IH; [|exact Hr]. by rewrite quiet_app, Hq.
  - destruct (flush_segment_noisy _ _ _ Hq Hf) as (s & Hs & Hsq). exists s. split; [|done].
    apply decompose_loop_incl in Hr as [l ->]. apply elem_of_app. by left.
Qed.

(** Where no segment has an expansion, the text has none. *)
Lemma decompose_loop_quiet fuel depth st segs cur t out :
  decompose_loop fuel depth st segs cur t = Done (Some out) ->
  (forall s, s ∈ out -> quiet LPlain (seg_text s) = true) ->
  foldl lex_step LPlain cur = lex_of st -> quiet (lex_of st) t = true.
Proof.
  revert depth st segs cur t. induction fuel as [|f IH]; intros depth st segs cur t Hd Hout Hcur; [done|].
  destruct (decompose_loop_inv _ _ _ _ _ _ _ Hd) as
    [(-> & _ & _)|[(w & t1 & st' & more & -> & _ & Hr & Hst)|(w & t1 & segs' & -> & -> & _ & Hr & Hw & Hw')]].
  - done.
  - assert (Hcw : quiet LPlain (cur ++ w) = true).
    { apply not_false_iff_true. intros Hq. destruct (decompose_loop_noisy _ _ _ _ _ _ _ Hq Hr) as (s & Hs & Hsq).
      rewrite (Hout s Hs) in Hsq. done. }
    rewrite quiet_app, Hcur, andb_true_iff in Hcw. destruct Hcw as [_ Hw].
    rewrite quiet_app, Hw, (Hst Hw). eapply IH; [exact Hr|done|]. by rewrite foldl_app, Hcur, (Hst Hw).
  - cbn [lex_of]. rewrite quiet_app, Hw, Hw'. by eapply (IH depth Plain).
Qed.
End decomposition.

(** ** The gates *)

Section gates.
Context `{Shlex, Glob, FileSystem, Host} {V : Type} `{Json V}.

Lemma validate_segments_each tool segs s : validate_segments tool segs = Ok tt -> s ∈ segs ->
  validate_segment tool s = Ok tt.
Proof.
  induction segs as [|s' segs IH]; simpl; [intros _ Hs; by apply not_elem_of_nil in Hs|].
  destruct (validate_segment tool s') as [[]|] eqn:Hv; [|done]. simpl.
  intros Hr [->|Hs]%elem_of_cons; [done|by apply IH].
Qed.

Lemma validate_segment_quiet tool s : validate_segment tool s = Ok tt -> quiet LPlain (seg_text s) = true.
Proof.
  unfold validate_segment. case_bool_decide as Ht; [by rewrite Ht|].
  destruct (unquoted_expansion_reason (seg_text s)) eqn:Hu; [done|]. intros _.
  by apply (expansion_from_quiet Plain).
Qed.

Lemma accepted_quiet tool cmd : validate_embedded_command tool cmd = Done (Ok tt) -> quiet LPlain cmd = true.
Proof.
  unfold validate_embedded_command. intros (segs & Hd & Hv)%obind_Done. injection Hv as Hv.
  destruct segs as [segs|].
  - eapply (decompose_loop_quiet _ _ Plain); [exact Hd| |done].
    intros s Hs. by eapply validate_segment_quiet, validate_segments_each.
  - rewrite <- quiet_trim.
    apply (validate_segment_quiet tool {| seg_text := trim cmd; tokens := rough_tokens cmd |}).
    eapply validate_segments_each; [exact Hv|]. by left.
Qed.

(** The scanner ends on every command, with fuel for its characters; the depth
    of substitutions is bounded by the source's own limit. *)
Theorem decompose_total cmd : exists r, decompose_compound cmd = Done r.
Proof. apply decompose_loop_total. lia. Qed.

(** An accepted embedded command has nothing the shell would expand: every
    [$] and every backtick is inside single quotes or escaped, wherever it is in
    the command, whichever way the command was decomposed and whatever the
    third-party splitter answers. *)
Theorem accepted_has_no_expansion tool cmd i c :
  validate_embedded_command tool cmd = Done (Ok tt) ->
  cmd !! i = Some c -> c = DOLLAR \/ c = BT ->
  lex_at cmd i = LSingle \/ lex_at cmd i = LPlainEsc \/ lex_at cmd i = LDoubleEsc.
Proof.
  intros Hv%accepted_quiet Hi Hc. rewrite quiet_spec in Hv. specialize (Hv i c Hi).
  unfold expands in Hv. destruct Hc as [->| ->], (lex_at cmd i); auto; done.
Qed.

Lemma scan_args_each tool argv arg path : scan_args tool argv = Ok tt -> arg ∈ argv ->
  protected_path_candidate arg = Some path ->
  validate_path_for_read (sandbox_validator tool) (components path) = Ok tt.
Proof.
  induction argv as [|a argv IH]; simpl; [intros _ Ha; by apply not_elem_of_nil in Ha|].
  intros Hs [<-|Ha]%elem_of_cons Hp.
  - rewrite Hp in Hs. revert Hs. by destruct (validate_path_for_read _ _) as [[]|].
  - apply IH; [|done|done]. revert Hs. destruct (protected_path_candidate a) as [l|]; [|done].
    by destruct (validate_path_for_read _ (components l)).
Qed.

(** A path that a read is allowed on, as far as its normal form tells. *)
Definition harmless (v : SandboxValidator) (p : path) : Prop :=
  is_env_file (lexical_normalize p) = false /\
  (is_zen_path (lexical_normalize p) = true \/ has_protected v (lexical_normalize p) = false).

Lemma readable_harmless v p : v_mode v <> DangerFullAccess -> validate_path_for_read v p = Ok tt -> harmless v p.
Proof.
  intros Hm. unfold validate_path_for_read, harmless. rewrite (bool_decide_eq_false_2 _ Hm).
  destruct (is_env_file _); [done|]. destruct (is_zen_path _); [by auto|].
  destruct (has_protected _ _); [done|by auto].
Qed.

Lemma prepare_inv tool args p : prepare tool args = Done (Ok p) ->
  exists resolved, background_of args = Ok (p_background p)
  /\ p_argv p = argv_of args /\ p_stdin p = utf8 <$> (j_get args "stdin" ≫= j_as_str)
  /\ (p_background p = true -> p_stdin p = None)
  /\ p_timeout p = timeout_of args
  /\ validate_path_for_read (sandbox_validator tool) (components (cwd_of tool args)) = Ok tt
  /\ scan_invocation tool (p_binary p) (p_argv p) args = Done (Ok tt)
  /\ shell_command platform sandbox_present (sandbox_profile tool) parent_env resolved
       (p_argv p) (cwd_of tool args) (inject_of args) = Ok (p_command p).
Proof.
  unfold prepare. destruct (j_get args "binary" ≫= j_as_str) as [b|]; [|done].
  case_bool_decide; [done|]. destruct (background_of args) as [bg|]; [|done].
  destruct (bg && _) eqn:Hbg; [done|]. destruct (resolve_binary (utf8 b)) as [resolved|]; [|done].
  destruct (validate_path_for_read _ _) as [[]|] eqn:Hcwd; [|done].
  intros (scanned & Hs & Hr)%obind_Done. destruct scanned as [[]|]; [|done]. cbn in Hr.
  destruct (shell_command _ _ _ _ _ _ _ _) as [command|] eqn:Hc; [|done]. simplify_eq.
  exists resolved. cbn. split_and!; try done. intros ->. cbn in Hbg.
  apply bool_decide_eq_false in Hbg. destruct (utf8 <$> _); [|done]. exfalso. by apply Hbg.
Qed.

(** The environment a command sets, wrapped or not, is the scrubbed one. *)
Lemma shell_command_env os present profile parent resolved argv cwd inject cmd :
  shell_command os present profile parent resolved argv cwd inject = Ok cmd ->
  env_vars cmd = Some <$> scrubbed_env parent inject default_scrub.
Proof.
  unfold shell_command. set (c := envs_from _ _).
  assert (Hc : env_vars c = Some <$> scrubbed_env parent inject default_scrub) by (cbn; by rewrite (right_id_L ∅ (∪))).
  destruct (sandboxed profile); [|by intros [= <-]].
  intros Hw. rewrite <- Hc. destruct (decide (os = OtherOs)) as [->|Hos].
  - by injection Hw as <-.
  - by apply (sandbox_spawn_env _ _ _ _ _ _ Hos Hw).
Qed.

(** A token after one that begins with a dash, without a dash or an equals sign
    itself, is taken for the value of a flag and not looked at. *)
Definition flag_value (toks : list text) (i : nat) : Prop :=
  exists j flag token, i = S j /\ toks !! j = Some flag /\ is_flag flag = true
  /\ toks !! i = Some token /\ is_flag token = false /\ contains token [EQUALS] = false.
(** What was looked at in one command of an embedded script. *)
Definition segment_checked (tool : ShellExecTool) (s : CompoundSegment) : Prop :=
  seg_text s = [] \/
  unquoted_expansion_reason (seg_text s) = None
  /\ utf8 "eval" ∉ tokens s
  /\ (unquoted_remainder (seg_text s) <> [] ->
      validate_invocation (segment_gate tool)
        {| ti_name := NAME; ti_args := j_obj [("binary"%string, j_str (to_string (unquoted_remainder (seg_text s))))] |} = Continue)
  /\ forall i token, tokens s !! i = Some token -> flag_value (tokens s) i \/
      match protected_path_candidate token with
      | Some path => harmless (sandbox_validator tool) (components path)
      | None => glob_protected_rejection token = false
      end.
Lemma scan_tokens_each tool s : v_mode (sandbox_validator tool) <> DangerFullAccess -> forall toks prev, scan_tokens tool s prev toks = Ok tt ->
  forall i token, toks !! i = Some token ->
    (flag_value toks i \/ i = 0 /\ prev = true /\ is_flag token = false /\ contains token [EQUALS] = false)
    \/ match protected_path_candidate token with
       | Some path => harmless (sandbox_validator tool) (components path)
       | None => glob_protected_rejection token = false
       end.
Proof.
  intros Hm. induction toks as [|t toks IH]; intros prev Hs i token Hi; [done|].
  assert (forall p, scan_tokens tool s p toks = Ok tt -> p = is_flag t -> forall j, i = S j ->
    (flag_value (t :: toks) i \/ i = 0 /\ prev = true /\ is_flag token = false /\ contains token [EQUALS] = false)
    \/ match protected_path_candidate token with Some path => harmless (sandbox_validator tool) (components path) | None => glob_protected_rejection token = false end) as HT.
  { intros p Hp -> j ->. cbn in Hi. destruct (IH _ Hp j token Hi) as [[(k & flag & token' & -> & ? & ? & ? & ? & ?)|(-> & Hf & ? & ?)]|]; [..|by right].
    - left. left. by exists (S k), flag, token'.
    - left. left. by exists 0, t, token. }
  cbn [scan_tokens] in Hs. destruct (prev && negb (is_flag t) && negb (contains t [EQUALS])) eqn:Ev.
  - destruct i as [|j]; [|by apply (HT _ Hs eq_refl j)]. injection Hi as ->. apply andb_true_iff in Ev as [[-> Hf%negb_true_iff]%andb_true_iff He%negb_true_iff]. left. by right.
  - destruct (protected_path_candidate t) as [path|] eqn:Hp.
    + destruct (validate_path_for_read _ _) as [[]|r] eqn:Hr; [|done]. destruct i as [|j]; [|by apply (HT _ Hs eq_refl j)].
      injection Hi as ->. right. rewrite Hp. by apply readable_harmless.
    + destruct (glob_protected_rejection t) eqn:Hg; [done|]. destruct i as [|j]; [|by apply (HT _ Hs eq_refl j)].
      injection Hi as ->. right. by rewrite Hp.
Qed.
Lemma validate_segment_checked tool s : v_mode (sandbox_validator tool) <> DangerFullAccess ->
  validate_segment tool s = Ok tt -> segment_checked tool s.
Proof.
  intros Hm. unfold validate_segment, segment_checked. case_bool_decide; [by left|].
  destruct (unquoted_expansion_reason _); [done|]. case_bool_decide as He; [done|]. intros Hs. right.
  assert (scan_tokens tool s false (tokens s) = Ok tt /\ gate_remainder tool s = Ok tt) as [Hscan Hg]
    by (revert Hs; by destruct (gate_remainder tool s) as [[]|]).
  split_and!; [done|done| |].
  - intros Hr. unfold gate_remainder in Hg. cbn zeta in Hg. rewrite bool_decide_false in Hg by done. by destruct (validate_invocation _ _).
  - intros i token Hi. destruct (scan_tokens_each tool s Hm _ _ Hscan i token Hi) as [[?|(_ & ? & _)]|?]; [by left|done|by right].
Qed.
(** The commands that an embedded script is taken apart into. *)
Definition script_segments (command : text) (decomposed : option (list CompoundSegment)) : list CompoundSegment :=
  match decomposed with Some segments => segments | None => [{| seg_text := trim command; tokens := rough_tokens command |}] end.
Lemma accepted_checked tool command : v_mode (sandbox_validator tool) <> DangerFullAccess ->
  validate_embedded_command tool command = Done (Ok tt) ->
  exists decomposed, decompose_compound command = Done decomposed /\ Forall (segment_checked tool) (script_segments command decomposed).
Proof.
  intros Hm. unfold validate_embedded_command. intros (decomposed & Hd & Hv)%obind_Done. exists decomposed. split; [done|]. injection Hv as Hv.
  apply Forall_forall. intros s Hs. apply validate_segment_checked; [done|]. by eapply validate_segments_each.
Qed.
Lemma unwrapped_child os present profile parent resolved argv cwd inject cmd : sandboxed profile = false ->
  shell_command os present profile parent resolved argv cwd inject = Ok cmd -> env_cleared cmd = true.
Proof. unfold shell_command. intros ->. by intros [= <-]. Qed.

(** C36. When the validator is not in the mode of full access, what [shell.exec] spawns
    has passed its gates: a timeout within its bounds, no standard input in the
    background, a harmless directory.  An embedded script comes with no injected
    variable and no live expansion, and each command it is taken apart into has no
    word [eval], an unquoted part that the seatbelt lets through, and tokens that
    are harmless where they name protected paths and match none by a pattern, except
    those taken for values of flags; without a script the arguments are harmless.
    What the command sets in its environment is no secret and no loader variable, and
    where the profile does not wrap it, so is all that the child sees; a wrapped
    child inherits the daemon's environment too.  What the gates miss in scripts is
    in [gates_evaded]. *)
Theorem spawned_is_gated tool args p :
  prepare tool args = Done (Ok p) -> v_mode (sandbox_validator tool) <> DangerFullAccess ->
  NoDup parent_env.*1 ->
  (MIN_TIMEOUT_MS <= p_timeout p <= MAX_TIMEOUT_MS)%N
  /\ (p_background p = true -> p_stdin p = None)
  /\ harmless (sandbox_validator tool) (components (cwd_of tool args))
  /\ match shell_command_string (p_binary p) (p_argv p) with
     | Some embedded => injects_env args = false /\ quiet LPlain embedded = true
       /\ exists decomposed, decompose_compound embedded = Done decomposed
          /\ Forall (segment_checked tool) (script_segments embedded decomposed)
     | None => forall arg path, arg ∈ p_argv p -> protected_path_candidate arg = Some path ->
               harmless (sandbox_validator tool) (components path)
     end
  /\ (forall k v, env_vars (p_command p) !! k = Some (Some v) -> benign default_scrub k)
  /\ (sandboxed (sandbox_profile tool) = false -> forall parent k v, child_env parent (p_command p) !! k = Some v -> benign default_scrub k).
Proof.
  intros Hp Hm Hnd. apply prepare_inv in Hp as (resolved & _ & _ & _ & Hin & Ht & Hcwd & Hscan & Hc).
  assert (forall k v, env_vars (p_command p) !! k = Some (Some v) -> benign default_scrub k) as Hset.
  { intros k v. rewrite (shell_command_env _ _ _ _ _ _ _ _ _ Hc), lookup_fmap, scrubbed_env_lookup by done.
    destruct (decide (benign default_scrub k)) as [Hb|]; done. }
  split_and!.
  - rewrite Ht. unfold timeout_of, clamp. lia.
  - rewrite Ht. unfold timeout_of, clamp, MIN_TIMEOUT_MS, MAX_TIMEOUT_MS. lia.
  - done.
  - by apply readable_harmless.
  - unfold scan_invocation in Hscan. destruct (shell_command_string _ _) as [embedded|].
    + destruct (injects_env args); [done|]. split_and!; [done|by eapply accepted_quiet|by apply accepted_checked].
    + injection Hscan as Hscan. intros arg path Harg Hpath. apply readable_harmless; [done|].
      by eapply scan_args_each.
  - exact Hset.
  - intros Hw parent k v. rewrite child_env_lookup, (unwrapped_child _ _ _ _ _ _ _ _ _ Hw Hc).
    destruct (env_vars (p_command p) !! k) as [[w|]|] eqn:E; [|done..]. intros _. by eapply Hset.
Qed.
End gates.

(** ** The other shell tools *)

Section tools.
Context `{FileSystemLaws, Host} {V : Type} `{Json V}.

(** A capture path that is found safe leads, links followed, to a capture file
    of the task's own directory, or is a link to nothing. *)
Theorem capture_path_confined expected raw c :
  capture_path_is_safe expected raw = true -> lands (components (utf8 raw)) c ->
  (exists n, c = expected ++ [Normal n] /\ (n = utf8 "stdout" \/ n = utf8 "stderr"))
  \/ (canonicalize (components (utf8 raw)) = None /\ symlink_metadata (components (utf8 raw)) = Some true).
Proof.
  unfold capture_path_is_safe. set (p := components (utf8 raw)).
  intros Hs Hc. bool_to_prop. destruct (file_name p) as [n|] eqn:Hn; [|done].
  destruct (parent p ≫= canonicalize) as [d|] eqn:Hd; [|done]. bool_to_prop. subst d.
  destruct Hc as [c Hc|par c n' Hnone Hm Hpar Hc Hn'|c Hnone Hm]; [| |by right]; left; exists n.
  - rewrite Hc in *. bool_to_prop. split; [done|]. intuition bool_to_prop; auto.
  - rewrite Hpar in Hd. cbn in Hd. simplify_eq. split; [done|]. intuition bool_to_prop; auto.
Qed.

(** [shell.kill] of a task the registry does not hold signals no process: it
    leaves the registry as it is and, on disk, only turns a running record of
    that task into a killed one. *)
Theorem kill_without_signal args now write_ok r d tid :
  task_id_of args = Ok tid -> entries r !! tid = None ->
  exists v d', shell_kill_invoke args now write_ok r d = (Ok v, r, d')
  /\ (forall other, other <> tid -> d' !! other = d !! other)
  /\ (d' = d \/ exists m, d !! tid = Some (Parsed m) /\ status (m_snapshot m) = Running).
Proof.
  intros Hid Hr. unfold shell_kill_invoke, kill. rewrite Hid, Hr. unfold mark_meta_status, read_meta.
  destruct (d !! tid) as [[|m]|] eqn:Hd; [by eexists _, d; auto| |by eexists _, d; auto].
  destruct (is_terminal (status (m_snapshot m))) eqn:Ht; [by eexists _, d; auto|].
  destruct write_ok; [|by eexists _, d; auto].
  eexists _, _. split; [done|]. split.
  - intros other Ho. by rewrite lookup_insert_ne.
  - right. exists m. split; [done|]. by destruct (status (m_snapshot m)).
Qed.
End tools.

(** ** What the gates let through

    A word splitter in the manner of POSIX and a matcher of literal patterns. *)

Fixpoint demo_words (st : QuoteState) (open : bool) (cur : text) (t : text) : option (list text) :=
  match t with
  | [] => match st with Plain => Some (if open then [cur] else []) | _ => None end
  | c :: t1 =>
    let escaped := match t1 with [] => None | d :: t2 => demo_words st true (cur ++ [d]) t2 end in
    match st with
    | Plain =>
      if (c =? SQ)%N then demo_words Single true cur t1
      else if (c =? DQ)%N then demo_words Double true cur t1
      else if (c =? BS)%N then escaped
      else if is_whitespace c then
        (if open then cons cur <$> demo_words Plain false [] t1 else demo_words Plain false [] t1)
      else demo_words Plain true (cur ++ [c]) t1
    | Single => if (c =? SQ)%N then demo_words Plain true cur t1 else demo_words Single true (cur ++ [c]) t1
    | Double =>
      if (c =? DQ)%N then demo_words Plain true cur t1
      else if (c =? BS)%N then escaped
      else demo_words Double true (cur ++ [c]) t1
    end
  end.

#[local] Instance demo_shlex : Shlex := demo_words Plain false [].
#[local] Instance demo_glob : Glob := fun p => Some (fun s => bool_decide (s = p)).
#[local] Instance demo_files : FileSystem := table_fs [] [].
#[local] Instance demo_host : Host := {|
  which b := Some (utf8 "/bin/" ++ b);
  parent_env := [(utf8 "PATH", utf8 "/bin"); (utf8 "OPENAI_API_KEY", utf8 "sk-1")];
  platform := Linux;
  sandbox_present := true;
  host_user_root := utf8 "/home/u/.zen";
  background_limits := {| max_wall_secs := 3600; max_concurrent := 4; output_cap_bytes := OUTPUT_CAP_BYTES |};
  session_scope := "local"%string;
  tasks_root := "/home/u/.zen/logs/tasks"%string;
  run_child _ _ _ := NotSpawned;
  read_capture _ := [];
|}.

Definition demo_tool : ShellExecTool :=
  {| workspace_root := utf8 "/ws"; sandbox_validator := new_validator WorkspaceWrite [path_of [utf8 "ws"]];
     sandbox_profile := from_mode WorkspaceWrite [utf8 "/ws"] false |}.

Definition demo_args (binary : string) (argv : list string) : jval :=
  JObj [("binary", JStr binary); ("args", JArr (map JStr argv))]%string.

(** The gates of an embedded command can be evaded: a protected path after any
    flag is taken for the flag's value; a quoted command word is no longer
    matched against the blocked commands; the command of a nested shell is not
    looked at; apostrophes in two comments hide the commands between them; and
    where a shell is given an option after [-c], the option is checked in place
    of the command, which can be any text. *)
Theorem gates_evaded :
  Forall (fun command => validate_embedded_command (V := jval) demo_tool command = Done (Ok tt))
    [utf8 "cat -n /home/u/.ssh/id_ed25519"; utf8 "'sudo' id"; utf8 "sh -c 'sudo id'";
     utf8 "echo a # it's" ++ [LF] ++ utf8 "sudo id # it's"]
  /\ (forall script, exists p, prepare demo_tool (demo_args "bash" ["-c"; "-x"; script])%string = Done (Ok p)
        /\ p_argv p = [utf8 "-c"; utf8 "-x"; utf8 script])
  /\ validate_embedded_command (V := jval) demo_tool (utf8 "cat /home/u/.ssh/id_ed25519") <> Done (Ok tt)
  /\ validate_embedded_command (V := jval) demo_tool (utf8 "sudo id") <> Done (Ok tt).
Proof.
  split; [by repeat constructor|]. split; [|split; by vm_compute].
  intros script. eexists. split; [reflexivity|]. reflexivity.
Qed.

Lemma accepted_has_no_expansion_witness :
  lex_at (utf8 "echo '$HOME'") 6 = LSingle \/ lex_at (utf8 "echo '$HOME'") 6 = LPlainEsc
  \/ lex_at (utf8 "echo '$HOME'") 6 = LDoubleEsc.
Proof.
  apply (accepted_has_no_expansion (V := jval) demo_tool _ 6 DOLLAR); [by vm_compute|done|by left].
Defined.

Lemma spawned_is_gated_witness :
  exists p, prepare demo_tool (demo_args "bash" ["-c"; "cat notes.md; ls"])%string = Done (Ok p)
  /\ exists decomposed, decompose_compound (utf8 "cat notes.md; ls") = Done decomposed
     /\ Forall (segment_checked (V := jval) demo_tool) (script_segments (utf8 "cat notes.md; ls") decomposed).
Proof.
  eexists. split; [vm_compute; reflexivity|].
  edestruct (spawned_is_gated demo_tool (demo_args "bash" ["-c"; "cat notes.md; ls"]%string)) as (_ & _ & _ & Hs & _).
  - vm_compute. reflexivity.
  - done.
  - by apply (bool_decide_unpack _).
  - apply Hs.
Defined.
