(* ===== verification/Rpc.v ===== *)
(** * The gateway's protocol

    Models [crates/zen-gateway/src/protocol]: the catalog of errors, versions
    and their negotiation, the table of methods, frames and the handshake.
    The decoding of [initialize]'s parameters is serde's: the class
    [DecodeInitialize].  The texts of messages are left out, except where they
    are all an error carries. *)

From S2P Require Import Prelude Json Text.
From Stdlib Require Import Lia.
Local Open Scope list_scope.

(** ** [error.rs]: the closed catalog *)

(** Why a version is refused. *)
Inductive VersionReason :=
  | NotMajorMinor (s : text) | BadMajor (s : text) | BadMinor (s : text)
  | MajorMismatch (client server : N * N)
  | MinorExceeds (client server : N).

(** Why a guard rejects. *)
Inductive GuardReason :=
  | CoolingDown (remaining_secs : N)
  | TooManyTurns
  | WatchdogDeadline.

Inductive RpcError (V : Type) :=
  | parse_error (detail : string)
  | invalid_request (detail : string)
  | invalid_params (method : string) (detail : string)
  | method_not_found (supported : list string)
  | internal (detail : string)
  | not_initialized
  | version_mismatch (server_version server_protocol : string) (reason : VersionReason)
  | store_unavailable (health : string)
  | session_not_found (session_id : string)
  | turn_already_completed (response : string)
  | approval_unsupported
  | approval_timeout (turn_id : string)
  | rate_limited (retry_after_ms : N)
  | guard_rejected (guard : string) (reason : GuardReason)
  | client_error (code : Z) (message : string) (data : option V).   (* built by [complete_pending] *)
Arguments parse_error {V}. Arguments invalid_request {V}. Arguments store_unavailable {V}.
Arguments invalid_params {V}. Arguments method_not_found {V}. Arguments internal {V}.
Arguments not_initialized {V}. Arguments version_mismatch {V}. Arguments session_not_found {V}.
Arguments turn_already_completed {V}. Arguments approval_unsupported {V}. Arguments approval_timeout {V}.
Arguments rate_limited {V}. Arguments guard_rejected {V}. Arguments client_error {V}.

Definition err_code {V} (e : RpcError V) : Z :=
  match e with
  | parse_error _ => -32700
  | invalid_request _ => -32600
  | invalid_params _ _ => -32602
  | method_not_found _ => -32601
  | internal _ => -32603
  | not_initialized => -32000
  | version_mismatch _ _ _ => -32001
  | store_unavailable _ => -32002
  | session_not_found _ => -32003
  | turn_already_completed _ => -32004
  | approval_unsupported => -32010
  | approval_timeout _ => -32011
  | rate_limited _ => -32012
  | guard_rejected _ _ => -32020
  | client_error code _ _ => code
  end%Z.

Definition err_name {V} (e : RpcError V) : string :=
  match e with
  | parse_error _ => "parse-error"
  | invalid_request _ => "invalid-request"
  | invalid_params _ _ => "invalid-params"
  | method_not_found _ => "method-not-found"
  | internal _ => "internal"
  | not_initialized => "not-initialized"
  | version_mismatch _ _ _ => "version-mismatch"
  | store_unavailable _ => "store-unavailable"
  | session_not_found _ => "session-not-found"
  | turn_already_completed _ => "turn-already-completed"
  | approval_unsupported => "approval-unsupported"
  | approval_timeout _ => "approval-timeout"
  | rate_limited _ => "rate-limited"
  | guard_rejected _ _ => "guard-rejected"
  | client_error _ _ _ => "client-error"
  end.

(** ** [mod.rs]: versions *)

Definition SERVER_PROTOCOL_VERSION : string := "1.0".
Definition SERVER_NAME : string := "zen-gateway".
Definition CRATE_VERSION : string := "0.1.0".   (* env!("CARGO_PKG_VERSION") *)

Record ProtocolVersion := { major : N; minor : N }.

Definition parse_version (s : text) : result ProtocolVersion VersionReason :=
  match split_once 46%N s with
  | None => Err (NotMajorMinor s)
  | Some (ma, mi) =>
    match parse_unsigned 32 ma with
    | None => Err (BadMajor s)
    | Some ma =>
      match parse_unsigned 32 mi with
      | None => Err (BadMinor s)
      | Some mi => Ok {| major := ma; minor := mi |}
      end
    end
  end.

Section protocol.
Context {V : Type}.

Definition negotiate_version (client_version : text) (server_version : string) : result unit (RpcError V) :=
  let refuse reason := Err (version_mismatch server_version SERVER_PROTOCOL_VERSION reason) in
  match parse_version client_version with
  | Err reason => refuse reason
  | Ok client =>
    match parse_version (utf8 SERVER_PROTOCOL_VERSION) with
    | Err _ => Err (internal "protocolVersion must be MAJOR.MINOR")
    | Ok server =>
      if negb (major client =? major server)%N then
        refuse (MajorMismatch (major client, minor client) (major server, minor server))
      else if (minor server <? minor client)%N then refuse (MinorExceeds (minor client) (minor server))
      else Ok tt
    end
  end.

(** ** The handshake *)

Record Capabilities := { approvals : bool; streaming : bool; delivery_ack : bool }.
Definition default_capabilities : Capabilities := {| approvals := false; streaming := false; delivery_ack := false |}.

Record Info := { info_name : string; info_version : string }.

Record InitializeParams := {
  protocol_version : text;
  client_info : Info;
  capabilities : Capabilities;
}.

Record InitializeResult := {
  r_protocol_version : string;
  r_server_info : Info;
  r_capabilities : Capabilities;
}.

Definition for_server : InitializeResult :=
  {| r_protocol_version := SERVER_PROTOCOL_VERSION;
     r_server_info := {| info_name := SERVER_NAME; info_version := CRATE_VERSION |};
     r_capabilities := default_capabilities |}.
Definition with_capabilities (r : InitializeResult) (caps : Capabilities) : InitializeResult :=
  {| r_protocol_version := r_protocol_version r; r_server_info := r_server_info r; r_capabilities := caps |}.

Inductive HandshakeState := HConnecting | HInitialized.

#[export] Instance HandshakeState_eq_dec : EqDecision HandshakeState.
Proof. solve_decision. Defined.
End protocol.

(** [serde_json::from_value::<InitializeParams>]. *)
Class DecodeInitialize (V : Type) := decode_initialize : V -> result InitializeParams string.

Definition handle_initialize {V} `{DecodeInitialize V} (params : V) : result InitializeResult (RpcError V) :=
  match decode_initialize params with
  | Err e => Err (invalid_params "initialize" e)
  | Ok parsed =>
    let? _ := negotiate_version (protocol_version parsed) CRATE_VERSION in
    Ok (with_capabilities for_server (capabilities parsed))
  end.

(** ** [methods.rs]: the table of methods *)

Inductive Quadrant := ClientReq | ServerReq | Notif.
Inductive Phase := Phase1 | Phase3.

#[export] Instance Quadrant_eq_dec : EqDecision Quadrant.
Proof. solve_decision. Defined.

(** The columns that are read; [params] and [result] are for display only. *)
Record MethodMeta := {
  m_name : string; m_domain : string; m_quadrant : Quadrant; m_since : string; m_phase : Phase;
}.

Definition METHODS : list MethodMeta :=
  let row n d q s p := {| m_name := n; m_domain := d; m_quadrant := q; m_since := s; m_phase := p |} in
  [row "initialize" "initialize" ClientReq "1.0" Phase1;
   row "initialized" "initialized" Notif "1.0" Phase1;
   row "health/status" "health" ClientReq "1.0" Phase1;
   row "shutdown" "shutdown" ClientReq "1.0" Phase1;
   row "memory/retrieve" "memory" ClientReq "1.0" Phase1;
   row "memory/putEntry" "memory" ClientReq "1.0" Phase1;
   row "memory/search" "memory" ClientReq "1.0" Phase1;
   row "memory/stats" "memory" ClientReq "1.0" Phase1;
   row "memory/rebuild" "memory" ClientReq "1.1" Phase3;
   row "knowledge/search" "knowledge" ClientReq "1.0" Phase1;
   row "session/start" "session" ClientReq "1.1" Phase3;
   row "session/turn" "session" ClientReq "1.1" Phase3;
   row "session/cancel" "session" ClientReq "1.1" Phase3;
   row "session/resume" "session" ClientReq "1.1" Phase3;
   row "agent/list" "agent" ClientReq "1.1" Phase3;
   row "agent/status" "agent" ClientReq "1.1" Phase3;
   row "skill/list" "skill" ClientReq "1.1" Phase3;
   row "session/event" "session" Notif "1.1" Phase3;
   row "agent/status" "agent" Notif "1.1" Phase3;
   row "health/ping" "health" Notif "1.0" Phase1;
   row "approval/request" "approval" ServerReq "1.1" Phase3]%string.

Definition lookup_method (method : string) : option MethodMeta :=
  snd <$> list_find (fun m => m_name m = method) METHODS.
Definition supported_methods : list string := map m_name METHODS.
Definition client_request_methods : list string :=
  map m_name (filter (fun m => m_quadrant m = ClientReq) METHODS).
Definition server_request_methods : list string :=
  map m_name (filter (fun m => m_quadrant m = ServerReq) METHODS).

(** ** [envelope.rs]: frames *)

Record RpcErrorBody (V : Type) := { b_code : Z; b_message : string; b_data : option V }.
Arguments b_code {V}. Arguments b_message {V}. Arguments b_data {V}.

(** A response to a client carries either a result or an error of the
    catalog; a client's response can carry both or neither. *)
Inductive Frame (V : Type) :=
  | ClientRequest (id : N) (method : string) (params : V)
  | ServerResponse (id : N) (answer : result V (RpcError V))
  | ServerRequest (id : string) (method : string) (params : V)
  | ClientResponse (id : string) (res : option V) (error : option (RpcErrorBody V))
  | Notification (method : string) (params : V).
Arguments ClientRequest {V}. Arguments ServerResponse {V}. Arguments ServerRequest {V}.
Arguments ClientResponse {V}. Arguments Notification {V}.

Definition frame_method {V} (f : Frame V) : option string :=
  match f with
  | ClientRequest _ m _ | ServerRequest _ m _ | Notification m _ => Some m
  | ServerResponse _ _ | ClientResponse _ _ _ => None
  end.

(** ** Properties *)

Lemma server_version_parses :
  parse_version (utf8 SERVER_PROTOCOL_VERSION) = Ok {| major := 1; minor := 0 |}.
Proof. reflexivity. Qed.

(** A client is accepted just when its version has the server's major number
    and a minor number not above the server's. *)
Theorem negotiate_version_exact {V} client server_version :
  negotiate_version (V := V) client server_version = Ok tt <->
  exists v, parse_version client = Ok v /\ major v = 1%N /\ minor v = 0%N.
Proof.
  unfold negotiate_version. rewrite server_version_parses. cbn.
  destruct (parse_version client) as [v|]; [|by split; [|intros (? & ? & ?)]].
  destruct (N.eqb_spec (major v) 1); cbn; [|by split; [|intros (? & [= <-] & ? & ?)]].
  destruct (N.ltb_spec 0 (minor v)).
  - split; [done|]. intros (? & [= <-] & ? & ?). lia.
  - split; [|done]. intros _. exists v. split_and!; try done. lia.
Qed.
