(* ===== verification/Guards.v ===== *)
(** * The guards of the gateway

    Models [crates/zen-gateway/src/server/guards.rs]: the circuit breaker and
    the doom-loop window of a session, the deadline of a turn, and the cached
    probe for a local model.  Instants are nanoseconds of a monotonic clock. *)

From S2P Require Import Prelude Json Text Rpc.
From stdpp Require Import gmap.
From Stdlib Require Import Lia.
Local Open Scope list_scope.
Local Open Scope N_scope.

Definition secs (n : N) : N := n * 1000000000.

Definition WATCHDOG_TIMEOUT : N := secs 900.
Definition BREAKER_THRESHOLD : N := 5.
Definition BREAKER_COOLDOWN : N := secs 60.
Definition DOOM_MAX_TURNS : nat := 20.
Definition DOOM_WINDOW : N := secs 600.
Definition LOCAL_PROBE_TTL : N := secs 300.

(** ** Deadlines *)

(** [env]: [ZEN_TURN_WATCHDOG_SECS]; [base] and [local]: the configuration. *)
Definition repo_watchdog_env_override (env : option text) : option N :=
  v ← env; n ← parse_unsigned 64 v; Some (secs n).
Definition watchdog_deadline (env : option text) (base local : N) (local_reachable : bool) : N :=
  match repo_watchdog_env_override env with
  | Some t => t
  | None => if local_reachable then N.max (secs base) (secs local) else secs base
  end.

Record ProbeCache := { override : option bool; cached : option (N * bool) }.

(** [probe]: the answer of a fresh probe, were one made. *)
Definition local_llm_reachable_cached (now : N) (probe : bool) (c : ProbeCache) : bool * ProbeCache :=
  match override c with
  | Some v => (v, c)
  | None =>
    match cached c with
    | Some (at_, reachable) =>
      if now - at_ <? LOCAL_PROBE_TTL then (reachable, c)
      else (probe, {| override := None; cached := Some (now, probe) |})
    | None => (probe, {| override := None; cached := Some (now, probe) |})
    end
  end.

(** ** Breaker and window *)

Record BreakerState := { consecutive_failures : N; open_until : option N }.
Definition closed_breaker : BreakerState := {| consecutive_failures := 0; open_until := None |}.

Record Guards := { breakers : gmap string BreakerState; doom : gmap string (list N) }.
Definition default_guards : Guards := {| breakers := ∅; doom := ∅ |}.

Definition breaker_of (g : Guards) (s : string) : BreakerState := default closed_breaker (breakers g !! s).
Definition window_of (g : Guards) (s : string) : list N := default [] (doom g !! s).

Section guards.
Context {V : Type}.

Definition check_breaker (g : Guards) (s : string) (now : N) : result unit (RpcError V) * Guards :=
  let state := breaker_of g s in
  match open_until state with
  | Some until =>
    if now <? until then
      (Err (guard_rejected "circuit-breaker" (CoolingDown (N.max ((until - now) / 1000000000) 1))),
       {| breakers := <[s := state]> (breakers g); doom := doom g |})
    else
      (Ok tt, {| breakers := <[s := {| consecutive_failures := consecutive_failures state; open_until := None |}]>
                               (breakers g);
                 doom := doom g |})
  | None => (Ok tt, {| breakers := <[s := state]> (breakers g); doom := doom g |})
  end.

Definition record_doom_turn (g : Guards) (s : string) (now : N) : result unit (RpcError V) * Guards :=
  let window := filter (fun t => now - t < DOOM_WINDOW) (window_of g s) in
  if (DOOM_MAX_TURNS <=? length window)%nat then
    (Err (guard_rejected "doom-loop" TooManyTurns), {| breakers := breakers g; doom := <[s := window]> (doom g) |})
  else (Ok tt, {| breakers := breakers g; doom := <[s := window ++ [now]]> (doom g) |}).

Definition check_submit (g : Guards) (s : string) (now : N) : result unit (RpcError V) * Guards :=
  let '(r, g1) := check_breaker g s now in
  match r with
  | Err e => (Err e, g1)
  | Ok _ => record_doom_turn g1 s now
  end.

Definition record_success (g : Guards) (s : string) : Guards :=
  match breakers g !! s with
  | Some _ => {| breakers := <[s := closed_breaker]> (breakers g); doom := doom g |}
  | None => g
  end.

Definition record_failure (g : Guards) (s : string) (now : N) : Guards :=
  let state := breaker_of g s in
  let n := consecutive_failures state + 1 in
  {| breakers :=
       <[s := if BREAKER_THRESHOLD <=? n
              then {| consecutive_failures := 0; open_until := Some (now + BREAKER_COOLDOWN) |}
              else {| consecutive_failures := n; open_until := open_until state |}]> (breakers g);
     doom := doom g |}.

Definition watchdog_rejected : RpcError V := guard_rejected "watchdog" WatchdogDeadline.

End guards.

(** ** Runs of guard operations *)

Inductive guard_op := Submit (s : string) | Succeeded (s : string) | Failed (s : string).

#[export] Instance guard_op_eq_dec : EqDecision guard_op.
Proof. solve_decision. Defined.

Definition run_guard (o : guard_op) (now : N) (g : Guards) : bool * Guards :=
  match o with
  | Submit s => let '(r, g') := check_submit (V := unit) g s now in (is_ok r, g')
  | Succeeded s => (false, record_success g s)
  | Failed s => (false, record_failure g s now)
  end.

(** The guards after timed operations, and the instants at which the session
    [s] was admitted. *)
Fixpoint run_guards (s : string) (ops : list (N * guard_op)) (g : Guards) : Guards * list N :=
  match ops with
  | [] => (g, [])
  | (now, o) :: rest =>
    let '(admitted, g') := run_guard o now g in
    let '(final, times) := run_guards s rest g' in
    (final, if admitted && bool_decide (o = Submit s) then now :: times else times)
  end.

(** Instants that never go back, from [last] on. *)
Fixpoint chronological {A} (last : N) (ops : list (N * A)) : Prop :=
  match ops with [] => True | (now, _) :: rest => last <= now /\ chronological now rest end.

(** ** The rate of admission *)

(** The instants within the window that ends at [t]. *)
Definition recent (t : N) (times : list N) : list N := filter (fun a => a <= t /\ t - a < DOOM_WINDOW) times.

(** [times]: the admissions of [s] so far, none after [last]. *)
Definition window_inv (s : string) (last : N) (times : list N) (g : Guards) : Prop :=
  Forall (fun a => a <= last) times
  /\ (forall t, last <= t -> recent t (window_of g s) = recent t times)
  /\ Forall (fun a => a <= last) (window_of g s)
  /\ (forall t, (length (recent t times) <= DOOM_MAX_TURNS)%nat).

Lemma check_breaker_doom {V} g s now : doom (check_breaker (V := V) g s now).2 = doom g.
Proof. unfold check_breaker. by repeat case_match. Qed.

Lemma recent_retained now t window : now <= t -> recent t (filter (fun a => now - a < DOOM_WINDOW) window) = recent t window.
Proof.
  intros Hn. unfold recent. rewrite list_filter_filter. apply list_filter_iff. intros a. split; [tauto|].
  intros [Ha Ht]. split; [done|]. lia.
Qed.

Lemma window_inv_later s last t times g : last <= t -> window_inv s last times g -> window_inv s t times g.
Proof.
  intros Hl (H1 & H2 & H3 & H4). split_and!.
  - eapply Forall_impl; [exact H1|]. cbn. lia.
  - intros t' Ht. apply H2. lia.
  - eapply Forall_impl; [exact H3|]. cbn. lia.
  - done.
Qed.

Lemma window_inv_same s last times g g' : window_of g' s = window_of g s -> window_inv s last times g -> window_inv s last times g'.
Proof. unfold window_inv. by intros ->. Qed.

Lemma window_inv_submit s last now times g : last <= now -> window_inv s last times g ->
  let '(r, g') := record_doom_turn (V := unit) g s now in
  window_inv s now (if is_ok r then times ++ [now] else times) g'.
Proof.
  intros Hl (H1 & H2 & H3 & H4)%(window_inv_later _ _ now); [|done]. unfold record_doom_turn.
  set (window := filter _ _).
  assert (Hw : forall t, now <= t -> recent t window = recent t times).
  { intros t Ht. unfold window. by rewrite recent_retained, H2. }
  assert (Hb : Forall (fun a => a <= now) window) by (apply Forall_forall; intros a [_ Ha]%list_elem_of_filter; by eapply Forall_forall in H3).
  destruct (Nat.leb_spec DOOM_MAX_TURNS (length window)) as [|Hlt]; cbn.
  - unfold window_inv, window_of. cbn. rewrite lookup_insert_eq. cbn. auto.
  - unfold window_inv, window_of. cbn. rewrite lookup_insert_eq. cbn. split_and!.
    + apply Forall_app_2; [done|]. by repeat constructor.
    + intros t Ht. unfold recent in *. rewrite !filter_app. f_equal. by apply Hw.
    + apply Forall_app_2; [done|]. by repeat constructor.
    + intros t. unfold recent. rewrite filter_app, length_app. destruct (decide (now <= t)) as [Ht|Ht].
      * fold (recent t times). rewrite <- (Hw t Ht).
        assert (length (recent t window) <= length window)%nat by apply length_filter.
        assert (length (recent t [now]) <= 1)%nat by apply (length_filter _ [now]).
        unfold recent in *.
        lia.
      * rewrite filter_cons_False by lia. cbn. rewrite Nat.add_0_r. apply H4.
Qed.

Lemma record_doom_other {V} g s' now s : s' <> s ->
  window_of (record_doom_turn (V := V) g s' now).2 s = window_of g s.
Proof. intros Hne. unfold record_doom_turn, window_of. case_match; cbn; by rewrite lookup_insert_ne. Qed.

Lemma run_guard_inv s o last now times g : last <= now -> window_inv s last times g ->
  let '(admitted, g') := run_guard o now g in
  window_inv s now (if admitted && bool_decide (o = Submit s) then times ++ [now] else times) g'.
Proof.
  intros Hl Hi. destruct o as [s'|s'|s']; cbn.
  - unfold check_submit. pose proof (check_breaker_doom (V := unit) g s' now) as Hd.
    destruct (check_breaker g s' now) as [r g1]. cbn in Hd.
    assert (Hi1 : window_inv s last times g1) by (eapply window_inv_same; [|exact Hi]; unfold window_of; by rewrite Hd).
    destruct r; cbn; [|by eapply window_inv_later].
    destruct (decide (s' = s)) as [->|Hne].
    + pose proof (window_inv_submit s last now times g1 Hl Hi1) as Hs.
      destruct (record_doom_turn g1 s now) as [r g']. by rewrite bool_decide_true, andb_true_r by done.
    + pose proof (record_doom_other (V := unit) g1 s' now s Hne) as Hw.
      rewrite (bool_decide_false (Submit s' = Submit s)) by congruence.
      destruct (record_doom_turn g1 s' now) as [r g']. rewrite andb_false_r.
      by eapply window_inv_same, window_inv_later.
  - eapply window_inv_same, window_inv_later; [|done..]. unfold record_success. by case_match.
  - by eapply window_inv_same, window_inv_later.
Qed.

Lemma run_guards_inv s ops : forall last times g, chronological last ops -> window_inv s last times g ->
  exists t, window_inv s t (times ++ (run_guards s ops g).2) (run_guards s ops g).1.
Proof.
  induction ops as [|[now o] ops IH]; intros last times g Hc Hi; cbn.
  - rewrite app_nil_r. eauto.
  - destruct Hc as [Hl Hc]. pose proof (run_guard_inv s o last now times g Hl Hi) as Hi'.
    destruct (run_guard o now g) as [admitted g']. specialize (IH now _ g' Hc Hi').
    destruct (run_guards s ops g') as [final rest]. cbn in *.
    destruct (admitted && bool_decide (o = Submit s)); [|done]. by rewrite <- app_assoc in IH.
Qed.

(** Whatever the submissions and outcomes, of this session and of others, no
    window of ten minutes holds more than twenty admitted turns of a session. *)
Theorem admission_rate s ops last t : chronological last ops ->
  (length (recent t (run_guards s ops default_guards).2) <= DOOM_MAX_TURNS)%nat.
Proof.
  intros Hc. destruct (run_guards_inv s ops last [] default_guards Hc) as (? & _ & _ & _ & H); [|apply H].
  split_and!; [constructor|done|constructor|]. intros t'. unfold DOOM_MAX_TURNS. cbn. lia.
Qed.

Lemma admission_rate_witness :
  (length (recent 30 (run_guards "s" (map (fun n => (N.of_nat n, Submit "s")) (seq 0 30)) default_guards).2) <= DOOM_MAX_TURNS)%nat.
Proof. apply (admission_rate "s" _ 0). cbn. repeat (split; [lia|]). exact I. Defined.

(** ** The breaker *)

(** While the breaker of [s] is open, and no turn of [s] that was still running
    succeeds, nothing of [s] is admitted. *)
Lemma breaker_blocks s ops : forall last u g, chronological last ops ->
  open_until (breaker_of g s) = Some u -> u <= last + BREAKER_COOLDOWN ->
  Forall (fun '(now, o) => now < u /\ o <> Succeeded s) ops -> (run_guards s ops g).2 = [].
Proof.
  induction ops as [|[now o] ops IH]; intros last u g Hc Hu Hl Hf; [done|]. destruct Hc as [Hn Hc].
  apply Forall_cons in Hf as [[Hlt Hne] Hf]. cbn.
  destruct (run_guard o now g) as [admitted g'] eqn:Hr.
  assert (exists u', open_until (breaker_of g' s) = Some u' /\ u <= u' <= now + BREAKER_COOLDOWN
          /\ (admitted && bool_decide (o = Submit s) = false)) as (u' & Hu' & [Hle Hle'] & Ha).
  { destruct o as [s'|s'|s']; cbn in Hr.
    - unfold check_submit in Hr. destruct (decide (s' = s)) as [->|Hs].
      + unfold check_breaker in Hr. rewrite Hu in Hr. destruct (N.ltb_spec now u); [|lia].
        cbn in Hr. simplify_eq. exists u. unfold breaker_of at 1. cbn. rewrite lookup_insert_eq.
        split_and!; [exact Hu|lia..|done].
      + assert (Hg : breaker_of g' s = breaker_of g s).
        { revert Hr. unfold check_breaker, record_doom_turn.
          repeat case_match; intros; simplify_eq; unfold breaker_of; cbn; by rewrite lookup_insert_ne. }
        exists u. rewrite Hg, bool_decide_false, andb_false_r by congruence. split_and!; [done|lia..|done].
    - simplify_eq. exists u. unfold record_success. split_and!; [|lia..|done].
      case_match; [|done]. unfold breaker_of. cbn. by rewrite lookup_insert_ne by congruence.
    - simplify_eq. unfold record_failure. destruct (decide (s' = s)) as [->|Hs].
      + unfold breaker_of at 1. cbn. rewrite lookup_insert_eq. cbn. case_match; cbn.
        * exists (now + BREAKER_COOLDOWN). split_and!; [done|lia..|done].
        * exists u. split_and!; [done|lia..|done].
      + unfold breaker_of. cbn. rewrite lookup_insert_ne by done. exists u. split_and!; [done|lia..|done]. }
  rewrite Ha. specialize (IH now u' g' Hc Hu' Hle'). destruct (run_guards s ops g') as [final times]. apply IH.
  eapply Forall_impl; [exact Hf|]. intros [n o'] [? ?]. split; [lia|done].
Qed.

(** Opening takes five consecutive failures, also after a cool-down: the breaker
    has no half-open state in which the next failure opens it again. *)
Lemma half_open_forgets g s u now : open_until (breaker_of g s) = Some u ->
  consecutive_failures (breaker_of g s) = 0 -> u <= now ->
  let g1 := (check_breaker (V := unit) g s now).2 in
  let fail g := record_failure g s now in
  is_ok (check_breaker (V := unit) g s now).1 = true
  /\ open_until (breaker_of (fail (fail (fail (fail g1)))) s) = None
  /\ open_until (breaker_of (fail (fail (fail (fail (fail g1))))) s) = Some (now + BREAKER_COOLDOWN).
Proof.
  intros Hu Hc Hle. unfold check_breaker. rewrite Hu, Hc. destruct (N.ltb_spec now u); [lia|].
  unfold record_failure, breaker_of. cbn. repeat (rewrite !lookup_insert_eq; cbn). done.
Qed.
