(* ===== verification/TurnEvents.v ===== *)
(** * The events of a turn

    Models the event ring of [crates/zen-gateway/src/server/hosting.rs], its
    replay by [session/resume], and the classifier of tool lines.  A writer of
    the ring takes a sequence number first and the lock after, so the two are
    separate operations here; [push_event] is both. *)

From S2P Require Import Prelude Json Text Rpc Guards.
From Stdlib Require Import Lia.
Local Open Scope list_scope.

Definition RING_CAPACITY : nat := 2048.
Definition RING_WINDOW : N := secs 60.

Section ring.
Context {V : Type} `{Json V}.

Record TurnEvent := { ev_seq : N; ev_kind : string; ev_payload : V; ev_at : N }.
Record Ring := { events : list TurnEvent; next_seq : N }.
Definition new_ring : Ring := {| events := []; next_seq := 1 |}.

(** ** Writing *)

Definition take_seq (r : Ring) : N * Ring :=
  (next_seq r, {| events := events r; next_seq := next_seq r + 1 |}).

Fixpoint drop_older (cutoff : N) (l : list TurnEvent) : list TurnEvent :=
  match l with
  | [] => []
  | e :: rest => if (ev_at e <? cutoff)%N then drop_older cutoff rest else l
  end.

(** Under the lock, which reads the clock: push, then evict by number and age. *)
Definition publish (seq : N) (kind : string) (payload : V) (now : N) (r : Ring) : Ring :=
  let pushed := events r ++ [{| ev_seq := seq; ev_kind := kind; ev_payload := payload; ev_at := now |}] in
  {| events := drop_older (now - RING_WINDOW) (drop (length pushed - RING_CAPACITY) pushed);
     next_seq := next_seq r |}.

Definition push_event (kind : string) (payload : V) (now : N) (r : Ring) : N * Ring :=
  let '(seq, r1) := take_seq r in (seq, publish seq kind payload now r1).

(** ** Reading *)

Definition events_after (after : N) (r : Ring) : list TurnEvent :=
  filter (fun e => (after < ev_seq e)%N) (events r).
Definition oldest_seq (r : Ring) : option N := ev_seq <$> head (events r).

(** [Map::insert] on the fields of an object. *)
Fixpoint json_insert (k : string) (v : V) (fields : list (string * V)) : list (string * V) :=
  match fields with
  | [] => [(k, v)]
  | (k', v') :: rest => if String.eqb k' k then (k, v) :: rest else (k', v') :: json_insert k v rest
  end.

Definition event_params (turn_id : string) (seq : N) (kind : string) (payload : V) : V :=
  j_obj (fold_left (fun obj '(k, v) => json_insert k v obj) (default [] (j_as_object payload))
           [("turnId", j_str turn_id); ("seq", j_int (Z.of_N seq)); ("kind", j_str kind)]%string).

(** What [resume] decides: a replay of the buffered events, or a snapshot. *)
Inductive ResumeAnswer := Snapshot (response : option string) | Replay (replayed : list TurnEvent).

(** [last_seq + 1] is the arithmetic of 64 bits. *)
Definition resume_record (r : Ring) (terminal : bool) (response : option string) (last_seq : N)
    : outcome ResumeAnswer :=
  let answer gap :=
    if gap || (terminal && bool_decide (oldest_seq r = None)) then Snapshot response
    else Replay (events_after last_seq r) in
  match oldest_seq r with
  | None => Done (answer false)
  | Some oldest =>
    if (last_seq + 1 <? 2 ^ 64)%N then Done (answer (last_seq + 1 <? oldest)%N) else Panic
  end.

Definition render_resume (turn_id : string) (a : ResumeAnswer) : V :=
  match a with
  | Snapshot response =>
    j_obj [("snapshot", j_bool true);
           ("response", match response with Some s => j_str s | None => j_null end);
           ("events", j_arr [])]%string
  | Replay l =>
    j_obj [("events", j_arr (map (fun e => event_params turn_id (ev_seq e) (ev_kind e) (ev_payload e)) l))]%string
  end.

(** ** A single writer

    Events pushed one after the other: each with its kind, payload and time. *)

Definition pushed_event : Type := string * V * N.

Definition push_one (r : Ring) (e : pushed_event) : Ring :=
  let '(kind, payload, now) := e in (push_event kind payload now r).2.
Definition push_all (l : list pushed_event) (r : Ring) : Ring := fold_left push_one l r.

Lemma push_all_snoc l e r : push_all (l ++ [e]) r = push_one (push_all l r) e.
Proof. unfold push_all. by rewrite fold_left_app. Qed.

(** Every event as it was pushed, numbered from [n]. *)
Fixpoint numbered (n : N) (l : list pushed_event) : list TurnEvent :=
  match l with
  | [] => []
  | (kind, payload, now) :: rest =>
    {| ev_seq := n; ev_kind := kind; ev_payload := payload; ev_at := now |} :: numbered (n + 1) rest
  end.

Lemma numbered_app n a b : numbered n (a ++ b) = numbered n a ++ numbered (n + N.of_nat (length a)) b.
Proof.
  revert n. induction a as [|[[k p] t] a IH]; intros n; cbn; [by rewrite N.add_0_r|].
  rewrite IH. do 3 f_equal. lia.
Qed.

Lemma length_numbered n l : length (numbered n l) = length l.
Proof. revert n. induction l as [|[[k p] t] l IH]; intros n; cbn; by rewrite ?IH. Qed.

Lemma numbered_lookup n l i e : numbered n l !! i = Some e -> ev_seq e = (n + N.of_nat i)%N.
Proof.
  revert n i. induction l as [|[[k p] t] l IH]; intros n [|i]; cbn; try done.
  - intros [= <-]. cbn. lia.
  - intros Hi%IH. lia.
Qed.

Lemma drop_older_suffix cutoff l : exists k, k <= length l /\ drop_older cutoff l = drop k l.
Proof.
  induction l as [|e l (k & Hk & IH)]; cbn; [by exists 0|].
  destruct (ev_at e <? cutoff)%N; [exists (S k)|exists 0]; cbn; split; try done; lia.
Qed.

(** The newest event is never evicted. *)
Lemma drop_older_last cutoff l e : (cutoff <= ev_at e)%N -> exists k, k <= length l /\ drop_older cutoff (l ++ [e]) = drop k l ++ [e].
Proof.
  intros He. induction l as [|e' l (k & Hk & IH)]; cbn.
  - exists 0. by destruct (N.ltb_spec (ev_at e) cutoff); [lia|].
  - destruct (ev_at e' <? cutoff)%N; [exists (S k)|exists 0]; cbn; split; try done; lia.
Qed.

(** The ring is a suffix of all that was pushed, the last event included. *)
Lemma push_all_suffix l : exists k,
  events (push_all l new_ring) = drop k (numbered 1 l)
  /\ next_seq (push_all l new_ring) = (1 + N.of_nat (length l))%N
  /\ (l <> [] -> k < length l) /\ k <= length l.
Proof.
  induction l as [|[[kind payload] now] l (k & He & Hn & _ & Hk)] using rev_ind.
  - exists 0. cbn. done.
  - rewrite push_all_snoc. cbn. rewrite He, Hn.
    set (e := {| ev_seq := _; ev_kind := _; ev_payload := _; ev_at := _ |}).
    rewrite length_app, length_drop, length_numbered. cbn [length].
    assert (Hd : forall d, d <= length l - k -> drop d (drop k (numbered 1 l) ++ [e]) = drop (k + d) (numbered 1 l) ++ [e]).
    { intros d Hd. rewrite drop_app_le by (rewrite length_drop, length_numbered; lia). by rewrite drop_drop. }
    rewrite Hd by (unfold RING_CAPACITY; lia).
    destruct (drop_older_last (now - RING_WINDOW) (drop (k + (length l - k + 1 - RING_CAPACITY)) (numbered 1 l)) e)
      as (k' & Hk' & ->); [cbn; lia|].
    rewrite length_drop, length_numbered in Hk'. rewrite drop_drop.
    exists (k + (length l - k + 1 - RING_CAPACITY) + k'). rewrite numbered_app, length_app. cbn [length numbered].
    assert (k + (length l - k + 1 - RING_CAPACITY) <= length l) by (unfold RING_CAPACITY; lia).
    split_and!; [|lia..].
    rewrite drop_app_le by (rewrite length_numbered; lia). done.
Qed.

(** With a single writer, [session/resume] is exact: it replays the events
    after [last_seq], every one and in order, unless one of them has left the
    ring, and then, only then, it answers with a snapshot. *)
Theorem resume_exact l terminal response last_seq : (last_seq + 1 < 2 ^ 64)%N -> l <> [] ->
  let missed := filter (fun e => (last_seq < ev_seq e)%N) (numbered 1 l) in
  exists evicted, numbered 1 l = evicted ++ events (push_all l new_ring) /\
  resume_record (push_all l new_ring) terminal response last_seq =
    Done (if bool_decide (Exists (fun e => (last_seq < ev_seq e)%N) evicted) then Snapshot response else Replay missed).
Proof.
  intros Hlast Hne missed. destruct (push_all_suffix l) as (k & He & _ & Hk & _). specialize (Hk Hne).
  exists (take k (numbered 1 l)). rewrite He, take_drop. split; [done|].
  assert (Hk' : k < length (numbered 1 l)) by by rewrite length_numbered.
  destruct (lookup_lt_is_Some_2 _ _ Hk') as [e Hl].
  assert (Ho : oldest_seq (push_all l new_ring) = Some (1 + N.of_nat k)%N).
  { unfold oldest_seq. rewrite He, head_lookup, lookup_drop, Nat.add_0_r, Hl. cbn. f_equal. by eapply numbered_lookup. }
  unfold resume_record. rewrite Ho. destruct (N.ltb_spec (last_seq + 1) (2 ^ 64)); [|lia].
  rewrite (bool_decide_false (Some _ = None)), andb_false_r, orb_false_r by done. f_equal.
  assert (Hg : (last_seq + 1 <? 1 + N.of_nat k)%N
             = bool_decide (Exists (fun e => (last_seq < ev_seq e)%N) (take k (numbered 1 l)))).
  { apply eq_bool_prop_intro. rewrite Is_true_true, bool_decide_spec, N.ltb_lt, Exists_exists. split.
    - intros Hlt. destruct k as [|k]; [lia|].
      destruct (lookup_lt_is_Some_2 (numbered 1 l) k) as [e' Hl']; [lia|]. exists e'. split.
      + apply (list_elem_of_lookup_2 _ k). rewrite lookup_take_lt by lia. done.
      + rewrite (numbered_lookup _ _ _ _ Hl'). lia.
    - intros (e' & [i Hi]%list_elem_of_lookup_1 & Hlt). apply lookup_take_Some in Hi as [Hi ?].
      rewrite (numbered_lookup _ _ _ _ Hi) in Hlt. lia. }
  rewrite <- Hg. destruct (N.ltb_spec (last_seq + 1) (1 + N.of_nat k)) as [|Hle]; [done|]. f_equal.
  unfold events_after, missed. rewrite He. rewrite <- (take_drop k (numbered 1 l)) at 2.
  rewrite filter_app, (list_filter_none _ (take k _)); [done|].
  intros e' [i Hi]%list_elem_of_lookup_1. apply lookup_take_Some in Hi as [Hi ?].
  rewrite (numbered_lookup _ _ _ _ Hi). lia.
Qed.

(** ** Two writers

    The task that flushes deltas and the callback of the executor both write:
    one takes a number, the other takes the next one and publishes first. *)
Definition race (now_a now_b : N) (a b : string * V) (r : Ring) : Ring :=
  let '(seq_a, r1) := take_seq r in
  let '(seq_b, r2) := take_seq r1 in
  publish seq_a a.1 a.2 now_a (publish seq_b b.1 b.2 now_b r2).

(** Then the ring is out of order, eviction drops the wrong event, and [resume]
    replays around the hole without noticing. *)
Lemma torn_replay (payload : V) :
  let r := race 1 0 ("delta"%string, payload) ("tool_started"%string, payload) new_ring in
  let r' := (push_event "turn_completed" payload (RING_WINDOW + 1) r).2 in
  map ev_seq (events r) = [2; 1]%N /\ map ev_seq (events r') = [1; 3]%N /\
  resume_record r' true None 0 = Done (Replay (events r')).
Proof. done. Qed.
End ring.

Lemma resume_exact_witness : exists evicted,
  numbered 1 [("delta"%string, JNull, 0%N)] = evicted ++ events (push_all [("delta"%string, JNull, 0%N)] new_ring)
  /\ resume_record (push_all [("delta"%string, JNull, 0%N)] new_ring) false None 0
     = Done (Replay (filter (fun e => (0 < ev_seq e)%N) (numbered 1 [("delta"%string, JNull, 0%N)]))).
Proof.
  destruct (resume_exact [("delta"%string, JNull, 0%N)] false None 0) as (evicted & He & Hr); [lia|done|].
  exists evicted. split; [done|]. rewrite Hr. by destruct evicted as [|? [|]].
Defined.

(** ** Tool lines *)

(** [serde_json::from_str]. *)
Class ParseJson (V : Type) := parse_json : text -> option V.

Definition TOOL_STARTED_MARKER : text := utf8 "🔧".
Definition TOOL_COMPLETED_MARKER : text := utf8 "✅".
Definition TOOL_PREVIEW_MAX_CHARS : nat := 100.

Inductive ToolIntermediate (V : Type) :=
  | Started (tool : text) (args : V)
  | ToolCompleted (tool : text) (count duration_ms : option N) (provider error preview : option text).
Arguments Started {V}. Arguments ToolCompleted {V}.

Definition is_tool_intermediate (line : text) : bool :=
  starts_with (trim_start line) TOOL_STARTED_MARKER || starts_with (trim_start line) TOOL_COMPLETED_MARKER.

(** The metrics of one token, given the token after it. *)
Definition scan_metric (m : option N * option N * option text) (tok : text) (next : option text)
    : option N * option N * option text :=
  let '(count, duration_ms, provider) := m in
  match strip_prefix tok (utf8 "provider=") with
  | Some p => (count, duration_ms, Some (trim_matches (fun c => (c =? 34)%N) p))
  | None =>
    match strip_suffix tok (utf8 "ms") ≫= parse_unsigned 64 with
    | Some n => (count, match duration_ms with None => Some n | Some _ => duration_ms end, provider)
    | None =>
      match parse_unsigned 64 tok with
      | Some n =>
        if bool_decide (count = None)
           && match next with Some t => starts_with t (utf8 "hit") | None => false end
        then (Some n, duration_ms, provider) else m
      | None => m
      end
    end
  end.

Fixpoint scan_metrics_from (m : option N * option N * option text) (tokens : list text)
    : option N * option N * option text :=
  match tokens with
  | [] => m
  | tok :: rest => scan_metrics_from (scan_metric m tok (head rest)) rest
  end.
Definition scan_metrics (detail : text) : option N * option N * option text :=
  scan_metrics_from (None, None, None) (split_whitespace detail).

(** ASCII letters only change case: positions are those of the text. *)
Definition find_ignore_case (hay needle : text) : option nat :=
  match needle with [] => None | _ => find (map ascii_lower hay) (map ascii_lower needle) end.

Definition extract_error (detail : text) : option text :=
  let after keyword :=
    at_ ← find_ignore_case detail keyword;
    let rest := trim (trim_start_matches (fun c => (c =? 58)%N || (c =? 61)%N)
                        (trim_start (drop (at_ + length keyword) detail))) in
    if bool_decide (rest = []) then None else Some rest in
  match after (utf8 "failed") with Some e => Some e | None => after (utf8 "error") end.

Definition truncate_chars (s : text) (max : nat) : text := take max s.

Section tools.
Context {V : Type} `{Json V, ParseJson V}.

Definition parse_tool_header (line : text) : option (ToolIntermediate V) :=
  let completed := starts_with line TOOL_COMPLETED_MARKER in
  stripped ← match strip_prefix line TOOL_COMPLETED_MARKER with
             | Some r => Some r
             | None => strip_prefix line TOOL_STARTED_MARKER
             end;
  let rest := trim stripped in
  let '(tool, detail) := match split_once_by is_whitespace rest with
                         | Some (tool, detail) => (tool, trim detail)
                         | None => (rest, [])
                         end in
  if bool_decide (tool = []) then None
  else if negb completed then
    Some (Started tool
      (match parse_json detail with
       | Some args =>
         match j_as_object args with
         | Some _ => args
         | None => if bool_decide (detail = []) then j_obj [] else j_obj [("raw"%string, j_str (to_string detail))]
         end
       | None => if bool_decide (detail = []) then j_obj [] else j_obj [("raw"%string, j_str (to_string detail))]
       end))
  else
    let '(count, duration_ms, provider) := scan_metrics detail in
    Some (ToolCompleted tool count duration_ms provider (extract_error detail) None).

(** The last event, if it waits for its preview, with the line as its preview. *)
Fixpoint take_preview (l : list (ToolIntermediate V)) (line : text) : option (list (ToolIntermediate V)) :=
  match l with
  | [] => None
  | [ToolCompleted tool c d p e None] => Some [ToolCompleted tool c d p e (Some (truncate_chars line TOOL_PREVIEW_MAX_CHARS))]
  | [_] => None
  | x :: rest => (fun r => x :: r) <$> take_preview rest line
  end.

Record split_state := { sp_text : text; sp_events : list (ToolIntermediate V); collecting_preview : bool }.

Definition split_line (s : split_state) (line : text) : split_state :=
  if is_tool_intermediate line then
    {| sp_text := sp_text s;
       sp_events := sp_events s ++ match parse_tool_header (trim_start line) with Some e => [e] | None => [] end;
       collecting_preview := starts_with (trim_start line) TOOL_COMPLETED_MARKER |}
  else
    match (if collecting_preview s && negb (bool_decide (trim line = [])) then take_preview (sp_events s) line else None) with
    | Some evs => {| sp_text := sp_text s; sp_events := evs; collecting_preview := collecting_preview s |}
    | None =>
      {| sp_text := if bool_decide (line = []) && bool_decide (sp_text s = []) then sp_text s
                    else (if bool_decide (sp_text s = []) then [] else sp_text s ++ [10%N]) ++ line;
         sp_events := sp_events s; collecting_preview := false |}
    end.

Definition split_tool_intermediates (token : text) : text * list (ToolIntermediate V) :=
  let s := fold_left split_line (split_on 10%N token) {| sp_text := []; sp_events := []; collecting_preview := false |} in
  (sp_text s, sp_events s).

(** *** Plain text *)

Lemma plain_lines ls t : t <> [] -> Forall (fun l => is_tool_intermediate l = false) ls ->
  fold_left split_line ls {| sp_text := t; sp_events := []; collecting_preview := false |}
  = {| sp_text := t ++ concat (map (cons 10%N) ls); sp_events := []; collecting_preview := false |}.
Proof.
  intros Ht Hl. revert t Ht. induction Hl as [|l ls Hl _ IH]; intros t Ht; cbn [fold_left map concat].
  - by rewrite app_nil_r.
  - unfold split_line at 2. rewrite Hl. cbn [sp_text sp_events collecting_preview andb].
    rewrite (bool_decide_false (t = [])), andb_false_r by done.
    rewrite IH by (by destruct t). by rewrite <- !app_assoc.
Qed.

Lemma split_on_no_feed t : Forall (fun l => 10%N ∉ l) (split_on 10%N t).
Proof.
  induction t as [|c t IH]; cbn; [repeat constructor; apply not_elem_of_nil|].
  destruct (N.eqb_spec c 10) as [->|Hc]; [constructor; [apply not_elem_of_nil|done]|].
  destruct IH as [|l ls Hl IH]; (constructor; [apply not_elem_of_cons; split; [congruence|]|done]); [apply not_elem_of_nil|done].
Qed.

Lemma plain_from_nothing ls : Forall (fun l => is_tool_intermediate l = false /\ 10%N ∉ l) ls ->
  fold_left split_line ls {| sp_text := []; sp_events := []; collecting_preview := false |}
  = {| sp_text := trim_start_matches (fun c => (c =? 10)%N) (join_lines ls); sp_events := []; collecting_preview := false |}.
Proof.
  induction 1 as [|l ls [Hl Hn] Hls IH]; [done|]. cbn [fold_left]. destruct l as [|c l].
  - change (split_line _ _) with {| sp_text := [] : text; sp_events := [] : list (ToolIntermediate V); collecting_preview := false |}.
    rewrite IH. by destruct ls.
  - rewrite join_lines_feeds. unfold split_line at 2. rewrite Hl. cbn. rewrite not_elem_of_cons in Hn. destruct (N.eqb_spec c 10); [naive_solver|].
    rewrite plain_lines; [done..|]. eapply Forall_impl; [exact Hls|]. by intros ? [? _].
Qed.

(** A token without marker lines goes to the deltas unchanged but for the line
    feeds it opens with, which are lost: a token that is only a line feed leaves
    nothing. *)
Lemma split_plain token : Forall (fun l => is_tool_intermediate l = false) (split_on 10%N token) ->
  split_tool_intermediates token = (trim_start_matches (fun c => (c =? 10)%N) token, []).
Proof.
  intros Hl. unfold split_tool_intermediates. rewrite plain_from_nothing; cbn; [by rewrite join_split|].
  apply Forall_and. split; [done|apply split_on_no_feed].
Qed.
End tools.
