(* ===== verification/Dispatch.v ===== *)
(** * Dispatch of one connection

    Models [crates/zen-gateway/src/server/dispatch.rs]: the handshake gate, the
    routing of requests to handlers, and the pending requests of the server.
    Handlers act on a state [W] of the daemon.  A spawned request runs when the
    runtime gets to it: it is a task until then. *)

From S2P Require Import Prelude Json Text Rpc.
From stdpp Require Import gmap.
From Stdlib Require Import Lia.
Local Open Scope list_scope.

Definition SPAWNED_METHODS : list string := ["session/turn"; "knowledge/search"; "memory/putEntry"]%string.
Definition SLOW_POOL_METHODS : list string :=
  ["health/status"; "agent/list"; "agent/status"; "skill/list"; "memory/stats"; "memory/search"]%string.
Definition SLOW_POOL_LIMIT : nat := 4.

(** [pending]: the waiting end of each request of the server, by its id. *)
Record Shared := {
  hs_state : HandshakeState;
  caps : Capabilities;
  pending : gmap string nat;
  next_server_id : N;
  last_handshake : option (Info * Capabilities);
  slow_permits : nat;
}.

Definition new_shared : Shared :=
  {| hs_state := HConnecting; caps := default_capabilities; pending := ∅; next_server_id := 0;
     last_handshake := None; slow_permits := SLOW_POOL_LIMIT |}.

Definition set_hs (st : HandshakeState) (c : Capabilities) (l : option (Info * Capabilities)) (s : Shared) : Shared :=
  {| hs_state := st; caps := c; pending := pending s; next_server_id := next_server_id s;
     last_handshake := l; slow_permits := slow_permits s |}.
Definition set_pending (p : gmap string nat) (n : N) (s : Shared) : Shared :=
  {| hs_state := hs_state s; caps := caps s; pending := p; next_server_id := n;
     last_handshake := last_handshake s; slow_permits := slow_permits s |}.
Definition set_permits (n : nat) (s : Shared) : Shared :=
  {| hs_state := hs_state s; caps := caps s; pending := pending s; next_server_id := next_server_id s;
     last_handshake := last_handshake s; slow_permits := n |}.

Section dispatch.
Context {V W : Type} `{Json V, DecodeInitialize V}.

(** The installed handlers. *)
Context (handlers : string -> option (V -> W -> result V (RpcError V) * W)).
(** [serde_json::to_value] of the answer to [initialize]. *)
Context (encode_initialize : InitializeResult -> V).

Definition identity_of (params : V) : Info :=
  let field k d := default d (c ← j_get params "clientInfo"; j_get c k ≫= j_as_str) in
  {| info_name := field "name" "unknown"; info_version := field "version" "0" |}%string.

Definition dispatch_request (s : Shared) (w : W) (method : string) (params : V)
    : result V (RpcError V) * Shared * W :=
  if String.eqb method "initialize" then
    if bool_decide (hs_state s = HInitialized) then (Err not_initialized, s, w)
    else
      match handle_initialize params with
      | Ok r => (Ok (encode_initialize r),
                 set_hs (hs_state s) (r_capabilities r) (Some (identity_of params, r_capabilities r)) s, w)
      | Err e => (Err e, s, w)
      end
  else if negb (bool_decide (hs_state s = HInitialized)) then (Err not_initialized, s, w)
  else
    match lookup_method method with
    | None => (Err (method_not_found client_request_methods), s, w)
    | Some _ =>
      match handlers method with
      | Some handler => let '(r, w') := handler params w in (r, s, w')
      | None => (Err (internal ("method " ++ method ++ " registered but no handler installed")), s, w)
      end
    end.

(** [complete_pending]: the waiting end that is resolved, and with what. *)
Definition client_outcome (res : option V) (error : option (RpcErrorBody V)) : result V (RpcError V) :=
  match res, error with
  | Some value, None => Ok value
  | _, Some body => Err (client_error (b_code body) (b_message body) (b_data body))
  | None, None => Err (internal "client response carried no result")
  end.

Definition complete_pending (s : Shared) (id : string) (res : option V) (error : option (RpcErrorBody V))
    : option (nat * result V (RpcError V)) * Shared :=
  match pending s !! id with
  | None => (None, s)
  | Some token => (Some (token, client_outcome res error), set_pending (delete id (pending s)) (next_server_id s) s)
  end.

(** ** The receive loop *)

Record Conn := {
  shared : Shared;
  daemon : W;
  sent : list (Frame V);                     (* oldest first *)
  tasks : list (N * string * V);             (* spawned requests not yet run *)
  resolved : list (nat * result V (RpcError V));
  ready : list (Info * Capabilities);        (* what [on_client_ready] was called with *)
}.

Definition respond (c : Conn) (id : N) (method : string) (params : V) : Conn :=
  let '(r, s, w) := dispatch_request (shared c) (daemon c) method params in
  {| shared := s; daemon := w; sent := sent c ++ [ServerResponse id r]; tasks := tasks c;
     resolved := resolved c; ready := ready c |}.

Definition with_shared (s : Shared) (c : Conn) : Conn :=
  {| shared := s; daemon := daemon c; sent := sent c; tasks := tasks c; resolved := resolved c; ready := ready c |}.

Definition on_frame (c : Conn) (f : Frame V) : Conn :=
  match f with
  | ClientRequest id method params =>
    if bool_decide (method ∈ SPAWNED_METHODS) then
      {| shared := shared c; daemon := daemon c; sent := sent c; tasks := tasks c ++ [(id, method, params)];
         resolved := resolved c; ready := ready c |}
    else
      let slow := bool_decide (method ∈ SLOW_POOL_METHODS) in
      if slow && bool_decide (slow_permits (shared c) = 0) then
        {| shared := shared c; daemon := daemon c; sent := sent c ++ [ServerResponse id (Err (rate_limited 1000))];
           tasks := tasks c; resolved := resolved c; ready := ready c |}
      else
        (* the permit is held for the inline call *)
        let held := if slow then 1 else 0 in
        let c1 := respond (with_shared (set_permits (slow_permits (shared c) - held) (shared c)) c) id method params in
        with_shared (set_permits (slow_permits (shared c1) + held) (shared c1)) c1
  | Notification method _ =>
    if String.eqb method "initialized" then
      let s := shared c in
      {| shared := set_hs HInitialized (caps s) None s; daemon := daemon c; sent := sent c; tasks := tasks c;
         resolved := resolved c;
         ready := ready c ++ match last_handshake s with Some h => [h] | None => [] end |}
    else c
  | ClientResponse id res error =>
    let '(r, s) := complete_pending (shared c) id res error in
    {| shared := s; daemon := daemon c; sent := sent c; tasks := tasks c;
       resolved := resolved c ++ match r with Some x => [x] | None => [] end; ready := ready c |}
  | ServerResponse _ _ | ServerRequest _ _ _ => c
  end.

(** A frame arrives, or the runtime runs a spawned request. *)
Inductive conn_step := Arrives (f : Frame V) | RunTask (n : nat).

Definition run_step (c : Conn) (o : conn_step) : Conn :=
  match o with
  | Arrives f => on_frame c f
  | RunTask n =>
    match tasks c !! n with
    | None => c
    | Some (id, method, params) =>
      let c1 := respond c id method params in
      {| shared := shared c1; daemon := daemon c1; sent := sent c1; tasks := delete n (tasks c);
         resolved := resolved c1; ready := ready c1 |}
    end
  end.

Definition run_conn (ops : list conn_step) (c : Conn) : Conn := fold_left run_step ops c.

Definition new_conn (w : W) : Conn :=
  {| shared := new_shared; daemon := w; sent := []; tasks := []; resolved := []; ready := [] |}.

(** ** Properties *)

Definition response_id (f : Frame V) : option N := match f with ServerResponse id _ => Some id | _ => None end.
Definition request_id (o : conn_step) : option N := match o with Arrives (ClientRequest id _ _) => Some id | _ => None end.

Lemma dispatch_request_permits s w method params :
  slow_permits (dispatch_request s w method params).1.2 = slow_permits s.
Proof. unfold dispatch_request. by repeat case_match. Qed.

Lemma respond_eq c id method params :
  exists r, sent (respond c id method params) = sent c ++ [ServerResponse id r]
  /\ tasks (respond c id method params) = tasks c
  /\ slow_permits (shared (respond c id method params)) = slow_permits (shared c).
Proof.
  unfold respond. pose proof (dispatch_request_permits (shared c) (daemon c) method params) as Hp.
  destruct (dispatch_request _ _ _ _) as [[r s] w]. by exists r.
Qed.

(** The permits of the slow pool are all free between two frames. *)
Lemma run_step_permits c o : slow_permits (shared c) = SLOW_POOL_LIMIT -> slow_permits (shared (run_step c o)) = SLOW_POOL_LIMIT.
Proof.
  intros Hp. destruct o as [f|n]; cbn.
  - destruct f as [id method params| | |id res error|method params]; cbn; try done.
    + case_bool_decide; [done|]. case_match; [done|].
      destruct (respond_eq (with_shared (set_permits (slow_permits (shared c) - if bool_decide (method ∈ SLOW_POOL_METHODS) then 1 else 0)
        (shared c)) c) id method params) as (r & _ & _ & Hs). cbn in Hs.
      cbn. rewrite Hs, Hp. by case_match.
    + unfold complete_pending. by destruct (pending (shared c) !! id).
    + by case_match.
  - destruct (tasks c !! n) as [[[id method] params]|]; [|done]. cbn.
    by destruct (respond_eq c id method params) as (r & _ & _ & ->).
Qed.

Lemma omap_snoc {A B} (f : A -> option B) l x : omap f (l ++ [x]) = omap f l ++ match f x with Some y => [y] | None => [] end.
Proof. rewrite omap_app. cbn. by destruct (f x). Qed.

Definition open_ids (c : Conn) : list N := omap response_id (sent c) ++ map (fun t => t.1.1) (tasks c).

Lemma run_step_ids c o : open_ids (run_step c o) ≡ₚ open_ids c ++ match request_id o with Some id => [id] | None => [] end.
Proof.
  unfold open_ids. destruct o as [f|n]; cbn.
  - destruct f as [id method params| | |id res error|method params]; cbn; rewrite ?app_nil_r; try done.
    + case_bool_decide; cbn; [by rewrite map_app, app_assoc|]. case_match; cbn.
      * rewrite omap_snoc. cbn. solve_Permutation.
      * destruct (respond_eq (with_shared (set_permits (slow_permits (shared c) - if bool_decide (method ∈ SLOW_POOL_METHODS) then 1 else 0)
          (shared c)) c) id method params) as (r & Hs & Ht & _). cbn in Hs, Ht. rewrite Hs, Ht, omap_snoc. cbn. solve_Permutation.
    + unfold complete_pending. by destruct (pending (shared c) !! id).
    + by case_match.
  - destruct (tasks c !! n) as [[[id method] params]|] eqn:Hn; cbn; [|by rewrite app_nil_r].
    destruct (respond_eq c id method params) as (r & -> & _). rewrite omap_snoc, app_nil_r. cbn.
    rewrite <- (take_drop_middle _ _ _ Hn) at 2. rewrite delete_take_drop, !map_app. cbn. solve_Permutation.
Qed.

(** Every request is answered once: the identifiers of the responses sent and of
    the requests still waiting to run are those of the requests received. *)
Theorem answered_once w ops :
  open_ids (run_conn ops (new_conn w)) ≡ₚ omap request_id ops.
Proof.
  induction ops as [|o ops IH] using rev_ind; [done|].
  unfold run_conn. rewrite fold_left_app, omap_snoc. cbn. rewrite run_step_ids. by rewrite <- IH.
Qed.

(** Before the notification [initialized] the gate is shut: no handler runs, and
    the daemon is as it was. *)
Definition shut (w : W) (c : Conn) : Prop := hs_state (shared c) = HConnecting /\ daemon c = w /\ ready c = [].

Lemma dispatch_request_shut s w method params : hs_state s = HConnecting ->
  hs_state (dispatch_request s w method params).1.2 = HConnecting /\ (dispatch_request s w method params).2 = w.
Proof. intros Hs. unfold dispatch_request. rewrite Hs. repeat case_match; cbn in *; try done. Qed.

Lemma respond_shut w c id method params : shut w c -> shut w (respond c id method params).
Proof.
  intros (Hs & <- & Hr). unfold respond, shut. pose proof (dispatch_request_shut (shared c) (daemon c) method params Hs) as [??].
  by destruct (dispatch_request _ _ _ _) as [[r s] w'].
Qed.

Definition opens_gate (o : conn_step) : bool :=
  match o with Arrives (Notification method _) => String.eqb method "initialized" | _ => false end.

Lemma run_step_shut w c o : opens_gate o = false -> shut w c -> shut w (run_step c o).
Proof.
  intros Ho Hc. destruct o as [f|n]; cbn in *.
  - destruct f as [id method params| | |id res error|method params]; cbn in *; try done.
    + case_bool_decide; [done|]. case_match; [done|].
      assert (Hc' : shut w (with_shared (set_permits (slow_permits (shared c) - if bool_decide (method ∈ SLOW_POOL_METHODS) then 1 else 0)
        (shared c)) c)) by exact Hc.
      by destruct (respond_shut w _ id method params Hc') as (? & ? & ?).
    + unfold complete_pending. by destruct (pending (shared c) !! id).
    + by rewrite Ho.
  - destruct (tasks c !! n) as [[[id method] params]|]; [|done].
    by destruct (respond_shut w _ id method params Hc) as (? & ? & ?).
Qed.

Theorem gate_holds w ops : Forall (fun o => opens_gate o = false) ops -> shut w (run_conn ops (new_conn w)).
Proof.
  induction ops as [|o ops IH] using rev_ind; intros Ho; [done|].
  apply Forall_app in Ho as [Ho [Ho1 _]%Forall_cons]. unfold run_conn. rewrite fold_left_app.
  cbn. apply run_step_shut; [done|by apply IH].
Qed.

(** The pool of the slow methods never sheds load: [rate_limited] is answered
    only by a handler, for the calls are run inline, one at a time. *)
Lemma slow_pool_never_sheds ops w : slow_permits (shared (run_conn ops (new_conn w))) = SLOW_POOL_LIMIT.
Proof.
  induction ops as [|o ops IH] using rev_ind; [done|]. unfold run_conn. rewrite fold_left_app. by apply run_step_permits.
Qed.
End dispatch.

(** ** A connection that runs *)

#[local] Instance demo_decode : DecodeInitialize jval := fun _ => Err "not decoded"%string.

(** A handler that counts its calls. *)
Definition demo_handlers (_ : string) : option (jval -> nat -> result jval (RpcError jval) * nat) :=
  Some (fun _ n => (Ok JNull, S n)).

Definition demo_run (ops : list conn_step) : Conn := run_conn demo_handlers (fun _ => JNull) ops (new_conn 0).

(** The gate opens on the notification alone: without [initialize], and so
    without a negotiated version, a method runs. *)
Lemma handshake_skipped :
  let c := demo_run [Arrives (Notification "initialized" JNull); Arrives (ClientRequest 1 "shutdown" JNull)]%string in
  sent c = [ServerResponse 1 (Ok JNull)] /\ daemon c = 1 /\ ready c = [].
Proof. done. Qed.

Lemma gate_holds_witness :
  shut 0 (run_conn demo_handlers (fun _ => JNull)
            [Arrives (ClientRequest 1 "shutdown" JNull); Arrives (ClientRequest 2 "session/turn" JNull); RunTask 0]%string
            (new_conn 0)).
Proof. apply (gate_holds demo_handlers (fun _ => JNull) 0). by repeat constructor. Defined.
