(* ===== verification/Approval.v ===== *)
(** * Approvals

    Models [crates/zen-gateway/src/server/approval.rs] with the requests of the
    server in [dispatch.rs]: a sandbox hook asks the broker, the broker finds
    the route of the hook's turn, the route's worker asks the connection that
    submitted the turn, and the client answers or a deadline passes.  A run is a
    sequence of steps of these parties, cut where the code releases its locks or
    awaits; the deadlines are steps that may come at any time. *)

From S2P Require Import Prelude Json Text Rpc Dispatch.
From stdpp Require Import gmap.
From Stdlib Require Import Lia.
Local Open Scope list_scope.

Section approval.
Context {V : Type} {HJson : Json V}.

(** [jb_reply]: the call that waits for the reply. *)
Record ApprovalJob := { jb_name : string; jb_args : V; jb_reply : nat }.

Definition job_invocation (name : string) (args : V) : V := j_obj [("name", j_str name); ("args", args)]%string.
Definition job_reason (name : string) : string := "hosted turn requires approval for " ++ name.

Record TurnRoute := { rt_turn : string; rt_worker : nat; claimed : bool }.

(** A worker: the job it is at, with the request's id and its outcome once
    resolved; [can_cancel]: the cancellation has not been used. *)
Record Worker := {
  wk_turn : string;
  wk_conn : nat;
  jobs : list ApprovalJob;
  current : option (ApprovalJob * string * option (result V (RpcError V)));
  can_cancel : bool;
}.

(** A call of the hook: waiting for the worker, with a reply in its channel, or
    returned. *)
Inductive call_state := Waiting (worker : nat) | Replied (worker : nat) (approve : bool) | Returned (approve : bool).
Record Call := { cl_turn : option string; cl_name : string; cl_args : V; cl_state : call_state }.

Record Broker := {
  conns : gmap nat Shared;
  routes : list TurnRoute;
  workers : gmap nat Worker;
  calls : gmap nat Call;
  cancels : list string;                              (* turns whose cancellation was requested *)
  outbox : list (nat * string * V);                   (* requests sent: connection, id, params *)
  heard : list (nat * string * result V (RpcError V)); (* requests resolved by the client *)
}.

Definition empty_broker : Broker :=
  {| conns := ∅; routes := []; workers := ∅; calls := ∅; cancels := []; outbox := []; heard := [] |}.

Definition upd_conns (f : gmap nat Shared -> gmap nat Shared) (b : Broker) : Broker :=
  {| conns := f (conns b); routes := routes b; workers := workers b; calls := calls b; cancels := cancels b;
     outbox := outbox b; heard := heard b |}.
Definition upd_routes (f : list TurnRoute -> list TurnRoute) (b : Broker) : Broker :=
  {| conns := conns b; routes := f (routes b); workers := workers b; calls := calls b; cancels := cancels b;
     outbox := outbox b; heard := heard b |}.
Definition upd_workers (f : gmap nat Worker -> gmap nat Worker) (b : Broker) : Broker :=
  {| conns := conns b; routes := routes b; workers := f (workers b); calls := calls b; cancels := cancels b;
     outbox := outbox b; heard := heard b |}.
Definition upd_calls (f : gmap nat Call -> gmap nat Call) (b : Broker) : Broker :=
  {| conns := conns b; routes := routes b; workers := workers b; calls := f (calls b); cancels := cancels b;
     outbox := outbox b; heard := heard b |}.
Definition upd_logs (cs : list string) (o : list (nat * string * V))
    (h : list (nat * string * result V (RpcError V))) (b : Broker) : Broker :=
  {| conns := conns b; routes := routes b; workers := workers b; calls := calls b; cancels := cancels b ++ cs;
     outbox := outbox b ++ o; heard := heard b ++ h |}.

Definition set_worker (rid : nat) (w : Worker) : Broker -> Broker := upd_workers (<[rid := w]>).
Definition set_current (c : option (ApprovalJob * string * option (result V (RpcError V)))) (l : list ApprovalJob)
    (cancel : bool) (w : Worker) : Worker :=
  {| wk_turn := wk_turn w; wk_conn := wk_conn w; jobs := l; current := c; can_cancel := cancel |}.

(** ** Registration *)

Definition register (rid : nat) (turn_id : string) (conn : nat) (b : Broker) : Broker :=
  match workers b !! rid with
  | Some _ => b
  | None =>
    upd_routes (fun l => l ++ [{| rt_turn := turn_id; rt_worker := rid; claimed := false |}])
      (set_worker rid {| wk_turn := turn_id; wk_conn := conn; jobs := []; current := None; can_cancel := true |} b)
  end.

Definition deregister (turn_id : string) : Broker -> Broker := upd_routes (filter (fun r => rt_turn r <> turn_id)).

(** ** Decisions *)

Definition set_claimed (worker : nat) (v : bool) (l : list TurnRoute) : list TurnRoute :=
  map (fun r => if (rt_worker r =? worker)%nat then {| rt_turn := rt_turn r; rt_worker := rt_worker r; claimed := v |} else r) l.

(** The route that serves a call: of its turn, or the first free one when the
    call has no turn. *)
Definition find_route (turn : option string) (l : list TurnRoute) : option TurnRoute :=
  snd <$> match turn with
          | Some t => list_find (fun r => rt_turn r = t /\ claimed r = false) l
          | None => list_find (fun r => claimed r = false) l
          end.

Definition decide_call (cid : nat) (turn : option string) (name : string) (args : V) (b : Broker) : Broker :=
  match calls b !! cid with
  | Some _ => b
  | None =>
    let call st := {| cl_turn := turn; cl_name := name; cl_args := args; cl_state := st |} in
    match find_route turn (routes b) with
    | None => upd_calls (<[cid := call (Returned false)]>) b
    | Some r =>
      let rid := rt_worker r in
      match workers b !! rid with
      | None => upd_calls (<[cid := call (Returned false)]>) b
      | Some w =>
        upd_calls (<[cid := call (Waiting rid)]>)
          (upd_routes (set_claimed rid true)
             (set_worker rid (set_current (current w)
                                (jobs w ++ [{| jb_name := name; jb_args := args; jb_reply := cid |}]) (can_cancel w) w) b))
      end
    end
  end.

(** The channel of a call takes one reply, and none once the call is gone. *)
Definition reply (cid : nat) (approve : bool) : Broker -> Broker :=
  upd_calls (fun m =>
    match m !! cid with
    | Some {| cl_turn := t; cl_name := n; cl_args := a; cl_state := Waiting rid |} =>
      <[cid := {| cl_turn := t; cl_name := n; cl_args := a; cl_state := Replied rid approve |}]> m
    | _ => m
    end).

(** The end of [blocking_round_trip]: with the reply, or at its own deadline. *)
Definition wake (cid : nat) (expired : bool) (b : Broker) : Broker :=
  match calls b !! cid with
  | Some c =>
    let back rid v := upd_routes (set_claimed rid false)
      (upd_calls (<[cid := {| cl_turn := cl_turn c; cl_name := cl_name c; cl_args := cl_args c; cl_state := Returned v |}]>) b) in
    match cl_state c with
    | Replied rid v => back rid v
    | Waiting rid => if expired then back rid false else b
    | Returned _ => b
    end
  | None => b
  end.

(** ** The worker and [request_approval_with_timeout] *)

Definition request_params (w : Worker) (j : ApprovalJob) : V :=
  j_obj [("turnId", j_str (wk_turn w)); ("invocation", job_invocation (jb_name j) (jb_args j));
         ("reason", j_str (job_reason (jb_name j)))]%string.

(** What the worker does with the outcome of a request. *)
Definition conclude (rid : nat) (w : Worker) (j : ApprovalJob) (outcome : result V (RpcError V)) (b : Broker) : Broker :=
  match outcome with
  | Ok v =>
    reply (jb_reply j) (bool_decide (j_get v "decision" ≫= j_as_str = Some "approve"%string))
      (set_worker rid (set_current None (jobs w) (can_cancel w) w) b)
  | Err e =>
    let timed_out := (err_code e =? -32011)%Z in
    reply (jb_reply j) false
      (upd_logs (if timed_out && can_cancel w then [wk_turn w] else []) [] []
         (set_worker rid (set_current None (jobs w) (can_cancel w && negb timed_out) w) b))
  end.

(** [sends]: whether the transport takes the frame. *)
Definition ask (rid : nat) (sends : bool) (b : Broker) : Broker :=
  match workers b !! rid with
  | Some w =>
    match current w, jobs w with
    | None, j :: rest =>
      let w := set_current None rest (can_cancel w) w in
      match conns b !! wk_conn w with
      | None => conclude rid w j (Err (internal "approval send failed")) b
      | Some s =>
        if negb (approvals (caps s)) then conclude rid w j (Err approval_unsupported) b
        else
          let n := (next_server_id s + 1)%N in
          let id := ("srv-" ++ pretty n)%string in
          if sends then
            set_worker rid (set_current (Some (j, id, None)) rest (can_cancel w) w)
              (upd_logs [] [(wk_conn w, id, request_params w j)] []
                 (upd_conns (<[wk_conn w := set_pending (<[id := rid]> (pending s)) n s]>) b))
          else
            conclude rid w j (Err (internal "approval send failed"))
              (upd_conns (<[wk_conn w := set_pending (delete id (pending s)) n s]>) b)
      end
    | _, _ => b
    end
  | None => b
  end.

(** A response of the client on connection [c]. *)
Definition hear (c : nat) (id : string) (res : option V) (error : option (RpcErrorBody V)) (b : Broker) : Broker :=
  match conns b !! c with
  | None => b
  | Some s =>
    match complete_pending s id res error with
    | (None, _) => b
    | (Some (rid, outcome), s') =>
      let b' := upd_logs [] [] [(c, id, outcome)] (upd_conns (<[c := s']>) b) in
      match workers b !! rid with
      | Some w =>
        match current w with
        | Some (j, id', None) =>
          if String.eqb id' id
          then set_worker rid (set_current (Some (j, id, Some outcome)) (jobs w) (can_cancel w) w) b'
          else b'
        | _ => b'
        end
      | None => b'
      end
    end
  end.

(** The worker gets the outcome, or its deadline passes first. *)
Definition finish (rid : nat) (timed_out : bool) (b : Broker) : Broker :=
  match workers b !! rid with
  | Some w =>
    match current w with
    | Some (j, _, Some outcome) => conclude rid w j outcome b
    | Some (j, id, None) =>
      if timed_out then
        conclude rid w j (Err (approval_timeout (wk_turn w)))
          (upd_conns (alter (fun s => set_pending (delete id (pending s)) (next_server_id s) s) (wk_conn w)) b)
      else b
    | None => b
    end
  | None => b
  end.

(** A connection appears, or negotiates its capabilities. *)
Definition connect (c : nat) (cs : Capabilities) : Broker -> Broker :=
  upd_conns (fun m =>
    let s := default new_shared (m !! c) in <[c := set_hs (hs_state s) cs (last_handshake s) s]> m).

Inductive broker_step :=
  | Connect (c : nat) (cs : Capabilities)
  | Register (rid : nat) (turn_id : string) (c : nat)
  | Deregister (turn_id : string)
  | DecideCall (cid : nat) (turn : option string) (name : string) (args : V)
  | Wake (cid : nat) (expired : bool)
  | Ask (rid : nat) (sends : bool)
  | Hear (c : nat) (id : string) (res : option V) (error : option (RpcErrorBody V))
  | Finish (rid : nat) (timed_out : bool).

Definition step_broker (b : Broker) (o : broker_step) : Broker :=
  match o with
  | Connect c cs => connect c cs b
  | Register rid t c => register rid t c b
  | Deregister t => deregister t b
  | DecideCall cid t n a => decide_call cid t n a b
  | Wake cid e => wake cid e b
  | Ask rid s => ask rid s b
  | Hear c id r e => hear c id r e b
  | Finish rid t => finish rid t b
  end.

Definition run_broker (ops : list broker_step) : Broker := fold_left step_broker ops empty_broker.
End approval.
