(* ===== verification/ApprovalProps.v ===== *)
(** * What an approval means

    A call of the sandbox hook is allowed only by the connection that submitted
    the call's turn, answering the request of that very call. *)

From S2P Require Import Prelude Json Text Rpc Dispatch Approval.
From stdpp Require Import gmap.
From Stdlib Require Import Lia.
Local Open Scope list_scope.

Section approval.
Context {V : Type} {HJson : Json V}.
Implicit Types (b : Broker (V := V)) (w : Worker (V := V)) (j : ApprovalJob (V := V)) (cl : Call (V := V)).

Definition approves (v : V) : Prop := j_get v "decision" ≫= j_as_str = Some "approve"%string.

(** The request for a call, as its connection sees it. *)
Definition request_for (turn name : string) (args : V) : V :=
  j_obj [("turnId", j_str turn); ("invocation", job_invocation name args); ("reason", j_str (job_reason name))]%string.

(** Connection [c], which registered the turn of the call, was asked about this
    call and approved. *)
Definition evidence b cl : Prop := exists c id v t rid w,
  (forall t', cl_turn cl = Some t' -> t' = t)
  /\ workers b !! rid = Some w /\ wk_turn w = t /\ wk_conn w = c
  /\ (c, id, request_for t (cl_name cl) (cl_args cl)) ∈ outbox b
  /\ (c, id, Ok v) ∈ heard b /\ approves v.

Definition knows_call b w j : Prop := exists cl, calls b !! jb_reply j = Some cl
  /\ cl_name cl = jb_name j /\ cl_args cl = jb_args j /\ (forall t, cl_turn cl = Some t -> t = wk_turn w).

Definition positive (st : call_state) : bool :=
  match st with Replied _ v | Returned v => v | Waiting _ => false end.

Definition asked b w (x : ApprovalJob * string * option (result V (RpcError V))) : Prop :=
  (wk_conn w, x.1.2, request_params w x.1.1) ∈ outbox b
  /\ (forall v, x.2 = Some (Ok v) -> (wk_conn w, x.1.2, Ok v) ∈ heard b).

Record sound b : Prop := {
  so_current : forall rid w x, workers b !! rid = Some w -> current w = Some x -> asked b w x;
  so_calls : forall rid w j, workers b !! rid = Some w ->
    (j ∈ jobs w \/ exists id o, current w = Some (j, id, o)) -> knows_call b w j;
  so_evidence : forall cid cl, calls b !! cid = Some cl -> positive (cl_state cl) = true -> evidence b cl;
  so_routes : forall r, r ∈ routes b -> exists w, workers b !! rt_worker r = Some w /\ wk_turn w = rt_turn r;
  so_pending : forall c s id rid, conns b !! c = Some s -> pending s !! id = Some rid ->
    exists w, workers b !! rid = Some w /\ wk_conn w = c;
}.

(** ** Updates keep what they do not touch *)

Lemma sound_logs b cs o h : sound b -> sound (upd_logs cs o h b).
Proof.
  intros [H1 H2 H3 H4 H5]. split; cbn.
  - intros rid w x Hw Hx. destruct (H1 _ _ _ Hw Hx) as [Ho Hh]. split; cbn; [apply elem_of_app; by left|].
    intros v Hv. apply elem_of_app. left. by apply Hh.
  - intros rid w j Hw Hj. exact (H2 _ _ _ Hw Hj).
  - intros cid cl Hc Hp. destruct (H3 _ _ Hc Hp) as (c & id & v & t & rid & w & ? & ? & ? & ? & ? & ? & ?).
    exists c, id, v, t, rid, w. cbn. rewrite !elem_of_app. naive_solver.
  - done.
  - done.
Qed.

Lemma sound_conns b f : sound b ->
  (forall c s id rid, f (conns b) !! c = Some s -> pending s !! id = Some rid ->
    exists w, workers b !! rid = Some w /\ wk_conn w = c) -> sound (upd_conns f b).
Proof. intros [H1 H2 H3 H4 H5] Hf. by split. Qed.

Lemma sound_routes b f : sound b ->
  (forall r, r ∈ f (routes b) -> exists r', r' ∈ routes b /\ rt_turn r' = rt_turn r /\ rt_worker r' = rt_worker r) ->
  sound (upd_routes f b).
Proof.
  intros [H1 H2 H3 H4 H5] Hf. split; try done. intros r (r' & Hr' & <- & <-)%Hf. by apply H4.
Qed.

(** A worker keeps its turn and connection. *)
Lemma lookup_set_worker b rid w rid' w' c l k : workers b !! rid = Some w ->
  workers (set_worker rid (set_current c l k w) b) !! rid' = Some w' ->
  exists w0, workers b !! rid' = Some w0 /\ wk_turn w' = wk_turn w0 /\ wk_conn w' = wk_conn w0
    /\ (w' = set_current c l k w /\ w0 = w \/ w' = w0).
Proof.
  intros Hw. cbn. destruct (decide (rid' = rid)) as [->|Hne].
  - rewrite lookup_insert_eq. intros [= <-]. exists w. split_and!; auto.
  - rewrite lookup_insert_ne by done. intros Hw'. exists w'. split_and!; auto.
Qed.

Lemma set_worker_keeps b rid w rid' w0 c l k : workers b !! rid = Some w -> workers b !! rid' = Some w0 ->
  exists w', workers (set_worker rid (set_current c l k w) b) !! rid' = Some w'
    /\ wk_turn w' = wk_turn w0 /\ wk_conn w' = wk_conn w0.
Proof.
  intros Hw Hw0. cbn. destruct (decide (rid' = rid)) as [->|Hne].
  - rewrite lookup_insert_eq. simplify_eq. by eexists.
  - rewrite lookup_insert_ne by done. eauto.
Qed.

Lemma sound_worker b rid w c l k : sound b -> workers b !! rid = Some w ->
  (forall x, c = Some x -> asked b w x /\ knows_call b w x.1.1) ->
  (forall j, j ∈ l -> knows_call b w j) ->
  sound (set_worker rid (set_current c l k w) b).
Proof.
  intros [H1 H2 H3 H4 H5] Hw Hc Hl. split.
  - intros rid' w' x Hw' Hx. destruct (lookup_set_worker _ _ _ _ _ _ _ _ Hw Hw') as (w0 & Hw0 & Ht & Hn & [[-> ->]| ->]).
    + apply Hc. exact Hx.
    + exact (H1 _ _ _ Hw0 Hx).
  - intros rid' w' j Hw' Hj. destruct (lookup_set_worker _ _ _ _ _ _ _ _ Hw Hw') as (w0 & Hw0 & Ht & Hn & [[-> ->]| ->]).
    + destruct Hj as [Hj|(id & o & Hx)]; [by apply Hl|]. by destruct (Hc _ Hx).
    + exact (H2 _ _ _ Hw0 Hj).
  - intros cid cl Hcl Hp. destruct (H3 _ _ Hcl Hp) as (c' & id & v & t & rid' & w' & ? & Hw' & <- & <- & ? & ? & ?).
    destruct (set_worker_keeps b rid w rid' w' c l k Hw Hw') as (w'' & Hw'' & Ht & Hn).
    exists (wk_conn w'), id, v, (wk_turn w'), rid', w''. done.
  - intros r (w' & Hw' & <-)%H4. destruct (set_worker_keeps b rid w _ w' c l k Hw Hw') as (w'' & Hw'' & Ht & Hn). eauto.
  - intros c' s id rid' Hs Hp. destruct (H5 _ _ _ _ Hs Hp) as (w' & Hw' & <-).
    destruct (set_worker_keeps b rid w _ w' c l k Hw Hw') as (w'' & Hw'' & Ht & Hn). eauto.
Qed.

(** A call that changes its state only. *)
Lemma sound_call b cid cl st : sound b -> calls b !! cid = Some cl ->
  (positive st = true -> evidence b cl) ->
  sound (upd_calls (<[cid := {| cl_turn := cl_turn cl; cl_name := cl_name cl; cl_args := cl_args cl; cl_state := st |}]>) b).
Proof.
  intros [H1 H2 H3 H4 H5] Hcl He. split; try done.
  - intros rid w j Hw Hj. destruct (H2 _ _ _ Hw Hj) as (cl' & Hcl' & ? & ? & ?). unfold knows_call. cbn.
    destruct (decide (jb_reply j = cid)) as [Heq|Hne].
    + rewrite <- Heq in Hcl |- *. rewrite lookup_insert_eq. simplify_eq. eexists. split_and!; eauto.
    + rewrite lookup_insert_ne by done. eauto.
  - intros cid' cl' Hc Hp. cbn in Hc. destruct (decide (cid' = cid)) as [->|Hne].
    + rewrite lookup_insert_eq in Hc. simplify_eq. destruct (He Hp) as (c & id & v & t & rid & w & ?).
      exists c, id, v, t, rid, w. done.
    + rewrite lookup_insert_ne in Hc by done. exact (H3 _ _ Hc Hp).
Qed.

Lemma sound_new_call b cid cl : sound b -> calls b !! cid = None -> positive (cl_state cl) = false ->
  sound (upd_calls (<[cid := cl]>) b).
Proof.
  intros [H1 H2 H3 H4 H5] Hcl He. split; try done.
  - intros rid w j Hw Hj. destruct (H2 _ _ _ Hw Hj) as (cl' & Hcl' & ?). exists cl'. cbn.
    by rewrite lookup_insert_ne by congruence.
  - intros cid' cl' Hc Hp. cbn in Hc. destruct (decide (cid' = cid)) as [->|Hne].
    + rewrite lookup_insert_eq in Hc. simplify_eq. congruence.
    + rewrite lookup_insert_ne in Hc by done. exact (H3 _ _ Hc Hp).
Qed.

Lemma sound_reply b cid v : sound b -> (v = true -> forall cl, calls b !! cid = Some cl -> evidence b cl) ->
  sound (reply cid v b).
Proof.
  intros Hs He. unfold reply. destruct (calls b !! cid) as [[t n a [rid| |]]|] eqn:Hc.
  - assert (Heq : upd_calls (fun m => match m !! cid with
      | Some {| cl_turn := t; cl_name := n; cl_args := a; cl_state := Waiting rid |} =>
        <[cid := {| cl_turn := t; cl_name := n; cl_args := a; cl_state := Replied rid v |}]> m
      | _ => m end) b = upd_calls (<[cid := {| cl_turn := t; cl_name := n; cl_args := a; cl_state := Replied rid v |}]>) b)
      by (unfold upd_calls; cbn; by rewrite Hc).
    rewrite Heq. apply (sound_call b cid _ (Replied rid v) Hs Hc). cbn. intros ->. by apply He.
  - destruct b. unfold upd_calls. cbn in *. by rewrite Hc.
  - destruct b. unfold upd_calls. cbn in *. by rewrite Hc.
  - destruct b. unfold upd_calls. cbn in *. by rewrite Hc.
Qed.

(** ** Every step keeps the invariant *)

Lemma sound_conclude b rid w w0 j outcome c l k : sound b -> workers b !! rid = Some w0 ->
  w = set_current c l k w0 -> knows_call b w j -> (forall j', j' ∈ l -> knows_call b w0 j') ->
  (forall v, outcome = Ok v -> exists id, (wk_conn w, id, request_params w j) ∈ outbox b /\ (wk_conn w, id, Ok v) ∈ heard b) ->
  sound (conclude rid w j outcome b).
Proof.
  intros Hs Hw -> Hj Hl Ho. unfold conclude.
  assert (Hset : forall k', sound (set_worker rid (set_current None l k' w0) b)).
  { intros k'. apply sound_worker; [done|done| |done]. by intros x [=]. }
  destruct outcome as [v|e]; cbn [jobs can_cancel set_current].
  - apply sound_reply; [apply Hset|]. intros Ha%bool_decide_eq_true_1 cl Hcl.
    destruct Hj as (cl' & Hcl' & Hn & Hg & Ht). cbn in Hcl. simplify_eq.
    destruct (Ho _ eq_refl) as (id & Hout & Hh).
    exists (wk_conn w0), id, v, (wk_turn w0), rid, (set_current None l k w0). cbn.
    rewrite lookup_insert_eq. split_and!; try done. by rewrite Hn, Hg.
  - apply sound_reply; [apply sound_logs, Hset|done].
Qed.

Lemma sound_register rid t c b : sound b -> sound (register rid t c b).
Proof.
  intros Hs. unfold register. destruct (workers b !! rid) as [w|] eqn:Hw; [done|]. destruct Hs as [H1 H2 H3 H4 H5].
  set (w0 := {| wk_turn := t; wk_conn := c; jobs := []; current := None; can_cancel := true |}).
  assert (Hkeep : forall rid' w', workers b !! rid' = Some w' -> <[rid := w0]> (workers b) !! rid' = Some w').
  { intros rid' w' Hw'. rewrite lookup_insert_ne; [done|]. intros ->. congruence. }
  assert (Hold : forall rid' w', <[rid := w0]> (workers b) !! rid' = Some w' -> w' = w0 \/ workers b !! rid' = Some w').
  { intros rid' w' [[_ ?]|[_ ?]]%lookup_insert_Some; auto. }
  split; cbn.
  - intros rid' w' x [->|Hw']%Hold Hx; [done|]. exact (H1 _ _ _ Hw' Hx).
  - intros rid' w' j [->|Hw']%Hold Hj; [|exact (H2 _ _ _ Hw' Hj)].
    destruct Hj as [Hj|(? & ? & ?)]; [by apply not_elem_of_nil in Hj|done].
  - intros cid cl Hc Hp. destruct (H3 _ _ Hc Hp) as (c' & id & v & t' & rid' & w' & ? & Hw' & ?).
    exists c', id, v, t', rid', w'. split; [done|]. split; [by apply Hkeep|done].
  - intros r [Hr| ->%list_elem_of_singleton]%elem_of_app.
    + destruct (H4 _ Hr) as (w' & Hw' & ?). eauto.
    + exists w0. cbn. by rewrite lookup_insert_eq.
  - intros c' s id rid' Hc Hp. destruct (H5 _ _ _ _ Hc Hp) as (w' & Hw' & ?). eauto.
Qed.

Lemma set_claimed_origin rid v l r : r ∈ set_claimed rid v l ->
  exists r', r' ∈ l /\ rt_turn r' = rt_turn r /\ rt_worker r' = rt_worker r.
Proof.
  unfold set_claimed. intros (r' & -> & Hr')%list_elem_of_fmap. exists r'. by destruct (rt_worker r' =? rid)%nat.
Qed.

Lemma find_route_Some turn l r : find_route turn l = Some r -> r ∈ l /\ (forall t, turn = Some t -> rt_turn r = t).
Proof.
  unfold find_route. intros ([i r'] & Hf & ->)%fmap_Some. cbn. destruct turn as [t|];
    apply list_find_Some in Hf as (Hi & Hp & _); (split; [by eapply list_elem_of_lookup_2|]); naive_solver.
Qed.

Lemma sound_decide cid turn name args b : sound b -> sound (decide_call cid turn name args b).
Proof.
  intros Hs. unfold decide_call. destruct (calls b !! cid) as [|] eqn:Hc; [done|].
  destruct (find_route turn (routes b)) as [r|] eqn:Hr; [|by apply sound_new_call].
  destruct (workers b !! rt_worker r) as [w|] eqn:Hw; [|by apply sound_new_call].
  apply find_route_Some in Hr as [Hin Ht]. destruct (so_routes b Hs r Hin) as (w' & Hw' & Htr). simplify_eq.
  set (cl := {| cl_turn := turn; cl_name := name; cl_args := args; cl_state := Waiting (rt_worker r) |}).
  pose proof (sound_new_call b cid cl Hs Hc eq_refl) as Hs1.
  assert (Hj : knows_call (upd_calls (<[cid := cl]>) b) w {| jb_name := name; jb_args := args; jb_reply := cid |}).
  { exists cl. cbn. rewrite lookup_insert_eq. split_and!; try done. intros t Ht'. rewrite Htr. symmetry. by apply Ht. }
  pose proof (sound_routes _ (set_claimed (rt_worker r) true) Hs1 (fun r' => set_claimed_origin _ _ _ r')) as Hs2.
  refine (sound_worker _ (rt_worker r) w (current w) _ (can_cancel w) Hs2 Hw _ _).
  - intros x Hx. split; [exact (so_current _ Hs2 _ _ _ Hw Hx)|]. destruct x as [[j id] o]. cbn.
    apply (so_calls _ Hs1 (rt_worker r) w j Hw). right. eauto.
  - intros j [Hj'| ->%list_elem_of_singleton]%elem_of_app; [|exact Hj].
    apply (so_calls _ Hs1 (rt_worker r) w j Hw). by left.
Qed.

Lemma sound_wake cid e b : sound b -> sound (wake cid e b).
Proof.
  intros Hs. unfold wake. destruct (calls b !! cid) as [cl|] eqn:Hc; [|done].
  assert (Hback : forall rid v, (v = true -> evidence b cl) ->
    sound (upd_routes (set_claimed rid false)
      (upd_calls (<[cid := {| cl_turn := cl_turn cl; cl_name := cl_name cl; cl_args := cl_args cl; cl_state := Returned v |}]>) b))).
  { intros rid v Hv. apply sound_routes; [|intros r; apply set_claimed_origin]. by apply sound_call. }
  destruct (cl_state cl) as [rid|rid v|v] eqn:Hst; [| |done].
  - destruct e; [|done]. by apply Hback.
  - apply Hback. intros ->. apply (so_evidence b Hs cid); [done|]. by rewrite Hst.
Qed.

Lemma sound_ask rid sends b : sound b -> sound (ask rid sends b).
Proof.
  intros Hs. unfold ask. destruct (workers b !! rid) as [w|] eqn:Hw; [|done].
  destruct (current w) as [|] eqn:Hcur; [done|]. destruct (jobs w) as [|j rest] eqn:Hjobs; [done|].
  assert (Hj : forall j', j' ∈ j :: rest -> knows_call b w j').
  { intros j' Hj'. apply (so_calls b Hs rid w j' Hw). left. by rewrite Hjobs. }
  assert (Hrest : forall j', j' ∈ rest -> knows_call b w j') by (intros j' ?; apply Hj; by right).
  assert (Hfail : forall e b', sound b' -> workers b' = workers b -> calls b' = calls b ->
    sound (conclude rid (set_current None rest (can_cancel w) w) j (Err e) b')).
  { intros e b' Hs' Hw' Hc'. eapply sound_conclude; [done|by rewrite Hw'|done| | |done].
    - unfold knows_call. rewrite Hc'. apply Hj. by left.
    - unfold knows_call. rewrite Hc'. exact Hrest. }
  cbn [wk_conn set_current]. destruct (conns b !! wk_conn w) as [s|] eqn:Hconn; [|by apply Hfail].
  destruct (negb (approvals (caps s))); [by apply Hfail|].
  assert (Hins : forall p n, (forall id rid', p !! id = Some rid' -> rid' = rid \/ pending s !! id = Some rid') ->
    sound (upd_conns (<[wk_conn w := set_pending p n s]>) b)).
  { intros p n Hp. apply sound_conns; [done|]. intros c s' id rid' [[<- <-]|[_ Hc]]%lookup_insert_Some Hid.
    - cbn in Hid. destruct (Hp _ _ Hid) as [->|Hold]; [eauto|]. exact (so_pending b Hs _ _ _ _ Hconn Hold).
    - exact (so_pending b Hs _ _ _ _ Hc Hid). }
  destruct sends.
  - set (id := ("srv-" ++ pretty (next_server_id s + 1)%N)%string).
    assert (Hs1 : sound (upd_logs [] [(wk_conn w, id, request_params w j)] []
      (upd_conns (<[wk_conn w := set_pending (<[id := rid]> (pending s)) (next_server_id s + 1) s]>) b))).
    { apply sound_logs, Hins. intros id' rid' [[_ <-]|[_ ?]]%lookup_insert_Some; auto. }
    refine (sound_worker _ rid w (Some (j, id, None)) rest (can_cancel w) Hs1 Hw _ _).
    + intros x [= <-]. split; [|apply Hj; by left]. split; [|done]. cbn. apply elem_of_app. right. by left.
    + exact Hrest.
  - apply Hfail; [|done|done]. apply Hins. intros id' rid' [_ ?]%lookup_delete_Some. auto.
Qed.

Lemma sound_hear c id res err b : sound b -> sound (hear c id res err b).
Proof.
  intros Hs. unfold hear, complete_pending. destruct (conns b !! c) as [s|] eqn:Hc; [|done].
  destruct (pending s !! id) as [rid|] eqn:Hp; [|done].
  destruct (so_pending b Hs _ _ _ _ Hc Hp) as (w & Hw & Hwc).
  assert (Hs1 : sound (upd_logs [] [] [(c, id, client_outcome res err)]
    (upd_conns (<[c := set_pending (delete id (pending s)) (next_server_id s) s]>) b))).
  { apply sound_logs, sound_conns; [done|]. intros c' s' id' rid' [[<- <-]|[_ Hc']]%lookup_insert_Some Hid.
    - cbn in Hid. apply lookup_delete_Some in Hid as [_ Hid]. exact (so_pending b Hs _ _ _ _ Hc Hid).
    - exact (so_pending b Hs _ _ _ _ Hc' Hid). }
  rewrite Hw. destruct (current w) as [[[j id'] [o|]]|] eqn:Hcur; [done| |done].
  destruct (String.eqb_spec id' id) as [->|]; [|done].
  refine (sound_worker _ rid w _ (jobs w) (can_cancel w) Hs1 Hw _ _).
  - intros x [= <-]. destruct (so_current _ Hs1 rid w _ Hw Hcur) as [Ho _]. split; [split; [exact Ho|]|].
    + cbn. intros v [= Hv]. apply elem_of_app. right. rewrite Hwc, Hv. by left.
    + apply (so_calls _ Hs1 rid w j Hw). right. eauto.
  - intros j' Hj'. apply (so_calls _ Hs1 rid w j' Hw). by left.
Qed.

Lemma sound_finish rid timed_out b : sound b -> sound (finish rid timed_out b).
Proof.
  intros Hs. unfold finish. destruct (workers b !! rid) as [w|] eqn:Hw; [|done].
  destruct (current w) as [[[j id] o]|] eqn:Hcur; [|done].
  assert (Heq : w = set_current (current w) (jobs w) (can_cancel w) w) by by destruct w.
  assert (Hj : knows_call b w j) by (apply (so_calls b Hs rid w j Hw); right; eauto).
  assert (Hl : forall j', j' ∈ jobs w -> knows_call b w j') by (intros j' ?; apply (so_calls b Hs rid w j' Hw); by left).
  destruct o as [outcome|].
  - eapply sound_conclude; [done|exact Hw|exact Heq|done|done|]. intros v ->.
    destruct (so_current b Hs _ _ _ Hw Hcur) as [Ho Hh]. eauto.
  - destruct timed_out; [|done]. eapply sound_conclude; [|exact Hw|exact Heq|done|done|done].
    apply sound_conns; [done|]. intros c s id' rid' Hc Hid.
    destruct (decide (c = wk_conn w)) as [->|Hne].
    + rewrite lookup_alter_eq in Hc. apply fmap_Some in Hc as (s0 & Hs0 & ->). cbn in Hid.
      apply lookup_delete_Some in Hid as [_ Hid]. exact (so_pending b Hs _ _ _ _ Hs0 Hid).
    + rewrite lookup_alter_ne in Hc by done. exact (so_pending b Hs _ _ _ _ Hc Hid).
Qed.

Lemma sound_step b o : sound b -> sound (step_broker b o).
Proof.
  intros Hs. destruct o; cbn.
  - apply sound_conns; [done|]. intros c' s id rid [[<- <-]|[_ Hc]]%lookup_insert_Some Hid; [|exact (so_pending b Hs _ _ _ _ Hc Hid)].
    cbn in Hid. destruct (conns b !! c) as [s|] eqn:Hc; cbn in Hid; [|by rewrite lookup_empty in Hid].
    exact (so_pending b Hs _ _ _ _ Hc Hid).
  - by apply sound_register.
  - apply sound_routes; [done|]. intros r [_ Hr]%list_elem_of_filter. eauto.
  - by apply sound_decide.
  - by apply sound_wake.
  - by apply sound_ask.
  - by apply sound_hear.
  - by apply sound_finish.
Qed.

Lemma sound_run ops : sound (run_broker ops).
Proof.
  unfold run_broker. induction ops as [|o ops IH] using rev_ind.
  - split; cbn; intros; try done; try (by apply not_elem_of_nil in H).
  - rewrite fold_left_app. by apply sound_step.
Qed.

(** ** Requests are told apart by their ids *)

Definition numbered_below b : Prop := NoDup (map fst (outbox b)) /\
  (forall c id p, (c, id, p) ∈ outbox b ->
    exists s n, conns b !! c = Some s /\ id = ("srv-" ++ pretty n)%string /\ (n <= next_server_id s)%N).

Definition conns_grow b b' : Prop := forall c s, conns b !! c = Some s ->
  exists s', conns b' !! c = Some s' /\ (next_server_id s <= next_server_id s')%N.

Lemma numbered_grow b b' : outbox b' = outbox b -> conns_grow b b' -> numbered_below b -> numbered_below b'.
Proof.
  intros Ho Hg [Hn Hi]. unfold numbered_below. rewrite Ho. split; [done|].
  intros c id p (s & n & Hc & Hid & Hle)%Hi. destruct (Hg _ _ Hc) as (s' & Hs' & ?). exists s', n. split_and!; try done. lia.
Qed.

Lemma conns_grow_refl b b' : conns b' = conns b -> conns_grow b b'.
Proof. intros He c s Hs. exists s. by rewrite He. Qed.

Lemma conns_grow_insert b b' c s s' : conns b !! c = Some s -> conns b' = <[c := s']> (conns b) ->
  (next_server_id s <= next_server_id s')%N -> conns_grow b b'.
Proof.
  intros Hs He Hle c' s0 Hs0. rewrite He. destruct (decide (c' = c)) as [->|Hne].
  - rewrite lookup_insert_eq. simplify_eq. eauto.
  - rewrite lookup_insert_ne by done. eauto.
Qed.

Lemma numbered_same b b' : outbox b' = outbox b -> conns b' = conns b -> numbered_below b -> numbered_below b'.
Proof. intros Ho Hc. apply numbered_grow; [done|by apply conns_grow_refl]. Qed.

Lemma conclude_frame rid w j o b : outbox (conclude rid w j o b) = outbox b /\ conns (conclude rid w j o b) = conns b.
Proof. unfold conclude. destruct o; cbn; by rewrite ?app_nil_r. Qed.

Lemma numbered_ask rid sends b : numbered_below b -> numbered_below (ask rid sends b).
Proof.
  intros Hn. unfold ask. destruct (workers b !! rid) as [w|]; [|done]. destruct (current w); [done|].
  destruct (jobs w) as [|j rest]; [done|]. cbn [wk_conn set_current].
  assert (Hc : forall w' o b', outbox b' = outbox b -> conns_grow b b' -> numbered_below (conclude rid w' j o b')).
  { intros w' o b' Ho Hg. destruct (conclude_frame rid w' j o b') as [H1 H2].
    apply (numbered_grow b); [by rewrite H1| |done]. unfold conns_grow. by rewrite H2. }
  destruct (conns b !! wk_conn w) as [s|] eqn:Hs; [|by apply Hc; [|apply conns_grow_refl]].
  destruct (negb (approvals (caps s))); [by apply Hc; [|apply conns_grow_refl]|].
  assert (Hg : forall b' p, conns b' = <[wk_conn w := set_pending p (next_server_id s + 1) s]> (conns b) -> conns_grow b b').
  { intros b' p Hb'. apply (conns_grow_insert b b' _ _ _ Hs Hb'). cbn. lia. }
  destruct sends; [|by apply Hc; [|by eapply Hg]].
  set (n := (next_server_id s + 1)%N). destruct Hn as [Hnd Hi].
  match goal with |- numbered_below ?x => pose proof (Hg x _ eq_refl) as Hgx; set (b' := x) in * end.
  assert (Ho : outbox b' = outbox b ++ [(wk_conn w, "srv-" ++ pretty n, request_params (set_current None rest (can_cancel w) w) j)%string]) by done.
  unfold numbered_below. rewrite Ho. split.
  - rewrite map_app. apply NoDup_app. split_and!; [done| |by repeat constructor; apply not_elem_of_nil].
    intros x Hx [Heq|Hx']%elem_of_cons; [|by apply not_elem_of_nil in Hx'].
    apply list_elem_of_fmap in Hx as ([[c id] p] & -> & Hin). cbn in Heq. simplify_eq.
    apply Hi in Hin as (s' & m & Hs' & Heq & Hle). simplify_eq.
    lia.
  - intros c id p [Hin|Hin]%elem_of_app.
    + apply Hi in Hin as (s' & m & Hs' & Hid & Hle). destruct (Hgx _ _ Hs') as (s'' & ? & ?). exists s'', m. split_and!; try done. lia.
    + apply list_elem_of_singleton in Hin. simplify_eq.
      exists (set_pending (<[("srv-" ++ pretty n)%string := rid]> (pending s)) n s), n. split_and!; [|done|cbn; lia].
      cbn. by rewrite lookup_insert_eq.
Qed.

Lemma numbered_step b o : numbered_below b -> numbered_below (step_broker b o).
Proof.
  intros Hn. destruct o; cbn; try by apply (numbered_same b).
  - apply (numbered_grow b); [done| |done]. intros c' s Hs. cbn. destruct (decide (c' = c)) as [->|Hne].
    + rewrite lookup_insert_eq, Hs. eexists. split; [done|]. cbn. lia.
    + rewrite lookup_insert_ne by done. eauto.
  - unfold register. destruct (workers b !! rid); [done|by apply (numbered_same b)].
  - unfold decide_call. repeat case_match; by apply (numbered_same b).
  - unfold wake. repeat case_match; by apply (numbered_same b).
  - by apply numbered_ask.
  - unfold hear, complete_pending. destruct (conns b !! c) as [s|] eqn:Hs; [|done]. destruct (pending s !! id); [|done].
    assert (Hg : forall b', outbox b' = outbox b ->
      conns b' = <[c := set_pending (delete id (pending s)) (next_server_id s) s]> (conns b) -> numbered_below b').
    { intros b' Ho Hc. apply (numbered_grow b); [done| |done]. by apply (conns_grow_insert b b' _ _ _ Hs Hc). }
    repeat case_match; apply Hg; cbn; by rewrite ?app_nil_r.
  - unfold finish. destruct (workers b !! rid) as [w|]; [|done]. destruct (current w) as [[[j id] [o|]]|]; [| |done].
    + destruct (conclude_frame rid w j o b) as [H1 H2]. by apply (numbered_same b).
    + destruct timed_out; [|done]. match goal with |- numbered_below (conclude _ _ _ ?o ?x) => destruct (conclude_frame rid w j o x) as [H1 H2] end.
      apply (numbered_grow b); [done| |done]. intros c s Hs. rewrite H2. cbn. destruct (decide (c = wk_conn w)) as [->|Hne].
      * rewrite lookup_alter_eq, Hs. eexists. split; [done|]. cbn. lia.
      * rewrite lookup_alter_ne by done. eauto.
Qed.

Lemma numbered_run ops : numbered_below (run_broker ops).
Proof.
  unfold run_broker. induction ops as [|o ops IH] using rev_ind.
  - split; cbn; [constructor|]. intros c id p Hin. by apply not_elem_of_nil in Hin.
  - rewrite fold_left_app. by apply numbered_step.
Qed.

(** An invocation that is allowed was approved for itself: the connection that
    registered the turn of the call was sent a request naming this turn, this
    tool and these arguments, under an id no other of its requests has, and
    answered it with [approve].  In particular no turn borrows the approval of
    another, whatever the order of calls, replies, deadlines and finalizations. *)
Theorem allowed_only_if_approved ops cid cl :
  calls (run_broker ops) !! cid = Some cl -> cl_state cl = Returned true ->
  evidence (run_broker ops) cl /\ NoDup (map fst (outbox (run_broker ops))).
Proof.
  intros Hc Hst. split; [|apply numbered_run]. apply (so_evidence _ (sound_run ops) cid); [done|]. by rewrite Hst.
Qed.
End approval.

(** ** Runs *)

Definition yes : jval := JObj [("decision", JStr "approve")]%string.
Definition can_approve : Capabilities := {| approvals := true; streaming := true; delivery_ack := false |}.

(** Two turns; the second one's client approves, the first one's never answers. *)
Definition demo_ops : list broker_step :=
  [Connect 0 can_approve; Connect 1 can_approve; Register 0 "a" 0; Register 1 "b" 1;
   DecideCall 0 (Some "a") "shell.exec" JNull; DecideCall 1 (Some "b") "shell.exec" JNull;
   Ask 1 true; Ask 0 true; Hear 1 "srv-1" (Some yes) None; Finish 1 false; Wake 1 false;
   Finish 0 true; Wake 0 false]%string.

Example demo_decisions :
  let b := run_broker demo_ops in
  cl_state <$> calls b !! 0 = Some (Returned false) /\ cl_state <$> calls b !! 1 = Some (Returned true)
  /\ cancels b = ["a"%string].
Proof. by vm_compute. Qed.

Lemma allowed_only_if_approved_witness : exists cl,
  calls (run_broker demo_ops) !! 1 = Some cl /\ evidence (run_broker demo_ops) cl.
Proof.
  eexists. split; [vm_compute; reflexivity|].
  apply (allowed_only_if_approved demo_ops 1); [vm_compute; reflexivity|reflexivity].
Defined.

(** Ending a turn removes every route of its turn id, also the route of another
    registration of that id, whose calls are then denied unasked. *)
Lemma deregister_removes_namesake :
  let b := run_broker (V := jval) [Connect 0 can_approve; Register 0 "a" 0; Register 1 "a" 0; Deregister "a";
                                   DecideCall 0 (Some "a") "shell.exec" JNull]%string in
  cl_state <$> calls b !! 0 = Some (Returned false) /\ outbox b = [].
Proof. by vm_compute. Qed.
