(* ===== verification/Hosting.v ===== *)
(** * Hosted turns

    Models the methods of [crates/zen-gateway/src/server/hosting.rs]: the
    record of a turn, the registry, [session/start], [session/turn],
    [session/cancel], and the reaper.  Calls run concurrently: a call is a
    thread with a program counter, a step is what it does between two points
    where another thread can act (a lock taken and released, an await, an atomic
    access).  The executor's tokens and answer, the watchdog, cancellations and
    the flusher are steps of their own, in any order. *)

From S2P Require Import Prelude Json Text Rpc Guards TurnEvents.
From stdpp Require Import gmap.
From Stdlib Require Import Lia.
Local Open Scope list_scope.

Inductive TurnState := Submitted | TRunning | Streaming | AwaitingApproval | TCompleted | Cancelled.

#[export] Instance TurnState_eq_dec : EqDecision TurnState.
Proof. solve_decision. Defined.

Definition turn_terminal (s : TurnState) : bool :=
  match s with TCompleted | Cancelled => true | _ => false end.

Inductive CancelReason := ByClient | ByWatchdog.

(** The lines of [audit.jsonl].  [rid], the record, is not written. *)
Inductive AuditLine :=
  | TurnStarted (rid : nat) (turn session agent : string)
  | TurnDone (rid : nat) (turn session outcome : string)
  | TurnCancelled (rid : nat) (turn session reason : string)
  | GuardRejected (guard : string).

#[export] Instance AuditLine_eq_dec : EqDecision AuditLine.
Proof. solve_decision. Defined.

Section hosting.
Context {V : Type} `{Json V, ParseJson V}.
(** Retrieved notes, and the part of a session the executor changes. *)
Context {Note C : Type}.

Record SessionContext := { agent_name : string; knowledge : list Note; conversation : C }.

Record Turn := {
  t_id : string;
  t_session : string;
  t_state : TurnState;
  t_ring : Ring (V := V);
  t_response : option string;
  t_cancelled : bool;
  t_done : bool;
  t_terminal_at : option N;
  t_audited : bool;
  t_buffer : text;               (* tokens not yet flushed *)
  t_taken : option text;         (* taken by the flusher, not yet emitted *)
  t_flusher : bool;              (* the flusher runs *)
}.

Definition new_turn (turn_id session_id : string) : Turn :=
  {| t_id := turn_id; t_session := session_id; t_state := Submitted; t_ring := new_ring; t_response := None;
     t_cancelled := false; t_done := false; t_terminal_at := None; t_audited := false;
     t_buffer := []; t_taken := None; t_flusher := false |}.

(** ** Operations of a record *)

Definition set_state (s : TurnState) (now : N) (t : Turn) : Turn :=
  {| t_id := t_id t; t_session := t_session t; t_state := s; t_ring := t_ring t; t_response := t_response t;
     t_cancelled := t_cancelled t; t_done := t_done t;
     t_terminal_at := if turn_terminal s && negb (turn_terminal (t_state t)) then Some now else t_terminal_at t;
     t_audited := t_audited t; t_buffer := t_buffer t; t_taken := t_taken t; t_flusher := t_flusher t |}.

Definition with_flags (cancelled done audited : bool) (t : Turn) : Turn :=
  {| t_id := t_id t; t_session := t_session t; t_state := t_state t; t_ring := t_ring t; t_response := t_response t;
     t_cancelled := cancelled; t_done := done; t_terminal_at := t_terminal_at t; t_audited := audited;
     t_buffer := t_buffer t; t_taken := t_taken t; t_flusher := t_flusher t |}.
Definition set_cancelled (t : Turn) : Turn := with_flags true (t_done t) (t_audited t) t.
Definition release_done (t : Turn) : Turn := with_flags (t_cancelled t) true (t_audited t) t.
Definition claim_audit (t : Turn) : Turn := with_flags (t_cancelled t) (t_done t) true t.

Definition store_response (r : string) (t : Turn) : Turn :=
  {| t_id := t_id t; t_session := t_session t; t_state := t_state t; t_ring := t_ring t; t_response := Some r;
     t_cancelled := t_cancelled t; t_done := t_done t; t_terminal_at := t_terminal_at t; t_audited := t_audited t;
     t_buffer := t_buffer t; t_taken := t_taken t; t_flusher := t_flusher t |}.

Definition with_stream (ring : Ring (V := V)) (buffer : text) (taken : option text) (flusher : bool) (t : Turn) : Turn :=
  {| t_id := t_id t; t_session := t_session t; t_state := t_state t; t_ring := ring; t_response := t_response t;
     t_cancelled := t_cancelled t; t_done := t_done t; t_terminal_at := t_terminal_at t; t_audited := t_audited t;
     t_buffer := buffer; t_taken := taken; t_flusher := flusher |}.

Definition emit (kind : string) (payload : V) (now : N) (t : Turn) : Turn :=
  with_stream (push_event kind payload now (t_ring t)).2 (t_buffer t) (t_taken t) (t_flusher t) t.

Definition emit_delta (s : text) (now : N) (t : Turn) : Turn :=
  emit "delta" (j_obj [("text", j_str (to_string s))]%string) now t.

(** [drain_pending] of the call, with the abort of the flusher. *)
Definition drain_pending (now : N) (t : Turn) : Turn :=
  let t1 := with_stream (t_ring t) [] (t_taken t) false t in
  if bool_decide (t_buffer t = []) then t1 else emit_delta (t_buffer t) now t1.

(** [drain_pending] of the flusher: the buffer is taken under its lock, the
    delta emitted after; an abort between the two does not stop it. *)
Definition flush_take (t : Turn) : Turn :=
  if t_flusher t && bool_decide (t_taken t = None) && negb (bool_decide (t_buffer t = []))
  then with_stream (t_ring t) [] (Some (t_buffer t)) (t_flusher t) t else t.
Definition flush_emit (now : N) (t : Turn) : Turn :=
  match t_taken t with
  | Some s => emit_delta s now (with_stream (t_ring t) (t_buffer t) None (t_flusher t) t)
  | None => t
  end.

(** The payload of a tool's event: [emit_tool_event] adds the tool. *)
Definition tool_payload (e : ToolIntermediate V) : string * V :=
  let some {A} k (f : A -> V) (o : option A) := match o with Some x => [(k, f x)] | None => [] end in
  let str k := some k (fun s : text => j_str (to_string s)) in
  let num k := some k (fun n : N => j_int (Z.of_N n)) in
  match e with
  | Started tool args =>
    ("tool_started", j_obj (json_insert "tool" (j_str (to_string tool)) [("args", args)]))
  | ToolCompleted tool count duration_ms provider error preview =>
    ("tool_completed",
     j_obj (json_insert "tool" (j_str (to_string tool))
       (num "count" count ++ num "duration_ms" duration_ms ++ str "provider" provider ++ str "error" error
        ++ str "preview" preview)))
  end%string.

(** The executor's callback. *)
Definition on_token (tok : text) (now : N) (t : Turn) : Turn :=
  let '(plain, tools) := split_tool_intermediates (V := V) tok in
  let t1 := fold_left (fun t e => let '(kind, payload) := tool_payload e in emit kind payload now t) tools t in
  if bool_decide (plain = []) then t1
  else
    let t2 := if bool_decide (t_state t1 = TRunning) then set_state Streaming now t1 else t1 in
    with_stream (t_ring t2) (t_buffer t2 ++ plain) (t_taken t2) (t_flusher t2) t2.

(** ** Calls of [session/turn] *)

(** What remains of a call once its execution is over: straight-line code, one
    step an item. *)
Inductive micro :=
  | MGuardSuccess | MGuardFailure
  | MState (s : TurnState)
  | MStore (r : string)
  | MEmit (kind : string) (payload : V)
  | MRelease
  | MAudit (outcome : string)
  | MAuditCancel (reason : CancelReason)
  | MPersist (response : string)
  | MMerge (ctx : SessionContext)
  | MUnlock
  | MDeregister
  | MReturn (r : result string (RpcError V)).

(** The select of execution and cancellation: the cancellation has not been
    polled yet, it waits for a notification, it was notified. *)
Inductive listening := NotYet | Listening | Woken.

Inductive pc :=
  | Peek
  | Found (rid : nat) (race : bool)
  | AwaitDone (rid : nat) (race : bool)
  | Mirror (rid : nat) (race : bool)
  | Retry
  | Guard
  | Enter
  | Enroll
  | Registered (rid : nat)
  | Approving (rid : nat)
  | Queue (rid : nat)
  | Queued (rid : nat)
  | Recheck (rid : nat)
  | Snap (rid : nat)
  | Begin (rid : nat) (ctx : SessionContext)
  | Executing (rid : nat) (ctx : SessionContext) (l : listening)
  | Draining (rid : nat) (script : list micro)
  | Finishing (rid : nat) (script : list micro)
  | Returned (r : result string (RpcError V)).

Record Thread := {
  th_turn : string;
  th_session : string;
  th_prompt : string;
  th_knowledge : option (list Note);
  th_connection : bool;              (* a connection to ask for approvals *)
  th_agent : string;
  th_pc : pc;
}.

Definition goto (p : pc) (th : Thread) : Thread :=
  {| th_turn := th_turn th; th_session := th_session th; th_prompt := th_prompt th; th_knowledge := th_knowledge th;
     th_connection := th_connection th; th_agent := th_agent th; th_pc := p |}.
(** The recursive call passes the origin and not the connection. *)
Definition retried (th : Thread) : Thread :=
  {| th_turn := th_turn th; th_session := th_session th; th_prompt := th_prompt th; th_knowledge := th_knowledge th;
     th_connection := false; th_agent := th_agent th; th_pc := Peek |}.
Definition entered (agent : string) (th : Thread) : Thread :=
  {| th_turn := th_turn th; th_session := th_session th; th_prompt := th_prompt th; th_knowledge := th_knowledge th;
     th_connection := th_connection th; th_agent := agent; th_pc := Enroll |}.
End hosting.
Arguments Turn V : clear implicits.
Arguments SessionContext Note C : clear implicits.
Arguments micro V Note C : clear implicits.
Arguments pc V Note C : clear implicits.
Arguments Thread V Note C : clear implicits.

(** ** The daemon's state *)

(** [runs], [answers] and [persisted] log what executions did: the executions
    begun (call, record), the answers of the executor (turn, response), and the
    turns written to the session's file (session, prompt, response). *)
Record Host (V Note C : Type) := {
  has_executor : bool;
  turns : gmap string nat;                     (* the registry *)
  records : gmap nat (Turn V);
  next_rid : nat;
  permits : gmap string (list nat);            (* FIFO: the head holds the permit *)
  sessions : gmap string (SessionContext Note C);
  guards : Guards;
  approval_routes : list (string * nat);       (* turn, call *)
  threads : gmap nat (Thread V Note C);
  audit : list AuditLine;
  runs : list (nat * nat);
  answers : list (string * string);
  persisted : list (string * string * string);
}.
Arguments has_executor {V Note C}. Arguments turns {V Note C}. Arguments records {V Note C}.
Arguments next_rid {V Note C}. Arguments permits {V Note C}. Arguments sessions {V Note C}.
Arguments guards {V Note C}. Arguments approval_routes {V Note C}. Arguments threads {V Note C}.
Arguments audit {V Note C}. Arguments runs {V Note C}. Arguments answers {V Note C}. Arguments persisted {V Note C}.

Section setters.
Context {V Note C : Type}.
Implicit Types w : Host V Note C.

Definition empty_host (executor : bool) : Host V Note C :=
  {| has_executor := executor; turns := ∅; records := ∅; next_rid := 0; permits := ∅; sessions := ∅;
     guards := default_guards; approval_routes := []; threads := ∅; audit := []; runs := []; answers := [];
     persisted := [] |}.

Definition upd_registry (f : gmap string nat -> gmap string nat) w : Host V Note C :=
  {| has_executor := has_executor w; turns := f (turns w); records := records w; next_rid := next_rid w;
     permits := permits w; sessions := sessions w; guards := guards w; approval_routes := approval_routes w;
     threads := threads w; audit := audit w; runs := runs w; answers := answers w; persisted := persisted w |}.
Definition upd_records (f : gmap nat (Turn V) -> gmap nat (Turn V)) w : Host V Note C :=
  {| has_executor := has_executor w; turns := turns w; records := f (records w); next_rid := next_rid w;
     permits := permits w; sessions := sessions w; guards := guards w; approval_routes := approval_routes w;
     threads := threads w; audit := audit w; runs := runs w; answers := answers w; persisted := persisted w |}.
Definition set_next_rid (n : nat) w : Host V Note C :=
  {| has_executor := has_executor w; turns := turns w; records := records w; next_rid := n;
     permits := permits w; sessions := sessions w; guards := guards w; approval_routes := approval_routes w;
     threads := threads w; audit := audit w; runs := runs w; answers := answers w; persisted := persisted w |}.
Definition upd_permits (f : gmap string (list nat) -> gmap string (list nat)) w : Host V Note C :=
  {| has_executor := has_executor w; turns := turns w; records := records w; next_rid := next_rid w;
     permits := f (permits w); sessions := sessions w; guards := guards w; approval_routes := approval_routes w;
     threads := threads w; audit := audit w; runs := runs w; answers := answers w; persisted := persisted w |}.
Definition upd_sessions (f : gmap string (SessionContext Note C) -> gmap string (SessionContext Note C)) w
    : Host V Note C :=
  {| has_executor := has_executor w; turns := turns w; records := records w; next_rid := next_rid w;
     permits := permits w; sessions := f (sessions w); guards := guards w; approval_routes := approval_routes w;
     threads := threads w; audit := audit w; runs := runs w; answers := answers w; persisted := persisted w |}.
Definition set_guards (g : Guards) w : Host V Note C :=
  {| has_executor := has_executor w; turns := turns w; records := records w; next_rid := next_rid w;
     permits := permits w; sessions := sessions w; guards := g; approval_routes := approval_routes w;
     threads := threads w; audit := audit w; runs := runs w; answers := answers w; persisted := persisted w |}.
Definition upd_approvals (f : list (string * nat) -> list (string * nat)) w : Host V Note C :=
  {| has_executor := has_executor w; turns := turns w; records := records w; next_rid := next_rid w;
     permits := permits w; sessions := sessions w; guards := guards w; approval_routes := f (approval_routes w);
     threads := threads w; audit := audit w; runs := runs w; answers := answers w; persisted := persisted w |}.
Definition set_thread (tid : nat) (th : Thread V Note C) w : Host V Note C :=
  {| has_executor := has_executor w; turns := turns w; records := records w; next_rid := next_rid w;
     permits := permits w; sessions := sessions w; guards := guards w; approval_routes := approval_routes w;
     threads := <[tid := th]> (threads w); audit := audit w; runs := runs w; answers := answers w;
     persisted := persisted w |}.
Definition log (l : list AuditLine) (r : list (nat * nat)) (a : list (string * string))
    (p : list (string * string * string)) w : Host V Note C :=
  {| has_executor := has_executor w; turns := turns w; records := records w; next_rid := next_rid w;
     permits := permits w; sessions := sessions w; guards := guards w; approval_routes := approval_routes w;
     threads := threads w; audit := audit w ++ l; runs := runs w ++ r; answers := answers w ++ a;
     persisted := persisted w ++ p |}.
Definition upd_record (rid : nat) (f : Turn V -> Turn V) : Host V Note C -> Host V Note C :=
  upd_records (alter f rid).
End setters.

Section steps.
Context {V : Type} `{Json V, ParseJson V}.
Context {Note C : Type}.
Implicit Types (w : Host V Note C) (th : Thread V Note C).

Definition agent_label (s : SessionContext Note C) : string :=
  if bool_decide (agent_name s = ""%string) then "auto"%string else agent_name s.

(** ** The end of a call *)

Definition error_payload (code : Z) (message : string) : V :=
  j_obj [("code", j_int code); ("message", j_str message)]%string.

(** [finalize_cancelled_with_reason]. *)
Definition finalize_cancelled (reason : CancelReason) : list (micro V Note C) :=
  [MState Cancelled;
   MEmit "turn_error" (error_payload (-32603)
     match reason with ByClient => "turn client requested" | ByWatchdog => "turn watchdog deadline" end);
   MRelease; MAudit "cancelled"; MAuditCancel reason].

Definition leave (r : result string (RpcError V)) : list (micro V Note C) := [MUnlock; MDeregister; MReturn r].

Definition success_script (response : string) (ctx : SessionContext Note C) : list (micro V Note C) :=
  [MGuardSuccess; MState TCompleted; MStore response;
   MEmit "turn_completed" (j_obj [("response"%string, j_str response)]); MRelease; MAudit "completed";
   MPersist response; MMerge ctx] ++ leave (Ok response).

Definition failure_script (e : string) (ctx : SessionContext Note C) : list (micro V Note C) :=
  [MGuardFailure; MState TCompleted;
   MEmit "turn_error" (error_payload (-32603) ("agent execution failed: " ++ e)); MRelease; MAudit "completed";
   MMerge ctx] ++ leave (Err (internal ("agent execution failed: " ++ e))).

Definition cancel_script : list (micro V Note C) :=
  finalize_cancelled ByClient ++ leave (Err (internal "turn cancelled")).

Definition watchdog_script : list (micro V Note C) :=
  [MGuardFailure;
   MEmit "turn_error" (j_obj [("code", j_int (-32020)); ("message", j_str "watchdog timeout");
                              ("guard", j_str "watchdog")]%string)]
  ++ finalize_cancelled ByWatchdog ++ leave (Err watchdog_rejected).

(** One step of a script, for the call [tid] of record [rid]. *)
Definition run_micro (tid rid : nat) th (now : N) (m : micro V Note C) w : Host V Note C :=
  match m with
  | MGuardSuccess => set_guards (record_success (guards w) (th_session th)) w
  | MGuardFailure => set_guards (record_failure (guards w) (th_session th) now) w
  | MState s => upd_record rid (set_state s now) w
  | MStore r => upd_record rid (store_response r) w
  | MEmit kind payload => upd_record rid (emit kind payload now) w
  | MRelease => upd_record rid release_done w
  | MAudit outcome =>
    match records w !! rid with
    | Some t =>
      if t_audited t then w
      else log [TurnDone rid (th_turn th) (th_session th) outcome] [] [] [] (upd_record rid claim_audit w)
    | None => w
    end
  | MAuditCancel reason =>
    log [TurnCancelled rid (th_turn th) (th_session th)
           match reason with ByClient => "cancelled" | ByWatchdog => "watchdog" end] [] [] [] w
  | MPersist response => log [] [] [] [(th_session th, th_prompt th, response)] w
  | MMerge ctx => upd_sessions (alter (fun _ => ctx) (th_session th)) w
  | MUnlock => upd_permits (alter tail (th_session th)) w
  | MDeregister =>
    if th_connection th then upd_approvals (filter (fun r => r.1 <> th_turn th)) w else w
  | MReturn _ => w
  end.

Definition next_pc (rid : nat) (m : micro V Note C) (rest : list (micro V Note C)) : pc V Note C :=
  match m with MReturn r => Returned r | _ => Finishing rid rest end.

(** ** One step of a call *)

Definition step_thread (tid : nat) (now : N) th w : Host V Note C :=
  let to p w := set_thread tid (goto p th) w in
  match th_pc th with
  | Peek =>
    match turns w !! th_turn th with
    | Some rid => to (Found rid false) w
    | None => to Guard w
    end
  | Found rid race =>
    match records w !! rid with
    | Some t => to (if turn_terminal (t_state t) then Mirror rid race else AwaitDone rid race) w
    | None => w
    end
  | AwaitDone rid race =>
    match records w !! rid with
    | Some t => if t_done t then to (Mirror rid race) w else w
    | None => w
    end
  | Mirror rid race =>
    match records w !! rid with
    | Some t =>
      match t_response t with
      | Some r => to (Returned (Err (turn_already_completed r))) w
      | None => to (if race then Returned (Err (internal "turn superseded by concurrent duplicate")) else Retry) w
      end
    | None => w
    end
  | Retry => set_thread tid (retried th) (upd_registry (delete (th_turn th)) w)
  | Guard =>
    let '(r, g) := check_submit (guards w) (th_session th) now in
    match r with
    | Err e =>
      to (Returned (Err e))
        (log [GuardRejected match e with guard_rejected n _ => n | _ => "unknown" end] [] [] [] (set_guards g w))
    | Ok _ => to Enter (set_guards g w)
    end
  | Enter =>
    match sessions w !! th_session th with
    | None => to (Returned (Err (session_not_found (th_session th)))) w
    | Some s =>
      let s' := match th_knowledge th with
                | Some notes => {| agent_name := agent_name s; knowledge := knowledge s ++ notes;
                                   conversation := conversation s |}
                | None => s
                end in
      set_thread tid (entered (agent_label s') th) (upd_sessions (<[th_session th := s']>) w)
    end
  | Enroll =>
    if has_executor w then
      match turns w !! th_turn th with
      | Some rid => to (Found rid true) w
      | None =>
        let rid := next_rid w in
        to (Registered rid)
          (upd_registry (<[th_turn th := rid]>)
             (upd_records (<[rid := new_turn (th_turn th) (th_session th)]>) (set_next_rid (S rid) w)))
      end
    else to (Returned (Err (internal "agent stack unavailable (config/router init failed)"))) w
  | Registered rid =>
    to (Approving rid) (log [TurnStarted rid (th_turn th) (th_session th) (th_agent th)] [] [] [] w)
  | Approving rid =>
    to (Queue rid) (if th_connection th then upd_approvals (fun l => l ++ [(th_turn th, tid)]) w else w)
  | Queue rid =>
    to (Queued rid)
      (upd_permits (fun m => <[th_session th := default [] (m !! th_session th) ++ [tid]]> m) w)
  | Queued rid =>
    if bool_decide (head (default [] (permits w !! th_session th)) = Some tid) then to (Recheck rid) w else w
  | Recheck rid =>
    match records w !! rid with
    | Some t => to (if t_cancelled t then Finishing rid cancel_script else Snap rid) w
    | None => w
    end
  | Snap rid =>
    match sessions w !! th_session th with
    | Some ctx => to (Begin rid ctx) w
    | None => w                              (* expect("checked") *)
    end
  | Begin rid ctx =>
    to (Executing rid ctx NotYet)
      (log [] [(tid, rid)] [] []
         (upd_record rid (fun t => with_stream (t_ring t) (t_buffer t) (t_taken t) true (set_state TRunning now t)) w))
  | Executing rid _ l =>
    match l with Woken => to (Draining rid cancel_script) w | _ => w end
  | Draining rid script => to (Finishing rid script) (upd_record rid (drain_pending now) w)
  | Finishing rid script =>
    match script with
    | [] => w
    | m :: rest => to (next_pc rid m rest) (run_micro tid rid th now m w)
    end
  | Returned _ => w
  end.
End steps.

Section daemon.
Context {V : Type} `{Json V, ParseJson V}.
Context {Note C : Type}.
Implicit Types (w : Host V Note C).

(** ** Other operations *)

(** [request_cancel]: the flag, and a wake-up of the calls that wait for it. *)
Definition woken (rid : nat) (th : Thread V Note C) : Thread V Note C :=
  match th_pc th with
  | Executing rid' ctx Listening => if (rid' =? rid)%nat then goto (Executing rid' ctx Woken) th else th
  | _ => th
  end.
Definition upd_threads (f : Thread V Note C -> Thread V Note C) w : Host V Note C :=
  {| has_executor := has_executor w; turns := turns w; records := records w; next_rid := next_rid w;
     permits := permits w; sessions := sessions w; guards := guards w; approval_routes := approval_routes w;
     threads := f <$> threads w; audit := audit w; runs := runs w; answers := answers w; persisted := persisted w |}.
Definition request_cancel (rid : nat) w : Host V Note C :=
  upd_threads (woken rid) (upd_record rid set_cancelled w).

Definition live_record w (rid : nat) : bool :=
  match records w !! rid with Some t => negb (turn_terminal (t_state t)) | None => false end.

(** [session/cancel]. *)
Definition cancel (turn_id : string) w : Host V Note C :=
  match turns w !! turn_id with
  | Some rid => if live_record w rid then request_cancel rid w else w
  | None => w
  end.

(** The records of the registry, in its order. *)
Definition registered w : list (string * nat) := map_to_list (turns w).

Definition active_count w : nat := length (filter (fun '(_, rid) => live_record w rid = true) (registered w)).

Definition cancel_all_active w : Host V Note C :=
  fold_left (fun w '(_, rid) => request_cancel rid w) (filter (fun '(_, rid) => live_record w rid = true) (registered w)) w.

(** Order of [Option<Instant>]: [None] first. *)
Definition older (a b : option N) : Prop :=
  match a, b with None, _ => True | Some _, None => False | Some x, Some y => (x <= y)%N end.

Definition ended_at w (rid : nat) : option N := records w !! rid ≫= t_terminal_at.
Definition ended_before w (a b : string * nat) : Prop := older (ended_at w a.2) (ended_at w b.2).
#[export] Instance ended_before_dec w : RelDecision (ended_before w).
Proof. intros a b. unfold ended_before, older. repeat case_match; apply _. Defined.

Definition terminal_record w (rid : nat) : bool :=
  match records w !! rid with Some t => turn_terminal (t_state t) | None => false end.
Definition terminal_ids w : list (string * nat) :=
  filter (fun '(_, rid) => terminal_record w rid = true) (registered w).

Definition reap_terminal (retain : nat) w : Host V Note C :=
  let sorted := merge_sort (ended_before w) (terminal_ids w) in
  upd_registry (fun m => fold_left (fun m '(id, _) => delete id m) (take (length sorted - retain) sorted) m) w.

(** [session/start]: [hydrated] is the context read from the session's file, for
    a session that is not in memory. *)
Definition start (session_id : string) (agent : option string) (hydrated : SessionContext Note C) w
    : Host V Note C :=
  let s := default hydrated (sessions w !! session_id) in
  let s' := match agent with
            | Some a => {| agent_name := a; knowledge := knowledge s; conversation := conversation s |}
            | None => s
            end in
  upd_sessions (<[session_id := s']>) w.

(** [session/resume], as the answer to render. *)
Definition resume (turn_id : string) (last_seq : N) w : outcome ResumeAnswer :=
  match turns w !! turn_id ≫= fun rid => records w !! rid with
  | None => Done (Snapshot None)
  | Some t => resume_record (t_ring t) (turn_terminal (t_state t)) (t_response t) last_seq
  end.

(** ** Steps of the daemon *)

Inductive label :=
  | Submit (tid : nat) (turn session prompt : string) (notes : option (list Note)) (connection : bool)
  | Step (tid : nat) (now : N)
  | Listen (tid : nat)
  | Token (tid : nat) (tok : text) (now : N)
  | Answer (tid : nat) (r : result string string) (ctx : SessionContext Note C)
  | Elapse (tid : nat)
  | FlushTake (rid : nat)
  | FlushEmit (rid : nat) (now : N)
  | Cancel (turn : string)
  | ApprovalTimeout (rid : nat)
  | CancelAll
  | Reap (retain : nat)
  | StartSession (session : string) (agent : option string) (hydrated : SessionContext Note C).

(** An action on a call that is executing. *)
Definition on_executing (tid : nat)
    (f : Thread V Note C -> nat -> SessionContext Note C -> listening -> Host V Note C -> Host V Note C) w
    : Host V Note C :=
  match threads w !! tid with
  | Some th => match th_pc th with Executing rid ctx l => f th rid ctx l w | _ => w end
  | None => w
  end.

Definition step_host w (l : label) : Host V Note C :=
  match l with
  | Submit tid turn session prompt notes connection =>
    match threads w !! tid with
    | Some _ => w
    | None =>
      set_thread tid {| th_turn := turn; th_session := session; th_prompt := prompt; th_knowledge := notes;
                        th_connection := connection; th_agent := ""; th_pc := Peek |} w
    end
  | Step tid now => match threads w !! tid with Some th => step_thread tid now th w | None => w end
  | Listen tid =>
    on_executing tid (fun th rid ctx l w =>
      match l with NotYet => set_thread tid (goto (Executing rid ctx Listening) th) w | _ => w end) w
  | Token tid tok now => on_executing tid (fun _ rid _ _ => upd_record rid (on_token tok now)) w
  | Answer tid r ctx =>
    on_executing tid (fun th rid _ _ w =>
      match r with
      | Ok response =>
        set_thread tid (goto (Draining rid (success_script response ctx)) th)
          (log [] [] [(th_turn th, response)] [] w)
      | Err e => set_thread tid (goto (Draining rid (failure_script e ctx)) th) w
      end) w
  | Elapse tid => on_executing tid (fun th rid _ _ => set_thread tid (goto (Draining rid watchdog_script) th)) w
  | FlushTake rid => upd_record rid flush_take w
  | FlushEmit rid now => upd_record rid (flush_emit now) w
  | Cancel turn => cancel turn w
  | ApprovalTimeout rid => request_cancel rid w
  | CancelAll => cancel_all_active w
  | Reap retain => reap_terminal retain w
  | StartSession session agent hydrated => start session agent hydrated w
  end.

Definition run_host (ls : list label) w : Host V Note C := fold_left step_host ls w.
End daemon.
