(* ===== verification/HostingProps.v ===== *)
(** * Hosted turns: what holds in every run

    The invariant of the daemon's state under every interleaving of calls,
    tokens, answers, cancellations, deadlines and reaping; and its
    consequences. *)

From S2P Require Import Prelude Json Text Rpc Guards TurnEvents Hosting.
From stdpp Require Import gmap.
From Stdlib Require Import Lia.
Local Open Scope list_scope.

(** ** Scripts *)

Section scripts.
Context {V Note C : Type}.
Implicit Types (m : micro V Note C) (s : list (micro V Note C)).

Definition is_state m : bool := match m with MState _ => true | _ => false end.
Definition is_release m : bool := match m with MRelease => true | _ => false end.
Definition is_audit m : bool := match m with MAudit _ => true | _ => false end.
Definition is_unlock m : bool := match m with MUnlock => true | _ => false end.

(** Each of these actions at most once, states terminal, and one return, last. *)
Fixpoint well_formed s : bool :=
  match s with
  | [] => false
  | m :: rest =>
    match m with
    | MState st => turn_terminal st && negb (existsb is_state rest)
    | MRelease => negb (existsb is_release rest)
    | MAudit _ => negb (existsb is_audit rest)
    | MUnlock => negb (existsb is_unlock rest)
    | _ => true
    end
    && match m with MReturn _ => bool_decide (rest = []) | _ => well_formed rest end
  end.

(** A script that has nothing behind it. *)
Definition full s : bool :=
  well_formed s && existsb is_state s && existsb is_release s && existsb is_audit s && existsb is_unlock s.
End scripts.

Lemma full_success {V Note C} `{Json V} r (ctx : SessionContext Note C) : full (success_script (V := V) r ctx) = true.
Proof. done. Qed.
Lemma full_failure {V Note C} `{Json V} e (ctx : SessionContext Note C) : full (failure_script (V := V) e ctx) = true.
Proof. done. Qed.
Lemma full_cancel {V Note C} `{Json V} : full (cancel_script (V := V) (Note := Note) (C := C)) = true.
Proof. done. Qed.
Lemma full_watchdog {V Note C} `{Json V} : full (watchdog_script (V := V) (Note := Note) (C := C)) = true.
Proof. done. Qed.

(** ** Records *)

Section records.
Context {V : Type} {HJson : Json V} {HParse : ParseJson V}.
Implicit Types t : Turn V.

(** What the calls of a turn look at, tokens and cancellation apart. *)
Definition core t : string * string * bool * bool * bool * option string :=
  (t_id t, t_session t, turn_terminal (t_state t), t_done t, t_audited t, t_response t).

Lemma core_emit kind payload now t : core (emit kind payload now t) = core t.
Proof. done. Qed.

Lemma core_drain now t : core (drain_pending now t) = core t.
Proof. unfold drain_pending. by case_bool_decide. Qed.

Lemma core_flush_take t : core (flush_take t) = core t.
Proof. unfold flush_take. by case_match. Qed.

Lemma core_flush_emit now t : core (flush_emit now t) = core t.
Proof. unfold flush_emit. by case_match. Qed.

Lemma emits_same (tools : list (ToolIntermediate V)) now t :
  let t' := fold_left (fun t e => let '(kind, payload) := tool_payload e in emit kind payload now t) tools t in
  core t' = core t /\ t_state t' = t_state t.
Proof.
  revert t. induction tools as [|e tools IH]; intros t; [done|]. cbn [fold_left].
  destruct (tool_payload e) as [kind payload]. destruct (IH (emit kind payload now t)) as [-> ->]. done.
Qed.

Lemma core_on_token tok now t : core (on_token tok now t) = core t.
Proof.
  unfold on_token. destruct (split_tool_intermediates tok) as [plain tools].
  pose proof (emits_same tools now t) as [He Hst]. cbn zeta in He, Hst. set (t1 := fold_left _ tools t) in *.
  case_bool_decide; [done|]. case_bool_decide as Hr; [|by rewrite <- He].
  rewrite <- He. unfold core. cbn. by rewrite Hr.
Qed.
End records.

(** ** The invariant *)

Section invariant.
Context {V : Type} {HJson : Json V} {HParse : ParseJson V} {Note C : Type}.
Implicit Types (w : Host V Note C) (th : Thread V Note C) (p : pc V Note C) (t : Turn V).

(** The record a call executes, and the record it looks at. *)
Definition owner p : option nat :=
  match p with
  | Registered rid | Approving rid | Queue rid | Queued rid | Recheck rid | Snap rid | Begin rid _
  | Executing rid _ _ | Draining rid _ | Finishing rid _ => Some rid
  | _ => None
  end.
Definition watched p : option nat :=
  match p with Found rid _ | AwaitDone rid _ | Mirror rid _ => Some rid | _ => None end.

(** What is left to do for the record: all, before the end of the execution. *)
Definition status p t : Prop :=
  let left f := match p with Finishing _ s => existsb f s | _ => true end in
  turn_terminal (t_state t) = negb (left is_state)
  /\ t_done t = negb (left is_release) /\ t_audited t = negb (left is_audit).

Definition script_ok (ans : list (string * string)) (turn : string) (s : list (micro V Note C)) : Prop :=
  well_formed s = true
  /\ (forall r, MStore r ∈ s \/ MReturn (Ok r) ∈ s -> (turn, r) ∈ ans)
  /\ (forall r, MReturn (Err (turn_already_completed r)) ∈ s -> (turn, r) ∈ ans).

Definition pc_ok (ans : list (string * string)) (turn : string) p : Prop :=
  match p with
  | Draining _ s => script_ok ans turn s /\ full s = true
  | Finishing _ s => script_ok ans turn s
  | Returned r => forall a, r = Ok a \/ r = Err (turn_already_completed a) -> (turn, a) ∈ ans
  | _ => True
  end.

Definition thread_ok (recs : gmap nat (Turn V)) (ans : list (string * string)) th : Prop :=
  pc_ok ans (th_turn th) (th_pc th)
  /\ (forall rid, watched (th_pc th) = Some rid -> exists t, recs !! rid = Some t /\ t_id t = th_turn th)
  /\ (forall rid, owner (th_pc th) = Some rid ->
        exists t, recs !! rid = Some t /\ t_id t = th_turn th /\ t_session t = th_session th /\ status (th_pc th) t).

(** A record whose call has returned. *)
Definition settled t : Prop := turn_terminal (t_state t) = true /\ t_done t = true /\ t_audited t = true.

Record Inv w : Prop := {
  inv_threads : forall tid th, threads w !! tid = Some th -> thread_ok (records w) (answers w) th;
  inv_owners : forall tid1 th1 tid2 th2 rid, threads w !! tid1 = Some th1 -> threads w !! tid2 = Some th2 ->
    owner (th_pc th1) = Some rid -> owner (th_pc th2) = Some rid -> tid1 = tid2;
  inv_records : forall rid t, records w !! rid = Some t ->
    rid < next_rid w
    /\ (forall r, t_response t = Some r -> (t_id t, r) ∈ answers w)
    /\ (settled t \/ exists tid th, threads w !! tid = Some th /\ owner (th_pc th) = Some rid);
  inv_turns : forall id rid, turns w !! id = Some rid -> exists t, records w !! rid = Some t /\ t_id t = id;
}.

Lemma core_id t t' : core t' = core t -> t_id t' = t_id t /\ t_session t' = t_session t.
Proof. unfold core. intros Hc. by injection Hc. Qed.

Lemma core_status p t t' : core t' = core t -> status p t -> status p t'.
Proof. unfold core, status. intros Hc. injection Hc as _ _ E1 E2 E3 _. by rewrite E1, E2, E3. Qed.

Lemma core_settled t t' : core t' = core t -> settled t -> settled t'.
Proof. unfold core, settled. intros Hc. injection Hc as _ _ E1 E2 E3 _. by rewrite E1, E2, E3. Qed.

(** A record may evolve under a call that does not own it. *)
Definition keeps (recs recs' : gmap nat (Turn V)) (mine : option nat) : Prop := forall rid t, recs !! rid = Some t ->
  exists t', recs' !! rid = Some t' /\ t_id t' = t_id t /\ t_session t' = t_session t
             /\ (mine <> Some rid -> core t' = core t).

Lemma pc_ok_mono ans ans' turn p : ans ⊆ ans' -> pc_ok ans turn p -> pc_ok ans' turn p.
Proof.
  intros Ha. assert (Hs : forall s, script_ok ans turn s -> script_ok ans' turn s).
  { intros s (? & H1 & H2). split_and!; [done|intros r Hr; by apply Ha, H1|intros r Hr; by apply Ha, H2]. }
  destruct p; cbn; try done.
  - intros [? ?]. auto.
  - apply Hs.
  - intros Hr a Hra. by apply Ha, Hr.
Qed.

Lemma thread_ok_mono recs recs' ans ans' mine th : keeps recs recs' mine -> ans ⊆ ans' ->
  (forall rid, owner (th_pc th) = Some rid -> mine <> Some rid) ->
  thread_ok recs ans th -> thread_ok recs' ans' th.
Proof.
  intros Hk Ha Hm (Hp & Hw & Ho). split_and!; [by eapply pc_ok_mono| |].
  - intros rid (t & Ht & Hid)%Hw. destruct (Hk _ _ Ht) as (t' & Ht' & Hid' & _). exists t'. split; congruence.
  - intros rid Hrid. destruct (Ho _ Hrid) as (t & Ht & Hid & Hse & Hst).
    destruct (Hk _ _ Ht) as (t' & Ht' & Hid' & Hse' & Hc). exists t'. split_and!; try congruence.
    eapply core_status; [|exact Hst]. apply Hc. by apply Hm.
Qed.

(** The step of a call [tid] from [th] to [th'] that may change its record. *)
Lemma inv_step w w' tid th th' : Inv w -> threads w !! tid = Some th ->
  threads w' = <[tid := th']> (threads w) -> next_rid w' = next_rid w -> answers w ⊆ answers w' ->
  (forall id rid, turns w' !! id = Some rid -> turns w !! id = Some rid) ->
  keeps (records w) (records w') (owner (th_pc th)) ->
  (forall rid t', records w' !! rid = Some t' -> exists t, records w !! rid = Some t /\
     (forall r, t_response t' = Some r -> t_response t = Some r \/ (t_id t', r) ∈ answers w')) ->
  (owner (th_pc th') = owner (th_pc th)
   \/ owner (th_pc th') = None /\ (forall rid t', owner (th_pc th) = Some rid -> records w' !! rid = Some t' -> settled t')) ->
  thread_ok (records w') (answers w') th' -> Inv w'.
Proof.
  intros [H1 H2 H3 H4] Hth Hths Hn Ha Ht Hk Hback Hown Hok.
  assert (Hothers : forall tid1 th1, tid1 <> tid -> threads w' !! tid1 = Some th1 -> threads w !! tid1 = Some th1).
  { intros tid1 th1 Hne. by rewrite Hths, lookup_insert_ne. }
  assert (Hmine : threads w' !! tid = Some th') by by rewrite Hths, lookup_insert_eq.
  assert (Hsub : forall rid, owner (th_pc th') = Some rid -> owner (th_pc th) = Some rid).
  { intros rid Hr. destruct Hown as [<-|[Hnone _]]; [done|congruence]. }
  split.
  - intros tid1 th1 Hth1. destruct (decide (tid1 = tid)) as [->|Hne]; [by simplify_eq|].
    eapply thread_ok_mono; [exact Hk|exact Ha| |eapply H1; by apply Hothers].
    intros rid Ho1 Ho. apply Hne. eapply H2; [by apply Hothers|exact Hth|done|done].
  - intros tid1 th1 tid2 th2 rid Hth1 Hth2 Ho1 Ho2.
    destruct (decide (tid1 = tid)) as [->|Hn1], (decide (tid2 = tid)) as [->|Hn2]; [done| | |]; simplify_eq.
    + eapply H2; [exact Hth|by apply Hothers| |done]. by apply Hsub.
    + eapply H2; [by apply Hothers|exact Hth|done|]. by apply Hsub.
    + eapply H2; [by apply Hothers|by apply Hothers|done|done].
  - intros rid t' Ht'. destruct (Hback _ _ Ht') as (t & Hrec & Hr). destruct (H3 _ _ Hrec) as (Hlt & Hresp & Hset).
    destruct (Hk _ _ Hrec) as (t'' & Ht'' & Hid & Hse & Hc). simplify_eq. split_and!.
    + by rewrite Hn.
    + intros r [Hold|Hnew]%Hr; [|done]. rewrite Hid. by apply Ha, Hresp.
    + destruct (decide (owner (th_pc th) = Some rid)) as [Heq|Hneq].
      * destruct Hown as [Hsame|[_ Hs]]; [right; exists tid, th'; by rewrite Hsame|left; by eapply Hs].
      * destruct Hset as [Hs|(tid1 & th1 & Hth1 & Ho1)]; [left; eapply core_settled; [by apply Hc|done]|].
        right. exists tid1, th1. split; [|done]. rewrite Hths, lookup_insert_ne; [done|]. intros ->. congruence.
  - intros id rid Hid%Ht. destruct (H4 _ _ Hid) as (t & Hrec & <-). destruct (Hk _ _ Hrec) as (t' & ? & ? & _). eauto.
Qed.

Lemma keeps_refl recs mine : keeps recs recs mine.
Proof. intros rid t Ht. eauto. Qed.

(** A step that leaves the records alone. *)
Lemma inv_goto w w' tid th th' : Inv w -> threads w !! tid = Some th ->
  threads w' = <[tid := th']> (threads w) -> next_rid w' = next_rid w -> answers w ⊆ answers w' ->
  (forall id rid, turns w' !! id = Some rid -> turns w !! id = Some rid) -> records w' = records w ->
  owner (th_pc th') = owner (th_pc th) -> thread_ok (records w) (answers w') th' -> Inv w'.
Proof.
  intros Hi Hth Hths Hn Ha Ht Hr Ho Hok. eapply inv_step; [exact Hi|exact Hth|exact Hths|done|done|done| | | |].
  - rewrite Hr. apply keeps_refl.
  - rewrite Hr. intros rid t' Ht'. eauto.
  - by left.
  - by rewrite Hr.
Qed.

(** A step that changes a record, keeping its core. *)
Lemma keeps_alter w rid f : (forall t, core (f t) = core t) -> forall mine, keeps (records w) (alter f rid (records w)) mine.
Proof.
  intros Hf mine rid' t Ht. destruct (decide (rid' = rid)) as [->|Hne].
  - exists (f t). rewrite lookup_alter_eq, Ht. destruct (core_id t (f t) (Hf t)). split_and!; auto.
  - exists t. rewrite lookup_alter_ne by done. auto.
Qed.

Lemma back_alter w rid f (ans : list (string * string)) : (forall t, core (f t) = core t) -> forall rid' t', alter f rid (records w) !! rid' = Some t' ->
  exists t, records w !! rid' = Some t /\ (forall r, t_response t' = Some r -> t_response t = Some r \/ (t_id t', r) ∈ ans).
Proof.
  intros Hf rid' t'. destruct (decide (rid' = rid)) as [->|Hne].
  - rewrite lookup_alter_eq. intros (t & Ht & ->)%fmap_Some. exists t. split; [done|]. intros r.
    pose proof (Hf t) as Hc. unfold core in Hc. injection Hc as _ _ _ _ _ ->. auto.
  - rewrite lookup_alter_ne by done. eauto.
Qed.

(** A step of no call in particular. *)
Lemma inv_other w w' g : Inv w -> threads w' = g <$> threads w -> next_rid w' = next_rid w -> answers w' = answers w ->
  (forall id rid, turns w' !! id = Some rid -> turns w !! id = Some rid) ->
  (forall rid, (records w' !! rid = records w !! rid)
     \/ exists t t', records w !! rid = Some t /\ records w' !! rid = Some t' /\ core t' = core t) ->
  (forall th, th_turn (g th) = th_turn th /\ th_session (g th) = th_session th
     /\ owner (th_pc (g th)) = owner (th_pc th) /\ watched (th_pc (g th)) = watched (th_pc th)
     /\ (forall ans turn, pc_ok ans turn (th_pc th) -> pc_ok ans turn (th_pc (g th)))
     /\ (forall t, status (th_pc th) t -> status (th_pc (g th)) t)) -> Inv w'.
Proof.
  intros [H1 H2 H3 H4] Hths Hn Ha Ht Hr Hg.
  assert (Hk : forall rid t, records w !! rid = Some t -> exists t', records w' !! rid = Some t' /\ core t' = core t).
  { intros rid t Hrec. destruct (Hr rid) as [->|(t1 & t2 & E1 & E2 & E3)]; [eauto|]. exists t2. split; congruence. }
  assert (Hb : forall rid t', records w' !! rid = Some t' -> exists t, records w !! rid = Some t /\ core t' = core t).
  { intros rid t' Hrec. destruct (Hr rid) as [<-|(t1 & t2 & E1 & E2 & E3)]; [eauto|]. exists t1. split; congruence. }
  assert (Hback : forall tid th', threads w' !! tid = Some th' -> exists th, threads w !! tid = Some th /\ th' = g th).
  { intros tid th'. rewrite Hths, lookup_fmap. intros (th & ? & ->)%fmap_Some. eauto. }
  split.
  - intros tid th' (th & Hth & ->)%Hback. destruct (Hg th) as (Et & Es & Eo & Ew & Hp & Hst).
    destruct (H1 _ _ Hth) as (Hpc & Hw & How). rewrite Ha. split_and!.
    + rewrite Et. by apply Hp.
    + rewrite Ew, Et. intros rid (t & Hrec & <-)%Hw. destruct (Hk _ _ Hrec) as (t' & Ht' & [E _]%core_id). eauto.
    + rewrite Eo, Et, Es. intros rid (t & Hrec & <- & <- & Hs)%How. destruct (Hk _ _ Hrec) as (t' & Ht' & Hc).
      destruct (core_id _ _ Hc). exists t'. split_and!; try done. apply Hst. by eapply core_status.
  - intros tid1 th1 tid2 th2 rid (a & Hta & ->)%Hback (b & Htb & ->)%Hback.
    destruct (Hg a) as (_ & _ & -> & _), (Hg b) as (_ & _ & -> & _). by apply H2.
  - intros rid t' (t & Hrec & Hc)%Hb. destruct (H3 _ _ Hrec) as (Hlt & Hresp & Hset).
    rewrite Hn, Ha. split_and!; [done| |].
    + unfold core in Hc. injection Hc as -> _ _ _ _ ->. done.
    + destruct Hset as [Hs|(tid & th & Hth & Ho)]; [left; by eapply core_settled|right].
      exists tid, (g th). rewrite Hths, lookup_fmap, Hth. destruct (Hg th) as (_ & _ & -> & _). done.
  - intros id rid (t & Hrec & <-)%Ht%H4. destruct (Hk _ _ Hrec) as (t' & ? & [E _]%core_id). eauto.
Qed.

Lemma inv_submit w tid th : Inv w -> threads w !! tid = None -> th_pc th = Peek -> Inv (set_thread tid th w).
Proof.
  intros [H1 H2 H3 H4] Hn Hp. split; cbn.
  - intros tid1 th1 [[<- <-]|[_ Hth]]%lookup_insert_Some; [|by eapply H1].
    unfold thread_ok. rewrite Hp. done.
  - intros tid1 th1 tid2 th2 rid [[<- <-]|[_ Hth1]]%lookup_insert_Some [[<- <-]|[_ Hth2]]%lookup_insert_Some; rewrite ?Hp; try done.
    by eapply H2.
  - intros rid t Hrec. destruct (H3 _ _ Hrec) as (? & ? & [?|(tid1 & th1 & Hth1 & ?)]); split_and!; auto.
    right. exists tid1, th1. rewrite lookup_insert_ne by congruence. done.
  - done.
Qed.

(** A call registers its record. *)
Lemma inv_enroll w tid th : Inv w -> threads w !! tid = Some th -> th_pc th = Enroll -> turns w !! th_turn th = None ->
  Inv (set_thread tid (goto (Registered (next_rid w)) th)
        (upd_registry (<[th_turn th := next_rid w]>)
          (upd_records (<[next_rid w := new_turn (th_turn th) (th_session th)]>) (set_next_rid (S (next_rid w)) w)))).
Proof.
  intros [H1 H2 H3 H4] Hth Hpc Hnone. set (rid := next_rid w).
  assert (Hold : forall rid' t, records w !! rid' = Some t ->
    <[rid := new_turn (th_turn th) (th_session th)]> (records w) !! rid' = Some t).
  { intros rid' t Ht. rewrite lookup_insert_ne; [done|]. intros <-. destruct (H3 _ _ Ht) as (? & _). unfold rid in *. lia. }
  assert (Hkeeps : forall mine, keeps (records w) (<[rid := new_turn (th_turn th) (th_session th)]> (records w)) mine).
  { intros mine rid' t Ht. exists t. split; [by apply Hold|done]. }
  assert (Hfresh : forall tid1 th1, threads w !! tid1 = Some th1 -> owner (th_pc th1) <> Some rid).
  { intros tid1 th1 Hth1 Ho. destruct (H1 _ _ Hth1) as (_ & _ & Hown). destruct (Hown _ Ho) as (t & Ht & _).
    destruct (H3 _ _ Ht) as (? & _). unfold rid in *. lia. }
  split; cbn.
  - intros tid1 th1 [[<- <-]|[_ Hth1]]%lookup_insert_Some.
    + split_and!; [done|done|]. cbn. intros rid' [= <-]. eexists. rewrite lookup_insert_eq. split_and!; done.
    + eapply thread_ok_mono; [apply (Hkeeps None)|done|done|by eapply H1].
  - intros tid1 th1 tid2 th2 rid' [[<- <-]|[Hn1 Hth1]]%lookup_insert_Some [[<- <-]|[Hn2 Hth2]]%lookup_insert_Some; cbn;
      intros Ho1 Ho2; try done; simplify_eq; try by exfalso; eapply Hfresh.
    by eapply H2.
  - intros rid' t [[<- <-]|[_ Ht]]%lookup_insert_Some.
    + split_and!; [unfold rid; lia|done|]. right. exists tid, (goto (Registered rid) th). by rewrite lookup_insert_eq.
    + destruct (H3 _ _ Ht) as (Hlt & Hresp & Hset). split_and!; [lia|done|].
      destruct Hset as [?|(tid1 & th1 & Hth1 & Ho)]; [by left|right]. exists tid1, th1.
      rewrite lookup_insert_ne; [done|]. intros ->. simplify_eq. by rewrite Hpc in Ho.
  - intros id rid' [[<- <-]|[_ Hid]]%lookup_insert_Some.
    + eexists. rewrite lookup_insert_eq. done.
    + destruct (H4 _ _ Hid) as (t & Ht & ?). eauto.
Qed.

(** ** The end of a call *)

Definition micro_effect (m : micro V Note C) (now : N) t : Turn V :=
  match m with
  | MState st => set_state st now t
  | MStore r => store_response r t
  | MEmit kind payload => emit kind payload now t
  | MRelease => release_done t
  | MAudit _ => if t_audited t then t else claim_audit t
  | _ => t
  end.

Lemma alter_id_same (m : gmap nat (Turn V)) rid f : (forall t, m !! rid = Some t -> f t = t) -> alter f rid m = m.
Proof.
  intros Hf. apply map_eq. intros i. destruct (decide (i = rid)) as [->|Hne].
  - rewrite lookup_alter_eq. destruct (m !! rid) as [t|]; [|done]. cbn. by rewrite Hf.
  - by rewrite lookup_alter_ne.
Qed.

Lemma run_micro_frame tid rid th now m w t : records w !! rid = Some t ->
  records (run_micro tid rid th now m w) = alter (micro_effect m now) rid (records w)
  /\ threads (run_micro tid rid th now m w) = threads w /\ turns (run_micro tid rid th now m w) = turns w
  /\ next_rid (run_micro tid rid th now m w) = next_rid w /\ answers (run_micro tid rid th now m w) = answers w.
Proof.
  intros Ht.
  assert (Hid : alter (fun t => t) rid (records w) = records w) by (apply alter_id_same; done).
  destruct m as [| |st|r|kind payload| |outcome|reason|r|ctx| | |r]; try (cbn; rewrite ?app_nil_r; done).
  - cbn. rewrite Ht. destruct (t_audited t) eqn:Hau; cbn; rewrite ?app_nil_r; split_and!; try done;
      apply map_eq; intros i; (destruct (decide (i = rid)) as [->|Hne];
        [rewrite ?lookup_alter_eq, Ht; cbn; by rewrite Hau|by rewrite ?lookup_alter_ne]).
  - cbn. destruct (th_connection th); done.
Qed.

Lemma script_ok_tail ans turn m rest : script_ok ans turn (m :: rest) ->
  match m with MReturn _ => True | _ => script_ok ans turn rest end.
Proof.
  intros (Hwf & H1 & H2). cbn in Hwf. bool_to_prop.
  destruct m; try done; (split_and!; [done|intros ? ?; apply H1|intros ? ?; apply H2]);
    rewrite ?elem_of_cons; naive_solver.
Qed.

Lemma status_step rid m rest now t : well_formed (m :: rest) = true -> status (Finishing rid (m :: rest)) t ->
  match m with
  | MReturn _ => settled (micro_effect m now t)
  | _ => status (Finishing rid rest) (micro_effect m now t)
  end.
Proof.
  unfold status, settled. cbn. intros Hwf (Hst & Hd & Ha). bool_to_prop.
  destruct m; cbn in *; bool_to_prop; try done; rewrite ?Hst, ?Hd, ?Ha; cbn; try done.
  - rewrite H1. done.
  - by rewrite H.
  - destruct (t_audited t) eqn:Hau; cbn in *; rewrite ?Hst, ?Hd, ?H; done.
  - by subst.
Qed.

Lemma inv_finish w tid th rid m rest now : Inv w -> threads w !! tid = Some th ->
  th_pc th = Finishing rid (m :: rest) ->
  Inv (set_thread tid (goto (next_pc rid m rest) th) (run_micro tid rid th now m w)).
Proof.
  intros Hi Hth Hpc. destruct (inv_threads w Hi _ _ Hth) as (Hp & _ & Hown). rewrite Hpc in Hp. cbn in Hp.
  destruct (Hown rid) as (t & Ht & Hid & Hse & Hst); [by rewrite Hpc|]. rewrite Hpc in Hst.
  destruct (run_micro_frame tid rid th now m w t Ht) as (Hr & Hths & Htu & Hn & Ha).
  assert (Hwf : well_formed (m :: rest) = true) by apply Hp.
  pose proof (status_step rid m rest now t Hwf Hst) as Hst'. pose proof (script_ok_tail _ _ _ _ Hp) as Htail.
  assert (Hids : forall t, t_id (micro_effect m now t) = t_id t /\ t_session (micro_effect m now t) = t_session t).
  { intros t0. destruct m; cbn; try done. by case_match. }
  eapply inv_step; [exact Hi|exact Hth|by cbn; rewrite Hths|done|by cbn; rewrite Ha| | | | |].
  - cbn. rewrite Htu. done.
  - rewrite Hpc. cbn. rewrite Hr. intros rid' t0 Ht0. destruct (decide (rid' = rid)) as [->|Hne].
    + exists (micro_effect m now t0). rewrite lookup_alter_eq, Ht0. destruct (Hids t0). done.
    + exists t0. by rewrite lookup_alter_ne.
  - cbn. rewrite Hr, Ha. intros rid' t'. destruct (decide (rid' = rid)) as [->|Hne].
    + rewrite lookup_alter_eq, Ht. intros [= <-]. exists t. split; [done|]. intros r.
      destruct (Hids t) as [-> _]. destruct m; cbn; try (case_match; cbn); auto.
      intros [= <-]. right. rewrite Hid. destruct Hp as (_ & Hok & _). apply Hok. left. by left.
    + rewrite lookup_alter_ne by done. eauto.
  - rewrite Hpc. cbn.
    assert (Hset : forall t', records (run_micro tid rid th now m w) !! rid = Some t' -> t' = micro_effect m now t).
    { rewrite Hr, lookup_alter_eq, Ht. cbn. congruence. }
    destruct m; auto. right. split; [done|]. intros rid' t' [= <-] ->%Hset. exact Hst'.
  - cbn. rewrite Hr, Ha. unfold thread_ok. cbn.
    assert (Hrec : alter (micro_effect m now) rid (records w) !! rid = Some (micro_effect m now t)).
    { by rewrite lookup_alter_eq, Ht. }
    destruct (Hids t) as [Hid' Hse'].
    destruct m; cbn; (split_and!; [try exact Htail| |]); try done;
      try (intros rid' [= <-]; eexists; split; [exact Hrec|split_and!; [congruence|congruence|exact Hst']]).
    destruct Hp as (_ & Hok & Herr). intros a [->| ->]; [apply Hok; right|apply Herr]; by left.
Qed.

(** ** Every step keeps the invariant *)

Lemma script_of ans turn s : full s = true -> (forall r, MStore r ∈ s \/ MReturn (Ok r) ∈ s -> (turn, r) ∈ ans) ->
  (forall r, MReturn (Err (turn_already_completed r)) ∉ s) -> script_ok ans turn s /\ full s = true.
Proof.
  intros Hf H1 H2. split; [|done]. split_and!; [|done|intros r Hr; by destruct (H2 r)].
  unfold full in Hf. by bool_to_prop.
Qed.

Ltac no_elem := repeat match goal with H : _ ∈ _ |- _ => apply elem_of_cons in H as [H|H]; [try discriminate H|] end;
  try match goal with H : _ ∈ [] |- _ => by apply not_elem_of_nil in H end.

Lemma cancel_ok ans turn : script_ok ans turn (cancel_script (V := V) (Note := Note) (C := C)) /\
  full (cancel_script (V := V) (Note := Note) (C := C)) = true.
Proof. apply script_of; [done| |]; [intros r [Hr|Hr]|intros r Hr]; unfold cancel_script, finalize_cancelled, leave in Hr; cbn in Hr; no_elem. Qed.

Lemma watchdog_ok ans turn : script_ok ans turn (watchdog_script (V := V) (Note := Note) (C := C)) /\
  full (watchdog_script (V := V) (Note := Note) (C := C)) = true.
Proof. apply script_of; [done| |]; [intros r [Hr|Hr]|intros r Hr]; unfold watchdog_script, finalize_cancelled, leave in Hr; cbn in Hr; no_elem. Qed.

Lemma failure_ok ans turn e (ctx : SessionContext Note C) : script_ok ans turn (failure_script (V := V) e ctx) /\ full (failure_script (V := V) e ctx) = true.
Proof. apply script_of; [done| |]; [intros r [Hr|Hr]|intros r Hr]; unfold failure_script, leave in Hr; cbn in Hr; no_elem. Qed.

Lemma success_ok ans turn a (ctx : SessionContext Note C) : (turn, a) ∈ ans -> script_ok ans turn (success_script (V := V) a ctx) /\ full (success_script (V := V) a ctx) = true.
Proof.
  intros Ha. apply script_of; [done| |]; [intros r [Hr|Hr]|intros r Hr]; unfold success_script, leave in Hr; cbn in Hr; no_elem;
    by injection Hr as <-.
Qed.

Lemma status_full rid s t : full s = true -> status (Finishing rid s) t <-> status (Registered rid) t.
Proof. unfold full, status. intros Hf. bool_to_prop. cbn. by repeat match goal with H : existsb _ s = true |- _ => rewrite H end. Qed.

(** A call that moves on, its record as it is. *)
Lemma move_ok w tid th p : Inv w -> threads w !! tid = Some th ->
  pc_ok (answers w) (th_turn th) p ->
  (forall rid, watched p = Some rid -> watched (th_pc th) = Some rid
     \/ exists t, records w !! rid = Some t /\ t_id t = th_turn th) ->
  owner p = None \/ (owner p = owner (th_pc th) /\ forall t, status (th_pc th) t -> status p t) ->
  thread_ok (records w) (answers w) (goto p th).
Proof.
  intros Hi Hth Hp Hw Ho. destruct (inv_threads w Hi _ _ Hth) as (_ & Hwat & Hown). split_and!; [done| |]; cbn.
  - intros rid [?|?]%Hw; auto.
  - intros rid Hr. destruct Ho as [Hnone|[Heq Hst]]; [congruence|]. rewrite Heq in Hr.
    destruct (Hown _ Hr) as (t & ? & ? & ? & ?). exists t. auto.
Qed.

(** The same, with changes to the parts of the state the invariant is not about. *)
Lemma inv_move w w' tid th p : Inv w -> threads w !! tid = Some th ->
  threads w' = threads w -> next_rid w' = next_rid w -> answers w' = answers w -> turns w' = turns w -> records w' = records w ->
  pc_ok (answers w) (th_turn th) p ->
  (forall rid, watched p = Some rid -> watched (th_pc th) = Some rid
     \/ exists t, records w !! rid = Some t /\ t_id t = th_turn th) ->
  owner p = owner (th_pc th) -> (forall t, owner p <> None -> status (th_pc th) t -> status p t) ->
  Inv (set_thread tid (goto p th) w').
Proof.
  intros Hi Hth H1 H2 H3 H4 H5 Hp Hw Ho Hs. eapply inv_goto; [exact Hi|exact Hth|..]; cbn; rewrite ?H1, ?H2, ?H3, ?H4, ?H5; try done.
  apply (move_ok w tid); try done. destruct (owner p) eqn:Hop; [right|by left]. split; [done|]. intros t. by apply Hs.
Qed.

Lemma inv_thread w tid th now : Inv w -> threads w !! tid = Some th -> Inv (step_thread tid now th w).
Proof.
  intros Hi Hth. destruct (inv_threads w Hi _ _ Hth) as (Hp & Hwat & Hown).
  unfold step_thread. destruct (th_pc th) as [|rid race|rid race|rid race| | | | |rid|rid|rid|rid|rid|rid|rid ctx|rid ctx l|rid s|rid s|r] eqn:Hpc.
  - destruct (turns w !! th_turn th) as [rid|] eqn:Ht; (eapply inv_move; [exact Hi|exact Hth|..]; rewrite ?Hpc; try done).
    intros rid' [= <-]. right. by apply (inv_turns w Hi).
  - destruct (records w !! rid) as [t|] eqn:Hr; [|done].
    destruct (turn_terminal (t_state t)); (eapply inv_move; [exact Hi|exact Hth|..]; rewrite ?Hpc; cbn; auto; try done).
  - destruct (records w !! rid) as [t|] eqn:Hr; [|done]. destruct (t_done t); [|done].
    eapply inv_move; [exact Hi|exact Hth|..]; rewrite ?Hpc; cbn; auto; done.
  - destruct (records w !! rid) as [t|] eqn:Hr; [|done]. destruct (Hwat rid eq_refl) as (t' & Ht' & Hid). simplify_eq.
    destruct (t_response t) as [a|] eqn:Ha.
    + eapply inv_move; [exact Hi|exact Hth|..]; rewrite ?Hpc; try done. cbn. intros a' [[=]|[= <-]].
      rewrite <- Hid. destruct (inv_records w Hi _ _ Hr) as (_ & Hresp & _). by apply Hresp.
    + destruct race; (eapply inv_move; [exact Hi|exact Hth|..]; rewrite ?Hpc; try done). cbn. by intros a' [[=]|[=]].
  - eapply inv_goto; [exact Hi|exact Hth|done|done|done| |done|by rewrite Hpc|].
    + cbn. by intros id rid [_ ?]%lookup_delete_Some.
    + done.
  - destruct (check_submit (guards w) (th_session th) now) as [[[]|e] g] eqn:Hg.
    + eapply inv_move; [exact Hi|exact Hth|..]; rewrite ?Hpc; done.
    + eapply inv_move; [exact Hi|exact Hth|..]; rewrite ?Hpc; try done; [by cbn; rewrite app_nil_r|]. cbn. intros a [[=]|[= ->]].
      exfalso. revert Hg. unfold check_submit, check_breaker, record_doom_turn. repeat case_match; intros; simplify_eq.
  - destruct (sessions w !! th_session th) as [s|] eqn:Hs.
    + eapply inv_goto; [exact Hi|exact Hth|done|done|done|done|done|by rewrite Hpc|done].
    + eapply inv_move; [exact Hi|exact Hth|..]; rewrite ?Hpc; try done. cbn. by intros a [[=]|[=]].
  - destruct (has_executor w).
    + destruct (turns w !! th_turn th) as [rid|] eqn:Ht; [|by apply inv_enroll].
      eapply inv_move; [exact Hi|exact Hth|..]; rewrite ?Hpc; try done. intros rid' [= <-]. right. by apply (inv_turns w Hi).
    + eapply inv_move; [exact Hi|exact Hth|..]; rewrite ?Hpc; try done. cbn. by intros a [[=]|[=]].
  - eapply inv_move; [exact Hi|exact Hth|..]; rewrite ?Hpc; try done. by cbn; rewrite app_nil_r.
  - eapply inv_move; [exact Hi|exact Hth|..]; rewrite ?Hpc; try done; by destruct (th_connection th).
  - eapply inv_move; [exact Hi|exact Hth|..]; rewrite ?Hpc; done.
  - case_bool_decide; [|done]. eapply inv_move; [exact Hi|exact Hth|..]; rewrite ?Hpc; done.
  - destruct (records w !! rid) as [t|] eqn:Hr; [|done].
    destruct (t_cancelled t); (eapply inv_move; [exact Hi|exact Hth|..]; rewrite ?Hpc; try done). apply cancel_ok.
  - destruct (sessions w !! th_session th) as [ctx|]; [|done]. eapply inv_move; [exact Hi|exact Hth|..]; rewrite ?Hpc; done.
  - set (f := fun t => with_stream (t_ring t) (t_buffer t) (t_taken t) true (set_state TRunning now t)).
    destruct (Hown rid eq_refl) as (t & Ht & Hid & Hse & Hst).
    eapply inv_step; [exact Hi|exact Hth|done|done|by cbn; rewrite app_nil_r|done| | | |].
    + rewrite Hpc. cbn. intros rid' t0 Ht0. destruct (decide (rid' = rid)) as [->|Hne].
      * exists (f t0). rewrite lookup_alter_eq, Ht0. done.
      * exists t0. by rewrite lookup_alter_ne.
    + cbn. intros rid' t'. destruct (decide (rid' = rid)) as [->|Hne].
      * rewrite lookup_alter_eq, Ht. intros [= <-]. exists t. split; [done|]. by left.
      * rewrite lookup_alter_ne by done. eauto.
    + rewrite Hpc. by left.
    + split_and!; [done|done|]. cbn. intros rid' [= <-]. exists (f t). rewrite lookup_alter_eq, Ht. split_and!; try done.
      destruct Hst as (_ & Hd & Ha). by split_and!.
  - destruct l; [done|done|]. eapply inv_move; [exact Hi|exact Hth|..]; rewrite ?Hpc; try done. apply cancel_ok.
  - destruct Hp as [Hs Hf]. destruct (Hown rid eq_refl) as (t & Ht & Hid & Hse & Hst).
    eapply inv_step; [exact Hi|exact Hth|done|done|done|done|by apply keeps_alter, core_drain|by apply back_alter, core_drain|by rewrite Hpc; left|].
    split_and!; [exact Hs|done|]. cbn. intros rid' [= <-]. exists (drain_pending now t). rewrite lookup_alter_eq, Ht.
    destruct (core_id _ _ (core_drain now t)). split_and!; [done|congruence|congruence|].
    apply status_full; [done|]. eapply core_status; [apply core_drain|exact Hst].
  - destruct s as [|m rest]; [done|]. by apply inv_finish.
  - done.
Qed.

(** A call that is executing. *)
Lemma inv_executing w tid f : Inv w ->
  (forall th rid ctx l, threads w !! tid = Some th -> th_pc th = Executing rid ctx l -> Inv (f th rid ctx l w)) ->
  Inv (on_executing tid f w).
Proof.
  intros Hi Hf. unfold on_executing. destruct (threads w !! tid) as [th|] eqn:Hth; [|done].
  destruct (th_pc th) as [| | | | | | | | | | | | | | |rid ctx l| | |] eqn:Hpc; try done. by apply Hf.
Qed.

(** It leaves its execution with a script. *)
Lemma inv_leave w w' tid th rid ctx l s : Inv w -> threads w !! tid = Some th -> th_pc th = Executing rid ctx l ->
  threads w' = threads w -> next_rid w' = next_rid w -> answers w ⊆ answers w' -> turns w' = turns w -> records w' = records w ->
  script_ok (answers w') (th_turn th) s /\ full s = true ->
  Inv (set_thread tid (goto (Draining rid s) th) w').
Proof.
  intros Hi Hth Hpc H1 H2 H3 H4 H5 Hs.
  eapply inv_goto; [exact Hi|exact Hth|by cbn; rewrite H1|done|done|by cbn; rewrite H4|done|by rewrite Hpc|].
  destruct (inv_threads w Hi _ _ Hth) as (_ & _ & Hown). rewrite Hpc in Hown.
  split_and!; [done|done|]. exact Hown.
Qed.

Lemma inv_core w rid f : Inv w -> (forall t, core (f t) = core t) -> Inv (upd_record rid f w).
Proof.
  intros Hi Hf. eapply (inv_other w _ id); [done|by cbn; rewrite map_fmap_id|done|done|done| |done].
  intros rid'. cbn. destruct (decide (rid' = rid)) as [->|Hne]; [|left; by rewrite lookup_alter_ne].
  rewrite lookup_alter_eq. destruct (records w !! rid) as [t|]; [right; exists t, (f t); auto|by left].
Qed.

Lemma inv_request_cancel w rid : Inv w -> Inv (request_cancel rid w).
Proof.
  intros Hi. unfold request_cancel. apply (inv_other (upd_record rid set_cancelled w) _ (woken rid)); try done.
  - by apply inv_core.
  - intros rid'. by left.
  - intros th. unfold woken. destruct (th_pc th) as [| | | | | | | | | | | | | | |rid' ctx [| |]| | |] eqn:Hpc; rewrite ?Hpc; try done.
    destruct (rid' =? rid)%nat; cbn; rewrite ?Hpc; done.
Qed.

Lemma inv_unregister w f : Inv w -> (forall id rid, f (turns w) !! id = Some rid -> turns w !! id = Some rid) ->
  Inv (upd_registry f w).
Proof. intros Hi Hf. apply (inv_other w _ id); try done; [by cbn; rewrite map_fmap_id|by left]. Qed.

Lemma inv_label w l : Inv w -> Inv (step_host w l).
Proof.
  intros Hi. destruct l as [tid turn session prompt notes connection|tid now|tid|tid tok now|tid r ctx|tid|rid|rid now|turn|rid| |retain|session agent hydrated]; cbn [step_host].
  - destruct (threads w !! tid) eqn:Hth; [done|]. by apply inv_submit.
  - destruct (threads w !! tid) as [th|] eqn:Hth; [by apply inv_thread|done].
  - apply inv_executing; [done|]. intros th rid ctx [] Hth Hpc; try done.
    eapply inv_move; [exact Hi|exact Hth|..]; rewrite ?Hpc; done.
  - apply inv_executing; [done|]. intros th rid ctx l Hth Hpc. apply inv_core; [done|apply core_on_token].
  - apply inv_executing; [done|]. intros th rid ctx0 l Hth Hpc. destruct r as [a|e].
    + eapply inv_leave; [exact Hi|exact Hth|exact Hpc|done|done| |done|done|].
      * cbn. set_solver.
      * apply success_ok. cbn. set_solver.
    + eapply inv_leave; [exact Hi|exact Hth|exact Hpc|done|done|done|done|done|]. apply failure_ok.
  - apply inv_executing; [done|]. intros th rid ctx l Hth Hpc.
    eapply inv_leave; [exact Hi|exact Hth|exact Hpc|done|done|done|done|done|]. apply watchdog_ok.
  - apply inv_core; [done|apply core_flush_take].
  - apply inv_core; [done|apply core_flush_emit].
  - unfold Hosting.cancel. destruct (turns w !! turn); [|done]. destruct (live_record w n); [by apply inv_request_cancel|done].
  - by apply inv_request_cancel.
  - unfold cancel_all_active. generalize (filter (fun '(_, rid) => live_record w rid = true) (registered w)).
    intros rs. revert w Hi. induction rs as [|[id rid] rs IH]; intros w Hi; [done|]. cbn. by apply IH, inv_request_cancel.
  - apply inv_unregister; [done|]. generalize (take (length (merge_sort (ended_before w) (terminal_ids w)) - retain)
      (merge_sort (ended_before w) (terminal_ids w))). generalize (turns w).
    intros m rs. revert m. induction rs as [|[id rid] rs IH]; intros m id' rid'; [done|]. cbn.
    by intros [_ ?]%IH%lookup_delete_Some.
  - apply (inv_other w _ id); try done; [by cbn; rewrite map_fmap_id|by left].
Qed.

Lemma inv_empty executor : Inv (empty_host executor).
Proof. by split. Qed.

Lemma inv_run ls executor : Inv (run_host ls (empty_host executor)).
Proof.
  unfold run_host. induction ls as [|l ls IH] using rev_ind; [apply inv_empty|].
  rewrite fold_left_app. by apply inv_label.
Qed.
End invariant.
