(* ===== verification/HostingLive.v ===== *)
(** * Hosted turns: permits and progress

    One turn of a session executes at a time, the permit of a session passes on
    in order, and under a fair schedule every registered turn ends and releases
    those that wait for it. *)

From S2P Require Import Prelude Json Text Rpc Guards TurnEvents Hosting HostingProps.
From stdpp Require Import gmap.
From Stdlib Require Import Lia.
Local Open Scope list_scope.

Section permits.
Context {V : Type} {HJson : Json V} {HParse : ParseJson V} {Note C : Type}.
Implicit Types (w : Host V Note C) (th : Thread V Note C) (p : pc V Note C).

Definition queue_of w (s : string) : list nat := default [] (permits w !! s).

(** The permit is held from [Recheck] until the script has released it. *)
Definition holds p : bool :=
  match p with
  | Recheck _ | Snap _ | Begin _ _ | Executing _ _ _ | Draining _ _ => true
  | Finishing _ s => existsb is_unlock s
  | _ => false
  end.
Definition waits p : bool := match p with Queued _ => true | _ => false end.

(** A call that has a record has a session. *)
Definition needs_session p : bool :=
  match p with Enroll => true | _ => bool_decide (owner p <> None) end.

Record Permits w : Prop := {
  pm_member : forall tid th, threads w !! tid = Some th -> holds (th_pc th) || waits (th_pc th) = true ->
    tid ∈ queue_of w (th_session th);
  pm_queued : forall s tid, tid ∈ queue_of w s -> exists th, threads w !! tid = Some th /\ th_session th = s
    /\ holds (th_pc th) || waits (th_pc th) = true;
  pm_nodup : forall s, NoDup (queue_of w s);
  pm_head : forall tid th, threads w !! tid = Some th -> holds (th_pc th) = true ->
    head (queue_of w (th_session th)) = Some tid;
  pm_session : forall tid th, threads w !! tid = Some th -> needs_session (th_pc th) = true ->
    is_Some (sessions w !! th_session th);
}.

(** ** How a step changes the queues *)

(** What a call's step does to the queue of its session: nothing, joining it,
    or leaving it. *)
Definition queue_step tid th w (q q' : list nat) : Prop :=
  match th_pc th with
  | Queue _ => q' = q ++ [tid]
  | Finishing _ (MUnlock :: _) => q' = tail q
  | _ => q' = q
  end.

Lemma queue_set_thread tid th w s : queue_of (set_thread tid th w) s = queue_of w s.
Proof. done. Qed.

Lemma step_thread_queue tid now th w s :
  queue_of (step_thread tid now th w) s = queue_of w s
  \/ s = th_session th /\ queue_step tid th w (queue_of w s) (queue_of (step_thread tid now th w) s).
Proof.
  unfold step_thread, queue_step. destruct (th_pc th) as [|rid race|rid race|rid race| | | | |rid|rid|rid|rid|rid|rid|rid ctx|rid ctx l|rid sc|rid sc|r];
    try (left; repeat case_match; done).
  - destruct (decide (s = th_session th)) as [->|Hne]; [right|left]; unfold queue_of; cbn.
    + by rewrite lookup_insert_eq.
    + by rewrite lookup_insert_ne.
  - destruct sc as [|m rest]; [by left|]. destruct m; try (left; cbn; repeat case_match; done).
    destruct (decide (s = th_session th)) as [->|Hne]; [right|left]; unfold queue_of; cbn.
    + rewrite lookup_alter_eq. by destruct (permits w !! th_session th).
    + by rewrite lookup_alter_ne.
Qed.

Lemma cancel_all_keeps {A} (f : Host V Note C -> A) w :
  (forall w rid, f (request_cancel rid w) = f w) -> f (cancel_all_active w) = f w.
Proof.
  intros Hf. unfold cancel_all_active. generalize (filter (fun '(_, rid) => live_record w rid = true) (registered w)).
  intros rs. revert w. induction rs as [|[id rid] rs IH]; intros w; [done|]. cbn. by rewrite IH.
Qed.

Lemma step_host_permits w l : (forall tid now, l <> Step tid now) -> permits (step_host w l) = permits w.
Proof.
  intros Hl. destruct l; try done; cbn; unfold on_executing, Hosting.cancel; try (repeat case_match; done).
  - by destruct (Hl tid now).
  - by apply cancel_all_keeps.
Qed.

(** ** Threads *)

(** What a step that is not of the call [tid] may do to its thread: nothing, or
    wake its execution up. *)
Definition same_thread th th' : Prop :=
  th' = th \/ exists rid ctx, th_pc th = Executing rid ctx Listening /\ th' = goto (Executing rid ctx Woken) th.

Lemma same_thread_trans a b c : same_thread a b -> same_thread b c -> same_thread a c.
Proof.
  intros [->|(rid & ctx & Ha & ->)] Hb; [done|]. destruct Hb as [->|(rid' & ctx' & Hb & ->)]; [right; eauto|].
  cbn in Hb. congruence.
Qed.

Lemma woken_same rid th : same_thread th (woken rid th).
Proof.
  unfold woken. destruct (th_pc th) as [| | | | | | | | | | | | | | |rid' ctx [| |]| | |] eqn:Hpc; try by left.
  destruct (rid' =? rid)%nat; [right; eauto|by left].
Qed.

Lemma request_cancel_thread w rid tid th : threads w !! tid = Some th ->
  exists th', threads (request_cancel rid w) !! tid = Some th' /\ same_thread th th'.
Proof. intros Hth. exists (woken rid th). cbn. rewrite lookup_fmap, Hth. split; [done|apply woken_same]. Qed.

Lemma cancel_all_thread w tid th : threads w !! tid = Some th ->
  exists th', threads (cancel_all_active w) !! tid = Some th' /\ same_thread th th'.
Proof.
  unfold cancel_all_active. generalize (filter (fun '(_, rid) => live_record w rid = true) (registered w)).
  intros rs. revert w th. induction rs as [|[id rid] rs IH]; intros w th Hth; [exists th; split; [done|by left]|]. cbn.
  destruct (request_cancel_thread w rid tid th Hth) as (th1 & Hth1 & Hs1).
  destruct (IH _ _ Hth1) as (th2 & Hth2 & Hs2). exists th2. split; [done|]. by eapply same_thread_trans.
Qed.

(** Labels that move a call on. *)
Definition moves (l : label (Note := Note) (C := C)) : option nat :=
  match l with Step tid _ | Listen tid | Answer tid _ _ | Elapse tid => Some tid | _ => None end.

Lemma set_thread_other w tid th tid' : tid' <> tid -> threads (set_thread tid th w) !! tid' = threads w !! tid'.
Proof. intros Hne. cbn. by rewrite lookup_insert_ne. Qed.

Lemma run_micro_threads tid rid th now m w : threads (run_micro tid rid th now m w) = threads w.
Proof. destruct m; cbn; try done; repeat case_match; done. Qed.

Lemma step_thread_other tid now th w tid' : tid' <> tid -> threads (step_thread tid now th w) !! tid' = threads w !! tid'.
Proof.
  intros Hne. unfold step_thread. destruct (th_pc th); repeat case_match; try done;
    rewrite set_thread_other by done; try done. by rewrite run_micro_threads.
Qed.

Lemma step_other w l tid th : threads w !! tid = Some th -> moves l <> Some tid ->
  exists th', threads (step_host w l) !! tid = Some th' /\ same_thread th th'.
Proof.
  intros Hth Hm. assert (Hsame : forall w', threads w' !! tid = threads w !! tid ->
    exists th', threads w' !! tid = Some th' /\ same_thread th th').
  { intros w' ->. exists th. split; [done|by left]. }
  destruct l as [tid' turn session prompt notes connection|tid' now|tid'|tid' tok now|tid' r ctx|tid'|rid|rid now|turn|rid| |retain|session agent hydrated];
    cbn [step_host]; try (by apply Hsame); cbn in Hm.
  - destruct (threads w !! tid') eqn:He; [by apply Hsame|]. apply Hsame, set_thread_other. congruence.
  - destruct (threads w !! tid') as [th'|]; [|by apply Hsame]. apply Hsame, step_thread_other. congruence.
  - apply Hsame. unfold on_executing. repeat case_match; try done. apply set_thread_other. congruence.
  - apply Hsame. unfold on_executing. by repeat case_match.
  - apply Hsame. unfold on_executing. repeat case_match; try done; rewrite set_thread_other by congruence; done.
  - apply Hsame. unfold on_executing. repeat case_match; try done. apply set_thread_other. congruence.
  - unfold Hosting.cancel. repeat case_match; try (by apply Hsame). by apply request_cancel_thread.
  - by apply request_cancel_thread.
  - by apply cancel_all_thread.
Qed.

(** ** The permits in every run *)

Definition sessions_grow w w' : Prop := forall s, is_Some (sessions w !! s) -> is_Some (sessions w' !! s).

Lemma sessions_same w w' : sessions w' = sessions w -> sessions_grow w w'.
Proof. intros He s. by rewrite He. Qed.

(** The call [tid] steps; the queue of its session goes from [q] to [q'].
    [front]: it is at the head. *)
Lemma permits_step w w' tid th th' : Permits w -> threads w !! tid = Some th ->
  threads w' = <[tid := th']> (threads w) -> th_session th' = th_session th -> sessions_grow w w' ->
  (forall s, s <> th_session th -> queue_of w' s = queue_of w s) ->
  NoDup (queue_of w' (th_session th)) ->
  (forall tid', tid' <> tid -> tid' ∈ queue_of w' (th_session th) <-> tid' ∈ queue_of w (th_session th)) ->
  (tid ∈ queue_of w' (th_session th) <-> holds (th_pc th') || waits (th_pc th') = true) ->
  (forall h, head (queue_of w (th_session th)) = Some h -> h <> tid -> head (queue_of w' (th_session th)) = Some h) ->
  (holds (th_pc th') = true -> head (queue_of w' (th_session th)) = Some tid) ->
  (needs_session (th_pc th') = true -> is_Some (sessions w' !! th_session th)) -> Permits w'.
Proof.
  intros [P1 P2 P3 P4 P5] Hth Hths Hse Hgrow Hq Hnd Hmem Hself Hhead Hmy Hneed.
  assert (Hget : forall tid1 th1, threads w' !! tid1 = Some th1 -> tid1 = tid /\ th1 = th' \/ tid1 <> tid /\ threads w !! tid1 = Some th1).
  { intros tid1 th1. rewrite Hths. intros [[<- <-]|[? ?]]%lookup_insert_Some; auto. }
  split.
  - intros tid1 th1 [[-> ->]|[Hne Hth1]]%Hget Hh; [rewrite Hse; by apply Hself|].
    destruct (decide (th_session th1 = th_session th)) as [He|He]; [|rewrite Hq by done; by apply P1].
    rewrite He. apply Hmem; [done|]. rewrite <- He. by apply P1.
  - intros s tid1 Hin. destruct (decide (tid1 = tid)) as [->|Hne].
    + destruct (decide (s = th_session th)) as [->|Hs].
      * exists th'. rewrite Hths, lookup_insert_eq. split_and!; [done|done|]. by apply Hself.
      * rewrite Hq in Hin by done. destruct (P2 _ _ Hin) as (th1 & Hth1 & Hs1 & _). congruence.
    + assert (Hin' : tid1 ∈ queue_of w s).
      { destruct (decide (s = th_session th)) as [->|Hs]; [by apply Hmem|by rewrite <- Hq]. }
      destruct (P2 _ _ Hin') as (th1 & Hth1 & ? & ?). exists th1. rewrite Hths, lookup_insert_ne by done. done.
  - intros s. destruct (decide (s = th_session th)) as [->|Hs]; [done|]. rewrite Hq by done. apply P3.
  - intros tid1 th1 [[-> ->]|[Hne Hth1]]%Hget Hh; [rewrite Hse; by apply Hmy|].
    destruct (decide (th_session th1 = th_session th)) as [He|He]; [|rewrite Hq by done; by apply P4].
    rewrite He. apply Hhead; [|done]. rewrite <- He. by apply P4.
  - intros tid1 th1 [[-> ->]|[Hne Hth1]]%Hget Hn; [rewrite Hse; by apply Hneed|]. by apply Hgrow, (P5 tid1).
Qed.

(** The queue is left alone. *)
Lemma permits_move w w' tid th p : Permits w -> threads w !! tid = Some th -> permits w' = permits w ->
  threads w' = threads w -> sessions_grow w w' ->
  holds p || waits p = holds (th_pc th) || waits (th_pc th) ->
  (holds p = true -> holds (th_pc th) = true \/ head (queue_of w (th_session th)) = Some tid) ->
  (needs_session p = true -> needs_session (th_pc th) = true \/ is_Some (sessions w' !! th_session th)) ->
  Permits (set_thread tid (goto p th) w').
Proof.
  intros HP Hth Hp Hths Hgrow Hhw Hh Hn.
  assert (Hq : forall s, queue_of (set_thread tid (goto p th) w') s = queue_of w s).
  { intros s. unfold queue_of. cbn. by rewrite Hp. }
  eapply permits_step; [exact HP|exact Hth|by cbn; rewrite Hths|done|done|..]; rewrite ?Hq; try done.
  - apply (pm_nodup w HP).
  - cbn. rewrite Hhw. split; [|by apply (pm_member w HP tid)].
    intros (th1 & Hth1 & _ & ?)%(pm_queued w HP). by simplify_eq.
  - intros Hp'. destruct (Hh Hp') as [?|?]; [by apply (pm_head w HP)|done].
  - intros Hp'. destruct (Hn Hp') as [?|?]; [|done]. apply Hgrow. by apply (pm_session w HP tid).
Qed.

(** A step of no call, or of a call whose position in its code the permits do
    not depend on. *)
Lemma permits_other w w' : Permits w -> permits w' = permits w -> sessions_grow w w' ->
  (forall tid th', threads w' !! tid = Some th' -> th_pc th' = Peek \/ exists th, threads w !! tid = Some th /\
    th_session th' = th_session th /\ holds (th_pc th') = holds (th_pc th) /\ waits (th_pc th') = waits (th_pc th)
    /\ needs_session (th_pc th') = needs_session (th_pc th)) ->
  (forall tid th, threads w !! tid = Some th -> exists th', threads w' !! tid = Some th' /\
    th_session th' = th_session th /\ holds (th_pc th') = holds (th_pc th) /\ waits (th_pc th') = waits (th_pc th)) ->
  Permits w'.
Proof.
  intros [P1 P2 P3 P4 P5] Hp Hgrow Hback Hforth.
  assert (Hq : forall s, queue_of w' s = queue_of w s) by (intros s; unfold queue_of; by rewrite Hp).
  split; intros *; rewrite ?Hq.
  - intros [Hpk|(th0 & Hth & -> & -> & -> & _)]%Hback; [by rewrite Hpk|]. by apply P1.
  - intros (th0 & Hth & <- & Hw)%P2. destruct (Hforth _ _ Hth) as (th' & Hth' & Hs & Hh & Hw'). exists th'. by rewrite Hh, Hw'.
  - apply P3.
  - intros [Hpk|(th0 & Hth & -> & -> & _ & _)]%Hback; [by rewrite Hpk|]. by apply P4.
  - intros [Hpk|(th0 & Hth & -> & _ & _ & ->)]%Hback; [by rewrite Hpk|]. intros Hn. by apply Hgrow, (P5 tid th0).
Qed.

Lemma run_micro_permits tid rid th now m w : m <> MUnlock ->
  permits (run_micro tid rid th now m w) = permits w.
Proof. intros Hm. destruct m; cbn; try done; repeat case_match; done. Qed.

Lemma run_micro_sessions tid rid th now m w : sessions_grow w (run_micro tid rid th now m w).
Proof.
  intros s Hs. destruct m; cbn; try done; repeat case_match; try done. cbn.
  destruct (decide (s = th_session th)) as [->|]; [rewrite lookup_alter_eq; destruct Hs as [? ->]; by eexists|by rewrite lookup_alter_ne].
Qed.

Lemma tail_head {A} (x : A) q : head q = Some x -> q = x :: tail q.
Proof. by destruct q; intros [= ->]. Qed.

Lemma permits_finish w tid th rid m rest now : Inv w -> Permits w -> threads w !! tid = Some th ->
  th_pc th = Finishing rid (m :: rest) ->
  Permits (set_thread tid (goto (next_pc rid m rest) th) (run_micro tid rid th now m w)).
Proof.
  intros Hi HP Hth Hpc. destruct (inv_threads w Hi _ _ Hth) as (Hok & _). rewrite Hpc in Hok. destruct Hok as (Hwf & _).
  assert (Hsess : is_Some (sessions w !! th_session th)) by (apply (pm_session w HP tid th Hth); by rewrite Hpc).
  assert (m = MUnlock \/ m <> MUnlock) as [->|Hm] by (destruct m; auto; by right).
  - assert (Hhead : head (queue_of w (th_session th)) = Some tid) by (apply (pm_head w HP tid th Hth); by rewrite Hpc).
    assert (Hrest : existsb is_unlock rest = false) by (cbn in Hwf; by bool_to_prop).
    pose proof (pm_nodup w HP (th_session th)) as Hnd. pose proof (tail_head _ _ Hhead) as Hq.
    assert (Hq' : queue_of (run_micro tid rid th now MUnlock w) (th_session th) = tail (queue_of w (th_session th))).
    { unfold queue_of. cbn. rewrite lookup_alter_eq. by destruct (permits w !! th_session th). }
    rewrite Hq in Hnd. apply NoDup_cons in Hnd as [Hnin Hnd].
    eapply permits_step; [exact HP|exact Hth|done|done|by apply sessions_same|..]; rewrite ?queue_set_thread, ?Hq'; try done.
    + intros s Hs. unfold queue_of. cbn. by rewrite lookup_alter_ne.
    + intros tid' Hne. rewrite Hq at 2. rewrite elem_of_cons. naive_solver.
    + cbn. rewrite Hrest. split; [by intros ?%Hnin|done].
    + intros h Hh Hne. congruence.
    + cbn. by rewrite Hrest.
  - assert (Hhold : holds (next_pc rid m rest) = existsb is_unlock (m :: rest)).
    { cbn. destruct m; cbn in *; bool_to_prop; try done. by subst. }
    apply (permits_move w); try done; rewrite ?Hpc.
    + by apply run_micro_permits.
    + apply run_micro_threads.
    + apply run_micro_sessions.
    + rewrite Hhold. by destruct m.
    + rewrite Hhold. auto.
    + intros _. by left.
Qed.

Ltac move_on :=
  eapply permits_move; [eassumption|eassumption|..];
  repeat match goal with H : th_pc _ = _ |- _ => rewrite H end; cbn;
  try (by apply sessions_same); try done; try (by auto).

Lemma permits_thread w tid th now : Inv w -> Permits w -> threads w !! tid = Some th -> Permits (step_thread tid now th w).
Proof.
  intros Hi HP Hth. pose proof (pm_session w HP _ _ Hth) as Hsess.
  unfold step_thread. destruct (th_pc th) as [|rid race|rid race|rid race| | | | |rid|rid|rid|rid|rid|rid|rid ctx|rid ctx l|rid s|rid s|r] eqn:Hpc;
    cbn in Hsess.
  1-4: repeat case_match; try done; move_on.
  - eapply permits_other; [exact HP|done|by apply sessions_same| |].
    + cbn. intros tid1 th1 [[<- <-]|[Hne ?]]%lookup_insert_Some; [by left|right; eauto 10].
    + cbn. intros tid1 th1 Hth1. destruct (decide (tid1 = tid)) as [->|Hne].
      * exists (retried th). rewrite lookup_insert_eq. simplify_eq. by rewrite Hpc.
      * exists th1. by rewrite lookup_insert_ne.
  - case_match. case_match; move_on.
  - destruct (sessions w !! th_session th) as [s|] eqn:Hs.
    + eapply permits_step; [exact HP|exact Hth|done|done| |done|apply (pm_nodup w HP)|done| | |done|].
      * intros s' Hs'. cbn. destruct (decide (s' = th_session th)) as [->|]; [rewrite lookup_insert_eq; by eexists|by rewrite lookup_insert_ne].
      * cbn. split; [|done]. intros (th1 & Hth1 & _ & Hw)%(pm_queued w HP). simplify_eq. by rewrite Hpc in Hw.
      * done.
      * cbn. rewrite lookup_insert_eq. by eexists.
    + move_on.
  - repeat case_match; move_on.
  - move_on.
  - move_on; destruct (th_connection th); try done; by apply sessions_same.
  - assert (Hnew : tid ∉ queue_of w (th_session th)).
    { intros (th1 & Hth1 & _ & Hw)%(pm_queued w HP). simplify_eq. by rewrite Hpc in Hw. }
    set (w' := upd_permits _ w).
    assert (Hq : queue_of w' (th_session th) = queue_of w (th_session th) ++ [tid]) by (unfold queue_of; cbn; by rewrite lookup_insert_eq).
    eapply permits_step; [exact HP|exact Hth|done|done|by apply sessions_same|..]; rewrite ?queue_set_thread, ?Hq; cbn.
    + intros s Hs. unfold queue_of. cbn. by rewrite lookup_insert_ne.
    + apply NoDup_app. split_and!; [apply (pm_nodup w HP)| |by repeat constructor; apply not_elem_of_nil].
      intros x Hx Hx'. apply list_elem_of_singleton in Hx' as ->. done.
    + intros tid' Hne. rewrite elem_of_app, list_elem_of_singleton. naive_solver.
    + split; [done|]. intros _. apply elem_of_app. right. by left.
    + intros h Hh _. by destruct (queue_of w (th_session th)).
    + done.
    + intros _. by apply Hsess.
  - case_bool_decide as Hh; [|done]. move_on.
  - repeat case_match; try done; move_on.
  - case_match; [|done]. move_on.
  - move_on.
  - destruct l; try done. move_on.
  - destruct (inv_threads w Hi _ _ Hth) as (Hok & _). rewrite Hpc in Hok. destruct Hok as [_ Hf]. unfold full in Hf. bool_to_prop.
    move_on.
    by match goal with H : existsb is_unlock s = true |- _ => rewrite H end.
  - destruct s as [|m rest]; [done|]. by apply permits_finish.
  - done.
Qed.

Lemma same_thread_facts th th' : same_thread th th' ->
  th_session th' = th_session th /\ holds (th_pc th') = holds (th_pc th) /\ waits (th_pc th') = waits (th_pc th)
  /\ needs_session (th_pc th') = needs_session (th_pc th).
Proof. intros [->|(rid & ctx & Hpc & ->)]; [done|]. by rewrite Hpc. Qed.

(** A label that is no step of a call. *)
Lemma permits_quiet w w' : Permits w -> permits w' = permits w -> sessions_grow w w' ->
  (forall tid th, threads w !! tid = Some th -> exists th', threads w' !! tid = Some th' /\ same_thread th th') ->
  (forall tid th', threads w' !! tid = Some th' -> threads w !! tid = None -> th_pc th' = Peek) -> Permits w'.
Proof.
  intros HP Hp Hs Hforth Hnew. apply (permits_other w); try done.
  - intros tid th' Hth'. destruct (threads w !! tid) as [th|] eqn:Hth; [right|left; by eapply Hnew].
    destruct (Hforth _ _ Hth) as (th1 & Hth1 & (? & ? & ? & ?)%same_thread_facts). simplify_eq. eauto 10.
  - intros tid th (th' & Hth' & (? & ? & ? & ?)%same_thread_facts)%Hforth. eauto 10.
Qed.

Lemma step_host_sessions w l : (forall tid now, l <> Step tid now) -> sessions_grow w (step_host w l).
Proof.
  intros Hl. destruct l; try (by apply sessions_same); cbn; unfold on_executing, Hosting.cancel;
    try (repeat case_match; by apply sessions_same).
  - by destruct (Hl tid now).
  - apply sessions_same. by apply cancel_all_keeps.
  - intros s Hs. cbn. destruct (decide (s = session)) as [->|]; [rewrite lookup_insert_eq; by eexists|by rewrite lookup_insert_ne].
Qed.

Lemma executing_move w tid th rid ctx l p w' : Permits w -> threads w !! tid = Some th -> th_pc th = Executing rid ctx l ->
  holds p = true -> permits w' = permits w -> threads w' = threads w -> sessions w' = sessions w ->
  Permits (set_thread tid (goto p th) w').
Proof. intros HP Hth Hpc Hh Hp Ht Hs. move_on. by rewrite Hh. Qed.

Lemma permits_label w l : Inv w -> Permits w -> Permits (step_host w l).
Proof.
  intros Hi HP. assert (Hquiet : moves l = None -> Permits (step_host w l)).
  { intros Hm. assert (Hns : forall tid now, l <> Step tid now) by (intros tid now ->; done).
    apply (permits_quiet w); [done|by apply step_host_permits|by apply step_host_sessions| |].
    - intros tid th Hth. apply step_other; [done|by rewrite Hm].
    - intros tid th' Hth' Hnone. destruct l as [tid' turn session prompt notes connection| | |tid' tok now'| | |rid|rid now'|turn|rid| |retain|session agent hydrated];
        cbn in Hth'; try done; try congruence; unfold on_executing, Hosting.cancel in Hth'.
      + destruct (threads w !! tid') eqn:He; [congruence|]. cbn in Hth'.
        destruct (decide (tid = tid')) as [->|]; [rewrite lookup_insert_eq in Hth'; by simplify_eq|].
        rewrite lookup_insert_ne in Hth' by done. congruence.
      + repeat case_match; cbn in Hth'; congruence.
      + repeat case_match; try congruence. cbn in Hth'. rewrite lookup_fmap, Hnone in Hth'. done.
      + rewrite lookup_fmap, Hnone in Hth'. done.
      + assert (threads (cancel_all_active w) !! tid = None); [|congruence].
        rewrite <- Hnone. clear -Hnone. unfold cancel_all_active. generalize (filter (fun '(_, rid) => live_record w rid = true) (registered w)).
        intros rs. revert w Hnone. induction rs as [|[id rid] rs IH]; intros w Hnone; [done|]. cbn.
        rewrite IH; cbn; by rewrite lookup_fmap, Hnone. }
  destruct l as [|tid now|tid| |tid r ctx|tid| | | | | | |]; try (by apply Hquiet); clear Hquiet; cbn [step_host].
  - destruct (threads w !! tid) as [th|] eqn:Hth; [by apply permits_thread|done].
  - unfold on_executing. destruct (threads w !! tid) as [th|] eqn:Hth; [|done].
    destruct (th_pc th) as [| | | | | | | | | | | | | | |rid ctx [| |]| | |] eqn:Hpc; try done. by eapply executing_move.
  - unfold on_executing. destruct (threads w !! tid) as [th|] eqn:Hth; [|done].
    destruct (th_pc th) as [| | | | | | | | | | | | | | |rid ctx0 l| | |] eqn:Hpc; try done. destruct r; by eapply executing_move.
  - unfold on_executing. destruct (threads w !! tid) as [th|] eqn:Hth; [|done].
    destruct (th_pc th) as [| | | | | | | | | | | | | | |rid ctx l| | |] eqn:Hpc; try done. by eapply executing_move.
Qed.

Lemma permits_run ls executor : Permits (run_host ls (empty_host executor)).
Proof.
  unfold run_host. induction ls as [|l ls IH] using rev_ind.
  - split; try done. intros s tid Hin. by apply not_elem_of_nil in Hin. intros s. constructor.
  - rewrite fold_left_app. apply permits_label; [apply inv_run|done].
Qed.

(** C25. At most one call of a session executes at a time, in every interleaving. *)
Theorem one_execution_per_session ls executor tid1 th1 rid1 ctx1 l1 tid2 th2 rid2 ctx2 l2 :
  let w := run_host ls (empty_host executor) in
  threads w !! tid1 = Some th1 -> th_pc th1 = Executing rid1 ctx1 l1 ->
  threads w !! tid2 = Some th2 -> th_pc th2 = Executing rid2 ctx2 l2 ->
  th_session th1 = th_session th2 -> tid1 = tid2.
Proof.
  intros w H1 Hp1 H2 Hp2 Hs. pose proof (permits_run ls executor) as HP.
  pose proof (pm_head _ HP _ _ H1) as Hh1. pose proof (pm_head _ HP _ _ H2) as Hh2.
  rewrite Hp1 in Hh1. rewrite Hp2 in Hh2. rewrite Hs in Hh1. specialize (Hh1 eq_refl). specialize (Hh2 eq_refl). congruence.
Qed.
End permits.

(** ** Progress *)

Section live.
Context {V : Type} {HJson : Json V} {HParse : ParseJson V} {Note C : Type}.
Implicit Types (w : Host V Note C) (th : Thread V Note C) (p : pc V Note C).
Context (executor : bool) (schedule : nat -> label (Note := Note) (C := C)).

(** The daemon after the first [n] labels of the schedule. *)
Definition after (n : nat) : Host V Note C := run_host (map schedule (seq 0 n)) (empty_host executor).

Lemma after_S n : after (S n) = step_host (after n) (schedule n).
Proof. unfold after, run_host. by rewrite seq_S, map_app, fold_left_app. Qed.

Lemma after_inv n : Inv (after n).
Proof. apply inv_run. Qed.
Lemma after_permits n : Permits (after n).
Proof. apply permits_run. Qed.

(** A call that runs steps again and again, and an execution ends: the executor
    answers or the watchdog fires. *)
Definition fair : Prop :=
  (forall tid n, is_Some (threads (after n) !! tid) -> exists m now, n <= m /\ schedule m = Step tid now)
  /\ (forall tid n th rid ctx l, threads (after n) !! tid = Some th -> th_pc th = Executing rid ctx l ->
       exists m, n <= m /\ ((exists r ctx', schedule m = Answer tid r ctx') \/ schedule m = Elapse tid)).

Definition executing p : bool := match p with Executing _ _ _ => true | _ => false end.

Lemma step_quiet w l tid th : threads w !! tid = Some th -> executing (th_pc th) = false ->
  (forall now, l <> Step tid now) -> threads (step_host w l) !! tid = Some th.
Proof.
  intros Hth Hex Hl. destruct (decide (moves l = Some tid)) as [Hm|Hm].
  - destruct l; cbn in Hm; simplify_eq; cbn; unfold on_executing; rewrite ?Hth; try (by destruct (th_pc th)).
    by destruct (Hl now).
  - destruct (step_other w l tid th Hth Hm) as (th' & Hth' & [->|(rid & ctx & Hpc & _)]); [done|]. by rewrite Hpc in Hex.
Qed.

Lemma quiet_or_step (l : label (Note := Note) (C := C)) tid : (exists now, l = Step tid now) \/ (forall now, l <> Step tid now).
Proof.
  destruct l as [|tid' now| | | | | | | | | | |]; try (by right). destruct (decide (tid' = tid)) as [->|]; [left; eauto|right; congruence].
Qed.

(** A call that is not executing steps, from where it is. *)
Lemma steps_next n tid th : fair -> threads (after n) !! tid = Some th -> executing (th_pc th) = false ->
  exists m now, n <= m /\ threads (after m) !! tid = Some th /\ after (S m) = step_thread tid now th (after m).
Proof.
  intros [Hf _] Hth Hex. destruct (Hf tid n) as (m & now & Hle & Hm); [by eexists|].
  remember (m - n) as d eqn:Hd. revert n Hth Hle Hd. induction d as [|d IH]; intros n Hth Hle Hd.
  - replace m with n in Hm by lia. exists n, now. rewrite after_S, Hm. cbn. by rewrite Hth.
  - destruct (quiet_or_step (schedule n) tid) as [[now' Hs]|Hs].
    + exists n, now'. rewrite after_S, Hs. cbn. by rewrite Hth.
    + destruct (IH (S n)) as (m' & now' & ? & ?); [|lia..|].
      * rewrite after_S. by apply step_quiet.
      * exists m', now'. split; [lia|done].
Qed.

(** From [n] on, the call [tid] returns, its record [rid] terminal, released and
    audited. *)
Definition ends (tid : nat) (n : nat) (rid : nat) : Prop :=
  exists m th, n <= m /\ threads (after m) !! tid = Some th /\ (exists r, th_pc th = Returned r)
  /\ exists t, records (after m) !! rid = Some t /\ settled t.

Lemma ends_later tid n m rid : n <= m -> ends tid m rid -> ends tid n rid.
Proof. intros Hle (k & th & ? & ?). exists k, th. split; [lia|done]. Qed.

Lemma finishing_ends s : forall tid n th rid, fair -> threads (after n) !! tid = Some th -> th_pc th = Finishing rid s ->
  ends tid n rid.
Proof.
  induction s as [|m rest IH]; intros tid n th rid Hf Hth Hpc.
  - destruct (inv_threads _ (after_inv n) _ _ Hth) as (Hok & _). rewrite Hpc in Hok. by destruct Hok.
  - destruct (steps_next n tid th Hf Hth) as (k & now & Hle & Hk & Hs); [by rewrite Hpc|].
    unfold step_thread in Hs. rewrite Hpc in Hs.
    assert (Hth' : threads (after (S k)) !! tid = Some (goto (next_pc rid m rest) th)) by (rewrite Hs; cbn; by rewrite lookup_insert_eq).
    apply (ends_later tid n (S k)); [lia|].
    destruct m; cbn in Hth'; try (by eapply IH; [done|exact Hth'|]).
    destruct (inv_threads _ (after_inv k) _ _ Hk) as (Hok & _ & Hown).
    destruct (Hown rid) as (t & Ht & _ & _ & Hst); [by rewrite Hpc|]. rewrite Hpc in Hok, Hst.
    exists (S k), (goto (Returned r) th). split_and!; [done|done|by eexists|]. exists t. split.
    + rewrite Hs. exact Ht.
    + exact (status_step rid (MReturn r) rest now t (proj1 Hok) Hst).
Qed.

Lemma draining_ends tid n th rid s : fair -> threads (after n) !! tid = Some th -> th_pc th = Draining rid s ->
  ends tid n rid.
Proof.
  intros Hf Hth Hpc. destruct (steps_next n tid th Hf Hth) as (k & now & Hle & Hk & Hs); [by rewrite Hpc|].
  unfold step_thread in Hs. rewrite Hpc in Hs. apply (ends_later tid n (S k)); [lia|].
  apply (finishing_ends s tid (S k) (goto (Finishing rid s) th) rid); [done| |done]. rewrite Hs. cbn. by rewrite lookup_insert_eq.
Qed.

(** One label of an execution: it goes on, or is over. *)
Lemma executing_step w l tid th rid ctx li : threads w !! tid = Some th -> th_pc th = Executing rid ctx li ->
  exists th', threads (step_host w l) !! tid = Some th' /\
    ((exists li', th_pc th' = Executing rid ctx li') /\ (forall r c, l <> Answer tid r c) /\ l <> Elapse tid
     \/ exists s, th_pc th' = Draining rid s).
Proof.
  intros Hth Hpc. destruct (decide (moves l = Some tid)) as [Hm|Hm].
  - destruct l; cbn in Hm; simplify_eq; cbn; unfold on_executing, step_thread; rewrite Hth, Hpc.
    + destruct li; cbn; [exists th|exists th|eexists; rewrite lookup_insert_eq; split; [done|right; cbn; eauto]];
        (split; [done|]); left; split_and!; eauto; done.
    + destruct li; cbn; [eexists; rewrite lookup_insert_eq|exists th|exists th];
        (split; [done|]); left; cbn; split_and!; eauto; done.
    + destruct r; eexists; cbn; rewrite lookup_insert_eq; (split; [done|]); right; cbn; eauto.
    + eexists; cbn; rewrite lookup_insert_eq; (split; [done|]); right; cbn; eauto.
  - destruct (step_other w l tid th Hth Hm) as (th' & Hth' & Hs). exists th'. split; [done|]. left.
    split_and!; [|intros r c ->; by apply Hm|intros ->; by apply Hm].
    destruct Hs as [->|(rid' & ctx' & Hpc' & ->)]; [eauto|]. rewrite Hpc in Hpc'. injection Hpc' as -> -> ->. by eexists.
Qed.

Lemma executing_ends tid n th rid ctx l : fair -> threads (after n) !! tid = Some th -> th_pc th = Executing rid ctx l ->
  ends tid n rid.
Proof.
  intros Hf Hth Hpc. destruct (proj2 Hf tid n th rid ctx l Hth Hpc) as (m & Hle & Hm).
  remember (m - n) as d eqn:Hd. revert n th l Hth Hpc Hle Hd.
  induction d as [|d IH]; intros n th l Hth Hpc Hle Hd;
    destruct (executing_step (after n) (schedule n) tid th rid ctx l Hth Hpc) as (th' & Hth' & [([li Hpc'] & Hna & Hne)|[s Hpc']]);
    rewrite <- after_S in Hth'; try (apply (ends_later tid n (S n)); [lia|by eapply draining_ends]).
  - exfalso. replace m with n in Hm by lia. destruct Hm as [(r & c & Hm)|Hm]; [by apply (Hna r c)|done].
  - apply (ends_later tid n (S n)); [lia|]. eapply (IH (S n)); [done|done|lia|lia].
Qed.

(** A call that holds the permit ends. *)
Lemma moves_on tid n rid th (goal : Thread V Note C -> Prop) : fair -> threads (after n) !! tid = Some th -> executing (th_pc th) = false ->
  (forall m now, threads (after m) !! tid = Some th -> after (S m) = step_thread tid now th (after m) ->
     exists th', threads (after (S m)) !! tid = Some th' /\ goal th') ->
  (forall m th', threads (after m) !! tid = Some th' -> goal th' -> ends tid m rid) -> ends tid n rid.
Proof.
  intros Hf Hth Hex Hstep Hgoal. destruct (steps_next n tid th Hf Hth Hex) as (m & now & Hle & Hm & Hs).
  destruct (Hstep m now Hm Hs) as (th' & Hth' & Hp). apply (ends_later tid n (S m)); [lia|]. by eapply Hgoal.
Qed.

Lemma thread_set tid th w : threads (set_thread tid th w) !! tid = Some th.
Proof. cbn. by rewrite lookup_insert_eq. Qed.

Lemma begin_ends tid n th rid ctx : fair -> threads (after n) !! tid = Some th -> th_pc th = Begin rid ctx -> ends tid n rid.
Proof.
  intros Hf Hth Hpc. apply (moves_on tid n rid th (fun th' => th_pc th' = Executing rid ctx NotYet)); [done|done|by rewrite Hpc| |].
  - intros m now Hm ->. unfold step_thread. rewrite Hpc. eexists. split; [apply thread_set|done].
  - intros m th' Hm Hp. by eapply executing_ends.
Qed.

Lemma snap_ends tid n th rid : fair -> threads (after n) !! tid = Some th -> th_pc th = Snap rid -> ends tid n rid.
Proof.
  intros Hf Hth Hpc. apply (moves_on tid n rid th (fun th' => exists ctx, th_pc th' = Begin rid ctx)); [done|done|by rewrite Hpc| |].
  - intros m now Hm ->. unfold step_thread. rewrite Hpc.
    destruct (pm_session _ (after_permits m) _ _ Hm) as [ctx ->]; [by rewrite Hpc|].
    eexists. split; [apply thread_set|by eexists].
  - intros m th' Hm [ctx Hp]. by eapply begin_ends.
Qed.

Lemma recheck_ends tid n th rid : fair -> threads (after n) !! tid = Some th -> th_pc th = Recheck rid -> ends tid n rid.
Proof.
  intros Hf Hth Hpc.
  apply (moves_on tid n rid th (fun th' => th_pc th' = Finishing rid cancel_script \/ th_pc th' = Snap rid)); [done|done|by rewrite Hpc| |].
  - intros m now Hm ->. unfold step_thread. rewrite Hpc.
    destruct (inv_threads _ (after_inv m) _ _ Hm) as (_ & _ & Hown). destruct (Hown rid) as (t & -> & _); [by rewrite Hpc|].
    eexists. split; [apply thread_set|]. cbn. destruct (t_cancelled t); auto.
  - intros m th' Hm [Hp|Hp]; [by eapply finishing_ends|by eapply snap_ends].
Qed.

Lemma holding_ends tid n rid th : fair -> threads (after n) !! tid = Some th -> holds (th_pc th) = true ->
  owner (th_pc th) = Some rid -> ends tid n rid.
Proof.
  intros Hf Hth Hh Ho. destruct (th_pc th) eqn:Hpc; try done; cbn in Ho; injection Ho as <-;
    [by eapply recheck_ends|by eapply snap_ends|by eapply begin_ends|by eapply executing_ends|by eapply draining_ends|by eapply finishing_ends].
Qed.

(** ** The queue of a permit *)

(** A call that waits stays where it is in the queue, or moves up. *)
Lemma queued_step w l tid th rid k : Permits w -> threads w !! tid = Some th -> th_pc th = Queued rid ->
  queue_of w (th_session th) !! k = Some tid -> threads (step_host w l) !! tid = Some th ->
  exists k', k' <= k /\ queue_of (step_host w l) (th_session th) !! k' = Some tid
    /\ (k' = k -> head (queue_of (step_host w l) (th_session th)) = head (queue_of w (th_session th))).
Proof.
  intros HP Hth Hpc Hk Hth'. set (s := th_session th) in *.
  assert (Hsame : queue_of (step_host w l) s = queue_of w s -> exists k', k' <= k /\ queue_of (step_host w l) s !! k' = Some tid
    /\ (k' = k -> head (queue_of (step_host w l) s) = head (queue_of w s))) by (intros ->; exists k; auto).
  assert (Hstep : (forall tid' now, l <> Step tid' now) \/ exists tid' now, l = Step tid' now).
  { destruct l; try (left; done). right. eauto. }
  destruct Hstep as [Hno|(tid' & now & ->)]; [apply Hsame; unfold queue_of; by rewrite step_host_permits|].
  cbn in *. destruct (threads w !! tid') as [th1|] eqn:Hth1; [|by apply Hsame].
  destruct (step_thread_queue tid' now th1 w s) as [Hq|[Hs Hq]]; [by apply Hsame|].
  unfold queue_step in Hq. destruct (th_pc th1) as [| | | | | | | | | |rid1| | | | | | |rid1 [|m rest]|] eqn:Hpc1; try (by apply Hsame).
  - exists k. rewrite Hq. split_and!; [done|by apply lookup_app_l_Some|]. intros _. by destruct (queue_of w s).
  - destruct m; try (by apply Hsame). assert (Hhead : head (queue_of w s) = Some tid').
    { rewrite Hs. apply (pm_head w HP); [done|by rewrite Hpc1]. }
    rewrite Hq. rewrite (tail_head _ _ Hhead) in Hk. destruct k as [|k].
    + cbn in Hk. simplify_eq. congruence.
    + exists k. split_and!; [lia|done|lia].
Qed.

Lemma queued_progress d : forall n tid th rid k, threads (after n) !! tid = Some th -> th_pc th = Queued rid ->
  queue_of (after n) (th_session th) !! k = Some tid ->
  (exists m, n <= m <= n + d /\ threads (after m) !! tid = Some (goto (Recheck rid) th))
  \/ (threads (after (n + d)) !! tid = Some th /\ exists k', k' <= k /\ queue_of (after (n + d)) (th_session th) !! k' = Some tid
       /\ (k' = k -> head (queue_of (after (n + d)) (th_session th)) = head (queue_of (after n) (th_session th)))).
Proof.
  induction d as [|d IH]; intros n tid th rid k Hth Hpc Hk.
  - right. rewrite Nat.add_0_r. split; [done|]. exists k. auto.
  - destruct (IH n tid th rid k Hth Hpc Hk) as [(m & ? & ?)|(Hth1 & k1 & Hle & Hk1 & Hh1)]; [left; exists m; split; [lia|done]|].
    rewrite Nat.add_succ_r.
    assert (Hnext : threads (after (S (n + d))) !! tid = Some (goto (Recheck rid) th)
      \/ threads (after (S (n + d))) !! tid = Some th).
    { rewrite after_S. destruct (quiet_or_step (schedule (n + d)) tid) as [[now ->]|Hq].
      - cbn. rewrite Hth1. unfold step_thread. rewrite Hpc. case_bool_decide; [left; apply thread_set|by right].
      - right. apply step_quiet; [done|by rewrite Hpc|done]. }
    destruct Hnext as [Hre|Hsame]; [left; exists (S (n + d)); split; [lia|done]|right]. split; [done|].
    rewrite after_S in Hsame |- *.
    destruct (queued_step _ _ _ _ _ _ (after_permits (n + d)) Hth1 Hpc Hk1 Hsame) as (k2 & Hle2 & Hk2 & Hh2).
    exists k2. split_and!; [lia|done|]. intros ->. rewrite Hh2 by lia. apply Hh1. lia.
Qed.

Lemma queued_ends k : forall n tid th rid, fair -> threads (after n) !! tid = Some th -> th_pc th = Queued rid ->
  queue_of (after n) (th_session th) !! k = Some tid -> ends tid n rid.
Proof.
  induction k as [k IH] using lt_wf_ind. intros n tid th rid Hf Hth Hpc Hk.
  assert (Hre : forall m, n <= m -> threads (after m) !! tid = Some (goto (Recheck rid) th) -> ends tid n rid).
  { intros m Hle Hm. apply (ends_later tid n m); [done|]. by eapply recheck_ends. }
  destruct k as [|k].
  - destruct (steps_next n tid th Hf Hth) as (m & now & Hle & Hm & Hs); [by rewrite Hpc|].
    destruct (queued_progress (m - n) n tid th rid 0 Hth Hpc Hk) as [(m' & ? & ?)|(_ & k' & Hk' & Hq & _)]; [apply (Hre m'); [lia|done]|].
    replace (n + (m - n)) with m in Hq by lia. replace k' with 0 in Hq by lia.
    apply (Hre (S m)); [lia|]. rewrite Hs. unfold step_thread. rewrite Hpc.
    assert (Hhead : head (queue_of (after m) (th_session th)) = Some tid) by (by rewrite head_lookup).
    unfold queue_of in Hhead. rewrite Hhead, bool_decide_true by done. apply thread_set.
  - destruct (queue_of (after n) (th_session th)) as [|h q] eqn:Hq; [done|].
    assert (Hin : h ∈ queue_of (after n) (th_session th)) by (rewrite Hq; by left).
    destruct (pm_queued _ (after_permits n) _ _ Hin) as (th_h & Hth_h & Hse & Hw).
    assert (Hend : exists rid_h, ends h n rid_h).
    { apply orb_true_iff in Hw as [Hw|Hw].
      - destruct (owner (th_pc th_h)) as [rid_h|] eqn:Ho; [exists rid_h; by eapply holding_ends|].
        by destruct (th_pc th_h).
      - destruct (th_pc th_h) eqn:Hpc_h; try done. eexists. eapply (IH 0); [lia|done|exact Hth_h|exact Hpc_h|]. by rewrite Hse, Hq. }
    destruct Hend as (rid_h & m & th_h' & Hle & Hth_h' & [r Hr] & _).
    destruct (queued_progress (m - n) n tid th rid (S k) Hth Hpc) as [(m' & ? & ?)|(Hth' & k' & Hk' & Hq' & Hhd)];
      [by rewrite Hq|apply (Hre m'); [lia|done]|].
    replace (n + (m - n)) with m in * by lia. destruct (decide (k' = S k)) as [->|Hne].
    + exfalso. specialize (Hhd eq_refl). rewrite Hq in Hhd. cbn in Hhd.
      assert (Hin' : h ∈ queue_of (after m) (th_session th)).
      { rewrite (tail_head _ _ Hhd). by left. }
      destruct (pm_queued _ (after_permits m) _ _ Hin') as (th2 & Hth2 & _ & Hw2). simplify_eq. by rewrite Hr in Hw2.
    + apply (ends_later tid n m); [done|]. eapply (IH k'); [lia|done|exact Hth'|done|done].
Qed.

Lemma queue_ends tid n rid th : fair -> threads (after n) !! tid = Some th -> th_pc th = Queue rid -> ends tid n rid.
Proof.
  intros Hf Hth Hpc. apply (moves_on tid n rid th (fun th' => th_pc th' = Queued rid)); [done|done|by rewrite Hpc| |].
  - intros m now Hm ->. unfold step_thread. rewrite Hpc. eexists. split; [apply thread_set|done].
  - intros m th' Hm Hp. assert (Hin : tid ∈ queue_of (after m) (th_session th')).
    { apply (pm_member _ (after_permits m)); [done|]. by rewrite Hp. }
    apply list_elem_of_lookup_1 in Hin as [k Hk]. by eapply queued_ends.
Qed.

(** C24. Under a fair schedule every registered turn ends, however many turns of its
    session wait before it, and whatever else happens: its record is terminal,
    audited, and released, so that the duplicates that wait for it go on. *)
Theorem registered_turn_ends n tid th rid : fair -> threads (after n) !! tid = Some th -> owner (th_pc th) = Some rid ->
  exists m th' t, n <= m /\ threads (after m) !! tid = Some th' /\ (exists r, th_pc th' = Returned r)
  /\ records (after m) !! rid = Some t /\ t_done t = true /\ turn_terminal (t_state t) = true.
Proof.
  intros Hf Hth Ho. assert (He : ends tid n rid).
  { destruct (th_pc th) as [| | | | | | | |rid'|rid'|rid'|rid'|rid'|rid'|rid' ctx|rid' ctx l|rid' s|rid' s|] eqn:Hpc; try done; injection Ho as ->;
      try (by eapply queue_ends); try (by eapply recheck_ends); try (by eapply snap_ends); try (by eapply begin_ends);
      try (by eapply executing_ends); try (by eapply draining_ends); try (by eapply finishing_ends).
    - apply (moves_on tid n rid th (fun th1 => th_pc th1 = Approving rid)); [done|done|by rewrite Hpc| |].
      + intros m now Hm ->. unfold step_thread. rewrite Hpc. eexists. split; [apply thread_set|done].
      + intros m th1 Hm Hp. apply (moves_on tid m rid th1 (fun th2 => th_pc th2 = Queue rid)); [done|done|by rewrite Hp| |].
        * intros m' now Hm' ->. unfold step_thread. rewrite Hp. eexists. split; [apply thread_set|done].
        * intros m' th2 Hm' Hp'. by eapply queue_ends.
    - apply (moves_on tid n rid th (fun th2 => th_pc th2 = Queue rid)); [done|done|by rewrite Hpc| |].
      + intros m' now Hm' ->. unfold step_thread. rewrite Hpc. eexists. split; [apply thread_set|done].
      + intros m' th2 Hm' Hp'. by eapply queue_ends.
    - assert (Hin : tid ∈ queue_of (after n) (th_session th)).
      { apply (pm_member _ (after_permits n)); [done|]. by rewrite Hpc. }
      apply list_elem_of_lookup_1 in Hin as [k Hk]. by eapply queued_ends. }
  destruct He as (m & th' & Hle & Hth' & Hr & t & Ht & Hterm & Hd & _). exists m, th', t. auto 10.
Qed.
End live.

(** ** A fair schedule

    One session and one turn; then the calls step, and their executions time
    out, in rounds that reach every call again and again. *)
Section demo.
#[local] Instance no_json : ParseJson jval := fun _ => None.

Definition round_robin (n : nat) : nat := n - Nat.sqrt n * Nat.sqrt n.

Lemma round_robin_hits tid k : tid < k -> round_robin (k * k + tid) = tid.
Proof.
  intros Hlt. unfold round_robin. rewrite (Nat.sqrt_unique (k * k + tid) k) by nia. lia.
Qed.

Definition demo_context : SessionContext nat nat := {| agent_name := ""; knowledge := []; conversation := 0 |}.

Definition demo_schedule (n : nat) : label (Note := nat) (C := nat) :=
  match n with
  | 0 => StartSession "s" None demo_context
  | 1 => Submit 0 "t" "s" "hello" None true
  | S (S n) => if Nat.even n then Step (round_robin (Nat.div2 n)) (N.of_nat n) else Elapse (round_robin (Nat.div2 n))
  end.

Lemma demo_fair : fair (V := jval) true demo_schedule.
Proof.
  assert (Hhit : forall tid n b, exists m, n <= m /\ demo_schedule m
    = if b : bool then Step tid (N.of_nat (m - 2)) else Elapse tid).
  { intros tid n b. set (k := S (n + tid)).
    assert (Hk : n + tid < k) by (unfold k; lia). clearbody k.
    exists (S (S (2 * (k * k + tid) + if b then 0 else 1))). split; [nia|].
    unfold demo_schedule. destruct b.
    - rewrite Nat.add_0_r, Nat.even_mul, Nat.div2_double. cbn [orb Nat.even]. rewrite round_robin_hits by lia. f_equal. lia.
    - rewrite Nat.add_1_r, Nat.even_succ, Nat.odd_mul, Nat.div2_succ_double. cbn [andb Nat.odd Nat.even negb].
      by rewrite round_robin_hits by lia. }
  split.
  - intros tid n _. destruct (Hhit tid n true) as (m & Hle & Hm). eauto.
  - intros tid n th rid ctx l _ _. destruct (Hhit tid n false) as (m & Hle & Hm). eauto.
Qed.

Lemma registered_turn_ends_witness : exists th rid m th',
  threads (after (V := jval) true demo_schedule 30) !! 0 = Some th /\ owner (th_pc th) = Some rid
  /\ 30 <= m /\ threads (after (V := jval) true demo_schedule m) !! 0 = Some th' /\ exists r, th_pc th' = Returned r.
Proof.
  destruct (registered_turn_ends (V := jval) true demo_schedule 30 0
    {| th_turn := "t"; th_session := "s"; th_prompt := "hello"; th_knowledge := None; th_connection := true;
       th_agent := "auto"; th_pc := Registered 0 |} 0 demo_fair) as (m & th' & t & Hle & Hth' & Hr & _);
    [by vm_compute|done|].
  eexists _, 0, m, th'. split_and!; [by vm_compute|done|done|done|done].
Defined.

(** Two turns of one session: the one that executes is the only one. *)
Definition two_turns : list (label (Note := nat) (C := nat)) :=
  [StartSession "s" None demo_context; Submit 0 "t" "s" "hello" None true; Submit 1 "u" "s" "again" None true]
  ++ repeat (Step 0 0) 11 ++ repeat (Step 1 0) 11.

Definition first_turn : Thread jval nat nat :=
  {| th_turn := "t"; th_session := "s"; th_prompt := "hello"; th_knowledge := None; th_connection := true;
     th_agent := "auto"; th_pc := Executing 0 demo_context NotYet |}.

Lemma two_turns_first : threads (run_host two_turns (empty_host (V := jval) true)) !! 0 = Some first_turn.
Proof. by vm_compute. Qed.

Lemma one_execution_per_session_witness :
  threads (run_host two_turns (empty_host (V := jval) true)) !! 0 = Some first_turn /\
  forall tid th rid ctx l, threads (run_host two_turns (empty_host (V := jval) true)) !! tid = Some th ->
    th_pc th = Executing rid ctx l -> th_session th = "s"%string -> 0 = tid.
Proof.
  split; [exact two_turns_first|]. intros tid th rid ctx l Hth Hpc Hs.
  exact (one_execution_per_session two_turns true 0 first_turn 0 demo_context NotYet tid th rid ctx l
    two_turns_first eq_refl Hth Hpc (eq_sym Hs)).
Defined.
End demo.
