(* ===== verification/HostingFacts.v ===== *)
(** * Hosted turns: answers, audit, and what goes wrong

    What a call answers, the audit of a turn, and the runs in which the methods
    of [hosting.rs] do not do what their documentation says. *)

From S2P Require Import Prelude Json Text Rpc Guards TurnEvents Hosting HostingProps.
From stdpp Require Import gmap.
From Stdlib Require Import Lia.
Local Open Scope list_scope.

Section facts.
Context {V : Type} {HJson : Json V} {HParse : ParseJson V} {Note C : Type}.
Implicit Types (w : Host V Note C) (th : Thread V Note C) (p : pc V Note C).

(** A call that answers with a response, fresh or replayed, answers with what the
    executor answered to an execution of that very turn. *)
Theorem response_is_the_executors ls executor tid th r a :
  threads (run_host ls (empty_host executor)) !! tid = Some th -> th_pc th = Returned r ->
  r = Ok a \/ r = Err (turn_already_completed a) ->
  (th_turn th, a) ∈ answers (run_host ls (empty_host executor)).
Proof.
  intros Hth Hpc Hr. destruct (inv_threads _ (inv_run ls executor) _ _ Hth) as (Hok & _).
  rewrite Hpc in Hok. by apply Hok.
Qed.

(** ** The audit of a turn *)

Definition is_started (rid : nat) (l : AuditLine) : bool := match l with TurnStarted r _ _ _ => (r =? rid)%nat | _ => false end.
Definition is_done (rid : nat) (l : AuditLine) : bool := match l with TurnDone r _ _ _ => (r =? rid)%nat | _ => false end.
Definition count (f : AuditLine -> bool) (l : list AuditLine) : nat := length (filter (fun x => f x = true) l).

#[local] Arguments count : simpl never.

Lemma count_app f a b : count f (a ++ b) = count f a + count f b.
Proof. unfold count. by rewrite filter_app, length_app. Qed.

Definition at_registered w (rid : nat) : Prop := exists tid th, threads w !! tid = Some th /\ th_pc th = Registered rid.

Record audited w : Prop := {
  au_done : forall rid, count (is_done rid) (audit w) =
    match records w !! rid with Some t => if t_audited t then 1 else 0 | None => 0 end;
  au_started : forall rid, count (is_started rid) (audit w) <= 1
    /\ (records w !! rid = None \/ at_registered w rid -> count (is_started rid) (audit w) = 0)
    /\ (is_Some (records w !! rid) -> at_registered w rid \/ count (is_started rid) (audit w) = 1);
}.

(** A step that audits no turn. *)
Lemma audited_quiet w w' : audited w ->
  (forall rid, count (is_done rid) (audit w') = count (is_done rid) (audit w)) ->
  (forall rid, count (is_started rid) (audit w') = count (is_started rid) (audit w)) ->
  (forall rid, t_audited <$> records w' !! rid = t_audited <$> records w !! rid) ->
  (forall rid, at_registered w' rid <-> at_registered w rid) -> audited w'.
Proof.
  intros [H1 H2] Hd Hs Hr Ha.
  assert (Hnone : forall rid, records w' !! rid = None <-> records w !! rid = None).
  { intros rid. specialize (Hr rid). destruct (records w' !! rid), (records w !! rid); done. }
  split.
  - intros rid. rewrite Hd, H1. specialize (Hr rid). destruct (records w' !! rid), (records w !! rid); try done.
    cbn in Hr. by injection Hr as ->.
  - intros rid. rewrite Hs, Ha, Hnone. destruct (H2 rid) as (? & ? & H3). split_and!; [done|done|].
    intros [t Ht]. apply H3. apply not_eq_None_Some. rewrite <- Hnone. by rewrite Ht.
Qed.

Lemma at_registered_set w w' tid th p : threads w !! tid = Some th -> threads w' = <[tid := goto p th]> (threads w) ->
  (forall rid, th_pc th <> Registered rid) -> (forall rid, p <> Registered rid) ->
  forall rid, at_registered w' rid <-> at_registered w rid.
Proof.
  intros Hth Hths Hold Hnew rid. split; intros (tid1 & th1 & H1 & Hpc1).
  - rewrite Hths in H1. apply lookup_insert_Some in H1 as [[-> <-]|[? H1]]; [by apply Hnew in Hpc1|]. by exists tid1, th1.
  - exists tid1, th1. split; [|done]. rewrite Hths, lookup_insert_ne; [done|]. intros <-. simplify_eq. by apply Hold in Hpc1.
Qed.

Lemma audited_same_alter (m : gmap nat (Turn V)) rid f : (forall t, t_audited (f t) = t_audited t) ->
  forall rid', t_audited <$> alter f rid m !! rid' = t_audited <$> m !! rid'.
Proof.
  intros Hf rid'. destruct (decide (rid' = rid)) as [->|Hne]; [|by rewrite lookup_alter_ne].
  rewrite lookup_alter_eq. destruct (m !! rid) as [t|]; [|done]. cbn. by rewrite Hf.
Qed.

Lemma core_audited (t t' : Turn V) : core t' = core t -> t_audited t' = t_audited t.
Proof. unfold core. intros Hc. by injection Hc. Qed.

(** The call [tid] goes to [p], with nothing that matters to the audit. *)
Lemma audited_goto w w' tid th p : audited w -> threads w !! tid = Some th -> threads w' = threads w ->
  (forall rid, th_pc th <> Registered rid) -> (forall rid, p <> Registered rid) ->
  (forall rid, t_audited <$> records w' !! rid = t_audited <$> records w !! rid) ->
  (exists l, audit w' = audit w ++ l /\ forall rid, count (is_done rid) l = 0 /\ count (is_started rid) l = 0) ->
  audited (set_thread tid (goto p th) w').
Proof.
  intros Ha Hth Hths Hold Hnew Hr (l & Hl & Hc). apply (audited_quiet w); try done.
  - intros rid. cbn. rewrite Hl, count_app. destruct (Hc rid) as [-> _]. lia.
  - intros rid. cbn. rewrite Hl, count_app. destruct (Hc rid) as [_ ->]. lia.
  - eapply at_registered_set; [exact Hth|by cbn; rewrite Hths|done|done].
Qed.

Lemma no_lines (l : list AuditLine) : exists l', l = l ++ l' /\ forall rid, count (is_done rid) l' = 0 /\ count (is_started rid) l' = 0.
Proof. exists []. by rewrite app_nil_r. Qed.

Lemma audited_enroll w tid th : Inv w -> audited w -> threads w !! tid = Some th -> th_pc th = Enroll ->
  audited (set_thread tid (goto (Registered (next_rid w)) th)
        (upd_registry (<[th_turn th := next_rid w]>)
          (upd_records (<[next_rid w := new_turn (th_turn th) (th_session th)]>) (set_next_rid (S (next_rid w)) w)))).
Proof.
  intros Hi [H1 H2] Hth Hpc. set (rid0 := next_rid w).
  assert (Hfresh : records w !! rid0 = None).
  { destruct (records w !! rid0) as [t|] eqn:Ht; [|done]. destruct (inv_records w Hi _ _ Ht) as (? & _). unfold rid0 in *. lia. }
  set (w' := set_thread _ _ _).
  assert (Hreg : forall rid, at_registered w' rid <-> rid = rid0 \/ at_registered w rid).
  { intros rid. split.
    - intros (tid1 & th1 & Hth1 & Hpc1). cbn in Hth1. apply lookup_insert_Some in Hth1 as [[<- <-]|[_ Hth1]].
      + cbn in Hpc1. left. congruence.
      + right. by exists tid1, th1.
    - intros [->|(tid1 & th1 & Hth1 & Hpc1)].
      + exists tid. eexists. split; [cbn; by rewrite lookup_insert_eq|done].
      + exists tid1, th1. split; [|done]. cbn. rewrite lookup_insert_ne; [done|]. intros ->. congruence. }
  split; cbn; fold rid0.
  - intros rid. rewrite H1. destruct (decide (rid = rid0)) as [->|Hne]; [by rewrite lookup_insert_eq, Hfresh|by rewrite lookup_insert_ne].
  - intros rid. rewrite Hreg. destruct (H2 rid) as (Hle & Hz & Ho). split_and!; [done| |].
    + intros [Hn|[->|Ha]]; apply Hz; auto.
      left. destruct (decide (rid = rid0)) as [->|Hne]; [done|by rewrite lookup_insert_ne in Hn].
    + destruct (decide (rid = rid0)) as [->|Hne]; [auto|]. rewrite lookup_insert_ne by done. intros [?|?]%Ho; auto.
Qed.

Lemma audited_register w tid th rid0 : Inv w -> audited w -> threads w !! tid = Some th -> th_pc th = Registered rid0 ->
  audited (set_thread tid (goto (Approving rid0) th)
            (log [TurnStarted rid0 (th_turn th) (th_session th) (th_agent th)] [] [] [] w)).
Proof.
  intros Hi [H1 H2] Hth Hpc. set (w' := set_thread _ _ _).
  assert (Hrec : is_Some (records w !! rid0)).
  { destruct (inv_threads w Hi _ _ Hth) as (_ & _ & Hown). destruct (Hown rid0) as (t & -> & _); [by rewrite Hpc|by eexists]. }
  assert (Hreg : forall rid, at_registered w' rid <-> rid <> rid0 /\ at_registered w rid).
  { intros rid. split.
    - intros (tid1 & th1 & Hth1 & Hpc1). cbn in Hth1. apply lookup_insert_Some in Hth1 as [[<- <-]|[Hne Hth1]]; [done|].
      split; [|by exists tid1, th1]. intros ->. apply Hne. symmetry. eapply (inv_owners w Hi); [exact Hth1|exact Hth| |]; [by rewrite Hpc1|by rewrite Hpc].
    - intros (Hne & tid1 & th1 & Hth1 & Hpc1). exists tid1, th1. split; [|done]. cbn. rewrite lookup_insert_ne; [done|].
      intros <-. simplify_eq. congruence. }
  assert (Hown : at_registered w rid0) by (by exists tid, th).
  split.
  - intros rid. cbn. rewrite count_app, H1.
    assert (Hc : count (is_done rid) [TurnStarted rid0 (th_turn th) (th_session th) (th_agent th)] = 0) by done.
    rewrite Hc. lia.
  - intros rid. rewrite Hreg. cbn. rewrite count_app. destruct (H2 rid) as (Hle & Hz & Ho).
    destruct (decide (rid = rid0)) as [->|Hne].
    + assert (Hc : count (is_started rid0) [TurnStarted rid0 (th_turn th) (th_session th) (th_agent th)] = 1).
      { unfold count. cbn. by rewrite Nat.eqb_refl. }
      rewrite Hz, Hc by auto. split_and!; [lia| |auto].
      intros [Hn|[? _]]; [|done]. rewrite Hn in Hrec. by destruct Hrec.
    + assert (Hc : count (is_started rid) [TurnStarted rid0 (th_turn th) (th_session th) (th_agent th)] = 0).
      { unfold count. cbn. by destruct (Nat.eqb_spec rid0 rid). }
      rewrite Hc, Nat.add_0_r. split_and!; [done| |].
      * intros [?|[_ ?]]; apply Hz; auto.
      * intros [?|?]%Ho; auto.
Qed.

Lemma no_register rid m (rest : list (micro V Note C)) rid' : next_pc rid m rest <> Registered rid'.
Proof. by destruct m. Qed.

Lemma audited_finish w tid th rid m rest now : Inv w -> audited w -> threads w !! tid = Some th ->
  th_pc th = Finishing rid (m :: rest) ->
  audited (set_thread tid (goto (next_pc rid m rest) th) (run_micro tid rid th now m w)).
Proof.
  intros Hi Ha Hth Hpc. destruct (inv_threads w Hi _ _ Hth) as (_ & _ & Hown).
  destruct (Hown rid) as (t & Ht & _); [by rewrite Hpc|].
  destruct (run_micro_frame tid rid th now m w t Ht) as (Hr & Hths & _).
  assert (Hold : forall rid', th_pc th <> Registered rid') by by rewrite Hpc.
  assert (Hquiet : (forall t, t_audited (micro_effect m now t) = t_audited t) ->
    (exists l, audit (run_micro tid rid th now m w) = audit w ++ l /\ forall rid, count (is_done rid) l = 0 /\ count (is_started rid) l = 0) ->
    audited (set_thread tid (goto (next_pc rid m rest) th) (run_micro tid rid th now m w))).
  { intros Hf Hl. eapply (audited_goto w); try done; [by apply no_register|].
    intros rid'. rewrite Hr. by apply audited_same_alter. }
  destruct m as [| |st|r|kind payload| |outcome|reason|r|ctx| | |r]; try (apply Hquiet; [done|by apply no_lines]).
  - cbn [run_micro]. rewrite Ht. destruct (t_audited t) eqn:Hau.
    + eapply (audited_goto w); try done. by apply no_lines.
    + destruct Ha as [H1 H2]. set (w' := set_thread _ _ _).
      assert (Hreg : forall rid', at_registered w' rid' <-> at_registered w rid').
      { eapply at_registered_set; [exact Hth|done|done|done]. }
      assert (Hrec : forall rid', records w' !! rid' = None <-> records w !! rid' = None).
      { intros rid'. cbn. destruct (decide (rid' = rid)) as [->|]; [by rewrite lookup_alter_eq, Ht|by rewrite lookup_alter_ne]. }
      split.
      * intros rid'. cbn. rewrite count_app, H1. destruct (decide (rid' = rid)) as [->|Hne].
        -- rewrite lookup_alter_eq, Ht, Hau. unfold count. cbn. by rewrite Nat.eqb_refl.
        -- rewrite lookup_alter_ne by done. assert (Hc : count (is_done rid') [TurnDone rid (th_turn th) (th_session th) outcome] = 0).
           { unfold count. cbn. by destruct (Nat.eqb_spec rid rid'). }
           rewrite Hc. lia.
      * intros rid'. rewrite Hreg, Hrec. destruct (H2 rid') as (Hle & Hz & Ho).
        assert (Hc : count (is_started rid') (audit w') = count (is_started rid') (audit w)).
        { cbn. rewrite count_app. assert (Hc : count (is_started rid') [TurnDone rid (th_turn th) (th_session th) outcome] = 0) by done. lia. }
        rewrite Hc. split_and!; [done|done|]. intros [x Hx]. apply Ho, not_eq_None_Some. rewrite <- Hrec. by rewrite Hx.
  - apply Hquiet; [done|]. cbn. by eexists.
  - apply Hquiet; [done|]. cbn. by exists [].
  - apply Hquiet; [done|]. cbn. destruct (th_connection th); apply no_lines.
Qed.

Ltac quiet_goto :=
  eapply audited_goto; [eassumption|eassumption|..];
  repeat match goal with H : th_pc _ = _ |- _ => rewrite H end; try done; try (by apply no_lines).

Lemma audited_thread w tid th now : Inv w -> audited w -> threads w !! tid = Some th -> audited (step_thread tid now th w).
Proof.
  intros Hi Ha Hth. unfold step_thread. destruct (th_pc th) as [|rid race|rid race|rid race| | | | |rid|rid|rid|rid|rid|rid|rid ctx|rid ctx l|rid s|rid s|r] eqn:Hpc.
  1-4: repeat case_match; try done; quiet_goto.
  - apply (audited_quiet w); try done. intros rid. split; intros (tid1 & th1 & Hth1 & Hpc1).
    + cbn in Hth1. apply lookup_insert_Some in Hth1 as [[<- <-]|[_ ?]]; [done|by exists tid1, th1].
    + exists tid1, th1. split; [|done]. cbn. rewrite lookup_insert_ne; [done|]. intros <-. congruence.
  - case_match. case_match; [quiet_goto|]. quiet_goto. cbn. by eexists.
  - destruct (sessions w !! th_session th) as [s|] eqn:Hs; [|quiet_goto].
    apply (audited_quiet w); try done. intros rid. split; intros (tid1 & th1 & Hth1 & Hpc1).
    + cbn in Hth1. apply lookup_insert_Some in Hth1 as [[<- <-]|[_ ?]]; [done|by exists tid1, th1].
    + exists tid1, th1. split; [|done]. cbn. rewrite lookup_insert_ne; [done|]. intros <-. congruence.
  - destruct (has_executor w); [|quiet_goto]. destruct (turns w !! th_turn th) as [rid|] eqn:Ht; [quiet_goto|by apply audited_enroll].
  - by apply audited_register.
  - quiet_goto; destruct (th_connection th); try done; by apply no_lines.
  - quiet_goto.
  - case_match; [|done]. quiet_goto.
  - case_match; [|done]. quiet_goto. by destruct (t_cancelled t).
  - case_match; [|done]. quiet_goto.
  - quiet_goto; [cbn; intros rid'; by apply audited_same_alter|]. cbn. by exists [].
  - destruct l; try done. quiet_goto.
  - quiet_goto. intros rid'. apply audited_same_alter. intros t. apply core_audited, core_drain.
  - destruct s as [|m rest]; [done|]. by apply audited_finish.
  - done.
Qed.

(** A label that is no step of a call. *)
Lemma audited_core w rid f : audited w -> (forall t, core (f t) = core t) -> audited (upd_record rid f w).
Proof.
  intros Ha Hf. apply (audited_quiet w); try done. apply audited_same_alter. intros t. by apply core_audited.
Qed.

Lemma audited_cancel w rid : audited w -> audited (request_cancel rid w).
Proof.
  intros Ha. apply (audited_quiet w); try done; [by apply audited_same_alter|].
  intros rid'. split; intros (tid & th & Hth & Hpc).
  - cbn in Hth. rewrite lookup_fmap in Hth. apply fmap_Some in Hth as (th0 & Hth0 & ->). exists tid, th0. split; [done|].
    unfold woken in Hpc. destruct (th_pc th0) as [| | | | | | | | | | | | | | |rid1 ctx [| |]| | |] eqn:Hpc0; try congruence.
    destruct (rid1 =? rid)%nat; cbn in Hpc; congruence.
  - exists tid, th. split; [|done]. cbn. rewrite lookup_fmap, Hth. cbn. unfold woken. by rewrite Hpc.
Qed.

Lemma audited_label w l : Inv w -> audited w -> audited (step_host w l).
Proof.
  intros Hi Ha. destruct l as [tid turn session prompt notes connection|tid now|tid|tid tok now|tid r ctx|tid|rid|rid now|turn|rid| |retain|session agent hydrated]; cbn [step_host].
  - destruct (threads w !! tid) eqn:Hth; [done|]. apply (audited_quiet w); try done.
    intros rid. split; intros (tid1 & th1 & Hth1 & Hpc1).
    + cbn in Hth1. apply lookup_insert_Some in Hth1 as [[<- <-]|[_ ?]]; [done|by exists tid1, th1].
    + exists tid1, th1. split; [|done]. cbn. rewrite lookup_insert_ne; [done|]. intros <-. congruence.
  - destruct (threads w !! tid) as [th|] eqn:Hth; [by apply audited_thread|done].
  - unfold on_executing. repeat case_match; try done. quiet_goto.
  - unfold on_executing. repeat case_match; try done. apply audited_core; [done|apply core_on_token].
  - unfold on_executing. repeat case_match; try done; quiet_goto. cbn. by exists [].
  - unfold on_executing. repeat case_match; try done. quiet_goto.
  - apply audited_core; [done|apply core_flush_take].
  - apply audited_core; [done|apply core_flush_emit].
  - unfold Hosting.cancel. repeat case_match; try done. by apply audited_cancel.
  - by apply audited_cancel.
  - unfold cancel_all_active. generalize (filter (fun '(_, rid) => live_record w rid = true) (registered w)).
    intros rs. clear Hi. revert w Ha. induction rs as [|[id rid] rs IH]; intros w Ha; [done|]. cbn. by apply IH, audited_cancel.
  - by apply (audited_quiet w).
  - by apply (audited_quiet w).
Qed.

Lemma audited_run ls executor : audited (run_host ls (empty_host executor)).
Proof.
  unfold run_host. induction ls as [|l ls IH] using rev_ind.
  - split; [done|]. intros rid. cbn. split_and!; [unfold count; cbn; lia|done|]. intros [? ?]. done.
  - rewrite fold_left_app. apply audited_label; [apply inv_run|done].
Qed.

(** The audit records the start and the end of a turn's run at most once each,
    whatever cancellation, deadline and completion race; and exactly once each
    when no call runs the turn any more. *)
Theorem turn_audited_once ls executor rid : let w := run_host ls (empty_host executor) in
  count (is_started rid) (audit w) <= 1 /\ count (is_done rid) (audit w) <= 1
  /\ (is_Some (records w !! rid) -> (forall tid th, threads w !! tid = Some th -> owner (th_pc th) <> Some rid) ->
      count (is_started rid) (audit w) = 1 /\ count (is_done rid) (audit w) = 1).
Proof.
  intros w. destruct (audited_run ls executor) as [H1 H2]. fold w in H1, H2. destruct (H2 rid) as (Hs & _ & Ho).
  split_and!; [done|rewrite H1; repeat case_match; lia|]. intros [t Ht] Hno. split.
  - destruct Ho as [(tid & th & Hth & Hpc)|?]; [by eexists| |done]. exfalso. apply (Hno tid th Hth). by rewrite Hpc.
  - rewrite H1, Ht. destruct (inv_records _ (inv_run ls executor) _ _ Ht) as (_ & _ & [(_ & _ & ->)|(tid & th & Hth & Hpc)]); [done|].
    by destruct (Hno tid th Hth).
Qed.
(** C35. The state is well formed in every run: a registered turn names a record of
    that turn; a record is settled (terminal, released, audited) or exactly one
    call, of its turn and its session, is at it; a call that waits for or mirrors
    a turn has its record. *)
Theorem state_well_formed ls executor : let w := run_host ls (empty_host executor) in
  (forall id rid, turns w !! id = Some rid -> exists t, records w !! rid = Some t /\ t_id t = id)
  /\ (forall rid t, records w !! rid = Some t -> rid < next_rid w /\
        ((turn_terminal (t_state t) = true /\ t_done t = true /\ t_audited t = true)
         \/ exists tid th, threads w !! tid = Some th /\ owner (th_pc th) = Some rid
              /\ th_turn th = t_id t /\ th_session th = t_session t
              /\ forall tid' th', threads w !! tid' = Some th' -> owner (th_pc th') = Some rid -> tid' = tid))
  /\ (forall tid th rid, threads w !! tid = Some th -> owner (th_pc th) = Some rid \/ watched (th_pc th) = Some rid ->
        exists t, records w !! rid = Some t /\ t_id t = th_turn th).
Proof.
  intros w. pose proof (inv_run ls executor) as Hi. fold w in Hi. split_and!.
  - apply (inv_turns _ Hi).
  - intros rid t Ht. destruct (inv_records _ Hi _ _ Ht) as (Hlt & _ & [?|(tid & th & Hth & Ho)]); (split; [done|]); [by left|].
    right. exists tid, th. destruct (inv_threads _ Hi _ _ Hth) as (_ & _ & Hown).
    destruct (Hown _ Ho) as (t' & Ht' & ? & ? & _). rewrite Ht in Ht'. injection Ht' as <-.
    split_and!; try done. intros tid' th' Hth' Ho'. by apply (inv_owners _ Hi tid' th' tid th rid).
  - intros tid th rid Hth [Ho|Hwt]; destruct (inv_threads _ Hi _ _ Hth) as (_ & Hwatch & Hown).
    + destruct (Hown _ Ho) as (t & ? & ? & _). by exists t.
    + by apply Hwatch.
Qed.
End facts.

(** ** Runs that go wrong *)

Section runs.
#[local] Instance no_json : ParseJson jval := fun _ => None.

(** Notes and conversations are numbers here. *)
Definition quiet_session : SessionContext nat (list string) := {| agent_name := ""; knowledge := []; conversation := [] |}.
Definition said (r : string) (ctx : SessionContext nat (list string)) : SessionContext nat (list string) :=
  {| agent_name := agent_name ctx; knowledge := knowledge ctx; conversation := conversation ctx ++ [r] |}.

Definition demo_host (ls : list (label (Note := nat) (C := list string))) : Host jval nat (list string) :=
  run_host (StartSession "s" None quiet_session :: ls) (empty_host true).

Definition times (n tid : nat) : list (label (Note := nat) (C := list string)) := repeat (Step tid 0) n.

(** From the submission to the execution, with nobody in the way. *)
Definition to_execution : nat := 11.

(** A response is stored after the turn is marked completed: a duplicate that
    comes between the two finds a completed turn without a response, takes it
    for a cancelled one and runs it again.  Both calls answer, each with an
    answer of its own, and the session's file has both. *)
Theorem completed_turn_runs_twice :
  let w := demo_host ([Submit 0 "t" "s" "pay" None true] ++ times to_execution 0 ++ [Listen 0]
    ++ [Answer 0 (Ok "paid"%string) (said "paid" quiet_session)]
    ++ times 3 0                       (* drained, counted a success, marked completed *)
    ++ [Submit 1 "t" "s" "pay" None true] ++ times 4 1        (* the duplicate removes the record *)
    ++ times 10 0                      (* the first call finishes *)
    ++ times to_execution 1 ++ [Answer 1 (Ok "paid again"%string) (said "paid again" quiet_session)] ++ times 15 1)%list in
  th_pc <$> threads w !! 0 = Some (Returned (Ok "paid"%string))
  /\ th_pc <$> threads w !! 1 = Some (Returned (Ok "paid again"%string))
  /\ persisted w = [("s", "pay", "paid"); ("s", "pay", "paid again")]%string.
Proof. by vm_compute. Qed.

(** A turn that waits for the permit has put its notes in the session; the turn
    before it then writes back the context it began with, and the notes are gone
    when the turn that brought them executes. *)
Theorem queued_knowledge_lost :
  let w := demo_host ([Submit 0 "a" "s" "first" None true] ++ times to_execution 0
    ++ [Submit 1 "b" "s" "second" (Some [7]) true] ++ times (to_execution - 4) 1
    ++ [Answer 0 (Ok "done"%string) (said "done" quiet_session)] ++ times 12 0 ++ times 5 1)%list in
  th_pc <$> threads w !! 0 = Some (Returned (Ok "done"%string))
  /\ th_knowledge <$> threads w !! 1 = Some (Some [7])
  /\ th_pc <$> threads w !! 1 = Some (Executing 1 (said "done" quiet_session) NotYet).
Proof. by vm_compute. Qed.

(** A cancellation that comes after the last check of the flag and before the
    execution is polled wakes nobody up: the turn completes. *)
Lemma early_cancel_lost :
  let w := demo_host ([Submit 0 "t" "s" "p" None true] ++ times to_execution 0 ++ [Hosting.Cancel "t"; Listen 0]
    ++ [Answer 0 (Ok "done"%string) (said "done" quiet_session)] ++ times 12 0)%list in
  th_pc <$> threads w !! 0 = Some (Returned (Ok "done"%string)) /\ t_cancelled <$> records w !! 0 = Some true.
Proof. by vm_compute. Qed.

(** A turn that is submitted again after its cancellation runs without a route
    for approvals, although its connection is there to be asked. *)
Lemma retry_without_approvals :
  let w := demo_host ([Submit 0 "t" "s" "p" None true] ++ times to_execution 0 ++ [Listen 0; Hosting.Cancel "t"] ++ times 11 0
    ++ [Submit 1 "t" "s" "p" None true] ++ times (4 + to_execution) 1)%list in
  th_pc <$> threads w !! 0 = Some (Returned (Err (internal "turn cancelled")))
  /\ th_pc <$> threads w !! 1 = Some (Executing 1 quiet_session NotYet) /\ approval_routes w = [].
Proof. by vm_compute. Qed.

(** A failed execution is a completed turn without a response: its replay runs
    it again. *)
Lemma failed_turn_reruns :
  let w := demo_host ([Submit 0 "t" "s" "p" None true] ++ times to_execution 0
    ++ [Answer 0 (Err "half way"%string) (said "half way" quiet_session)] ++ times 11 0
    ++ [Submit 1 "t" "s" "p" None true] ++ times (4 + to_execution) 1)%list in
  th_pc <$> threads w !! 0 = Some (Returned (Err (internal "agent execution failed: half way")))
  /\ runs w = [(0, 0); (1, 1)].
Proof. by vm_compute. Qed.

(** The flusher takes the buffer, the turn completes, and the delta comes after
    the terminal event. *)
Lemma delta_after_completion :
  let w := demo_host ([Submit 0 "t" "s" "p" None true] ++ times to_execution 0
    ++ [Token 0 (utf8 "hello") 0; FlushTake 0; Answer 0 (Ok "hello"%string) quiet_session] ++ times 12 0 ++ [FlushEmit 0 0])%list in
  (map ev_kind ∘ events ∘ t_ring) <$> records w !! 0 = Some ["turn_completed"; "delta"]%string.
Proof. by vm_compute. Qed.

Lemma response_is_the_executors_witness : exists th,
  threads (demo_host ([Submit 0 "t" "s" "p" None true] ++ times to_execution 0
    ++ [Answer 0 (Ok "hi"%string) quiet_session] ++ times 12 0)) !! 0 = Some th
  /\ (th_turn th, "hi"%string) ∈ answers (demo_host ([Submit 0 "t" "s" "p" None true] ++ times to_execution 0
    ++ [Answer 0 (Ok "hi"%string) quiet_session] ++ times 12 0)).
Proof.
  eexists. split; [vm_compute; reflexivity|].
  eapply (response_is_the_executors (V := jval) _ true 0); [vm_compute; reflexivity|reflexivity|by left].
Defined.

Definition one_turn : list (label (Note := nat) (C := list string)) :=
  [StartSession "s" None quiet_session; Submit 0 "t" "s" "p" None true] ++ times to_execution 0
  ++ [Answer 0 (Ok "hi"%string) quiet_session] ++ times 12 0.

Lemma one_turn_returned : threads (run_host one_turn (empty_host (V := jval) true))
  = {[ 0 := {| th_turn := "t"; th_session := "s"; th_prompt := "p"; th_knowledge := None;
               th_connection := true; th_agent := "auto"; th_pc := Returned (Ok "hi"%string) |} ]}.
Proof. by vm_compute. Qed.

Lemma one_turn_recorded : is_Some (records (run_host one_turn (empty_host (V := jval) true)) !! 0).
Proof. eexists. vm_compute. reflexivity. Qed.

Lemma turn_audited_once_witness :
  count (is_started 0) (audit (run_host one_turn (empty_host (V := jval) true))) = 1
  /\ count (is_done 0) (audit (run_host one_turn (empty_host (V := jval) true))) = 1.
Proof.
  apply (turn_audited_once one_turn true 0); [exact one_turn_recorded|].
  intros tid th. rewrite one_turn_returned. by intros [_ <-]%lookup_singleton_Some.
Defined.
End runs.
