(* ===== verification/ToolHooks.v ===== *)
(** * The hooks around a tool call

    Models the hooks that a tool invocation passes before the tool runs:
    [crates/zen-plugin/src/tools] (confidentiality_hook.rs, audit_hook.rs,
    approval_hook.rs), the isolation of plugin hooks (hook_isolation.rs,
    lib.rs), and the pipeline [crates/zen-agents/src/wiring.rs] builds of them.
    The runner of a pipeline and the budget hook are third-party code:
    parameters.  Tool names are ASCII. *)

From S2P Require Import Prelude Types Json Text Sandbox.
From stdpp Require Import gmap.
From Stdlib Require Import Lia.
Local Open Scope list_scope.

(** ** [confidentiality_hook.rs]: the manifest of tools *)

(** The columns that are read. *)
Record ToolMetadata := { tm_name : string; cloud : bool; mutating : bool; tm_io : bool }.

Definition TOOL_METADATA : list ToolMetadata :=
  let row n c m i := {| tm_name := n; cloud := c; mutating := m; tm_io := i |} in
  [row "fs.read" false false false; row "fs.list" false false false; row "fs.grep" false false false;
   row "fs.glob" false false false; row "fs.write" false true false; row "fs.edit" false true false;
   row "fs.delete" false true false; row "fs.move" false true false; row "fs.copy" false true false;
   row "web.fetch" true false true; row "web.search" true false true; row "shell.exec" false true true]%string.

Definition tool_metadata (name : string) : option ToolMetadata :=
  snd <$> list_find (fun m => tm_name m = name) TOOL_METADATA.

Definition is_cloud_tool (tool_name : string) : bool :=
  match tool_metadata tool_name with
  | Some m => cloud m
  | None =>
    let lowered := lower (utf8 tool_name) in
    starts_with lowered (utf8 "web.") || contains lowered (utf8 "http") || contains lowered (utf8 "network")
    || contains lowered (utf8 "cloud")
  end.

Definition is_mutating_tool (tool_name : string) : bool :=
  match tool_metadata tool_name with Some m => mutating m | None => false end.

(** Errors of a tool and of the kernel. *)
Inductive KernelError :=
  | ToolFailed (msg : string) | InvalidArgument (msg : string) | ToolNotFound (name : string)
  | ToolDispatchTerminated (reason : string) | BudgetFailed (msg : string) | OtherError (msg : string).

Section hooks.
Context {V : Type} {HJson : Json V}.
(** What hooks see of the rest of the process (the approval broker, the state of
    plugins), its clock in milliseconds, the outcome a tool reports. *)
Context {E O : Type} (now : E -> N).
(** [Display] of a kernel error. *)
Context (kernel_str : KernelError -> string).

Implicit Types (inv : ToolInvocation (V := V)) (turn : option string).

Record AuditRecord := {
  ar_tool : string; args_summary : list string; success : bool; ar_outcome : option string;
  ar_plugin : option string; ar_error : option string; duration_ms : option N;
}.

(** [cell]: the sensitivity shared by the sessions of a wiring, [None] when its
    lock is poisoned. *)
Record HookState := { cell : option Sensitivity; start_time : option N; audit_log : list AuditRecord; env : E }.

Definition set_cell (c : option Sensitivity) (st : HookState) : HookState :=
  {| cell := c; start_time := start_time st; audit_log := audit_log st; env := env st |}.
Definition set_start (s : option N) (st : HookState) : HookState :=
  {| cell := cell st; start_time := s; audit_log := audit_log st; env := env st |}.
Definition append_record (r : AuditRecord) (st : HookState) : HookState :=
  {| cell := cell st; start_time := start_time st; audit_log := audit_log st ++ [r]; env := env st |}.
Definition set_env (e : E) (st : HookState) : HookState :=
  {| cell := cell st; start_time := start_time st; audit_log := audit_log st; env := e |}.

Inductive HookAction := Proceed | Skip (output : V) (reason : option string) | Stop (reason : text).

(** [ToolDispatchHook].  [turn] is the task-local [APPROVAL_TURN]. *)
Record Hook := {
  before : option string -> ToolInvocation (V := V) -> HookState -> result HookAction KernelError * HookState;
  after : ToolInvocation (V := V) -> V -> HookState -> result unit KernelError * HookState;
  after_with_outcome : ToolInvocation (V := V) -> V -> O -> HookState -> result unit KernelError * HookState;
  on_error : ToolInvocation (V := V) -> KernelError -> HookState -> result unit KernelError * HookState;
}.

(** The default the trait has for [after_invocation_with_outcome]. *)
Context (default_after_with_outcome :
  (ToolInvocation (V := V) -> V -> HookState -> result unit KernelError * HookState) ->
  ToolInvocation (V := V) -> V -> O -> HookState -> result unit KernelError * HookState).

Definition quiet_after inv (out : V) (st : HookState) : result unit KernelError * HookState := (Ok tt, st).
Definition quiet_error inv (e : KernelError) (st : HookState) : result unit KernelError * HookState := (Ok tt, st).

(** ** Confidentiality *)

Definition confidential_reason (tool : string) : string :=
  "cloud tool '" ++ tool ++ "' disabled for confidential content".

Definition ConfidentialityHook : Hook := {|
  before _ inv st :=
    if bool_decide (default Public (cell st) = Confidential) && is_cloud_tool (ti_name inv) then
      (Ok (Skip (j_obj [("error"%string, j_str (confidential_reason (ti_name inv)))])
             (Some (confidential_reason (ti_name inv)))), st)
    else (Ok Proceed, st);
  after := quiet_after;
  after_with_outcome := default_after_with_outcome quiet_after;
  on_error := quiet_error;
|}.

Definition set_sensitivity (s : Sensitivity) (st : HookState) : HookState :=
  match cell st with Some _ => set_cell (Some s) st | None => st end.

(** ** Seatbelt *)

Definition SeatbeltHook (policy : SeatbeltPolicy) : Hook := {|
  before _ inv st :=
    (Ok match validate_invocation policy inv with Continue => Proceed | Terminate reason => Stop reason end, st);
  after := quiet_after;
  after_with_outcome := default_after_with_outcome quiet_after;
  on_error := quiet_error;
|}.

(** ** Audit *)

Definition arg_keys (args : V) : list string :=
  match j_as_object args with Some fields => fields.*1 | None => [] end.

Definition build_record inv (ok : bool) (error : option KernelError) (duration : option N) : AuditRecord :=
  {| ar_tool := ti_name inv; args_summary := arg_keys (ti_args inv); success := ok; ar_outcome := None;
     ar_plugin := None; ar_error := kernel_str <$> error; duration_ms := duration |}.

Definition take_elapsed (st : HookState) : option N * HookState :=
  ((fun t => now (env st) - t)%N <$> start_time st, set_start None st).

Definition audit_after inv (out : V) (st : HookState) : result unit KernelError * HookState :=
  let '(d, st1) := take_elapsed st in (Ok tt, append_record (build_record inv true None d) st1).
Definition audit_error inv (e : KernelError) (st : HookState) : result unit KernelError * HookState :=
  let '(d, st1) := take_elapsed st in (Ok tt, append_record (build_record inv false (Some e) d) st1).

Definition ToolAuditHook : Hook := {|
  before _ inv st := (Ok Proceed, set_start (Some (now (env st))) st);
  after := audit_after;
  after_with_outcome := default_after_with_outcome audit_after;
  on_error := audit_error;
|}.

(** ** Approval *)

Definition requires_approval inv : bool := is_mutating_tool (ti_name inv) || is_cloud_tool (ti_name inv).

(** The callback, run on a thread of its own: its decision, or [None] when the
    thread fails or the hook's deadline passes first. *)
Definition ApprovalCallback : Type := option string -> ToolInvocation (V := V) -> E -> option bool * E.

Definition AskApprovalHook (mode : SandboxMode) (callback : option ApprovalCallback) : Hook := {|
  before turn inv st :=
    if negb (bool_decide (mode = Ask)) then (Ok Proceed, st)
    else if negb (requires_approval inv) then (Ok Proceed, st)
    else
      match callback with
      | None => (Ok Proceed, st)
      | Some decide =>
        let '(decision, e) := decide turn inv (env st) in
        (Ok (if default false decision then Proceed else Stop (utf8 ("user denied: " ++ ti_name inv))), set_env e st)
      end;
  after := quiet_after;
  after_with_outcome := default_after_with_outcome quiet_after;
  on_error := quiet_error;
|}.

(** ** Isolation of plugin hooks *)

Definition tool_sensitivity (table : gmap string Sensitivity) (tool : string) : Sensitivity :=
  default Private (table !! tool).
Definition is_confidential (table : gmap string Sensitivity) inv : bool :=
  bool_decide (tool_sensitivity table (ti_name inv) = Confidential).

Definition denial_message (plugin_id : string) inv (e : KernelError) : string :=
  "invocation of '" ++ ti_name inv ++ "' denied by plugin hook '" ++ plugin_id ++ "': " ++ kernel_str e.

Definition denial_record (plugin_id : string) inv (e : KernelError) : AuditRecord :=
  {| ar_tool := ti_name inv; args_summary := arg_keys (ti_args inv); success := false;
     ar_outcome := Some "denied_by_plugin_hook"%string; ar_plugin := Some plugin_id;
     ar_error := Some (kernel_str e); duration_ms := None |}.

Definition deny (plugin_id : string) inv (e : KernelError) (st : HookState) : HookAction * HookState :=
  let message := denial_message plugin_id inv e in
  (Skip (j_obj [("error"%string, j_str message)]) (Some message), append_record (denial_record plugin_id inv e) st).

(** An error after the invocation is swallowed. *)
Definition swallowed (r : result unit KernelError * HookState) : result unit KernelError * HookState := (Ok tt, r.2).

Definition IsolatedPluginHook (plugin_id : string) (inner : Hook) (table : gmap string Sensitivity) : Hook := {|
  before turn inv st :=
    if is_confidential table inv then (Ok Proceed, st)
    else
      match before inner turn inv st with
      | (Ok action, st1) => (Ok action, st1)
      | (Err e, st1) => let '(action, st2) := deny plugin_id inv e st1 in (Ok action, st2)
      end;
  after inv out st := if is_confidential table inv then (Ok tt, st) else swallowed (after inner inv out st);
  after_with_outcome inv out o st :=
    if is_confidential table inv then (Ok tt, st) else swallowed (after_with_outcome inner inv out o st);
  on_error inv e st := if is_confidential table inv then (Ok tt, st) else swallowed (on_error inner inv e st);
|}.

(** ** The wiring *)

Definition builtin_sensitivity : gmap string Sensitivity := list_to_map
  [("tier2_search", Private); ("tier3_search", Private); ("tier4_search", Private); ("compute_embeddings", Private);
   ("system.health", Public); ("system.notifications", Public); ("system.calendar", Private);
   ("system.daemon", Private); ("system.fs_watcher", Private); ("plugin.wasm_sandbox", Private);
   ("fs.read", Public); ("fs.write", Private); ("fs.edit", Private); ("fs.delete", Private); ("fs.move", Private);
   ("fs.copy", Private); ("fs.list", Public); ("fs.grep", Public); ("shell.exec", Confidential);
   ("shell.collect", Confidential); ("shell.kill", Confidential); ("fs.glob", Public); ("web.fetch", Private);
   ("web.search", Private)]%string.

Definition build_tool_arg_registry : gmap string ToolArgEntry :=
  let fs reg tool := register_tool_args tool ["path"%string] [] reg in
  fold_left fs ["fs.read"; "fs.write"; "fs.edit"; "fs.delete"; "fs.move"; "fs.copy"; "fs.list"; "fs.grep"; "fs.glob"]
    (register_tool_args "plugin.wasm_sandbox" ["wasm_path"] []
      (register_tool_args "shell.kill" [] []
        (register_tool_args "shell.collect" [] []
          (register_tool_args "shell.exec" ["cwd"] ["binary"]
            (register_tool_args "system.daemon" [] ["daemon_action"; "action"] ∅)))))%string.

Definition wired_policy (mode : SandboxMode) (roots : list path) : SeatbeltPolicy :=
  {| sp_mode := mode; sp_roots := roots; timeout_secs := 300; arg_registry := build_tool_arg_registry |}.

(** [DispatchBudgetHook], third-party. *)
Context (budget : Hook).

Definition build_sandbox_hooks (mode : SandboxMode) (roots : list path) : list Hook :=
  [ConfidentialityHook; budget; SeatbeltHook (wired_policy mode roots); ToolAuditHook; AskApprovalHook mode None].

Definition set_approval_callback (mode : SandboxMode) (callback : ApprovalCallback) (hooks : list Hook) : list Hook :=
  if bool_decide (mode = Ask) then <[4 := AskApprovalHook Ask (Some callback)]> hooks else hooks.

(** [PluginApi::register_hook]. *)
Definition register_hook (plugin_id : string) (table : gmap string Sensitivity) (hook : Hook) (hooks : list Hook) : list Hook :=
  hooks ++ [IsolatedPluginHook plugin_id hook table].

Definition with_plugins (plugins : list (string * Hook)) (hooks : list Hook) : list Hook :=
  fold_left (fun hooks '(id, h) => register_hook id builtin_sensitivity h hooks) plugins hooks.

(** [PluginApi::register_tool]: the names a plugin may take. *)
Definition RESERVED_NAMESPACE_PREFIXES : list string := ["fs"; "web"; "system"; "plugin"; "shell"]%string.
Definition register_tool (plugin_id tool : string) (builtin : list string) (tools : gset string) : gset string :=
  let namespaced := (plugin_id ++ "." ++ tool)%string in
  if bool_decide (plugin_id ∈ RESERVED_NAMESPACE_PREFIXES) then tools
  else if bool_decide (namespaced ∈ builtin) then tools
  else {[namespaced]} ∪ tools.

(** ** [orchestrator.rs]: a round of invocations *)

Definition is_hook_termination (e : KernelError) : bool :=
  match e with ToolDispatchTerminated _ | BudgetFailed _ => true | _ => false end.

Definition error_output (e : KernelError) : V := j_obj [("error"%string, j_str (kernel_str e))].

(** Each invocation with what its dispatch gives.  The first termination, in the
    order of the invocations, aborts the round. *)
Fixpoint collect_round (outcomes : list (ToolInvocation (V := V) * result (list V) KernelError))
    : result (list (ToolInvocation (V := V) * V)) KernelError :=
  match outcomes with
  | [] => Ok []
  | (inv, o) :: rest =>
    match o with
    | Err e =>
      if is_hook_termination e then Err e
      else match collect_round rest with Ok l => Ok ((inv, error_output e) :: l) | Err e' => Err e' end
    | Ok batch =>
      let out := default (j_obj [("error"%string, j_str "dispatch returned no result"%string)]) (last batch) in
      match collect_round rest with Ok l => Ok ((inv, out) :: l) | Err e' => Err e' end
    end
  end.

(** ** What a pipeline decides

    The hooks are asked in order; the first that does not proceed decides. *)
Fixpoint continues (hooks : list Hook) turn inv (st : HookState) : option HookState :=
  match hooks with
  | [] => Some st
  | h :: rest =>
    match before h turn inv st with
    | (Ok Proceed, st1) => continues rest turn inv st1
    | _ => None
    end
  end.
End hooks.
Arguments Hook V E O : clear implicits.
Arguments HookState E : clear implicits.
Arguments HookAction V : clear implicits.

(** A result for every invocation, in order, unless a hook terminated one. *)
Lemma round_positional {V} {HJson : Json V} (kernel_str : KernelError -> string)
    (outcomes : list (ToolInvocation (V := V) * result (list V) KernelError)) :
  match collect_round kernel_str outcomes with
  | Ok l => map fst l = map fst outcomes
  | Err e => is_hook_termination e = true /\ exists inv, (inv, Err e) ∈ outcomes
  end.
Proof.
  induction outcomes as [|[inv [batch|e]] rest IH]; [done| |]; cbn [collect_round].
  - destruct (collect_round kernel_str rest) as [l|e]; cbn; [by rewrite IH|].
    destruct IH as (? & inv' & Hin). split; [done|]. exists inv'. by right.
  - destruct (is_hook_termination e) eqn:Ht; [split; [done|]; exists inv; by left|].
    destruct (collect_round kernel_str rest) as [l|e']; cbn; [by rewrite IH|].
    destruct IH as (? & inv' & Hin). split; [done|]. exists inv'. by right.
Qed.
