(* ===== verification/ToolHooksProps.v ===== *)
(** * What passes the hooks

    A tool's body runs only when every gate of the pipeline let it through; a
    plugin can deny an invocation of its own and nothing else; in [Ask] mode a
    hosted turn's mutating tools need the approval of its client. *)

From S2P Require Import Prelude Types Json Text Sandbox Rpc Dispatch Approval ApprovalProps ToolHooks.
From stdpp Require Import gmap.
From Stdlib Require Import Lia.
Local Open Scope list_scope.

Section pipeline.
Context {V : Type} {HJson : Json V} {E O : Type}.
Context (now : E -> N) (kernel_str : KernelError -> string).
Context (default_after_with_outcome :
  (ToolInvocation (V := V) -> V -> HookState E -> result unit KernelError * HookState E) ->
  ToolInvocation (V := V) -> V -> O -> HookState E -> result unit KernelError * HookState E).
Context (budget : Hook V E O).
Implicit Types (inv : ToolInvocation (V := V)) (turn : option string) (st : HookState E) (h : Hook V E O).

Notation builtin := (build_sandbox_hooks now kernel_str default_after_with_outcome budget).
Notation plugged := (with_plugins kernel_str).

(** The hooks of a wiring: the built-in ones, the approval callback, plugins. *)
Definition wired (mode : SandboxMode) (roots : list path) (callback : ApprovalCallback) (plugins : list (string * Hook V E O))
    : list (Hook V E O) :=
  plugged plugins (set_approval_callback default_after_with_outcome mode callback (builtin mode roots)).

Lemma continues_app (hs hs' : list (Hook V E O)) turn inv st :
  continues (hs ++ hs') turn inv st = continues hs turn inv st ≫= continues hs' turn inv.
Proof.
  revert st. induction hs as [|h hs IH]; intros st; [done|]. cbn. by repeat case_match.
Qed.

Lemma plugged_app plugins (hs : list (Hook V E O)) :
  plugged plugins hs = hs ++ map (fun '(id, h) => IsolatedPluginHook kernel_str id h builtin_sensitivity) plugins.
Proof.
  unfold with_plugins. revert hs. induction plugins as [|[id h] plugins IH]; intros hs; cbn; [by rewrite app_nil_r|].
  rewrite IH. unfold register_hook. by rewrite <- app_assoc.
Qed.

(** ** Plugins *)

Lemma isolated_confidential id h table turn inv st : is_confidential table inv = true ->
  before (IsolatedPluginHook kernel_str id h table) turn inv st = (Ok Proceed, st).
Proof. intros Hc. cbn. by rewrite Hc. Qed.

(** What plugins register changes nothing for a confidential tool: it runs just
    when the built-in hooks let it, in the state they leave. *)
Theorem plugins_blind_to_confidential mode roots callback plugins turn inv st :
  is_confidential builtin_sensitivity inv = true ->
  continues (wired mode roots callback plugins) turn inv st = continues (wired mode roots callback []) turn inv st.
Proof.
  intros Hc. unfold wired. rewrite !plugged_app, app_nil_r, continues_app.
  set (hs := set_approval_callback _ _ _ _). destruct (continues hs turn inv st) as [st1|]; [|done]. cbn.
  induction plugins as [|[id h] plugins IH]; [done|]. cbn -[IsolatedPluginHook].
  by rewrite isolated_confidential.
Qed.

(** A plugin's hook that fails denies its invocation, with one audit record, and
    is no error of the pipeline. *)
Lemma isolated_denies id h table turn inv st e st1 : is_confidential table inv = false ->
  before h turn inv st = (Err e, st1) ->
  exists out reason, before (IsolatedPluginHook kernel_str id h table) turn inv st
    = (Ok (Skip out reason), append_record (denial_record kernel_str id inv e) st1).
Proof. intros Hc Hb. cbn. rewrite Hc, Hb. cbn. eauto. Qed.

Lemma isolated_never_fails id h table turn inv st : is_ok (before (IsolatedPluginHook kernel_str id h table) turn inv st).1 = true
  /\ (forall out, is_ok (after (IsolatedPluginHook kernel_str id h table) inv out st).1 = true)
  /\ (forall e, is_ok (on_error (IsolatedPluginHook kernel_str id h table) inv e st).1 = true).
Proof.
  cbn. destruct (is_confidential table inv); [done|]. split; [|done].
  by destruct (before h turn inv st) as [[action|e] st1].
Qed.

(** ** The gates *)

Definition confidential_session st : bool := bool_decide (default Public (cell st) = Confidential).

Lemma wired_prefix mode roots callback plugins turn inv st st' :
  continues (wired mode roots callback plugins) turn inv st = Some st' ->
  exists st1 st2,
    before (ConfidentialityHook default_after_with_outcome) turn inv st = (Ok Proceed, st)
    /\ before budget turn inv st = (Ok Proceed, st1)
    /\ validate_invocation (wired_policy mode roots) inv = Continue
    /\ before (AskApprovalHook default_after_with_outcome mode (if bool_decide (mode = Sandbox.Ask) then Some callback else None))
         turn inv (set_start (Some (now (env st1))) st1) = (Ok Proceed, st2)
    /\ continues (map (fun '(id, h) => IsolatedPluginHook kernel_str id h builtin_sensitivity) plugins) turn inv st2 = Some st'.
Proof.
  unfold wired. rewrite plugged_app, continues_app. intros H. apply bind_Some in H as (st2 & H & Hp).
  unfold set_approval_callback, build_sandbox_hooks in H.
  assert (Hgo : forall cb, continues [ConfidentialityHook default_after_with_outcome; budget;
      SeatbeltHook default_after_with_outcome (wired_policy mode roots); ToolAuditHook now kernel_str default_after_with_outcome;
      AskApprovalHook default_after_with_outcome mode cb] turn inv st = Some st2 ->
    exists st1, before (ConfidentialityHook default_after_with_outcome) turn inv st = (Ok Proceed, st)
      /\ before budget turn inv st = (Ok Proceed, st1) /\ validate_invocation (wired_policy mode roots) inv = Continue
      /\ before (AskApprovalHook default_after_with_outcome mode cb) turn inv (set_start (Some (now (env st1))) st1) = (Ok Proceed, st2)).
  { intros cb Hc. cbn [continues] in Hc.
    assert (Hk : (before (ConfidentialityHook (V := V) (O := O) default_after_with_outcome) turn inv st).2 = st) by (cbn; by destruct (_ && _)).
    destruct (before (ConfidentialityHook _) turn inv st) as [[[| |]|] s0]; cbn in Hk; try done. subst s0.
    destruct (before budget turn inv st) as [[[| |]|] st1]; try done. exists st1.
    cbn [before SeatbeltHook ToolAuditHook] in Hc. destruct (validate_invocation _ _); [|done].
    destruct (before (AskApprovalHook _ _ _) _ _ _) as [[[| |]|] s]; try done. by injection Hc as ->. }
  destruct (decide (mode = Sandbox.Ask)) as [->|Hm].
  - rewrite bool_decide_true in H by done. destruct (Hgo _ H) as (st1 & ? & ? & ? & ?). exists st1, st2. by rewrite bool_decide_true.
  - rewrite bool_decide_false in H by done. destruct (Hgo _ H) as (st1 & ? & ? & ? & ?). exists st1, st2. by rewrite bool_decide_false.
Qed.

Lemma ask_hook_allows callback turn inv st st' : requires_approval inv = true ->
  before (AskApprovalHook default_after_with_outcome Sandbox.Ask (Some callback)) turn inv st = (Ok Proceed, st') ->
  callback turn inv (env st) = (Some true, env st').
Proof.
  intros Hr Ha. cbn in Ha. rewrite Hr, bool_decide_true in Ha by done. cbn in Ha.
  destruct (callback turn inv (env st)) as [[[|]|] e']; cbn in Ha; [by injection Ha as <-|done..].
Qed.
(** Plugins that leave the environment alone hand it on. *)
Lemma plugins_keep_env plugins turn inv : (forall id h turn inv st, (id, h) ∈ plugins -> env (before h turn inv st).2 = env st) ->
  forall st st', continues (map (fun '(id, h) => IsolatedPluginHook kernel_str id h builtin_sensitivity) plugins) turn inv st = Some st' -> env st' = env st.
Proof.
  induction plugins as [|[id h] plugins IH]; intros Hp st st'; cbn [map continues]; [by intros [= <-]|].
  assert (env (before (IsolatedPluginHook kernel_str id h builtin_sensitivity) turn inv st).2 = env st) as He.
  { cbn. destruct (is_confidential _ _); [done|]. specialize (Hp id h turn inv st ltac:(by left)).
    destruct (before h turn inv st) as [[a|e] st1]; cbn in *; by rewrite Hp. }
  destruct (before (IsolatedPluginHook _ _ _ _) turn inv st) as [[[| |]|] st1]; try done. cbn in He. rewrite <- He.
  apply IH. intros id' h' turn' inv' st2 Hin. apply (Hp id'). by right.
Qed.

(** C29. The body of a tool starts only when the level in the shared cell is not
    [Confidential] or the tool is local, the seatbelt let the arguments through, and,
    in [Ask] mode with the callback that the wiring sets, for a tool that mutates or
    reaches the cloud ([requires_approval]; the others are not asked about), the
    callback said yes in the environment that the budget's hook left, whatever
    the budget and the plugins do.  The cell is one for all sessions, so that its
    level may be another session's ([confidential_cell_overwritten]).  [starts] is the
    runner of the pipeline: the state in which the body starts, if it does; it asks
    the hooks in order. *)
Theorem tool_gated (starts : list (Hook V E O) -> option string -> ToolInvocation (V := V) -> HookState E -> option (HookState E))
    mode roots callback plugins turn inv st st' :
  (forall hooks turn inv st st', starts hooks turn inv st = Some st' -> continues hooks turn inv st = Some st') ->
  starts (wired mode roots callback plugins) turn inv st = Some st' ->
  confidential_session st && is_cloud_tool (ti_name inv) = false
  /\ validate_invocation (wired_policy mode roots) inv = Continue
  /\ exists st1, before budget turn inv st = (Ok Proceed, st1)
  /\ (mode = Sandbox.Ask -> requires_approval inv = true -> exists e', callback turn inv (env st1) = (Some true, e')).
Proof.
  intros Hstarts H%Hstarts. apply wired_prefix in H as (st1 & st2 & Hc & Hb & Hv & Ha & _). split; [|split; [done|exists st1; split; [done|]]].
  - cbn in Hc. unfold confidential_session. by destruct (_ && _).
  - intros -> Hr. rewrite bool_decide_true in Ha by done. apply ask_hook_allows in Ha; [|done]. eauto.
Qed.
End pipeline.

(** ** Hosted turns

    The environment is the approval broker, with what the other parties do while
    each callback waits. *)
Section hosted.
Context {V : Type} {HJson : Json V} {O : Type}.
Implicit Types (inv : ToolInvocation (V := V)) (turn : option string).

Definition HostedEnv : Type := Broker (V := V) * list (list (broker_step (V := V))).

(** [ApprovalBroker::callback]: the call, the steps of the others, the answer if
    there is one before the hook's deadline. *)
Definition broker_callback turn inv (e : HostedEnv) : option bool * HostedEnv :=
  let '(b, plans) := e in
  let cid := fresh (dom (calls b)) in
  let b1 := fold_left step_broker (default [] (head plans)) (decide_call cid turn (ti_name inv) (ti_args inv) b) in
  (match calls b1 !! cid with
   | Some {| cl_state := Returned v |} => Some v
   | _ => None
   end, (b1, tail plans)).

Definition broker_reachable (b : Broker (V := V)) : Prop := exists ops, b = run_broker ops.

Lemma broker_callback_reachable turn inv e : broker_reachable e.1 -> broker_reachable (broker_callback turn inv e).2.1.
Proof.
  destruct e as [b plans]. cbn. intros (ops & ->).
  exists (ops ++ DecideCall (fresh (dom (calls (run_broker ops)))) turn (ti_name inv) (ti_args inv) :: default [] (head plans)).
  unfold run_broker. by rewrite fold_left_app.
Qed.

(** A call keeps its turn, its tool and its arguments. *)
Definition same_call (cl cl' : Call (V := V)) : Prop :=
  cl_turn cl' = cl_turn cl /\ cl_name cl' = cl_name cl /\ cl_args cl' = cl_args cl.
Definition keeps_calls (b b' : Broker (V := V)) : Prop :=
  forall cid cl, calls b !! cid = Some cl -> exists cl', calls b' !! cid = Some cl' /\ same_call cl cl'.

Lemma broker_keeps_refl b b' : calls b' = calls b -> keeps_calls b b'.
Proof. intros Hb cid cl H. exists cl. by rewrite Hb. Qed.
Lemma broker_keeps_trans b1 b2 b3 : keeps_calls b1 b2 -> keeps_calls b2 b3 -> keeps_calls b1 b3.
Proof.
  intros H1 H2 cid cl (cl' & H & ? & ? & ?)%H1. apply H2 in H as (cl'' & ? & ? & ? & ?).
  exists cl''. split; [done|]. split_and!; congruence.
Qed.
Lemma broker_keeps_insert b cid cl st : calls b !! cid = Some cl ->
  keeps_calls b (upd_calls (<[cid := {| cl_turn := cl_turn cl; cl_name := cl_name cl; cl_args := cl_args cl; cl_state := st |}]>) b).
Proof.
  intros Hc cid' cl' H. cbn. destruct (decide (cid' = cid)) as [->|Hne].
  - rewrite lookup_insert_eq. rewrite Hc in H. injection H as <-. by eexists.
  - rewrite lookup_insert_ne by done. by exists cl'.
Qed.

Lemma broker_keeps_reply b cid v : keeps_calls b (reply cid v b).
Proof.
  intros c cl H. unfold reply. cbn. destruct (calls b !! cid) as [[t n a [rid| |]]|] eqn:Hc; try (by exists cl).
  destruct (decide (c = cid)) as [->|Hne].
  - rewrite lookup_insert_eq. rewrite Hc in H. injection H as <-. by eexists.
  - rewrite lookup_insert_ne by done. by exists cl.
Qed.

Lemma broker_keeps_conclude b rid w j o : keeps_calls b (conclude rid w j o b).
Proof. unfold conclude. destruct o; (eapply broker_keeps_trans; [|apply broker_keeps_reply]); by apply broker_keeps_refl. Qed.

Lemma broker_keeps_decide b cid turn name args : keeps_calls b (decide_call cid turn name args b).
Proof.
  unfold decide_call. destruct (calls b !! cid) eqn:Hc; [by apply broker_keeps_refl|].
  assert (Hnew : forall cl b', calls b' = calls b -> keeps_calls b (upd_calls (<[cid := cl]>) b')).
  { intros cl b' Hb c cl0 H. cbn. rewrite Hb, lookup_insert_ne; [by exists cl0|]. intros ->. congruence. }
  repeat case_match; by apply Hnew.
Qed.

Lemma broker_keeps_step b o : keeps_calls b (step_broker b o).
Proof.
  destruct o as [c cs|rid t c|t|cid turn name args|cid e|rid sends|c id r e|rid t]; cbn.
  - by apply broker_keeps_refl.
  - unfold register. case_match; by apply broker_keeps_refl.
  - by apply broker_keeps_refl.
  - apply broker_keeps_decide.
  - unfold wake. destruct (calls b !! cid) as [cl|] eqn:Hc; [|by apply broker_keeps_refl].
    destruct (cl_state cl); [destruct e| |]; try (by apply broker_keeps_refl);
      (eapply broker_keeps_trans; [by eapply broker_keeps_insert|by apply broker_keeps_refl]).
  - unfold ask. repeat case_match; try (by apply broker_keeps_refl); try apply broker_keeps_conclude.
    eapply broker_keeps_trans; [|apply broker_keeps_conclude]. by apply broker_keeps_refl.
  - unfold hear. repeat case_match; by apply broker_keeps_refl.
  - unfold finish. repeat case_match; try (by apply broker_keeps_refl); try apply broker_keeps_conclude.
    eapply broker_keeps_trans; [|apply broker_keeps_conclude]. by apply broker_keeps_refl.
Qed.

Lemma broker_keeps_steps ops b : keeps_calls b (fold_left step_broker ops b).
Proof.
  revert b. induction ops as [|o ops IH]; intros b; [by apply broker_keeps_refl|]. cbn.
  eapply broker_keeps_trans; [apply broker_keeps_step|apply IH].
Qed.

Lemma decided_call (b : Broker (V := V)) cid turn name args : calls b !! cid = None ->
  exists cl, calls (decide_call cid turn name args b) !! cid = Some cl
  /\ cl_turn cl = turn /\ cl_name cl = name /\ cl_args cl = args.
Proof.
  intros Hc. unfold decide_call. rewrite Hc. repeat case_match; cbn; rewrite lookup_insert_eq; by eexists.
Qed.

(** The call [cid] is one about this invocation, it came back approved, and the client
    of the turn's connection was asked and said yes. *)
Definition approved_call (cid : nat) turn inv (b : Broker (V := V)) : Prop := exists cl,
  calls b !! cid = Some cl /\ cl_state cl = Returned true
  /\ cl_turn cl = turn /\ cl_name cl = ti_name inv /\ cl_args cl = ti_args inv /\ evidence b cl.
(** The number that the broker gives its next call. *)
Definition next_call (b : Broker (V := V)) : nat := fresh (dom (calls b)).

Lemma broker_callback_approved turn inv e e' : broker_reachable e.1 ->
  broker_callback turn inv e = (Some true, e') ->
  calls e.1 !! next_call e.1 = None /\ broker_reachable e'.1 /\ approved_call (next_call e.1) turn inv e'.1.
Proof.
  intros Hr Hcb. pose proof (broker_callback_reachable turn inv e Hr) as Hr'. rewrite Hcb in Hr'. cbn in Hr'.
  destruct e as [b plans]. cbn in Hcb, Hr |- *. unfold next_call. set (cid := fresh (dom (calls b))) in *.
  assert (Hn : calls b !! cid = None) by apply not_elem_of_dom, is_fresh. split; [done|]. split; [done|].
  destruct (decided_call b cid turn (ti_name inv) (ti_args inv) Hn) as (cl & Hcl & <- & Hname & Hargs).
  destruct (broker_keeps_steps (default [] (head plans)) _ cid cl Hcl) as (cl' & Hcl' & Ht & Hn' & Ha').
  injection Hcb as Hv <-. cbn in Hr' |- *. rewrite Hcl' in Hv. exists cl'.
  assert (cl_state cl' = Returned true) as Hst by (destruct cl' as [t n a [| |v]]; cbn in Hv |- *; congruence).
  split_and!; [done|done|done|congruence|congruence|].
  destruct Hr' as (ops & Hops). rewrite Hops in Hcl' |- *.
  apply (so_evidence _ (sound_run ops) cid cl' Hcl'). by rewrite Hst.
Qed.

(** C27. In [Ask] mode, when the body of a tool of a hosted turn starts and the tool
    mutates or reaches the cloud, the hook asked the broker in the environment in which
    the pipeline began: a new call was made, of this turn, this tool and these
    arguments, it came back approved before the hook's deadline, and the client whose
    connection submitted the turn was asked about it and said yes, whatever the other
    turns and clients did while it waited.  The environment that the call left is the
    one in which the body starts, when the plugins leave the broker alone.  The
    budget's hook leaves it alone, and the runner asks the hooks in order. *)
Theorem hosted_tool_approved now kernel_str dawo (budget : Hook V HostedEnv O)
    (starts : list (Hook V HostedEnv O) -> option string -> ToolInvocation (V := V) -> HookState HostedEnv -> option (HookState HostedEnv))
    roots plugins turn inv st st' :
  (forall hooks turn inv st st', starts hooks turn inv st = Some st' -> continues hooks turn inv st = Some st') ->
  (forall turn inv st, env (before budget turn inv st).2 = env st) ->
  broker_reachable (env st).1 -> requires_approval inv = true ->
  starts (wired now kernel_str dawo budget Sandbox.Ask roots broker_callback plugins) turn inv st = Some st' ->
  let cid := next_call (env st).1 in
  exists e', broker_callback turn inv (env st) = (Some true, e')
  /\ calls (env st).1 !! cid = None /\ broker_reachable e'.1 /\ approved_call cid turn inv e'.1
  /\ ((forall id h turn inv st, (id, h) ∈ plugins -> env (before h turn inv st).2 = env st) -> env st' = e').
Proof.
  intros Hstarts Hbudget Hr Hreq H%Hstarts cid. apply wired_prefix in H as (st1 & st2 & _ & Hb & _ & Ha & Hp).
  pose proof (Hbudget turn inv st) as He. rewrite Hb in He. cbn in He.
  rewrite bool_decide_true in Ha by done. apply ask_hook_allows in Ha as Hcb; [|done]. cbn [env set_start] in Hcb. rewrite He in Hcb.
  exists (env st2). destruct (broker_callback_approved turn inv (env st) _ Hr Hcb) as (? & ? & ?). split_and!; [done..|].
  intros Hplugins. by eapply plugins_keep_env.
Qed.
End hosted.

(** ** Pipelines that run *)

Section demo.
Definition plain_str (e : KernelError) : string :=
  match e with
  | ToolFailed m | InvalidArgument m | ToolNotFound m | ToolDispatchTerminated m | BudgetFailed m | OtherError m => m
  end.
Definition keep_after {E O} (f : ToolInvocation (V := jval) -> jval -> HookState E -> result unit KernelError * HookState E)
  inv out (_ : O) st := f inv out st.

(** A budget that is never spent, and a plugin's hook that always fails. *)
Definition no_budget {E O} : Hook jval E O :=
  {| before _ _ st := (Ok Proceed, st); after := quiet_after; after_with_outcome := keep_after quiet_after; on_error := quiet_error |}.
Definition glitchy {E O} : Hook jval E O :=
  {| before _ _ st := (Err (ToolFailed "exploded"), st); after := quiet_after;
     after_with_outcome := keep_after quiet_after; on_error := quiet_error |}.

Definition call_of (tool : string) (args : list (string * string)) : ToolInvocation (V := jval) :=
  {| ti_name := tool; ti_args := JObj (map (fun '(k, v) => (k, JStr v)) args) |}.

Definition calm (c : Sensitivity) : HookState N := {| cell := Some c; start_time := None; audit_log := []; env := 0%N |}.
Definition demo_hooks (mode : SandboxMode) (allow : bool) (plugins : list (string * Hook jval N unit)) : list (Hook jval N unit) :=
  wired (fun t => t) plain_str keep_after no_budget mode [] (fun _ _ t => (Some allow, t)) plugins.

Lemma tool_gated_witness : exists st',
  continues (demo_hooks Sandbox.Ask true []) None (call_of "fs.write" []) (calm Private) = Some st' /\
  confidential_session (calm Private) && is_cloud_tool "fs.write" = false.
Proof.
  eexists. split; [vm_compute; reflexivity|].
  refine (proj1 (tool_gated (V := jval) (O := unit) (fun t => t) plain_str keep_after no_budget (fun hs => continues hs)
    Sandbox.Ask [] (fun _ _ t => (Some true, t)) [] None (call_of "fs.write" []) (calm Private) _ _ _)).
  - by intros.
  - vm_compute. reflexivity.
Defined.

Lemma plugins_blind_to_confidential_witness :
  continues (demo_hooks WorkspaceWrite true [("glitchy"%string, glitchy)]) None (call_of "shell.exec" []) (calm Private)
  = continues (demo_hooks WorkspaceWrite true []) None (call_of "shell.exec" []) (calm Private)
  /\ continues (demo_hooks WorkspaceWrite true [("glitchy"%string, glitchy)]) None (call_of "fs.read" []) (calm Private) = None.
Proof.
  split; [|by vm_compute].
  by apply (plugins_blind_to_confidential (V := jval) (O := unit) (fun t => t) plain_str keep_after no_budget WorkspaceWrite []
    (fun _ _ t => (Some true, t)) [("glitchy"%string, glitchy)] None (call_of "shell.exec" []) (calm Private)).
Defined.

(** The client of turn [a] approves [fs.write]. *)
Definition asked_env : HostedEnv (V := jval) :=
  (run_broker [Connect 0 can_approve; Register 0 "a" 0]%string,
   [[Approval.Ask 0 true; Hear 0 "srv-1" (Some yes) None; Finish 0 false; Wake 0 false]%string]).
Definition asked_state : HookState (HostedEnv (V := jval)) :=
  {| cell := Some Private; start_time := None; audit_log := []; env := asked_env |}.

Lemma hosted_tool_approved_witness : exists st',
  continues (O := unit) (wired (fun _ => 0%N) plain_str keep_after no_budget Sandbox.Ask [] broker_callback []) (Some "a"%string) (call_of "fs.write" []) asked_state = Some st'
  /\ approved_call (next_call asked_env.1) (Some "a"%string) (call_of "fs.write" []) (env st').1.
Proof.
  eexists. split; [vm_compute; reflexivity|].
  edestruct (hosted_tool_approved (V := jval) (O := unit) (fun _ => 0%N) plain_str keep_after no_budget (fun hs => continues hs)
    [] [] (Some "a"%string) (call_of "fs.write" []) asked_state) as (e' & _ & _ & _ & Ha & He).
  - by intros.
  - done.
  - by eexists.
  - reflexivity.
  - vm_compute. reflexivity.
  - rewrite He; [exact Ha|]. by intros ? ? ? ? ? ?%elem_of_nil.
Defined.

(** The cell of the sensitivity is one for all sessions: a session that starts
    another turn opens the cloud to a confidential one that is running. *)
Theorem confidential_cell_overwritten :
  let confidential := set_sensitivity Confidential (calm Private) in
  let hooks := demo_hooks WorkspaceWrite true [] in
  let fetch := call_of "web.fetch" [("url", "https://example.com/?q=secret")]%string in
  continues hooks None fetch confidential = None
  /\ is_Some (continues hooks None fetch (set_sensitivity Private confidential)).
Proof. split; [by vm_compute|]. eexists. vm_compute. reflexivity. Qed.

(** Invocations of a round run side by side; the audit's clock is one slot, so
    the first to end has the time of the last to start, and the other none. *)
Lemma audit_duration_stolen :
  let audit : Hook jval N unit := ToolAuditHook (fun t => t) plain_str keep_after in
  let at_ t (st : HookState N) := set_env t st in
  let st1 := (before audit None (call_of "web.fetch" []) (at_ 0%N (calm Private))).2 in
  let st2 := (before audit None (call_of "fs.read" []) (at_ 900%N st1)).2 in
  let st3 := (after audit (call_of "web.fetch" []) JNull (at_ 1000%N st2)).2 in
  let st4 := (after audit (call_of "fs.read" []) JNull (at_ 1001%N st3)).2 in
  map (fun r => (ar_tool r, duration_ms r)) (audit_log st4) = [("web.fetch", Some 100%N); ("fs.read", None)]%string.
Proof. by vm_compute. Qed.

(** The seatbelt does not see the arguments of [fs.move] and [fs.copy]. *)
Lemma move_uninspected :
  let policy := wired_policy WorkspaceWrite [] in
  let fields k := [(k, ".zen/config.toml"); ("operation", "write")]%string in
  (exists reason, validate_invocation policy (call_of "fs.write" (fields "path"%string)) = Terminate reason)
  /\ validate_invocation policy (call_of "fs.move" (fields "source"%string)) = Continue
  /\ validate_invocation policy (call_of "fs.copy" (fields "destination"%string)) = Continue.
Proof. split; [eexists; vm_compute; reflexivity|by vm_compute]. Qed.
End demo.
