(* ===== verification/SessionParams.v ===== *)
(** * The parameters of hosted sessions

    Models the handlers of [session/*] in
    [crates/zen-gateway/src/server/hosting.rs] as they are called: decoding of
    parameters, the notes a turn brings, hydration of a session from its file,
    and the answers.  [Hosting] has the operations they end in. *)

From S2P Require Import Prelude Types Json Text Rpc Guards TurnEvents Hosting.
From stdpp Require Import gmap.
Local Open Scope list_scope.

Definition HYDRATION_MAX_TURNS : nat := 40.

(** [Value::as_f64], and the default relevance. *)
Class AsF64 (V F : Type) := { j_as_f64 : V -> option F; f_one : F }.

Record RetrievedNote (F : Type) := {
  note_path : string; note_content : string; note_sensitivity : Sensitivity; relevance : F;
}.
Arguments note_path {F}. Arguments note_content {F}. Arguments note_sensitivity {F}. Arguments relevance {F}.

(** The turns of a conversation. *)
Definition Conversation : Type := list (MessageRole * string).

(** A text between double quotes. *)
Definition quote (s : string) : string :=
  String (Ascii.ascii_of_N 34) (s ++ String (Ascii.ascii_of_N 34) EmptyString).

Section params.
Context {V F : Type} {HJson : Json V} {HParse : ParseJson V} {HF : AsF64 V F}.
Implicit Types (params : V).

Notation SessionContext := (SessionContext (RetrievedNote F) Conversation).
Notation Host := (Host V (RetrievedNote F) Conversation).
Notation label := (label (Note := RetrievedNote F) (C := Conversation)).

(** [to_lowercase] of a name in ASCII. *)
Definition parse_sensitivity (raw : string) : option Sensitivity :=
  let lowered := to_string (map ascii_lower (utf8 raw)) in
  if String.eqb lowered "public" then Some Public
  else if String.eqb lowered "private" then Some Private
  else if String.eqb lowered "confidential" then Some Confidential
  else None.

Definition require_str (method : string) params (key : string) : result string (RpcError V) :=
  match j_get params key ≫= j_as_str with
  | Some s => Ok s
  | None => Err (invalid_params method ("missing " ++ quote key))
  end.

Definition TURN : string := "session/turn".

Definition parse_note (item : V) : result (RetrievedNote F) (RpcError V) :=
  match j_get item "path" ≫= j_as_str with
  | None => Err (invalid_params TURN ("knowledge item missing " ++ quote "path"))
  | Some path =>
    match j_get item "content" ≫= j_as_str with
    | None => Err (invalid_params TURN ("knowledge item missing " ++ quote "content"))
    | Some content =>
      let note s := {| note_path := path; note_content := content; note_sensitivity := s;
                       relevance := default f_one (j_get item "relevance" ≫= j_as_f64) |} in
      match j_get item "sensitivity" ≫= j_as_str with
      | None => Ok (note Public)
      | Some raw =>
        match parse_sensitivity raw with
        | Some s => Ok (note s)
        | None => Err (invalid_params TURN ("unknown sensitivity " ++ quote raw ++ "; expected public|private|confidential"))
        end
      end
    end
  end.

Fixpoint parse_notes (items : list V) : result (list (RetrievedNote F)) (RpcError V) :=
  match items with
  | [] => Ok []
  | item :: rest => let? n := parse_note item in let? l := parse_notes rest in Ok (n :: l)
  end.

Definition parse_knowledge params : result (option (list (RetrievedNote F))) (RpcError V) :=
  match j_get params "knowledge" ≫= j_as_array with
  | None => Ok None
  | Some items => let? notes := parse_notes items in Ok (Some notes)
  end.

(** The head of [turn_with]: the call that is submitted, as thread [tid]. *)
Definition session_turn (tid : nat) (connection : bool) params : result label (RpcError V) :=
  let? turn_id := require_str TURN params "turnId" in
  let? session_id := require_str TURN params "sessionId" in
  let? prompt := require_str TURN params "prompt" in
  let? notes := parse_knowledge params in
  Ok (Submit tid turn_id session_id prompt notes connection).

(** The answer to a call that has returned. *)
Definition turn_answer (turn_id : string) (r : result string (RpcError V)) : result V (RpcError V) :=
  match r with
  | Ok response => Ok (j_obj [("turnId", j_str turn_id); ("response", j_str response)]%string)
  | Err e => Err e
  end.

Definition session_cancel params (w : Host) : result V (RpcError V) * Host :=
  match require_str "session/cancel" params "turnId" with
  | Err e => (Err e, w)
  | Ok turn_id => (Ok (j_obj [("outcome"%string, j_str "cancelled"%string)]), Hosting.cancel turn_id w)
  end.

Definition session_resume params (w : Host) : outcome (result V (RpcError V)) :=
  match require_str "session/resume" params "turnId" with
  | Err e => Done (Err e)
  | Ok turn_id =>
    match resume turn_id (default 0%N (j_get params "lastSeq" ≫= j_as_u64)) w with
    | Done a => Done (Ok (render_resume turn_id a))
    | Panic => Panic
    | OutOfFuel => OutOfFuel
    end
  end.

(** The context of a session adopted from its file: [load] reads the last
    turns, each a role and a text; a failure gives the empty context. *)
Definition hydrate_session (load : nat -> option (list (string * string))) : SessionContext :=
  {| agent_name := ""; knowledge := [];
     conversation :=
       match load HYDRATION_MAX_TURNS with
       | Some turns =>
         omap (fun '(role, content) =>
           match parse_role role with
           | Some User => Some (User, content)
           | Some Assistant => Some (Assistant, content)
           | _ => None
           end) turns
       | None => []
       end |}.

(** [minted]: the id for a session that names none. *)
Definition session_start params (minted : string) (load : string -> nat -> option (list (string * string))) (w : Host)
    : V * Host :=
  let session_id := default minted (j_get params "sessionId" ≫= j_as_str) in
  let w' := start session_id (j_get params "agent" ≫= j_as_str) (hydrate_session (load session_id)) w in
  let label := match sessions w' !! session_id with Some s => agent_label s | None => "auto"%string end in
  (j_obj [("sessionId", j_str session_id); ("agent", j_str label)]%string, w').

(** ** Properties *)

(** Notes are accepted all or none: a note for each item, in order. *)
Lemma parse_notes_all items notes : parse_notes items = Ok notes <-> Forall2 (fun i n => parse_note i = Ok n) items notes.
Proof.
  revert notes. induction items as [|i items IH]; intros notes; cbn.
  - split; [by intros [= <-]|]. by inversion 1.
  - destruct (parse_note i) as [n|e] eqn:Hi; cbn.
    + split.
      * destruct (parse_notes items) as [l|]; cbn; [|done]. intros [= <-]. constructor; [done|]. by apply IH.
      * intros (n' & l & Hn & Hl%IH & ->)%Forall2_cons_inv_l. rewrite Hi in Hn. injection Hn as ->. by rewrite Hl.
    + split; [done|]. intros (n' & l & Hn & _)%Forall2_cons_inv_l. congruence.
Qed.

(** A session that is in memory is never hydrated again. *)
Lemma start_keeps_live params minted load load' w :
  is_Some (sessions w !! default minted (j_get params "sessionId" ≫= j_as_str)) ->
  session_start params minted load w = session_start params minted load' w.
Proof. intros [s Hs]. unfold session_start, start. by rewrite Hs. Qed.

(** Cancelling a turn that is unknown or over changes nothing and succeeds. *)
Lemma cancel_advisory params w turn_id : require_str "session/cancel" params "turnId" = Ok turn_id ->
  (forall rid, turns w !! turn_id = Some rid -> live_record w rid = false) ->
  is_ok (session_cancel params w).1 = true /\ (session_cancel params w).2 = w.
Proof.
  intros Hr Hl. unfold session_cancel. rewrite Hr. split; [done|]. cbn. unfold Hosting.cancel.
  destruct (turns w !! turn_id) as [rid|] eqn:Ht; [|done]. by rewrite (Hl rid).
Qed.
End params.
