(* ===== verification/Network.v ===== *)
(** * Network egress

    Models [crates/zen-core/src/network_policy.rs] and its use by the tool
    [web.fetch] of [crates/zen-plugin/src/tools/web_fetch.rs]: redirects, capped
    bodies, the cut of the content.  The parser of URLs (the url crate) and
    [Display] of an IPv6 address are fields of a class; [to_lowercase] is that
    of ASCII. *)

From S2P Require Import Prelude Text Sandbox.
From Stdlib Require Import Lia.
Local Open Scope list_scope.
Local Open Scope N_scope.

(** ** Addresses *)

Record Ipv4Addr := { o1 : N; o2 : N; o3 : N; o4 : N }.
Definition Ipv6Addr : Type := list N.   (* eight segments of 16 bits *)

(** [url::Host]. *)
Inductive UrlHost := Domain (d : text) | Ipv4 (ip : Ipv4Addr) | Ipv6 (ip : Ipv6Addr).

(** [Url::parse] with [host], and the text of an IPv6 address. *)
Class Urls := { parse_url : text -> result (option UrlHost) string; v6_text : Ipv6Addr -> text }.

Definition v4_text (ip : Ipv4Addr) : text :=
  utf8 (pretty (o1 ip) ++ "." ++ pretty (o2 ip) ++ "." ++ pretty (o3 ip) ++ "." ++ pretty (o4 ip)).

Definition segment (ip : Ipv6Addr) (i : nat) : N := nth i ip 0.

(** The predicates of [std::net]. *)
Definition v4_loopback (ip : Ipv4Addr) : bool := o1 ip =? 127.
Definition v4_link_local (ip : Ipv4Addr) : bool := (o1 ip =? 169) && (o2 ip =? 254).
Definition v4_private (ip : Ipv4Addr) : bool :=
  (o1 ip =? 10) || ((o1 ip =? 172) && (16 <=? o2 ip) && (o2 ip <=? 31)) || ((o1 ip =? 192) && (o2 ip =? 168)).
Definition v4_unspecified (ip : Ipv4Addr) : bool := (o1 ip =? 0) && (o2 ip =? 0) && (o3 ip =? 0) && (o4 ip =? 0).
Definition v6_loopback (ip : Ipv6Addr) : bool := bool_decide (ip = [0; 0; 0; 0; 0; 0; 0; 1]).
Definition v6_unspecified (ip : Ipv6Addr) : bool := bool_decide (ip = [0; 0; 0; 0; 0; 0; 0; 0]).
Definition to_ipv4_mapped (ip : Ipv6Addr) : option Ipv4Addr :=
  match ip with
  | [0; 0; 0; 0; 0; 65535; ab; cd] =>
    Some {| o1 := N.shiftr ab 8; o2 := N.land ab 255; o3 := N.shiftr cd 8; o4 := N.land cd 255 |}
  | _ => None
  end.

Definition is_blocked_v4 (ip : Ipv4Addr) : bool :=
  v4_loopback ip || v4_link_local ip || v4_private ip || v4_unspecified ip || ((o1 ip =? 169) && (o2 ip =? 254)).

Definition is_blocked_v6 (ip : Ipv6Addr) : bool :=
  v6_loopback ip || v6_unspecified ip
  || match to_ipv4_mapped ip with Some v4 => is_blocked_v4 v4 | None => false end
  || (N.land (segment ip 0) 65472 =? 65152)       (* & 0xffc0 == 0xfe80 *)
  || (N.land (segment ip 0) 65024 =? 64512).      (* & 0xfe00 == 0xfc00 *)

(** ** The policy *)

Record NetworkPolicy := { allow_hosts : list text; allow_private_ranges : bool }.

Definition with_allow_hosts (hosts : list text) : NetworkPolicy :=
  {| allow_hosts := hosts; allow_private_ranges := false |}.
Definition default_policy : NetworkPolicy := with_allow_hosts [utf8 "localhost"; utf8 "127.0.0.1"].

Definition BLOCKED_HOSTS : list text := [utf8 "metadata.google.internal"; utf8 "metadata.goog"].

Definition entry_matches (lowered allowed : text) : bool :=
  match strip_prefix allowed (utf8 "*.") with
  | Some suffix => bool_decide (lowered = suffix) || ends_with lowered (utf8 "." ++ suffix)
  | None => bool_decide (lowered = lower allowed)
  end.
Definition host_allowed (p : NetworkPolicy) (host : text) : bool := existsb (entry_matches (lower host)) (allow_hosts p).

Inductive NetRefusal := InvalidUrl (e : string) | NoHost | MetadataEndpoint (d : text) | NonPublic (h : UrlHost).

Section urls.
Context `{Urls}.

Definition validate_url (p : NetworkPolicy) (url : text) : result unit NetRefusal :=
  match parse_url url with
  | Err e => Err (InvalidUrl e)
  | Ok None => Err NoHost
  | Ok (Some (Domain d)) =>
    if host_allowed p d then Ok tt
    else if negb (allow_private_ranges p) && bool_decide (lower d ∈ BLOCKED_HOSTS) then Err (MetadataEndpoint d)
    else Ok tt
  | Ok (Some (Ipv4 ip)) =>
    if host_allowed p (v4_text ip) then Ok tt
    else if negb (allow_private_ranges p) && is_blocked_v4 ip then Err (NonPublic (Ipv4 ip))
    else Ok tt
  | Ok (Some (Ipv6 ip)) =>
    if host_allowed p (v6_text ip) then Ok tt
    else if negb (allow_private_ranges p) && is_blocked_v6 ip then Err (NonPublic (Ipv6 ip))
    else Ok tt
  end.

(** ** [web.fetch]: redirects *)

Inductive RedirectDecision := TooMany | Refused (why : NetRefusal) | Follow.

(** [previous]: the URLs already requested. *)
Definition redirect_decision (p : NetworkPolicy) (previous : list text) (url : text) : RedirectDecision :=
  if (10 <? length previous)%nat then TooMany
  else match validate_url p url with Err why => Refused why | Ok _ => Follow end.

(** The requests of one fetch: the first is validated by the tool, the others
    are redirects the client asks about.  [redirects] is where the servers
    redirect to; the requests made are returned. *)
Fixpoint follow (p : NetworkPolicy) (requested redirects : list text) : list text :=
  match redirects with
  | [] => requested
  | url :: rest =>
    match redirect_decision p requested url with
    | Follow => follow p (requested ++ [url]) rest
    | _ => requested
    end
  end.
Definition fetch_requests (p : NetworkPolicy) (url : text) (redirects : list text) : list text :=
  match validate_url p url with Err _ => [] | Ok _ => follow p [url] redirects end.
End urls.

(** ** Bodies *)

(** [read_body_capped], on the chunks the response arrives in. *)
Fixpoint read_body_capped (max_bytes : nat) (bytes : list N) (chunks : list (list N)) : list N * bool :=
  match chunks with
  | [] => (bytes, false)
  | chunk :: rest =>
    if (max_bytes <? length bytes + length chunk)%nat
    then (bytes ++ take (max_bytes - length bytes) chunk, true)
    else read_body_capped max_bytes (bytes ++ chunk) rest
  end.

Definition TRUNCATION_MARKER : text := utf8 "...(truncated)".

(** The lines of the content that are returned. *)
Definition cap_lines (content : text) (max_lines : nat) (read_truncated : bool) : text * bool :=
  let ls := lines content in
  let cut := (max_lines <? length ls)%nat in
  let kept := if cut then match take max_lines ls with [] => [] | l :: rest => l ++ concat (map (cons 10) rest) end
              else content in
  let truncated := read_truncated || cut in
  (if truncated then kept ++ [10] ++ TRUNCATION_MARKER else kept, truncated).

Definition extract_title (html : text) : option text :=
  i ← find html (utf8 "<title>");
  let rest := drop (i + 7) html in
  j ← find rest (utf8 "</title>");
  let title := trim (take j rest) in
  if bool_decide (title = []) then None else Some title.

(** ** Properties *)

(** What a host must be to be asked without being on the list. *)
Definition public_v4 (ip : Ipv4Addr) : Prop :=
  ~ (o1 ip = 127 \/ o1 ip = 10 \/ (o1 ip = 172 /\ 16 <= o2 ip <= 31) \/ (o1 ip = 192 /\ o2 ip = 168)
     \/ (o1 ip = 169 /\ o2 ip = 254) \/ (o1 ip = 0 /\ o2 ip = 0 /\ o3 ip = 0 /\ o4 ip = 0)).

Lemma blocked_v4_exact ip : is_blocked_v4 ip = false <-> public_v4 ip.
Proof.
  unfold is_blocked_v4, v4_loopback, v4_link_local, v4_private, v4_unspecified, public_v4.
  rewrite !orb_false_iff, !andb_false_iff, !N.eqb_neq, !N.leb_gt. lia.
Qed.

(** A mask of the high bits is a range. *)
Lemma mask_range n k x : k <= n -> x < 2 ^ n -> forall v, N.land x (2 ^ n - 2 ^ k) = v * 2 ^ k <-> v * 2 ^ k <= x < (v + 1) * 2 ^ k.
Proof.
  intros Hk Hx v.
  assert (Hm : N.land x (2 ^ n - 2 ^ k) = x / 2 ^ k * 2 ^ k).
  { rewrite <- N.shiftr_div_pow2, <- N.shiftl_mul_pow2, <- N.ldiff_ones_r. apply N.bits_inj. intros i.
    rewrite N.land_spec, N.ldiff_spec.
    assert (Hd : 2 ^ n - 2 ^ k = N.shiftl (N.ones (n - k)) k).
    { rewrite N.shiftl_mul_pow2, N.ones_equiv, <- N.sub_1_r, N.mul_sub_distr_r, <- N.pow_add_r, N.mul_1_l. do 2 f_equal. lia. }
    rewrite Hd. destruct (N.lt_ge_cases i k).
    - by rewrite N.shiftl_spec_low, N.ones_spec_low by done.
    - rewrite N.shiftl_spec_high', (N.ones_spec_high k i) by done. cbn [negb].
      destruct (N.lt_ge_cases (i - k) (n - k)); [by rewrite N.ones_spec_low|].
      rewrite N.ones_spec_high by done. rewrite andb_false_r, andb_true_r. symmetry.
      destruct (N.eq_dec x 0) as [->|]; [apply N.bits_0|]. apply N.bits_above_log2.
      apply N.log2_lt_pow2; [lia|]. eapply N.lt_le_trans; [exact Hx|]. apply N.pow_le_mono_r; lia. }
  rewrite Hm. assert (Hp : 2 ^ k <> 0) by (apply N.pow_nonzero; lia). revert Hp. generalize (2 ^ k). clear. intros p Hp.
  pose proof (N.div_mod x p Hp) as Hd. pose proof (N.mod_lt x p Hp) as Hr. split.
  - intros Hv. apply N.mul_cancel_r in Hv; [|done]. subst v.
    revert Hd Hr. generalize (x / p) (x mod p). intros q r -> Hr. rewrite N.mul_add_distr_r. lia.
  - intros [H1 H2]. f_equal. symmetry. rewrite N.mul_add_distr_r in H2. apply N.div_unique with (r := x - v * p); lia.
Qed.

(** A public address of version 6: neither loopback nor unspecified, not an
    address of version 4 that is not public, not link-local (fe80::/10), not
    unique-local (fc00::/7). *)
Definition public_v6 (ip : Ipv6Addr) : Prop :=
  ip <> [0; 0; 0; 0; 0; 0; 0; 1] /\ ip <> [0; 0; 0; 0; 0; 0; 0; 0]
  /\ (forall v4, to_ipv4_mapped ip = Some v4 -> public_v4 v4)
  /\ ~ (65152 <= segment ip 0 <= 65215) /\ ~ (64512 <= segment ip 0 <= 65023).

Lemma blocked_v6_exact ip : segment ip 0 < 2 ^ 16 -> is_blocked_v6 ip = false <-> public_v6 ip.
Proof.
  intros Hs. unfold is_blocked_v6, public_v6, v6_loopback, v6_unspecified.
  pose proof (mask_range 16 6 (segment ip 0) ltac:(lia) Hs 1018) as H1.
  pose proof (mask_range 16 9 (segment ip 0) ltac:(lia) Hs 126) as H2.
  change (2 ^ 16 - 2 ^ 6) with 65472 in H1. change (2 ^ 16 - 2 ^ 9) with 65024 in H2. cbn in H1, H2.
  rewrite !orb_false_iff, !bool_decide_eq_false, !N.eqb_neq, H1, H2.
  assert (Hm : match to_ipv4_mapped ip with Some v4 => is_blocked_v4 v4 | None => false end = false
             <-> forall v4, to_ipv4_mapped ip = Some v4 -> public_v4 v4).
  { destruct (to_ipv4_mapped ip) as [v4|]; [|done]. rewrite blocked_v4_exact. split; [by intros ? ? [= <-]|]. intros H. by apply H. }
  rewrite Hm. split; [intros [[[[??]?]?]?]|intros (? & ? & ? & ? & ?)]; split_and!; try done; lia.
Qed.

Section policy.
Context `{Urls}.

Definition host_text (h : UrlHost) : text := match h with Domain d => d | Ipv4 ip => v4_text ip | Ipv6 ip => v6_text ip end.
Definition public_host (h : UrlHost) : Prop :=
  match h with Domain d => lower d ∉ BLOCKED_HOSTS | Ipv4 ip => public_v4 ip | Ipv6 ip => public_v6 ip end.
Definition well_formed_host (h : UrlHost) : Prop := match h with Ipv6 ip => segment ip 0 < 2 ^ 16 | _ => True end.

(** C23. An URL is accepted just when it has a host that is on the allow-list or,
    unless private ranges are allowed, public. *)
Theorem validate_url_exact p url : (forall h, parse_url url = Ok (Some h) -> well_formed_host h) ->
  validate_url p url = Ok tt <-> exists h, parse_url url = Ok (Some h)
    /\ (host_allowed p (host_text h) = true \/ allow_private_ranges p = true \/ public_host h).
Proof.
  intros Hwf. unfold validate_url. destruct (parse_url url) as [[h|]|e] eqn:Hp; [|by split; [|intros (? & [=] & _)]..].
  assert (Hone : forall P, (exists h', @Ok (option UrlHost) string (Some h) = Ok (Some h') /\ P h') <-> P h).
  { intros P. split; [by intros (h' & [= <-] & ?)|]. intros. by exists h. }
  rewrite Hone. clear Hone. specialize (Hwf h eq_refl). destruct h as [d|ip|ip]; cbn.
  - destruct (host_allowed p d); [naive_solver|]. destruct (allow_private_ranges p); cbn; [naive_solver|].
    case_bool_decide; naive_solver.
  - rewrite <- blocked_v4_exact. destruct (host_allowed p _); [naive_solver|]. destruct (allow_private_ranges p), (is_blocked_v4 ip); naive_solver.
  - rewrite <- blocked_v6_exact by done. destruct (host_allowed p _); [naive_solver|]. destruct (allow_private_ranges p), (is_blocked_v6 ip); naive_solver.
Qed.

(** Every URL a fetch requests passed the policy, redirects included, and there
    are at most eleven. *)
Lemma follow_policed p redirects : forall requested, Forall (fun u => validate_url p u = Ok tt) requested -> (length requested <= 11)%nat ->
  Forall (fun u => validate_url p u = Ok tt) (follow p requested redirects) /\ (length (follow p requested redirects) <= 11)%nat.
Proof.
  induction redirects as [|url rest IH]; intros requested Hf Hl; [done|]. cbn. unfold redirect_decision.
  destruct (Nat.ltb_spec 10 (length requested)); [done|]. destruct (validate_url p url) as [[]|] eqn:Hv; [|done].
  apply IH; [|rewrite length_app; cbn; lia]. apply Forall_app. by repeat constructor.
Qed.

Theorem fetch_policed p url redirects :
  Forall (fun u => validate_url p u = Ok tt) (fetch_requests p url redirects) /\ (length (fetch_requests p url redirects) <= 11)%nat.
Proof.
  unfold fetch_requests. destruct (validate_url p url) as [[]|] eqn:Hv; [|split; [constructor|cbn; lia]].
  apply follow_policed; [by repeat constructor|cbn; lia].
Qed.
End policy.

(** The body of a response is cut exactly at the cap, and says so. *)
Theorem body_capped max_bytes chunks :
  let '(body, truncated) := read_body_capped max_bytes [] chunks in
  body = take max_bytes (concat chunks) /\ truncated = (max_bytes <? length (concat chunks))%nat.
Proof.
  enough (Hgo : forall bytes, (length bytes <= max_bytes)%nat ->
    let '(body, truncated) := read_body_capped max_bytes bytes chunks in
    body = take max_bytes (bytes ++ concat chunks) /\ truncated = (max_bytes <? length (bytes ++ concat chunks))%nat)
    by (apply (Hgo []); cbn; lia).
  induction chunks as [|c chunks IH]; intros bytes Hl; cbn [read_body_capped concat].
  - rewrite app_nil_r, take_ge by done. split; [done|]. symmetry. by apply Nat.ltb_ge.
  - destruct (Nat.ltb_spec max_bytes (length bytes + length c)).
    + rewrite (app_assoc bytes c). split.
      * rewrite take_app_le by (rewrite length_app; lia). by rewrite take_app_ge.
      * symmetry. apply Nat.ltb_lt. rewrite !length_app. lia.
    + specialize (IH (bytes ++ c)). rewrite <- app_assoc in IH. apply IH. rewrite length_app. lia.
Qed.

(** ** Wildcards *)

Lemma ends_with_spec t p : ends_with t p = true <-> exists u, t = u ++ p.
Proof.
  unfold ends_with. rewrite starts_with_spec. split.
  - intros (v & Hv). exists (rev v). rewrite <- (rev_involutive t), Hv, rev_app_distr. by rewrite rev_involutive.
  - intros (u & ->). exists (rev u). by rewrite rev_app_distr.
Qed.

(** A wildcard matches the domain itself and what ends in a dot and the domain,
    and nothing else: no sibling domain. *)
Lemma wildcard_exact lowered suffix :
  entry_matches lowered (utf8 "*." ++ suffix) = true <-> lowered = suffix \/ exists u, lowered = u ++ utf8 "." ++ suffix.
Proof.
  unfold entry_matches, strip_prefix. rewrite starts_with_app, drop_app_length.
  by rewrite orb_true_iff, bool_decide_eq_true, ends_with_spec.
Qed.

(** The suffix of a wildcard is not lowered, as the host and the other entries
    are: a wildcard with a capital letter matches nothing. *)
Lemma wildcard_case :
  host_allowed (with_allow_hosts [utf8 "Example.com"]) (utf8 "example.com") = true
  /\ host_allowed (with_allow_hosts [utf8 "*.Example.com"]) (utf8 "api.Example.com") = false.
Proof. by vm_compute. Qed.

Section demo.
(** A parser that takes a text for a domain, and one address. *)
#[local] Instance demo_urls : Urls := {|
  parse_url t := if bool_decide (t = utf8 "http://10.0.0.1/") then Ok (Some (Ipv4 {| o1 := 10; o2 := 0; o3 := 0; o4 := 1 |}))
                 else Ok (Some (Domain t));
  v6_text _ := [] |}.

(** A name with its root dot is not on the list of metadata endpoints. *)
Lemma rooted_metadata_accepted :
  validate_url default_policy (utf8 "metadata.google.internal") = Err (MetadataEndpoint (utf8 "metadata.google.internal"))
  /\ validate_url default_policy (utf8 "metadata.google.internal.") = Ok tt.
Proof. by vm_compute. Qed.

Lemma validate_url_exact_witness : validate_url default_policy (utf8 "http://10.0.0.1/") <> Ok tt.
Proof.
  intros Hv. apply (validate_url_exact default_policy (utf8 "http://10.0.0.1/")) in Hv as (h & Hh & Hp).
  - injection Hh as <-. destruct Hp as [Hp|[Hp|Hp]]; [done|done|]. apply Hp. right. by left.
  - intros h [= <-]. done.
Defined.
End demo.
