(* ===== verification/WebSearch.v ===== *)
(** * Web search

    Models [crates/zen-plugin/src/tools/web_search.rs] and
    [crates/zen-plugin/src/retry.rs]: the encoding of queries, redirect targets,
    the results kept of a reply, retries within a deadline, and the choice of
    the backend.  Queries are strings of bytes; what a backend replies, and how
    long it takes, is a parameter.  Times are milliseconds. *)

From S2P Require Import Prelude Json Text.
From Stdlib Require Import Lia.
Local Open Scope list_scope.
Local Open Scope N_scope.

Definition DEFAULT_MAX_RESULTS : Z := 5.
Definition MAX_RESULTS_LIMIT : Z := 50.
(** [clamp(1, MAX_RESULTS_LIMIT)] of the argument. *)
Definition max_of_arg (arg : option Z) : nat :=
  Z.to_nat (Z.min (Z.max (default DEFAULT_MAX_RESULTS arg) 1) MAX_RESULTS_LIMIT).

(** ** Queries *)

Definition unreserved (b : N) : bool :=
  ((65 <=? b) && (b <=? 90)) || ((97 <=? b) && (b <=? 122)) || ((48 <=? b) && (b <=? 57))
  || (b =? 45) || (b =? 95) || (b =? 46) || (b =? 126).

Definition hex_digit (n : N) : N := if n <? 10 then 48 + n else 55 + n.

Definition encode_byte (b : N) : list N :=
  if unreserved b then [b] else if b =? 32 then [43] else [37; hex_digit (b / 16); hex_digit (b mod 16)].
Definition url_encode (s : list N) : list N := concat (map encode_byte s).

Definition hex_value (b : N) : option N :=
  if (48 <=? b) && (b <=? 57) then Some (b - 48)
  else if (65 <=? b) && (b <=? 70) then Some (b - 55)
  else if (97 <=? b) && (b <=? 102) then Some (b - 87)
  else None.

(** [u8::from_str_radix] of two bytes, which takes a sign. *)
Definition hex_pair (a b : N) : option N :=
  match hex_value a, hex_value b with
  | Some x, Some y => Some (16 * x + y)
  | None, Some y => if a =? 43 then Some y else None
  | _, _ => None
  end.

Fixpoint percent_bytes (s : list N) : list N :=
  match s with
  | [] => []
  | b :: rest =>
    if b =? 37 then
      match rest with
      | x :: y :: rest' => match hex_pair x y with Some v => v :: percent_bytes rest' | None => b :: percent_bytes rest end
      | _ => b :: percent_bytes rest
      end
    else if b =? 43 then 32 :: percent_bytes rest
    else b :: percent_bytes rest
  end.

(** [String::from_utf8] accepts these bytes. *)
Definition cont (b : N) : bool := (128 <=? b) && (b <=? 191).
Definition between (lo hi b : N) : bool := (lo <=? b) && (b <=? hi).
Fixpoint utf8_valid (s : list N) : bool :=
  match s with
  | [] => true
  | b :: rest =>
    if b <? 128 then utf8_valid rest
    else match rest with
    | [] => false
    | b1 :: rest1 =>
      if between 194 223 b then cont b1 && utf8_valid rest1
      else match rest1 with
      | [] => false
      | b2 :: rest2 =>
        if b =? 224 then between 160 191 b1 && cont b2 && utf8_valid rest2
        else if b =? 237 then between 128 159 b1 && cont b2 && utf8_valid rest2
        else if between 225 239 b then cont b1 && cont b2 && utf8_valid rest2
        else match rest2 with
        | [] => false
        | b3 :: rest3 =>
          (if b =? 240 then between 144 191 b1 else if b =? 244 then between 128 143 b1
           else between 241 243 b && cont b1) && cont b2 && cont b3 && utf8_valid rest3
        end
      end
    end
  end.

Definition percent_decode (s : list N) : list N :=
  let out := percent_bytes s in if utf8_valid out then out else s.

(** The target of a redirect of DuckDuckGo. *)
Definition extract_uddg (href : list N) : option (list N) :=
  idx ← find href (utf8 "uddg=");
  let encoded := take_while (fun c => negb (c =? 38)) (drop (idx + 5) href) in
  if bool_decide (encoded = []) then None else Some (percent_decode encoded).

Definition parse_retry_after (value : option text) : N := default 60 (value ≫= parse_unsigned 64).

(** ** Retries *)

Definition BACKOFF_SECS : list N := [1; 2; 4].

Inductive ProviderError := Retryable (m : string) | Fatal (m : string).
Definition retryable (e : ProviderError) : bool := match e with Retryable _ => true | Fatal _ => false end.
Definition into_message (e : ProviderError) : string := match e with Retryable m | Fatal m => m end.

Section retry.
Context {T X : Type} (can : X -> bool).
(** What each attempt takes and gives. *)
Context (call : nat -> N * result T X).

(** From attempt [attempt], [left] of them left; the answer and the time it
    comes.  Without an attempt the loop falls to [unreachable!]. *)
Fixpoint retry_go (left attempt : nat) (elapsed : N) : outcome (result T X * N) :=
  match left with
  | O => Panic
  | S left' =>
    let '(d, r) := call attempt in
    match r with
    | Ok v => Done (Ok v, elapsed + d)
    | Err e =>
      if (0 <? left')%nat && can e
      then retry_go left' (S attempt) (elapsed + d + 1000 * nth (Nat.min attempt (length BACKOFF_SECS - 1)) BACKOFF_SECS 0)
      else Done (Err e, elapsed + d)
    end
  end.
Definition retry_with_backoff (max_attempts : nat) : outcome (result T X * N) := retry_go max_attempts 0 0.

(** [tokio::time::timeout]: [None] when the deadline comes first. *)
Definition within (budget : N) (o : outcome (result T X * N)) : outcome (option (result T X)) :=
  match o with
  | Done (r, t) => Done (if t <=? budget then Some r else None)
  | Panic => Panic
  | OutOfFuel => OutOfFuel
  end.
End retry.

(** ** Results *)

Section search.
Context {V : Type} {HJson : Json V}.

Record SearchResult := { sr_title : string; sr_url : string; sr_snippet : string }.
Record SearchOutcome := { results : list SearchResult; dropped : nat }.

(** The items of a reply of Brave or Tavily, [snippet_key] naming the snippet. *)
Definition keep_item (snippet_key : string) (o : SearchOutcome) (item : V) : SearchOutcome :=
  match j_get item "title" ≫= j_as_str, j_get item "url" ≫= j_as_str with
  | Some title, Some url =>
    {| results := results o ++ [{| sr_title := title; sr_url := url;
                                   sr_snippet := default ""%string (j_get item snippet_key ≫= j_as_str) |}];
       dropped := dropped o |}
  | _, _ => {| results := results o; dropped := S (dropped o) |}
  end.
Definition parse_items (snippet_key : string) (max : nat) (items : option (list V)) : SearchOutcome :=
  fold_left (keep_item snippet_key) (take max (default [] items)) {| results := []; dropped := 0 |}.
Definition parse_brave (max : nat) (body : V) : SearchOutcome :=
  parse_items "description" max (j_get body "web" ≫= fun w => j_get w "results" ≫= j_as_array).
Definition parse_tavily (max : nat) (body : V) : SearchOutcome :=
  parse_items "content" max (j_get body "results" ≫= j_as_array).

(** ** Backends *)

Inductive Backend := Brave | Tavily | DuckDuckGo.
Definition backend_name (b : Backend) : string :=
  match b with Brave => "brave" | Tavily => "tavily" | DuckDuckGo => "duckduckgo" end.

(** What each attempt at a backend takes and gives. *)
Context (replies : Backend -> nat -> N * result SearchOutcome ProviderError) (budget : N).

Definition timeout_reason : string := "timeout after " ++ pretty (budget / 1000) ++ "s".

(** The whole chain of retries of a backend, within the budget. *)
Definition ask_backend (b : Backend) : outcome (result SearchOutcome string) :=
  let! r := within budget (retry_with_backoff retryable (replies b) 3) in
  Done match r with
       | Some (Ok o) => Ok o
       | Some (Err e) => Err (into_message e)
       | None => Err timeout_reason
       end.

(** A key of the configuration, else of the environment. *)
Definition api_key (configured env : option string) : option string :=
  match configured with
  | Some k => if bool_decide (k = ""%string) then env else Some k
  | None => env
  end.

Record SearchFailure := { attempts : list (Backend * string) }.
Inductive SearchError := NoKey (b : Backend) | AllFailed (f : SearchFailure).

(** [contacted]: the backends the query was sent to, in order. *)
Record SearchRun := { sr_answer : result (SearchOutcome * Backend) SearchError; contacted : list Backend }.

(** The backends one after the other, until one answers. *)
Fixpoint try_backends (l : list Backend) (failed : list (Backend * string)) (asked : list Backend) : outcome SearchRun :=
  match l with
  | [] => Done {| sr_answer := Err (AllFailed {| attempts := failed |}); contacted := asked |}
  | b :: rest =>
    let! r := ask_backend b in
    match r with
    | Ok o => Done {| sr_answer := Ok (o, b); contacted := asked ++ [b] |}
    | Err m => try_backends rest (failed ++ [(b, m)]) (asked ++ [b])
    end
  end.

Definition web_search (override : string) (brave_key tavily_key : option string) : outcome SearchRun :=
  let only b (key : option string) :=
    match key with
    | None => Done {| sr_answer := Err (NoKey b); contacted := [] |}
    | Some _ => try_backends [b] [] []
    end in
  if String.eqb override "brave" then only Brave brave_key
  else if String.eqb override "tavily" then only Tavily tavily_key
  else
    let keyed b (key : option string) := match key with Some _ => [b] | None => [] end in
    try_backends (keyed Brave brave_key ++ keyed Tavily tavily_key ++ [DuckDuckGo]) [] [].
End search.

(** ** Queries decode to themselves *)

Lemma hex_pair_digit b : b < 256 -> hex_pair (hex_digit (b / 16)) (hex_digit (b mod 16)) = Some b.
Proof.
  intros Hb. unfold hex_pair.
  assert (Hd : forall n, n < 16 -> hex_value (hex_digit n) = Some n).
  { intros n Hn. unfold hex_digit, hex_value. destruct (N.ltb_spec n 10).
    - destruct (N.leb_spec 48 (48 + n)), (N.leb_spec (48 + n) 57); cbn; try lia. f_equal. lia.
    - destruct (N.leb_spec 48 (55 + n)), (N.leb_spec (55 + n) 57); cbn; try lia.
      destruct (N.leb_spec 65 (55 + n)), (N.leb_spec (55 + n) 70); cbn; try lia. f_equal. lia. }
  rewrite !Hd by (try apply N.mod_lt; try apply N.Div0.div_lt_upper_bound; lia). f_equal. pose proof (N.div_mod b 16). lia.
Qed.

Lemma percent_bytes_app b s : b < 256 -> percent_bytes (encode_byte b ++ s) = b :: percent_bytes s.
Proof.
  intros Hb. unfold encode_byte. destruct (unreserved b) eqn:Hu.
  - assert (b <> 37 /\ b <> 43) as [??] by (split; intros ->; done). cbn.
    destruct (N.eqb_spec b 37); [done|]. by destruct (N.eqb_spec b 43).
  - destruct (N.eqb_spec b 32) as [->|]; [done|]. cbn [app percent_bytes]. cbn [N.eqb Pos.eqb]. by rewrite hex_pair_digit.
Qed.

Lemma percent_bytes_encode s : Forall (fun b => b < 256) s -> percent_bytes (url_encode s) = s.
Proof. induction 1 as [|b s Hb _ IH]; [done|]. unfold url_encode in *. cbn. by rewrite percent_bytes_app, IH. Qed.

(** Decoding what was encoded gives it back, for every string. *)
Theorem url_roundtrip s : Forall (fun b => b < 256) s -> utf8_valid s = true -> percent_decode (url_encode s) = s.
Proof. intros Hb Hv. unfold percent_decode. by rewrite percent_bytes_encode, Hv. Qed.

Lemma url_roundtrip_witness : percent_decode (url_encode [97; 32; 43; 37; 195; 169]) = [97; 32; 43; 37; 195; 169].
Proof. apply url_roundtrip; [repeat constructor|reflexivity]. Defined.

(** A sign is taken for a digit. *)
Lemma percent_sign_accepted : percent_bytes (utf8 "%+4") = [4].
Proof. done. Qed.

(** ** Retries stop *)

(** A chain of retries always returns: the answer of the first attempt that
    succeeds, or fails for good, or is the last one. *)
Theorem retry_exact {T X} (can : X -> bool) (call : nat -> N * result T X) max : (0 < max)%nat ->
  exists n t, retry_with_backoff can call max = Done ((call n).2, t) /\ (n < max)%nat
  /\ (forall k, (k < n)%nat -> exists e, (call k).2 = Err e /\ can e = true)
  /\ (S n = max \/ match (call n).2 with Ok _ => True | Err e => can e = false end).
Proof.
  unfold retry_with_backoff. intros Hmax.
  enough (Hgo : forall left a t, (0 < left)%nat -> exists n t', retry_go can call left a t = Done ((call n).2, t')
    /\ (a <= n < a + left)%nat /\ (forall k, (a <= k < n)%nat -> exists e, (call k).2 = Err e /\ can e = true)
    /\ (S n = a + left \/ match (call n).2 with Ok _ => True | Err e => can e = false end)%nat).
  { destruct (Hgo max 0%nat 0 Hmax) as (n & t & Hr & Hn & Hk & Hs). exists n, t. split_and!; [done|lia| |].
    - intros k Hkn. apply Hk. lia.
    - by destruct Hs; [left; lia|right]. }
  clear. induction left as [|left IH]; intros a t Hl; [lia|]. cbn [retry_go]. destruct (call a) as [d r] eqn:Hc.
  assert (Hr : (call a).2 = r) by by rewrite Hc. destruct r as [v|e].
  - exists a, (t + d). rewrite Hr. split_and!; [done|lia..| |by right]. intros k ?. lia.
  - destruct (Nat.ltb_spec 0 left); cbn [andb]; [destruct (can e) eqn:He|].
    + destruct (IH (S a) (t + d + 1000 * nth (Nat.min a (length BACKOFF_SECS - 1)) BACKOFF_SECS 0)) as (n & t' & Hg & Hn & Hk & Hs); [done|].
      exists n, t'. split_and!; [exact Hg|lia..| |by destruct Hs; [left; lia|right]]. intros k Hkn.
      destruct (decide (k = a)) as [->|]; [by exists e|]. apply Hk. lia.
    + exists a, (t + d). rewrite Hr. split_and!; [done|lia..| |by right]. intros k ?. lia.
    + exists a, (t + d). rewrite Hr. split_and!; [done|lia..| |left; lia]. intros k ?. lia.
Qed.

(** Rate limited once, then an answer. *)
Lemma retry_exact_witness : exists n t,
  retry_with_backoff retryable (fun k => (10, if (k =? 0)%nat then Err (Retryable "429") else Ok k)) 3
  = Done (if (n =? 0)%nat then Err (Retryable "429") else Ok n, t) /\ (n < 3)%nat.
Proof.
  destruct (retry_exact retryable (fun k => (10, if (k =? 0)%nat then Err (Retryable "429") else Ok k)) 3)
    as (n & t & Hr & Hn & _); [lia|]. by exists n, t.
Defined.

Section choice.
Context (replies : Backend -> nat -> N * result SearchOutcome ProviderError) (budget : N).

Lemma ask_backend_total b : exists r, ask_backend replies budget b = Done r.
Proof.
  unfold ask_backend. destruct (retry_exact retryable (replies b) 3) as (n & t & -> & _); [lia|]. cbn. eauto.
Qed.

(** The query goes to the backends in order, to none after one that answers; the
    answer is the last asked one's, and a failure names every one and why. *)
Theorem backends_in_order l : exists run, try_backends replies budget l [] [] = Done run /\
  contacted run `prefix_of` l /\
  match sr_answer run with
  | Ok (o, b) => exists before, contacted run = before ++ [b] /\ ask_backend replies budget b = Done (Ok o)
      /\ Forall (fun b' => exists m, ask_backend replies budget b' = Done (Err m)) before
  | Err (AllFailed f) => contacted run = l /\ Forall2 (fun b a => a.1 = b /\ ask_backend replies budget b = Done (Err a.2)) l (attempts f)
  | Err (NoKey _) => False
  end.
Proof.
  enough (Hgo : forall failed asked, Forall2 (fun b a => a.1 = b /\ ask_backend replies budget b = Done (Err a.2)) asked failed ->
    exists run, try_backends replies budget l failed asked = Done run /\ contacted run `prefix_of` asked ++ l /\
    match sr_answer run with
    | Ok (o, b) => exists before, contacted run = before ++ [b] /\ ask_backend replies budget b = Done (Ok o)
        /\ Forall (fun b' => exists m, ask_backend replies budget b' = Done (Err m)) before
    | Err (AllFailed f) => contacted run = asked ++ l
        /\ Forall2 (fun b a => a.1 = b /\ ask_backend replies budget b = Done (Err a.2)) (asked ++ l) (attempts f)
    | Err (NoKey _) => False
    end) by (apply (Hgo [] []); constructor).
  induction l as [|b l IH]; intros failed asked Hf; cbn.
  - eexists. split; [done|]. cbn. rewrite app_nil_r. done.
  - destruct (ask_backend_total b) as [[o|m] Hb]; rewrite Hb; cbn.
    + eexists. split; [done|]. cbn. split; [by exists l; rewrite <- app_assoc|]. exists asked. split_and!; [done..|].
      clear -Hf. induction Hf as [|b' a asked failed [_ Ha] _ IH]; constructor; [eauto|done].
    + destruct (IH (failed ++ [(b, m)]) (asked ++ [b])) as (run & Hr & Hrun).
      { apply Forall2_app; [done|]. by repeat constructor. }
      exists run. split; [done|]. by rewrite <- app_assoc in Hrun.
Qed.
End choice.
