(* ===== verification/ToolText.v ===== *)
(** * The texts of a turn

    Models the pure text handling of [crates/zen-agents/src/orchestrator.rs]:
    fenced tool blocks, the bounded history of tool results, the notices put on
    an answer, the fingerprint of a note and the detection of corrections.
    Texts are lists of code points; lengths in bytes are [str_len]. *)

From S2P Require Import Prelude Types Json Text Sandbox TaskRegistry ToolHooks.
From Stdlib Require Import Lia.
Local Open Scope list_scope.

(** ** The history of tool results *)

Definition TOOL_RESULTS_HISTORY_CAP_CHARS : nat := 16000.

Definition total_bytes (history : list text) : nat := sum_list_with str_len history.

(** The loop that drops the oldest rounds, but never the last. *)
Fixpoint drop_oldest (total : nat) (history : list text) : nat * list text :=
  match history with
  | removed :: ((_ :: _) as rest) =>
    if (TOOL_RESULTS_HISTORY_CAP_CHARS <? total)%nat then drop_oldest (total - str_len removed) rest
    else (total, history)
  | _ => (total, history)
  end.

(** [t[cut..]], with [cut] advanced to the next boundary of a character. *)
Fixpoint drop_bytes (cut : nat) (t : text) : text :=
  match t with
  | [] => []
  | c :: rest => match cut with O => t | S _ => drop_bytes (cut - len_utf8 c) rest end
  end.

Definition cut_newest (total : nat) (newest : text) : text :=
  if (TOOL_RESULTS_HISTORY_CAP_CHARS <? total)%nat
  then drop_bytes (str_len newest - TOOL_RESULTS_HISTORY_CAP_CHARS) newest else newest.

Definition push_tool_results_history (history : list text) (round : text) : list text :=
  let h := history ++ [round] in
  let '(total, kept) := drop_oldest (total_bytes h) h in
  match last kept with
  | Some newest => removelast kept ++ [cut_newest total newest]
  | None => kept
  end.

Definition join_with (sep : text) (l : list text) : text :=
  match l with [] => [] | t :: rest => t ++ concat (map (app sep) rest) end.
Definition join_tool_results_history (history : list text) : text := join_with (utf8 (nl ++ "---" ++ nl)) history.

(** ** Fenced blocks *)

Definition FENCE : text := utf8 "```json".
Definition CLOSE : text := utf8 "```".

(** Where the next block opens: the text before it, and the block with the text
    after it, [None] when it is never closed. *)
Definition next_fence (t : text) : option (text * option (text * text)) :=
  start ← find t FENCE;
  let after_open := drop (start + length FENCE) t in
  Some (take start t,
        match find after_open CLOSE with
        | Some close => Some (take close after_open, drop (close + length CLOSE) after_open)
        | None => None
        end).

(** One unit of fuel per character and one more; see [next_fence_shorter]. *)
Fixpoint strip_go (fuel : nat) (out rest : text) : outcome text :=
  match fuel with
  | O => OutOfFuel
  | S f =>
    match next_fence rest with
    | None => Done (trim (out ++ rest))
    | Some (before, None) => Done (out ++ before)
    | Some (before, Some (_, rest')) => strip_go f (out ++ before) rest'
    end
  end.
Definition strip_fenced_tool_blocks (t : text) : outcome text := strip_go (S (length t)) [] t.

Definition preview (block : text) : text :=
  if (200 <? length block)%nat then take 200 block ++ utf8 "…" else block.

Section blocks.
Context {V : Type} {HJson : Json V}.
(** [serde_json::from_str], and [ToolInvocation::new] with its normalizer. *)
Context (j_parse : text -> result V text) (normalize : string -> V -> result (ToolInvocation (V := V)) text).

Definition missing_error (block : text) : text :=
  utf8 "fenced tool block missing " ++ quoted (utf8 "tool") ++ utf8 "/" ++ quoted (utf8 "args") ++ utf8 ": " ++ preview block.

(** One item of a block. *)
Definition parse_item (block : text) (acc : list (ToolInvocation (V := V)) * list text) (item : V)
    : list (ToolInvocation (V := V)) * list text :=
  let '(invocations, errors) := acc in
  match j_get item "tool" ≫= j_as_str, j_get item "args" with
  | Some name, Some args =>
    match normalize name args with
    | Ok inv => (invocations ++ [inv], errors)
    | Err e => (invocations, errors ++ [utf8 "tool call rejected by normalizer (" ++ utf8 name ++ utf8 "): " ++ e])
    end
  | _, _ => (invocations, errors ++ [missing_error block])
  end.

Definition parse_block (acc : list (ToolInvocation (V := V)) * list text) (block : text)
    : list (ToolInvocation (V := V)) * list text :=
  let '(invocations, errors) := acc in
  match j_parse block with
  | Err e => (invocations, errors ++ [utf8 "fenced tool block is not valid JSON (" ++ e ++ utf8 "): " ++ preview block])
  | Ok v =>
    match j_as_array v with
    | Some items => fold_left (parse_item block) items acc
    | None =>
      match j_as_object v with
      | Some _ => parse_item block acc v
      | None => (invocations, errors ++ [utf8 "fenced tool block is not an object/array: " ++ preview block])
      end
    end
  end.

Fixpoint parse_go (fuel : nat) (acc : list (ToolInvocation (V := V)) * list text) (rest : text)
    : outcome (list (ToolInvocation (V := V)) * list text) :=
  match fuel with
  | O => OutOfFuel
  | S f =>
    match next_fence rest with
    | None => Done acc
    | Some (_, None) => Done (acc.1, acc.2 ++ [utf8 "unclosed ```json block (no closing fence)"])
    | Some (_, Some (block, rest')) => parse_go f (parse_block acc block) rest'
    end
  end.
Definition parse_tool_invocations_verbose (response : text) : outcome (list (ToolInvocation (V := V)) * list text) :=
  parse_go (S (length response)) ([], []) response.

(** A tool call of the provider. *)
Record NativeToolCall := { nc_id : string; nc_name : string; nc_args : V }.

Definition native_error (name : string) (e : text) : text :=
  utf8 "native tool call rejected (" ++ utf8 name ++ utf8 "): " ++ e.

Definition resolve_native (acc : list (ToolInvocation (V := V)) * list text) (call : NativeToolCall)
    : list (ToolInvocation (V := V)) * list text :=
  match normalize (nc_name call) (nc_args call) with
  | Ok inv => (acc.1 ++ [inv], acc.2)
  | Err e => (acc.1, acc.2 ++ [native_error (nc_name call) e])
  end.

(** The invocations, the errors, and whether fenced blocks were ignored. *)
Definition resolve_invocations (response : text) (native_calls : list NativeToolCall)
    : outcome (list (ToolInvocation (V := V)) * list text * bool) :=
  match native_calls with
  | [] => let! r := parse_tool_invocations_verbose response in Done (r.1, r.2, false)
  | _ :: _ => let r := fold_left resolve_native native_calls ([], []) in Done (r.1, r.2, contains response FENCE)
  end.

Definition partition_granted_invocations (invocations : list (ToolInvocation (V := V))) (tool_names : list string)
    : list (ToolInvocation (V := V)) * list (string * text) :=
  (filter (fun inv => ti_name inv ∈ tool_names) invocations,
   map (fun inv => (ti_name inv, utf8 (j_to_string (ti_args inv))))
     (filter (fun inv => ti_name inv ∉ tool_names) invocations)).

(** [tool_output_is_error]. *)
Definition tool_output_is_error (output : V) : bool :=
  match j_as_object output with
  | Some _ =>
    match j_get output "error" with
    | Some e => match j_as_str e with Some s => negb (bool_decide (trim (utf8 s) = [])) | None => negb (j_is_null e) end
    | None => false
    end
  | None =>
    match j_as_str output with
    | Some s => starts_with (utf8 s) (utf8 "Error") || starts_with (utf8 s) (utf8 "error")
    | None => false
    end
  end.

Definition render_result (inv : ToolInvocation (V := V)) (output : V) : text :=
  utf8 ("tool: " ++ ti_name inv ++ nl ++ "args: " ++ j_to_string (ti_args inv) ++ nl
        ++ "result: " ++ j_to_string output).
Definition results_to_prompt (results : list (ToolInvocation (V := V) * V)) : text :=
  join_with (utf8 (nl ++ "---" ++ nl)) (map (fun r => render_result r.1 r.2) results).
End blocks.

(** ** Mutating tools *)

(** [orchestrator::is_mutating_tool], which is not the one of the manifest. *)
Definition READ_ONLY_TOOLS : list string :=
  ["fs.read"; "fs.list"; "fs.grep"; "fs.glob"; "tier2_search"; "tier3_search"; "tier4_search"; "compute_embeddings";
   "web.fetch"; "web.search"; "system.health"; "shell.collect"]%string.
Definition mutates (name : string) : bool :=
  match name with
  | String a _ => negb (Ascii.eqb a (Ascii.ascii_of_N 60)) && negb (bool_decide (name ∈ READ_ONLY_TOOLS))
  | EmptyString => true
  end.

(** ** Notices *)

Definition exhaustion_notice (kind detail : text) : text := utf8 "⚠ " ++ kind ++ utf8 " — " ++ detail.

(** The notice before what is left of the answer. *)
Definition annotate (notice stripped : text) : text :=
  if bool_decide (stripped = []) then notice else notice ++ utf8 (nl ++ nl) ++ stripped.

Definition apply_exhaustion_notice (kind detail final_response : text) : outcome (text * text) :=
  let notice := exhaustion_notice kind detail in
  let! stripped := strip_fenced_tool_blocks final_response in
  Done (notice, annotate notice stripped).

(** The first line of the notes that says something. *)
Definition first_note (notes : text) : text :=
  default (utf8 "review findings withheld") (head (filter (fun l => l <> []) (map trim (lines notes)))).

Definition verdict_notice (notes : text) : text :=
  utf8 "⚠ quality gate veto upheld after redraft — " ++ take 160 (first_note notes).

Definition apply_verdict_notice (notes final_response : text) : text :=
  if bool_decide (trim final_response = []) then verdict_notice notes
  else verdict_notice notes ++ utf8 (nl ++ nl) ++ final_response.

(** [review::PipelineResult]. *)
Record PipelineResult := {
  plan_approved : bool; review_notes : text; delivery_ready : bool; athena_shield : option text;
  failed_attempts : list text;
}.

Definition stream_gate_marker (review : PipelineResult) (gated : bool) : option text :=
  if negb (delivery_ready review) then
    Some (utf8 "⚠️ quality gate: delivery not ready — "
          ++ default (utf8 "review flagged this answer") (last (failed_attempts review)) ++ utf8 nl)
  else if gated && negb (plan_approved review) then
    Some (utf8 "⚠️ quality gate: vetoed — " ++ take 160 (first_note (review_notes review)) ++ utf8 nl)
  else None.

(** ** Background tasks *)

Definition background_notice_line (task_id command_digest status : text) : text :=
  utf8 "⚙ background task " ++ take 8 task_id ++ utf8 " `" ++ command_digest ++ utf8 "` " ++ status
  ++ utf8 " — collect: shell.collect {" ++ quoted (utf8 "task_id") ++ utf8 ":" ++ quoted task_id ++ utf8 "}".

Definition background_notice_pairs_from (changes : list TaskSnapshot) : list (string * text) :=
  map (fun snap => (task_id snap,
    background_notice_line (utf8 (task_id snap)) (utf8 (command_digest snap)) (utf8 (TaskRegistry.as_str (status snap))))) changes.

Definition background_item (now_ms : Z) (t : TaskSnapshot) : text :=
  take 8 (utf8 (task_id t)) ++ utf8 " `" ++ utf8 (command_digest t) ++ utf8 "` running for "
  ++ utf8 (pretty (Z.max (now_ms - started_at_ms t) 0 / 1000)%Z) ++ utf8 "s".
Definition background_gate_context_line (live : list TaskSnapshot) (now_ms : Z) : option text :=
  if bool_decide (live = []) then None
  else Some (utf8 "[Background context] " ++ utf8 (pretty (length live))
    ++ utf8 " background task(s) still running in this session: " ++ join_with (utf8 "; ") (map (background_item now_ms) live)
    ++ utf8 ". Their output has not been collected via shell.collect; judge deliverable completeness accordingly.").

(** [gate_input_with_background], on the input of the review's task. *)
Definition gate_input_with_background (user_input : text) (live : list TaskSnapshot) (now_ms : Z) : text :=
  match background_gate_context_line live now_ms with
  | Some ctx => user_input ++ utf8 (nl ++ nl) ++ ctx
  | None => user_input
  end.

(** ** Notes *)

(** A line of a note after its front matter. *)
Definition fingerprint_line (line : text) : option text :=
  let trimmed := trim line in
  if bool_decide (trimmed = []) || starts_with trimmed (utf8 "#") || starts_with trimmed CLOSE then None
  else let f := lower trimmed in if (20 <=? length f)%nat then Some f else None.

Fixpoint fingerprint_go (in_frontmatter : bool) (ls : list text) : option text :=
  match ls with
  | [] => None
  | line :: rest =>
    if in_frontmatter then fingerprint_go (negb (bool_decide (trim line = utf8 "---"))) rest
    else match fingerprint_line line with Some f => Some f | None => fingerprint_go false rest end
  end.

(** The first line is read to see whether it opens a front matter. *)
Definition citation_fingerprint (content : text) : option text :=
  match lines content with
  | [] => None
  | first :: rest => fingerprint_go (bool_decide (trim first = utf8 "---")) rest
  end.

(** [truncate_notes_to_budget], on the contents of the notes. *)
Fixpoint truncate_notes_to_budget (notes : list text) (budget_chars used : nat) : list text * nat :=
  match notes with
  | [] => ([], used)
  | note :: rest =>
    let remaining := budget_chars - used in
    if (remaining =? 0)%nat then ([], used)
    else
      let kept := if (remaining <? length note)%nat then take remaining note else note in
      let '(l, u) := truncate_notes_to_budget rest budget_chars (used + Nat.min (length note) remaining) in
      (kept :: l, u)
  end.

Definition has_substantive_knowledge (contents : list text) : bool :=
  existsb (fun c => negb (bool_decide (trim c = []))) contents.

(** ** Properties: the history *)

Lemma total_bytes_app h h' : total_bytes (h ++ h') = total_bytes h + total_bytes h'.
Proof. unfold total_bytes. by rewrite sum_list_with_app. Qed.

Lemma total_bytes_one r : total_bytes [r] = str_len r.
Proof. unfold total_bytes. cbn. lia. Qed.

Lemma drop_oldest_cons total r r' h : drop_oldest total (r :: r' :: h) =
  if (TOOL_RESULTS_HISTORY_CAP_CHARS <? total)%nat then drop_oldest (total - str_len r) (r' :: h) else (total, r :: r' :: h).
Proof. done. Qed.

Lemma drop_oldest_spec h : h <> [] ->
  exists dropped kept, drop_oldest (total_bytes h) h = (total_bytes kept, kept) /\ h = dropped ++ kept /\ kept <> []
  /\ (TOOL_RESULTS_HISTORY_CAP_CHARS < total_bytes kept -> length kept = 1)
  /\ (forall d x, dropped = d ++ [x] -> TOOL_RESULTS_HISTORY_CAP_CHARS < total_bytes (x :: kept)).
Proof.
  induction h as [|r [|r' h] IH]; intros Hne; [done| |].
  - exists [], [r]. split_and!; try done. by intros [].
  - rewrite drop_oldest_cons. destruct (Nat.ltb_spec TOOL_RESULTS_HISTORY_CAP_CHARS (total_bytes (r :: r' :: h))) as [Hgt|Hle].
    + replace (total_bytes (r :: r' :: h) - str_len r) with (total_bytes (r' :: h)) by (unfold total_bytes; cbn; lia).
      destruct (IH ltac:(done)) as (d & k & Hd & Heq & Hk & Hl & Hm). exists (r :: d), k. rewrite Hd, Heq. split_and!; try done.
      intros [|f d1] x E; cbn [app] in E; injection E as E1 E2; [|by eapply Hm]. subst. cbn [app] in Heq. by subst.
    + exists [], (r :: r' :: h). split_and!; [done..|lia|by intros []].
Qed.

Lemma drop_bytes_spec cut t : exists dropped, t = dropped ++ drop_bytes cut t
  /\ (cut <= str_len t -> str_len (drop_bytes cut t) + cut <= str_len t).
Proof.
  revert cut. induction t as [|c t IH]; intros cut; [exists []; cbn; split; [done|lia]|].
  destruct cut as [|n]; [exists []; cbn; split; [done|lia]|].
  destruct (IH (S n - len_utf8 c)) as (d & Hd & Hl). exists (c :: d). cbn [drop_bytes str_len app].
  split; [by rewrite <- Hd|]. intros Hn.
  destruct (Nat.le_gt_cases (len_utf8 c) (S n)); [pose proof (Hl ltac:(lia)); lia|].
  replace (S n - len_utf8 c) with 0 in * by lia. pose proof (Hl ltac:(lia)). lia.
Qed.

Lemma total_bytes_last h x : last h = Some x -> total_bytes h = total_bytes (removelast h) + str_len x.
Proof.
  intros Hl. apply last_Some in Hl as [h' ->]. by rewrite removelast_last, total_bytes_app, total_bytes_one.
Qed.

(** After a round is added the history holds at most 16000 bytes; it is what
    ends the history with the round, whole rounds as long as the round fits, and
    no older round is dropped that would have fitted. *)
Lemma history_exact history round :
  exists dropped kept newest, history ++ [round] = dropped ++ kept ++ [round]
  /\ push_tool_results_history history round = kept ++ [newest]
  /\ total_bytes (kept ++ [newest]) <= TOOL_RESULTS_HISTORY_CAP_CHARS
  /\ (exists cut, round = cut ++ newest)
  /\ (str_len round <= TOOL_RESULTS_HISTORY_CAP_CHARS -> newest = round)
  /\ (TOOL_RESULTS_HISTORY_CAP_CHARS < str_len round -> kept = [])
  /\ (forall older x, dropped = older ++ [x] -> TOOL_RESULTS_HISTORY_CAP_CHARS < total_bytes (x :: kept ++ [round])).
Proof.
  unfold push_tool_results_history.
  destruct (drop_oldest_spec (history ++ [round])) as (d & k & Hd & Heq & Hk & Hl & Hm); [by destruct history|].
  rewrite Hd. destruct (last k) as [x|] eqn:Hlast; [|by apply last_None in Hlast].
  pose proof (total_bytes_last _ _ Hlast) as Htot. apply last_Some in Hlast as [k' ->]. rewrite removelast_last in *.
  assert (x = round) as ->. { rewrite app_assoc in Heq. by apply app_inj_tail in Heq as [_ ->]. }
  exists d, k', (cut_newest (total_bytes (k' ++ [round])) round).
  unfold cut_newest. rewrite !total_bytes_app, !total_bytes_one in *.
  destruct (Nat.ltb_spec TOOL_RESULTS_HISTORY_CAP_CHARS (total_bytes k' + str_len round)) as [Hgt|Hle].
  - pose proof (Hl Hgt) as H1. rewrite length_app in H1. destruct k'; [|cbn in H1; lia].
    change (total_bytes []) with 0 in *. rewrite Nat.add_0_l in *.
    destruct (drop_bytes_spec (str_len round - TOOL_RESULTS_HISTORY_CAP_CHARS) round) as (c & Hc & Hb).
    pose proof (Hb (Nat.le_sub_l _ _)). split_and!; [done|done|lia|by exists c|lia|done|exact Hm].
  - split_and!; [done|done|lia|by exists []|done|lia|exact Hm].
Qed.

(** ** Fenced blocks are scanned to the end *)

Lemma next_fence_shorter t before block rest : next_fence t = Some (before, Some (block, rest)) -> length rest < length t.
Proof.
  unfold next_fence. destruct (find t FENCE) as [i|] eqn:Hi; cbn [mbind option_bind]; [|done].
  destruct (find (drop (i + length FENCE) t) CLOSE) as [j|]; [|done]. intros [= <- <- <-].
  apply find_Some in Hi as (u & v & -> & _). rewrite !length_drop, !length_app.
  change (length FENCE) with 7. lia.
Qed.

Lemma strip_go_total fuel out rest : length rest < fuel -> exists t, strip_go fuel out rest = Done t.
Proof.
  revert out rest. induction fuel as [|f IH]; intros out rest Hf; [lia|]. cbn [strip_go parse_go].
  destruct (next_fence rest) as [[before [[block rest']|]]|] eqn:Hn; [|eexists; reflexivity..].
  apply next_fence_shorter in Hn. apply IH. lia.
Qed.
Lemma strip_total t : exists s, strip_fenced_tool_blocks t = Done s.
Proof. apply strip_go_total. lia. Qed.

Section parse.
Context {V : Type} {HJson : Json V}.
Context (j_parse : text -> result V text) (normalize : string -> V -> result (ToolInvocation (V := V)) text).

Lemma parse_go_total fuel acc rest : length rest < fuel -> exists r, parse_go j_parse normalize fuel acc rest = Done r.
Proof.
  revert acc rest. induction fuel as [|f IH]; intros acc rest Hf; [lia|]. cbn [strip_go parse_go].
  destruct (next_fence rest) as [[before [[block rest']|]]|] eqn:Hn; [|eexists; reflexivity..].
  apply next_fence_shorter in Hn. apply IH. lia.
Qed.
Lemma resolve_total response calls : exists r, resolve_invocations j_parse normalize response calls = Done r.
Proof.
  destruct calls as [|call calls]; [|eexists; reflexivity]. cbn [resolve_invocations]. unfold parse_tool_invocations_verbose.
  destruct (parse_go_total (S (length response)) ([], []) response) as [r ->]; [lia|]. eexists. reflexivity.
Qed.
End parse.

(** What is not in a closed block survives; the last block, never closed, takes
    everything after it. *)
Example strip_keeps : strip_fenced_tool_blocks (utf8 "a ```json {} ``` b") = Done (utf8 "a  b").
Proof. reflexivity. Qed.
Example strip_unclosed : strip_fenced_tool_blocks (utf8 "a ```json {} b") = Done (utf8 "a ").
Proof. reflexivity. Qed.

(** The first line of a note is never its fingerprint. *)
Example first_line_unread :
  citation_fingerprint (utf8 "The quarterly budget was raised to 300.") = None
  /\ citation_fingerprint (utf8 ("Note" ++ nl ++ "The quarterly budget was raised to 300."))
     = Some (utf8 "the quarterly budget was raised to 300.").
Proof. split; vm_compute; reflexivity. Qed.
