(* ===== verification/Orchestrator.v ===== *)
(** * The agentic loop of a turn

    Models the two drivers of [crates/zen-agents/src/orchestrator.rs],
    [execute] and [execute_stream]: rounds of model calls and tool batches, the
    budget, notices of background tasks, malformed and ungranted calls, the cap
    on rounds, the quality gate.  The state machine of rig ([AgentRun]) is a
    class; what the model replies, what tools give and what the token budget
    answers are the class [TurnEnv].  The drivers have the same loop, up to what
    the stream shows: [streaming] tells them apart.  What a turn does before its
    loop (intent, knowledge, the choice of the agent) and its files are left
    out. *)

From S2P Require Import Prelude Types Json Text Sandbox TaskRegistry ToolHooks ToolText.
From Stdlib Require Import Lia.
Local Open Scope list_scope.

(** ** Rig's run *)

Section rig.
Context (V : Type).

Record UserContent := { uc_id : string; uc_name : string; uc_text : text }.
Inductive AssistantContent := AText (t : text) | ACall (id name : string) (args : V).
Inductive RigMessage := MUser (t : text) | MAssistant (content : list AssistantContent) | MSystem (t : text).
Record PendingToolCall := { pc_id : string; pc_name : string; pc_args : V; preresolved_result : option UserContent }.

Inductive AgentRunStep := CallModel (turn : nat) | CallTools (calls : list PendingToolCall) | RunDone (output : text).
Inductive ModelTurnOutcome := TurnContinue | NeedsResolution | TurnRetried.
Inductive PromptError := MaxTurnsError (max_turns : nat) (chat_history : list RigMessage) | OtherPromptError (msg : text).

Class AgentRun := {
  run : Type;
  run_new : text -> run;
  with_max_turns : nat -> run -> run;
  with_output_validation : option V -> nat -> run -> run;
  with_history : list RigMessage -> run -> run;
  messages : run -> list RigMessage;
  next_step : run -> result AgentRunStep PromptError * run;
  (* the content of the assistant's turn, and the names its calls may have *)
  model_response : list AssistantContent -> list string -> run -> result ModelTurnOutcome text * run;
  (* [resolve_invalid_tool_call] with [skip] *)
  skip_invalid : run -> result ModelTurnOutcome text * run;
  give_results : list UserContent -> run -> result unit text * run;
}.
End rig.
Arguments run V {_}.
Arguments run_new {V _}.
Arguments with_max_turns {V _}.
Arguments with_output_validation {V _}.
Arguments with_history {V _}.
Arguments messages {V _}.
Arguments next_step {V _}.
Arguments model_response {V _}.
Arguments skip_invalid {V _}.
Arguments give_results {V _}.
Arguments AText {V} t.
Arguments ACall {V} id name args.
Arguments MUser {V} t.
Arguments MAssistant {V} content.
Arguments MSystem {V} t.
Arguments CallModel {V} turn.
Arguments CallTools {V} calls.
Arguments RunDone {V} output.
Arguments MaxTurnsError {V} max_turns chat_history.
Arguments OtherPromptError {V} msg.
Arguments pc_id {V} p.
Arguments pc_name {V} p.
Arguments pc_args {V} p.
Arguments preresolved_result {V} p.

(** ** The environment of a turn *)

(** [W]: everything outside of the turn, which other turns change too. *)
Class TurnEnv (V W : Type) := {
  j_parse : text -> result V text;
  normalize : string -> V -> result (ToolInvocation (V := V)) text;
  (* [try_reserve_tokens], with the reservations this turn holds *)
  try_reserve : nat -> W -> result bool text * W;
  (* [execute_model_call], on the results of tools *)
  execute_model_call : text -> W -> result (text * list (NativeToolCall (V := V))) text * W;
  (* [execute_stream_round], with the chunks it shows *)
  execute_stream_round : option text -> W -> list text * result (text * list (NativeToolCall (V := V))) text * W;
  (* what each dispatch of a round gives, and how long it took *)
  dispatch_each : list (ToolInvocation (V := V)) -> W -> (nat -> result (list V) KernelError * N) * W;
  (* the screen of outputs *)
  screen : V -> V;
  kernel_text : KernelError -> string;
  (* the quality gate on a task's input and a draft, and the redraft *)
  review_pipeline : text -> text -> W -> PipelineResult * W;
  redraft : text -> W -> result text text * W;
  now_ms : W -> Z;
  (* the registry of background tasks of the process *)
  background : W -> registry;
  set_background : registry -> W -> W;
}.

Section turn.
Context {V : Type} {HJson : Json V} {HRig : AgentRun V} {W : Type} {HEnv : TurnEnv V W}.
Implicit Types (calls : list (PendingToolCall V)).

(** ** The state of a turn *)

Record ToolCall := { tool_name : string; arguments : text; tc_result : text }.

(** What went out of the loop: the results each model call was given, the batches
    dispatched, and for each batch of pending calls the answers given. *)
Record Trace := {
  asked : list text;
  dispatched : list (list (ToolInvocation (V := V)));
  answered : list (list (PendingToolCall V) * list UserContent);
}.

Record Turn := {
  rig : run V;
  tool_calls : list ToolCall;
  final_response : text;
  dispatch_round : nat;
  accumulated_results : list text;
  pending_rejections : list text;
  reservations : nat;
  interaction_turns : list (MessageRole * text);
  shown : list text;
  trace : Trace;
  world : W;
}.

Definition set_rig (r : run V) (st : Turn) : Turn :=
  {| rig := r; tool_calls := tool_calls st; final_response := final_response st; dispatch_round := dispatch_round st;
     accumulated_results := accumulated_results st; pending_rejections := pending_rejections st;
     reservations := reservations st; interaction_turns := interaction_turns st; shown := shown st;
     trace := trace st; world := world st |}.
Definition push_calls (l : list ToolCall) (st : Turn) : Turn :=
  {| rig := rig st; tool_calls := tool_calls st ++ l; final_response := final_response st;
     dispatch_round := dispatch_round st; accumulated_results := accumulated_results st;
     pending_rejections := pending_rejections st; reservations := reservations st;
     interaction_turns := interaction_turns st; shown := shown st; trace := trace st; world := world st |}.
Definition set_calls (l : list ToolCall) (st : Turn) : Turn :=
  {| rig := rig st; tool_calls := l; final_response := final_response st; dispatch_round := dispatch_round st;
     accumulated_results := accumulated_results st; pending_rejections := pending_rejections st;
     reservations := reservations st; interaction_turns := interaction_turns st; shown := shown st;
     trace := trace st; world := world st |}.
Definition set_response (t : text) (st : Turn) : Turn :=
  {| rig := rig st; tool_calls := tool_calls st; final_response := t; dispatch_round := dispatch_round st;
     accumulated_results := accumulated_results st; pending_rejections := pending_rejections st;
     reservations := reservations st; interaction_turns := interaction_turns st; shown := shown st;
     trace := trace st; world := world st |}.
Definition next_round (st : Turn) : Turn :=
  {| rig := rig st; tool_calls := tool_calls st; final_response := final_response st;
     dispatch_round := S (dispatch_round st); accumulated_results := accumulated_results st;
     pending_rejections := pending_rejections st; reservations := reservations st;
     interaction_turns := interaction_turns st; shown := shown st; trace := trace st; world := world st |}.
Definition set_accumulated (l : list text) (st : Turn) : Turn :=
  {| rig := rig st; tool_calls := tool_calls st; final_response := final_response st;
     dispatch_round := dispatch_round st; accumulated_results := l; pending_rejections := pending_rejections st;
     reservations := reservations st; interaction_turns := interaction_turns st; shown := shown st;
     trace := trace st; world := world st |}.
Definition set_rejections (l : list text) (st : Turn) : Turn :=
  {| rig := rig st; tool_calls := tool_calls st; final_response := final_response st;
     dispatch_round := dispatch_round st; accumulated_results := accumulated_results st; pending_rejections := l;
     reservations := reservations st; interaction_turns := interaction_turns st; shown := shown st;
     trace := trace st; world := world st |}.
Definition hold_reservation (st : Turn) : Turn :=
  {| rig := rig st; tool_calls := tool_calls st; final_response := final_response st;
     dispatch_round := dispatch_round st; accumulated_results := accumulated_results st;
     pending_rejections := pending_rejections st; reservations := S (reservations st);
     interaction_turns := interaction_turns st; shown := shown st; trace := trace st; world := world st |}.
Definition push_interaction (l : list (MessageRole * text)) (st : Turn) : Turn :=
  {| rig := rig st; tool_calls := tool_calls st; final_response := final_response st;
     dispatch_round := dispatch_round st; accumulated_results := accumulated_results st;
     pending_rejections := pending_rejections st; reservations := reservations st;
     interaction_turns := interaction_turns st ++ l; shown := shown st; trace := trace st; world := world st |}.
Definition set_trace (tr : Trace) (st : Turn) : Turn :=
  {| rig := rig st; tool_calls := tool_calls st; final_response := final_response st;
     dispatch_round := dispatch_round st; accumulated_results := accumulated_results st;
     pending_rejections := pending_rejections st; reservations := reservations st;
     interaction_turns := interaction_turns st; shown := shown st; trace := tr; world := world st |}.
Definition set_world (w : W) (st : Turn) : Turn :=
  {| rig := rig st; tool_calls := tool_calls st; final_response := final_response st;
     dispatch_round := dispatch_round st; accumulated_results := accumulated_results st;
     pending_rejections := pending_rejections st; reservations := reservations st;
     interaction_turns := interaction_turns st; shown := shown st; trace := trace st; world := w |}.

Definition log_asked (t : text) (st : Turn) : Turn :=
  set_trace {| asked := asked (trace st) ++ [t]; dispatched := dispatched (trace st); answered := answered (trace st) |} st.
Definition log_dispatched (l : list (ToolInvocation (V := V))) (st : Turn) : Turn :=
  set_trace {| asked := asked (trace st); dispatched := dispatched (trace st) ++ [l]; answered := answered (trace st) |} st.
Definition log_answered calls (l : list UserContent) (st : Turn) : Turn :=
  set_trace {| asked := asked (trace st); dispatched := dispatched (trace st); answered := answered (trace st) ++ [(calls, l)] |} st.

(** What the turn is run with. *)
Record TurnConfig := { max_tool_rounds : nat; tool_names : list string; turn_session : string; streaming : bool }.

(** The callback of the stream. *)
Definition emit (cfg : TurnConfig) (l : list text) (st : Turn) : Turn :=
  if streaming cfg then
    {| rig := rig st; tool_calls := tool_calls st; final_response := final_response st;
       dispatch_round := dispatch_round st; accumulated_results := accumulated_results st;
       pending_rejections := pending_rejections st; reservations := reservations st;
       interaction_turns := interaction_turns st; shown := shown st ++ l; trace := trace st; world := world st |}
  else st.

(** How a step leaves the loop's body. *)
Inductive flow := Next (st : Turn) | Stop (st : Turn) | Failed (e : text) (st : Turn).

(** ** Answers to pending calls *)

Definition tool_result_content (id name : string) (t : text) : UserContent :=
  {| uc_id := id; uc_name := name; uc_text := t |}.

Definition json_error (t : text) : text := utf8 (j_to_string (j_obj [("error"%string, j_str (to_string t))])).

(** The loop of [plan_tool_batch]: the calls to dispatch with their ids, the
    answers, the records of the rejected. *)
Definition plan_one (acc : list (string * ToolInvocation (V := V)) * list UserContent * list ToolCall)
    (pending : PendingToolCall V) : list (string * ToolInvocation (V := V)) * list UserContent * list ToolCall :=
  let '(dispatch, answers, rejected) := acc in
  match preresolved_result pending with
  | Some pre => (dispatch, answers ++ [pre], rejected)
  | None =>
    match normalize (pc_name pending) (pc_args pending) with
    | Ok invocation => (dispatch ++ [(pc_id pending, invocation)], answers, rejected)
    | Err error =>
      let reason := utf8 "invalid arguments: " ++ error in
      (dispatch, answers ++ [tool_result_content (pc_id pending) (pc_name pending) reason],
       rejected ++ [{| tool_name := pc_name pending; arguments := utf8 (j_to_string (pc_args pending)); tc_result := reason |}])
    end
  end.
Definition plan_tool_batch calls := fold_left plan_one calls ([], [], []).

Definition ensured_tool_results (answers : list UserContent) calls (st : Turn) : result unit text * Turn :=
  let give l :=
    let '(r, run') := give_results l (rig st) in (r, log_answered calls l (set_rig run' st)) in
  match answers, calls with
  | [], [] => (Ok tt, st)
  | [], _ :: _ =>
    let error := json_error (utf8 "tool dispatch produced no result") in
    give (map (fun p => tool_result_content (pc_id p) (pc_name p) error) calls)
  | _ :: _, _ => give answers
  end.

(** Then the loop goes on, unless the run refuses the answers. *)
Definition answer_and (k : Turn -> flow) (answers : list UserContent) calls (st : Turn) : flow :=
  match ensured_tool_results answers calls st with
  | (Ok _, st1) => k st1
  | (Err e, st1) => Failed e st1
  end.

Definition cap_error (max : nat) : text :=
  json_error (utf8 ("tool round cap reached (" ++ pretty max ++ ") — tool intent not executed")).
Definition cap_notice (max n : nat) : text :=
  utf8 ("⚠ tool round cap (" ++ pretty max ++ ") reached, " ++ pretty n ++ " tool intent(s) not executed").
Definition cap_entry (error : text) (call : PendingToolCall V) : text :=
  utf8 ("tool: " ++ pc_name call ++ nl ++ "args: " ++ j_to_string (pc_args call) ++ nl ++ "result: ") ++ error
  ++ utf8 (nl ++ "---" ++ nl).

(** The answers, the notice, and the turn. *)
Definition answer_pending_at_round_cap calls (max : nat) (st : Turn) : outcome (list UserContent * text * Turn) :=
  let error := cap_error max in
  let answers := map (fun p => tool_result_content (pc_id p) (pc_name p) error) calls in
  let st1 := push_calls (map (fun p =>
    {| tool_name := pc_name p; arguments := utf8 (j_to_string (pc_args p)); tc_result := error |}) calls) st in
  let round_entry := concat (map (cap_entry error) calls) in
  let st2 := if bool_decide (round_entry = []) then st1
             else set_accumulated (push_tool_results_history (accumulated_results st1) round_entry) st1 in
  let notice := cap_notice max (length calls) in
  let! stripped := strip_fenced_tool_blocks (final_response st2) in
  Done (answers, notice, set_response (annotate notice stripped) st2).

(** ** A run out of turns *)

Definition text_of (c : AssistantContent V) : text := match c with AText t => trim t | ACall _ _ _ => [] end.
Definition last_assistant_text (history : list (RigMessage V)) : text :=
  let texts := flat_map (fun m => match m with MAssistant content => map text_of content | _ => [] end) (rev history) in
  default [] (head (filter (fun t => t <> []) texts)).

(** [None]: another error, which fails the turn. *)
Definition recover_max_turns_error (error : PromptError V) (st : Turn) : outcome (option Turn) :=
  match error with
  | OtherPromptError _ => Done None
  | MaxTurnsError max_turns chat_history =>
    let st1 := push_calls [{| tool_name := "<max_turns>"; arguments := []; tc_result := utf8 "max_turns_exhausted" |}] st in
    let! r := apply_exhaustion_notice (utf8 "max turns exhausted")
                (utf8 ("model-call budget (" ++ pretty max_turns ++ ") reached before a final answer")) (final_response st1) in
    let extracted := last_assistant_text chat_history in
    Done (Some (set_response
      (if bool_decide (extracted = []) || contains r.2 extracted then r.2
       else r.2 ++ utf8 (nl ++ nl) ++ extracted) st1))
  end.

(** ** A model call *)

Definition budget_exhausted (cfg : TurnConfig) (st : Turn) : outcome flow :=
  let st1 := push_calls [{| tool_name := "<budget>"; arguments := [];
                            tc_result := utf8 "budget_exhausted: token budget exhausted before this round" |}] st in
  let! r := apply_exhaustion_notice (utf8 "token budget exhausted")
              (utf8 (pretty (length (accumulated_results st1)) ++ " tool result(s) collected, no final synthesis"))
              (final_response st1) in
  Done (Stop (emit cfg [r.1 ++ utf8 nl] (set_response r.2 st1))).

(** The notices of the session's tasks enter the history; their ids. *)
Definition push_notice (cfg : TurnConfig) (st : Turn) (p : string * text) : Turn :=
  let st1 := emit cfg [p.2 ++ utf8 nl] st in
  set_accumulated (push_tool_results_history (accumulated_results st1) p.2) st1.
Definition drain_background_notice_pairs (cfg : TurnConfig) (st : Turn) : list (string * text) :=
  background_notice_pairs_from (take_status_changes (turn_session cfg) (background (world st))).
Definition mark_background_notices_consumed (cfg : TurnConfig) (ids : list string) (st : Turn) : Turn :=
  match ids with
  | [] => st
  | _ => set_world (set_background (mark_notified (turn_session cfg) ids (background (world st))) (world st)) st
  end.

(** What the model is asked, and what it replies. *)
Definition ask_model (cfg : TurnConfig) (st : Turn) : result (text * list (NativeToolCall (V := V))) text * Turn :=
  let history_text := join_tool_results_history (accumulated_results st) in
  if streaming cfg then
    let history_opt := if bool_decide (history_text = []) then None else Some history_text in
    let '(chunks, r, w) := execute_stream_round history_opt (world st) in
    (r, set_world w (emit cfg chunks (log_asked history_text st)))
  else
    let '(r, w) := execute_model_call history_text (world st) in
    (r, set_world w (log_asked history_text st)).

Definition parse_feedback (errors : list text) : text :=
  utf8 ("Your previous tool call block could not be parsed and was NOT executed:" ++ nl)
  ++ join_with (utf8 nl) errors
  ++ utf8 (nl ++ "Re-emit exactly one valid ```json block with {") ++ quoted (utf8 "tool") ++ utf8 ": "
  ++ quoted (utf8 "<name>") ++ utf8 ", " ++ quoted (utf8 "args") ++ utf8 ": {...}}.".

(** A run started anew on the feedback, with what is left of the turns. *)
Definition restart_run (cfg : TurnConfig) (turn : nat) (feedback : text) (st : Turn) : outcome Turn :=
  if (max_tool_rounds cfg + 2 <? turn)%nat then Panic   (* usize underflow *)
  else Done (set_rig (fold_left (fun r m => with_history [m] r) (messages (rig st))
                       (with_max_turns (max_tool_rounds cfg + 2 - turn) (run_new feedback))) st).

Definition not_granted (name : string) : text :=
  utf8 ("tool not available: " ++ name ++ " is not granted/registered on this agent").
Definition rejection_entry (r : string * text) : text :=
  utf8 ("tool: " ++ r.1 ++ nl ++ "args: ") ++ r.2 ++ utf8 (nl ++ "result: ") ++ json_error (not_granted r.1).

Definition record_rejections (cfg : TurnConfig) (rejected : list (string * text)) (st : Turn) : Turn :=
  set_rejections (map rejection_entry rejected)
    (push_calls (map (fun r => {| tool_name := r.1; arguments := r.2; tc_result := not_granted r.1 |}) rejected)
      (emit cfg (map (fun r => utf8 ("⚠️ tool unavailable: " ++ r.1 ++ nl)) rejected) st)).

Definition call_id (idx : nat) : string := "call_" ++ pretty idx.
Definition assistant_content (response : text) (granted : list (ToolInvocation (V := V))) : list (AssistantContent V) :=
  AText response :: imap (fun idx inv => ACall (call_id idx) (ti_name inv) (ti_args inv)) granted.

(** The loop over [resolve_invalid_tool_call], [n] times at most. *)
Fixpoint resolve_invalid (n : nat) (r : run V) : result unit text * run V :=
  match n with
  | O => (Ok tt, r)
  | S n' =>
    match skip_invalid r with
    | (Err e, r1) => (Err e, r1)
    | (Ok NeedsResolution, r1) => resolve_invalid n' r1
    | (Ok _, r1) => (Ok tt, r1)
    end
  end.

(** The granted calls are handed to the run. *)
Definition hand_over (cfg : TurnConfig) (response : text) (granted : list (ToolInvocation (V := V))) (st : Turn) : flow :=
  let '(r, run1) := model_response (assistant_content response granted) (tool_names cfg) (rig st) in
  let st1 := set_rig run1 st in
  match r with
  | Err e => Failed e st1
  | Ok TurnContinue => Next (set_response response st1)
  | Ok NeedsResolution =>
    match resolve_invalid (S (length granted)) run1 with
    | (Err e, run2) => Failed e (set_rig run2 st1)
    | (Ok _, run2) => Next (set_response response (set_rig run2 st1))
    end
  | Ok TurnRetried => Next st1
  end.

Definition record_parse_errors (cfg : TurnConfig) (errors : list text) (st : Turn) : Turn :=
  push_calls (map (fun e => {| tool_name := "<parse>"; arguments := []; tc_result := e |}) errors)
    (emit cfg (map (fun e => utf8 "⚠️ tool block ignored: " ++ e ++ utf8 nl) errors) st).

(** The reply of the model. *)
Definition take_reply (cfg : TurnConfig) (turn : nat) (response : text) (native : list (NativeToolCall (V := V))) (st : Turn)
    : outcome flow :=
  let! r := resolve_invocations j_parse normalize response native in
  let '(invocations, errors, degraded) := r in
  let st1 := if degraded then
               emit cfg [utf8 ("⚠️ degraded: native tool calls dispatched, fenced blocks ignored" ++ nl)] st else st in
  let st2 := record_parse_errors cfg errors st1 in
  match invocations, errors with
  | [], _ :: _ =>
    let feedback := parse_feedback errors in
    let st3 := if streaming cfg then push_interaction [(Assistant, response); (Tool, feedback)] st2 else st2 in
    let! st4 := restart_run cfg turn feedback st3 in
    Done (Next st4)
  | _, _ =>
    let '(granted, rejected) := partition_granted_invocations invocations (tool_names cfg) in
    Done (hand_over cfg response granted (record_rejections cfg rejected st2))
  end.

(** The budget gate, then notices, the call, the reply. *)
Definition model_round (cfg : TurnConfig) (turn : nat) (st : Turn) : outcome flow :=
  let pairs := drain_background_notice_pairs cfg st in
  let st1 := fold_left (push_notice cfg) pairs st in
  match ask_model cfg st1 with
  | (Err e, st2) => Done (Failed e st2)
  | (Ok (response, native), st2) =>
    take_reply cfg turn response native (mark_background_notices_consumed cfg (map fst pairs) st2)
  end.

Definition call_model (cfg : TurnConfig) (turn : nat) (st : Turn) : outcome flow :=
  let '(r, w) := try_reserve (reservations st) (world st) in
  let st1 := set_world w st in
  match r with
  | Ok true => model_round cfg turn (hold_reservation st1)
  | Ok false => budget_exhausted cfg st1
  | Err _ => model_round cfg turn st1
  end.

(** ** A batch of tools *)

(** [dispatch_timed]. *)
Definition dispatch_timed (invocations : list (ToolInvocation (V := V))) (w : W)
    : result (list (ToolInvocation (V := V) * V) * list N) KernelError * W :=
  let '(outcomes, w') := dispatch_each invocations w in
  (match collect_round kernel_text (imap (fun i inv => (inv, (outcomes i).1)) invocations) with
   | Ok results => Ok (results, imap (fun i _ => (outcomes i).2) invocations)
   | Err e => Err e
   end, w').

Definition dispatch_error_feedback (e : KernelError) : text :=
  if is_hook_termination e then utf8 ("tool dispatch blocked (approval/seatbelt/budget): " ++ kernel_text e)
  else utf8 ("tool failed: " ++ kernel_text e).

(** The result goes to the last record of that tool that has none. *)
Fixpoint fill_first (name : string) (result : text) (l : list ToolCall) : list ToolCall :=
  match l with
  | [] => []
  | t :: rest =>
    if String.eqb (tool_name t) name && bool_decide (tc_result t = [])
    then {| tool_name := tool_name t; arguments := arguments t; tc_result := result |} :: rest
    else t :: fill_first name result rest
  end.
Definition fill_last (name : string) (result : text) (l : list ToolCall) : list ToolCall :=
  rev (fill_first name result (rev l)).
Definition fill_results (results : list (ToolInvocation (V := V) * V)) (l : list ToolCall) : list ToolCall :=
  fold_left (fun l r => fill_last (ti_name r.1) (utf8 (j_to_string r.2)) l) results l.

Definition TOOL_PREVIEW_CHARS : nat := 100.
Definition tool_done_line (inv : ToolInvocation (V := V)) (output : V) (duration_ms : N) : text :=
  let head := match j_get output "count" ≫= j_as_u64 with
              | Some count => utf8 ("✅ " ++ ti_name inv ++ " done " ++ pretty count ++ " hits " ++ pretty duration_ms ++ "ms")
              | None => utf8 ("✅ " ++ ti_name inv ++ " done " ++ pretty duration_ms ++ "ms")
              end in
  let full := utf8 (j_to_string output) in
  head ++ utf8 nl ++ take TOOL_PREVIEW_CHARS full
  ++ (if (TOOL_PREVIEW_CHARS <? length full)%nat then utf8 ("…" ++ nl) else utf8 nl).

Definition serialize_tool_calls_fenced calls : text :=
  match calls with
  | [] => []
  | _ => utf8 ("```json" ++ nl
      ++ j_to_string (j_arr (map (fun c => j_obj [("tool"%string, j_str (pc_name c)); ("args"%string, pc_args c)]) calls))
      ++ nl ++ "```")
  end.
Definition append_native_tool_calls_fenced (t : text) calls : text :=
  let fenced := serialize_tool_calls_fenced calls in
  if bool_decide (fenced = []) then t
  else if bool_decide (trim t = []) then fenced
  else t ++ utf8 nl ++ fenced.

(** The results of a batch are screened, recorded, shown, added to the history,
    and each is the answer to its call. *)
Definition take_results (cfg : TurnConfig) calls (dispatch : list (string * ToolInvocation (V := V)))
    (answers : list UserContent) (raw : list (ToolInvocation (V := V) * V)) (latencies : list N) (st : Turn) : flow :=
  let results := map (fun r => (r.1, screen r.2)) raw in
  let st1 := emit cfg (zip_with (fun r ms => tool_done_line r.1 r.2 ms) results latencies)
               (set_calls (fill_results results (tool_calls st)) st) in
  let results_json := results_to_prompt results in
  let st2 := if streaming cfg then
               push_interaction [(Assistant, append_native_tool_calls_fenced (final_response st1) calls); (Tool, results_json)] st1
             else st1 in
  let round_entry := concat (map (fun e => e ++ utf8 (nl ++ "---" ++ nl)) (pending_rejections st2)) ++ results_json in
  let st3 := set_accumulated (push_tool_results_history (accumulated_results st2) round_entry) (set_rejections [] st2) in
  answer_and Next
    (answers ++ zip_with (fun d r => tool_result_content d.1 (ti_name r.1) (utf8 (j_to_string r.2))) dispatch results)
    calls st3.

Definition dispatch_batch (cfg : TurnConfig) calls (dispatch : list (string * ToolInvocation (V := V)))
    (answers : list UserContent) (st : Turn) : flow :=
  let st1 := push_calls (map (fun d => {| tool_name := ti_name d.2; arguments := utf8 (j_to_string (ti_args d.2)); tc_result := [] |}) dispatch)
               (emit cfg (map (fun d => utf8 ("🔧 " ++ ti_name d.2 ++ " …" ++ nl)) dispatch) st) in
  let invocations := map snd dispatch in
  let '(r, w) := dispatch_timed invocations (world st1) in
  let st2 := log_dispatched invocations (set_world w st1) in
  match r with
  | Ok (results, latencies) => take_results cfg calls dispatch answers results latencies st2
  | Err e =>
    let feedback := dispatch_error_feedback e in
    answer_and Next (map (fun c => tool_result_content (pc_id c) (pc_name c) feedback) calls) calls
      (emit cfg [utf8 ("❌ tool dispatch blocked: " ++ kernel_text e ++ nl)]
        (push_calls [{| tool_name := "<dispatch>"; arguments := []; tc_result := feedback |}] st2))
  end.

Definition call_tools (cfg : TurnConfig) calls (st : Turn) : outcome flow :=
  let st1 := next_round st in
  if (max_tool_rounds cfg <? dispatch_round st1)%nat then
    let! r := answer_pending_at_round_cap calls (max_tool_rounds cfg) st1 in
    let '(answers, notice, st2) := r in
    Done (answer_and (fun st3 => Stop (emit cfg [notice ++ utf8 nl] st3)) answers calls st2)
  else
    let '(dispatch, answers, rejected) := plan_tool_batch calls in
    match dispatch with
    | [] => Done (answer_and Next answers calls st1)
    | _ => Done (dispatch_batch cfg calls dispatch answers (push_calls rejected st1))
    end.

(** ** The loop *)

Definition turn_step (cfg : TurnConfig) (st : Turn) : outcome flow :=
  let '(r, run1) := next_step (rig st) in
  let st1 := set_rig run1 st in
  match r with
  | Err e =>
    let! recovered := recover_max_turns_error e st1 in
    Done match recovered with
         | Some st2 => Stop st2
         | None => Failed (match e with OtherPromptError m => m | MaxTurnsError _ _ => [] end) st1
         end
  | Ok (CallModel turn) => call_model cfg turn st1
  | Ok (CallTools calls) => call_tools cfg calls st1
  | Ok (RunDone output) => Done (Stop (set_response output st1))
  end.

(** The turn at the end of the loop, and the error it fails with. *)
Fixpoint turn_loop (fuel : nat) (cfg : TurnConfig) (st : Turn) : outcome (result unit text * Turn) :=
  match fuel with
  | O => OutOfFuel
  | S f =>
    let! fl := turn_step cfg st in
    match fl with
    | Next st' => turn_loop f cfg st'
    | Stop st' => Done (Ok tt, st')
    | Failed e st' => Done (Err e, st')
    end
  end.

(** ** The turn *)

Abbreviation conversation := (list (MessageRole * text)).

Definition rig_message (m : MessageRole * text) : RigMessage V :=
  match m.1 with User => MUser m.2 | Assistant => MAssistant [AText m.2] | System | Tool => MSystem m.2 end.

(** The turn before its loop, with the reservation made for it. *)
Definition new_turn (cfg : TurnConfig) (schema : option V) (retries : nat) (query : text) (conv : conversation) (w : W) : Turn :=
  {| rig := with_history (map rig_message conv)
              (with_output_validation schema retries (with_max_turns (max_tool_rounds cfg + 2) (run_new query)));
     tool_calls := []; final_response := []; dispatch_round := 0; accumulated_results := []; pending_rejections := [];
     reservations := 1; interaction_turns := []; shown := []; trace := {| asked := []; dispatched := []; answered := [] |};
     world := w |}.

Definition turn_gated (has_mutating_tool_calls : bool) (s : Sensitivity) : bool :=
  has_mutating_tool_calls || bool_decide (s = Confidential).
Definition gated (s : Sensitivity) (st : Turn) : bool :=
  turn_gated (existsb (fun tc => mutates (tool_name tc)) (tool_calls st)) s.

Definition skipped_review : PipelineResult :=
  {| plan_approved := true; review_notes := utf8 "quality gate skipped: no mutating tool calls this turn";
     delivery_ready := true; athena_shield := None; failed_attempts := [] |}.

Definition veto_feedback (notes : text) : text :=
  utf8 ("Your draft answer was rejected by the quality gate:" ++ nl) ++ notes
  ++ utf8 (nl ++ "Address the findings and answer the user again.").

(** The verdict, how many redrafts, and the redraft. *)
Definition review_with_feedback_round (input response : text) (w : W)
    : result (PipelineResult * nat * option text) text * W :=
  let '(review, w1) := review_pipeline input response w in
  if plan_approved review then (Ok (review, 0%nat, None), w1)
  else
    let '(r, w2) := redraft (veto_feedback (review_notes review)) w1 in
    match r with
    | Err e => (Err e, w2)
    | Ok redrafted =>
      let '(review2, w3) := review_pipeline input redrafted w2 in (Ok (review2, 1%nat, Some redrafted), w3)
    end.

Record AgentExecution := { ex_response : text; quality_notes : text; ex_ready : bool; ex_calls : list ToolCall }.

Definition review_input (cfg : TurnConfig) (query : text) (w : W) : text :=
  gate_input_with_background query (live_for_session (turn_session cfg) (background w)) (now_ms w).

(** The end of [execute]. *)
Definition finish_execute (cfg : TurnConfig) (s : Sensitivity) (query : text) (conv : conversation) (st : Turn)
    : result (AgentExecution * conversation) text * W :=
  let g := gated s st in
  let '(r, w) := if g then review_with_feedback_round (review_input cfg query (world st)) (final_response st) (world st)
                 else (Ok (skipped_review, 0%nat, None), world st) in
  match r with
  | Err e => (Err e, w)
  | Ok (review, _, _) =>
    let response := if g && negb (plan_approved review) then apply_verdict_notice (review_notes review) (final_response st)
                    else final_response st in
    (Ok ({| ex_response := response; quality_notes := review_notes review; ex_ready := delivery_ready review;
            ex_calls := tool_calls st |}, conv ++ [(User, query); (Assistant, response)]), w)
  end.

(** The end of [execute_stream]: the answer, what was shown, the conversation. *)
Definition finish_stream (cfg : TurnConfig) (s : Sensitivity) (query : text) (conv : conversation) (st : Turn)
    : text * list text * conversation * W :=
  let g := gated s st in
  let '(review, w) := if g then review_pipeline (review_input cfg query (world st)) (final_response st) (world st)
                      else (skipped_review, world st) in
  let marker := match stream_gate_marker review g with Some m => [m] | None => [] end in
  (final_response st, shown st ++ marker,
   conv ++ [(User, query)] ++ interaction_turns st ++ [(Assistant, final_response st)], w).

Definition no_budget : text := utf8 "Token budget exhausted".

(** [execute] and [execute_stream], from the reservation on. *)
Definition execute (fuel : nat) (cfg : TurnConfig) (schema : option V) (retries : nat) (s : Sensitivity) (query : text)
    (conv : conversation) (w : W) : outcome (result (AgentExecution * conversation) text * W) :=
  match try_reserve 0 w with
  | (Err e, w1) => Done (Err e, w1)
  | (Ok false, w1) => Done (Err no_budget, w1)
  | (Ok true, w1) =>
    let! r := turn_loop fuel cfg (new_turn cfg schema retries query conv w1) in
    match r with
    | (Err e, st) => Done (Err e, world st)
    | (Ok _, st) => Done (finish_execute cfg s query conv st)
    end
  end.

Definition execute_stream (fuel : nat) (cfg : TurnConfig) (schema : option V) (retries : nat) (s : Sensitivity) (query : text)
    (conv : conversation) (w : W) : outcome (result (text * list text * conversation) text * W) :=
  match try_reserve 0 w with
  | (Err e, w1) => Done (Err e, w1)
  | (Ok false, w1) => Done (Err no_budget, w1)
  | (Ok true, w1) =>
    let! r := turn_loop fuel cfg (new_turn cfg schema retries query conv w1) in
    match r with
    | (Err e, st) => Done (Err e, world st)
    | (Ok _, st) => let '(answer, l, conv', w') := finish_stream cfg s query conv st in Done (Ok (answer, l, conv'), w')
    end
  end.
End turn.
Arguments Turn V {_} W.
Arguments Trace V : clear implicits.
