(* ===== verification/OrchestratorProps.v ===== *)
(** * Properties of the agentic loop

    The laws of rig's run that are used, an implementation that has them, and
    what every turn does: it ends, its batches are bounded, each pending call is
    answered once, only granted tools are dispatched; and the runs that go
    wrong. *)

From S2P Require Import Prelude Types Json Text Sandbox TaskRegistry ToolHooks ToolText Orchestrator.
From Stdlib Require Import Lia.
Local Open Scope list_scope.

(** ** The laws of a run *)

Definition call_named {V} (ns : list string) (c : AssistantContent V) : Prop :=
  match c with ACall _ name _ => name ∈ ns | AText _ => True end.

(** [offers ns r]: the calls [r] holds are named in [ns].  [turn_limit]: the
    model calls it allows. *)
Class AgentRunLaws (V : Type) {HRig : AgentRun V} := {
  offers : list string -> run V -> Prop;
  turn_limit : run V -> nat;
  new_offers ns t : offers ns (run_new t);
  limit_offers ns n r : offers ns r -> offers ns (with_max_turns n r);
  validation_offers ns o n r : offers ns r -> offers ns (with_output_validation o n r);
  history_offers ns l r : offers ns r -> offers ns (with_history l r);
  step_offers ns r : offers ns r -> offers ns (next_step r).2;
  response_offers ns l r : Forall (call_named ns) l -> offers ns r -> offers ns (model_response l ns r).2;
  skip_offers ns r : offers ns r -> offers ns (skip_invalid r).2;
  results_offers ns l r : offers ns r -> offers ns (give_results l r).2;
  step_calls ns r calls : offers ns r -> (next_step r).1 = Ok (CallTools calls) ->
    Forall (fun c => preresolved_result c = None -> pc_name c ∈ ns) calls;
  step_preresolved ns r calls : offers ns r -> (next_step r).1 = Ok (CallTools calls) ->
    Forall (fun c => forall u, preresolved_result c = Some u -> uc_id u = pc_id c) calls;
  limit_limit n r : turn_limit (with_max_turns n r) = n;
  validation_limit o n r : turn_limit (with_output_validation o n r) = turn_limit r;
  history_limit l r : turn_limit (with_history l r) = turn_limit r;
  step_limit r : turn_limit (next_step r).2 = turn_limit r;
  response_limit l ns r : turn_limit (model_response l ns r).2 = turn_limit r;
  skip_limit r : turn_limit (skip_invalid r).2 = turn_limit r;
  results_limit l r : turn_limit (give_results l r).2 = turn_limit r;
  step_turn r turn : (next_step r).1 = Ok (CallModel turn) -> turn <= turn_limit r;
}.

Section props.
Context {V : Type} {HJson : Json V} {HRig : AgentRun V} {HLaws : AgentRunLaws V} {W : Type} {HEnv : TurnEnv V W}.
Implicit Types (calls : list (PendingToolCall V)) (st : Turn V W).

Definition flow_turn (f : flow (V := V) (W := W)) : Turn V W :=
  match f with Next st | Stop st | Failed _ st => st end.

(** ** What the steps leave alone *)

(** The observations that most steps keep. *)
Definition same_log (st st' : Turn V W) : Prop :=
  dispatch_round st' = dispatch_round st /\ dispatched (trace st') = dispatched (trace st)
  /\ answered (trace st') = answered (trace st).

Lemma same_log_refl st : same_log st st.
Proof. done. Qed.
Lemma same_log_trans st1 st2 st3 : same_log st1 st2 -> same_log st2 st3 -> same_log st1 st3.
Proof. intros (?&?&?) (?&?&?). repeat split; congruence. Qed.
Lemma same_log_emit cfg l st : same_log st (emit cfg l st).
Proof. unfold emit. by destruct (streaming cfg). Qed.
Lemma rig_emit cfg l st : rig (emit cfg l st) = rig st.
Proof. unfold emit. by destruct (streaming cfg). Qed.
Lemma reservations_emit cfg l st : reservations (emit cfg l st) = reservations st.
Proof. unfold emit. by destruct (streaming cfg). Qed.
Lemma asked_emit cfg l st : asked (trace (emit cfg l st)) = asked (trace st).
Proof. unfold emit. by destruct (streaming cfg). Qed.
Lemma accumulated_emit cfg l st : accumulated_results (emit cfg l st) = accumulated_results st.
Proof. unfold emit. by destruct (streaming cfg). Qed.
Lemma world_emit cfg l st : world (emit cfg l st) = world st.
Proof. unfold emit. by destruct (streaming cfg). Qed.

(** A step of the model's side: nothing is dispatched or answered; [n]
    reservations and [k] requests more. *)
Record quiet_step (n k : nat) (st st' : Turn V W) : Prop := {
  quiet_log : same_log st st';
  quiet_held : reservations st' = n + reservations st;
  quiet_asked : length (asked (trace st')) = k + length (asked (trace st));
}.

Lemma quiet_trans n k n' k' st1 st2 st3 :
  quiet_step n k st1 st2 -> quiet_step n' k' st2 st3 -> quiet_step (n' + n) (k' + k) st1 st3.
Proof. intros [? H1 H2] [? H3 H4]. split; [by eapply same_log_trans|lia..]. Qed.

Lemma quiet_emit cfg l st : quiet_step 0 0 st (emit cfg l st).
Proof. split; [apply same_log_emit|apply reservations_emit|by rewrite asked_emit]. Qed.

Lemma quiet_emit_l cfg l n k st st' : quiet_step n k (emit cfg l st) st' -> quiet_step n k st st'.
Proof.
  intros H. replace n with (n + 0) by lia. replace k with (k + 0) by lia.
  by apply (quiet_trans _ _ _ _ _ _ _ (quiet_emit cfg l st)).
Qed.

(** Updates of other fields. *)
Lemma quiet_other st st' : trace st' = trace st -> dispatch_round st' = dispatch_round st ->
  reservations st' = reservations st -> quiet_step 0 0 st st'.
Proof. intros Ht Hd Hr. repeat split; by rewrite ?Ht. Qed.

Lemma quiet_notices cfg pairs st :
  quiet_step 0 0 st (fold_left (push_notice cfg) pairs st) /\ rig (fold_left (push_notice cfg) pairs st) = rig st.
Proof.
  revert st. induction pairs as [|p pairs IH]; intros st; [by split|]. cbn [fold_left].
  destruct (IH (push_notice cfg st p)) as [Hq ->]. unfold push_notice at 3. cbn. rewrite rig_emit. split; [|done].
  apply (quiet_emit_l cfg [p.2 ++ utf8 nl]). destruct Hq as [[??] ??]. by split.
Qed.

Lemma ask_model_step cfg st : quiet_step 0 1 st (ask_model cfg st).2 /\ rig (ask_model cfg st).2 = rig st.
Proof.
  unfold ask_model. destruct (streaming cfg) eqn:Hs.
  - destruct (execute_stream_round _ _) as [[chunks r] w]. cbn. rewrite rig_emit. split; [|done].
    assert (H : quiet_step 0 1 st (log_asked (join_tool_results_history (accumulated_results st)) st)).
    { split; [done..|]. cbn. rewrite length_app. cbn. lia. }
    pose proof (quiet_trans _ _ _ _ _ _ _ H (quiet_emit cfg chunks _)) as [[??] ??]. by split.
  - destruct (execute_model_call _ _) as [r w]. split; [|done]. split; [done..|]. cbn. rewrite length_app. cbn. lia.
Qed.

Lemma mark_step cfg ids st : quiet_step 0 0 st (mark_background_notices_consumed cfg ids st)
  /\ rig (mark_background_notices_consumed cfg ids st) = rig st.
Proof. by destruct ids. Qed.

(** ** The model's side *)

(** The run holds only granted calls, and at most the turns it began with. *)
Definition ready (cfg : TurnConfig) (r : run V) : Prop :=
  offers (tool_names cfg) r /\ turn_limit r <= max_tool_rounds cfg + 2.

Lemma resolve_invalid_ready cfg n r : ready cfg r -> ready cfg (resolve_invalid n r).2.
Proof.
  revert r. induction n as [|n IH]; intros r [Ho Hl]; [done|]. cbn [resolve_invalid].
  pose proof (skip_offers (tool_names cfg) r Ho) as Ho'. pose proof (skip_limit r) as Hl'.
  destruct (skip_invalid r) as [[[| |]|e] r1]; cbn in *; try apply IH; split; by rewrite ?Hl'.
Qed.

Lemma content_named ns response granted : Forall (fun inv => ti_name inv ∈ ns) granted ->
  Forall (call_named ns) (assistant_content (V := V) response granted).
Proof.
  intros Hg. constructor; [done|]. apply Forall_lookup. intros i c Hi. rewrite list_lookup_imap in Hi.
  destruct (granted !! i) as [inv|] eqn:Hi'; cbn in Hi; [|done]. simplify_eq. exact (Forall_lookup_1 _ _ _ _ Hg Hi').
Qed.

Lemma hand_over_step cfg response granted st :
  Forall (fun inv => ti_name inv ∈ tool_names cfg) granted -> ready cfg (rig st) ->
  quiet_step 0 0 st (flow_turn (hand_over cfg response granted st)) /\ ready cfg (rig (flow_turn (hand_over cfg response granted st))).
Proof.
  intros Hg [Ho Hl]. unfold hand_over.
  pose proof (response_offers _ _ _ (content_named (tool_names cfg) response granted Hg) Ho) as Ho'.
  pose proof (response_limit (assistant_content response granted) (tool_names cfg) (rig st)) as Hl'.
  destruct (model_response _ _ _) as [r run1]. cbn in Ho', Hl'.
  assert (Hr : ready cfg run1) by (split; [done|by rewrite Hl']).
  destruct r as [[| |]|e]; [split; [by apply quiet_other|exact Hr]| |split; [by apply quiet_other|exact Hr]..].
  pose proof (resolve_invalid_ready cfg (S (length granted)) run1 Hr) as Hr2.
  destruct (resolve_invalid _ _) as [[[]|e] run2]; (split; [by apply quiet_other|exact Hr2]).
Qed.

Lemma restart_step cfg turn feedback st : turn <= max_tool_rounds cfg + 2 ->
  exists st', restart_run cfg turn feedback st = Done st' /\ quiet_step 0 0 st st' /\ ready cfg (rig st').
Proof.
  intros Ht. unfold restart_run. destruct (Nat.ltb_spec (max_tool_rounds cfg + 2) turn); [lia|].
  eexists. split; [reflexivity|]. split; [done|]. cbn [rig set_rig].
  assert (Hr : ready cfg (with_max_turns (max_tool_rounds cfg + 2 - turn) (run_new feedback))).
  { split; [apply limit_offers, new_offers|]. rewrite limit_limit. lia. }
  revert Hr. generalize (with_max_turns (max_tool_rounds cfg + 2 - turn) (run_new (V := V) feedback)).
  induction (messages (rig st)) as [|m l IH]; intros r Hr; [done|]. cbn [fold_left]. apply IH. destruct Hr as [Ho Hl].
  split; [by apply history_offers|]. by rewrite history_limit.
Qed.

Lemma quiet_same st st' : quiet_step 0 0 st st' -> forall n k st'', quiet_step n k st' st'' -> quiet_step n k st st''.
Proof. intros H n k st'' H'. replace n with (n + 0) by lia. replace k with (k + 0) by lia. by eapply quiet_trans. Qed.

Lemma quiet_push_calls l st : quiet_step 0 0 st (push_calls l st).
Proof. by apply quiet_other. Qed.
Lemma rig_push_calls l st : rig (push_calls l st) = rig st.
Proof. done. Qed.
Lemma quiet_set_rejections l st : quiet_step 0 0 st (set_rejections l st).
Proof. by apply quiet_other. Qed.
Lemma rig_set_rejections l st : rig (set_rejections l st) = rig st.
Proof. done. Qed.

Lemma quiet_set_response t st : quiet_step 0 0 st (set_response t st).
Proof. by apply quiet_other. Qed.

Lemma errors_step cfg errors st : quiet_step 0 0 st (record_parse_errors cfg errors st)
  /\ rig (record_parse_errors cfg errors st) = rig st.
Proof.
  unfold record_parse_errors. rewrite rig_push_calls, rig_emit. split; [|reflexivity].
  exact (quiet_same _ _ (quiet_emit _ _ _) _ _ _ (quiet_push_calls _ _)).
Qed.

Lemma rejections_step cfg rejected st : quiet_step 0 0 st (record_rejections cfg rejected st)
  /\ rig (record_rejections cfg rejected st) = rig st.
Proof.
  unfold record_rejections. rewrite rig_set_rejections, rig_push_calls, rig_emit. split; [|reflexivity].
  exact (quiet_same _ _ (quiet_same _ _ (quiet_emit _ _ _) _ _ _ (quiet_push_calls _ _)) _ _ _ (quiet_set_rejections _ _)).
Qed.

Lemma granted_named (invocations : list (ToolInvocation (V := V))) ns :
  Forall (fun inv => ti_name inv ∈ ns) (partition_granted_invocations invocations ns).1.
Proof. apply Forall_forall. intros inv. cbn. rewrite list_elem_of_In, <- list_elem_of_In. by intros [? _]%list_elem_of_filter. Qed.

Lemma granted_step cfg response invocations st : ready cfg (rig st) ->
  let '(granted, rejected) := partition_granted_invocations invocations (tool_names cfg) in
  let f := hand_over cfg response granted (record_rejections cfg rejected st) in
  quiet_step 0 0 st (flow_turn f) /\ ready cfg (rig (flow_turn f)).
Proof.
  intros Hr. pose proof (granted_named invocations (tool_names cfg)) as Hg.
  destruct (partition_granted_invocations _ _) as [granted rejected]. cbn in Hg.
  destruct (rejections_step cfg rejected st) as [Hq He].
  destruct (hand_over_step cfg response granted (record_rejections cfg rejected st)) as [Hh Hr']; [done|by rewrite He|].
  split; [|done]. by eapply quiet_same.
Qed.

Lemma take_reply_step cfg turn response native st : turn <= max_tool_rounds cfg + 2 -> ready cfg (rig st) ->
  exists f, take_reply cfg turn response native st = Done f /\ quiet_step 0 0 st (flow_turn f) /\ ready cfg (rig (flow_turn f)).
Proof.
  intros Ht Hr. unfold take_reply. destruct (resolve_total j_parse normalize response native) as [[[invocations errors] degraded] ->].
  cbn [obind].
  set (st1 := if degraded then _ else st).
  assert (Hst1 : quiet_step 0 0 st st1 /\ rig st1 = rig st).
  { subst st1. destruct degraded; [|done]. rewrite rig_emit. split; [apply quiet_emit|done]. }
  destruct Hst1 as [Hq1 He1]. destruct (errors_step cfg errors st1) as [Hq2 He2].
  set (st2 := record_parse_errors cfg errors st1) in *.
  assert (Hq : quiet_step 0 0 st st2) by (by eapply quiet_same). assert (Hr2 : ready cfg (rig st2)) by by rewrite He2, He1.
  assert (Hgo : exists f, Done (let '(granted, rejected) := partition_granted_invocations invocations (tool_names cfg) in
      hand_over cfg response granted (record_rejections cfg rejected st2)) = Done f
      /\ quiet_step 0 0 st (flow_turn f) /\ ready cfg (rig (flow_turn f))).
  { pose proof (granted_step cfg response invocations st2 Hr2) as Hg. destruct (partition_granted_invocations _ _) as [g r].
    destruct Hg as [Hg1 Hg2]. eexists. split; [reflexivity|]. split; [by eapply quiet_same|done]. }
  destruct invocations as [|inv invocations], errors as [|e errors];
    try (destruct (partition_granted_invocations _ _) as [g r]; exact Hgo).
  set (st3 := if streaming cfg then _ else st2). 
  assert (Hq3 : quiet_step 0 0 st st3).
  { subst st3. destruct (streaming cfg); [|exact Hq]. exact (quiet_same _ _ Hq _ _ _ (quiet_other st2 (push_interaction _ st2) eq_refl eq_refl eq_refl)). }
  destruct (restart_step cfg turn (parse_feedback (e :: errors)) st3 Ht) as (st4 & -> & Hq4 & Hr4). cbn [obind].
  eexists. split; [reflexivity|]. split; [exact (quiet_same _ _ Hq3 _ _ _ Hq4)|exact Hr4].
Qed.

Lemma model_round_step cfg turn st : turn <= max_tool_rounds cfg + 2 -> ready cfg (rig st) ->
  exists f, model_round cfg turn st = Done f /\ quiet_step 0 1 st (flow_turn f) /\ ready cfg (rig (flow_turn f)).
Proof.
  intros Ht Hr. unfold model_round. set (pairs := drain_background_notice_pairs cfg st).
  destruct (quiet_notices cfg pairs st) as [Hq1 He1]. set (st1 := fold_left (push_notice cfg) pairs st) in *.
  destruct (ask_model_step cfg st1) as [Hq2 He2]. destruct (ask_model cfg st1) as [[[response native]|e] st2]; cbn in Hq2, He2.
  - destruct (mark_step cfg (map fst pairs) st2) as [Hq3 He3].
    destruct (take_reply_step cfg turn response native (mark_background_notices_consumed cfg (map fst pairs) st2) Ht)
      as (f & -> & Hq4 & Hr4); [by rewrite He3, He2, He1|].
    exists f. split; [done|]. split; [|done]. exact (quiet_same _ _ Hq1 _ _ _ (quiet_trans _ _ _ _ _ _ _ Hq2 (quiet_same _ _ Hq3 _ _ _ Hq4))).
  - eexists. split; [reflexivity|]. cbn [flow_turn]. split; [by eapply quiet_same|by rewrite He2, He1].
Qed.

Lemma exhausted_step cfg st : exists st', budget_exhausted cfg st = Done (Stop st') /\ quiet_step 0 0 st st'.
Proof.
  unfold budget_exhausted, apply_exhaustion_notice. destruct (strip_total (final_response st)) as [s Hs]. cbn [push_calls final_response].
  rewrite Hs. cbn [obind]. eexists. split; [reflexivity|]. exact (quiet_same _ _ (quiet_same _ _ (quiet_push_calls _ _) _ _ _ (quiet_set_response _ _)) _ _ _ (quiet_emit _ _ _)).
Qed.

(** A model call takes a reservation, unless the budget fails; without one the
    loop stops. *)
Lemma call_model_step cfg turn st : turn <= max_tool_rounds cfg + 2 -> ready cfg (rig st) ->
  exists f, call_model cfg turn st = Done f /\
  match try_reserve (reservations st) (world st) with
  | (Ok true, _) => quiet_step 1 1 st (flow_turn f) /\ ready cfg (rig (flow_turn f))
  | (Ok false, _) => (exists st', f = Stop st') /\ quiet_step 0 0 st (flow_turn f)
  | (Err _, _) => quiet_step 0 1 st (flow_turn f) /\ ready cfg (rig (flow_turn f))
  end.
Proof.
  intros Ht Hr. unfold call_model. destruct (try_reserve (reservations st) (world st)) as [[[]|e] w].
  - destruct (model_round_step cfg turn (hold_reservation (set_world w st)) Ht Hr) as (f & -> & Hq & Hf).
    exists f. split; [done|]. split; [|done]. destruct Hq as [Hl Hh Ha]. cbn in Hh, Ha. split; [exact Hl|lia..].
  - destruct (exhausted_step cfg (set_world w st)) as (st' & -> & Hq). exists (Stop st'). split; [done|]. split; [by eexists|].
    destruct Hq. by split.
  - destruct (model_round_step cfg turn (set_world w st) Ht Hr) as (f & -> & Hq & Hf). exists f. split; [done|]. split; [|done].
    destruct Hq. by split.
Qed.

(** ** The side of the tools *)

Lemma plan_go calls acc :
  Forall (fun c => forall u, preresolved_result c = Some u -> uc_id u = pc_id c) calls ->
  let '(d, a, r) := fold_left plan_one calls acc in
  map fst d ++ map uc_id a ≡ₚ (map fst acc.1.1 ++ map uc_id acc.1.2) ++ map pc_id calls
  /\ exists d', d = acc.1.1 ++ d' /\
     Forall (fun x => exists c, c ∈ calls /\ preresolved_result c = None /\ normalize (pc_name c) (pc_args c) = Ok x.2) d'.
Proof.
  intros Hpre. revert acc. induction Hpre as [|c calls Hc _ IH]; intros [[d a] r].
  { cbn. rewrite app_nil_r. split; [done|]. exists []. by rewrite app_nil_r. }
  cbn [fold_left]. pose proof (IH (plan_one (d, a, r) c)) as H. destruct (fold_left plan_one calls _) as [[d2 a2] r2].
  destruct H as [Hp (d' & Hd & Hf)].
  assert (Hlater : Forall (fun x => exists c0, c0 ∈ c :: calls /\ preresolved_result c0 = None
                     /\ normalize (pc_name c0) (pc_args c0) = Ok x.2) d').
  { eapply Forall_impl; [exact Hf|]. intros x (c0 & ? & ?). exists c0. split; [by right|done]. }
  unfold plan_one in Hp, Hd. destruct (preresolved_result c) as [u|] eqn:Hu; cbn [fst snd] in *.
  - split; [|by exists d']. rewrite Hp, map_app. cbn [map]. rewrite (Hc u eq_refl). solve_Permutation.
  - destruct (normalize (pc_name c) (pc_args c)) as [inv|e] eqn:Hn; cbn [fst snd] in *.
    + split; [rewrite Hp, map_app; cbn [map fst]; solve_Permutation|]. exists ((pc_id c, inv) :: d').
      rewrite Hd, <- app_assoc. split; [done|]. constructor; [|done]. exists c. by split; [left|].
    + split; [|by exists d']. rewrite Hp, map_app. cbn [map uc_id tool_result_content]. solve_Permutation.
Qed.

Definition preresolved_ok calls : Prop :=
  Forall (fun c => forall u, preresolved_result c = Some u -> uc_id u = pc_id c) calls.

Lemma plan_spec calls : preresolved_ok calls ->
  let '(d, a, r) := plan_tool_batch calls in
  map fst d ++ map uc_id a ≡ₚ map pc_id calls
  /\ Forall (fun x => exists c, c ∈ calls /\ preresolved_result c = None /\ normalize (pc_name c) (pc_args c) = Ok x.2) d.
Proof.
  intros Hpre. pose proof (plan_go calls ([], [], []) Hpre) as H. unfold plan_tool_batch.
  destruct (fold_left plan_one calls ([], [], [])) as [[d a] r]. cbn in H. destruct H as [Hp (d' & -> & Hf)]. by split.
Qed.

(** Each pending call is answered once. *)
Definition answers_exactly calls (l : list UserContent) : Prop := l <> [] /\ map uc_id l ≡ₚ map pc_id calls.

Lemma answer_all calls (f : PendingToolCall V -> UserContent) : (forall c, uc_id (f c) = pc_id c) ->
  map uc_id (map f calls) = map pc_id calls.
Proof. intros Hf. rewrite map_map. by apply map_ext. Qed.

(** What answering a batch changes. *)
Record batch_answered calls (st st' : Turn V W) : Prop := {
  ba_round : dispatch_round st' = dispatch_round st;
  ba_dispatched : dispatched (trace st') = dispatched (trace st);
  ba_asked : asked (trace st') = asked (trace st);
  ba_held : reservations st' = reservations st;
  ba_rig : rig st' = rig st \/ exists l, rig st' = (give_results l (rig st)).2;
  ba_answers : calls = [] /\ answered (trace st') = answered (trace st)
    \/ exists l, answered (trace st') = answered (trace st) ++ [(calls, l)] /\ answers_exactly calls l;
}.

Lemma ensured_step answers calls st : map uc_id answers ≡ₚ map pc_id calls ->
  batch_answered calls st (ensured_tool_results answers calls st).2.
Proof.
  intros Hp. destruct answers as [|a answers].
  - apply Permutation_nil in Hp. apply map_eq_nil in Hp as ->. cbn. by split; auto.
  - unfold ensured_tool_results. destruct (give_results (a :: answers) (rig st)) as [r run'] eqn:Hgr.
    split; [done..|right; exists (a :: answers); by rewrite Hgr|]. right. exists (a :: answers). by split.
Qed.

Lemma batch_emit cfg calls l st st' : batch_answered calls st st' -> batch_answered calls st (emit cfg l st').
Proof. intros [????? Ha]. unfold emit. destruct (streaming cfg); by split. Qed.

(** Updates of other fields, before. *)
Lemma batch_before calls st0 st st' : trace st0 = trace st -> dispatch_round st0 = dispatch_round st ->
  reservations st0 = reservations st -> rig st0 = rig st -> batch_answered calls st0 st' -> batch_answered calls st st'.
Proof. intros Ht Hd Hr Hg [?????]. rewrite Ht, ?Hd, ?Hr, ?Hg in *. by split. Qed.

Lemma answer_and_step (k : Turn V W -> flow) answers calls st : map uc_id answers ≡ₚ map pc_id calls ->
  (forall s, batch_answered calls st s -> batch_answered calls st (flow_turn (k s))) ->
  batch_answered calls st (flow_turn (answer_and k answers calls st)).
Proof.
  intros Hp Hk. unfold answer_and. pose proof (ensured_step answers calls st Hp) as He.
  destruct (ensured_tool_results answers calls st) as [[[]|e] st1]; [by apply Hk|done].
Qed.

(** A batch: at most one dispatch, of calls that were pending, within the cap. *)
Record tools_step (cfg : TurnConfig) calls (st st' : Turn V W) : Prop := {
  ts_round : dispatch_round st' = S (dispatch_round st);
  ts_asked : asked (trace st') = asked (trace st);
  ts_held : reservations st' = reservations st;
  ts_rig : rig st' = rig st \/ exists l, rig st' = (give_results l (rig st)).2;
  ts_dispatched : dispatched (trace st') = dispatched (trace st)
    \/ S (dispatch_round st) <= max_tool_rounds cfg /\ exists invs, dispatched (trace st') = dispatched (trace st) ++ [invs]
       /\ Forall (fun inv => exists c, c ∈ calls /\ preresolved_result c = None
                             /\ normalize (pc_name c) (pc_args c) = Ok inv) invs;
  ts_answered : calls = [] /\ answered (trace st') = answered (trace st)
    \/ exists l, answered (trace st') = answered (trace st) ++ [(calls, l)] /\ answers_exactly calls l;
}.

Lemma tools_undispatched cfg calls st st' : batch_answered calls (next_round st) st' -> tools_step cfg calls st st'.
Proof. intros [?????]. split; [done..|by left|done]. Qed.

Lemma tools_dispatched cfg calls st st0 st' invs :
  trace st0 = {| asked := asked (trace st); dispatched := dispatched (trace st) ++ [invs]; answered := answered (trace st) |} ->
  dispatch_round st0 = S (dispatch_round st) -> reservations st0 = reservations st -> rig st0 = rig st ->
  S (dispatch_round st) <= max_tool_rounds cfg ->
  Forall (fun inv => exists c, c ∈ calls /\ preresolved_result c = None /\ normalize (pc_name c) (pc_args c) = Ok inv) invs ->
  batch_answered calls st0 st' -> tools_step cfg calls st st'.
Proof.
  intros Ht Hd Hh Hg Hm Hf [?????]. rewrite Ht, ?Hd, ?Hh, ?Hg in *. cbn in *. split; [done..| |done].
  right. split; [done|]. by exists invs.
Qed.

Lemma trace_emit cfg l st : trace (emit cfg l st) = trace st.
Proof. unfold emit. by destruct (streaming cfg). Qed.
Lemma round_emit cfg l st : dispatch_round (emit cfg l st) = dispatch_round st.
Proof. unfold emit. by destruct (streaming cfg). Qed.

Ltac before_batch :=
  match goal with |- batch_answered ?calls ?st (flow_turn (answer_and _ _ _ ?s)) => apply (batch_before calls s st) end.

Lemma cap_step cfg calls max st : exists answers notice st', answer_pending_at_round_cap calls max st = Done (answers, notice, st')
  /\ map uc_id answers = map pc_id calls
  /\ trace st' = trace st /\ dispatch_round st' = dispatch_round st /\ reservations st' = reservations st /\ rig st' = rig st
  /\ batch_answered calls st (flow_turn (answer_and (fun s => Stop (emit cfg [notice ++ utf8 nl] s)) answers calls st')).
Proof.
  unfold answer_pending_at_round_cap. set (error := cap_error max). set (entry := concat (map (cap_entry error) calls)).
  set (st1 := push_calls _ st).
  set (st2 := if bool_decide (entry = []) then st1 else _).
  assert (H2 : trace st2 = trace st /\ dispatch_round st2 = dispatch_round st /\ reservations st2 = reservations st /\ rig st2 = rig st)
    by (subst st2; by destruct (bool_decide (entry = []))).
  destruct (strip_total (final_response st2)) as [s ->]. cbn [obind]. destruct H2 as (Ht & Hd & Hh & Hg).
  do 3 eexists. split; [reflexivity|]. assert (Hi : map uc_id (map (fun p => tool_result_content (pc_id p) (pc_name p) error) calls)
    = map pc_id calls) by by apply answer_all.
  split_and!; [exact Hi|exact Ht|exact Hd|exact Hh|exact Hg|].
  before_batch; [exact Ht|exact Hd|exact Hh|exact Hg|].
  apply answer_and_step; [by rewrite Hi|]. intros s' Hs. exact (batch_emit _ _ _ _ _ Hs).
Qed.

Lemma zip_ids (d : list (string * ToolInvocation (V := V))) (results : list (ToolInvocation (V := V) * V)) f :
  length results = length d ->
  map uc_id (zip_with (fun d r => tool_result_content d.1 (f r) (utf8 (j_to_string r.2))) d results) = map fst d.
Proof.
  revert results. induction d as [|x d IH]; intros [|r results] Hl; cbn in *; try lia; [done|]. f_equal. apply IH. lia.
Qed.

Lemma take_results_step cfg calls d answers raw latencies st :
  length raw = length d -> map fst d ++ map uc_id answers ≡ₚ map pc_id calls ->
  batch_answered calls st (flow_turn (take_results cfg calls d answers raw latencies st)).
Proof.
  intros Hl Hp. unfold take_results. set (results := map (fun r => (r.1, screen r.2)) raw).
  set (st1 := emit cfg _ _). set (st2 := if streaming cfg then _ else st1).
  assert (H1 : trace st1 = trace st /\ dispatch_round st1 = dispatch_round st /\ reservations st1 = reservations st /\ rig st1 = rig st)
    by (subst st1; by rewrite trace_emit, round_emit, reservations_emit, rig_emit).
  assert (H2 : trace st2 = trace st /\ dispatch_round st2 = dispatch_round st /\ reservations st2 = reservations st /\ rig st2 = rig st)
    by (subst st2; destruct (streaming cfg); exact H1).
  destruct H2 as (Ht & Hd & Hh & Hg).
  before_batch; [exact Ht|exact Hd|exact Hh|exact Hg|].
  apply answer_and_step; [|done].
  rewrite map_app, (zip_ids d results (fun r => ti_name r.1)) by (subst results; by rewrite length_map).
  rewrite <- Hp. apply Permutation_app_comm.
Qed.

Lemma dispatch_timed_length invocations (w : W) results latencies w' :
  dispatch_timed invocations w = (Ok (results, latencies), w') -> length results = length invocations.
Proof.
  unfold dispatch_timed. destruct (dispatch_each invocations w) as [outcomes w2].
  pose proof (round_positional kernel_text (imap (fun i inv => (inv, (outcomes i).1)) invocations)) as Hr.
  destruct (collect_round _ _) as [l|e]; [|done]. intros [= -> _ _].
  apply (f_equal length) in Hr. by rewrite !length_map, length_imap in Hr.
Qed.

Lemma dispatch_batch_step cfg calls d answers st st0 : preresolved_ok calls ->
  trace st0 = trace st -> dispatch_round st0 = S (dispatch_round st) -> reservations st0 = reservations st -> rig st0 = rig st ->
  S (dispatch_round st) <= max_tool_rounds cfg ->
  map fst d ++ map uc_id answers ≡ₚ map pc_id calls ->
  Forall (fun x => exists c, c ∈ calls /\ preresolved_result c = None /\ normalize (pc_name c) (pc_args c) = Ok x.2) d ->
  tools_step cfg calls st (flow_turn (dispatch_batch cfg calls d answers st0)).
Proof.
  intros Hpre Ht Hd Hh Hg Hm Hp Hf. unfold dispatch_batch. set (st1 := push_calls _ _).
  assert (H1 : trace st1 = trace st /\ dispatch_round st1 = S (dispatch_round st) /\ reservations st1 = reservations st /\ rig st1 = rig st).
  { subst st1. cbn [trace dispatch_round reservations rig push_calls]. by rewrite trace_emit, round_emit, reservations_emit, rig_emit. }
  destruct H1 as (Ht1 & Hd1 & Hh1 & Hg1).
  assert (Hlog : forall w, trace (log_dispatched (map snd d) (set_world w st1))
    = {| asked := asked (trace st); dispatched := dispatched (trace st) ++ [map snd d]; answered := answered (trace st) |})
    by (intros w; rewrite <- Ht1; reflexivity).
  clearbody st1. destruct (dispatch_timed (map snd d) (world st1)) as [[[results latencies]|e] w] eqn:Hdt;
    apply (tools_dispatched cfg calls st (log_dispatched (map snd d) (set_world w st1)) _ (map snd d));
    [apply Hlog|exact Hd1|exact Hh1|exact Hg1|exact Hm|by apply Forall_map|
    |apply Hlog|exact Hd1|exact Hh1|exact Hg1|exact Hm|by apply Forall_map|].
  - apply take_results_step; [|done]. apply dispatch_timed_length in Hdt. by rewrite length_map in Hdt.
  - before_batch;
      [rewrite trace_emit; reflexivity|rewrite round_emit; reflexivity|rewrite reservations_emit; reflexivity|rewrite rig_emit; reflexivity|].
    apply answer_and_step; [|done]. by rewrite answer_all.
Qed.

(** A batch of pending calls: past the cap the loop stops. *)
Lemma call_tools_step cfg calls st : preresolved_ok calls ->
  exists f, call_tools cfg calls st = Done f /\ tools_step cfg calls st (flow_turn f)
  /\ (max_tool_rounds cfg < S (dispatch_round st) -> forall st', f <> Next st').
Proof.
  intros Hpre. unfold call_tools. cbn [dispatch_round next_round].
  destruct (Nat.ltb_spec (max_tool_rounds cfg) (S (dispatch_round st))) as [Hgt|Hle].
  - destruct (cap_step cfg calls (max_tool_rounds cfg) (next_round st)) as (answers & notice & st' & -> & _ & _ & _ & _ & _ & Hb).
    cbn [obind]. eexists. split; [reflexivity|]. split; [by apply tools_undispatched|].
    intros _ st2. unfold answer_and. by destruct (ensured_tool_results answers calls st') as [[[]|e] st1].
  - pose proof (plan_spec calls Hpre) as Hplan. destruct (plan_tool_batch calls) as [[d answers] rejected]. destruct Hplan as [Hp Hf].
    destruct d as [|x d]; (eexists; split; [reflexivity|]; split; [|lia]).
    + apply tools_undispatched. by apply answer_and_step.
    + by apply dispatch_batch_step.
Qed.

(** ** The loop *)

(** What holds of every turn, whatever the model and the tools do. *)
Record disciplined (cfg : TurnConfig) (st : Turn V W) : Prop := {
  d_rounds : length (dispatched (trace st)) <= max_tool_rounds cfg;
  d_granted : Forall (Forall (fun inv => ti_name inv ∈ tool_names cfg)) (dispatched (trace st));
  d_answered : Forall (fun p => answers_exactly p.1 p.2) (answered (trace st));
}.

(** At the head of the loop. *)
Record at_head (cfg : TurnConfig) (st : Turn V W) : Prop := {
  h_disciplined : disciplined cfg st;
  h_ready : ready cfg (rig st);
  h_rounds : length (dispatched (trace st)) <= dispatch_round st <= max_tool_rounds cfg;
}.

Context (cfg : TurnConfig).
(** The names of registered tools are canonical. *)
Context (Hcanon : forall name args inv, name ∈ tool_names cfg -> normalize (W := W) name args = Ok inv -> ti_name inv = name).

Lemma same_log_disciplined st st' : same_log st st' -> disciplined cfg st -> disciplined cfg st'.
Proof. intros (_ & Hd & Ha) [H1 H2 H3]. split; by rewrite ?Hd, ?Ha. Qed.

Lemma same_log_head st st' : same_log st st' -> ready cfg (rig st') -> at_head cfg st -> at_head cfg st'.
Proof.
  intros Hs Hr [Hd _ Hn]. split; [by eapply same_log_disciplined|done|]. destruct Hs as (Hround & Hdis & _). by rewrite Hround, Hdis.
Qed.

Lemma tools_disciplined calls st st' : at_head cfg st -> tools_step cfg calls st st' ->
  Forall (fun c => preresolved_result c = None -> pc_name c ∈ tool_names cfg) calls -> disciplined cfg st'.
Proof.
  intros [[H1 H2 H3] _ Hn] [_ _ _ _ Hd Ha] Hc. split.
  - destruct Hd as [->|[Hle (invs & -> & _)]]; [done|]. rewrite length_app. cbn. lia.
  - destruct Hd as [->|[_ (invs & -> & Hf)]]; [done|]. apply Forall_app. split; [done|]. constructor; [|done].
    eapply Forall_impl; [exact Hf|]. intros inv (c & Hin & Hpre & Hnorm).
    pose proof (proj1 (Forall_forall _ _) Hc c Hin Hpre) as Hname. by rewrite (Hcanon _ _ _ Hname Hnorm).
  - destruct Ha as [[_ ->]|(l & -> & Hl)]; [done|]. apply Forall_app. split; [done|]. by constructor.
Qed.

Lemma tools_head calls st st' : at_head cfg st -> tools_step cfg calls st st' -> S (dispatch_round st) <= max_tool_rounds cfg ->
  Forall (fun c => preresolved_result c = None -> pc_name c ∈ tool_names cfg) calls -> at_head cfg st'.
Proof.
  intros Hh Ht Hle Hc. pose proof (tools_disciplined _ _ _ Hh Ht Hc) as Hd. destruct Hh as [_ [Ho Hl] Hn], Ht as [Hr _ _ Hg Hdis _].
  split; [done| |].
  - destruct Hg as [->|(l & ->)]; [by split|]. split; [by apply results_offers|by rewrite results_limit].
  - rewrite Hr. destruct Hdis as [->|[_ (invs & -> & _)]]; [lia|]. rewrite length_app. cbn. lia.
Qed.

(** What a step takes of the budget: each model call has its reservation, as
    long as the budget answers. *)
Definition accounted (st st' : Turn V W) : Prop :=
  (reservations st' = reservations st /\ length (asked (trace st')) = length (asked (trace st)))
  \/ (reservations st' = S (reservations st) /\ length (asked (trace st')) = S (length (asked (trace st)))
      /\ exists w, try_reserve (V := V) (reservations st) (world st) = (Ok true, w))
  \/ (exists e w, try_reserve (V := V) (reservations st) (world st) = (Err e, w)).

(** The loop goes on after a batch, or after a model call. *)
Definition goes_on (st st' : Turn V W) : Prop :=
  (dispatch_round st' = S (dispatch_round st) /\ reservations st' = reservations st)
  \/ (dispatch_round st' = dispatch_round st /\ reservations st' = S (reservations st))
  \/ (exists e w, try_reserve (V := V) (reservations st) (world st) = (Err e, w)).

Lemma model_step_spec turn st : at_head cfg st -> turn <= max_tool_rounds cfg + 2 ->
  exists f, call_model cfg turn st = Done f /\ disciplined cfg (flow_turn f) /\ accounted st (flow_turn f)
  /\ forall st', f = Next st' -> at_head cfg st' /\ goes_on st st'.
Proof.
  intros Hh Ht. destruct (call_model_step cfg turn st Ht) as (f & -> & Hf); [by destruct Hh|]. exists f. split; [done|].
  unfold accounted, goes_on. destruct (try_reserve (reservations st) (world st)) as [[[]|e] w] eqn:Hres.
  - destruct Hf as [[Hs Hr Ha] Hrd]. split_and!.
    + eapply same_log_disciplined; [exact Hs|by destruct Hh].
    + right; left. split_and!; [done..|by exists w].
    + intros st' ->. cbn [flow_turn] in *. split; [by eapply same_log_head|]. right; left. destruct Hs as (? & _). by split.
  - destruct Hf as [[st2 ->] [Hs Hr Ha]]. split_and!; [eapply same_log_disciplined; [exact Hs|by destruct Hh]|by left|done].
  - destruct Hf as [[Hs Hr Ha] Hrd]. split_and!.
    + eapply same_log_disciplined; [exact Hs|by destruct Hh].
    + right; right. by exists e, w.
    + intros st' ->. cbn [flow_turn] in *. split; [by eapply same_log_head|]. right; right. by exists e, w.
Qed.

Lemma batch_step_spec calls st : at_head cfg st -> preresolved_ok calls ->
  Forall (fun c => preresolved_result c = None -> pc_name c ∈ tool_names cfg) calls ->
  exists f, call_tools cfg calls st = Done f /\ disciplined cfg (flow_turn f) /\ accounted st (flow_turn f)
  /\ forall st', f = Next st' -> at_head cfg st' /\ goes_on st st'.
Proof.
  intros Hh Hp Hc. destruct (call_tools_step cfg calls st Hp) as (f & -> & Hts & Hlast). exists f. split; [done|].
  split; [exact (tools_disciplined _ _ _ Hh Hts Hc)|]. split; [left; destruct Hts as [? Ha ?]; by rewrite Ha|].
  intros st' ->. cbn [flow_turn] in Hts.
  destruct (Nat.le_gt_cases (S (dispatch_round st)) (max_tool_rounds cfg)) as [Hle|Hgt]; [|by destruct (Hlast Hgt st')].
  split; [exact (tools_head _ _ _ Hh Hts Hle Hc)|]. left. by destruct Hts.
Qed.

Lemma recover_spec e st : exists o, recover_max_turns_error e st = Done o /\
  forall st', o = Some st' -> trace st' = trace st /\ reservations st' = reservations st.
Proof.
  destruct e as [m h|m]; [|eexists; split; [reflexivity|done]]. unfold recover_max_turns_error, apply_exhaustion_notice.
  set (st1 := push_calls _ st). destruct (strip_total (final_response st1)) as [s ->]. cbn [obind].
  eexists. split; [reflexivity|]. by intros st' [= <-].
Qed.

Lemma turn_step_spec st : at_head cfg st -> exists f, turn_step cfg st = Done f
  /\ disciplined cfg (flow_turn f) /\ accounted st (flow_turn f)
  /\ forall st', f = Next st' -> at_head cfg st' /\ goes_on st st'.
Proof.
  intros Hh. unfold turn_step. pose proof (h_ready _ _ Hh) as [Ho Hl].
  pose proof (step_offers _ _ Ho) as Ho1. pose proof (step_limit (rig st)) as Hl1.
  pose proof (fun calls => step_calls _ _ calls Ho) as Hc. pose proof (fun calls => step_preresolved _ _ calls Ho) as Hp.
  pose proof (step_turn (rig st)) as Ht.
  destruct (next_step (rig st)) as [r run1]. cbn [fst snd] in Ho1, Hl1, Hc, Hp, Ht.
  assert (Hrd : ready cfg run1) by (split; [done|lia]).
  assert (Hh1 : at_head cfg (set_rig run1 st)) by (destruct Hh as [[???] ??]; split; [by split|exact Hrd|done]).
  destruct r as [[turn|calls|output]|e].
  - apply (model_step_spec turn (set_rig run1 st) Hh1). specialize (Ht turn eq_refl). lia.
  - exact (batch_step_spec calls (set_rig run1 st) Hh1 (Hp calls eq_refl) (Hc calls eq_refl)).
  - eexists. split; [reflexivity|]. destruct Hh as [[???] ??]. split_and!; [by split|by left|done].
  - destruct (recover_spec e (set_rig run1 st)) as (o & -> & Hrec). cbn [obind]. eexists. split; [reflexivity|].
    destruct Hh as [[???] ??]. destruct o as [st2|]; [|split_and!; [by split|by left|done]].
    destruct (Hrec st2 eq_refl) as [Htr Hres]. cbn [flow_turn]. unfold accounted. rewrite Htr. split_and!; [split; by rewrite Htr|by left|done].
Qed.

Lemma turn_loop_disciplined fuel st r st' : at_head cfg st -> turn_loop fuel cfg st = Done (r, st') -> disciplined cfg st'.
Proof.
  revert st. induction fuel as [|f IH]; intros st Hh Hl; [done|]. cbn [turn_loop] in Hl.
  destruct (turn_step_spec st Hh) as (fl & Hs & Hd & _ & Hn). rewrite Hs in Hl. cbn [obind] in Hl.
  destruct fl as [st1|st1|e st1]; [|by simplify_eq..]. by apply (IH st1); [apply Hn|].
Qed.

(** The batches that the run issues in the course of the loop, one empty batch being
    none. *)
Definition issues (st : Turn V W) : list (list (PendingToolCall V)) :=
  match (next_step (rig st)).1 with Ok (CallTools (c :: calls)) => [c :: calls] | _ => [] end.
Fixpoint issued (fuel : nat) (st : Turn V W) : list (list (PendingToolCall V)) :=
  match fuel with
  | O => []
  | S f => issues st ++ match turn_step cfg st with Done (Next st') => issued f st' | _ => [] end
  end.
Lemma step_issues st f : at_head cfg st -> turn_step cfg st = Done f ->
  map fst (answered (trace (flow_turn f))) = map fst (answered (trace st)) ++ issues st.
Proof.
  intros Hh. unfold turn_step, issues. pose proof (h_ready _ _ Hh) as [Ho Hl].
  pose proof (step_offers _ _ Ho) as Ho1. pose proof (step_limit (rig st)) as Hl1.
  pose proof (fun calls => step_preresolved _ _ calls Ho) as Hp. pose proof (step_turn (rig st)) as Ht.
  destruct (next_step (rig st)) as [r run1]. cbn [fst snd] in *.
  assert (Hrd : ready cfg (rig (set_rig run1 st))) by (split; [done|cbn; lia]).
  destruct r as [[turn|calls|output]|e].
  - destruct (call_model_step cfg turn (set_rig run1 st)) as (f' & -> & Hf); [specialize (Ht turn eq_refl); lia|done|]. intros [= <-]. rewrite app_nil_r.
    assert (exists a b, quiet_step a b (set_rig run1 st) (flow_turn f')) as (a & b & [(_ & _ & ->) _ _]); [|done].
    destruct (try_reserve _ _) as [[[]|e] w]; destruct Hf; by eexists _, _.
  - destruct (call_tools_step cfg calls (set_rig run1 st) (Hp calls eq_refl)) as (f' & -> & Hts & _). intros [= <-].
    destruct (ts_answered _ _ _ _ Hts) as [[-> ->]|(l & -> & Hx & Hperm)]; [by rewrite app_nil_r|]. rewrite map_app. cbn [map fst trace set_rig].
    destruct calls as [|c calls]; [|done]. apply Permutation_nil_r in Hperm. by apply map_eq_nil in Hperm.
  - intros [= <-]. by rewrite app_nil_r.
  - destruct (recover_spec e (set_rig run1 st)) as (o & -> & Hrec). cbn [obind]. intros [= <-]. rewrite app_nil_r.
    destruct o as [st2|]; [|done]. cbn [flow_turn]. by rewrite (proj1 (Hrec st2 eq_refl)).
Qed.
Lemma turn_loop_issued fuel st r st' : at_head cfg st -> turn_loop fuel cfg st = Done (r, st') ->
  map fst (answered (trace st')) = map fst (answered (trace st)) ++ issued fuel st.
Proof.
  revert st. induction fuel as [|f IH]; intros st Hh Hl; [done|]. cbn [turn_loop issued] in *.
  destruct (turn_step_spec st Hh) as (fl & Hs & _ & _ & Hn). pose proof (step_issues st fl Hh Hs) as Hi. rewrite Hs in Hl |- *. cbn [obind] in Hl.
  destruct fl as [st1|st1|e st1]; cbn [flow_turn] in Hi; [|by simplify_eq; rewrite app_nil_r..].
  rewrite (IH st1), Hi, <- app_assoc; [done|by apply Hn|done].
Qed.

(** A budget of [capacity] reservations that always answers ends the loop. *)
Lemma turn_loop_ends capacity fuel st : at_head cfg st ->
  (forall held w w', try_reserve (V := V) held w = (Ok true, w') -> held < capacity) ->
  (forall held w e w', try_reserve (V := V) held w <> (Err e, w')) ->
  reservations st <= capacity -> length (asked (trace st)) < reservations st ->
  (capacity - reservations st) + (max_tool_rounds cfg - dispatch_round st) < fuel ->
  exists r st', turn_loop fuel cfg st = Done (r, st') /\ length (asked (trace st')) < capacity.
Proof.
  intros Hh Hcap Herr. revert st Hh. induction fuel as [|f IH]; intros st Hh Hr Ha Hf; [lia|]. cbn [turn_loop].
  destruct (turn_step_spec st Hh) as (fl & -> & Hd & Hac & Hn). cbn [obind].
  assert (Hac' : reservations (flow_turn fl) <= capacity /\ length (asked (trace (flow_turn fl))) < reservations (flow_turn fl)).
  { destruct Hac as [[-> ->]|[(-> & -> & w & Hw)|(e & w & Hw)]]; [done|apply Hcap in Hw; lia|by apply Herr in Hw]. }
  destruct fl as [st1|st1|e st1]; cbn [flow_turn] in *; [|do 2 eexists; split; [reflexivity|lia]..].
  destruct (Hn st1 eq_refl) as [Hh1 Hgo]. destruct Hac' as [Hr1 Ha1]. apply IH; [done..|].
  pose proof (h_rounds _ _ Hh1). destruct Hgo as [[??]|[[??]|(e & w & Hw)]]; [lia|lia|by apply Herr in Hw].
Qed.

Lemma new_turn_head schema retries query conv (w : W) : at_head cfg (new_turn cfg schema retries query conv w).
Proof.
  split; [split; [cbn; lia|constructor|constructor]| |cbn; lia]. split; cbn [rig new_turn].
  - apply history_offers, validation_offers, limit_offers, new_offers.
  - by rewrite history_limit, validation_limit, limit_limit.
Qed.

(** C34. Every turn ends: after fewer model calls than the budget has reservations,
    and at most as many batches as rounds are allowed. *)
Theorem turn_ends capacity schema retries query conv (w : W) :
  (forall held w w', try_reserve (V := V) held w = (Ok true, w') -> held < capacity) ->
  (forall held (w : W) e w', try_reserve (V := V) held w <> (Err e, w')) -> 0 < capacity ->
  exists r st, turn_loop (capacity + max_tool_rounds cfg) cfg (new_turn cfg schema retries query conv w) = Done (r, st)
    /\ length (asked (trace st)) < capacity /\ length (dispatched (trace st)) <= max_tool_rounds cfg.
Proof.
  intros Hcap Herr Hpos. pose proof (new_turn_head schema retries query conv w) as Hh.
  destruct (turn_loop_ends capacity (capacity + max_tool_rounds cfg) _ Hh Hcap Herr) as (r & st & Hl & Ha); [cbn; lia..|].
  exists r, st. split_and!; [done|done|]. by destruct (turn_loop_disciplined _ _ _ _ Hh Hl).
Qed.

(** C33. In every turn that comes to its end, also with an error, the batches of pending
    calls that were answered are those that the run issued, all of them and in order,
    however their dispatch ended: by results, by a failure or by a termination of the
    whole batch, past the cap of rounds or with no call to dispatch; and each was given
    exactly one answer for each of its calls.  The run issues calls of granted tools
    only, whose names are canonical, and its own answers bear the ids of their calls. *)
Theorem calls_answered_once fuel schema retries query conv (w : W) r st :
  turn_loop fuel cfg (new_turn cfg schema retries query conv w) = Done (r, st) ->
  map fst (answered (trace st)) = issued fuel (new_turn cfg schema retries query conv w)
  /\ Forall (fun p => p.2 <> [] /\ map uc_id p.2 ≡ₚ map pc_id p.1) (answered (trace st)).
Proof.
  intros Hl. pose proof (new_turn_head schema retries query conv w) as Hh. split; [exact (turn_loop_issued _ _ _ _ Hh Hl)|].
  exact (d_answered _ _ (turn_loop_disciplined _ _ _ _ Hh Hl)).
Qed.

(** Only tools granted to the agent are dispatched, in at most as many batches as
    rounds are allowed. *)
Theorem only_granted_dispatched fuel schema retries query conv (w : W) r st :
  turn_loop fuel cfg (new_turn cfg schema retries query conv w) = Done (r, st) ->
  length (dispatched (trace st)) <= max_tool_rounds cfg
  /\ Forall (Forall (fun inv => ti_name inv ∈ tool_names cfg)) (dispatched (trace st)).
Proof.
  intros Hl. destruct (turn_loop_disciplined _ _ _ _ (new_turn_head schema retries query conv w) Hl) as [Hr Hg _]. by split.
Qed.
End props.

Section outcomes.
Context {V : Type} {HJson : Json V} {HRig : AgentRun V} {W : Type} {HEnv : TurnEnv V W}.
Implicit Types (st : Turn V W).

(** Two calls of one tool in a batch: the record of each has the other's result. *)
Theorem batch_results_swapped (l : list ToolCall) (inv1 inv2 : ToolInvocation (V := V)) (args1 args2 : text) (out1 out2 : V) :
  ti_name inv1 = ti_name inv2 -> utf8 (j_to_string out1) <> [] ->
  let record args result := {| tool_name := ti_name inv1; arguments := args; tc_result := result |} in
  fill_results [(inv1, out1); (inv2, out2)] (l ++ [record args1 []; record args2 []])
  = l ++ [record args1 (utf8 (j_to_string out2)); record args2 (utf8 (j_to_string out1))].
Proof.
  intros Hn Ho. unfold fill_results. cbn [fold_left fst snd]. rewrite <- Hn. unfold fill_last at 2. rewrite rev_app_distr.
  cbn [rev app fill_first tool_name tc_result arguments]. rewrite String.eqb_refl, bool_decide_eq_true_2 by done. cbn [andb].
  unfold fill_last. rewrite rev_involutive. cbn [fill_first tool_name tc_result arguments].
  rewrite String.eqb_refl, bool_decide_eq_false_2 by done. cbn [andb]. rewrite bool_decide_eq_true_2 by done.
  cbn [rev]. by rewrite rev_involutive, <- app_assoc.
Qed.

(** A draft is vetoed, its redraft approved: the vetoed draft is delivered, with
    the approval of the redraft and without a notice. *)
Theorem redraft_discarded cfg s query conv st (r1 r2 : PipelineResult) draft w1 w2 w3 :
  gated s st = true ->
  review_pipeline (review_input cfg query (world st)) (final_response st) (world st) = (r1, w1) -> plan_approved r1 = false ->
  redraft (V := V) (veto_feedback (review_notes r1)) w1 = (Ok draft, w2) ->
  review_pipeline (review_input cfg query (world st)) draft w2 = (r2, w3) -> plan_approved r2 = true ->
  finish_execute cfg s query conv st =
    (Ok ({| ex_response := final_response st; quality_notes := review_notes r2; ex_ready := delivery_ready r2;
            ex_calls := tool_calls st |}, conv ++ [(User, query); (Assistant, final_response st)]), w3).
Proof.
  intros Hg H1 Hv Hd H2 Ha. unfold finish_execute. rewrite Hg. unfold review_with_feedback_round.
  by rewrite H1, Hv, Hd, H2, Ha.
Qed.

(** A veto that stands is on the answer. *)
Lemma upheld_veto_shown cfg s query conv st (r1 r2 : PipelineResult) draft w1 w2 w3 :
  gated s st = true ->
  review_pipeline (review_input cfg query (world st)) (final_response st) (world st) = (r1, w1) -> plan_approved r1 = false ->
  redraft (V := V) (veto_feedback (review_notes r1)) w1 = (Ok draft, w2) ->
  review_pipeline (review_input cfg query (world st)) draft w2 = (r2, w3) -> plan_approved r2 = false ->
  exists ex conv', finish_execute cfg s query conv st = (Ok (ex, conv'), w3)
    /\ exists rest, ex_response ex = verdict_notice (review_notes r2) ++ rest.
Proof.
  intros Hg H1 Hv Hd H2 Ha. unfold finish_execute. rewrite Hg. unfold review_with_feedback_round. rewrite H1, Hv, Hd, H2, Ha.
  do 2 eexists. split; [reflexivity|]. cbn [andb negb ex_response]. unfold apply_verdict_notice.
  case_bool_decide; [exists []; by rewrite app_nil_r|by eexists].
Qed.

(** Without a mutating call, and not confidential, nothing is reviewed. *)
Lemma read_only_unreviewed cfg s query conv st : s <> Confidential ->
  Forall (fun tc => mutates (tool_name tc) = false) (tool_calls st) ->
  exists ex conv', finish_execute cfg s query conv st = (Ok (ex, conv'), world st) /\ ex_response ex = final_response st.
Proof.
  intros Hs Hm. unfold finish_execute, gated, turn_gated. rewrite (bool_decide_eq_false_2 (s = Confidential)) by done.
  assert (existsb (fun tc => mutates (tool_name tc)) (tool_calls st) = false) as ->.
  { induction Hm as [|tc l Htc _ IH]; [done|]. cbn. by rewrite Htc, IH. }
  do 2 eexists. by split.
Qed.

(** A turn whose budget is exhausted says so, before what it had answered. *)
Lemma exhausted_annotated cfg st : exists st' notice stripped, budget_exhausted cfg st = Done (Stop st')
  /\ strip_fenced_tool_blocks (final_response st) = Done stripped /\ final_response st' = annotate notice stripped /\ notice <> [].
Proof.
  unfold budget_exhausted, apply_exhaustion_notice. cbn [push_calls final_response].
  destruct (strip_total (final_response st)) as [s Hs]. rewrite Hs. cbn [obind].
  do 3 eexists. split_and!; [reflexivity|done| |].
  - unfold emit. by destruct (streaming cfg).
  - done.
Qed.
End outcomes.

(** ** A run that has the laws *)

Record toy_run := { toy_limit : nat; toy_turn : nat; toy_pending : list (PendingToolCall jval); toy_done : option text }.

Definition toy_calls (ns : list string) (content : list (AssistantContent jval)) : list (PendingToolCall jval) :=
  omap (fun c => match c with
                 | ACall id name args =>
                   if decide (name ∈ ns)
                   then Some {| pc_id := id; pc_name := name; pc_args := args; preresolved_result := None |} else None
                 | AText _ => None
                 end) content.
Definition toy_text (content : list (AssistantContent jval)) : text :=
  concat (map (fun c => match c with AText t => t | ACall _ _ _ => [] end) content).

Definition toy_step (r : toy_run) : result (AgentRunStep jval) (PromptError jval) * toy_run :=
  match toy_pending r, toy_done r with
  | _ :: _, _ => (Ok (CallTools (toy_pending r)), r)
  | [], Some t => (Ok (RunDone t), r)
  | [], None =>
    if toy_turn r <? toy_limit r
    then (Ok (CallModel (S (toy_turn r))),
          {| toy_limit := toy_limit r; toy_turn := S (toy_turn r); toy_pending := []; toy_done := None |})
    else (Err (MaxTurnsError (toy_limit r) []), r)
  end.

#[local] Instance toy_rig : AgentRun jval := {
  run := toy_run;
  run_new _ := {| toy_limit := 0; toy_turn := 0; toy_pending := []; toy_done := None |};
  with_max_turns n r := {| toy_limit := n; toy_turn := toy_turn r; toy_pending := toy_pending r; toy_done := toy_done r |};
  with_output_validation _ _ r := r;
  with_history _ r := r;
  messages _ := [];
  next_step := toy_step;
  model_response content ns r :=
    let calls := toy_calls ns content in
    (Ok TurnContinue, {| toy_limit := toy_limit r; toy_turn := toy_turn r; toy_pending := calls;
                         toy_done := match calls with [] => Some (toy_text content) | _ => None end |});
  skip_invalid r := (Ok TurnContinue, r);
  give_results _ r := (Ok tt, {| toy_limit := toy_limit r; toy_turn := toy_turn r; toy_pending := []; toy_done := toy_done r |});
}.

Lemma toy_calls_spec ns content :
  Forall (fun c => pc_name c ∈ ns /\ preresolved_result c = None) (toy_calls ns content).
Proof.
  apply Forall_forall. intros c. unfold toy_calls. rewrite list_elem_of_omap.
  intros ([t|id name args] & _ & Hc); [done|]. case_decide; [|done]. by simplify_eq/=.
Qed.

(** Granted calls, none of them resolved already. *)
Definition toy_offers (ns : list string) (r : toy_run) : Prop :=
  Forall (fun c => pc_name c ∈ ns /\ preresolved_result c = None) (toy_pending r).

Lemma toy_step_facts r : toy_pending (toy_step r).2 = toy_pending r /\ toy_limit (toy_step r).2 = toy_limit r
  /\ (forall calls, (toy_step r).1 = Ok (CallTools calls) -> calls = toy_pending r)
  /\ (forall turn, (toy_step r).1 = Ok (CallModel turn) -> turn <= toy_limit r).
Proof.
  unfold toy_step. destruct (toy_pending r) as [|c l] eqn:Hp.
  - destruct (toy_done r); [by split_and!|]. destruct (Nat.ltb_spec (toy_turn r) (toy_limit r)); [|by split_and!].
    split_and!; [done..|]. intros turn [= <-]. lia.
  - split_and!; [done..| |done]. by intros calls [= <-].
Qed.

#[local] Instance toy_laws : AgentRunLaws jval.
Proof.
  refine {| offers := toy_offers; turn_limit := toy_limit |}; try done.
  - constructor.
  - intros ns r Ho. red in Ho. rewrite <- (proj1 (toy_step_facts r)) in Ho. exact Ho.
  - intros ns l r _ _. apply toy_calls_spec.
  - constructor.
  - intros ns r calls Ho Hs. rewrite (proj1 (proj2 (proj2 (toy_step_facts r))) calls Hs).
    eapply Forall_impl; [exact Ho|]. by intros c [? _].
  - intros ns r calls Ho Hs. rewrite (proj1 (proj2 (proj2 (toy_step_facts r))) calls Hs).
    eapply Forall_impl; [exact Ho|]. intros c [_ ->]. done.
  - intros r. apply (toy_step_facts r).
  - intros r turn Hs. by apply (toy_step_facts r).
Defined.

(** ** Closed runs *)

(** The world counts the model's calls; [reply] is what it says, [outcome] what
    each dispatch gives, [verdict] whether a draft passes the gate. *)
Section demo.
Context (cap : nat) (reply : nat -> text) (outcome : result (list jval) KernelError) (verdict : text -> bool).

Definition demo_parse (t : text) : result jval text :=
  if bool_decide (trim t = utf8 "list") then Ok (JObj [("tool", JStr "fs.list"); ("args", JObj [])]%string)
  else if bool_decide (trim t = utf8 "rm") then Ok (JObj [("tool", JStr "fs.delete"); ("args", JObj [])]%string)
  else Err (utf8 "expected value").

Definition demo_review (draft : text) : PipelineResult :=
  {| plan_approved := verdict draft; review_notes := utf8 "notes"; delivery_ready := verdict draft; athena_shield := None;
     failed_attempts := [] |}.

Definition demo_env : TurnEnv jval nat := {|
  j_parse := demo_parse;
  normalize name args := Ok {| ti_name := name; ti_args := args |};
  try_reserve held w := (Ok (held <? cap), w);
  execute_model_call _ w := (Ok (reply w, []), S w);
  execute_stream_round _ w := ([], Ok (reply w, []), S w);
  dispatch_each _ w := (fun _ => (outcome, 5%N), w);
  screen v := v;
  kernel_text e := match e with ToolDispatchTerminated m => m | _ => "error"%string end;
  review_pipeline _ draft w := (demo_review draft, w);
  redraft _ w := (Ok (utf8 "better"), w);
  now_ms _ := 0%Z;
  background _ := empty_registry;
  set_background _ w := w;
|}.

Definition demo_cfg (rounds : nat) : TurnConfig :=
  {| max_tool_rounds := rounds; tool_names := ["fs.list"]%string; turn_session := "s"; streaming := false |}.

Definition demo_loop (fuel rounds : nat) :=
  turn_loop (HEnv := demo_env) fuel (demo_cfg rounds) (new_turn (demo_cfg rounds) None 0 (utf8 "q") [] 0).
End demo.

Definition fenced (t : string) : text := utf8 ("```json " ++ t ++ " ```").
Definition quiet_verdict (_ : text) : bool := true.

(** What a closed run shows: the results each model call was given, the answer,
    the batches, what was recorded of the calls. *)
Definition seen {W} (o : outcome (result unit text * Turn jval W)) :=
  match o with
  | Done (_, st) => Some (asked (trace st), final_response st, map (map ti_name) (dispatched (trace st)),
                          map (fun c => (tool_name c, tc_result c)) (tool_calls st))
  | _ => None
  end.

(** A list, then an answer. *)
Definition list_then_answer (w : nat) : text := if (w =? 0)%nat then fenced "list" else utf8 "done".

Example demo_answers : seen (demo_loop 50 list_then_answer (Ok [JStr "a.txt"]) quiet_verdict 20 4)
  = Some ([[]; utf8 ("tool: fs.list" ++ nl ++ "args: {}" ++ nl ++ "result: {}")], utf8 "done", [["fs.list"]],
          [("fs.list", utf8 "{}")])%string.
Proof. by vm_compute. Qed.

(** *** Refusals the model never sees *)

Definition blocked : result (list jval) KernelError := Err (ToolDispatchTerminated "denied").
Definition malformed_then_answer (w : nat) : text := if (w <? 12)%nat then fenced "[" else utf8 "done".

(** The model is not told why a call failed: after a dispatch that a hook stopped,
    or a block that does not parse, it is asked the same again.  Blocks that do
    not parse also start the count of turns anew: with one round allowed, and so
    three model calls, thirteen are made. *)
Theorem refusals_unseen :
  seen (demo_loop 50 (fun _ => fenced "list") blocked quiet_verdict 20 2)
  = Some ([[]; []; []], utf8 "⚠ tool round cap (2) reached, 1 tool intent(s) not executed", [["fs.list"]; ["fs.list"]],
          [("fs.list", []); ("<dispatch>", utf8 "tool dispatch blocked (approval/seatbelt/budget): denied");
           ("fs.list", []); ("<dispatch>", utf8 "tool dispatch blocked (approval/seatbelt/budget): denied");
           ("fs.list", cap_error 2)])%string
  /\ match seen (demo_loop 50 malformed_then_answer blocked quiet_verdict 50 1) with
     | Some (asked, answer, _, _) => asked = repeat [] 13 /\ answer = utf8 "done"
     | None => False
     end.
Proof. by vm_compute. Qed.

(** Only refused calls: the turn ends with the block as its answer. *)
Example ungranted_ends : match seen (demo_loop 50 (fun _ => fenced "rm") blocked quiet_verdict 20 4) with
  | Some (asked, answer, batches, _) => asked = [[]] /\ answer = fenced "rm" /\ batches = []
  | None => False
  end.
Proof. by vm_compute. Qed.

(** *** Witnesses *)

Definition looping_env : TurnEnv jval nat := demo_env 9 (fun _ => fenced "list") blocked quiet_verdict.
Lemma looping_canonical name args inv : name ∈ tool_names (demo_cfg 4) ->
  normalize (TurnEnv := looping_env) name args = Ok inv -> ti_name inv = name.
Proof. by intros _ [= <-]. Qed.
Lemma looping_capacity held w w' : try_reserve (TurnEnv := looping_env) held w = (Ok true, w') -> held < 9.
Proof. intros [= Hh _]. by apply Nat.ltb_lt in Hh. Qed.
Lemma looping_answers held w e w' : try_reserve (TurnEnv := looping_env) held w <> (Err e, w').
Proof. done. Qed.

Lemma turn_ends_witness : exists r st,
  turn_loop (HEnv := looping_env) (9 + max_tool_rounds (demo_cfg 4)) (demo_cfg 4)
    (new_turn (demo_cfg 4) None 0 (utf8 "q") [] 0) = Done (r, st)
  /\ length (asked (trace st)) < 9 /\ length (dispatched (trace st)) <= max_tool_rounds (demo_cfg 4).
Proof.
  exact (turn_ends (HEnv := looping_env) (demo_cfg 4) looping_canonical 9 None 0 (utf8 "q") [] 0
    looping_capacity looping_answers (Nat.lt_0_succ 8)).
Defined.

Definition demo_result : result unit text * Turn jval nat :=
  match demo_loop 50 list_then_answer (Ok [JStr "a.txt"]) quiet_verdict 20 4 with Done r => r | _ => (Err [], new_turn (demo_cfg 4) None 0 [] [] 0) end.
Definition listing_env : TurnEnv jval nat := demo_env 50 list_then_answer (Ok [JStr "a.txt"]) quiet_verdict.
Lemma listing_canonical name args inv : name ∈ tool_names (demo_cfg 4) ->
  normalize (TurnEnv := listing_env) name args = Ok inv -> ti_name inv = name.
Proof. by intros _ [= <-]. Qed.
Lemma demo_ran : turn_loop (HEnv := listing_env) 20 (demo_cfg 4)
    (new_turn (demo_cfg 4) None 0 (utf8 "q") [] 0) = Done (demo_result.1, demo_result.2).
Proof. by vm_compute. Qed.

Lemma calls_answered_once_witness :
  Forall (fun p => p.2 <> [] /\ map uc_id p.2 ≡ₚ map pc_id p.1) (answered (trace demo_result.2))
  /\ length (answered (trace demo_result.2)) = 1.
Proof.
  split; [|by vm_compute].
  apply (calls_answered_once (HEnv := listing_env) (demo_cfg 4) listing_canonical 20 None 0 (utf8 "q") [] 0
    demo_result.1 demo_result.2 demo_ran).
Defined.

Lemma only_granted_dispatched_witness :
  length (dispatched (trace demo_result.2)) <= 4
  /\ Forall (Forall (fun inv => ti_name inv ∈ ["fs.list"]%string)) (dispatched (trace demo_result.2)).
Proof.
  exact (only_granted_dispatched (HEnv := listing_env) (demo_cfg 4) listing_canonical 20 None 0 (utf8 "q") [] 0
    demo_result.1 demo_result.2 demo_ran).
Defined.

Lemma batch_results_swapped_witness :
  let record args result := {| tool_name := "fs.read"; arguments := args; tc_result := result |} in
  fill_results [({| ti_name := "fs.read"; ti_args := JNull |}, JNull); ({| ti_name := "fs.read"; ti_args := JNull |}, JNull)]
    ([] ++ [record (utf8 "a") []; record (utf8 "b") []])
  = [] ++ [record (utf8 "a") (utf8 "{}"); record (utf8 "b") (utf8 "{}")].
Proof.
  assert (Hn : utf8 (j_to_string JNull) <> []) by (vm_compute; discriminate).
  exact (batch_results_swapped [] _ _ (utf8 "a") (utf8 "b") JNull JNull eq_refl Hn).
Defined.

(** A draft after a mutating call, vetoed; its redraft passes. *)
Definition passes_redraft (draft : text) : bool := bool_decide (draft = utf8 "better").
Definition drafted : Turn jval nat :=
  set_response (utf8 "draft") (push_calls [{| tool_name := "fs.write"; arguments := []; tc_result := utf8 "{}" |}]
    (new_turn (demo_cfg 4) None 0 (utf8 "q") [] 0)).

Lemma redraft_discarded_witness :
  finish_execute (HEnv := demo_env 9 list_then_answer blocked passes_redraft) (demo_cfg 4) Private (utf8 "q") [] drafted
  = (Ok ({| ex_response := utf8 "draft"; quality_notes := utf8 "notes"; ex_ready := true; ex_calls := tool_calls drafted |},
         [] ++ [(User, utf8 "q"); (Assistant, utf8 "draft")]), 0).
Proof.
  apply (redraft_discarded (HEnv := demo_env 9 list_then_answer blocked passes_redraft) (demo_cfg 4) Private (utf8 "q") [] drafted
    (demo_review passes_redraft (utf8 "draft")) (demo_review passes_redraft (utf8 "better")) (utf8 "better") 0 0 0); by vm_compute.
Defined.
