(* ===== verification/Review.v ===== *)
(** * The quality gate

    Models [crates/zen-core/src/review] (metis.rs, hermes.rs, zeus.rs) and
    [crates/zen-agents/src/review] (momus.rs, pipeline.rs, the permutation of
    deanchored.rs): the heuristics, each a function of texts, and the pipeline
    that composes them.  The semantic reviewer, a model call, and the text of the
    score of Metis, a float, are parameters.  [to_lowercase] is that of ASCII. *)

From S2P Require Import Prelude Types Text Sandbox ToolText.
From Stdlib Require Import Lia.
Local Open Scope list_scope.

(** ** Text *)

(** [str::split] by a class of characters. *)
Fixpoint split_by (p : char -> bool) (t : text) : list text :=
  match t with
  | [] => [[]]
  | c :: rest =>
    if p c then [] :: split_by p rest
    else match split_by p rest with piece :: pieces => (c :: piece) :: pieces | [] => [[c]] end
  end.
Definition blank (t : text) : bool := bool_decide (trim t = []).
Definition sentences (t : text) : list text :=
  filter (fun s => blank s = false) (split_by (fun c => (c =? 46)%N || (c =? 10)%N) t).

Definition mentions (t : text) (words : list string) : bool := existsb (fun w => contains t (utf8 w)) words.
Definition words (t : text) : list text := split_whitespace t.

(** ** Metis *)

Inductive FindingSeverity := Low | Medium | High.
#[export] Instance FindingSeverity_eq : EqDecision FindingSeverity.
Proof. solve_decision. Defined.
Record MetisFinding := { m_description : text; m_severity : FindingSeverity }.
Definition metis (d : text) (s : FindingSeverity) : MetisFinding := {| m_description := d; m_severity := s |}.

Fixpoint logic_gaps_of (i : nat) (previous : option text) (l : list text) : list MetisFinding :=
  match l with
  | [] => []
  | sentence :: rest =>
    let lowered := lower sentence in
    (if contains lowered (utf8 "then") && match previous with Some p => negb (contains p (utf8 ".")) | None => false end
     then [metis (utf8 ("Unsequenced 'then' at position " ++ pretty i ++ " without preceding step")) Medium] else [])
    ++ (if mentions lowered ["TODO"; "FIXME"; "placeholder"]
        then [metis (utf8 "Unresolved marker found: " ++ trim sentence) High] else [])
    ++ logic_gaps_of (S i) (Some sentence) rest
  end.

Definition is_upper (c : char) : bool := (65 <=? c)%N && (c <=? 90)%N.
Definition abbreviated (s : text) : bool :=
  (3 <=? length (filter (fun c => is_upper c = true) s))%nat && negb (contains s (utf8 "TODO")) && negb (contains s (utf8 "FIXME")).

Definition analyze_logic_gaps (plan : text) : list MetisFinding :=
  if blank plan then []
  else
    let l := sentences plan in
    logic_gaps_of 0 None l
    ++ (if existsb abbreviated l && (3 <? length l)%nat
        then [metis (utf8 "Possible undefined abbreviations detected in plan") Low] else []).

Definition ASSUMPTION_INDICATORS : list string := ["assume"; "obviously"; "naturally"; "clearly"; "everyone knows"]%string.
Definition validate_assumptions (plan : text) : list MetisFinding :=
  if blank plan then []
  else
    let lowered := lower plan in
    map (fun w => metis (utf8 ("Assumption indicator '" ++ w ++ "' found in plan")) Medium)
      (filter (fun w => contains lowered (utf8 w) = true) ASSUMPTION_INDICATORS)
    ++ (if negb (contains lowered (utf8 "prerequisite")) && negb (contains lowered (utf8 "requires"))
           && (20 <? length (words plan))%nat
        then [metis (utf8 "No prerequisites or requirements section detected") Low] else []).

Definition ACTIONABLE : list string :=
  ["create"; "update"; "delete"; "remove"; "add"; "replace"; "deploy"; "build"; "test"; "verify"]%string.
Definition VAGUE : list string := ["should"; "might"; "could"; "probably"; "eventually"; "hopefully"]%string.
Definition assess_tactical_feasibility (plan : text) : list MetisFinding :=
  if blank plan then []
  else
    let lowered := lower plan in
    let n := length (words plan) in
    let steps := length (sentences plan) in
    (if negb (mentions lowered ACTIONABLE) && (5 <? n)%nat
     then [metis (utf8 "Plan lacks concrete actionable verbs") High] else [])
    ++ (if mentions lowered VAGUE then [metis (utf8 "Plan contains non-committal language") Medium] else [])
    ++ (if (steps <? 3)%nat && (15 <? n)%nat
        then [metis (utf8 ("Plan has only " ++ pretty steps ++ " step(s) but " ++ pretty n ++ " words — consider decomposition")) Medium]
        else []).

Definition suggest_optimizations (plan : text) : list MetisFinding :=
  if blank plan then []
  else
    let n := length (words plan) in
    (if (200 <? n)%nat
     then [metis (utf8 ("Plan is verbose (" ++ pretty n ++ " words) — consider summarization")) Low] else [])
    ++ (if (3 <? matches (lower plan) (utf8 "and"))%nat
        then [metis (utf8 "Multiple compound steps detected — parallelization may be possible") Low] else []).

Definition review_plan (plan : text) : list MetisFinding :=
  analyze_logic_gaps plan ++ validate_assumptions plan ++ assess_tactical_feasibility plan ++ suggest_optimizations plan.

(** ** Momus *)

Inductive MomusFindingType := PlanInconsistency | UntestableAcceptanceCriteria | MissingVerifiability | AmbiguousScope.
Definition momus_str (t : MomusFindingType) : string :=
  match t with
  | PlanInconsistency => "PlanInconsistency" | UntestableAcceptanceCriteria => "UntestableAcceptanceCriteria"
  | MissingVerifiability => "MissingVerifiability" | AmbiguousScope => "AmbiguousScope"
  end.
Record MomusFinding := { finding_type : MomusFindingType; description : text; is_blocking : bool }.
Definition momus (t : MomusFindingType) (d : string) (b : bool) : MomusFinding :=
  {| finding_type := t; description := utf8 d; is_blocking := b |}.

Definition check_plan_consistency (plan : text) : list MomusFinding :=
  if blank plan then []
  else
    let lowered := lower plan in
    let n := length (sentences plan) in
    let steps := matches lowered (utf8 "step") in
    (if mentions lowered ["create"; "add"; "new"; "build"] && mentions lowered ["delete"; "remove"; "destroy"; "drop"] && (1 <? n)%nat
     then [momus PlanInconsistency "Plan contains both creation and deletion actions without ordering" true] else [])
    ++ (if mentions lowered ["it will"; "this should"; "the above should"; "that must"] && (n <? 3)%nat
        then [momus PlanInconsistency "Ambiguous reference detected without sufficient context" false] else [])
    ++ (if contains lowered (utf8 "step") && (5 <? steps)%nat && (n <? steps)%nat
        then [momus PlanInconsistency "Possible circular step referencing detected" true] else []).

Definition validate_acceptance_criteria (plan : text) : list MomusFinding :=
  if blank plan then []
  else
    let lowered := lower plan in
    (if negb (mentions lowered ["verify"; "validate"; "test"; "check"; "assert"; "confirm"]) && (10 <? length (words plan))%nat
     then [momus UntestableAcceptanceCriteria "No verification or testing steps found in plan" true] else [])
    ++ (if negb (mentions lowered ["percent"; "count"; "score"; "threshold"; "minimum"; "maximum"; "less than"; "more than"])
           && negb (contains lowered (utf8 "complete"))
        then [momus UntestableAcceptanceCriteria "No measurable acceptance criteria detected" false] else []).

Definition without_subject (l : text) : bool :=
  let t := trim l in starts_with t (utf8 "and") || starts_with t (utf8 "or") || starts_with t (utf8 "then").
Definition assess_verifiability (plan : text) : list MomusFinding :=
  if blank plan then []
  else
    let lowered := lower plan in
    let ls := filter (fun l => blank l = false) (lines plan) in
    (if (length ls / 2 <? length (filter (fun l => without_subject l = true) ls))%nat && (2 <? length ls)%nat
     then [momus MissingVerifiability "Majority of steps lack clear subject — hard to verify independently" true] else [])
    ++ (if contains lowered (utf8 "updated") && negb (contains lowered (utf8 "update"))
        then [momus MissingVerifiability "Implied state changes without explicit update action" false] else []).

(** *** The order of the checks *)

Local Open Scope N_scope.
Definition DEBIAS_SEED_BASE : N := 0x5EED1D8E5EED1D8E.
Definition debias_seed (id : N) : N := N.lxor DEBIAS_SEED_BASE id.

Definition u64 (n : N) : N := n mod 2 ^ 64.
(** The new state and the number. *)
Definition splitmix64 (state : N) : N * N :=
  let state' := u64 (state + 0x9E3779B97F4A7C15) in
  let z1 := u64 (N.lxor state' (N.shiftr state' 30) * 0xBF58476D1CE4E5B9) in
  let z2 := u64 (N.lxor z1 (N.shiftr z1 27) * 0x94D049BB133111EB) in
  (state', N.lxor z2 (N.shiftr z2 31)).

Definition swap {A} (l : list A) (i j : nat) : list A :=
  match l !! i, l !! j with Some x, Some y => <[j := x]> (<[i := y]> l) | _, _ => l end.

(** The loop of Fisher and Yates, from [i] down to 1. *)
Fixpoint shuffle (i : nat) (state : N) (order : list nat) : list nat :=
  match i with
  | O => order
  | S i' => let '(state', z) := splitmix64 state in shuffle i' state' (swap order i (N.to_nat (z mod (N.of_nat i + 1))))
  end.
Definition seeded_order (seed : N) (len : nat) : list nat := shuffle (len - 1) seed (seq 0 len).
Local Close Scope N_scope.

Record MomusReview := { findings : list MomusFinding; approved : bool; veto_reason : option text }.

Definition momus_groups (plan : text) : list (list MomusFinding) :=
  [check_plan_consistency plan; validate_acceptance_criteria plan; assess_verifiability plan].

Definition gate_review_seeded (plan : text) (seed : N) : MomusReview :=
  let l := flat_map (fun i => default [] (momus_groups plan !! i)) (seeded_order seed 3) in
  let blocked := existsb is_blocking l in
  {| findings := l; approved := negb blocked;
     veto_reason :=
       if blocked then
         Some (join_with (utf8 "; ") (map (fun f => utf8 ("[" ++ momus_str (finding_type f) ++ "] ") ++ description f)
                                        (filter (fun f => is_blocking f = true) l)))
       else None |}.

(** What the gate reads of a task; [task_low] is the low half of its id. *)
Record Task := { user_input : text; metadata_sensitivity : option text; task_low : N }.

Definition rubric_seed (task : Task) : N := debias_seed (task_low task).
Definition gate_review (task : Task) (plan : text) : MomusReview := gate_review_seeded plan (rubric_seed task).

(** ** Hermes *)

Definition COMMON_WORDS : list text := map utf8 ["this"; "that"; "which"; "there"; "their"]%string.
Definition significant (w : text) : bool := (4 <? str_len w)%nat && negb (bool_decide (w ∈ COMMON_WORDS)).

Definition fact_check (deliverable blueprint : text) : list text :=
  if blank deliverable then []
  else map (fun w => utf8 "Blueprint key term '" ++ w ++ utf8 "' not found in deliverable")
         (filter (fun w => contains (lower deliverable) (lower w) = false) (filter (fun w => significant w = true) (words blueprint))).

Definition structured (l : text) : bool :=
  let t := trim l in
  starts_with t (utf8 "#") || starts_with t (utf8 "-") || starts_with t (utf8 "*")
  || match t with c :: _ => is_ascii_digit c | [] => false end.
Definition check_format_compliance (deliverable : text) : list text :=
  if blank deliverable then []
  else
    let ls := lines deliverable in
    (if (10 <? length ls)%nat && negb (existsb structured ls)
     then [utf8 "Long deliverable lacks structural elements (headings, lists, numbered steps)"] else [])
    ++ (if Nat.odd (length (filter (fun c => c = 96%N) deliverable))
        then [utf8 "Unmatched backtick characters detected in formatting"] else []).

(** The findings of [validate_deliverable]; it is ready when there are none. *)
Definition validate_deliverable (task : Task) (deliverable : text) : list text :=
  fact_check deliverable (user_input task) ++ check_format_compliance deliverable.
Definition can_push (l : list text) : bool := bool_decide (l = []).

(** ** Zeus *)

Record ReviewContext := { rc_sensitivity : Sensitivity; token_budget : nat; hermes_rejections : nat }.

Definition from_task_with_metadata (task : Task) (rejections : nat) : ReviewContext :=
  {| rc_sensitivity :=
       match metadata_sensitivity task with
       | Some s => if bool_decide (s = utf8 "Confidential") then Confidential
                   else if bool_decide (s = utf8 "Private") then Private else Public
       | None => Public
       end;
     token_budget := str_len (user_input task) * 4; hermes_rejections := rejections |}.

(** A budget above 100000. *)
Definition over_budget (n : nat) : bool := (100000 <? N.of_nat n)%N.
Definition should_escalate (s : Sensitivity) (rejections budget : nat) : bool :=
  bool_decide (s = Confidential) || (2 <=? rejections)%nat || over_budget budget.

Definition generate_athena_shield (ctx : ReviewContext) : text :=
  let deadlock := if (2 <=? hermes_rejections ctx)%nat
    then [utf8 ("- Hermes rejected " ++ pretty (hermes_rejections ctx) ++ " times — possible deadlock")] else [] in
  let risk := if over_budget (token_budget ctx)
    then [utf8 ("- Token budget " ++ pretty (token_budget ctx) ++ " exceeded 100K threshold")] else [] in
  let secret := if bool_decide (rc_sensitivity ctx = Confidential)
    then [utf8 "- Confidential sensitivity requires human review"] else [] in
  join_with (utf8 nl)
    ([utf8 "# Athena Shield — Human Handoff Guide"; []; utf8 "## Escalation Context";
      utf8 ("- Sensitivity: " ++ sensitivity_str (rc_sensitivity ctx)); utf8 ("- Token budget: " ++ pretty (token_budget ctx));
      utf8 ("- Hermes rejections: " ++ pretty (hermes_rejections ctx)); []; utf8 "## Failed Attempts"]
     ++ deadlock ++ risk ++ secret
     ++ [[]; utf8 "## Recommended Actions"; utf8 "- Review task requirements"; utf8 "- Consult domain expert";
         utf8 "- Consider alternative approach"]).

(** Whether it approves, and the guide it hands over when it does not. *)
Definition final_review (ctx : ReviewContext) : bool * option text :=
  if should_escalate (rc_sensitivity ctx) (hermes_rejections ctx) (token_budget ctx) then
    let ok := negb (2 <=? hermes_rejections ctx)%nat in (ok, if ok then None else Some (generate_athena_shield ctx))
  else (true, None).

(** ** The pipeline *)

Definition classify_blast_radius (task : Task) : bool := bool_decide (rc_sensitivity (from_task_with_metadata task 0) = Confidential).

Record SemanticVerdict := { sv_approved : bool; sv_note : text }.
Record QualityPipeline := {
  max_momus_retries : nat; max_hermes_revisions : nat; llm_review_high_blast : bool;
  semantic_reviewer : option (Task -> text -> text -> SemanticVerdict);
}.

Section pipeline.
Context (score_text : list FindingSeverity -> text) (p : QualityPipeline) (task : Task) (plan : text).

Definition metis_notes : text :=
  let l := review_plan plan in
  (match l with
   | [] => []
   | _ => utf8 ("Metis suggestions (" ++ pretty (length l) ++ "): ") ++ join_with (utf8 "; ") (map m_description l) ++ utf8 nl
   end) ++ utf8 "Metis optimization score: " ++ score_text (map m_severity l) ++ utf8 nl.

Definition pass (notes : text) (failed : list text) : PipelineResult :=
  {| plan_approved := true; review_notes := notes ++ utf8 ("Hermes validation: DELIVERY READY" ++ nl); delivery_ready := true;
     athena_shield := None; failed_attempts := failed |}.

(** A deliverable that Hermes lets through, to the semantic reviewer when it is
    confidential. *)
Definition pushed (raw notes : text) (failed : list text) : PipelineResult :=
  if classify_blast_radius task && llm_review_high_blast p then
    match semantic_reviewer p with
    | Some reviewer =>
      let v := reviewer task plan raw in
      if sv_approved v then pass (notes ++ utf8 "LLM semantic review: APPROVED — " ++ sv_note v ++ utf8 nl) failed
      else {| plan_approved := true; review_notes := notes ++ utf8 "LLM semantic review: REJECTED — " ++ sv_note v ++ utf8 nl;
              delivery_ready := false; athena_shield := None;
              failed_attempts := failed ++ [utf8 "LLM semantic veto: " ++ sv_note v] |}
    | None => pass (notes ++ utf8 ("LLM semantic review: SKIPPED (no reviewer wired)" ++ nl)) failed
    end
  else pass notes failed.

(** The loop of revisions, [left] of them left; the deliverable never changes. *)
Fixpoint hermes_loop (left revisions : nat) (raw notes : text) (failed : list text) : PipelineResult :=
  let l := validate_deliverable task raw in
  if can_push l then pushed raw notes failed
  else
    let revisions' := S revisions in
    match left with
    | O =>
      let ctx := from_task_with_metadata task revisions' in
      if should_escalate (rc_sensitivity ctx) (hermes_rejections ctx) (token_budget ctx) then
        let '(ok, shield) := final_review ctx in
        {| plan_approved := true; review_notes := notes ++ utf8 ("Hermes deadlock detected, escalating to Zeus" ++ nl);
           delivery_ready := ok; athena_shield := shield; failed_attempts := failed |}
      else {| plan_approved := true; review_notes := notes ++ utf8 ("Hermes revision limit reached, returning deliverable" ++ nl);
              delivery_ready := false; athena_shield := None; failed_attempts := failed |}
    | S left' =>
      hermes_loop left' revisions' raw
        (notes ++ utf8 ("Hermes revision " ++ pretty revisions' ++ "/" ++ pretty (max_hermes_revisions p) ++ ": ")
         ++ join_with (utf8 "; ") l ++ utf8 nl) failed
    end.

(** The attempts at the gate, [left] left after this one. *)
Fixpoint momus_loop (left attempt : nat) (deliverable_cb : text -> text) (notes : text) (failed : list text) : PipelineResult :=
  let review := gate_review task plan in
  if approved review then
    hermes_loop (max_hermes_revisions p) 0 (deliverable_cb plan) (notes ++ utf8 ("Momus gate: APPROVED" ++ nl)) failed
  else
    let reason := default (utf8 "unknown") (veto_reason review) in
    let notes' := notes ++ utf8 ("Momus gate: REJECTED (attempt " ++ pretty (S attempt) ++ ") — ") ++ reason ++ utf8 nl in
    let failed' := failed ++ [utf8 ("Momus veto " ++ pretty (S attempt) ++ ": ") ++ reason] in
    match left with
    | O => {| plan_approved := false; review_notes := notes'; delivery_ready := false;
              athena_shield := (final_review (from_task_with_metadata task 0)).2; failed_attempts := failed' |}
    | S left' => momus_loop left' (S attempt) deliverable_cb notes' failed'
    end.

Definition pipeline_execute (deliverable_cb : text -> text) : PipelineResult :=
  momus_loop (max_momus_retries p) 0 deliverable_cb metis_notes [].
End pipeline.
