(* ===== verification/ReviewProps.v ===== *)
(** * Properties of the quality gate

    What the order of Momus' checks can change, what a review decides in closed
    form, and the checks that can never find anything. *)

From S2P Require Import Prelude Types Text Sandbox TaskRegistry ToolText Review.
From Stdlib Require Import Lia.
Local Open Scope list_scope.

(** ** Lemmas on texts *)

Lemma is_upper_lowered c : is_upper (ascii_lower c) = false.
Proof. unfold is_upper, ascii_lower.
  destruct (N.leb_spec 65 c), (N.leb_spec c 90); simpl; apply andb_false_iff; rewrite ?N.leb_gt; lia. Qed.

(** A lowered text mentions nothing that has a capital. *)
Lemma lowered_contains t p : existsb is_upper p = true -> contains (lower t) p = false.
Proof.
  intros Hp. destruct (contains (lower t) p) eqn:C; [exfalso|done].
  apply contains_spec in C as (u & v & E).
  apply existsb_exists in Hp as (c & Hc & Hup).
  assert (In c (lower t)) as Hin by (rewrite E, !in_app_iff; auto).
  apply in_map_iff in Hin as (d & <- & _). rewrite is_upper_lowered in Hup. done.
Qed.

Lemma split_by_free (p : char -> bool) t s c : In s (split_by p t) -> In c s -> p c = false.
Proof.
  revert s. induction t as [|d t IH]; intros s; simpl.
  - intros [<-|[]] [].
  - destruct (p d) eqn:D.
    + intros [<-|H]; [intros []|eauto].
    + destruct (split_by p t) as [|piece pieces] eqn:S.
      * intros [<-|[]] [<-|[]]. done.
      * intros [<-|H] Hc; [|eapply IH; [right|]; eauto].
        destruct Hc as [<-|Hc]; [done|]. eapply IH; [left|]; eauto.
Qed.

Lemma singleton_absent c t : ~ In c t -> contains t [c] = false.
Proof.
  intros H. destruct (contains t [c]) eqn:C; [exfalso|done].
  apply contains_spec in C as (u & v & ->). apply H. rewrite in_app_iff. right. by left.
Qed.

(** A sentence has no full stop in it. *)
Lemma sentence_unstopped plan s : In s (sentences plan) -> contains s (utf8 ".") = false.
Proof.
  intros H. apply singleton_absent. intros Hc.
  apply list_elem_of_In, list_elem_of_filter in H as [_ H]. apply list_elem_of_In in H.
  pose proof (split_by_free _ _ _ _ H Hc). done.
Qed.

Lemma split_whitespace_go_cons t : exists piece pieces, split_whitespace_go t = piece :: pieces.
Proof.
  induction t as [|c t (piece & pieces & IH)]; simpl; [eauto|].
  destruct (is_whitespace c); [eauto|]. rewrite IH. eauto.
Qed.

(** A white space cuts a text into the words of its two sides. *)
Lemma split_whitespace_app u w v : is_whitespace w = true ->
  split_whitespace (u ++ w :: v) = split_whitespace u ++ split_whitespace v.
Proof.
  intros Hw. unfold split_whitespace.
  assert (split_whitespace_go (u ++ w :: v) = split_whitespace_go u ++ split_whitespace_go v) as ->; [|apply filter_app].
  induction u as [|c u IH]; simpl; [rewrite Hw; done|].
  destruct (is_whitespace c); rewrite IH; [done|].
  destruct (split_whitespace_go_cons u) as (piece & pieces & ->). done.
Qed.

(** ** The order of the checks *)

Lemma swap_perm {A} (l : list A) i j : swap l i j ≡ₚ l.
Proof.
  unfold swap. destruct (l !! i) eqn:I; [|done]. destruct (l !! j) eqn:J; [|done].
  by apply Permutation_insert_swap.
Qed.

Lemma shuffle_perm i state order : shuffle i state order ≡ₚ order.
Proof.
  revert state order. induction i as [|i IH]; intros state order; simpl; [done|].
  destruct (splitmix64 state) as [s z]. by rewrite IH, swap_perm.
Qed.

Lemma seeded_order_perm seed len : seeded_order seed len ≡ₚ seq 0 len.
Proof. apply shuffle_perm. Qed.

Lemma existsb_perm {A} (f : A -> bool) l k : l ≡ₚ k -> existsb f l = existsb f k.
Proof. induction 1; simpl; [done|by f_equal|by rewrite !orb_assoc, (orb_comm (f y))|congruence]. Qed.

(** Every check is run once, and nothing but the order of the findings depends
    on the seed. *)
Lemma groups_perm plan seed : findings (gate_review_seeded plan seed) ≡ₚ concat (momus_groups plan).
Proof.
  unfold gate_review_seeded; cbn [findings]. rewrite (flat_map_concat_map _ (seeded_order seed 3)).
  rewrite (Permutation_map _ (seeded_order_perm seed 3)). done.
Qed.

(** The gate's decision does not depend on the order in which it runs its checks:
    for every seed the findings are those of the three checks, each once, the
    plan is approved exactly when none of them blocks, and a reason is given
    exactly when it is not. *)
Theorem gate_order_free plan seed :
  findings (gate_review_seeded plan seed)
    ≡ₚ check_plan_consistency plan ++ validate_acceptance_criteria plan ++ assess_verifiability plan
  /\ approved (gate_review_seeded plan seed)
     = negb (existsb is_blocking (check_plan_consistency plan) || existsb is_blocking (validate_acceptance_criteria plan)
             || existsb is_blocking (assess_verifiability plan))
  /\ (is_Some (veto_reason (gate_review_seeded plan seed)) <-> approved (gate_review_seeded plan seed) = false).
Proof.
  pose proof (groups_perm plan seed) as P. unfold momus_groups in P. cbn [concat] in P. rewrite app_nil_r in P.
  split; [exact P|]. unfold gate_review_seeded in *; cbn [approved veto_reason findings] in *.
  rewrite (existsb_perm _ _ _ P), !existsb_app, orb_assoc. split; [done|].
  destruct (_ || _); simpl; split; [done|eauto|intros [? [=]]|done].
Qed.

(** ** Checks that find nothing *)

Lemma logic_gaps_shape i previous l f :
  In f (logic_gaps_of i previous l) ->
  (exists k : nat, m_description f = utf8 ("Unsequenced 'then' at position " ++ pretty k ++ " without preceding step") /\ m_severity f = Medium)
  \/ (exists s, In s l /\ contains (lower s) (utf8 "placeholder") = true /\ m_severity f = High).
Proof.
  revert i previous. induction l as [|s l IH]; intros i previous; simpl; [done|].
  rewrite !in_app_iff. intros [H|[H|H]].
  - destruct (_ && _); [|done]. destruct H as [<-|[]]. left. by exists i.
  - unfold mentions in H. cbn [existsb] in H.
    rewrite (lowered_contains s (utf8 "TODO") eq_refl), (lowered_contains s (utf8 "FIXME") eq_refl) in H.
    cbn [orb] in H. rewrite orb_false_r in H.
    destruct (contains (lower s) (utf8 "placeholder")) eqn:E; [|done]. destruct H as [<-|[]]. right. exists s. by split; [left|].
  - destruct (IH _ _ H) as [?|(s' & Hs' & ?)]; [by left|]. right. exists s'. by split; [right|].
Qed.

(** How many sentences after the first have the word. *)
Definition thens (l : list text) : nat := length (filter (fun s => contains (lower s) (utf8 "then") = true) l).

Lemma gaps_count i p l : (forall s, In s (p :: l) -> contains s (utf8 ".") = false) ->
  length (filter (fun f => m_severity f = Medium) (logic_gaps_of i (Some p) l)) = thens l.
Proof.
  revert i p. induction l as [|s l IH]; intros i p H; [done|].
  unfold thens in *. cbn [logic_gaps_of]. rewrite !filter_app, !length_app, IH by (intros; apply H; by right).
  rewrite (H p) by (by left). cbn [negb]. rewrite andb_true_r.
  rewrite (filter_cons _ s l).
  destruct (contains (lower s) (utf8 "then")) eqn:T, (mentions (lower s) _);
    repeat (case_decide; [|done || (exfalso; congruence)]); try (exfalso; congruence); done.
Qed.

Lemma updated_is_update t : contains t (utf8 "updated") && negb (contains t (utf8 "update")) = false.
Proof.
  destruct (contains t (utf8 "updated")) eqn:U; [|done].
  rewrite (contains_mono t (utf8 "updated") (utf8 "update")); [done| |done].
  exists [], (utf8 "d"). reflexivity.
Qed.

(** Three checks of the gate never do what they are written for.  Metis searches
    its lowered text for TODO and FIXME, so that a marker of high severity is
    only ever a sentence with the word placeholder in it; it looks for a full
    stop in sentences it has cut at full stops, so that every sentence but the
    first that has the word then is called unsequenced; and Momus looks for an
    updated without an update, so that the check of implied changes never adds
    a finding. *)
Theorem checks_that_find_nothing plan :
  (forall f, In f (logic_gaps_of 0 None (sentences plan)) -> m_severity f = High ->
     exists s, In s (sentences plan) /\ contains (lower s) (utf8 "placeholder") = true)
  /\ length (filter (fun f => m_severity f = Medium) (logic_gaps_of 0 None (sentences plan))) = thens (tail (sentences plan))
  /\ (forall f, In f (assess_verifiability plan) -> is_blocking f = true).
Proof.
  split; [|split].
  - intros f H High. apply logic_gaps_shape in H as [(k & _ & E)|(s & ? & ? & _)]; [congruence|eauto].
  - pose proof (sentence_unstopped plan) as U. destruct (sentences plan) as [|s l]; [done|].
    cbn [logic_gaps_of tail]. rewrite andb_false_r. cbn [app]. rewrite filter_app, length_app, gaps_count by exact U.
    destruct (mentions _ _); [|done]. rewrite filter_cons, decide_False by done. done.
  - intros f. unfold assess_verifiability. destruct (blank plan); [done|]. cbv zeta.
    rewrite updated_is_update, app_nil_r. destruct (_ && _); [|done]. intros [<-|[]]. done.
Qed.

(** ** The pipeline in closed form *)

Section pipeline.
Context (score : list FindingSeverity -> text) (p : QualityPipeline) (task : Task) (plan : text).

(** The vetoes of [n] attempts from the one numbered [k]. *)
Definition vetoes (k n : nat) : list text :=
  map (fun i => utf8 ("Momus veto " ++ pretty (S i) ++ ": ") ++ default (utf8 "unknown") (veto_reason (gate_review task plan))) (seq k n).

(** The note of a semantic reviewer that is asked and refuses. *)
Definition refusal (raw : text) : option text :=
  if classify_blast_radius task && llm_review_high_blast p then
    match semantic_reviewer p with
    | Some reviewer => let v := reviewer task plan raw in if sv_approved v then None else Some (sv_note v)
    | None => None
    end
  else None.

Definition waved_through : bool :=
  classify_blast_radius task || over_budget (token_budget (from_task_with_metadata task 0)).

Lemma pushed_exact raw notes failed :
  let r := pushed p task plan raw notes failed in
  plan_approved r = true /\ delivery_ready r = bool_decide (refusal raw = None) /\ athena_shield r = None
  /\ failed_attempts r = failed ++ match refusal raw with Some n => [utf8 "LLM semantic veto: " ++ n] | None => [] end.
Proof.
  unfold pushed, refusal. destruct (_ && _); [|rewrite app_nil_r; done].
  destruct (semantic_reviewer p) as [reviewer|]; [|rewrite app_nil_r; done].
  cbv zeta. destruct (sv_approved _); [rewrite app_nil_r|]; done.
Qed.

Lemma hermes_exact left revisions raw notes failed :
  let r := hermes_loop p task plan left revisions raw notes failed in
  let ok := can_push (validate_deliverable task raw) in
  plan_approved r = true
  /\ delivery_ready r = (if ok then bool_decide (refusal raw = None) else (left + revisions <=? 0)%nat && waved_through)
  /\ (is_Some (athena_shield r) <-> ok = false /\ 1 <= left + revisions)
  /\ failed_attempts r
     = failed ++ (if ok then match refusal raw with Some n => [utf8 "LLM semantic veto: " ++ n] | None => [] end else []).
Proof.
  revert revisions notes. induction left as [|left IH]; intros revisions notes; cbn [hermes_loop]; cbv zeta.
  - destruct (can_push _) eqn:C.
    + destruct (pushed_exact raw notes failed) as (-> & -> & -> & ->). split_and!; try done. split; [intros [? [=]]|intros [[=] _]].
    + unfold should_escalate, final_review, waved_through, classify_blast_radius, should_escalate.
      cbn [hermes_rejections rc_sensitivity token_budget from_task_with_metadata].
      change (rc_sensitivity (from_task_with_metadata task (S revisions))) with (rc_sensitivity (from_task_with_metadata task 0)).
      destruct (bool_decide _), revisions as [|r]; simpl; rewrite ?app_nil_r;
        try destruct (over_budget _); simpl; split_and!; try done; split; try (intros [? [=]]); try lia; eauto; intros [_ ?]; lia.
  - destruct (can_push _) eqn:C.
    + destruct (pushed_exact raw notes failed) as (-> & -> & -> & ->). split_and!; try done. split; [intros [? [=]]|intros [[=] _]].
    + edestruct (IH (S revisions)) as (-> & -> & -> & ->). rewrite Nat.add_succ_r. done.
Qed.

Lemma momus_exact left attempt cb notes failed : approved (gate_review task plan) = false ->
  let r := momus_loop p task plan left attempt cb notes failed in
  plan_approved r = false /\ delivery_ready r = false /\ athena_shield r = None
  /\ failed_attempts r = failed ++ vetoes attempt (S left).
Proof.
  intros H. revert attempt notes failed. induction left as [|left IH]; intros attempt notes failed; cbn [momus_loop]; cbv zeta; rewrite H.
  - split_and!; try done. unfold final_review. cbn [from_task_with_metadata hermes_rejections]. by destruct (should_escalate _ _ _).
  - edestruct IH as (-> & -> & -> & ->). split_and!; try done. rewrite <- app_assoc. done.
Qed.
End pipeline.

(** What a review decides, for every plan, deliverable and configuration.  The
    plan is approved as the gate approves it, and a vetoed plan is vetoed once
    per attempt for the same reason, since nothing changes between attempts.  A
    deliverable is ready when Hermes and the semantic reviewer let it through,
    or when no revisions are configured and the task is confidential or over
    budget, whatever Hermes found.  The guide for a human is handed over
    exactly when Hermes refuses the deliverable of an approved plan and a
    revision was configured: never after the vetoes of Momus. *)
Theorem pipeline_exact score p task plan (cb : text -> text) :
  let r := pipeline_execute score p task plan cb in
  let raw := cb plan in
  let ok := can_push (validate_deliverable task raw) in
  let go := approved (gate_review task plan) in
  plan_approved r = go
  /\ delivery_ready r
     = go && (if ok then bool_decide (refusal p task plan raw = None)
              else (max_hermes_revisions p =? 0)%nat && waved_through task)
  /\ (is_Some (athena_shield r) <-> go = true /\ ok = false /\ 1 <= max_hermes_revisions p)
  /\ failed_attempts r
     = (if go then (if ok then match refusal p task plan raw with Some n => [utf8 "LLM semantic veto: " ++ n] | None => [] end else [])
        else vetoes task plan 0 (S (max_momus_retries p))).
Proof.
  cbv zeta. unfold pipeline_execute. destruct (approved (gate_review task plan)) eqn:G.
  - assert (forall left attempt notes failed, momus_loop p task plan left attempt cb notes failed
      = hermes_loop p task plan (max_hermes_revisions p) 0 (cb plan) (notes ++ utf8 ("Momus gate: APPROVED" ++ nl)) failed) as E
      by (intros [|left] ? ? ?; cbn [momus_loop]; cbv zeta; rewrite G; done).
    rewrite E. edestruct (hermes_exact p task plan) as (-> & -> & -> & ->). rewrite Nat.add_0_r. cbn [app andb].
    assert (forall n, (n <=? 0)%nat = (n =? 0)%nat) as -> by (by intros []). tauto.
  - destruct (momus_exact p task plan (max_momus_retries p) 0 cb (metis_notes score plan) [] G) as (-> & -> & -> & ->).
    split_and!; try done. split; [intros [? [=]]|intros [[=] _]].
Qed.

(** ** Reviews with background tasks *)

Lemma missing_word task d w : blank d = false -> w ∈ words (user_input task) -> significant w = true ->
  contains (lower d) (lower w) = false -> can_push (validate_deliverable task d) = false.
Proof.
  intros Hd Hw Sw Cw. unfold can_push. apply bool_decide_eq_false. unfold validate_deliverable, fact_check. rewrite Hd.
  intros E. apply app_nil in E as [E _]. apply map_eq_nil in E. eapply elem_of_nil. rewrite <- E.
  apply list_elem_of_filter. split; [exact Cw|]. apply list_elem_of_filter. by split.
Qed.

(** A word between two white spaces. *)
Lemma word_between u a w b v : is_whitespace a = true -> is_whitespace b = true -> split_whitespace w = [w] ->
  w ∈ words (u ++ a :: w ++ b :: v).
Proof.
  intros A B W. unfold words. rewrite split_whitespace_app, split_whitespace_app by done. rewrite W.
  apply elem_of_app. right. apply elem_of_app. left. by apply list_elem_of_singleton.
Qed.

Lemma background_word input live now : live <> [] ->
  utf8 "[Background" ∈ words (gate_input_with_background input live now).
Proof.
  intros H. unfold gate_input_with_background, background_gate_context_line. rewrite bool_decide_eq_false_2 by exact H.
  set (rest := utf8 (pretty (length live)) ++ _).
  replace (input ++ utf8 (nl ++ nl) ++ utf8 "[Background context] " ++ rest)
    with ((input ++ [10%N]) ++ 10%N :: utf8 "[Background" ++ 32%N :: utf8 "context] " ++ rest)
    by (rewrite <- app_assoc; reflexivity).
  apply word_between; reflexivity.
Qed.

(** The line about background tasks that the orchestrator adds to the input of a
    review, meant for the judgement of completeness, is read by Hermes as part
    of the blueprint: while a background task of the session runs, an answer
    that does not quote the line's opening word is refused, whatever the
    request was. *)
Theorem background_line_demanded p task plan raw notes failed left (live : list TaskSnapshot) input now :
  live <> [] -> user_input task = gate_input_with_background input live now ->
  blank raw = false -> contains (lower raw) (utf8 "[background") = false ->
  can_push (validate_deliverable task raw) = false
  /\ (1 <= left -> delivery_ready (hermes_loop p task plan left 0 raw notes failed) = false).
Proof.
  intros Hl Hi Hb Hc.
  assert (can_push (validate_deliverable task raw) = false) as C.
  { apply missing_word with (utf8 "[Background"); [exact Hb|rewrite Hi; by apply background_word|reflexivity|exact Hc]. }
  split; [exact C|]. intros L. edestruct (hermes_exact p task plan left 0 raw notes failed) as (_ & -> & _). rewrite C.
  destruct left; [lia|done].
Qed.

(** ** Witnesses *)

Definition a_snapshot : TaskSnapshot := {|
  task_id := "0123456789"; session_id := "s"; pid := 7; command_digest := "make"; output_dir := "out"; status := Running;
  started_at_ms := 0%Z; ended_at_ms := None; bytes_stdout := 0; bytes_stderr := 0; truncated := false;
|}.
Definition a_task : Task := {|
  user_input := gate_input_with_background (utf8 "fix it") [a_snapshot] 5000%Z; metadata_sensitivity := None; task_low := 5%N;
|}.
Definition a_pipeline : QualityPipeline := {|
  max_momus_retries := 2; max_hermes_revisions := 1; llm_review_high_blast := true; semantic_reviewer := None;
|}.
Definition the_answer : text := utf8 "Fixed it, tests pass.".

(** An answer that fulfils its request, refused because a task runs. *)
Lemma background_line_demanded_witness :
  can_push (validate_deliverable a_task the_answer) = false
  /\ (1 <= 1 -> delivery_ready (hermes_loop a_pipeline a_task [] 1 0 the_answer [] []) = false).
Proof.
  apply (background_line_demanded a_pipeline a_task [] the_answer [] [] 1 [a_snapshot] (utf8 "fix it") 5000%Z).
  - intros [=].
  - reflexivity.
  - reflexivity.
  - vm_compute. reflexivity.
Defined.

(** The same answer is ready when nothing runs. *)
Example ready_otherwise :
  can_push (validate_deliverable {| user_input := utf8 "fix it"; metadata_sensitivity := None; task_low := 5%N |} the_answer) = true.
Proof. vm_compute. reflexivity. Qed.
