(* ===== verification/Sanitize.v ===== *)
(** * The input sanitizer

    Models [crates/zen-core/src/sanitize.rs]: what tool outputs, knowledge and
    queries pass before they reach a prompt.  A slice of a string at an offset
    that is not the boundary of a character panics.  [str::to_lowercase] is the
    class [Lowercase]: the full table of Unicode is not written out. *)

From S2P Require Import Prelude Text.
From Stdlib Require Import Lia.
Local Open Scope list_scope.

(** [to_lowercase], character by character: ASCII letters as they are known, any
    other character to whatever its table says. *)
Class Lowercase := {
  lower_char : char -> text;
  lower_char_ascii : forall c, (c < 128)%N -> lower_char c = [ascii_lower c];
}.

(** ** Offsets in bytes *)

(** The two parts of a text at a byte offset, if it is a boundary. *)
Fixpoint split_bytes (n : nat) (t : text) : option (text * text) :=
  match n, t with
  | O, _ => Some ([], t)
  | _, [] => None
  | _, c :: t' => if (len_utf8 c <=? n)%nat then '(u, v) ← split_bytes (n - len_utf8 c) t'; Some (c :: u, v) else None
  end.

(** [str::find], as a byte offset. *)
Definition find_byte (t pat : text) : option nat := (fun i => str_len (take i t)) <$> find t pat.

Section sanitizer.
Context {HL : Lowercase}.

Definition to_lowercase (t : text) : text := flat_map lower_char t.

(** ** The removals; each with the flag that it found something *)

Definition removes (pats : list string) (t : text) (flag : bool) : text :=
  if flag then fold_left (fun t p => replace t (utf8 p) []) pats t else t.

(** A pattern found in [lowered] is removed from the text as it is written. *)
Definition strip_written (lowered : text) (acc : text * bool) (pattern : string) : text * bool :=
  if contains lowered (utf8 pattern) then (replace acc.1 (utf8 pattern) [], true) else acc.
Definition strip_patterns (patterns : list string) (content : text) : text * bool :=
  fold_left (strip_written (to_lowercase content)) patterns (content, false).

Definition has_double_dot_slash (content : text) : bool :=
  contains content (utf8 "../") && (2 <? length (filter (fun i => starts_with (drop i content) (utf8 "../") = true) (seq 0 (length content))) + 1)%nat.

(** *** System tags *)

Definition SYSTEM_TAGS : list string := ["<system>"; "</system>"; "<SYSTEM>"; "</SYSTEM>"; "<System>"; "</System>"]%string.

(** The scan for tags; [Some buf] inside one. *)
Fixpoint scan_tags (tag : option text) (cleaned : text) (stripped : bool) (t : text) : text * bool :=
  match t with
  | [] => (cleaned, stripped)
  | c :: rest =>
    if (c =? 60)%N then scan_tags (Some []) cleaned stripped rest
    else
      match tag with
      | Some buf =>
        let buf' := buf ++ [c] in
        if (c =? 62)%N then
          if contains (to_lowercase buf') (utf8 "system") then scan_tags None cleaned true rest
          else scan_tags None (cleaned ++ 60%N :: buf') stripped rest
        else scan_tags (Some buf') cleaned stripped rest
      | None => scan_tags None (cleaned ++ [c]) stripped rest
      end
  end.

Definition strip_system_tags (content : text) : text * bool :=
  let lowered := to_lowercase content in
  let found := contains lowered (utf8 "<system>") || contains lowered (utf8 "</system>") in
  let result := removes SYSTEM_TAGS content found in
  if contains result (utf8 "<") && contains (to_lowercase result) (utf8 "system>")
  then scan_tags None [] found result else (result, found).

(** *** Roles *)

Definition ROLE_PREFIXES : list string :=
  ["# system:"; "# assistant:"; "# developer:"; "system:"; "assistant:"; "developer:"; "### system"; "### assistant"; "### developer"]%string.

Definition drop_lines (prefix : string) (t : text) : text :=
  join_lines (filter (fun line => starts_with (to_lowercase line) (utf8 prefix) = false) (lines t)).
Definition strip_role (lowered : text) (acc : text * bool) (prefix : string) : text * bool :=
  if contains lowered (utf8 prefix) then (drop_lines prefix acc.1, true) else acc.
Definition strip_role_overrides (content : text) : text * bool :=
  fold_left (strip_role (to_lowercase content)) ROLE_PREFIXES (content, false).

(** *** Commands and code *)

Definition SHELL_PATTERNS : list string :=
  ["rm -rf"; "sudo |"; "wget |"; "curl |"; "wget |sh"; "curl |sh"; "wget |bash"; "curl |bash"]%string.
Definition PIPING_PATTERNS : list string := ["| sh"; "|bash"; "| sh" ++ nl]%string.
Definition strip_piping (acc : text * bool) (pattern : string) : text * bool :=
  if contains acc.1 (utf8 pattern) then (replace acc.1 (utf8 pattern) [], true) else acc.
Definition strip_shell_injection (content : text) : text * bool :=
  fold_left strip_piping PIPING_PATTERNS (strip_patterns SHELL_PATTERNS content).

Definition PRIV_PATTERNS : list string :=
  ["sudo passwd"; "sudo visudo"; "sudo usermod"; "sudo chmod"; "chmod 777 /"; "/etc/passwd"; "/etc/shadow"; "visudo"]%string.
Definition strip_privilege_escalation (content : text) : text * bool := strip_patterns PRIV_PATTERNS content.

Definition EXEC_PATTERNS : list string :=
  ["base64 -d"; "eval("; "exec("; "system("; "runtime.exec"; "processbuilder"]%string.
Definition strip_code_execution (content : text) : text * bool := strip_patterns EXEC_PATTERNS content.

(** *** Invisible characters *)

Definition zero_width (c : char) : bool := existsb (N.eqb c) [0x200B; 0x200C; 0x200D; 0xFEFF; 0x2060; 0x00AD]%N.
Definition strip_zero_width_chars (content : text) : text * bool :=
  (filter (fun c => zero_width c = false) content, existsb zero_width content).

(** *** HTML *)

Definition DANGEROUS_TAGS : list string :=
  ["<script"; "</script>"; "<iframe"; "</iframe>"; "<embed"; "</embed>"; "<object"; "</object>"; "<style"; "</style>";
   "<link"; "<meta"]%string.

(** One removal: the offset of the tag in the lowered text is applied to the text. *)
Definition cut_tag (tag : string) (buf : text) : outcome (option text) :=
  match find_byte (to_lowercase buf) (utf8 tag) with
  | None => Done None
  | Some start =>
    match split_bytes start buf with
    | None => Panic
    | Some (before, after) => Done ((fun i => before ++ drop (S i) after) <$> find after (utf8 ">"))
    end
  end.
(** Until there is nothing to cut. *)
Fixpoint cut_all (cut : text -> outcome (option text)) (fuel : nat) (buf : text) : outcome text :=
  match fuel with
  | O => OutOfFuel
  | S f => let! r := cut buf in match r with Some buf' => cut_all cut f buf' | None => Done buf end
  end.
Definition strip_tag (lowered : text) (acc : outcome (text * bool)) (tag : string) : outcome (text * bool) :=
  let! a := acc in
  if contains lowered (utf8 tag) then let! t := cut_all (cut_tag tag) (S (length a.1)) a.1 in Done (t, true) else Done a.

Definition EVENT_HANDLERS : list string := ["onerror="; "onload="; "onclick="; "onmouseover="]%string.

(** What is left after the handler's value. *)
Definition after_quote (q : char) (rest : text) : text :=
  match find rest [q] with Some i => drop (S i) rest | None => rest end.
Definition after_value (trimmed : text) : text :=
  match trimmed with
  | 34%N :: rest => after_quote 34%N rest
  | 39%N :: rest => after_quote 39%N rest
  | _ => drop (length (take_while (fun c => negb (is_whitespace c || (c =? 62)%N)) trimmed)) trimmed
  end.
Definition cut_handler (handler : string) (buf : text) : outcome (option text) :=
  match find_byte (to_lowercase buf) (utf8 handler) with
  | None => Done None
  | Some pos =>
    match split_bytes (pos + str_len (utf8 handler)) buf, split_bytes pos buf with
    | Some (_, after), Some (before, _) => Done (Some (before ++ after_value (trim_start after)))
    | _, _ => Panic
    end
  end.
Definition strip_handler (acc : outcome (text * bool)) (handler : string) : outcome (text * bool) :=
  let! a := acc in
  if contains (to_lowercase a.1) (utf8 handler)
  then let! t := cut_all (cut_handler handler) (S (length a.1)) a.1 in Done (t, true) else Done a.

Definition strip_javascript (a : text * bool) : text * bool :=
  let lowered := to_lowercase a.1 in
  if contains lowered (utf8 "javascript:") || contains lowered (utf8 "javascript :")
  then (replace (replace a.1 (utf8 "javascript:") []) (utf8 "javascript :") [], true) else a.

Definition strip_html_dangerous (content : text) : outcome (text * bool) :=
  let! a := fold_left (strip_tag (to_lowercase content)) DANGEROUS_TAGS (Done (content, false)) in
  let! b := fold_left strip_handler EVENT_HANDLERS (Done a) in
  Done (strip_javascript b).

(** ** The sanitizer *)

Definition strip_dangerous_patterns (content : text) : outcome text :=
  let! h := strip_html_dangerous (strip_zero_width_chars content).1 in
  let t := (strip_role_overrides (strip_system_tags h.1).1).1 in
  Done (strip_code_execution (strip_privilege_escalation (strip_shell_injection t).1).1).1.

Definition mentions_any (t : text) (l : list string) : bool := existsb (fun p => contains t (utf8 p)) l.

Definition exfiltrates (t : text) : bool :=
  mentions_any (to_lowercase t) ["wget https"; "curl https"] && mentions_any t [" >"; " >>"; "/dev/null"].

Definition note (flag : bool) (name : string) : list string := if flag then [name] else [].

(** [sort], [dedup]. *)
Fixpoint dedup (l : list string) : list string :=
  match l with
  | a :: (b :: _) as rest => if String.eqb a b then dedup rest else a :: dedup rest
  | _ => l
  end.
Definition before_eq (a b : string) : Prop := String.leb a b = true.
#[export] Instance before_eq_dec a b : Decision (before_eq a b).
Proof. unfold before_eq. apply _. Defined.
Definition sorted_names (l : list string) : list string := dedup (merge_sort before_eq l).

Definition CONTENT_START : string := "[USER_CONTENT_START]".
Definition CONTENT_END : string := "[USER_CONTENT_END]".

Record SanitizedContent := { original : text; sanitized : text; stripped_patterns : list string }.
Record InputSanitizer := { custom_patterns : list (text * string) }.

Definition add_pattern (s : InputSanitizer) (pattern : text) (name : string) : result InputSanitizer string :=
  match pattern with
  | [] => Err "pattern must not be empty"%string
  | _ => Ok {| custom_patterns := custom_patterns s ++ [(pattern, name)] |}
  end.

Definition customs (s : InputSanitizer) (lowered : text) : list string :=
  map snd (filter (fun p => contains lowered (to_lowercase p.1) = true) (custom_patterns s)).

Definition oversized (t : text) : bool := (1000000 <? N.of_nat (str_len t))%N.

Definition sanitize (s : InputSanitizer) (content : text) : outcome (result SanitizedContent string) :=
  if oversized content then Done (Err "content exceeds maximum size (1MB)"%string)
  else
    let '(t1, z) := strip_zero_width_chars content in
    let! h := strip_html_dangerous t1 in
    let '(t2, html) := h in
    let '(t3, tags) := strip_system_tags t2 in
    let '(t4, roles) := strip_role_overrides t3 in
    let inj := mentions_any (to_lowercase t4) ["ignore previous"; "disregard"] in
    let '(t5, sh) := strip_shell_injection t4 in
    let dots := has_double_dot_slash t5 in
    let '(t6, priv) := strip_privilege_escalation t5 in
    let '(t7, exec) := strip_code_execution t6 in
    Done (Ok {| original := content; sanitized := utf8 CONTENT_START ++ t7 ++ utf8 CONTENT_END;
                stripped_patterns := sorted_names
                  (note z "zero_width_chars" ++ note html "html_injection" ++ note tags "system_tag" ++ note roles "role_override"
                   ++ note inj "prompt_injection" ++ note sh "shell_injection" ++ note dots "path_traversal"
                   ++ note priv "privilege_escalation" ++ note exec "code_execution" ++ note (exfiltrates t7) "network_exfiltration"
                   ++ customs s (to_lowercase t7)) |}).

Definition contains_dangerous_pattern (s : InputSanitizer) (content : text) : list string :=
  let lowered := to_lowercase content in
  sorted_names
    (note (existsb zero_width content) "zero_width_chars"
     ++ note (mentions_any lowered ["<script"; "<iframe"; "<embed"; "<object"; "onerror="; "onload="; "javascript:"]) "html_injection"
     ++ note (mentions_any lowered ["<system>"; "</system>"; "<system "]) "system_tag"
     ++ note (mentions_any lowered ["# system:"; "# assistant:"; "### system"]) "role_override"
     ++ note (mentions_any lowered ["rm -rf"; "wget |"; "curl |"; "sudo |"]) "shell_injection"
     ++ note (has_double_dot_slash content) "path_traversal"
     ++ note (mentions_any lowered ["sudo passwd"; "sudo visudo"; "/etc/shadow"]) "privilege_escalation"
     ++ note (mentions_any lowered ["base64 -d"; "eval("; "runtime.exec"; "processbuilder"]) "code_execution"
     ++ note (exfiltrates content) "network_exfiltration"
     ++ customs s lowered).
End sanitizer.

(** ASCII, and the two characters whose lower case has another width in ASCII:
    U+0130 becomes an i with a combining dot, U+212A (the kelvin sign) a k. *)
#[export] Instance some_lowercase : Lowercase.
Proof.
  refine {| lower_char c := if (c <? 128)%N then [ascii_lower c] else if (c =? 0x130)%N then [105; 0x307]%N
                            else if (c =? 0x212A)%N then [107%N] else [c] |}.
  intros c Hc. rewrite (proj2 (N.ltb_lt c 128) Hc). done.
Defined.
