(* ===== verification/Executor.v ===== *)
(** * The agent executor

    Models [crates/zen-agents/src/executor.rs]: one call of a model, from routing
    to the last retry.  The system prompt, assembled by zen-memory, is an
    argument; so is the number drawn for the jitter of each delay. *)

From S2P Require Import Prelude Types Text Sandbox Sanitize Secrets SecretsProps Router RouterProps.
From Stdlib Require Import Lia.
Local Open Scope list_scope.

(** ** Categories of errors *)

Inductive ErrorCategory := Transient | ClientError | Unknown.
#[export] Instance ErrorCategory_eq : EqDecision ErrorCategory.
Proof. solve_decision. Defined.

Definition from_status_code (status : N) : ErrorCategory :=
  if existsb (N.eqb status) [429; 500; 502; 503; 504]%N then Transient
  else if existsb (N.eqb status) [400; 401; 403; 404; 422]%N then ClientError
  else Unknown.

Definition from_error_message (msg : text) : ErrorCategory :=
  let lowered := lower msg in
  if mentions_any lowered ["429"; "rate limit"; "too many"] then Transient
  else if mentions_any lowered ["500"; "502"; "503"; "504"; "timeout"; "connection reset"] then Transient
  else if mentions_any lowered ["400"; "401"; "403"] then ClientError
  else Unknown.

Definition is_retryable (c : ErrorCategory) : bool := match c with Transient | Unknown => true | ClientError => false end.

(** [LlmError::fmt]. *)
Definition error_text (e : LlmError) : text :=
  utf8 match e with
       | ProviderUnavailable provider reason => "provider unavailable: " ++ provider ++ " — " ++ reason
       | Routing reason => "routing failed: " ++ reason
       | Call reason => "call failed: " ++ reason
       end.

(** ** Delays *)

Record RetryPolicy := { max_retries : nat; base_delay_ms : N; max_delay_ms : N; jitter : bool }.
Definition default_policy : RetryPolicy := {| max_retries := 3; base_delay_ms := 500; max_delay_ms := 10000; jitter := true |}.

(** A number below a bound, as [fastrand::u64] draws one; an empty range panics. *)
Definition draw (random : N -> N) (bound : N) : outcome N := if (bound =? 0)%N then Panic else Done (random bound mod bound)%N.

Definition delay_ms (p : RetryPolicy) (random : N -> N) (attempt : nat) : outcome N :=
  let exponential := (base_delay_ms p * 2 ^ N.of_nat attempt)%N in
  if (U64_MAX <? 2 ^ N.of_nat attempt)%N || (U64_MAX <? exponential)%N then Panic
  else
    let delay := N.min exponential (max_delay_ms p) in
    if jitter p then
      let! extra := draw random (delay / 2)%N in
      if (U64_MAX <? delay + extra)%N then Panic else Done (delay + extra)%N
    else Done delay.

(** ** Retries *)

Inductive ExecError :=
  | NoProvider (agent : string) (primary fallback : LlmError)
  | CallFailed (e : LlmError)
  | Exhausted (agent : string) (retries : nat) (last : option LlmError).

Section executor.
Context `{HC : Credentials} `{HW : Wire} `{HR : Regex} {HL : Lowercase}.
Context (guarded : bool) (vars : list (text * text)) (policy : RetryPolicy) (random : nat -> N -> N).

Definition estimated_tokens (prompt response : text) : N :=
  (N.of_nat (str_len prompt + str_len response) mod 2 ^ 32 / 4)%N.

(** The attempts from the one numbered [attempt], with [left] more; the replies of
    the calls and the delays slept are kept. *)
Fixpoint retry_from (left attempt : nat) (last : option LlmError) (p : Provider) (prompt : text) (agent : string)
    (replies : list (result text LlmError)) (slept : list N) (r : router)
    : outcome (result (text * N) ExecError * list (result text LlmError) * list N * router) :=
  let! delay := match attempt with O => Done None | S k => let! d := delay_ms policy (random attempt) k in Done (Some d) end in
  let slept' := slept ++ match delay with Some d => [d] | None => [] end in
  let '(reply, r1) := call guarded vars p prompt r in
  let replies' := replies ++ [reply] in
  match reply with
  | Ok response => Done (Ok (response, estimated_tokens prompt response), replies', slept', r1)
  | Err e =>
    if is_retryable (from_error_message (error_text e)) then
      match left with
      | O => Done (Err (Exhausted agent (max_retries policy) (Some e)), replies', slept', r1)
      | S left' => retry_from left' (S attempt) (Some e) p prompt agent replies' slept' r1
      end
    else Done (Err (CallFailed e), replies', slept', r1)
  end.
Definition execute_with_retry (p : Provider) (prompt : text) (agent : string) (r : router) :=
  retry_from (max_retries policy) 0 None p prompt agent [] [] r.

(** ** A round *)

Definition TOOLS_HEADER : text :=
  utf8 (nl ++ nl ++ "## Available tools" ++ nl
    ++ "You can call tools to read/write files, fetch web pages, search the web, and more." ++ nl
    ++ "When you need a tool, respond with ONLY a fenced JSON block:" ++ nl ++ "```json" ++ nl ++ "{")
  ++ 34%N :: utf8 "tool" ++ 34%N :: utf8 ": " ++ 34%N :: utf8 "<tool_name>" ++ 34%N :: utf8 ", " ++ 34%N :: utf8 "args" ++ 34%N ::
  utf8 (": { ... }}" ++ nl ++ "```" ++ nl
    ++ "You may include multiple calls as a JSON array. After receiving results,continue the conversation normally." ++ nl
    ++ "Tools:" ++ nl).

Definition build_prompt_with_identity (system_prompt query tool_manifest tool_results : text) : outcome text :=
  let! sanitized := strip_dangerous_patterns query in
  Done (system_prompt
    ++ (if bool_decide (tool_manifest = []) then [] else TOOLS_HEADER ++ tool_manifest)
    ++ utf8 (nl ++ nl ++ "User: " ++ CONTENT_START) ++ sanitized ++ utf8 CONTENT_END
    ++ (if bool_decide (tool_results = []) then []
        else utf8 (nl ++ nl ++ "## Tool results from previous round" ++ nl) ++ tool_results
          ++ utf8 (nl ++ nl ++ "Based on the results above, continue. If you need more tools, emit another fenced JSON block; otherwise answer directly."))
    ++ utf8 (nl ++ nl ++ "Assistant:")).

(** Preferences first, then the default route. *)
Definition resolve_route (s : Sensitivity) (prefs : list LlmPreference) (agent : string) (r : router)
    : result Provider ExecError * router :=
  match route_with_preferences s prefs r with
  | (Ok p, r1) => (Ok p, r1)
  | (Err primary, r1) =>
    match route s r1 with
    | (Ok p, r2) => (Ok p, r2)
    | (Err fallback, r2) => (Err (NoProvider agent primary fallback), r2)
    end
  end.

Record RoundResult := { rr_response : text; tokens_used : N; model_used : string; rr_sensitivity : Sensitivity }.

(** [execute_round], and [execute_model_call], which keeps the response only. *)
Definition execute_round (s : Sensitivity) (prefs : list LlmPreference) (agent : string)
    (system_prompt query tool_manifest tool_results : text) (r : router)
    : outcome (result RoundResult ExecError * router) :=
  match resolve_route s prefs agent r with
  | (Err e, r1) => Done (Err e, r1)
  | (Ok p, r1) =>
    let! prompt := build_prompt_with_identity system_prompt query tool_manifest tool_results in
    let! a := execute_with_retry p prompt agent r1 in
    let '(res, _, _, r2) := a in
    Done (match res with
          | Ok (response, tokens) =>
            Ok {| rr_response := response; tokens_used := tokens; model_used := provider_str p; rr_sensitivity := s |}
          | Err e => Err e
          end, r2)
  end.

(** ** What a round calls *)

(** Calls of one provider with one prompt, one after the other. *)
Inductive calls (p : Provider) (prompt : text) : router -> list (result text LlmError) -> router -> Prop :=
  | no_call r : calls p prompt r [] r
  | one_more r l r1 : calls p prompt r l r1 ->
      calls p prompt r (l ++ [(call guarded vars p prompt r1).1]) (call guarded vars p prompt r1).2.

Definition worth_retrying (x : result text LlmError) : Prop :=
  exists e, x = Err e /\ is_retryable (from_error_message (error_text e)) = true.

(** How the retries end, from what the calls replied. *)
Definition ends_with (agent : string) (prompt : text) (replies : list (result text LlmError)) (res : result (text * N) ExecError) : Prop :=
  match res with
  | Ok (response, tokens) => last replies = Some (Ok response) /\ tokens = estimated_tokens prompt response
  | Err (CallFailed e) => last replies = Some (Err e) /\ is_retryable (from_error_message (error_text e)) = false
  | Err (Exhausted a n l) => a = agent /\ n = max_retries policy /\ length replies = S n
      /\ exists e, l = Some e /\ last replies = Some (Err e) /\ is_retryable (from_error_message (error_text e)) = true
  | Err (NoProvider _ _ _) => False
  end.

Lemma retry_from_exact left attempt last p prompt agent replies slept r0 r res replies' slept' r' :
  calls p prompt r0 replies r -> Forall worth_retrying replies -> length replies = attempt -> attempt + left = max_retries policy ->
  length slept = attempt - 1 ->
  retry_from left attempt last p prompt agent replies slept r = Done (res, replies', slept', r') ->
  calls p prompt r0 replies' r' /\ length replies' <= S (max_retries policy) /\ Forall worth_retrying (removelast replies')
  /\ ends_with agent prompt replies' res /\ length slept' = length replies' - 1.
Proof.
  revert attempt last replies slept r. induction left as [|left IH]; intros attempt lst replies slept r Hc Hf Hl Hm Hs;
    cbn [retry_from]; (destruct (match attempt with O => _ | S _ => _ end) as [delay| |] eqn:D; cbn [obind]; [|done|done]).
  all: assert (length (slept ++ match delay with Some d => [d] | None => [] end) = attempt) as Hs'
    by (rewrite length_app; destruct attempt as [|k]; [by simplify_eq/=; lia|];
        destruct (delay_ms _ _ k); simplify_eq/=; cbn; lia).
  all: pose proof (one_more p prompt r0 replies r Hc) as Hc'; destruct (call guarded vars p prompt r) as [reply r1] eqn:C;
    cbn [fst snd] in Hc'.
  all: assert (length (replies ++ [reply]) = S attempt) as Hl' by (rewrite length_app; cbn; lia).
  all: destruct reply as [response|e].
  1,3: intros [= <- <- <- <-]; cbn [ends_with]; rewrite removelast_last, last_snoc; split_and!; done || lia.
  all: destruct (is_retryable _) eqn:R.
  2,4: intros [= <- <- <- <-]; cbn [ends_with]; rewrite removelast_last, last_snoc; split_and!; done || lia.
  - intros [= <- <- <- <-]. cbn [ends_with]. rewrite removelast_last, last_snoc. split_and!; [done|lia|done|done|done|lia| |lia]. by exists e.
  - apply IH; [done| |done|lia|lia].
    apply Forall_app. split; [done|]. constructor; [by exists e|constructor].
Qed.
End executor.

(** ** Properties *)

Section props.
Context `{HC : Credentials} `{HW : Wire} `{HR : Regex} {HL : Lowercase}.
Context (guarded : bool) (vars : list (text * text)) (policy : RetryPolicy) (random : nat -> N -> N).

Lemma retries_spec p prompt agent r res replies slept r' :
  execute_with_retry guarded vars policy random p prompt agent r = Done (res, replies, slept, r') ->
  calls guarded vars p prompt r replies r' /\ length replies <= S (max_retries policy) /\ Forall worth_retrying (removelast replies)
  /\ ends_with policy agent prompt replies res /\ length slept = length replies - 1.
Proof. apply retry_from_exact; [constructor|constructor|done|lia|done]. Qed.

(** The retries end after at most [max_retries] more calls of the same provider
    with the same prompt, each after a delay; every call but the last failed with
    an error that is worth a retry, and the last decides the result: a response
    is returned as it came, another error is given up at once, and a retryable
    one is reported only when no retry is left. *)
Theorem retries_exact p prompt agent r res replies slept r' :
  execute_with_retry guarded vars policy random p prompt agent r = Done (res, replies, slept, r') ->
  calls guarded vars p prompt r replies r' /\ length replies <= S (max_retries policy) /\ Forall worth_retrying (removelast replies)
  /\ ends_with policy agent prompt replies res /\ length slept = length replies - 1.
Proof. apply retries_spec. Qed.

(** Within the range of the counters a delay is the capped exponential, with up
    to half of it on top when there is jitter: so it may exceed [max_delay_ms],
    and it panics when the capped delay is less than two milliseconds. *)
Theorem delay_exact (draws : N -> N) attempt :
  let m := N.min (base_delay_ms policy * 2 ^ N.of_nat attempt) (max_delay_ms policy) in
  (2 ^ N.of_nat attempt <= U64_MAX)%N -> (base_delay_ms policy * 2 ^ N.of_nat attempt <= U64_MAX)%N ->
  (max_delay_ms policy <= 2 ^ 63)%N ->
  match delay_ms policy draws attempt with
  | Done d => (m <= d)%N /\ (if jitter policy then d < m + m / 2 else d = m)%N
  | Panic => jitter policy = true /\ (m < 2)%N
  | OutOfFuel => False
  end.
Proof.
  cbv zeta. intros H1 H2 H3. unfold delay_ms.
  rewrite (proj2 (N.ltb_ge _ _) H1), (proj2 (N.ltb_ge _ _) H2). cbn [orb].
  assert (N.min (base_delay_ms policy * 2 ^ N.of_nat attempt) (max_delay_ms policy) <= 2 ^ 63)%N as Hm by (etrans; [apply N.le_min_r|done]).
  revert Hm. generalize (N.min (base_delay_ms policy * 2 ^ N.of_nat attempt) (max_delay_ms policy)). intros m Hm. clear H1 H2 H3.
  destruct (jitter policy); [|lia]. unfold draw. destruct (N.eqb_spec (m / 2) 0) as [E|E]; cbn [obind].
  - split; [done|]. apply N.div_small_iff in E; lia.
  - pose proof (N.mod_upper_bound (draws (m / 2)%N) (m / 2) E). assert (2 * (m / 2) <= m)%N by (apply N.Div0.mul_div_le).
    set (x := (draws (m / 2)%N mod (m / 2))%N) in *. clearbody x. set (h := (m / 2)%N) in *. clearbody h.
    destruct (N.ltb_spec U64_MAX (m + x)); [unfold U64_MAX in *; change (2 ^ 63)%N with 9223372036854775808%N in *; lia|lia].
Qed.

(** *** What leaves the process *)

Lemma provider_instance_egress name r : egress (provider_instance name r).2 = egress r.
Proof.
  unfold provider_instance. destruct (cache r !! name); [done|]. destruct (providers (config r) !! name) as [cfg|]; [|done].
  by destruct (create_provider_instance_with_key cfg _).
Qed.
Lemma available_egress r : egress (is_local_llm_available r).2 = egress r.
Proof.
  unfold is_local_llm_available. pose proof (provider_instance_egress "ollama" r) as E.
  by destruct (provider_instance "ollama" r) as [[[]|] r1].
Qed.
Lemma enforce_egress p s r : egress (enforce_sensitivity p s r).2 = egress r /\ config (enforce_sensitivity p s r).2 = config r.
Proof.
  assert (forall r1, egress r1 = egress r -> config r1 = config r ->
    let o := (let '(up, r2) := is_local_llm_available r1 in
      match (if up then resolve_provider (config r) NotionExtraction else None) with
      | Some local => if is_local (config r) local then (Ok local, r2) else (Err (unavailable_error p s), r2)
      | None => (Err (unavailable_error p s), r2)
      end) in egress o.2 = egress r /\ config o.2 = config r) as K.
  { intros r1 E C. pose proof (available_egress r1). pose proof (available_config r1).
    destruct (is_local_llm_available r1) as [up r2]; cbn [snd] in *.
    destruct (if up then _ else _) as [l|]; [destruct (is_local (config r) l)|]; cbn; split; congruence. }
  unfold enforce_sensitivity. destruct s; [done|..]; (destruct (is_local (config r) p); [|by apply K]);
    pose proof (available_egress r); pose proof (available_config r);
    destruct (is_local_llm_available r) as [[] r1]; cbn [snd] in *; try done; by apply K.
Qed.
Lemma route_egress s r : egress (route s r).2 = egress r /\ config (route s r).2 = config r.
Proof. unfold route. destruct (resolve_provider _ _); [apply enforce_egress|done]. Qed.
Lemma preferences_egress s prefs r :
  egress (route_with_preferences s prefs r).2 = egress r /\ config (route_with_preferences s prefs r).2 = config r.
Proof.
  revert r. induction prefs as [|pref prefs IH]; intros r; cbn [route_with_preferences]; [apply route_egress|].
  destruct pref as [| | |name]; [apply IH| | |apply enforce_egress].
  - pose proof (available_egress r). pose proof (available_config r). destruct (is_local_llm_available r) as [[] r1]; cbn [snd] in *; [done|].
    destruct (IH r1). split; congruence.
  - destruct (default_provider _); [|apply IH]. destruct (is_local _ _); [apply IH|apply enforce_egress].
Qed.

Lemma call_egress p prompt r : exists l, egress (call guarded vars p prompt r).2 = egress r ++ l
  /\ Forall (fun x => x.1 = provider_str p) l.
Proof.
  unfold call. destruct (secrets_guard_redact _ _ _ _ _) as [g m].
  destruct (String.eqb _ _); [exists [(provider_str p, g)]; split; [done|by repeat constructor]|].
  pose proof (provider_instance_egress (provider_str p) r) as E. destruct (provider_instance _ r) as [[inst|] r1]; cbn [snd] in E.
  - exists [(provider_str p, g)]. destruct (complete _ _ _); cbn; rewrite E; split; try done; by repeat constructor.
  - exists []. rewrite app_nil_r. by split; [|constructor].
Qed.
Lemma calls_egress p prompt r l r' : calls guarded vars p prompt r l r' -> exists k, egress r' = egress r ++ k
  /\ Forall (fun x => x.1 = provider_str p) k.
Proof.
  induction 1 as [r|r l r1 _ (k & E & F)]; [exists []; rewrite app_nil_r; by split; [|constructor]|].
  destruct (call_egress p prompt r1) as (k2 & E2 & F2). exists (k ++ k2). rewrite E2, E, app_assoc. split; [done|]. by apply Forall_app.
Qed.

Lemma resolve_route_local s prefs agent r p r1 : no_localhost_ollama (config r) -> s <> Public ->
  resolve_route s prefs agent r = (Ok p, r1) -> p = Ollama /\ egress r1 = egress r.
Proof.
  intros Hn Hs. unfold resolve_route. destruct (preferences_egress s prefs r) as [E C].
  destruct (route_with_preferences s prefs r) as [[q|e] r2] eqn:R; cbn [snd] in *.
  - intros [= -> ->]. split; [|done]. apply route_local in R as [|L]; [done| |done]. by eapply is_local_ollama.
  - destruct (route_egress s r2) as [E2 C2]. destruct (route s r2) as [[q|f] r3] eqn:R2; cbn [snd] in *; [|done].
    intros [= -> ->]. split; [|congruence]. apply (route_local s [] r2 p r1 Hs) in R2 as [|L]; [done|].
    rewrite C in L. by eapply is_local_ollama.
Qed.

(** C8. When no Ollama is configured at a localhost address, a round of a private or
    confidential session sends its prompt, in whatever number of attempts and by
    whatever fallback, to the provider Ollama only, at whatever address it has.  With
    one at a localhost address every provider counts as local and the prompt may go
    to any. *)
Theorem private_round_stays_local s prefs agent system_prompt query manifest results r res r' :
  no_localhost_ollama (config r) -> s <> Public ->
  execute_round guarded vars policy random s prefs agent system_prompt query manifest results r = Done (res, r') ->
  exists l, egress r' = egress r ++ l /\ Forall (fun x => x.1 = "ollama"%string) l.
Proof.
  intros Hn Hs. unfold execute_round. destruct (resolve_route s prefs agent r) as [[p|e] r1] eqn:R.
  - apply resolve_route_local in R as [-> E]; [|done|done].
    destruct (build_prompt_with_identity _ _ _ _) as [prompt| |]; cbn [obind]; [|done|done].
    destruct (execute_with_retry _ _ _ _ _ _ _ _) as [[[[out replies] slept] r2]| |] eqn:X; cbn [obind]; [|done|done].
    intros [= _ <-]. apply retries_spec in X as [X _].
    apply calls_egress in X as (l & El & Fl). exists l. by rewrite El, E.
  - intros [= _ <-]. exists []. rewrite app_nil_r. split; [|constructor].
    unfold resolve_route in R. destruct (preferences_egress s prefs r) as [E C].
    destruct (route_with_preferences s prefs r) as [[q|e1] r2]; cbn [snd] in *; [done|].
    destruct (route_egress s r2) as [E2 C2]. destruct (route s r2) as [[q|f] r3]; [done|]. injection R as <- <-. cbn [snd] in *. congruence.
Qed.
End props.

(** ** Witnesses *)

(** A client error whose text has another number in it is retried, and so are the
    codes that the table of statuses has and the table of messages has not. *)
Example misclassified :
  from_error_message (utf8 "401 Unauthorized, request 85002") = Transient
  /\ from_status_code 404 = ClientError /\ from_error_message (utf8 "404 Not Found") = Unknown.
Proof. by vm_compute. Qed.

(** With the default policy the third delay may be half again the cap on delays. *)
Example over_the_cap : delay_ms {| max_retries := 9; base_delay_ms := 500; max_delay_ms := 10000; jitter := true |} (fun _ => 4999%N) 8
  = Done 14999%N.
Proof. by vm_compute. Qed.

Definition failing_wire : Wire := {| health_check _ _ := true; complete _ _ _ := Err (Call "timeout") |}.
#[local] Existing Instance demo_credentials.
#[local] Existing Instance demo_engine.

Definition failed_run : outcome (result (text * N) ExecError * list (result text LlmError) * list N * router) :=
  execute_with_retry (HW := failing_wire) true [] default_policy (fun _ _ => 7%N) OpenAI (utf8 "hi") "agent"
    (demo_router "http://10.0.0.7:11434").
Definition failed_state : router := match failed_run with Done (_, _, _, r) => r | _ => demo_router "" end.
Definition timed_out : result text LlmError := Err (Call "timeout").

Lemma retries_exact_witness :
  calls (HW := failing_wire) true [] OpenAI (utf8 "hi") (demo_router "http://10.0.0.7:11434") (repeat timed_out 4) failed_state
  /\ length (repeat timed_out 4) <= 4 /\ Forall worth_retrying (removelast (repeat timed_out 4))
  /\ ends_with default_policy "agent" (utf8 "hi") (repeat timed_out 4) (Err (Exhausted "agent" 3 (Some (Call "timeout"))))
  /\ length [507; 1007; 2007]%N = 3.
Proof.
  apply (retries_exact (HW := failing_wire) true [] default_policy (fun _ _ => 7%N) OpenAI (utf8 "hi") "agent"
    (demo_router "http://10.0.0.7:11434") (Err (Exhausted "agent" 3 (Some (Call "timeout")))) (repeat timed_out 4) [507; 1007; 2007]%N
    failed_state).
  vm_compute. reflexivity.
Defined.

Lemma delay_exact_witness :
  delay_ms default_policy (fun _ => 7%N) 2 = Done 2007%N /\ (2000 <= 2007)%N /\ (2007 < 2000 + 1000)%N.
Proof.
  split; [reflexivity|]. pose proof (delay_exact default_policy (fun _ => 7%N) 2) as H.
  change (delay_ms default_policy (fun _ => 7%N) 2) with (Done 2007%N : outcome N) in H.
  exact (H ltac:(vm_compute; discriminate) ltac:(vm_compute; discriminate) ltac:(vm_compute; discriminate)).
Defined.

Definition private_round : outcome (result RoundResult ExecError * router) :=
  execute_round (HW := demo_wire) true [] default_policy (fun _ _ => 7%N) Private [CloudOnly] "agent" (utf8 "You are.")
    (utf8 "hello") [] [] (demo_router "http://10.0.0.7:11434").
Definition private_result : result RoundResult ExecError := match private_round with Done (x, _) => x | _ => Err (CallFailed (Call "")) end.
Definition private_state : router := match private_round with Done (_, r) => r | _ => demo_router "" end.

Lemma private_round_stays_local_witness : exists l, egress private_state = l /\ Forall (fun x => x.1 = "ollama"%string) l /\ l <> [].
Proof.
  destruct (private_round_stays_local (HW := demo_wire) true [] default_policy (fun _ _ => 7%N) Private [CloudOnly] "agent"
    (utf8 "You are.") (utf8 "hello") [] [] (demo_router "http://10.0.0.7:11434") private_result private_state) as (l & E & F).
  - intros bu Hb. vm_compute in Hb. injection Hb as <-. reflexivity.
  - discriminate.
  - vm_compute. reflexivity.
  - exists l. split; [exact E|]. split; [exact F|]. intros ->. vm_compute in E. discriminate E.
Defined.
