(* ===== verification/FileTools.v ===== *)
(** * The tools that read and change files

    Models [crates/zen-plugin/src/tools]: fs_write.rs, fs_edit.rs, fs_delete.rs,
    fs_move.rs, fs_copy.rs and fs_read.rs, and the guard of
    [zen-core/src/tempfile_lifecycle.rs].  The disk is the class [Disk]: any call
    of the operating system may fail.  Each call that changes files is logged.
    The diffy crate is the class [Diffy]. *)

From S2P Require Import Prelude Json Text Sandbox.
From Stdlib Require Import Lia.
Local Open Scope list_scope.

(** ** The disk *)

(** The calls that change files. *)
Inductive op :=
  | CreateDirAll (p : path)
  | WriteFile (p : path) (content : text)        (* fs::write: create or truncate, then write *)
  | CreateFile (p : path)                        (* File::create *)
  | WriteAll (p : path) (content : text)         (* write_all on the file created at p *)
  | SyncAll (p : path)
  | CopyFile (src dst : path)
  | Rename (src dst : path)
  | RemoveFile (p : path)
  | RemoveDir (p : path)
  | RemoveDirAll (p : path).

(** What they are applied to. *)
Definition targets (o : op) : list path :=
  match o with
  | CreateDirAll p | WriteFile p _ | CreateFile p | WriteAll p _ | SyncAll p | RemoveFile p | RemoveDir p | RemoveDirAll p => [p]
  | CopyFile _ dst => [dst]
  | Rename src dst => [src; dst]
  end.

Class Disk (D : Type) := {
  view : D -> FileSystem;                          (* what the validator sees *)
  read_to_string : path -> D -> result text text;
  read_bytes : path -> D -> result (list N) (string * text);  (* or what failed: read, open, seek *)
  metadata_is_dir : path -> D -> result bool text; (* follows links *)
  symlink_is_dir : path -> D -> result bool text;  (* does not *)
  read_dir : path -> D -> result (list text) text; (* the names, in the order they come *)
  act : op -> D -> result N text * D;              (* bytes, for a copy *)
}.

Class Diffy := {
  patch : Type;
  patch_from_str : text -> result patch text;
  patch_apply : text -> patch -> result text text;
  hunks : patch -> nat;
}.

(** ** Names beside a path *)

(** [file_stem] and [extension] of a file name. *)
Fixpoint last_dot (n : text) (i : nat) (found : option nat) : option nat :=
  match n with [] => found | c :: rest => last_dot rest (S i) (if (c =? 46)%N then Some i else found) end.
Definition split_name (n : text) : text * option text :=
  match last_dot n 0 None with
  | Some (S i) => (take (S i) n, Some (drop (S (S i)) n))
  | _ => (n, None)
  end.
Definition extension (p : path) : option text := n ← file_name p; (split_name n).2.
Definition with_extension (p : path) (ext : text) : path :=
  match file_name p with
  | Some n => removelast p ++ [Normal ((split_name n).1 ++ 46%N :: ext)]
  | None => p
  end.

(** [with_extension(format!("{}.tmp", ...))] and the like. *)
Definition sibling (p : path) (absent marker : string) : path :=
  with_extension p (default (utf8 absent) (extension p) ++ utf8 marker).

(** [to_string_lossy], of the components. *)
Fixpoint path_text (p : path) : text :=
  match p with
  | [] => []
  | [c] => name_of c
  | RootDir :: rest => utf8 "/" ++ path_text rest
  | c :: rest => name_of c ++ utf8 "/" ++ path_text rest
  end.

(** ** Calls *)

Section tools.
Context {V : Type} {HJson : Json V} {D : Type} {HDisk : Disk D}.

Record world := { disk : D; done_ops : list op }.

Definition perform (o : op) (w : world) : result N text * world :=
  let '(r, d) := act o (disk w) in (r, {| disk := d; done_ops := done_ops w ++ [o] |}).

Inductive file_error := Denied (r : refusal) | InvalidArg (msg : text) | Failed (msg : text).
Abbreviation answer := (result V file_error).

(** [Ok(json!({ "error": msg }))]. *)
Definition error_json (msg : text) : answer := Ok (j_obj [("error", j_str (to_string msg))]%string).
Definition missing (field : string) : answer := error_json (utf8 ("Missing or invalid '" ++ field ++ "' field")).

Definition str_arg (args : V) (k : string) : option string := j_get args k ≫= j_as_str.
Definition bool_arg (args : V) (k : string) (d : bool) : bool := default d (j_get args k ≫= j_as_bool).

Context (v : SandboxValidator).

Definition resolved (s : string) (w : world) : path := @resolve_agent_path (view (disk w)) (utf8 s).
Definition check_write (p : path) (w : world) : result unit refusal := @validate_path_for_write (view (disk w)) v p.
Definition check_read (p : path) (w : world) : result unit refusal := @validate_path_for_read (view (disk w)) v p.
Definition exists_at (p : path) (w : world) : bool := @path_exists (view (disk w)) p.

(** Parents are made when there is one. *)
Definition make_parents (p : path) (w : world) : result N text * world :=
  match parent p with Some d => perform (CreateDirAll d) w | None => (Ok 0%N, w) end.

(** ** fs.write *)

Definition is_vault (p : path) : bool := is_zen_path p || contains (path_text p) (utf8 "vault/").

(** The write of a vault file: a temporary file beside it, renamed over it. *)
Definition vault_write (p : path) (content : text) (w : world) : result N text * world :=
  let '(r, w1) := make_parents p w in
  match r with
  | Err e => (Err e, w1)
  | Ok _ =>
    let tmp := sibling p "tmp" ".tmp" in
    let '(r, w2) := perform (WriteFile tmp content) w1 in
    match r with Err e => (Err e, w2) | Ok _ => perform (Rename tmp p) w2 end
  end.

Definition fs_write (args : V) (w : world) : answer * world :=
  match str_arg args "path" with
  | None => (missing "path", w)
  | Some path_str =>
    match str_arg args "content" with
    | None => (missing "content", w)
    | Some content =>
      let p := resolved path_str w in
      let existed := exists_at p w in
      match check_write p w with
      | Err r => (Err (Denied r), w)
      | Ok _ =>
        let '(made, w1) := if bool_arg args "create_dirs" true then make_parents p w else (Ok 0%N, w) in
        match made with
        | Err e => (error_json (utf8 "Failed to create dirs: " ++ e), w1)
        | Ok _ =>
          let '(r, w2) := if is_vault p then vault_write p (utf8 content) w1 else perform (WriteFile p (utf8 content)) w1 in
          match r with
          | Err e => (error_json (utf8 ("Failed to write " ++ path_str ++ ": ") ++ e), w2)
          | Ok _ =>
            (Ok (j_obj [("path", j_str path_str); ("bytes_written", j_int (Z.of_nat (str_len (utf8 content))));
                        ("created", j_bool (negb existed))]%string), w2)
          end
        end
      end
    end
  end.

(** ** fs.edit *)

Context {HDiffy : Diffy}.

(** [apply_diff]. *)
Definition apply_diff (original diff : text) : result (text * nat) text :=
  match patch_from_str diff with
  | Err e => Err (utf8 "invalid unified diff: " ++ e)
  | Ok pt =>
    match patch_apply original pt with
    | Err e => Err (utf8 "patch application failed: " ++ e)
    | Ok applied => Ok (applied, hunks pt)
    end
  end.

(** The text after the edit and the number of replacements, or the error. *)
Definition edited (args : V) (path_str : string) (original : text) : result (text * nat) text :=
  match j_get args "diff" with
  | Some diff =>
    match j_as_str diff with
    | None => Err (utf8 "'diff' must be a string")
    | Some s =>
      match apply_diff original (utf8 s) with
      | Ok applied => Ok applied
      | Err e => Err (utf8 ("Failed to apply diff to " ++ path_str ++ ": ") ++ e)
      end
    end
  | None =>
    match str_arg args "old_text" with
    | None => Err (utf8 "Missing or invalid 'old_text' field")
    | Some old =>
      match str_arg args "new_text" with
      | None => Err (utf8 "Missing or invalid 'new_text' field")
      | Some new =>
        let all := bool_arg args "replace_all" false in
        let count := matches original (utf8 old) in
        if (count =? 0)%nat then Err (utf8 ("old_text not found in " ++ path_str))
        else if (1 <? count)%nat && negb all
        then Err (utf8 ("old_text appears " ++ pretty count ++ " times in " ++ path_str ++ " (use replace_all=true)"))
        else if all then Ok (replace original (utf8 old) (utf8 new), count)
        else Ok (replace_first original (utf8 old) (utf8 new), 1%nat)
      end
    end
  end.

(** The temporary file written, synced and renamed into place. *)
Definition install (tmp p : path) (modified : text) (w : world) : result N text * world :=
  let step (msg : string) (o : op) (k : world -> result N text * world) (w : world) :=
    let '(r, w1) := perform o w in match r with Err e => (Err (utf8 msg ++ e), w1) | Ok _ => k w1 end in
  step "Failed to create temp file: " (CreateFile tmp)
    (step "Failed to write temp file: " (WriteAll tmp modified)
      (step "Failed to sync temp file: " (SyncAll tmp)
        (step "Failed to atomically replace file: " (Rename tmp p) (fun w => (Ok 0%N, w))))) w.

(** A guard dropped while armed: failures are ignored. *)
Definition drop_guard (p : path) (w : world) : world := (perform (RemoveFile p) w).2.

Definition backup_of (p : path) : path := sibling p "tmp" ".bak".
Definition temp_of (p : path) : path := sibling p "edit" ".tmp".

(** From the backup on; what is not disarmed is dropped, the temporary file first. *)
Definition replace_file (p : path) (modified : text) (w : world) : result N text * world :=
  let '(r, w1) := perform (CopyFile p (backup_of p)) w in
  match r with
  | Err e => (Err (utf8 "Failed to create backup: " ++ e), drop_guard (backup_of p) w1)
  | Ok _ =>
    let '(r, w2) := install (temp_of p) p modified w1 in
    match r with
    | Err e => (Err e, drop_guard (backup_of p) (drop_guard (temp_of p) w2))
    | Ok _ => (Ok 0%N, w2)
    end
  end.

Definition fs_edit (args : V) (w : world) : answer * world :=
  match str_arg args "path" with
  | None => (missing "path", w)
  | Some path_str =>
    let p := resolved path_str w in
    match check_write p w with
    | Err r => (Err (Denied r), w)
    | Ok _ =>
      match read_to_string p (disk w) with
      | Err e => (error_json (utf8 ("Failed to read " ++ path_str ++ ": ") ++ e), w)
      | Ok original =>
        match edited args path_str original with
        | Err e => (error_json e, w)
        | Ok (modified, replacements) =>
          let '(r, w1) := replace_file p modified w in
          match r with
          | Err e => (error_json e, w1)
          | Ok _ =>
            (Ok (j_obj [("path", j_str path_str); ("replacements", j_int (Z.of_nat replacements));
                        ("backup_path", j_str (to_string (path_text (backup_of p))))]%string), w1)
          end
        end
      end
    end
  end.

(** ** fs.delete *)

Definition is_protected_name (n : text) : bool :=
  bool_decide (n ∈ map utf8 [".git"; ".zen"; ".ssh"; ".aws"; ".gnupg"]%string) || ends_with n (utf8 ".env").

Definition is_root (root p : path) (w : world) : bool :=
  bool_decide (p = root)
  || match @canonicalize (view (disk w)) p, @canonicalize (view (disk w)) root with
     | Some c, Some r => bool_decide (c = r)
     | _, _ => false
     end.

(** The entries of a directory that are not protected, one by one. *)
Fixpoint clear_entries (p : path) (names : list text) (w : world) : result unit text * world :=
  match names with
  | [] => (Ok tt, w)
  | n :: rest =>
    if is_protected_name n then clear_entries p rest w
    else
      let e := p ++ [Normal n] in
      match symlink_is_dir e (disk w) with
      | Err m => (Err (utf8 "Failed to stat entry: " ++ m), w)
      | Ok dir =>
        let '(r, w1) := perform (if dir then RemoveDirAll e else RemoveFile e) w in
        match r with
        | Err m => (Err (utf8 (if dir then "Failed to remove dir: " else "Failed to delete file: ") ++ m), w1)
        | Ok _ => clear_entries p rest w1
        end
      end
  end.

Definition deleted (path_str : string) (was_dir : bool) : answer :=
  Ok (j_obj [("path", j_str path_str); ("deleted", j_bool true); ("was_dir", j_bool was_dir)]%string).

Definition delete_at (path_str : string) (recursive clear : bool) (p : path) (w : world) : answer * world :=
  match metadata_is_dir p (disk w) with
  | Err e => (Err (Failed (utf8 ("Failed to stat " ++ path_str ++ ": ") ++ e)), w)
  | Ok was_dir =>
    if clear then
      if negb was_dir then (Err (InvalidArg (utf8 "clear_contents applies only to directories")), w)
      else
        match read_dir p (disk w) with
        | Err e => (Err (Failed (utf8 "Failed to read dir: " ++ e)), w)
        | Ok names =>
          match clear_entries p names w with
          | (Err e, w1) => (Err (Failed e), w1)
          | (Ok _, w1) => (deleted path_str true, w1)
          end
        end
    else
      let remove :=
        let o := if was_dir then if recursive then RemoveDirAll p else RemoveDir p else RemoveFile p in
        let '(r, w1) := perform o w in
        match r with
        | Err e => (Err (Failed (utf8 (if was_dir then "Failed to remove dir: " else "Failed to delete file: ") ++ e)), w1)
        | Ok _ => (deleted path_str was_dir, w1)
        end in
      if was_dir && negb recursive then
        match read_dir p (disk w) with
        | Err e => (Err (Failed (utf8 "Failed to read dir: " ++ e)), w)
        | Ok [] => remove
        | Ok (_ :: _) => (Err (InvalidArg (utf8 ("Directory " ++ path_str ++ " is not empty (use recursive=true to force)"))), w)
        end
      else remove
  end.

Definition fs_delete (root : option path) (args : V) (w : world) : answer * world :=
  match str_arg args "path" with
  | None => (Err (InvalidArg (utf8 "Missing or invalid 'path' field")), w)
  | Some path_str =>
    let p := resolved path_str w in
    match check_write p w with
    | Err r => (Err (Denied r), w)
    | Ok _ =>
      if match root with Some r => is_root r p w | None => false end
      then (error_json (utf8 "cannot delete workspace root"), w)
      else delete_at path_str (bool_arg args "recursive" false) (bool_arg args "clear_contents" false) p w
    end
  end.

(** ** fs.move, fs.copy *)

Definition fs_move (args : V) (w : world) : answer * world :=
  match str_arg args "source" with
  | None => (missing "source", w)
  | Some source =>
    match str_arg args "destination" with
    | None => (missing "destination", w)
    | Some destination =>
      let s := resolved source w in
      let d := resolved destination w in
      match check_read s w, check_write s w, check_write d w with
      | Err r, _, _ | Ok _, Err r, _ | Ok _, Ok _, Err r => (Err (Denied r), w)
      | Ok _, Ok _, Ok _ =>
        let '(made, w1) := make_parents d w in
        match made with
        | Err e => (error_json (utf8 "Failed to create parent dir: " ++ e), w1)
        | Ok _ =>
          let '(r, w2) := perform (Rename s d) w1 in
          match r with
          | Err e => (error_json (utf8 "Failed to move: " ++ e), w2)
          | Ok _ => (Ok (j_obj [("source", j_str source); ("destination", j_str destination); ("moved", j_bool true)]%string), w2)
          end
        end
      end
    end
  end.

Definition fs_copy (args : V) (w : world) : answer * world :=
  match str_arg args "source" with
  | None => (missing "source", w)
  | Some source =>
    match str_arg args "destination" with
    | None => (missing "destination", w)
    | Some destination =>
      let s := resolved source w in
      let d := resolved destination w in
      match check_read s w, check_write d w with
      | Err r, _ | Ok _, Err r => (Err (Denied r), w)
      | Ok _, Ok _ =>
        if exists_at d w && negb (bool_arg args "overwrite" false)
        then (error_json (utf8 ("Destination " ++ destination ++ " already exists (use overwrite=true)")), w)
        else
          let '(made, w1) := make_parents d w in
          match made with
          | Err e => (error_json (utf8 "Failed to create parent dir: " ++ e), w1)
          | Ok _ =>
            let '(r, w2) := perform (CopyFile s d) w1 in
            match r with
            | Err e => (error_json (utf8 "Failed to copy: " ++ e), w2)
            | Ok bytes => (Ok (j_obj [("source", j_str source); ("destination", j_str destination); ("copied", j_bool true);
                                      ("bytes_copied", j_int (Z.of_N bytes))]%string), w2)
            end
          end
      end
    end
  end.

(** ** fs.read *)

(** Lossy decoding and the base64 crate. *)
Context (from_utf8_lossy : list N -> text) (encode64 : list N -> text).

Definition DEFAULT_LIMIT : Z := 2000.
Definition DEFAULT_MAX_BYTES : Z := 1048576.
Definition usize (z : Z) : N := Z.to_N (z mod 2 ^ 64)%Z.
Definition int_arg (args : V) (k : string) : option Z := j_get args k ≫= j_as_i64.
Definition positive (z : option Z) : option Z := match z with Some n => if (0 <? n)%Z then Some n else None | None => None end.

Definition prefixed (data bom : list N) : bool := bool_decide (bom `prefix_of` data).
Definition detect_bom (data : list N) : option string :=
  if prefixed data [239; 187; 191]%N then Some "utf-8"%string
  else if prefixed data [255; 254]%N then Some "utf-16le"%string
  else if prefixed data [254; 255]%N then Some "utf-16be"%string
  else None.
Definition is_binary (data : list N) : bool :=
  match detect_bom data with
  | Some b => String.eqb b "utf-16le" || String.eqb b "utf-16be" || existsb (N.eqb 0) data
  | None => existsb (N.eqb 0) data
  end.
Definition strip_utf8_bom (t : text) : text := default t (strip_prefix t [0xFEFF%N]).

(** A buffer of more than [isize::MAX] bytes panics. *)
Definition alloc (n : N) : outcome unit := if (2 ^ 63 <=? n)%N then Panic else Done tt.

(** The part of the file that is read, and whether it is known to be cut. *)
Definition read_part (byte_mode : bool) (offset_bytes : N) (len : option N) (max_bytes : N) (file : list N)
    : outcome (list N * bool) :=
  let size := N.of_nat (length file) in
  if byte_mode then
    let start := N.min offset_bytes size in
    let want := match len with Some l => N.min l max_bytes | None => max_bytes end in
    let to_read := N.min want (size - start)%N in
    Done (take (N.to_nat to_read) (drop (N.to_nat start) file), (max_bytes <? size)%N)
  else
    let cap := N.min (max_bytes + 1) (2 ^ 64 - 1)%N in
    let! _ := alloc cap in
    let buf := take (N.to_nat cap) file in
    Done (take (N.to_nat (N.min (N.of_nat (length buf)) max_bytes)) buf, (max_bytes <? N.of_nat (length buf))%N).

(** The lines of the window, whether lines follow it; the sum may leave its width. *)
Definition window (offset limit : N) (ls : list text) : outcome (list text * bool) :=
  let total := N.of_nat (length ls) in
  let start := N.min (offset - 1)%N total in
  if (2 ^ 64 <=? start + limit)%N then Panic
  else
    let stop := N.min (start + limit) total in
    Done (take (N.to_nat (stop - start)) (drop (N.to_nat start) ls), (stop <? total)%N).

Record ReadAnswer := {
  ra_content : text; lines_read : nat; total_lines : nat; ra_truncated : bool; ra_binary : bool; bytes_read : nat;
}.
Definition read_json (path_str : string) (base64 : bool) (a : ReadAnswer) : V :=
  j_obj ([("path", j_str path_str); ("content", j_str (to_string (ra_content a)));
          ("lines_read", j_int (Z.of_nat (lines_read a))); ("total_lines", j_int (Z.of_nat (total_lines a)));
          ("truncated", j_bool (ra_truncated a)); ("is_binary", j_bool (ra_binary a))]%string
         ++ (if base64 && ra_binary a then [("binary"%string, j_bool true)] else [])
         ++ [("bytes_read"%string, j_int (Z.of_nat (bytes_read a)))]).

(** The content of a file, for the arguments. *)
Definition read_file (args : V) (base64 : bool) (file : list N) : outcome ReadAnswer :=
  let offset := usize (default 1%Z (int_arg args "offset")) in
  let limit := usize (default DEFAULT_LIMIT (int_arg args "limit")) in
  let offset_bytes := usize (Z.max (default 0%Z (int_arg args "offset_bytes")) 0) in
  let len := usize <$> positive (int_arg args "length") in
  let max_bytes := usize (default DEFAULT_MAX_BYTES (positive (int_arg args "max_bytes"))) in
  let byte_mode := bool_decide (is_Some (j_get args "offset_bytes")) || bool_decide (is_Some (j_get args "length")) in
  let! part := read_part byte_mode offset_bytes len max_bytes file in
  let '(bytes, cut) := part in
  let n := length bytes in
  let truncated := cut || byte_mode && (offset_bytes + N.of_nat n <? N.of_nat (length file))%N in
  if is_binary bytes then
    Done {| ra_content := if base64 then encode64 bytes else []; lines_read := 0; total_lines := 0;
            ra_truncated := truncated; ra_binary := true; bytes_read := n |}
  else
    let t := strip_utf8_bom (from_utf8_lossy bytes) in
    let ls := lines t in
    if byte_mode then
      Done {| ra_content := t; lines_read := length ls; total_lines := length ls; ra_truncated := truncated;
              ra_binary := false; bytes_read := n |}
    else
      let! selected := window offset limit ls in
      Done {| ra_content := join_lines selected.1; lines_read := length selected.1; total_lines := length ls;
              ra_truncated := truncated || selected.2; ra_binary := false; bytes_read := n |}.

Definition fs_read (args : V) (w : world) : outcome answer :=
  match str_arg args "path" with
  | None => Done (missing "path")
  | Some path_str =>
    let base64 := bool_decide (map ascii_lower (utf8 (default "utf8"%string (str_arg args "encoding"))) = utf8 "base64") in
    let p := resolved path_str w in
    match check_read p w with
    | Err r => Done (Err (Denied r))
    | Ok _ =>
      match read_bytes p (disk w) with
      | Err (verb, e) => Done (error_json (utf8 ("Failed to " ++ verb ++ " " ++ path_str ++ ": ") ++ e))
      | Ok file => let! a := read_file args base64 file in Done (Ok (read_json path_str base64 a))
      end
    end
  end.
End tools.
Arguments world D : clear implicits.
