(* ===== verification/FileToolsProps.v ===== *)
(** * Properties of the file tools

    What a tool may change on the disk, the atomicity of an edit, the window a
    read returns; and the paths that are not checked. *)

From S2P Require Import Prelude Json Text Sandbox SandboxProps FileTools.
From Stdlib Require Import Lia.
Local Open Scope list_scope.

(** ** What a tool changes *)

Section confined.
Context {V : Type} {HJson : Json V} {D : Type} {HDisk : Disk D} {HDiffy : Diffy} (v : SandboxValidator).
Implicit Types (w : world D) (p q : path).

(** A path that was checked for writing in the state [w], the name beside it, the
    directory it is in, or an entry of it. *)
Inductive near w : path -> Prop :=
  | near_checked q : check_write v q w = Ok tt -> near w q
  | near_sibling q ext : check_write v q w = Ok tt -> near w (with_extension q ext)
  | near_parent q d : check_write v q w = Ok tt -> parent q = Some d -> near w d
  | near_entry q n : check_write v q w = Ok tt -> near w (q ++ [Normal n]).

Definition near_op w (o : op) : Prop := Forall (near w) (targets o).

(** From [w1] to [w2] only operations near what was checked in [w]. *)
Definition acts w w1 w2 : Prop := exists ops, done_ops w2 = done_ops w1 ++ ops /\ Forall (near_op w) ops.

Lemma acts_refl w w1 : acts w w1 w1.
Proof. exists []. by rewrite app_nil_r. Qed.
Lemma acts_trans w w1 w2 w3 : acts w w1 w2 -> acts w w2 w3 -> acts w w1 w3.
Proof. intros (a & E1 & Ha) (b & E2 & Hb). exists (a ++ b). rewrite E2, E1, app_assoc. split; [done|]. by apply Forall_app. Qed.
Lemma acts_perform w o w1 : near_op w o -> acts w w1 (perform o w1).2.
Proof. intros H. unfold perform. destruct (act o (disk w1)) as [r d]. exists [o]. by split; [|constructor]. Qed.

(** One operation and then what follows it. *)
Lemma acts_then w o w1 r w2 w3 : perform o w1 = (r, w2) -> near_op w o -> acts w w2 w3 -> acts w w1 w3.
Proof. intros E H. eapply acts_trans. pose proof (acts_perform w o w1 H) as A. by rewrite E in A. Qed.

Lemma near_one w o p : targets o = [p] -> near w p -> near_op w o.
Proof. intros E H. unfold near_op. rewrite E. by constructor. Qed.

Hint Resolve acts_refl : core.

Section one.
Context w p (Hp : check_write v p w = Ok tt).

Lemma parents_act w1 r w2 : make_parents p w1 = (r, w2) -> acts w w1 w2.
Proof.
  unfold make_parents. destruct (parent p) as [d|] eqn:P; [|by intros [= <- <-]].
  intros E. eapply acts_then; [exact E| |done]. eapply near_one; [done|]. by eapply near_parent.
Qed.

Lemma vault_acts c w1 r w2 : vault_write p c w1 = (r, w2) -> acts w w1 w2.
Proof.
  unfold vault_write. destruct (make_parents p w1) as [[n|e] w3] eqn:M; [|by intros [= <- <-]; eapply parents_act].
  destruct (perform (WriteFile _ c) w3) as [[m|e] w4] eqn:P1; intros E.
  - eapply acts_trans; [by eapply parents_act|]. eapply acts_then; [exact P1|eapply near_one; [done|]; by apply near_sibling|].
    eapply acts_then; [exact E| |done]. constructor; [by apply near_sibling|]. constructor; [by apply near_checked|constructor].
  - injection E as <- <-. eapply acts_trans; [by eapply parents_act|].
    eapply acts_then; [exact P1|eapply near_one; [done|]; by apply near_sibling|done].
Qed.

Lemma sibling_op (a m : string) o : targets o = [sibling p a m] -> near_op w o.
Proof. intros E. eapply near_one; [exact E|]. by apply near_sibling. Qed.

Lemma guard_acts a m w1 : acts w w1 (drop_guard (sibling p a m) w1).
Proof. apply acts_perform. by eapply sibling_op. Qed.

Lemma install_acts c w1 r w2 : install (temp_of p) p c w1 = (r, w2) -> acts w w1 w2.
Proof.
  unfold install, temp_of. destruct (perform (CreateFile _) w1) as [[?|?] wa] eqn:P1; intros E;
    (eapply acts_then; [exact P1|by eapply sibling_op|]); [|by injection E as <- <-].
  destruct (perform (WriteAll _ c) wa) as [[?|?] wb] eqn:P2; (eapply acts_then; [exact P2|by eapply sibling_op|]); [|by injection E as <- <-].
  destruct (perform (SyncAll _) wb) as [[?|?] wc] eqn:P3; (eapply acts_then; [exact P3|by eapply sibling_op|]); [|by injection E as <- <-].
  destruct (perform (Rename _ p) wc) as [[?|?] wd] eqn:P4; injection E as <- <-;
    (eapply acts_then; [exact P4| |done]); (constructor; [by apply near_sibling|]); (constructor; [by apply near_checked|constructor]).
Qed.

Lemma replace_acts c w1 r w2 : replace_file p c w1 = (r, w2) -> acts w w1 w2.
Proof.
  unfold replace_file. destruct (perform (CopyFile p (backup_of p)) w1) as [[?|?] wa] eqn:P1; intros E;
    (eapply acts_then; [exact P1|by eapply sibling_op|]); [|injection E as <- <-; apply guard_acts].
  destruct (install (temp_of p) p c wa) as [[?|?] wb] eqn:I; injection E as <- <-; apply install_acts in I; [done|].
  eapply acts_trans; [exact I|]. eapply acts_trans; apply guard_acts.
Qed.

Lemma entries_act names w1 r w2 : clear_entries p names w1 = (r, w2) -> acts w w1 w2.
Proof.
  revert w1. induction names as [|n names IH]; intros w1; cbn [clear_entries]; [by intros [= <- <-]|].
  destruct (is_protected_name n); [apply IH|]. destruct (symlink_is_dir _ _) as [dir|e]; [|by intros [= <- <-]].
  destruct (perform _ w1) as [[?|?] wa] eqn:P; intros E;
    (eapply acts_then; [exact P|destruct dir; (eapply near_one; [done|]; by apply near_entry)|]); [by apply IH|by injection E as <- <-].
Qed.

Lemma delete_acts s rec clear w1 a w2 : delete_at (V := V) s rec clear p w1 = (a, w2) -> acts w w1 w2.
Proof.
  unfold delete_at. destruct (metadata_is_dir p _) as [dir|e]; [|by intros [= <- <-]].
  destruct clear; [destruct (negb dir); [by intros [= <- <-]|]; destruct (read_dir p _); [|by intros [= <- <-]];
    destruct (clear_entries p _ w1) as [[?|?] wa] eqn:C; intros [= <- <-]; by eapply entries_act|].
  assert (forall o, targets o = [p] -> near_op w o) as T by (intros o E; eapply near_one; [exact E|by apply near_checked]).
  cbv zeta. destruct (perform _ w1) as [r wa] eqn:P.
  assert (acts w w1 wa) as A by (eapply acts_then; [exact P|apply T; by destruct dir, rec|done]).
  destruct (dir && negb rec); [destruct (read_dir p _) as [[|]|]; [|by intros [= <- <-]..]|];
    destruct r; by intros [= <- <-].
Qed.
End one.

(** The tools that change files. *)
Definition changing_tool (root : option path) (name : string) : option (V -> world D -> result V file_error * world D) :=
  if String.eqb name "fs.write" then Some (fs_write v)
  else if String.eqb name "fs.edit" then Some (fs_edit v)
  else if String.eqb name "fs.delete" then Some (fs_delete v root)
  else if String.eqb name "fs.move" then Some (fs_move v)
  else if String.eqb name "fs.copy" then Some (fs_copy v)
  else None.

Lemma write_acts args w a w' : fs_write v args w = (a, w') -> acts w w w'.
Proof.
  unfold fs_write. destruct (str_arg args "path") as [s|]; [|by intros [= <- <-]].
  destruct (str_arg args "content") as [c|]; [|by intros [= <- <-]]. cbv zeta.
  destruct (check_write v _ w) as [u|e] eqn:Hp; [|by intros [= <- <-]]. destruct u.
  destruct (if bool_arg args "create_dirs" true then _ else _) as [made w1] eqn:M.
  assert (acts w w w1) as A1.
  { destruct (bool_arg _ _ _); [by eapply parents_act|by injection M as <- <-]. }
  destruct made as [?|e]; [|by intros [= <- <-]].
  destruct (if is_vault _ then _ else _) as [r w2] eqn:R.
  assert (acts w w1 w2) as A2.
  { destruct (is_vault _); [by eapply vault_acts|].
    eapply acts_then; [exact R| |done]. eapply near_one; [done|]. by apply near_checked. }
  intros E. eapply acts_trans; [exact A1|]. by destruct r; injection E as <- <-.
Qed.

Lemma edit_acts args w a w' : fs_edit v args w = (a, w') -> acts w w w'.
Proof.
  unfold fs_edit. destruct (str_arg args "path") as [s|]; [|by intros [= <- <-]]. cbv zeta.
  destruct (check_write v _ w) as [u|e] eqn:Hp; [|by intros [= <- <-]]. destruct u.
  destruct (read_to_string _ _) as [original|e]; [|by intros [= <- <-]].
  destruct (edited args s original) as [[modified n]|e]; [|by intros [= <- <-]].
  destruct (replace_file _ modified w) as [[m|e] w1] eqn:R; intros [= <- <-]; by eapply replace_acts.
Qed.

Lemma delete_tool_acts root args w a w' : fs_delete v root args w = (a, w') -> acts w w w'.
Proof.
  unfold fs_delete. destruct (str_arg args "path") as [s|]; [|by intros [= <- <-]]. cbv zeta.
  destruct (check_write v _ w) as [u|e] eqn:Hp; [|by intros [= <- <-]]. destruct u.
  destruct (match root with Some _ => _ | None => _ end); [by intros [= <- <-]|]. intros E. by eapply delete_acts.
Qed.

Lemma move_acts args w a w' : fs_move v args w = (a, w') -> acts w w w'.
Proof.
  unfold fs_move. destruct (str_arg args "source") as [s|]; [|by intros [= <- <-]].
  destruct (str_arg args "destination") as [d|]; [|by intros [= <- <-]]. cbv zeta.
  destruct (check_read v _ w); [|by intros [= <- <-]]. destruct (check_write v _ w) as [[]|] eqn:Hs; [|by intros [= <- <-]].
  destruct (check_write v (resolved d w) w) as [[]|] eqn:Hd; [|by intros [= <- <-]].
  destruct (make_parents _ w) as [[?|?] w1] eqn:M; [|intros [= <- <-]; by eapply parents_act].
  destruct (perform _ w1) as [r w2] eqn:P. intros E. eapply acts_trans; [by eapply parents_act|].
  eapply acts_then; [exact P| |by destruct r; injection E as <- <-].
  constructor; [by apply near_checked|]. constructor; [by apply near_checked|constructor].
Qed.

Lemma copy_acts args w a w' : fs_copy v args w = (a, w') -> acts w w w'.
Proof.
  unfold fs_copy. destruct (str_arg args "source") as [s|]; [|by intros [= <- <-]].
  destruct (str_arg args "destination") as [d|]; [|by intros [= <- <-]]. cbv zeta.
  destruct (check_read v _ w); [|by intros [= <- <-]]. destruct (check_write v _ w) as [[]|] eqn:Hd; [|by intros [= <- <-]].
  destruct (exists_at _ w && _); [by intros [= <- <-]|].
  destruct (make_parents _ w) as [[?|?] w1] eqn:M; [|intros [= <- <-]; by eapply parents_act].
  destruct (perform _ w1) as [r w2] eqn:P. intros E. eapply acts_trans; [by eapply parents_act|].
  eapply acts_then; [exact P| |by destruct r; injection E as <- <-].
  eapply near_one; [done|]. by apply near_checked.
Qed.

Lemma near_writable w p : near w p -> v_mode v <> ReadOnly.
Proof.
  intros H M. assert (forall q, check_write v q w <> Ok tt) as N.
  { intros q. unfold check_write, validate_path_for_write. by rewrite bool_decide_eq_true_2. }
  destruct H as [q Hq|q ext Hq|q d Hq _|q n Hq]; by apply (N q).
Qed.

(** C18. Whatever a file tool is asked and however the disk behaves, each operation it
    performs is on a path that the validator allowed when the tool started, on
    a name beside such a path, on its parent, or on an entry of it; in read-only
    mode nothing is done. *)
Theorem file_ops_near_checked root name tool args w a w' :
  changing_tool root name = Some tool -> tool args w = (a, w') ->
  (exists ops, done_ops w' = done_ops w ++ ops /\ Forall (fun o => Forall (near w) (targets o)) ops)
  /\ (v_mode v = ReadOnly -> done_ops w' = done_ops w).
Proof.
  unfold changing_tool. intros T E.
  assert (acts w w w') as A.
  { repeat (case_match; [injection T as <-|]); [by eapply write_acts|by eapply edit_acts|by eapply delete_tool_acts|
      by eapply move_acts|by eapply copy_acts|done]. }
  split; [exact A|]. intros M. destruct A as ([|o ops] & -> & F); [by rewrite app_nil_r|].
  apply Forall_cons in F as [F _]. exfalso. unfold near_op in F.
  destruct o; cbn [targets] in F; apply Forall_cons in F as [F _]; by eapply near_writable.
Qed.
End confined.

(** ** An edit is atomic *)

(** What the system promises of paths that never lead to the same file. *)
Class DiskLaws (D : Type) {HDisk : Disk D} (apart : path -> path -> Prop) := {
  act_elsewhere : forall o d q, Forall (fun t => apart t q) (targets o) -> read_to_string q (act o d).2 = read_to_string q d;
  sync_keeps : forall p q d, read_to_string q (act (SyncAll p) d).2 = read_to_string q d;
  rename_moves : forall s t d n d', act (Rename s t) d = (Ok n, d') -> read_to_string t d' = read_to_string s d;
  rename_atomic : forall s t d e d' q, act (Rename s t) d = (Err e, d') -> read_to_string q d' = read_to_string q d;
  write_reads : forall p c d n d1 m d2, act (CreateFile p) d = (Ok n, d1) -> act (WriteAll p c) d1 = (Ok m, d2) ->
    read_to_string p d2 = Ok c;
  copy_reads : forall s t d n d' c, act (CopyFile s t) d = (Ok n, d') -> read_to_string s d = Ok c -> read_to_string t d' = Ok c;
}.

Section atomic.
Context {V : Type} {HJson : Json V} {D : Type} {HDisk : Disk D} {HDiffy : Diffy} (v : SandboxValidator).
Context (apart : path -> path -> Prop) {HLaws : DiskLaws D apart}.
Implicit Types (w : world D).

Lemma perform_elsewhere o w r w' q : perform o w = (r, w') -> Forall (fun t => apart t q) (targets o) ->
  read_to_string q (disk w') = read_to_string q (disk w).
Proof.
  unfold perform. pose proof (act_elsewhere o (disk w) q) as H. destruct (act o (disk w)) as [r0 d].
  intros [= _ <-] F. by apply H.
Qed.
Lemma guard_elsewhere p w q : apart p q -> read_to_string q (disk (drop_guard p w)) = read_to_string q (disk w).
Proof. intros H. unfold drop_guard. destruct (perform _ w) as [r w'] eqn:P. eapply perform_elsewhere; [exact P|]. by constructor. Qed.

(** Installing the temporary file: all or nothing. *)
Lemma install_atomic tmp p c w r w' : apart tmp p ->
  install tmp p c w = (r, w') ->
  match r with
  | Ok _ => read_to_string p (disk w') = Ok c
  | Err _ => read_to_string p (disk w') = read_to_string p (disk w)
  end /\ (forall q, apart tmp q -> apart p q -> read_to_string q (disk w') = read_to_string q (disk w)).
Proof.
  intros Htp. unfold install.
  assert (forall o w r w' q, targets o = [tmp] -> perform o w = (r, w') -> apart tmp q ->
    read_to_string q (disk w') = read_to_string q (disk w)) as K
    by (intros o u x u' q T P A; eapply perform_elsewhere; [exact P|]; rewrite T; by constructor).
  destruct (perform (CreateFile tmp) w) as [r1 w1] eqn:P1.
  assert (forall q, apart tmp q -> read_to_string q (disk w1) = read_to_string q (disk w)) as K1
    by (intros q ?; by apply (K (CreateFile tmp) w r1)).
  destruct r1 as [n1|e]; [|intros [= <- <-]; split; [|intros q ? ?]; by apply K1].
  destruct (perform (WriteAll tmp c) w1) as [r2 w2] eqn:P2.
  assert (forall q, apart tmp q -> read_to_string q (disk w2) = read_to_string q (disk w)) as K2
    by (intros q ?; rewrite <- K1 by done; by apply (K (WriteAll tmp c) w1 r2)).
  destruct r2 as [n2|e]; [|intros [= <- <-]; split; [|intros q ? ?]; by apply K2].
  assert (read_to_string tmp (disk w2) = Ok c) as Hc.
  { unfold perform in P1, P2. destruct (act (CreateFile tmp) (disk w)) as [x1 d1] eqn:A1. injection P1 as -> <-.
    cbn [disk] in P2. destruct (act (WriteAll tmp c) d1) as [x2 d2] eqn:A2. injection P2 as -> <-. by eapply write_reads. }
  destruct (perform (SyncAll tmp) w2) as [r3 w3] eqn:P3.
  assert (forall q, apart tmp q -> read_to_string q (disk w3) = read_to_string q (disk w)) as K3
    by (intros q ?; rewrite <- K2 by done; by apply (K (SyncAll tmp) w2 r3)).
  destruct r3 as [n3|e]; [|intros [= <- <-]; split; [|intros q ? ?]; by apply K3].
  assert (forall q, read_to_string q (disk w3) = read_to_string q (disk w2)) as Hs.
  { intros q. unfold perform in P3. pose proof (sync_keeps tmp q (disk w2)) as S. destruct (act _ _) as [r3 d3].
    injection P3 as _ <-. exact S. }
  destruct (perform (Rename tmp p) w3) as [r4 w4] eqn:P4. pose proof P4 as P4'. unfold perform in P4'.
  destruct (act (Rename tmp p) (disk w3)) as [x d4] eqn:A4. injection P4' as -> <-.
  intros E. assert (r4 = match r with Ok _ => r4 | Err _ => r4 end /\ w' = {| disk := d4; done_ops := done_ops w3 ++ [Rename tmp p] |}
    /\ is_ok r = is_ok r4) as (_ & -> & Ok4) by (destruct r4; injection E as <- <-; done).
  cbn [disk]. split.
  - destruct r4, r; try done.
    + rewrite (rename_moves _ _ _ _ _ A4), Hs. exact Hc.
    + rewrite (rename_atomic _ _ _ _ _ p A4). by apply K3.
  - intros q Hq Hpq. etrans; [eapply (perform_elsewhere _ _ _ _ q P4); by repeat constructor|].
    by apply K3.
Qed.

Lemma replace_atomic p c w r w' original :
  read_to_string p (disk w) = Ok original ->
  apart (temp_of p) p -> apart (backup_of p) p -> apart (temp_of p) (backup_of p) -> apart p (backup_of p) ->
  replace_file p c w = (r, w') ->
  match r with
  | Ok _ => read_to_string p (disk w') = Ok c /\ read_to_string (backup_of p) (disk w') = Ok original
  | Err _ => read_to_string p (disk w') = Ok original
  end.
Proof.
  intros Ho Htp Hbp Htb Hpb. unfold replace_file.
  destruct (perform (CopyFile p (backup_of p)) w) as [[n|e] w1] eqn:P1.
  - assert (read_to_string p (disk w1) = Ok original) as H1 by (rewrite <- Ho; eapply perform_elsewhere; [exact P1|by constructor]).
    assert (read_to_string (backup_of p) (disk w1) = Ok original) as H2.
    { unfold perform in P1. destruct (act _ _) as [x d] eqn:A. injection P1 as -> <-. by eapply copy_reads. }
    destruct (install (temp_of p) p c w1) as [[m|e] w2] eqn:I; apply install_atomic in I as [I1 I2]; [| done| |done]; intros [= <- <-].
    + split; [exact I1|]. by rewrite I2.
    + rewrite !guard_elsewhere by done. by rewrite I1.
  - intros [= <- <-]. rewrite guard_elsewhere by done. rewrite <- Ho. eapply perform_elsewhere; [exact P1|by constructor].
Qed.

(** C13. An edit of a readable file changes the file as a whole or not at all,
    whichever calls fail: either the answer is an error and the file holds what
    it held, or the answer is the report of the edit, the file holds the edited
    text and its backup the original. *)
Theorem edit_atomic args w s original :
  str_arg args "path" = Some s ->
  let p := resolved s w in
  read_to_string p (disk w) = Ok original ->
  apart (temp_of p) p -> apart (backup_of p) p -> apart (temp_of p) (backup_of p) -> apart p (backup_of p) ->
  let '(a, w') := fs_edit v args w in
  (((exists r, a = Err (Denied r)) \/ (exists msg, a = error_json msg)) /\ read_to_string p (disk w') = Ok original)
  \/ exists modified n, edited args s original = Ok (modified, n)
     /\ a = Ok (j_obj [("path", j_str s); ("replacements", j_int (Z.of_nat n));
                       ("backup_path", j_str (to_string (path_text (backup_of p))))]%string)
     /\ read_to_string p (disk w') = Ok modified /\ read_to_string (backup_of p) (disk w') = Ok original.
Proof.
  intros Hs p Ho Htp Hbp Htb Hpb. unfold fs_edit. rewrite Hs. fold p. destruct (check_write v p w) as [[]|r]; [|by left; eauto].
  rewrite Ho. destruct (edited args s original) as [[modified n]|e] eqn:E; [|by left; eauto].
  destruct (replace_file p modified w) as [[m|e] w1] eqn:R; apply (replace_atomic _ _ _ _ _ original) in R; try done.
  - right. destruct R as [R1 R2]. by exists modified, n.
  - left. eauto.
Qed.
End atomic.

(** ** A plain disk

    Files without links or directories; of the calls to come those marked fail. *)

Record plain := { files : path -> option text; faults : list bool }.
Definition set_file (p : path) (c : option text) (d : plain) : path -> option text :=
  fun q => if decide (q = p) then c else files d q.

Lemma set_file_ne p c d q : p <> q -> set_file p c d q = files d q.
Proof. intros H. unfold set_file. by rewrite decide_False by congruence. Qed.

Definition plain_go (n : list bool) (o : op) (d : plain) : result N text * plain :=
  let put p c := (Ok 0%N, {| files := set_file p (Some c) d; faults := n |}) in
  let same := {| files := files d; faults := n |} in
  match o with
  | WriteFile p c => put p c
  | CreateFile p => put p []
  | WriteAll p c => put p (default [] (files d p) ++ c)
  | CopyFile s t => match files d s with Some c => put t c | None => (Err (utf8 "no such file"), same) end
  | Rename s t =>
    match files d s with
    | Some c => (Ok 0%N, {| files := fun q => if decide (q = t) then Some c else if decide (q = s) then None else files d q; faults := n |})
    | None => (Err (utf8 "no such file"), same)
    end
  | RemoveFile p => (Ok 0%N, {| files := set_file p None d; faults := n |})
  | _ => (Ok 0%N, same)
  end.
Definition plain_act (o : op) (d : plain) : result N text * plain :=
  if bool_decide (head (faults d) = Some true) then (Err (utf8 "fault"), {| files := files d; faults := tail (faults d) |})
  else plain_go (tail (faults d)) o d.

Definition plain_view (d : plain) : FileSystem :=
  {| symlink_metadata _ := None; canonicalize _ := None; path_exists p := bool_decide (is_Some (files d p)); user_root := [RootDir] |}.
Definition plain_read (p : path) (d : plain) : result text text :=
  match files d p with Some c => Ok c | None => Err (utf8 "no such file") end.

#[local] Instance plain_disk : Disk plain := {|
  view := plain_view; read_to_string := plain_read;
  read_bytes p d := match files d p with Some c => Ok c | None => Err ("read"%string, utf8 "no such file") end;
  metadata_is_dir p d := match files d p with Some _ => Ok false | None => Err (utf8 "no such file") end;
  symlink_is_dir p d := match files d p with Some _ => Ok false | None => Err (utf8 "no such file") end;
  read_dir _ _ := Ok []; act := plain_act;
|}.

Lemma go_elsewhere n o d q : Forall (fun t => t <> q) (targets o) -> files (plain_go n o d).2 q = files d q.
Proof.
  intros F. destruct o; cbn [targets] in F; apply Forall_cons in F as [F1 F2]; cbn; rewrite ?set_file_ne by exact F1; try reflexivity.
  - destruct (files d src); cbn; rewrite ?set_file_ne by exact F1; reflexivity.
  - apply Forall_cons in F2 as [F2 _]. destruct (files d src); cbn; [|reflexivity].
    rewrite decide_False by congruence. rewrite decide_False by congruence. reflexivity.
Qed.

Lemma act_ok o d n d' : plain_act o d = (Ok n, d') -> plain_go (tail (faults d)) o d = (Ok n, d').
Proof. unfold plain_act. destruct (bool_decide _); [intros [=]|tauto]. Qed.

#[local] Instance plain_laws : DiskLaws plain (fun p q => p <> q).
Proof.
  split; cbn; unfold plain_read.
  - intros o d q F. unfold plain_act. destruct (bool_decide _); [reflexivity|]. by rewrite go_elsewhere.
  - intros p q d. unfold plain_act. destruct (bool_decide _); reflexivity.
  - intros s t d n d' E%act_ok. cbn in E. destruct (files d s) as [c|]; [|discriminate E]. injection E as _ <-. cbn.
    by rewrite decide_True.
  - intros s t d e d' q. unfold plain_act. destruct (bool_decide _); [intros [= _ <-]; reflexivity|]. cbn.
    destruct (files d s); [intros [=]|]. intros [= _ <-]. reflexivity.
  - intros p c d n d1 m d2 E1%act_ok E2%act_ok. cbn in *. injection E1 as _ <-. injection E2 as _ <-. cbn.
    unfold set_file. cbn. rewrite decide_True by reflexivity. rewrite decide_True by reflexivity. reflexivity.
  - intros s t d n d' c E%act_ok. cbn in E. destruct (files d s) as [x|]; [|discriminate E]. injection E as _ <-. intros [= ->]. cbn.
    unfold set_file. by rewrite decide_True.
Qed.

Definition no_diffy : Diffy :=
  {| patch := unit; patch_from_str _ := Err (utf8 "no patches"); patch_apply _ _ := Err []; hunks _ := 0 |}.
#[local] Existing Instance no_diffy.

Definition in_ws (n : string) : path := [RootDir; Normal (utf8 "ws"); Normal (utf8 n)].
Definition ws_validator : SandboxValidator := new_validator WorkspaceWrite [[RootDir; Normal (utf8 "ws")]].
Definition edit_args : jval :=
  JObj [("path", JStr "/ws/a.md"); ("old_text", JStr "old"); ("new_text", JStr "new")]%string.
Definition ws_world (l : list bool) : world plain :=
  {| disk := {| files := fun q => if decide (q = in_ws "a.md") then Some (utf8 "an old text") else None; faults := l |};
     done_ops := [] |}.

(** The last step fails, and so do the removals: the file is as it was. *)
Lemma edit_atomic_witness :
  let '(a, w') := fs_edit ws_validator edit_args (ws_world (replicate 4 false ++ [true; true; true])) in
  a = error_json (utf8 "Failed to atomically replace file: fault")
  /\ read_to_string (in_ws "a.md") (disk w') = Ok (utf8 "an old text").
Proof.
  pose proof (edit_atomic ws_validator (fun p q : path => p <> q) edit_args (ws_world (replicate 4 false ++ [true; true; true])) "/ws/a.md" (utf8 "an old text")
    eq_refl ltac:(vm_compute; reflexivity) ltac:(vm_compute; discriminate) ltac:(vm_compute; discriminate)
    ltac:(vm_compute; discriminate) ltac:(vm_compute; discriminate)) as H.
  destruct (fs_edit ws_validator edit_args (ws_world (replicate 4 false ++ [true; true; true]))) as [a w'] eqn:E.
  assert (a = error_json (utf8 "Failed to atomically replace file: fault")) as Ha
    by (apply (f_equal fst) in E; vm_compute in E; vm_compute; exact (eq_sym E)).
  split; [exact Ha|]. destruct H as [[_ H]|(m & n & _ & H & _)]; [exact H|exfalso].
  rewrite Ha in H. vm_compute in H. discriminate H.
Defined.

Definition edit_run : result jval file_error * world plain := fs_edit ws_validator edit_args (ws_world []).
Lemma file_ops_near_checked_witness :
  (exists ops, done_ops edit_run.2 = done_ops (ws_world []) ++ ops
     /\ Forall (fun o => Forall (near ws_validator (ws_world [])) (targets o)) ops)
  /\ length (done_ops edit_run.2) = 5.
Proof.
  split; [|vm_compute; reflexivity].
  apply (file_ops_near_checked ws_validator None "fs.edit" (fs_edit ws_validator) edit_args (ws_world []) edit_run.1 edit_run.2).
  - reflexivity.
  - unfold edit_run. destruct (fs_edit ws_validator edit_args (ws_world [])). reflexivity.
Defined.

(** An edit that cannot make its backup removes the backup of an earlier one. *)
Example backup_lost :
  let d := {| files := set_file (in_ws "a.md.bak") (Some (utf8 "earlier")) (disk (ws_world [])); faults := [true] |} in
  let '(a, w') := fs_edit ws_validator edit_args {| disk := d; done_ops := [] |} in
  a = error_json (utf8 "Failed to create backup: fault") /\ read_to_string (in_ws "a.md.bak") (disk w') = Err (utf8 "no such file").
Proof. vm_compute. split; reflexivity. Qed.

(** ** A disk with links *)

(** Files, directories and links by their walk from the root; [t_files] holds the
    contents. *)
Record tree := { t_nodes : list (list text); t_links : list (list text * list text); t_files : list (list text * text) }.

Definition t_view (d : tree) : FileSystem := table_fs (t_nodes d) (t_links d).
Definition t_resolve (p : path) (d : tree) : option (list text) :=
  if is_absolute p then follow (t_nodes d) (t_links d) [] p else None.
(** The directory entry a path names, its last component not followed. *)
Definition t_entry (p : path) (d : tree) : option (list text) :=
  n ← file_name p; st ← t_resolve (removelast p) d; Some (n :: st).
Definition t_landing (p : path) (d : tree) : option (list text) :=
  match t_resolve p d with
  | Some st => Some st
  | None => e ← t_entry p d; if bool_decide (link_target (t_links d) e = None) then Some e else None
  end.
Definition t_content (st : list text) (d : tree) : option text :=
  snd <$> List.find (fun f => bool_decide (fst f = st)) (t_files d).
Definition unlink_at (e : list text) (d : tree) : tree :=
  {| t_nodes := filter (fun st => st <> e) (t_nodes d); t_links := filter (fun l => fst l <> e) (t_links d);
     t_files := filter (fun f => fst f <> e) (t_files d) |}.
Definition put_at (st : list text) (c : text) (d : tree) : tree :=
  {| t_nodes := st :: t_nodes d; t_links := t_links d; t_files := (st, c) :: t_files d |}.
Definition t_move (s t : list text) (d : tree) : option tree :=
  match link_target (t_links d) s with
  | Some target => let d1 := unlink_at t (unlink_at s d) in
    Some {| t_nodes := t_nodes d1; t_links := (t, target) :: t_links d1; t_files := t_files d1 |}
  | None => c ← t_content s d; Some (put_at t c (unlink_at t (unlink_at s d)))
  end.

Definition t_read (p : path) (d : tree) : result text text :=
  match (st ← t_resolve p d; t_content st d) with Some c => Ok c | None => Err (utf8 "no such file") end.
Definition t_act (o : op) (d : tree) : result N text * tree :=
  let done r := match r with Some d' => (Ok 0%N, d') | None => (Err (utf8 "no such file"), d) end in
  match o with
  | WriteFile p c => done (st ← t_landing p d; Some (put_at st c d))
  | CreateFile p => done (st ← t_landing p d; Some (put_at st [] d))
  | WriteAll p c => done (st ← t_resolve p d; old ← t_content st d; Some (put_at st (old ++ c) d))
  | SyncAll p => (Ok 0%N, d)
  | CopyFile s t => done (st ← t_resolve s d; c ← t_content st d; to ← t_landing t d; Some (put_at to c d))
  | Rename s t => done (e ← t_entry s d; e' ← t_entry t d; t_move e e' d)
  | RemoveFile p => done (e ← t_entry p d; Some (unlink_at e d))
  | CreateDirAll p => done (_ ← t_resolve p d; Some d)
  | RemoveDir _ | RemoveDirAll _ => (Err (utf8 "not permitted"), d)
  end.

#[local] Instance tree_disk : Disk tree := {|
  view := t_view; read_to_string := t_read;
  read_bytes p d := match t_read p d with Ok c => Ok c | Err e => Err ("read"%string, e) end;
  metadata_is_dir p d := match t_resolve p d with Some st => Ok (bool_decide (t_content st d = None)) | None => Err (utf8 "no such file") end;
  symlink_is_dir p d := match t_entry p d with Some e => Ok (bool_decide (t_content e d = None)) | None => Err (utf8 "no such file") end;
  read_dir _ _ := Ok []; act := t_act;
|}.

(** [/ws/a.md], [/out/keys], and beside the first a link to the second. *)
Definition ws : list text := [utf8 "ws"].
Definition keys : list text := [utf8 "keys"; utf8 "out"].
Definition linked (n : string) : world tree :=
  {| disk := {| t_nodes := [ws; utf8 "a.md" :: ws; [utf8 "out"]; keys]; t_links := [(utf8 n :: ws, keys)];
                t_files := [(utf8 "a.md" :: ws, utf8 "an old text"); (keys, utf8 "secret")] |}; done_ops := [] |}.

(** An edit within the workspace that writes outside it.  The names of the backup
    and of the temporary file are not checked: where one is a link out of the
    workspace, the edit of its neighbour overwrites the file it leads to, though
    the validator refuses both the link and the file; and the renamed temporary
    link takes the place of the edited file. *)
Theorem edit_leaves_workspace :
  (let '(_, w') := fs_edit ws_validator edit_args (linked "a.md.bak") in
   check_write ws_validator (in_ws "a.md") (linked "a.md.bak") = Ok tt
   /\ check_write ws_validator (in_ws "a.md.bak") (linked "a.md.bak") = Err SymlinkEscapes
   /\ check_write ws_validator (path_of keys) (linked "a.md.bak") = Err OutsideRoots
   /\ read_to_string (path_of keys) (disk w') = Ok (utf8 "an old text"))
  /\ (let '(_, w') := fs_edit ws_validator edit_args (linked "a.md.tmp") in
      read_to_string (path_of keys) (disk w') = Ok (utf8 "an new text")
      /\ t_resolve (in_ws "a.md") (disk w') = Some keys).
Proof. vm_compute. repeat split; reflexivity. Qed.

(** ** Reading *)

Section read.
Context {V : Type} {HJson : Json V} (from_utf8_lossy : list N -> text) (encode64 : list N -> text).

Lemma usize_small z : (0 <= z < 2 ^ 64)%Z -> usize z = Z.to_N z.
Proof. intros H. unfold usize. by rewrite Z.mod_small. Qed.

Lemma read_whole (file : list N) : (N.of_nat (length file) <= 1048576)%N ->
  read_part false 0%N None 1048576%N file = Done (file, false).
Proof.
  intros H. unfold read_part, alloc. change (2 ^ 63 <=? N.min (1048576 + 1) (2 ^ 64 - 1))%N with false. cbn [obind].
  change (N.min (1048576 + 1) (2 ^ 64 - 1))%N with 1048577%N. rewrite (take_ge file) by lia.
  rewrite N.min_l, Nat2N.id, take_ge by lia. f_equal. f_equal. apply N.ltb_ge. lia.
Qed.

(** A text file of at most a megabyte is returned as the lines asked for: from
    the line [offset], counted from one, at most [limit] of them; [truncated]
    says exactly whether lines follow. *)
Theorem read_lines_exact args base64 file offset limit :
  j_get args "offset_bytes" = None -> j_get args "length" = None -> j_get args "max_bytes" = None ->
  int_arg args "offset" = Some offset -> int_arg args "limit" = Some limit ->
  (1 <= offset < 2 ^ 62)%Z -> (0 <= limit < 2 ^ 62)%Z -> (N.of_nat (length file) <= 1048576)%N -> is_binary file = false ->
  let ls := lines (strip_utf8_bom (from_utf8_lossy file)) in
  let first := Z.to_nat (offset - 1) in
  exists a, read_file from_utf8_lossy encode64 args base64 file = Done a
    /\ ra_content a = join_lines (take (Z.to_nat limit) (drop first ls))
    /\ lines_read a = length (take (Z.to_nat limit) (drop first ls)) /\ total_lines a = length ls
    /\ ra_truncated a = (first + Z.to_nat limit <? length ls)%nat /\ ra_binary a = false.
Proof.
  intros H1 H2 H3 Ho Hl Bo Bl Hf Hb ls first. unfold read_file. rewrite Ho, Hl. unfold int_arg at 1 2 3. rewrite H1, H2, H3.
  cbn [mbind option_bind default positive fmap option_fmap option_map].
  change (usize (Z.max 0 0)) with 0%N. change (usize DEFAULT_MAX_BYTES) with 1048576%N.
  rewrite !bool_decide_eq_false_2 by (by intros []). cbn [orb]. rewrite read_whole by exact Hf. cbn [obind]. rewrite Hb.
  cbn [id]. rewrite (usize_small offset), (usize_small limit) by lia. cbn [orb andb]. fold ls. unfold window.
  set (total := N.of_nat (length ls)). set (start := N.min (Z.to_N offset - 1) total).
  assert (N.to_nat start = Nat.min first (length ls)) as Hst by (unfold start, total, first; lia).
  assert (N.to_nat total = length ls) as Htot by (unfold total; lia). clearbody start total.
  set (lim := Z.to_nat limit). assert (N.to_nat (Z.to_N limit) = lim) as Hlim by (unfold lim; lia).
  assert (Z.of_nat first < 2 ^ 62)%Z as Hfirst by (unfold first; lia). assert (Z.of_nat lim < 2 ^ 62)%Z as Hlb by (unfold lim; lia).
  change (2 ^ 62)%Z with 4611686018427387904%Z in *. clearbody first lim.
  destruct (N.leb_spec (2 ^ 64) (start + Z.to_N limit)) as [Hbig|_]; [change (2 ^ 64)%N with 18446744073709551616%N in Hbig; lia|]. cbn [obind].
  assert (take (N.to_nat (N.min (start + Z.to_N limit) total - start)) (drop (N.to_nat start) ls) = take lim (drop first ls)) as ->.
  { rewrite Hst. destruct (Nat.le_gt_cases (length ls) first).
    - rewrite !drop_ge by lia. by rewrite !take_nil.
    - rewrite Nat.min_l by lia. destruct (Nat.le_gt_cases (length ls) (first + lim)).
      + rewrite !take_ge; [done| |]; rewrite length_drop; lia.
      + f_equal. lia. }
  eexists. split; [reflexivity|]. cbn [ra_content lines_read total_lines ra_truncated ra_binary fst snd orb]. split_and!; try done.
  destruct (Nat.ltb_spec (first + lim) (length ls)), (N.ltb_spec (N.min (start + Z.to_N limit) total) total); lia || done.
Qed.
End read.

Definition window_args (offset limit : Z) : jval := JObj [("offset", JNum offset); ("limit", JNum limit)]%string.
Definition two_lines : list N := [97; 10; 98; 10; 99]%N.

Lemma read_lines_exact_witness : exists a, read_file utf8_decode (fun _ => []) (window_args 2 1) false two_lines = Done a
  /\ ra_content a = utf8 "b" /\ lines_read a = 1 /\ total_lines a = 3 /\ ra_truncated a = true /\ ra_binary a = false.
Proof.
  exact (read_lines_exact utf8_decode (fun _ => []) (window_args 2 1) false two_lines 2 1 eq_refl eq_refl eq_refl eq_refl eq_refl
    ltac:(lia) ltac:(lia) ltac:(vm_compute; discriminate) eq_refl).
Defined.

(** Arguments that panic a read: a negative limit after the first line, and a
    byte count whose buffer cannot be allocated. *)
Theorem read_panics :
  read_file utf8_decode (fun _ => []) (window_args 2 (-1)) false two_lines = Panic
  /\ read_file utf8_decode (fun _ => []) (JObj [("max_bytes", JNum (2 ^ 63 - 1))]%string) false two_lines = Panic.
Proof. split; vm_compute; reflexivity. Qed.

(** A move replaces an existing destination without being asked to. *)
Example move_overwrites :
  let d := {| files := set_file (in_ws "b.md") (Some (utf8 "kept")) (disk (ws_world [])); faults := [] |} in
  let '(_, w') := fs_move ws_validator (JObj [("source", JStr "/ws/a.md"); ("destination", JStr "/ws/b.md")]%string)
                    {| disk := d; done_ops := [] |} in
  read_to_string (in_ws "b.md") (disk w') = Ok (utf8 "an old text").
Proof. vm_compute. reflexivity. Qed.
