(* ===== verification/Ordering.v ===== *)
(** * Stable sorting and floating-point numbers

    [slice::sort_by] is stable: [sort_by] is the insertion sort that agrees with
    it, for any comparison that never calls two elements less than each other.
    [f32] and [f64] are the binary formats of [SpecFloat]; [partial_cmp] is total
    away from NaN, and sums and quotients of numbers that are not negative are
    never NaN. *)

From S2P Require Import Prelude.
From Stdlib Require Import Lia SpecFloat.
Local Open Scope list_scope.

(** ** Stable sorting *)

Section sort.
Context {A : Type} (before : A -> A -> bool).

Fixpoint place (x : A) (l : list A) : list A :=
  match l with
  | [] => [x]
  | y :: r => if before y x then y :: place x r else x :: l
  end.
Definition sort_by (l : list A) : list A := foldr place [] l.

Lemma place_perm x l : place x l ≡ₚ x :: l.
Proof.
  induction l as [|y r IH]; cbn [place]; [done|]. destruct (before y x); [|done].
  rewrite IH. apply Permutation_swap.
Qed.

Lemma sort_by_perm l : sort_by l ≡ₚ l.
Proof. induction l as [|x l IH]; cbn [sort_by foldr]; [done|]. fold (sort_by l). by rewrite place_perm, IH. Qed.

Lemma place_head_rel x y r : (before x y = false) -> (forall z, z ∈ r -> before z y = false) ->
  forall z, z ∈ place x r -> before z y = false.
Proof. intros H1 H2 z Hz. rewrite place_perm in Hz. apply elem_of_cons in Hz as [->|Hz]; auto. Qed.

(** What the comparison must be, among the elements that satisfy [P], for the
    order to say something. *)
Class WeakOrder (P : A -> Prop) := {
  before_asym : forall x y, P x -> P y -> before x y = true -> before y x = false;
  before_cotrans : forall x y z, P x -> P y -> P z -> before x z = true -> before x y = true \/ before y z = true;
}.

Definition ordered (l : list A) : Prop := forall i j x y, i < j -> l !! i = Some x -> l !! j = Some y -> before y x = false.

Lemma ordered_cons x l : (forall y, y ∈ l -> before y x = false) -> ordered l -> ordered (x :: l).
Proof.
  intros Hx Hl [|i] [|j] a b Hij Ha Hb; try lia; cbn in *.
  - injection Ha as <-. apply Hx. by eapply list_elem_of_lookup_2.
  - by apply (Hl i j a b); [lia|..].
Qed.
Lemma ordered_inv x l : ordered (x :: l) -> (forall y, y ∈ l -> before y x = false) /\ ordered l.
Proof.
  intros H. split.
  - intros y [i Hi]%list_elem_of_lookup_1. by apply (H 0 (S i) x y); [lia|..].
  - intros i j a b Hij Ha Hb. by apply (H (S i) (S j) a b); [lia|..].
Qed.

Lemma ordered_strongly l : ordered l -> StronglySorted (fun x y => before y x = false) l.
Proof.
  induction l as [|x l IH]; [constructor|]. intros [Hx Hl]%ordered_inv. constructor; [by apply IH|].
  by apply Forall_forall.
Qed.

Lemma place_ordered `{WeakOrder P} x l : P x -> Forall P l -> ordered l -> ordered (place x l).
Proof.
  intros Px. induction l as [|y r IH]; cbn [place]; intros Hp Hl.
  - apply ordered_cons; [|done]. by intros y ?%elem_of_nil.
  - apply Forall_cons in Hp as [Py Hp]. apply ordered_inv in Hl as [Hy Hr]. destruct (before y x) eqn:B.
    + apply ordered_cons; [|by apply IH]. apply place_head_rel; [by apply before_asym|done].
    + apply ordered_cons; [|by apply ordered_cons]. intros z [->|Hz]%elem_of_cons; [done|].
      assert (P z) as Pz by (rewrite Forall_forall in Hp; by apply Hp).
      destruct (before z x) eqn:Z; [|done]. destruct (before_cotrans z y x Pz Py Px Z) as [T|T]; [|congruence].
      rewrite (Hy z Hz) in T. done.
Qed.
Lemma sort_by_ordered `{WeakOrder P} l : Forall P l -> ordered (sort_by l).
Proof.
  induction 1 as [|x l Px Hp IH]; cbn [sort_by foldr].
  - intros i j x y _ Hx. by rewrite lookup_nil in Hx.
  - apply place_ordered; [done| |done]. fold (sort_by l). by rewrite sort_by_perm.
Qed.

(** Elements that compare equal keep their order. *)
Lemma place_filter (P : A -> Prop) `{forall a, Decision (P a)} x l :
  (forall a, a ∈ l -> P a -> P x -> before a x = false) -> filter P (place x l) = filter P (x :: l).
Proof.
  induction l as [|y r IH]; intros Hb; cbn [place]; [done|]. destruct (before y x) eqn:B; [|done].
  rewrite !filter_cons. rewrite IH by (intros a Ha; apply Hb; by right). rewrite filter_cons.
  destruct (decide (P y)), (decide (P x)); try done.
  exfalso. rewrite (Hb y) in B; [done|by left|done|done].
Qed.
Lemma sort_by_stable (P : A -> Prop) `{forall a, Decision (P a)} l :
  (forall a b, a ∈ l -> b ∈ l -> P a -> P b -> before a b = false) -> filter P (sort_by l) = filter P l.
Proof.
  induction l as [|x l IH]; intros Hb; [done|]. cbn [sort_by foldr]. fold (sort_by l). rewrite place_filter.
  - rewrite !filter_cons, IH; [done|]. intros a b Ha Hc. apply Hb; by right.
  - intros a Ha. rewrite sort_by_perm in Ha. apply Hb; [by right|by left].
Qed.
Lemma sort_by_equal l : (forall a b, a ∈ l -> b ∈ l -> before a b = false) -> sort_by l = l.
Proof.
  induction l as [|x l IH]; intros Hb; [done|]. cbn [sort_by foldr]. fold (sort_by l).
  rewrite IH by (intros a b Ha Hc; apply Hb; by right). destruct l as [|y l]; [done|]. cbn [place].
  by rewrite (Hb y x) by set_solver.
Qed.
End sort.
Arguments before_asym {A before P _} x y _ _ _.
Arguments before_cotrans {A before P _} x y z _ _ _ _.

(** ** The best element of a list

    [min] and [max_by] fold over the list; [keep y x]: [y], the best so far, stays
    when [x] comes. *)
Section best.
Context {A : Type} (keep : A -> A -> bool).

Definition best_of (l : list A) : option A :=
  foldl (fun m x => match m with None => Some x | Some y => if keep y x then Some y else Some x end) None l.

Context (before : A -> A -> bool) `{!WeakOrder before (fun _ => True)}.
Context (keep_true : forall x y, keep y x = true -> before x y = false) (keep_false : forall x y, keep y x = false -> before y x = false).

Lemma best_of_spec l : l <> [] -> exists x, best_of l = Some x /\ x ∈ l /\ forall y, y ∈ l -> before y x = false.
Proof.
  assert (forall l m read, m ∈ read -> (forall y, y ∈ read -> before y m = false) ->
    exists x, foldl (fun m x => match m with None => Some x | Some y => if keep y x then Some y else Some x end) (Some m) l = Some x
      /\ x ∈ read ++ l /\ forall y, y ∈ read ++ l -> before y x = false) as H.
  { clear l. induction l as [|x l IH]; intros m read Hm Hd; cbn [foldl]; [exists m; by rewrite app_nil_r|].
    rewrite cons_middle, app_assoc. destruct (keep m x) eqn:E; (apply IH; [rewrite elem_of_app, list_elem_of_singleton; auto|]).
    - intros y [Hy| ->%list_elem_of_singleton]%elem_of_app; auto.
    - intros y [Hy| ->%list_elem_of_singleton]%elem_of_app; apply not_true_iff_false; intros Hyx.
      + destruct (before_cotrans (before := before) (P := fun _ => True) y m x I I I Hyx) as [T|T].
        * by rewrite Hd in T. * by rewrite keep_false in T.
      + by rewrite (before_asym (before := before) (P := fun _ => True) x x I I Hyx) in Hyx. }
  intros Hl. destruct l as [|m l]; [done|]. destruct (H l m [m]) as (x & Hx & H'); [set_solver| |by exists x].
  intros y ->%list_elem_of_singleton. apply not_true_iff_false. intros E.
  by rewrite (before_asym (before := before) (P := fun _ => True) m m I I E) in E.
Qed.
End best.

(** ** Strings *)

Lemma ltb_leb a b : String.ltb a b = negb (String.leb b a).
Proof. unfold String.ltb, String.leb. rewrite String.compare_antisym. by destruct (String.compare b a). Qed.
Lemma leb_trans a b c : String.leb a b = true -> String.leb b c = true -> String.leb a c = true.
Proof. intros H1 H2. apply Is_true_true. trans b; by apply Is_true_true. Qed.
#[export] Instance string_order : WeakOrder String.ltb (fun _ => True).
Proof.
  split.
  - intros x y _ _. rewrite !ltb_leb. intros H%negb_true_iff. apply negb_false_iff. destruct (String.leb_total x y); congruence.
  - intros x y z _ _ _. rewrite !ltb_leb, !negb_true_iff. intros H.
    destruct (String.leb y x) eqn:E1; [|auto]. destruct (String.leb z y) eqn:E2; [|auto].
    rewrite (leb_trans z y x) in H by done. done.
Qed.

(** ** Comparing floats *)

#[export] Instance spec_float_eq : EqDecision spec_float.
Proof. solve_decision. Defined.

Definition is_number (x : spec_float) : Prop := x <> S754_nan.

(** The place of a number on the line: a class, then an exponent and a mantissa. *)
Definition float_key (x : spec_float) : Z * Z * Z :=
  match x with
  | S754_infinity true => (-2, 0, 0)%Z
  | S754_finite true m e => (-1, - e, - Z.pos m)%Z
  | S754_finite false m e => (1, e, Z.pos m)%Z
  | S754_infinity false => (2, 0, 0)%Z
  | S754_zero _ | S754_nan => (0, 0, 0)%Z
  end.
Definition key_lt (a b : Z * Z * Z) : Prop :=
  (a.1.1 < b.1.1 \/ (a.1.1 = b.1.1 /\ (a.1.2 < b.1.2 \/ (a.1.2 = b.1.2 /\ a.2 < b.2))))%Z.

(** [a < b], as [partial_cmp] decides it. *)
Definition float_lt (a b : spec_float) : bool := SFltb a b.

Lemma float_lt_key a b : is_number a -> is_number b -> float_lt a b = true <-> key_lt (float_key a) (float_key b).
Proof.
  unfold is_number, float_lt, SFltb, SFcompare, key_lt. intros Ha Hb.
  destruct a as [sa|[]| |[] ma ea], b as [sb|[]| |[] mb eb]; cbn [float_key fst snd]; try done;
    try (split; [intros; lia|intros; first [done|lia]]).
  - destruct (Z.compare_spec ea eb) as [->|L|L]; [|split; [discriminate|lia]|split; [lia|done]].
    change (Pos.compare_cont Eq ma mb) with (Pos.compare ma mb). destruct (Pos.compare_spec ma mb); cbn; split; intros; first [done|lia].
  - destruct (Z.compare_spec ea eb) as [->|L|L]; [|split; [lia|done]|split; [discriminate|lia]].
    change (Pos.compare_cont Eq ma mb) with (Pos.compare ma mb). destruct (Pos.compare_spec ma mb); cbn; split; intros; first [done|lia].
Qed.

Lemma float_lt_asym a b : is_number a -> is_number b -> float_lt a b = true -> float_lt b a = false.
Proof.
  intros Ha Hb H. apply not_true_iff_false. intros H'.
  apply float_lt_key in H; [|done..]. apply float_lt_key in H'; [|done..]. unfold key_lt in *. lia.
Qed.
Lemma float_lt_cotrans a b c : is_number a -> is_number b -> is_number c ->
  float_lt a c = true -> float_lt a b = true \/ float_lt b c = true.
Proof. intros Ha Hb Hc. rewrite !float_lt_key by done. unfold key_lt. lia. Qed.
Lemma float_lt_nan_l a : float_lt S754_nan a = false.
Proof. by destruct a. Qed.
Lemma float_lt_nan_r a : float_lt a S754_nan = false.
Proof. by destruct a as [| | |[]]. Qed.

(** Sorting by a float, the highest first. *)
#[export] Instance by_score {A} (score : A -> spec_float) :
  WeakOrder (fun a b => float_lt (score b) (score a)) (fun a => is_number (score a)).
Proof.
  split; [intros x y Hx Hy; by apply float_lt_asym|].
  intros x y z Hx Hy Hz H. destruct (float_lt_cotrans (score z) (score y) (score x)) as [T|T]; auto.
Qed.

(** ** Arithmetic *)

(** A number that is not negative. *)
Definition at_least_zero (x : spec_float) : Prop :=
  match x with S754_zero false | S754_infinity false | S754_finite false _ _ => True | _ => False end.
Lemma at_least_zero_number x : at_least_zero x -> is_number x.
Proof. by destruct x. Qed.

Section rounding.
Context (prec emax : Z).

Lemma shr_1_nonneg r : (0 <= shr_m r)%Z -> (0 <= shr_m (shr_1 r))%Z.
Proof. destruct r as [[|[m|m|]|m] ? ?]; cbn; lia. Qed.
Lemma iter_shr_nonneg n r : (0 <= shr_m r)%Z -> (0 <= shr_m (SpecFloat.iter_pos shr_1 n r))%Z.
Proof.
  revert r. induction n as [n IH|n IH|]; intros r Hr; cbn [SpecFloat.iter_pos].
  - by apply IH, IH, shr_1_nonneg.
  - by apply IH, IH.
  - by apply shr_1_nonneg.
Qed.
Lemma shr_fexp_nonneg m e l : (0 <= m)%Z -> (0 <= shr_m (shr_fexp prec emax m e l).1)%Z.
Proof.
  intros Hm. unfold shr_fexp, shr.
  assert (0 <= shr_m (shr_record_of_loc m l))%Z by (destruct l as [|[]]; done).
  destruct (_ - _)%Z; cbn [fst]; try done. by apply iter_shr_nonneg.
Qed.
Lemma round_nonneg m l : (0 <= m)%Z -> (0 <= round_nearest_even m l)%Z.
Proof. destruct l as [|[]]; cbn [round_nearest_even]; try lia. destruct (Z.even m); lia. Qed.

Lemma round_aux_zero m e l : (0 <= m)%Z -> at_least_zero (binary_round_aux prec emax false m e l).
Proof.
  intros Hm. unfold binary_round_aux. destruct (shr_fexp prec emax m e l) as [r e'] eqn:E.
  pose proof (shr_fexp_nonneg m e l Hm) as Hr. rewrite E in Hr. cbn [fst] in Hr.
  match goal with |- context [shr_fexp prec emax ?a e' loc_Exact] =>
    pose proof (shr_fexp_nonneg a e' loc_Exact (round_nonneg _ _ Hr)) as Hr2; destruct (shr_fexp prec emax a e' loc_Exact) as [r2 e2] end.
  cbn [fst] in Hr2. destruct (shr_m r2); [done| |lia]. by destruct (_ <=? _)%Z.
Qed.
Lemma normalize_zero m e : (0 <= m)%Z -> at_least_zero (binary_normalize prec emax m e false).
Proof.
  intros Hm. unfold binary_normalize. destruct m as [|m|m]; [done| |lia]. unfold binary_round.
  destruct (shl_align _ _ _). by apply round_aux_zero.
Qed.

Lemma add_zero a b : at_least_zero a -> at_least_zero b -> at_least_zero (SFadd prec emax a b).
Proof.
  destruct a as [[]|[]| |[] ma ea], b as [[]|[]| |[] mb eb]; cbn [at_least_zero SFadd]; try done. intros _ _.
  apply normalize_zero. unfold cond_Zopp.
  destruct (shl_align ma ea (Z.min ea eb)), (shl_align mb eb (Z.min ea eb)). cbn [fst]. lia.
Qed.
Lemma div_zero ma ea mb eb : at_least_zero (SFdiv prec emax (S754_finite false ma ea) (S754_finite false mb eb)).
Proof.
  cbn [SFdiv]. destruct (SFdiv_core_binary _ _ _ _ _ _) as [[q e] l] eqn:E. apply round_aux_zero.
  unfold SFdiv_core_binary in E.
  match type of E with context [Z.div_eucl ?a ?b] => pose proof (Z_div_mod_full a b) as D; assert (0 <= a)%Z as Ha end.
  { match goal with |- (0 <= match ?x with _ => _ end)%Z => destruct x end; [lia|apply Z.shiftl_nonneg; lia|lia]. }
  destruct (Z.div_eucl _ _) as [q' r']. simplify_eq. specialize (D ltac:(lia)) as [D R].
  destruct R as [R|R]; nia.
Qed.
End rounding.

(** ** Binary64, and the integers in it

    [f64] with the operations the source uses.  Below 2^53 sums of integers are
    exact, so that the order of a sum does not matter; the sum of an empty iterator
    is -0. *)

Local Open Scope Z_scope.

Abbreviation f64 := spec_float.
Definition f64_of (z : Z) : f64 := binary_normalize 53 1024 z 0 false.
Definition f64_add (a b : f64) : f64 := SFadd 53 1024 a b.
Definition f64_sub (a b : f64) : f64 := SFsub 53 1024 a b.
Definition f64_mul (a b : f64) : f64 := SFmul 53 1024 a b.
Definition f64_div (a b : f64) : f64 := SFdiv 53 1024 a b.
Definition f64_zero : f64 := S754_zero false.
Definition f64_sum (l : list f64) : f64 := foldl f64_add (S754_zero true) l.

(** [total_cmp]: it tells the zeros apart; a NaN is taken to be positive, so the
    greatest. *)
Definition total_key (x : f64) : Z * Z * Z :=
  match x with
  | S754_zero false => (0, 1, 0)
  | S754_nan => (3, 0, 0)
  | _ => float_key x
  end.
#[export] Instance key_lt_dec a b : Decision (key_lt a b).
Proof. unfold key_lt. apply _. Defined.

(** *** Integers *)

Definition TWO53 : Z := 2 ^ 53.
Definition digits (z : Z) : Z := Z.log2 z + 1.

Lemma digits2_log2 p : Z.pos (digits2_pos p) = digits (Z.pos p).
Proof.
  unfold digits. induction p as [p IH|p IH|]; cbn [digits2_pos]; [| |done].
  - rewrite Pos2Z.inj_succ, IH, Pos2Z.inj_xI. rewrite Z.log2_succ_double by done. lia.
  - rewrite Pos2Z.inj_succ, IH, Pos2Z.inj_xO. rewrite Z.log2_double by done. lia.
Qed.
Lemma digits_shift z k : 0 < z -> 0 <= k -> digits (z * 2 ^ k) = digits z + k.
Proof. intros. unfold digits. rewrite Z.log2_mul_pow2 by lia. lia. Qed.
Lemma digits_bound z : 0 < z < TWO53 -> 1 <= digits z <= 53.
Proof.
  intros [H1 H2]. unfold digits. pose proof (Z.log2_nonneg z). pose proof (proj1 (Z.log2_lt_pow2 z 53 H1) H2). lia.
Qed.

Lemma iter_xO d p : Z.pos (Pos.iter xO p d) = Z.pos p * 2 ^ Z.pos d.
Proof.
  induction d using Pos.peano_ind; [cbn; lia|].
  rewrite Pos.iter_succ, Pos2Z.inj_succ, Z.pow_succ_r by lia. rewrite Pos2Z.inj_xO. lia.
Qed.
Lemma iter_shr_exact n m : 0 < m ->
  SpecFloat.iter_pos shr_1 n {| shr_m := m * 2 ^ Z.pos n; shr_r := false; shr_s := false |} = {| shr_m := m; shr_r := false; shr_s := false |}.
Proof.
  assert (forall m, 0 < m -> shr_1 {| shr_m := 2 * m; shr_r := false; shr_s := false |} = {| shr_m := m; shr_r := false; shr_s := false |}) as H1.
  { intros x Hx. by destruct x. }
  revert m. induction n as [n IH|n IH|]; intros m Hm; cbn [SpecFloat.iter_pos].
  - rewrite Pos2Z.inj_xI, Z.pow_add_r, Z.mul_assoc, (Z.mul_comm _ (2 ^ 1)), Z.pow_1_r by lia.
    rewrite H1 by nia.
    replace (2 ^ (2 * Z.pos n)) with (2 ^ Z.pos n * 2 ^ Z.pos n) by (rewrite <- Z.pow_add_r by lia; f_equal; lia).
    rewrite Z.mul_assoc, IH by nia. by apply IH.
  - replace (2 ^ Z.pos n~0) with (2 ^ Z.pos n * 2 ^ Z.pos n) by (rewrite <- Z.pow_add_r by lia; f_equal; lia).
    rewrite Z.mul_assoc, IH by nia. by apply IH.
  - rewrite Z.mul_comm. by apply H1.
Qed.

(** An integer below 2^53, with its 53 binary digits. *)
Definition exact (z : Z) : f64 := S754_finite false (Z.to_pos (z * 2 ^ (53 - digits z))) (digits z - 53).

Lemma fexp_small d : -1000 <= d -> fexp 53 1024 d = d - 53.
Proof. unfold fexp, emin. lia. Qed.

Lemma round_exact z : 0 < z < TWO53 ->
  forall k, 0 <= k <= 500 -> digits z - 53 + k >= 0 -> binary_round_aux 53 1024 false (z * 2 ^ k) (- k) loc_Exact = exact z.
Proof.
  intros Hz k Hk Hn. pose proof (digits_bound z Hz) as Hd. unfold binary_round_aux, shr_fexp, exact.
  assert (forall m, 0 < m -> Zdigits2 m = digits m) as Hdig by (intros [|m|m] Hm; try lia; apply digits2_log2).
  rewrite Hdig, digits_shift, fexp_small by nia. cbn [shr_record_of_loc].
  set (n := digits z - 53 + k). replace (digits z + k + - k - 53 - - k) with n by lia.
  assert (z * 2 ^ k = z * 2 ^ (53 - digits z) * 2 ^ n) as E by (rewrite <- Z.mul_assoc, <- Z.pow_add_r by lia; do 2 f_equal; lia).
  assert (0 < z * 2 ^ (53 - digits z)) as Hpos by nia.
  assert (shr {| shr_m := z * 2 ^ k; shr_r := false; shr_s := false |} (- k) n
    = ({| shr_m := z * 2 ^ (53 - digits z); shr_r := false; shr_s := false |}, digits z - 53)) as ->.
  { rewrite E. unfold shr. destruct n as [|p|p] eqn:En; [| |lia].
    - rewrite Z.pow_0_r, Z.mul_1_r. f_equal. lia.
    - rewrite iter_shr_exact by done. f_equal. lia. }
  cbn [shr_m loc_of_shr_record round_nearest_even shr_record_of_loc].
  rewrite Hdig, digits_shift, fexp_small by lia.
  replace (digits z + (53 - digits z) + (digits z - 53) - 53 - (digits z - 53)) with 0 by lia. cbn [shr shr_m].
  destruct (z * 2 ^ (53 - digits z)) as [|p|p] eqn:Ep; try lia. cbn [Z.to_pos].
  destruct (Z.leb_spec (digits z - 53) (1024 - 53)); [done|lia].
Qed.

Lemma normalize_exact z k : 0 < z < TWO53 -> 0 <= k <= 500 -> binary_normalize 53 1024 (z * 2 ^ k) (- k) false = exact z.
Proof.
  intros Hz Hk. pose proof (digits_bound z Hz) as Hd.
  destruct (z * 2 ^ k) as [|p|p] eqn:Ep; try nia. cbn [binary_normalize]. unfold binary_round.
  rewrite digits2_log2, <- Ep, digits_shift, fexp_small by lia. unfold shl_align.
  replace (digits z + k + - k - 53 - - k) with (digits z - 53 + k) by lia.
  destruct (digits z - 53 + k) as [|n|n] eqn:En; [rewrite <- Ep; apply round_exact; lia..|].
  rewrite iter_xO, <- Ep, <- Z.mul_assoc, <- Z.pow_add_r by lia.
  replace (digits z + k + - k - 53) with (- (k + Z.pos n)) by lia. apply round_exact; lia.
Qed.
Lemma f64_of_exact z : 0 < z < TWO53 -> f64_of z = exact z.
Proof. intros Hz. rewrite <- (normalize_exact z 0) by lia. unfold f64_of. by rewrite Z.pow_0_r, Z.mul_1_r. Qed.

Lemma align_exact z k : 0 < z -> 53 - digits z <= k -> 0 <= 53 - digits z ->
  Z.pos (fst (shl_align (Z.to_pos (z * 2 ^ (53 - digits z))) (digits z - 53) (- k))) = z * 2 ^ k.
Proof.
  intros Hz Hk Hd. unfold shl_align. destruct (- k - (digits z - 53)) as [|n|n] eqn:En; [|lia|]; cbn [fst].
  - rewrite Z2Pos.id by nia. do 2 f_equal. lia.
  - rewrite iter_xO, Z2Pos.id, <- Z.mul_assoc, <- Z.pow_add_r by nia. do 2 f_equal. lia.
Qed.

Lemma f64_add_int a b : 0 <= a -> 0 <= b -> a + b < TWO53 -> f64_add (f64_of a) (f64_of b) = f64_of (a + b).
Proof.
  intros Ha Hb Hab. destruct (Z.eq_dec a 0) as [->|Na]; [|destruct (Z.eq_dec b 0) as [->|Nb]].
  - rewrite Z.add_0_l. destruct (Z.eq_dec b 0) as [->|Nb]; [done|]. by rewrite (f64_of_exact b) by lia.
  - rewrite Z.add_0_r. by rewrite (f64_of_exact a) by lia.
  - rewrite !f64_of_exact by lia. pose proof (digits_bound a ltac:(lia)). pose proof (digits_bound b ltac:(lia)).
    unfold f64_add, exact at 1 2. cbn [SFadd cond_Zopp].
    replace (Z.min (digits a - 53) (digits b - 53)) with (- (53 - Z.min (digits a) (digits b))) by lia.
    rewrite !align_exact by lia. rewrite <- Z.mul_add_distr_r. apply normalize_exact; lia.
Qed.
Lemma f64_double a : 0 <= a -> 2 * a < TWO53 -> f64_mul (f64_of 2) (f64_of a) = f64_of (2 * a).
Proof.
  intros Ha H2. destruct (Z.eq_dec a 0) as [->|Na]; [done|]. rewrite !(f64_of_exact a), (f64_of_exact (2 * a)) by lia.
  pose proof (digits_bound a ltac:(lia)). assert (digits (2 * a) = digits a + 1) as Hd.
  { unfold digits. rewrite Z.log2_double by lia. lia. }
  change (f64_of 2) with (S754_finite false 4503599627370496 (-51)). unfold f64_mul, exact at 1. cbn [SFmul xorb].
  rewrite Pos2Z.inj_mul, Z2Pos.id by nia. change 4503599627370496 with (2 ^ 52).
  replace (2 ^ 52 * (a * 2 ^ (53 - digits a))) with (2 * a * 2 ^ (51 + (53 - digits a)))
    by (rewrite Z.pow_add_r by lia; change (2 ^ 52) with (2 * 2 ^ 51); ring).
  replace (-51 + (digits a - 53)) with (- (51 + (53 - digits a))) by lia. apply round_exact; lia.
Qed.

(** *** Sums of counts

    A sum of counts is -0 when it is empty, and otherwise an integer. *)
Definition count : Type := option Z.
Definition of_count (c : count) : f64 := match c with Some z => f64_of z | None => S754_zero true end.
Definition count_add (a b : count) : count :=
  match a, b with
  | Some x, Some y => Some (x + y)
  | None, _ => b
  | _, None => a
  end.
Definition count_sum (l : list count) : count := foldr count_add None l.
Definition value (c : count) : Z := default 0 c.
Definition zsum (l : list Z) : Z := foldr Z.add 0 l.

#[export] Instance zsum_perm : Proper (Permutation ==> eq) zsum.
Proof. intros l1 l2. unfold zsum. induction 1; cbn; lia. Qed.
Lemma zsum_app l1 l2 : zsum (l1 ++ l2) = zsum l1 + zsum l2.
Proof. unfold zsum. induction l1; cbn; lia. Qed.
Lemma zsum_nonneg l : (forall x, x ∈ l -> 0 <= x) -> 0 <= zsum l.
Proof.
  induction l as [|x l IH]; intros H; cbn; [lia|]. fold (zsum l). assert (0 <= x) by (apply H; by left).
  assert (0 <= zsum l) by (apply IH; intros; apply H; by right). lia.
Qed.
Lemma zsum_elem l x : (forall y, y ∈ l -> 0 <= y) -> x ∈ l -> x <= zsum l.
Proof.
  intros H [l1 [l2 ->]]%list_elem_of_split. rewrite zsum_app. cbn. fold (zsum l2).
  assert (0 <= zsum l1) by (apply zsum_nonneg; intros; apply H; set_solver).
  assert (0 <= zsum l2) by (apply zsum_nonneg; intros; apply H; set_solver). lia.
Qed.

Lemma count_add_assoc a b c : count_add a (count_add b c) = count_add (count_add a b) c.
Proof. destruct a, b, c; cbn; try done. by rewrite Z.add_assoc. Qed.
Lemma count_add_comm a b : count_add a b = count_add b a.
Proof. destruct a, b; cbn; try done. by rewrite Z.add_comm. Qed.
Lemma count_sum_perm l1 l2 : l1 ≡ₚ l2 -> count_sum l1 = count_sum l2.
Proof.
  unfold count_sum. induction 1 as [|x l1 l2 _ IH|x y l|? ? ? _ IH1 _ IH2]; cbn; [done|by rewrite IH| |congruence].
  by rewrite !count_add_assoc, (count_add_comm y x).
Qed.
Lemma count_sum_value l : value (count_sum l) = zsum (map value l).
Proof.
  unfold count_sum, zsum. induction l as [|x l IH]; [done|]. cbn [foldr map]. rewrite <- IH.
  destruct x as [x|], (foldr count_add None l) as [y|]; cbn; lia.
Qed.

Lemma of_count_add a b : 0 <= value a -> 0 <= value b -> value a + value b < TWO53 ->
  f64_add (of_count a) (of_count b) = of_count (count_add a b).
Proof.
  destruct a as [a|], b as [b|]; cbn [value default of_count count_add id]; intros Ha Hb Hab; try done.
  - by apply f64_add_int.
  - destruct (Z.eq_dec a 0) as [->|N]; [done|]. by rewrite f64_of_exact by lia.
  - destruct (Z.eq_dec b 0) as [->|N]; [done|]. by rewrite f64_of_exact by lia.
Qed.
Lemma f64_sum_counts l : (forall c, c ∈ l -> 0 <= value c) -> zsum (map value l) < TWO53 ->
  f64_sum (map of_count l) = of_count (count_sum l).
Proof.
  assert (forall acc, 0 <= value acc -> (forall c, c ∈ l -> 0 <= value c) -> value acc + zsum (map value l) < TWO53 ->
    foldl f64_add (of_count acc) (map of_count l) = of_count (count_add acc (count_sum l))) as H.
  { induction l as [|x l IH]; intros acc Ha Hl Hs; cbn [map foldl count_sum foldr].
    - by destruct acc.
    - cbn in Hs. fold (zsum (map value l)) in Hs. assert (0 <= value x) by (apply Hl; by left).
      assert (forall c, c ∈ l -> 0 <= value c) as Hl' by (intros; apply Hl; by right).
      assert (0 <= zsum (map value l)) by (apply zsum_nonneg; intros y (c & -> & Hc)%list_elem_of_fmap; auto).
      rewrite of_count_add by lia. fold (count_sum l).
      assert (value (count_add acc x) = value acc + value x) by (destruct acc, x; cbn; lia).
      rewrite IH, count_add_assoc by (try done; lia). done. }
  intros Hl Hs. apply (H None); cbn; [lia|done|done].
Qed.
(** The order of the terms does not matter. *)
Lemma f64_sum_perm l' l : l' ≡ₚ map of_count l -> (forall c, c ∈ l -> 0 <= value c) -> zsum (map value l) < TWO53 ->
  f64_sum l' = of_count (count_sum l).
Proof.
  intros (l2 & -> & Hp)%Permutation_map_inv Hl Hs. rewrite (count_sum_perm l l2 Hp). apply f64_sum_counts.
  - intros c. rewrite <- Hp. apply Hl.
  - by rewrite <- Hp.
Qed.
