(* ===== verification/Agents.v ===== *)
(** * The agents and what they are granted

    Models [crates/zen-agents/src/registry.rs] and agent_profile.rs (the profiles,
    less the texts of their definitions and their prices), delegate_tools.rs (the
    grants of tools: builtin table and configured overlay) and
    aggregate_weights.rs (the order of a batch's results).  The registry of tools
    is the list of the names registered in it. *)

From S2P Require Import Prelude Types Json Text Router ToolHooks Ordering.
From Stdlib Require Import Lia SpecFloat.
Local Open Scope list_scope.
Local Open Scope string_scope.

(** ** Profiles *)

Inductive Role := RoleOrchestrator | Planner | Specialist | Worker.
Inductive Capability :=
  | CodeReview | DesignReview | Research | Testing | Documentation | Deployment | Debugging | Refactoring
  | Architecture | SecurityAudit | PerformanceOptimization | TaskExecution | SessionManagement
  | SpecificationWriting | CodeGeneration | KnowledgeManagement | MemoryManagement | Analysis | Automation.
Inductive AgentClearance := Low | Medium | High.
#[export] Instance Role_eq : EqDecision Role.
Proof. solve_decision. Defined.
#[export] Instance Capability_eq : EqDecision Capability.
Proof. solve_decision. Defined.

Definition role_str (r : Role) : string :=
  match r with RoleOrchestrator => "Orchestrator" | Planner => "Planner" | Specialist => "Specialist" | Worker => "Worker" end.
Definition clearance_rank (c : AgentClearance) : nat := match c with Low => 0 | Medium => 1 | High => 2 end.

Record AgentProfile := {
  ap_name : string; role : Role; capabilities : list Capability; llm_preferences : list LlmPreference;
  max_sensitivity : AgentClearance;
}.

Definition has_all_capabilities (p : AgentProfile) (required : list Capability) : bool :=
  forallb (fun cap => bool_decide (cap ∈ capabilities p)) required.
Definition can_handle_sensitivity (p : AgentProfile) (level : AgentClearance) : bool :=
  (clearance_rank level <=? clearance_rank (max_sensitivity p))%nat.

(** ** The registry of agents *)

Definition profile (n : string) (r : Role) (caps : list Capability) (prefs : list LlmPreference) (c : AgentClearance) : AgentProfile :=
  {| ap_name := n; role := r; capabilities := caps; llm_preferences := prefs; max_sensitivity := c |}.
Definition builtin_agents : list AgentProfile :=
  [profile "Sisyphus" RoleOrchestrator [TaskExecution; SessionManagement; Architecture; Analysis; Automation] [Any] High;
   profile "Junior" Worker [TaskExecution; CodeGeneration; Debugging; Testing; Documentation] [Any] Medium;
   profile "Hermes" Worker [TaskExecution; SessionManagement; Automation; Analysis] [Any] High;
   profile "Metis" Planner [Architecture; SpecificationWriting; Analysis; Research] [Any] Medium;
   profile "Momus" Planner [CodeReview; Architecture; SecurityAudit] [Any] Medium;
   profile "Oracle" Specialist [Analysis; Research; Architecture] [Any] High;
   profile "Prometheus" Planner [SpecificationWriting; Architecture; Analysis; CodeGeneration] [Any] Medium;
   profile "Explore" Specialist [Research; Analysis; Documentation] [CloudOnly] Low;
   profile "Librarian" Specialist [KnowledgeManagement; MemoryManagement; Documentation; Research] [Any] High;
   profile "Argus" Specialist [Research; Analysis; Documentation] [Any] Medium;
   profile "Hephaestus" Worker [TaskExecution; CodeGeneration; Architecture; Debugging; Refactoring; Testing] [Any] High;
   profile "Atlas" Worker [TaskExecution; Automation; Analysis] [Any] Medium;
   profile "Zeus" Planner [Architecture; SecurityAudit; Analysis] [Any] High].

Abbreviation agent_registry := (gmap string AgentProfile).
Definition default_registry : agent_registry := foldl (fun m p => <[ap_name p := p]> m) ∅ builtin_agents.

Inductive RegistryError := AgentNotFound (name : string) | DuplicateAgent (name : string).
Definition registry_error_str (e : RegistryError) : string :=
  match e with AgentNotFound n => "agent not found: " ++ n | DuplicateAgent n => "agent already registered: " ++ n end.

Definition register_agent (p : AgentProfile) (reg : agent_registry) : result unit RegistryError * agent_registry :=
  match reg !! ap_name p with
  | Some _ => (Err (DuplicateAgent (ap_name p)), reg)
  | None => (Ok tt, <[ap_name p := p]> reg)
  end.
Definition find_by_name (name : string) (reg : agent_registry) : result AgentProfile RegistryError :=
  match reg !! name with Some p => Ok p | None => Err (AgentNotFound name) end.
Definition list_all (reg : agent_registry) : list AgentProfile := (map_to_list reg).*2.
Definition find_by_role (r : Role) (reg : agent_registry) : list AgentProfile := filter (fun p => role p = r) (list_all reg).
Definition find_by_capability (required : list Capability) (reg : agent_registry) : list AgentProfile :=
  filter (fun p => has_all_capabilities p required = true) (list_all reg).
Definition filter_by_sensitivity (level : AgentClearance) (reg : agent_registry) : list AgentProfile :=
  filter (fun p => can_handle_sensitivity p level = true) (list_all reg).

(** ** Grants *)

Definition AGENT_SKILLS : list (string * list string) :=
  [("Sisyphus", ["zen-notion-extraction"; "zen-wiki-compilation"; "zen-consolidation-pipeline"]);
   ("Junior", ["zen-wiki-compilation"]);
   ("Hermes", ["zen-consolidation-pipeline"]);
   ("Metis", ["zen-notion-extraction"; "zen-contradiction-detection"]);
   ("Momus", ["zen-vault-learning-loop"]);
   ("Oracle", ["zen-notion-extraction"; "zen-vault-learning-loop"; "zen-contradiction-detection"]);
   ("Prometheus", ["zen-wiki-compilation"; "zen-notion-extraction"]);
   ("Explore", ["zen-vault-learning-loop"]);
   ("Librarian", ["zen-wiki-compilation"; "zen-vault-learning-loop"]);
   ("Argus", ["zen-vault-learning-loop"]);
   ("Hephaestus", ["zen-notion-extraction"; "zen-wiki-compilation"; "zen-consolidation-pipeline";
     "zen-contradiction-detection"]);
   ("Atlas", ["zen-wiki-compilation"]);
   ("Zeus", ["zen-notion-extraction"; "zen-contradiction-detection"])].
Definition AGENT_TOOLS : list (string * list string) :=
  [("Sisyphus", ["tier2_search"; "tier3_search"; "tier4_search"; "compute_embeddings"; "fs.read"; "fs.list";
     "fs.glob"; "fs.grep"; "fs.write"; "fs.edit"; "fs.delete"; "fs.move"; "fs.copy"; "web.fetch"; "web.search";
     "shell.exec"; "shell.collect"; "shell.kill"; "system.health"; "system.notifications"; "system.calendar";
     "system.daemon"; "system.fs_watcher"]);
   ("Junior", ["tier2_search"; "compute_embeddings"; "fs.read"; "fs.list"; "fs.glob"; "fs.grep"; "fs.write";
     "fs.edit"; "fs.delete"; "fs.move"; "fs.copy"; "web.fetch"; "web.search"]);
   ("Hermes", ["tier2_search"; "tier3_search"; "tier4_search"; "fs.read"; "fs.list"; "fs.glob"; "fs.grep";
     "web.fetch"; "web.search"]);
   ("Metis", ["tier2_search"; "fs.read"; "fs.list"; "fs.glob"; "fs.grep"; "web.fetch"; "web.search"]);
   ("Momus", ["tier2_search"; "tier3_search"; "tier4_search"; "fs.read"; "fs.list"; "fs.glob"; "fs.grep";
     "web.fetch"; "web.search"]);
   ("Oracle", ["tier2_search"; "tier3_search"; "tier4_search"; "fs.read"; "fs.list"; "fs.glob"; "fs.grep";
     "web.fetch"; "web.search"]);
   ("Prometheus", ["compute_embeddings"; "fs.read"; "fs.list"; "fs.glob"; "fs.grep"; "web.fetch"; "web.search"]);
   ("Explore", ["tier2_search"; "fs.read"; "fs.list"; "fs.glob"; "fs.grep"; "web.fetch"; "web.search"]);
   ("Librarian", ["tier2_search"; "compute_embeddings"; "fs.read"; "fs.list"; "fs.glob"; "fs.grep";
     "web.fetch"; "web.search"]);
   ("Argus", ["tier2_search"; "fs.read"; "fs.list"; "fs.glob"; "fs.grep"; "web.fetch"; "web.search"]);
   ("Hephaestus", ["tier2_search"; "tier3_search"; "tier4_search"; "compute_embeddings"; "fs.read"; "fs.list";
     "fs.glob"; "fs.grep"; "fs.write"; "fs.edit"; "fs.delete"; "fs.move"; "fs.copy"; "web.fetch"; "web.search";
     "system.health"; "system.daemon"; "system.fs_watcher"; "plugin.wasm_sandbox"]);
   ("Atlas", ["tier2_search"; "compute_embeddings"; "fs.read"; "fs.list"; "fs.glob"; "fs.grep"; "fs.write";
     "fs.edit"; "fs.delete"; "fs.move"; "fs.copy"; "web.fetch"; "web.search"; "system.calendar"]);
   ("Zeus", ["tier2_search"; "tier3_search"; "tier4_search"; "fs.read"; "fs.list"; "fs.glob"; "fs.grep";
     "web.fetch"; "web.search"; "system.notifications"])].
Definition BUILTIN_AGENT_NAMES : list string :=
  ["Sisyphus"; "Junior"; "Hermes"; "Metis"; "Momus"; "Oracle"; "Prometheus"; "Explore"; "Librarian"; "Argus";
   "Hephaestus"; "Atlas"; "Zeus"].
Definition is_builtin_agent (name : string) : bool := bool_decide (name ∈ BUILTIN_AGENT_NAMES).

(** The row of a table, empty for an unknown agent. *)
Definition row_of (table : list (string * list string)) (agent : string) : list string :=
  default [] (snd <$> (List.find (fun r => String.eqb r.1 agent) table)).
Definition resolve_skill_ids (agent : string) : list string := row_of AGENT_SKILLS agent.
Definition resolve_tool_ids (agent : string) : list string := row_of AGENT_TOOLS agent.

Inductive ToolGrantPattern := Exact (name : string) | Prefix (prefix : string) | AllPlugins.

Definition parse_pattern (pattern : string) : ToolGrantPattern :=
  if String.eqb pattern "plugin:*" then AllPlugins
  else match strip_suffix (utf8 pattern) (utf8 ".*") with
       | Some prefix => Prefix (to_string prefix)
       | None => Exact pattern
       end.

Definition is_builtin_tool_name (name : string) : bool := existsb (fun r => bool_decide (name ∈ r.2)) AGENT_TOOLS.

(** The part of a name before its first dot. *)
Definition namespace_of (name : string) : string := to_string (default (utf8 name) (head (split_on 46%N (utf8 name)))).
Definition is_plugin_tool (name : string) : bool :=
  contains (utf8 name) (utf8 ".") && negb (is_builtin_tool_name name)
  && negb (bool_decide (namespace_of name ∈ RESERVED_NAMESPACE_PREFIXES)).

Definition matches_tool (p : ToolGrantPattern) (tool : string) : bool :=
  match p with
  | Exact name => String.eqb tool name
  | Prefix prefix => match strip_prefix (utf8 tool) (utf8 prefix) with Some rest => starts_with rest (utf8 ".") | None => false end
  | AllPlugins => is_plugin_tool tool
  end.

(** The loops over the overlay and over the registered names. *)
Definition grant_one (p : ToolGrantPattern) (granted : list string) (name : string) : list string :=
  if matches_tool p name && negb (bool_decide (name ∈ granted)) then (granted ++ [name])%list else granted.
Definition grant_pattern (registered : list string) (granted : list string) (pattern : string) : list string :=
  fold_left (grant_one (parse_pattern pattern)) registered granted.
Definition resolve_agent_tool_grants (agent : string) (overlay registered : list string) : list string :=
  filter (fun name => name ∈ registered) (fold_left (grant_pattern registered) overlay (resolve_tool_ids agent)).

(** ** Properties of grants *)

(** A tool that the overlay matches. *)
Definition overlaid (overlay : list string) (tool : string) : Prop :=
  Exists (fun pattern => matches_tool (parse_pattern pattern) tool = true) overlay.

Lemma grant_one_elem p granted registered x :
  x ∈ fold_left (grant_one p) registered granted <-> x ∈ granted \/ (x ∈ registered /\ matches_tool p x = true).
Proof.
  revert granted. induction registered as [|y l IH]; intros granted; cbn [fold_left].
  { split; [by left|]. intros [?|[?%elem_of_nil _]]; done. }
  rewrite IH. unfold grant_one. destruct (matches_tool p y) eqn:M; cbn [andb].
  - case_bool_decide; cbn [negb]; rewrite ?elem_of_app, ?elem_of_cons, ?elem_of_nil; naive_solver.
  - rewrite elem_of_cons. naive_solver congruence.
Qed.
Lemma grant_one_NoDup p granted registered : NoDup granted -> NoDup (fold_left (grant_one p) registered granted).
Proof.
  revert granted. induction registered as [|y l IH]; intros granted H; cbn [fold_left]; [done|].
  apply IH. unfold grant_one. destruct (matches_tool p y); cbn [andb]; [|done].
  case_bool_decide; cbn [negb]; [done|]. apply NoDup_app. split_and!; [done| |apply NoDup_singleton]. set_solver.
Qed.
Lemma grants_elem overlay registered granted x :
  x ∈ fold_left (grant_pattern registered) overlay granted <-> x ∈ granted \/ (x ∈ registered /\ overlaid overlay x).
Proof.
  revert granted. induction overlay as [|p l IH]; intros granted; cbn [fold_left].
  { unfold overlaid. rewrite Exists_nil. naive_solver. }
  rewrite IH. unfold grant_pattern. rewrite grant_one_elem. unfold overlaid. rewrite Exists_cons. naive_solver.
Qed.
Lemma grants_NoDup overlay registered granted : NoDup granted -> NoDup (fold_left (grant_pattern registered) overlay granted).
Proof.
  revert granted. induction overlay as [|p l IH]; intros granted H; cbn [fold_left]; [done|].
  by apply IH, grant_one_NoDup.
Qed.
Lemma builtin_NoDup agent : NoDup (resolve_tool_ids agent).
Proof.
  unfold resolve_tool_ids, row_of. destruct (List.find _ AGENT_TOOLS) as [r|] eqn:F; [|constructor].
  apply find_some in F as [F _]. cbn [fmap option_fmap option_map default].
  assert (Forall (fun r : string * list string => NoDup r.2) AGENT_TOOLS) as H by (apply (bool_decide_unpack _); vm_compute; exact I).
  rewrite Forall_forall in H. apply H. by apply list_elem_of_In.
Qed.

(** What an agent is granted: the tools of its row and those its overlay matches,
    as far as they are registered, each once. *)
Lemma grants_exact agent overlay registered :
  NoDup (resolve_agent_tool_grants agent overlay registered)
  /\ forall tool, tool ∈ resolve_agent_tool_grants agent overlay registered
     <-> tool ∈ registered /\ (tool ∈ resolve_tool_ids agent \/ overlaid overlay tool).
Proof.
  unfold resolve_agent_tool_grants. split; [apply NoDup_filter, grants_NoDup, builtin_NoDup|].
  intros tool. rewrite list_elem_of_filter, grants_elem. naive_solver.
Qed.

(** The pattern for plugins matches the two tools that delegate, which the
    process registers and no plugin does: with it every agent has them. *)
Example plugins_pattern_delegates :
  resolve_agent_tool_grants "Explore" ["plugin:*"] ["fs.read"; "fs.write"; "delegate.task"; "plan.execute"; "echo.hello"]
  = ["fs.read"; "delegate.task"; "plan.execute"; "echo.hello"].
Proof. by vm_compute. Qed.

(** ** Weights of a batch's results *)

Definition WEIGHT_WINDOW : nat := 100.
Abbreviation f32 := spec_float.
Definition f32_of (n : nat) : f32 := binary_normalize 24 128 (Z.of_nat n) 0 false.
Definition LAPLACE_PRIOR : f32 := f32_of 1.
(** 0.5 *)
Definition NEUTRAL_WEIGHT : f32 := SFdiv 24 128 (f32_of 1) (f32_of 2).

Record GateObservation := { agent_seen : string; seen_ok : bool }.

Section weights.
Context {V : Type} {HJson : Json V} (j_parse : text -> result V text).

Definition observe (agent : option string) (ok : option bool) : list GateObservation :=
  match agent with Some a => [{| agent_seen := a; seen_ok := default false ok |}] | None => [] end.

(** What a line of the audit log says; the lines come in order, and the sort by
    their numbers changes nothing. *)
Definition line_observations (line : text) : list GateObservation :=
  let line := trim line in
  if bool_decide (line = []) then []
  else match j_parse line with
       | Err _ => []
       | Ok value =>
         let kind := j_get value "kind" ≫= j_as_str in
         if bool_decide (kind = Some "loop.delegate.outcome") then
           observe (j_get value "agent" ≫= j_as_str) (j_get value "ok" ≫= j_as_bool)
         else if bool_decide (kind = Some "loop.delegate.gates") then
           match j_get value "gates" ≫= j_as_array with
           | Some gates => flat_map (fun g => observe (j_get g "agent" ≫= j_as_str) (j_get g "bounded" ≫= j_as_bool)) gates
           | None => []
           end
         else []
       end.
Definition parse_gate_observations (audit_jsonl : text) : list GateObservation :=
  flat_map line_observations (lines audit_jsonl).

(** Successes and trials. *)
Definition count_one (totals : gmap string (nat * nat)) (o : GateObservation) : gmap string (nat * nat) :=
  let '(s, t) := default (0, 0)%nat (totals !! agent_seen o) in
  <[agent_seen o := ((if seen_ok o then S s else s), S t)]> totals.
Definition rate (c : nat * nat) : f32 :=
  SFdiv 24 128 (SFadd 24 128 (f32_of c.1) LAPLACE_PRIOR)
    (SFadd 24 128 (f32_of c.2) (SFmul 24 128 (f32_of 2) LAPLACE_PRIOR)).
Definition success_rates (observations : list GateObservation) : gmap string f32 :=
  rate <$> fold_left count_one (drop (length observations - WEIGHT_WINDOW) observations) ∅.

Definition weight_of (weights : gmap string f32) (value : V) : f32 :=
  default NEUTRAL_WEIGHT (a ← j_get value "agent" ≫= j_as_str; weights !! a).
Definition order_values_by_weight (weights : gmap string f32) (results : list V) : list V :=
  if bool_decide (weights = ∅) || (length results <? 2)%nat then results
  else sort_by (fun a b => float_lt (weight_of weights b) (weight_of weights a)) results.

(** A batch is only reordered: every result is kept as it is, those of equal
    weight in their order, those of a higher weight first; without weights the
    order does not change. *)
Lemma weights_reorder weights results : map_Forall (fun _ w => is_number w) weights ->
  order_values_by_weight weights results ≡ₚ results
  /\ (forall w, filter (fun v => weight_of weights v = w) (order_values_by_weight weights results)
      = filter (fun v => weight_of weights v = w) results)
  /\ (weights <> ∅ -> ordered (fun a b => float_lt (weight_of weights b) (weight_of weights a))
        (order_values_by_weight weights results))
  /\ (weights = ∅ -> order_values_by_weight weights results = results).
Proof.
  intros Hw. unfold order_values_by_weight.
  assert (forall v, is_number (weight_of weights v)) as N.
  { intros v. unfold weight_of. destruct (j_get v "agent" ≫= j_as_str) as [a|]; cbn; [|done].
    destruct (weights !! a) as [x|] eqn:E; [by apply (Hw a x)|done]. }
  case_bool_decide as E; cbn [orb]; [by split_and!|].
  destruct (Nat.ltb_spec (length results) 2) as [L|L].
  { split_and!; [done..| |done]. intros _ i j x y Hij Hi Hj. apply lookup_lt_Some in Hi, Hj. lia. }
  split_and!; [apply sort_by_perm| | |done].
  - intros w. apply sort_by_stable. intros a b _ _ <- Hb. rewrite Hb.
    apply not_true_iff_false. intros H. pose proof (float_lt_asym _ _ (N a) (N a) H). congruence.
  - intros _. apply (sort_by_ordered _ _ (H := by_score (weight_of weights))). by apply Forall_forall.
Qed.
End weights.
