(* ===== verification/Delegation.v ===== *)
(** * Delegation to sub-agents

    Models [crates/zen-agents/src/delegate_task.rs]: the arguments of
    [delegate.task], the gates, the session a sub-agent inherits, its loop of at
    most four rounds, what is lifted out of its answer, and the batch of results.
    A sub-agent that holds the tool delegates in turn: [invoke] recurses on the
    depth that is left.  What the model replies, what other tools do, the token
    budget, the clock and the cells that the orchestrator writes are the class
    [SubTurns]; the loop over a round's calls is rig's ([Dispatcher]).  The
    sub-turns of a chunk are run in order: whatever each would see of the others
    when they interleave is among the answers the environment may give. *)

From S2P Require Import Prelude Types Json Text Sandbox ToolHooks ToolText Router Agents PlanExec.
From Stdlib Require Import Lia.
Local Open Scope list_scope.
Local Open Scope string_scope.

Definition DELEGATE_TOOL_NAME : string := "delegate.task".
Definition PLAN_TOOL_NAME : string := "plan.execute".
Definition DELEGATE_ROOT_PARENT : string := "Sisyphus".
Definition MAX_DELEGATE_ROUNDS : nat := 4.
Definition BOUNDED_PROMPT_CHARS : N := 32000.
Definition ADVISORY_TOKEN_LINE : N := 50000.
Definition FANOUT_MAX_TASKS : nat := 8.
Definition ARTIFACT_SUMMARY_MAX_CHARS : nat := 4000.
Definition KNOWLEDGE_BUDGET_CHARS_MIN : nat := 512.
Definition M1_TOP_K : nat := 5.

Definition len (s : string) : N := N.of_nat (String.length s).
Definition in_quotes (s : string) : string := to_string (quoted (utf8 s)).

(** ** Configuration *)

Record DelegateConfig := {
  cfg_enabled : option bool; cfg_timeout_secs : option N; cfg_max_depth : option N; cfg_max_concurrent : option N;
}.
Definition clamp (lo hi x : N) : N := N.min hi (N.max lo x).
Definition enabled_or_default (c : DelegateConfig) : bool := default true (cfg_enabled c).
Definition timeout_or_default (c : DelegateConfig) : N := clamp 30 1800 (default 300%N (cfg_timeout_secs c)).
Definition max_depth_or_default (c : DelegateConfig) : N := clamp 1 3 (default 1%N (cfg_max_depth c)).
Definition max_concurrent_or_default (c : DelegateConfig) : N := clamp 1 8 (default 4%N (cfg_max_concurrent c)).

(** ** Requests *)

Record DelegateContract := { output_format : option string; task_boundaries : option string }.
Definition no_contract : DelegateContract := {| output_format := None; task_boundaries := None |}.
Record ParsedDelegate := { request : DelegateRequest; contract : DelegateContract }.

Section requests.
Context {V : Type} {HJson : Json V}.

Definition str_field (args : V) (key : string) : option string := j_get args key ≫= j_as_str.

Definition optional_nonempty_string (args : V) (key : string) : result (option string) string :=
  match j_get args key with
  | None => Ok None
  | Some v =>
    if j_is_null v then Ok None
    else match j_as_str v with
         | Some value =>
           if bool_decide (trim (utf8 value) = []) then Err (in_quotes key ++ " must not be empty when present") else Ok (Some value)
         | None => Err (in_quotes key ++ " must be a string when present")
         end
  end.

(** The fields but the agent and the prompt. *)
Definition parse_rest (item : V) (agent prompt : string) : result ParsedDelegate string :=
  let? artifact := optional_nonempty_string item "artifact" in
  let? format := optional_nonempty_string item "output_format" in
  let? boundaries := optional_nonempty_string item "task_boundaries" in
  Ok {| request := {| r_agent := agent; r_prompt := prompt; r_description := str_field item "description";
                      r_independent := default true (j_get item "independent" ≫= j_as_bool); r_artifact := artifact |};
        contract := {| output_format := format; task_boundaries := boundaries |} |}.

Definition parse_task (item : V) : result ParsedDelegate string :=
  match str_field item "agent" with
  | None => Err ("each tasks[] item requires an " ++ in_quotes "agent" ++ " string")
  | Some agent =>
    match str_field item "prompt" with
    | None => Err ("each tasks[] item requires a " ++ in_quotes "prompt" ++ " string")
    | Some prompt => parse_rest item agent prompt
    end
  end.
Fixpoint parse_items (items : list V) : result (list ParsedDelegate) string :=
  match items with
  | [] => Ok []
  | item :: rest => let? t := parse_task item in let? ts := parse_items rest in Ok (t :: ts)
  end.

Definition cap_error (n : nat) : string :=
  "fan-out batch of " ++ pretty n ++ " tasks exceeds the hard cap of " ++ pretty FANOUT_MAX_TASKS
  ++ "; split the work into batches of at most " ++ pretty FANOUT_MAX_TASKS ++ " independent tasks".

Definition parse_requests (args : V) : result (list ParsedDelegate) string :=
  match j_get args "tasks" ≫= j_as_array with
  | Some arr =>
    if (FANOUT_MAX_TASKS <? length arr)%nat then Err (cap_error (length arr))
    else
      let? tasks := parse_items arr in
      match tasks with [] => Err "tasks[] must not be empty" | _ :: _ => Ok tasks end
  | None =>
    match str_field args "agent" with
    | None => Err ("delegate.task requires an " ++ in_quotes "agent" ++ " string argument (or tasks[])")
    | Some agent =>
      match str_field args "prompt" with
      | None => Err ("delegate.task requires a " ++ in_quotes "prompt" ++ " string argument (or tasks[])")
      | Some prompt => let? t := parse_rest args agent prompt in Ok [t]
      end
    end
  end.
End requests.

(** ** The brief of a sub-agent *)

Definition labeled_section (c : DelegateContract) : option string :=
  match output_format c, task_boundaries c with
  | None, None => None
  | format, boundaries =>
    Some (nl ++ nl ++ "---" ++ nl ++ "Delegation contract:"
          ++ match format with Some f => nl ++ "OUTPUT FORMAT:" ++ nl ++ f | None => "" end
          ++ match boundaries with Some b => nl ++ "TASK BOUNDARIES:" ++ nl ++ b | None => "" end
          ++ nl ++ "---")
  end.
Definition REPORT_REQUEST : string :=
  nl ++ nl ++ "---" ++ nl ++ "When you have finished, end your answer with two optional lines:" ++ nl
  ++ "REASONING: <one sentence on your approach>" ++ nl ++ "VERIFICATION: <how you checked the result>" ++ nl ++ "---".
Definition compose_sub_prompt (req : DelegateRequest) (c : DelegateContract) : string :=
  r_prompt req ++ default "" (labeled_section c)
  ++ match r_artifact req with
     | Some artifact =>
       nl ++ nl ++ "---" ++ nl ++ "ARTIFACT OUTPUT: write your full deliverable to the file at this exact path using the fs.write tool, then state the path in your answer: "
       ++ artifact ++ nl ++ "---"
     | None => ""
     end
  ++ REPORT_REQUEST.

(** ** What is lifted out of an answer *)

(** The first bytes of a text, when they end between two characters. *)
Fixpoint split_at_byte (n : nat) (t : text) : option (text * text) :=
  match n, t with
  | O, _ => Some ([], t)
  | S _, [] => None
  | S _, c :: r =>
    if (len_utf8 c <=? n)%nat then '(a, b) ← split_at_byte (n - len_utf8 c) r; Some (c :: a, b) else None
  end.
Definition take_marker (line : text) (marker : string) : option text :=
  '(start, rest) ← split_at_byte (String.length marker) (trim_start line);
  if bool_decide (lower start = utf8 marker) then Some (trim rest) else None.

Record Report := { prose : list text; reasoning : option text; verification : option text; lifted : bool }.
Definition lift_line (r : Report) (line : text) : Report :=
  match take_marker line "reasoning:" with
  | Some value => {| prose := prose r; reasoning := Some value; verification := verification r; lifted := true |}
  | None =>
    match take_marker line "verification:" with
    | Some value => {| prose := prose r; reasoning := reasoning r; verification := Some value; lifted := true |}
    | None => {| prose := (prose r ++ [line])%list; reasoning := reasoning r; verification := verification r; lifted := lifted r |}
    end
  end.
Definition no_report : Report := {| prose := []; reasoning := None; verification := None; lifted := false |}.
Definition split_report_markers (response : text) : text * option text * option text :=
  let r := fold_left lift_line (lines response) no_report in
  if lifted r then (trim_end (join_lines (prose r)), reasoning r, verification r) else (response, None, None).

Definition bounded_summary (t : text) : text :=
  (take ARTIFACT_SUMMARY_MAX_CHARS t ++ if (ARTIFACT_SUMMARY_MAX_CHARS <? length t)%nat then utf8 "…[truncated]" else [])%list.

(** ** The environment of sub-turns *)

(** [zen_core::types::RetrievedNote], less its relevance. *)
Record Note := { n_path : string; n_content : text; n_sensitivity : Sensitivity }.
Record SubSession := { ss_agent : string; ss_policy : Sensitivity; ss_knowledge : list Note }.
Record SubAgent := { sa_name : string; sa_skills : list string; sa_tools : list string }.

(** [W]: everything outside, which concurrent turns change too. *)
Class SubTurns (V W : Type) := {
  j_parse_block : text -> result V text;
  normalize_call : string -> V -> result (ToolInvocation (V := V)) text;
  (* [context_inheritance] and [knowledge_budget_chars], clamped, or the error of loading them *)
  inheritance_config : W -> result (bool * nat) text;
  sensitivity_cell : W -> Sensitivity;
  knowledge_cell : W -> list Note;
  (* what [inject_skill_hits_into] finds for a prompt: a skill and its note *)
  skill_hit : string -> W -> option (string * Note);
  can_build : SubAgent -> W -> bool;
  reserve_tokens : N -> W -> result bool text * W;
  record_usage : N -> W -> W;
  (* [execute_round], on the prompt and the feedback *)
  run_round : SubAgent -> SubSession -> string -> text -> W -> result text text * W;
  clock : W -> N;
  use_tool : ToolInvocation (V := V) -> W -> result V KernelError * W;
  error_text : KernelError -> text;
}.

(** The loop of rig over the calls of a round, with its hooks, given how one tool runs. *)
Class Dispatcher (V D : Type) := {
  dispatch : (ToolInvocation (V := V) -> D -> result V KernelError * D) -> list string -> list (ToolInvocation (V := V)) -> D ->
    result (list (ToolInvocation (V := V) * V)) KernelError * D;
}.

(** The sub-turns that were started, the rounds they ran and the lines written to the
    audit log, in order. *)
Inductive event (V : Type) :=
  | Spawned (parent child : string) (depth : nat) (tools : list string)
  | Ran (child : string) (depth : nat) (policy : Sensitivity)
  | Reserved (tokens : N) | Settled (tokens : N)
  | AuditLine (entry : list (string * V)).
Arguments Spawned {V}.
Arguments Ran {V}.
Arguments Reserved {V}.
Arguments Settled {V}.
Arguments AuditLine {V}.
Record sub_world (V W : Type) := { outer : W; events : list (event V) }.
Arguments outer {V W}.
Arguments events {V W}.

(** [DelegateTaskTool]; the width is clamped to at least one by the configuration. *)
Record DelegateTool := {
  overlay : list string; registered : list string; timeout_ns : N; max_depth : nat; max_concurrent : positive;
  weights : gmap string f32; sandbox_mode : SandboxMode; workspace_root : option path;
}.
Definition tool_of_config (c : DelegateConfig) (overlay registered : list string) (mode : SandboxMode) (root : option path) : DelegateTool :=
  {| overlay := overlay; registered := registered; timeout_ns := timeout_or_default c * 10 ^ 9;
     max_depth := N.to_nat (max_depth_or_default c); max_concurrent := N.succ_pos (max_concurrent_or_default c - 1);
     weights := ∅; sandbox_mode := mode; workspace_root := root |}.

Section delegation.
Context {V : Type} {HJson : Json V} {W : Type} {HSub : SubTurns V W} {HFS : FileSystem}.
Abbreviation world := (sub_world V W).
Context {HDisp : Dispatcher V world}.
Context (tool : DelegateTool).
Implicit Types (d : world).

Definition set_outer (w : W) (d : world) : world := {| outer := w; events := events d |}.
Definition log (e : event V) (d : world) : world := {| outer := outer d; events := (events d ++ [e])%list |}.

(** ** Gates *)

(** [role_of]. *)
Definition role_of (name : string) : result Role string :=
  match find_by_name name default_registry with
  | Ok p => Ok (role p)
  | Err e => Err ("no profile for agent " ++ in_quotes name ++ ": " ++ registry_error_str e)
  end.
Definition may_spawn (parent child : Role) : bool :=
  match parent with
  | RoleOrchestrator => negb (bool_decide (child = RoleOrchestrator))
  | Planner => match child with RoleOrchestrator | Planner => false | _ => true end
  | Specialist | Worker => false
  end.
Definition spawn_allowed (parent child : string) : result unit string :=
  let? parent_role := role_of parent in
  let? child_role := role_of child in
  if may_spawn parent_role child_role then Ok tt
  else Err ("spawn hierarchy violation: " ++ role_str parent_role ++ " cannot spawn " ++ role_str child_role ++ " (001 arch A.1)").

Record GateReport := { independent : bool; consumer_decision : bool; bounded : bool; worth_it : bool }.
Definition evaluate_gates (task : DelegateRequest) (batch_width : nat) : GateReport :=
  {| independent := r_independent task; consumer_decision := (batch_width <=? 4)%nat;
     bounded := (len (r_prompt task) <=? BOUNDED_PROMPT_CHARS)%N;
     worth_it := (len (r_prompt task) / 4 + 1024 <=? ADVISORY_TOKEN_LINE)%N |}.

Definition validate_artifact_path (agent p : string) : result unit (string + refusal) :=
  if bool_decide ("fs.write" ∈ resolve_agent_tool_grants agent (overlay tool) (registered tool)) then
    match validate_path_for_write (new_validator (sandbox_mode tool) (match workspace_root tool with Some w => [w] | None => [] end))
            (components (utf8 p)) with
    | Ok _ => Ok tt
    | Err r => Err (inr r)
    end
  else Err (inl ("agent " ++ in_quotes agent ++ " has no fs.write grant; it cannot produce an artifact")).

(** The message of a refused path, given how a refusal reads. *)
Context (refusal_str : refusal -> string -> string).
Definition artifact_error (p : string) (e : string + refusal) : string :=
  match e with inl msg => msg | inr r => "artifact path rejected: " ++ refusal_str r p end.

Definition unbounded_error : string := "unbounded delegation rejected: prompt exceeds the bounded-task limit".
Definition validate_request (parent : string) (depth : nat) (task : DelegateRequest) : option string :=
  if negb (is_builtin_agent (r_agent task)) then Some ("unknown delegate agent " ++ in_quotes (r_agent task))
  else match spawn_allowed parent (r_agent task) with
       | Err violation => Some violation
       | Ok _ =>
         if (max_depth tool <? S depth)%nat then
           Some ("delegation depth cap reached (" ++ pretty depth ++ "/" ++ pretty (max_depth tool) ++ "); returning to the parent loop")
         else if (BOUNDED_PROMPT_CHARS <? len (r_prompt task))%N then Some unbounded_error
         else match r_artifact task with
              | None => None
              | Some artifact =>
                match validate_artifact_path (r_agent task) artifact with
                | Ok _ => None
                | Err e => Some (artifact_error artifact e)
                end
              end
       end.

(** ** The sub-agent and its session *)

Definition sub_tools (agent : string) (allow_child_delegation : bool) : list string :=
  let tools := resolve_agent_tool_grants agent (overlay tool) (registered tool) in
  let tools := if allow_child_delegation then tools else filter (fun n => starts_with (utf8 n) (utf8 "delegate.") = false) tools in
  filter (fun n => n <> PLAN_TOOL_NAME) tools.
Definition build_sub_agent (agent : string) (allow_child_delegation : bool) (w : W) : option SubAgent :=
  let a := {| sa_name := agent; sa_skills := resolve_skill_ids agent; sa_tools := sub_tools agent allow_child_delegation |} in
  if can_build a w then Some a else None.

Definition inheritance_budget_chars (w : W) : option nat :=
  match inheritance_config w with Ok (true, chars) => Some chars | _ => None end.

(** [truncate_notes_to_budget]: the contents are cut, the rest of a note is kept. *)
Definition with_content (n : Note) (t : text) : Note := {| n_path := n_path n; n_content := t; n_sensitivity := n_sensitivity n |}.
Definition truncate_notes (notes : list Note) (budget : nat) : list Note :=
  zip_with with_content notes (truncate_notes_to_budget (map n_content notes) budget 0).1.

Record SubAgentContext := { inherited : list Note; hits : list string; budget_chars : nat }.
Definition knowledge_chars (c : SubAgentContext) : nat := sum_list_with (fun n => length (n_content n)) (inherited c).

Definition compose_sub_session (agent prompt : string) (depth : nat) (w : W) : SubSession * SubAgentContext :=
  let session notes := {| ss_agent := agent; ss_policy := sensitivity_cell w; ss_knowledge := notes |} in
  match inheritance_budget_chars w with
  | None => (session [], {| inherited := []; hits := []; budget_chars := 0 |})
  | Some base =>
    let budget := Nat.max (Nat.shiftr base (Nat.min depth 31)) KNOWLEDGE_BUDGET_CHARS_MIN in
    let knowledge := truncate_notes (knowledge_cell w) budget in
    match skill_hit prompt w with
    | Some (skill, note) =>
      (session (take M1_TOP_K (note :: knowledge)), {| inherited := knowledge; hits := [skill]; budget_chars := budget |})
    | None => (session knowledge, {| inherited := knowledge; hits := []; budget_chars := budget |})
    end
  end.

(** ** The loop of a sub-turn *)

(** The parsers are total ([parse_total], [strip_total]): only the first case occurs. *)
Definition parsed (response : text) : list (ToolInvocation (V := V)) * list text :=
  match parse_tool_invocations_verbose j_parse_block normalize_call response with Done r => r | _ => ([], []) end.
Definition stripped (response : text) : text := match strip_fenced_tool_blocks response with Done t => t | _ => [] end.

Definition dispatch_error_feedback (e : KernelError) : text :=
  match e with
  | ToolDispatchTerminated _ | BudgetFailed _ => (utf8 "tool dispatch blocked (approval/seatbelt/budget): " ++ error_text e)%list
  | _ => (utf8 "tool failed: " ++ error_text e)%list
  end ++ utf8 (nl ++ "Answer the user with what you have.").
Definition parse_feedback (errors : list text) : text :=
  (utf8 ("Your previous tool call block could not be parsed and was NOT executed:" ++ nl) ++ join_lines errors
   ++ utf8 (nl ++ "Re-emit exactly one valid ```json block with {" ++ in_quotes "tool" ++ ": " ++ in_quotes "<name>" ++ ", "
            ++ in_quotes "args" ++ ": {...}}, or answer directly."))%list.
Definition deadline_note : text := utf8 (nl ++ nl ++ "[delegate sub-turn exceeded its wall-clock budget; partial work returned]").
Definition cap_note : text := utf8 (nl ++ nl ++ "[delegate round cap reached; returning current answer]").

Inductive loop_end := Answered (response : text) (rounds : nat) (timed_out : bool) | RoundFailed.

(** [nested]: what [delegate.task] does when the sub-agent of this name calls it. *)
Section sub_turn.
Context (nested : string -> V -> world -> V * world).

Definition run_tool (agent : string) (inv : ToolInvocation (V := V)) (d : world) : result V KernelError * world :=
  if String.eqb (ti_name inv) DELEGATE_TOOL_NAME then
    let '(v, d1) := nested agent (ti_args inv) d in (Ok v, d1)
  else let '(r, w) := use_tool inv (outer d) in (r, set_outer w d).

Fixpoint sub_rounds (left : nat) (agent : SubAgent) (session : SubSession) (depth : nat) (prompt : string) (deadline : N)
    (rounds : nat) (feedback response : text) (d : world) : loop_end * world :=
  match left with
  | O => (Answered response rounds false, d)
  | S left' =>
    if (deadline <=? clock (outer d))%N then (Answered (response ++ deadline_note)%list rounds true, d)
    else
      let '(r, w) := run_round agent session prompt feedback (outer d) in
      let d1 := log (Ran (sa_name agent) depth (ss_policy session)) (set_outer w d) in
      match r with
      | Err _ => (RoundFailed, d1)
      | Ok response' =>
        let '(invocations, errors) := parsed response' in
        match invocations, errors with
        | [], [] => (Answered response' (S rounds) false, d1)
        | [], _ :: _ => sub_rounds left' agent session depth prompt deadline (S rounds) (parse_feedback errors) response' d1
        | _ :: _, _ =>
          let '(res, d2) := dispatch (run_tool (sa_name agent)) (sa_tools agent) invocations d1 in
          let feedback' := match res with Ok results => results_to_prompt results | Err e => dispatch_error_feedback e end in
          sub_rounds left' agent session depth prompt deadline (S rounds) feedback' response' d2
        end
      end
  end.

(** [sub_response_honesty_error]. *)
Definition sub_response_honesty_error (agent : string) (artifact : option string) (clean_response : text) (rounds : nat) : option string :=
  match artifact with
  | Some _ => None
  | None =>
    if bool_decide (trim clean_response = []) then
      Some ("sub-agent " ++ in_quotes agent ++ " produced no response (" ++ pretty rounds ++ " round(s))")
    else if bool_decide (trim (stripped clean_response) = []) && negb (bool_decide ((parsed clean_response).1 = [])) then
      Some ("sub-agent " ++ in_quotes agent ++ " ended with unexecuted tool call(s) and no prose answer")
    else None
  end.

Abbreviation fields := (list (string * V)).
Definition error_fields (msg : string) : fields := [("error", j_str msg)].
Definition opt_field (key : string) (v : option V) : fields := match v with Some x => [(key, x)] | None => [] end.
Definition j_text (t : text) : V := j_str (to_string t).
Definition millis (ns : N) : Z := (Z.of_N ns / 1000000)%Z.

(** What is made of the last response. *)
Definition sub_output (req : DelegateRequest) (clean : text) (reason verify : option text) (rounds : nat) (elapsed : N) : fields :=
  match sub_response_honesty_error (r_agent req) (r_artifact req) clean rounds with
  | Some error => error_fields error
  | None =>
    [("agent", j_str (r_agent req)); ("response", j_text clean); ("rounds", j_int (Z.of_nat rounds));
     ("duration_ms", j_int (millis elapsed))]
    ++ opt_field "artifact_path" (j_str <$> r_artifact req)
    ++ opt_field "summary" ((fun _ => j_text (bounded_summary clean)) <$> r_artifact req)
    ++ opt_field "description" (j_str <$> r_description req)
    ++ opt_field "reasoning" (j_text <$> reason)
    ++ opt_field "verification" (j_text <$> verify)
  end%list.

(** [run_single_composed]. *)
Definition run_single_composed (req : DelegateRequest) (depth : nat) (parent : string) (session : SubSession)
    (sub : SubAgentContext) (c : DelegateContract) (d : world) : fields * world :=
  let started := clock (outer d) in
  let prompt := compose_sub_prompt req c in
  match build_sub_agent (r_agent req) (S depth <? max_depth tool)%nat (outer d) with
  | None => (error_fields ("failed to build delegate agent " ++ in_quotes (r_agent req)), d)
  | Some agent =>
    match find_by_name (r_agent req) default_registry with
    | Err _ => (error_fields ("no profile registered for delegate agent " ++ in_quotes (r_agent req)), d)
    | Ok _ =>
      let estimated := (len prompt / 4 + 1024 + N.of_nat (knowledge_chars sub) / 4)%N in
      let '(r, w) := reserve_tokens estimated (outer d) in
      let d1 := set_outer w d in
      match r with
      | Ok false => (error_fields "token budget exhausted; delegation refused", d1)
      | Err e => (error_fields ("token budget reservation failed: " ++ to_string e), d1)
      | Ok true =>
        let d2 := log (Spawned parent (r_agent req) (S depth) (sa_tools agent)) (log (Reserved estimated) d1) in
        let '(ended, d3) := sub_rounds MAX_DELEGATE_ROUNDS agent session (S depth) prompt (started + timeout_ns tool) 0 [] [] d2 in
        match ended with
        | RoundFailed => (error_fields ("delegate agent " ++ in_quotes (r_agent req) ++ " LLM round failed"), d3)
        | Answered response rounds timed_out =>
          let response := (if (MAX_DELEGATE_ROUNDS <=? rounds)%nat && negb timed_out then response ++ cap_note else response)%list in
          let '(clean, reason, verify) := split_report_markers response in
          let actual := (len prompt / 4 + N.of_nat (str_len clean) / 4)%N in
          let d4 := log (Settled actual) (set_outer (record_usage actual (outer d3)) d3) in
          (sub_output req clean reason verify rounds (clock (outer d4) - started), d4)
        end
      end
    end
  end.

(** ** A batch *)

Definition gates_entry (parent : string) (depth : nat) (tasks : list ParsedDelegate)
    (composed : list (option (SubSession * SubAgentContext))) : fields :=
  let one (t : ParsedDelegate) (slot : option (SubSession * SubAgentContext)) :=
    let r := evaluate_gates (request t) (length tasks) in
    let ctx := snd <$> slot in
    let count f := j_int (Z.of_nat (default 0%nat (f <$> ctx))) in
    j_obj [("agent", j_str (r_agent (request t))); ("prompt_chars", j_int (Z.of_N (len (r_prompt (request t)))));
           ("independent", j_bool (independent r)); ("consumer_decision", j_bool (consumer_decision r));
           ("bounded", j_bool (bounded r)); ("worth_it", j_bool (worth_it r));
           ("inherited_notes", count (fun c => length (inherited c))); ("inherited_chars", count knowledge_chars);
           ("skill_hits", count (fun c => length (hits c)))] in
  [("kind", j_str "loop.delegate.gates"); ("parent", j_str parent); ("depth", j_int (Z.of_nat depth));
   ("batch_width", j_int (Z.of_nat (length tasks))); ("gates", j_arr (zip_with one tasks composed))].

Definition outcome_entry (parent : string) (depth : nat) (agent : string) (i : nat) (value : fields) : fields :=
  [("kind", j_str "loop.delegate.outcome"); ("parent", j_str parent); ("depth", j_int (Z.of_nat depth));
   ("agent", j_str agent); ("ok", j_bool (negb (bool_decide (is_Some (assoc "error" value))))); ("task_index", j_int (Z.of_nat i))].

Definition rejected_fields (task : ParsedDelegate) (error : string) : fields :=
  [("agent", j_str (r_agent (request task))); ("error", j_str error)].

(** Why a task does not run. *)
Definition rejection (parent : string) (depth width : nat) (task : ParsedDelegate) : option string :=
  match validate_request parent depth (request task) with
  | Some error => Some error
  | None => if bounded (evaluate_gates (request task) width) then None else Some unbounded_error
  end.

(** A task that runs, with its number and the session composed for it. *)
Record runnable_task := { rt_index : nat; rt_task : ParsedDelegate; rt_session : SubSession; rt_context : SubAgentContext }.

Definition compose_all (parent : string) (depth : nat) (tasks : list ParsedDelegate) (w : W)
    : list (option (SubSession * SubAgentContext)) :=
  map (fun t => match rejection parent depth (length tasks) t with
                | Some _ => None
                | None => Some (compose_sub_session (r_agent (request t)) (r_prompt (request t)) depth w)
                end) tasks.
Definition runnable_of (composed : list (option (SubSession * SubAgentContext))) (tasks : list ParsedDelegate) : list runnable_task :=
  omap (fun x => '(s, c) ← x.2.2; Some {| rt_index := x.1; rt_task := x.2.1; rt_session := s; rt_context := c |})
    (zip (seq 0 (length tasks)) (zip tasks composed)).

Fixpoint run_all (depth : nat) (parent : string) (chunk : list runnable_task) (d : world) : list (nat * fields) * world :=
  match chunk with
  | [] => ([], d)
  | t :: rest =>
    let '(out, d1) := run_single_composed (request (rt_task t)) depth parent (rt_session t) (rt_context t) (contract (rt_task t)) d in
    let '(outs, d2) := run_all depth parent rest d1 in
    ((rt_index t, out) :: outs, d2)
  end.

(** The lines of a chunk are written when all of it is done. *)
Definition run_chunk (depth : nat) (parent : string) (chunk : list runnable_task) (d : world) : list (nat * fields) * world :=
  let '(outs, d1) := run_all depth parent chunk d in
  (outs, foldl (fun d x => log (AuditLine (outcome_entry parent depth (r_agent (request (rt_task x.1))) x.2.1 x.2.2)) d) d1
           (zip chunk outs)).
Fixpoint run_chunks (depth : nat) (parent : string) (chunks : list (list runnable_task)) (d : world) : list (nat * fields) * world :=
  match chunks with
  | [] => ([], d)
  | c :: rest =>
    let '(outs, d1) := run_chunk depth parent c d in
    let '(outs', d2) := run_chunks depth parent rest d1 in
    ((outs ++ outs')%list, d2)
  end.

(** The result of a task, by its number. *)
Definition slot_fields (parent : string) (depth width : nat) (outs : list (nat * fields)) (i : nat) (task : ParsedDelegate) : fields :=
  (match rejection parent depth width task with
   | Some error => rejected_fields task error
   | None => default (error_fields "delegation produced no result") (snd <$> List.find (fun x => (x.1 =? i)%nat) outs)
   end ++ [("task_index", j_int (Z.of_nat i))])%list.

Definition batch_values (parent : string) (depth : nat) (tasks : list ParsedDelegate) (outs : list (nat * fields)) : list V :=
  imap (fun i t => j_obj (slot_fields parent depth (length tasks) outs i t)) tasks.

Definition invoke_with (depth : nat) (parent : string) (args : V) (d : world) : V * world :=
  match parse_requests args with
  | Err e => (j_obj (error_fields e), d)
  | Ok tasks =>
    let composed := compose_all parent depth tasks (outer d) in
    let d1 := log (AuditLine (gates_entry parent depth tasks composed)) d in
    let '(outs, d2) := run_chunks depth parent (chunks (Pos.to_nat (max_concurrent tool)) (runnable_of composed tasks)) d1 in
    let results := batch_values parent depth tasks outs in
    match tasks, results with
    | [_], [result] => (result, d2)
    | _, _ => (j_obj [("results", j_arr (order_values_by_weight (weights tool) results))], d2)
    end
  end.
End sub_turn.

(** ** Delegation within delegation

    [left]: how many levels may still be entered.  At the cap nothing is run, so
    what nested calls would do there does not matter. *)
Fixpoint invoke (left depth : nat) (parent : string) (args : V) (d : world) : V * world :=
  invoke_with (fun agent args d =>
                 match left with O => (j_null, d) | S left' => invoke left' (S depth) agent args d end)
    depth parent args d.

(** The tool as the orchestrator's turn calls it, and [run_single], which
    [plan.execute] calls. *)
Definition delegate_task (args : V) (d : world) : V * world := invoke (max_depth tool) 0 DELEGATE_ROOT_PARENT args d.
Definition run_request (depth : nat) (parent : string) (req : DelegateRequest) (d : world) : list (string * V) * world :=
  let '(session, sub) := compose_sub_session (r_agent req) (r_prompt req) depth (outer d) in
  run_single_composed (fun agent args d => invoke (max_depth tool - S depth) (S depth) agent args d)
    req depth parent session sub no_contract d.

(** The tool as [plan.execute] holds it: its requests come from the root, and
    [world_at] is the world when its k-th sub-turn starts. *)
Definition plan_delegate (world_at : nat -> world) : Delegate V :=
  {| validate_task := validate_request DELEGATE_ROOT_PARENT 0;
     run_single k req := j_obj (run_request 0 DELEGATE_ROOT_PARENT req (world_at k)).1 |}.
End delegation.
