(* ===== verification/DelegationProps.v ===== *)
(** * What delegation guarantees

    The tree of sub-turns respects the hierarchy of roles and the cap on depth;
    its rounds run under the policy of the session; a batch answers every task
    in its place; the loop of a sub-turn ends; what is inherited is bounded; and
    the closed runs where a failed sub-turn looks like an answer. *)

From S2P Require Import Prelude Types Json Text Sandbox ToolHooks ToolText Router Agents PlanTask PlanLayers PlanExec PlanRun Ordering Delegation.
From Stdlib Require Import Lia.
Local Open Scope list_scope.
Local Open Scope string_scope.

(** ** The contract of rig's dispatcher

    The world changes only by the tools that it runs, which are among the calls
    of the round and among the tools of the agent, and by what its hooks do. *)
Class DispatcherLaws (V W : Type) `{Dispatcher V (sub_world V W)} := {
  hook_change : W -> W -> Prop;
  dispatch_only : forall (P : sub_world V W -> Prop) run tools invs d,
    (forall inv d, inv ∈ invs -> ti_name inv ∈ tools -> P d -> P (run inv d).2) ->
    (forall d w, hook_change (outer d) w -> P d -> P {| outer := w; events := events d |}) ->
    P d -> P (dispatch run tools invs d).2;
}.

Section props.
Context {V : Type} {HJson : Json V} {W : Type} {HSub : SubTurns V W} {HFS : FileSystem}.
Abbreviation world := (sub_world V W).
Context {HDisp : Dispatcher V world} {HDL : DispatcherLaws V W}.
Context (tool : DelegateTool) (refusal_str : refusal -> string -> string).
Implicit Types (d : world).

(** ** Roles along a chain *)

(** The roles that an agent entered at a depth can have. *)
Definition at_level (depth : nat) (r : Role) : Prop :=
  match depth with
  | O => r = RoleOrchestrator
  | 1 => r <> RoleOrchestrator
  | _ => r = Specialist \/ r = Worker
  end.
Lemma level_down depth p c : at_level depth p -> may_spawn p c = true -> at_level (S depth) c /\ depth < 2.
Proof.
  destruct depth as [|[|n]]; cbn [at_level].
  - intros ->. cbn. destruct (bool_decide_reflect (c = RoleOrchestrator)); [done|]. split; [done|lia].
  - intros Hp. destruct p, c; cbn; try done; auto.
  - intros [-> | ->]; done.
Qed.

Lemma spawn_allowed_spec p c : spawn_allowed p c = Ok tt <->
  exists rp rc, role_of p = Ok rp /\ role_of c = Ok rc /\ may_spawn rp rc = true.
Proof.
  unfold spawn_allowed. destruct (role_of p) as [rp|e]; cbn [rbind]; [|split; [done|naive_solver]].
  destruct (role_of c) as [rc|e]; cbn [rbind]; [|split; [done|naive_solver]].
  destruct (may_spawn rp rc) eqn:M; split; try done; [eauto 10|]. intros (? & ? & [= <-] & [= <-] & ?). congruence.
Qed.

(** ** The invariant of a tree of sub-turns *)

(** What other turns may do to the outside; [I] is kept by it. *)
Record keeps (I : W -> Prop) : Prop := {
  keep_round : forall a s p f w, I w -> I (run_round (V := V) a s p f w).2;
  keep_reserve : forall n w, I w -> I (reserve_tokens (V := V) n w).2;
  keep_usage : forall n w, I w -> I (record_usage (V := V) n w);
  keep_tool : forall inv w, I w -> I (use_tool (V := V) inv w).2;
  keep_hooks : forall w w', hook_change w w' -> I w -> I w';
}.

Section invariant.
Context (I : W -> Prop) (HI : keeps I) (policy_ok : Sensitivity -> Prop).
Context (Hpolicy : forall w, I w -> policy_ok (sensitivity_cell (V := V) w)).

(** What may be in the log of events. *)
Definition admitted (e : event V) : Prop :=
  match e with
  | Spawned parent child depth tools =>
    1 <= depth <= Nat.min (max_depth tool) 2
    /\ (exists rp rc, role_of parent = Ok rp /\ role_of child = Ok rc /\ may_spawn rp rc = true)
    /\ NoDup tools /\ PLAN_TOOL_NAME ∉ tools
    /\ (forall t, t ∈ tools -> t ∈ registered tool /\ (t ∈ resolve_tool_ids child \/ overlaid (overlay tool) t))
    /\ (depth = max_depth tool -> forall t, t ∈ tools -> starts_with (utf8 t) (utf8 "delegate.") = false)
  | Ran _ _ policy => policy_ok policy
  | _ => True
  end.
Definition tree_ok d : Prop := I (outer d) /\ Forall admitted (events d).

Lemma ok_outer d w : tree_ok d -> I w -> tree_ok (set_outer w d).
Proof. intros [_ H] Hw. by split. Qed.
Lemma ok_log e d : tree_ok d -> admitted e -> tree_ok (log e d).
Proof. intros [H1 H2] He. split; [done|]. cbn [log events]. rewrite Forall_app, Forall_singleton. done. Qed.

Lemma sub_tools_spec agent allow : NoDup (sub_tools tool agent allow) /\ PLAN_TOOL_NAME ∉ sub_tools tool agent allow
  /\ (forall t, t ∈ sub_tools tool agent allow -> t ∈ registered tool /\ (t ∈ resolve_tool_ids agent \/ overlaid (overlay tool) t))
  /\ (allow = false -> forall t, t ∈ sub_tools tool agent allow -> starts_with (utf8 t) (utf8 "delegate.") = false).
Proof.
  destruct (grants_exact agent (overlay tool) (registered tool)) as [N G]. unfold sub_tools. split_and!.
  - apply NoDup_filter. destruct allow; [done|by apply NoDup_filter].
  - rewrite list_elem_of_filter. naive_solver.
  - intros t [_ Ht]%list_elem_of_filter. apply G. destruct allow; [done|]. by apply list_elem_of_filter in Ht as [_ ?].
  - intros -> t [_ Ht]%list_elem_of_filter. by apply list_elem_of_filter in Ht as [? _].
Qed.

(** The calls of nested agents keep the invariant, for agents of the next level. *)
Definition nested_ok (nested : string -> V -> world -> V * world) (depth : nat) : Prop :=
  forall agent args d, (exists r, role_of agent = Ok r /\ at_level depth r) -> tree_ok d -> tree_ok (nested agent args d).2.

Lemma sub_rounds_ok nested left agent session depth prompt deadline rounds feedback response d :
  (DELEGATE_TOOL_NAME ∈ sa_tools agent -> forall args d, tree_ok d -> tree_ok (nested (sa_name agent) args d).2) ->
  policy_ok (ss_policy session) -> tree_ok d ->
  tree_ok (sub_rounds nested left agent session depth prompt deadline rounds feedback response d).2.
Proof.
  intros Hn Hp. revert rounds feedback response d.
  induction left as [|left IH]; intros rounds feedback response d Hd; cbn [sub_rounds]; [done|].
  destruct (_ <=? _)%N; [done|]. pose proof (keep_round I HI agent session prompt feedback (outer d) (proj1 Hd)) as Hw.
  destruct (run_round _ _ _ _ _) as [[response'|e] w]; cbn [snd] in Hw; [|by apply ok_log, Hp; apply ok_outer].
  assert (tree_ok (log (Ran (sa_name agent) depth (ss_policy session)) (set_outer w d))) as H1 by (by apply ok_log, Hp; apply ok_outer).
  destruct (parsed response') as [[|i invs] [|e errs]]; [done|by apply IH|..].
  all: match goal with |- context [dispatch ?run ?tools ?l ?d1] =>
    pose proof (dispatch_only tree_ok run tools l d1) as D; destruct (dispatch run tools l d1) as [res d2] end.
  all: apply IH; apply D; [|intros d' w' Hh Hd'; apply ok_outer; [done|]; eapply keep_hooks; [exact HI|exact Hh|apply Hd']|exact H1].
  all: intros inv d' _ Hin Hd'; unfold run_tool; destruct (String.eqb_spec (ti_name inv) DELEGATE_TOOL_NAME) as [E|E].
  1,3: rewrite E in Hin; specialize (Hn Hin (ti_args inv) d' Hd'); by destruct (nested _ _ _).
  all: pose proof (keep_tool I HI inv (outer d') (proj1 Hd')); destruct (use_tool inv (outer d')); by apply ok_outer.
Qed.

Lemma single_ok nested req depth parent session sub c d rp :
  role_of parent = Ok rp -> at_level depth rp -> validate_request tool refusal_str parent depth req = None ->
  (S depth < max_depth tool -> nested_ok nested (S depth)) -> policy_ok (ss_policy session) -> tree_ok d ->
  tree_ok (run_single_composed tool nested req depth parent session sub c d).2.
Proof.
  intros Hrp Hl Hv Hn Hp Hd. unfold run_single_composed.
  assert (exists rc, role_of (r_agent req) = Ok rc /\ may_spawn rp rc = true /\ S depth <= max_depth tool) as (rc & Hrc & Hm & Hc).
  { unfold validate_request in Hv. destruct (is_builtin_agent _); cbn [negb] in Hv; [|done].
    destruct (spawn_allowed _ _) as [[]|] eqn:S; [|done]. apply spawn_allowed_spec in S as (rp' & rc & E1 & E2 & M).
    destruct (Nat.ltb_spec (max_depth tool) (Datatypes.S depth)); [done|]. exists rc. split_and!; [done|congruence|done]. }
  destruct (level_down depth rp rc Hl Hm) as [Hlc Hd2].
  destruct (build_sub_agent _ _ _ _) as [agent|] eqn:B; [|done].
  assert (sa_name agent = r_agent req /\ sa_tools agent = sub_tools tool (r_agent req) (Datatypes.S depth <? max_depth tool)%nat) as [En Et].
  { unfold build_sub_agent in B. destruct (can_build _ _); by simplify_eq/=. }
  destruct (find_by_name _ _) as [p|]; [|done].
  match goal with |- context [reserve_tokens ?n ?w] =>
    pose proof (keep_reserve I HI n w (proj1 Hd)) as Hw; destruct (reserve_tokens n w) as [[[]|e] w1] end;
    cbn [snd] in Hw; [|by apply ok_outer..].
  match goal with |- context [sub_rounds ?a ?b ?c ?d ?e ?f ?g ?h ?i ?j ?d0] =>
    pose proof (sub_rounds_ok a b c d e f g h i j d0) as R; destruct (sub_rounds a b c d e f g h i j d0) as [ended d3] end.
  cbn [snd] in R. destruct (sub_tools_spec (r_agent req) (Datatypes.S depth <? max_depth tool)%nat) as (T1 & T2 & T3 & T4).
  assert (tree_ok d3) as H3.
  { apply R; [|done|].
    - rewrite En, Et. intros Hin args d' Hd'. destruct (Nat.ltb_spec (Datatypes.S depth) (max_depth tool)) as [L|L].
      + apply Hn; eauto.
      + specialize (T4 eq_refl _ Hin). by vm_compute in T4.
    - apply ok_log; [by apply ok_log; [apply ok_outer|]|]. cbn [admitted]. rewrite Et. split_and!; try done; try lia; [eauto|].
      intros E. apply T4. apply Nat.ltb_ge. lia. }
  destruct ended as [response rounds timed|]; [|done].
  destruct (split_report_markers _) as [[clean reason] verify]. cbn [snd].
  apply ok_log; [|done]. apply ok_outer; [done|]. apply keep_usage, H3. done.
Qed.

(** A task that runs has passed the gates, and its session has the policy of the cell. *)
Definition composed_ok (parent : string) (depth : nat) (t : runnable_task) : Prop :=
  validate_request tool refusal_str parent depth (request (rt_task t)) = None /\ policy_ok (ss_policy (rt_session t)).

Lemma compose_policy agent prompt depth (w : W) : ss_policy (compose_sub_session (V := V) agent prompt depth w).1 = sensitivity_cell w.
Proof.
  unfold compose_sub_session. destruct (inheritance_budget_chars w); [|done]. by destruct (skill_hit prompt w) as [[??]|].
Qed.

Lemma runnable_ok parent depth tasks (w : W) : I w ->
  Forall (composed_ok parent depth) (runnable_of (compose_all tool refusal_str parent depth tasks w) tasks).
Proof.
  intros Hw. apply Forall_forall. intros t Ht. unfold runnable_of in Ht.
  apply list_elem_of_omap in Ht as ((i & task & slot) & Hz & E). cbn [snd fst] in E.
  destruct slot as [[s c]|]; [|done]. cbn in E. injection E as <-.
  apply elem_of_zip_r in Hz. apply list_elem_of_lookup_1 in Hz as [k Hz]. unfold compose_all in Hz.
  rewrite lookup_zip_with in Hz. rewrite list_lookup_fmap in Hz.
  destruct (tasks !! k) as [task'|] eqn:E; [|done]. cbn in Hz. injection Hz as <- Hz.
  unfold composed_ok. cbn [rt_task rt_session]. unfold rejection in Hz.
  destruct (validate_request _ _ _ _ _) eqn:Hv; [done|]. destruct (bounded _); [|done]. split; [done|]. injection Hz as Hz.
  pose proof (compose_policy (r_agent (request task')) (r_prompt (request task')) depth w) as Hp. rewrite Hz in Hp. cbn in Hp.
  rewrite Hp. by apply Hpolicy.
Qed.

Section batch.
Context (nested : string -> V -> world -> V * world) (depth : nat) (parent : string) (rp : Role).
Context (Hrp : role_of parent = Ok rp) (Hl : at_level depth rp).
Context (Hn : S depth < max_depth tool -> nested_ok nested (S depth)).

Lemma run_all_ok l d : Forall (composed_ok parent depth) l -> tree_ok d -> tree_ok (run_all tool nested depth parent l d).2.
Proof.
  intros H. revert d. induction H as [|t l [Hv Hp] _ IH]; intros d Hd; cbn [run_all]; [done|].
  pose proof (single_ok nested (request (rt_task t)) depth parent (rt_session t) (rt_context t) (contract (rt_task t)) d rp
    Hrp Hl Hv Hn Hp Hd) as H1.
  destruct (run_single_composed _ _ _ _ _ _ _ _ _) as [out d1]. cbn [snd] in H1. specialize (IH d1 H1).
  by destruct (run_all _ _ _ _ l d1).
Qed.
Lemma foldl_lines_ok {A} (f : A -> list (string * V)) (l : list A) d : tree_ok d -> tree_ok (foldl (fun d x => log (AuditLine (f x)) d) d l).
Proof. revert d. induction l as [|x l IH]; intros d Hd; cbn [foldl]; [done|]. apply IH. by apply ok_log. Qed.
Lemma run_chunks_ok cs d : Forall (Forall (composed_ok parent depth)) cs -> tree_ok d ->
  tree_ok (run_chunks tool nested depth parent cs d).2.
Proof.
  intros H. revert d. induction H as [|c cs Hc _ IH]; intros d Hd; cbn [run_chunks]; [done|].
  unfold run_chunk. pose proof (run_all_ok c d Hc Hd) as H1. destruct (run_all _ _ _ _ c d) as [outs d1]. cbn [snd] in H1.
  match goal with |- context [foldl ?f ?a ?b] => assert (tree_ok (foldl f a b)) as H2 by (by apply foldl_lines_ok) end.
  specialize (IH _ H2). by destruct (run_chunks _ _ _ _ cs _).
Qed.

Lemma invoke_with_ok args d : tree_ok d -> tree_ok (invoke_with tool refusal_str nested depth parent args d).2.
Proof.
  intros Hd. unfold invoke_with. destruct (parse_requests args) as [tasks|e]; [|done].
  match goal with |- context [run_chunks _ _ _ _ ?cs ?d1] => assert (tree_ok (run_chunks tool nested depth parent cs d1).2) as H end.
  { apply run_chunks_ok; [|by apply ok_log]. apply Forall_concat. unfold chunks.
    rewrite chunks_go_concat by lia. apply runnable_ok, Hd. }
  destruct (run_chunks _ _ _ _ _ _) as [outs d2]. cbn [snd] in H.
  destruct tasks as [|t [|]]; [done| |done]. by destruct (batch_values _ _ _ _ _ _) as [|r [|]].
Qed.
End batch.

Lemma invoke_ok left depth parent args d rp : role_of parent = Ok rp -> at_level depth rp -> max_depth tool <= depth + left ->
  tree_ok d -> tree_ok (invoke tool refusal_str left depth parent args d).2.
Proof.
  revert depth parent args d rp. induction left as [|left IH]; intros depth parent args d rp Hrp Hl Hm Hd; cbn [invoke].
  - apply (invoke_with_ok _ depth parent rp); [done|done| |done]. lia.
  - apply (invoke_with_ok _ depth parent rp); [done|done| |done]. intros _ agent args' d' (r & Hr & Hl') Hd'.
    apply (IH _ _ _ _ r); [done|done|lia|done].
Qed.
Lemma delegate_task_ok args d : tree_ok d -> tree_ok (delegate_task tool refusal_str args d).2.
Proof. apply (invoke_ok _ _ _ _ _ RoleOrchestrator); [by vm_compute|done|lia]. Qed.
End invariant.

(** C16. Whatever models answer and tools do, the sub-turns that a call of
    [delegate.task] starts, at any depth, respect the hierarchy of roles; they
    are at most [max_depth] deep, and at most two whatever [max_depth] is; no
    sub-agent holds [plan.execute]; each holds registered tools of its row or of
    the overlay; and at the cap none holds a tool that delegates. *)
Theorem delegation_tree_bounded args (w : W) :
  Forall (fun e => match e with
                   | Spawned parent child depth tools =>
                     1 <= depth <= Nat.min (max_depth tool) 2
                     /\ (exists rp rc, role_of parent = Ok rp /\ role_of child = Ok rc /\ may_spawn rp rc = true)
                     /\ NoDup tools /\ PLAN_TOOL_NAME ∉ tools
                     /\ (forall t, t ∈ tools -> t ∈ registered tool /\ (t ∈ resolve_tool_ids child \/ overlaid (overlay tool) t))
                     /\ (depth = max_depth tool -> forall t, t ∈ tools -> starts_with (utf8 t) (utf8 "delegate.") = false)
                   | _ => True
                   end)
    (events (delegate_task tool refusal_str args {| outer := w; events := [] |}).2).
Proof.
  assert (keeps (fun _ => True)) as K by (by split).
  pose proof (delegate_task_ok (fun _ => True) K (fun _ => True) ltac:(done) args {| outer := w; events := [] |}) as [_ H].
  { split; [done|constructor]. }
  eapply Forall_impl; [exact H|]. by intros [].
Qed.

(** As long as no other turn writes the cell, every round of every sub-agent,
    at any depth, runs under the policy of the session. *)
Theorem sub_rounds_keep_policy args s (w : W) :
  keeps (fun w => sensitivity_cell (V := V) w = s) -> sensitivity_cell (V := V) w = s ->
  Forall (fun e => match e with Ran _ _ policy => policy = s | _ => True end)
    (events (delegate_task tool refusal_str args {| outer := w; events := [] |}).2).
Proof.
  intros K Hs.
  pose proof (delegate_task_ok _ K (fun p => p = s) ltac:(done) args {| outer := w; events := [] |}) as [_ H].
  { split; [done|constructor]. }
  eapply Forall_impl; [exact H|]. by intros [].
Qed.

(** What passes the gates, for [delegate.task] and for the tasks of a plan. *)
Lemma validate_exact parent depth req : validate_request tool refusal_str parent depth req = None <->
  is_builtin_agent (r_agent req) = true
  /\ (exists rp rc, role_of parent = Ok rp /\ role_of (r_agent req) = Ok rc /\ may_spawn rp rc = true)
  /\ depth < max_depth tool /\ (len (r_prompt req) <= BOUNDED_PROMPT_CHARS)%N
  /\ forall p, r_artifact req = Some p -> validate_artifact_path tool (r_agent req) p = Ok tt.
Proof.
  unfold validate_request. destruct (is_builtin_agent _); cbn [negb]; [|split; [done|naive_solver]].
  destruct (spawn_allowed parent (r_agent req)) as [[]|e] eqn:S.
  2: { split; [done|]. intros (_ & R & _). apply spawn_allowed_spec in R. congruence. }
  apply spawn_allowed_spec in S. destruct (Nat.ltb_spec (max_depth tool) (Datatypes.S depth)); [split; [done|]; intros (_ & _ & ? & _); lia|].
  destruct (N.ltb_spec BOUNDED_PROMPT_CHARS (len (r_prompt req))); [split; [done|]; intros (_ & _ & _ & ? & _); lia|].
  destruct (r_artifact req) as [p|]; [|split; [intros _; split_and!; done || lia|done]].
  destruct (validate_artifact_path tool (r_agent req) p) as [[]|e] eqn:A; split; try done.
  - intros _. split_and!; [done..|lia|done|]. by intros ? [= <-].
  - intros (_ & _ & _ & _ & H'). specialize (H' p eq_refl). congruence.
Qed.

(** ** A batch *)

Section positions.
Context (nested : string -> V -> world -> V * world) (depth : nat) (parent : string).

(** The result of a task that ran. *)
Definition result_of (t : runnable_task) (x : nat * list (string * V)) : Prop :=
  x.1 = rt_index t /\ exists d1 d2,
    run_single_composed tool nested (request (rt_task t)) depth parent (rt_session t) (rt_context t) (contract (rt_task t)) d1 = (x.2, d2).

Lemma run_all_results l d : Forall2 result_of l (run_all tool nested depth parent l d).1.
Proof.
  revert d. induction l as [|t l IH]; intros d; cbn [run_all]; [constructor|].
  destruct (run_single_composed _ _ _ _ _ _ _ _ d) as [out d1] eqn:R. specialize (IH d1).
  destruct (run_all _ _ _ _ l d1) as [outs d2]. cbn [fst] in *. constructor; [|done].
  split; [done|]. by exists d, d1.
Qed.
Lemma run_chunks_results cs d : Forall2 result_of (concat cs) (run_chunks tool nested depth parent cs d).1.
Proof.
  revert d. induction cs as [|c cs IH]; intros d; cbn [run_chunks concat]; [constructor|]. unfold run_chunk.
  pose proof (run_all_results c d) as R. destruct (run_all _ _ _ _ c d) as [outs d1]. cbn [fst] in R.
  match goal with |- context [run_chunks _ _ _ _ cs ?d] => specialize (IH d); destruct (run_chunks _ _ _ _ cs d) as [outs' d2] end.
  cbn [fst] in *. by apply Forall2_app.
Qed.

Lemma runnable_elem (w : W) tasks rt : rt ∈ runnable_of (compose_all tool refusal_str parent depth tasks w) tasks <->
  exists t, tasks !! rt_index rt = Some t /\ rt_task rt = t /\ rejection tool refusal_str parent depth (length tasks) t = None
    /\ (rt_session rt, rt_context rt) = compose_sub_session (r_agent (request t)) (r_prompt (request t)) depth w.
Proof.
  unfold runnable_of, compose_all. rewrite list_elem_of_omap. split.
  - intros ([i [task slot]] & Hz & E). cbn [snd fst] in E. destruct slot as [[s c]|]; [|done]. injection E as <-.
    apply list_elem_of_lookup_1 in Hz as [k Hz]. rewrite !lookup_zip_with in Hz.
    destruct (seq 0 (length tasks) !! k) as [i'|] eqn:Hs; [|done]. apply lookup_seq in Hs as [-> _].
    rewrite list_lookup_fmap in Hz. destruct (tasks !! k) as [t|] eqn:Ht; [|done]. cbn in Hz. injection Hz as <- <- Hz.
    destruct (rejection _ _ _ _ _ t) eqn:Hr; [done|]. injection Hz as Hz. exists t. cbn. split_and!; done.
  - intros (t & Ht & E & Hr & Hc). exists (rt_index rt, (t, Some (rt_session rt, rt_context rt))). split; [|by destruct rt; cbn in *; subst].
    apply list_elem_of_lookup. exists (rt_index rt). rewrite !lookup_zip_with.
    pose proof (lookup_lt_Some _ _ _ Ht). rewrite lookup_seq_lt by done. cbn. rewrite list_lookup_fmap, Ht. cbn.
    by rewrite Hr, <- Hc.
Qed.

Lemma find_index {A} (l : list (nat * A)) i x : (i, x) ∈ l -> exists y, List.find (fun p => (p.1 =? i)%nat) l = Some (i, y) /\ (i, y) ∈ l.
Proof.
  induction l as [|[j y] l IH]; [by intros ?%elem_of_nil|]. intros [E|H]%elem_of_cons; cbn.
  - injection E as <- <-. rewrite Nat.eqb_refl. exists x. split; [done|by left].
  - destruct (Nat.eqb_spec j i) as [->|N]; [exists y; split; [done|by left]|].
    destruct (IH H) as (z & F & Hz). exists z. split; [done|by right].
Qed.
End positions.

(** A call answers each of its tasks in its place: a refused task with its
    refusal, another with what a sub-turn of its own returned, in the session
    that was composed before any of them ran. *)
Theorem batch_positional nested depth parent args d tasks : weights tool = ∅ -> parse_requests args = Ok tasks ->
  exists values d', invoke_with tool refusal_str nested depth parent args d
    = (match values with [v] => v | _ => j_obj [("results", j_arr values)] end, d')
  /\ length values = length tasks
  /\ forall i t, tasks !! i = Some t -> exists fields, values !! i = Some (j_obj (fields ++ [("task_index", j_int (Z.of_nat i))])%list)
     /\ match rejection tool refusal_str parent depth (length tasks) t with
        | Some error => fields = rejected_fields t error
        | None => exists d1 d2, let '(session, sub) := compose_sub_session (r_agent (request t)) (r_prompt (request t)) depth (outer d) in
            run_single_composed tool nested (request t) depth parent session sub (contract t) d1 = (fields, d2)
        end.
Proof.
  intros Hw Hp. unfold invoke_with. rewrite Hp.
  match goal with |- context [run_chunks _ _ _ _ ?cs ?d1] => pose proof (run_chunks_results nested depth parent cs d1) as R;
    destruct (run_chunks tool nested depth parent cs d1) as [outs d2] end.
  cbn [fst] in R. unfold chunks in R. rewrite chunks_go_concat in R by lia.
  set (values := batch_values tool refusal_str parent depth tasks outs). assert (length values = length tasks) as Len by apply length_imap.
  exists values, d2. split_and!; [|done|].
  - unfold order_values_by_weight. rewrite Hw, bool_decide_true by done. cbn [orb].
    destruct tasks as [|t1 [|t2 ts]]; destruct values as [|v1 [|v2 vs]]; done.
  - intros i t Ht. unfold values, batch_values. rewrite list_lookup_imap, Ht. cbn [fmap option_fmap option_map].
    eexists. split; [unfold slot_fields; reflexivity|]. destruct (rejection _ _ _ _ _ t) as [error|] eqn:Hr; [done|].
    destruct (compose_sub_session (r_agent (request t)) (r_prompt (request t)) depth (outer d)) as [s c] eqn:Hc.
    set (rt := {| rt_index := i; rt_task := t; rt_session := s; rt_context := c |}).
    assert (rt ∈ runnable_of (compose_all tool refusal_str parent depth tasks (outer d)) tasks) as Hrt
      by (apply runnable_elem; exists t; by split_and!).
    apply list_elem_of_lookup_1 in Hrt as [k Hk]. destruct (Forall2_lookup_l _ _ _ _ _ R Hk) as ([j x] & Hx & Hj & _).
    cbn in Hj. subst j. apply list_elem_of_lookup_2 in Hx. destruct (find_index outs i x Hx) as (y & -> & Hy). cbn.
    apply list_elem_of_lookup_1 in Hy as [k' Hy]. destruct (Forall2_lookup_r _ _ _ _ _ R Hy) as (rt' & Hrt' & Hi & d1 & d3 & Hrun).
    cbn in Hi, Hrun. apply list_elem_of_lookup_2, runnable_elem in Hrt' as (t' & Ht' & Et & _ & Hc').
    rewrite <- Hi, Ht in Ht'. injection Ht' as <-. rewrite Hc in Hc'. injection Hc' as Es Ec. rewrite Et, Es, Ec in Hrun. by exists d1, d3.
Qed.

(** ** Requests *)

Lemma nonempty_string args key v : optional_nonempty_string args key = Ok (Some v) -> trim (utf8 v) <> [].
Proof.
  unfold optional_nonempty_string. destruct (j_get args key) as [x|]; [|done]. destruct (j_is_null x); [done|].
  destruct (j_as_str x) as [s|]; [|done]. case_bool_decide; [done|]. by intros [= ->].
Qed.

(** What has been said must not be blank. *)
Definition well_said (t : ParsedDelegate) : Prop :=
  Forall (fun o => match o with Some s => trim (utf8 s) <> [] | None => True end)
    [r_artifact (request t); output_format (contract t); task_boundaries (contract t)].
Lemma parse_rest_said item agent prompt t : parse_rest item agent prompt = Ok t ->
  well_said t /\ r_agent (request t) = agent /\ r_prompt (request t) = prompt.
Proof.
  unfold parse_rest. destruct (optional_nonempty_string item "artifact") as [a|] eqn:A; [|done].
  destruct (optional_nonempty_string item "output_format") as [f|] eqn:F; [|done].
  destruct (optional_nonempty_string item "task_boundaries") as [b|] eqn:B; [|done]. cbn [rbind]. intros [= <-].
  split; [|done]. unfold well_said. cbn. repeat constructor; [destruct a|destruct f|destruct b]; try done; by eapply nonempty_string.
Qed.
Lemma parse_items_said items tasks : parse_items items = Ok tasks -> length tasks = length items /\ Forall well_said tasks.
Proof.
  revert tasks. induction items as [|x l IH]; intros tasks; cbn [parse_items]; [intros [= <-]; by split|].
  destruct (parse_task x) as [t|] eqn:T; [|done]. cbn [rbind]. destruct (parse_items l) as [ts|]; [|done]. cbn [rbind].
  intros [= <-]. destruct (IH ts eq_refl) as [L F]. split; [cbn; by f_equal|]. constructor; [|done].
  unfold parse_task in T. destruct (str_field x "agent"); [|done]. destruct (str_field x "prompt"); [|done]. by eapply parse_rest_said.
Qed.

(** A call that is accepted has between one and eight tasks, and no optional text
    of theirs is blank. *)
Lemma requests_bounded args tasks : parse_requests args = Ok tasks -> 1 <= length tasks <= FANOUT_MAX_TASKS /\ Forall well_said tasks.
Proof.
  unfold parse_requests, FANOUT_MAX_TASKS. destruct (j_get args "tasks" ≫= j_as_array) as [arr|].
  - destruct (Nat.ltb_spec 8 (length arr)); [done|]. destruct (parse_items arr) as [ts|] eqn:P; [|done]. cbn [rbind].
    apply parse_items_said in P as [L F]. destruct ts; [done|]. intros [= <-]. split; [cbn in *; lia|done].
  - destruct (str_field args "agent"); [|done]. destruct (str_field args "prompt"); [|done].
    destruct (parse_rest _ _ _) as [t|] eqn:R; [|done]. cbn [rbind]. intros [= <-]. apply parse_rest_said in R as [R _].
    split; [cbn; lia|]. by constructor.
Qed.

(** A prompt within the hard bound never crosses the advisory line, so the gate
    on what a task is worth is never closed for a task that runs. *)
Lemma worth_it_dead task width : bounded (evaluate_gates task width) = true -> worth_it (evaluate_gates task width) = true.
Proof.
  unfold evaluate_gates, BOUNDED_PROMPT_CHARS, ADVISORY_TOKEN_LINE. cbn [bounded worth_it]. intros H%N.leb_le. apply N.leb_le.
  assert (len (r_prompt task) / 4 <= 32000 / 4)%N by (apply N.Div0.div_le_mono; lia). change (32000 / 4)%N with 8000%N in *. lia.
Qed.

(** ** The loop of a sub-turn *)

Lemma sub_rounds_end nested left agent session depth prompt deadline rounds feedback response d r n timed :
  (sub_rounds nested left agent session depth prompt deadline rounds feedback response d).1 = Answered r n timed ->
  rounds <= n <= rounds + left
  /\ (timed = false -> n < rounds + left -> parsed r = ([], []))
  /\ (timed = true -> exists r0, r = (r0 ++ deadline_note)%list).
Proof.
  revert rounds feedback response d. induction left as [|left IH]; intros rounds feedback response d; cbn [sub_rounds].
  { intros [= <- <- <-]. split_and!; [lia|lia|lia|done]. }
  destruct (_ <=? _)%N; [intros [= <- <- <-]; split_and!; [lia|lia|done|eauto]|].
  destruct (run_round _ _ _ _ _) as [[response'|e] w]; [|done].
  destruct (parsed response') as [[|i invs] [|e errs]] eqn:P.
  { intros [= <- <- <-]. split_and!; [lia|lia|done|done]. }
  all: try (destruct (dispatch _ _ _ _) as [res d2]).
  all: intros H; apply IH in H as (H1 & H2 & H3); split_and!; [lia|lia|intros ? ?; apply H2; [done|lia]|done].
Qed.

(** A sub-turn ends within four rounds.  A result without an error comes from
    an answer that was given, or cut by the deadline or by the cap; unless an
    artifact was asked for, its text is not blank; and an answer that is not cut
    calls no tool. *)
Theorem sub_turn_result nested req depth parent session sub c d fields d' :
  run_single_composed tool nested req depth parent session sub c d = (fields, d') -> assoc "error" fields = None ->
  exists response rounds timed_out reason verify clean elapsed,
    fields = sub_output req clean reason verify rounds elapsed
    /\ rounds <= MAX_DELEGATE_ROUNDS
    /\ split_report_markers (if (MAX_DELEGATE_ROUNDS <=? rounds)%nat && negb timed_out then response ++ cap_note else response)%list
       = (clean, reason, verify)
    /\ (r_artifact req = None -> trim clean <> [])
    /\ (timed_out = false -> rounds < MAX_DELEGATE_ROUNDS -> parsed response = ([], [])).
Proof.
  unfold run_single_composed. destruct (build_sub_agent _ _ _ _) as [agent|]; [|by intros [= <- <-]].
  destruct (find_by_name _ _) as [p|]; [|by intros [= <- <-]].
  destruct (reserve_tokens _ _) as [[[]|e] w1]; [|by intros [= <- <-]..].
  match goal with |- context [sub_rounds ?a ?b ?c ?d ?e ?f ?g ?h ?i ?j ?d0] =>
    pose proof (sub_rounds_end a b c d e f g h i j d0) as R; destruct (sub_rounds a b c d e f g h i j d0) as [ended d3] end.
  destruct ended as [response rounds timed|]; [|by intros [= <- <-]].
  specialize (R response rounds timed eq_refl) as (R1 & R2 & R3). cbn in R1.
  destruct (split_report_markers _) as [[clean reason] verify] eqn:S. intros [= <- <-] He.
  exists response, rounds, timed, reason, verify, clean. eexists. split_and!; [reflexivity|unfold MAX_DELEGATE_ROUNDS in *; lia|done| |done].
  intros Ha. unfold sub_output, sub_response_honesty_error in He. rewrite Ha in He. case_bool_decide; [done|]. done.
Qed.
End props.

(** ** The report of an answer *)

Definition reason_of (line : text) : option text := take_marker line "reasoning:".
Definition verify_of (line : text) : option text :=
  match take_marker line "reasoning:" with Some _ => None | None => take_marker line "verification:" end.
Definition unmarked (line : text) : Prop := reason_of line = None /\ verify_of line = None.
#[export] Instance unmarked_dec line : Decision (unmarked line).
Proof. unfold unmarked. apply _. Defined.

Lemma lift_fold ls r :
  fold_left lift_line ls r =
    {| prose := prose r ++ filter unmarked ls;
       reasoning := match last (omap reason_of ls) with Some x => Some x | None => reasoning r end;
       verification := match last (omap verify_of ls) with Some x => Some x | None => verification r end;
       lifted := lifted r || negb (bool_decide (Forall unmarked ls)) |}%list.
Proof.
  revert r. induction ls as [|l ls IH]; intros r; cbn [fold_left].
  { cbn. rewrite app_nil_r, orb_false_r. by destruct r. }
  rewrite IH, filter_cons. cbn [omap list_omap]. rewrite (bool_decide_ext (Forall unmarked (l :: ls)) _ (Forall_cons _ _ _)).
  unfold lift_line. destruct (take_marker l "reasoning:") as [x|] eqn:R.
  - assert (reason_of l = Some x) as -> by done. assert (verify_of l = None) as -> by (unfold verify_of; by rewrite R).
    rewrite decide_False by (intros [E _]; unfold reason_of in E; congruence). cbn [prose reasoning verification lifted].
    rewrite (bool_decide_false (unmarked l /\ _)) by (intros [[E _] _]; unfold reason_of in E; congruence).
    rewrite orb_true_r, last_cons. cbn. f_equal. by destruct (last (omap reason_of ls)).
  - assert (reason_of l = None) as E by done. rewrite E. destruct (take_marker l "verification:") as [x|] eqn:Y.
    + assert (verify_of l = Some x) as Ev by (unfold verify_of; by rewrite R). rewrite Ev.
      rewrite decide_False by (intros [_ ?]; congruence). cbn [prose reasoning verification lifted].
      rewrite (bool_decide_false (unmarked l /\ _)) by (intros [[_ ?] _]; congruence).
      rewrite orb_true_r, last_cons. cbn. f_equal. by destruct (last (omap verify_of ls)).
    + assert (verify_of l = None) as Ev by (unfold verify_of; by rewrite R, Y). rewrite Ev.
      rewrite decide_True by done. cbn [prose reasoning verification lifted].
      rewrite <- app_assoc. cbn. f_equal. f_equal. f_equal. apply bool_decide_ext. split; [by intros H|]. by intros [_ H].
Qed.

(** The report of an answer: without a line that starts with a marker the answer
    is unchanged; otherwise the marked lines, and no other, are taken out of it,
    and of each marker the last one counts. *)
Theorem report_exact response :
  split_report_markers response =
    if bool_decide (Forall unmarked (lines response)) then (response, None, None)
    else (trim_end (join_lines (filter unmarked (lines response))), last (omap reason_of (lines response)), last (omap verify_of (lines response))).
Proof.
  unfold split_report_markers. rewrite lift_fold. cbn [lifted no_report prose reasoning verification orb].
  case_bool_decide; cbn [negb]; [done|]. f_equal; [f_equal|]; by destruct (last _).
Qed.

(** ** What is inherited *)

Lemma truncate_spec notes budget used : used <= budget ->
  let '(l, u) := truncate_notes_to_budget notes budget used in
  u = used + sum_list_with length l /\ u <= budget /\ length l <= length notes
  /\ forall i t, l !! i = Some t -> exists n, notes !! i = Some n /\ t `prefix_of` n.
Proof.
  revert used. induction notes as [|n notes IH]; intros used Hu; cbn [truncate_notes_to_budget].
  { cbn. split_and!; [lia|lia|lia|done]. }
  destruct (Nat.eqb_spec (budget - used) 0) as [E|E]; [cbn; split_and!; [lia|lia|lia|done]|].
  specialize (IH (used + Nat.min (length n) (budget - used)) ltac:(lia)).
  destruct (truncate_notes_to_budget notes budget _) as [l u]. destruct IH as (H1 & H2 & H3 & H4). cbn [sum_list_with].
  assert (length (if (budget - used <? length n)%nat then take (budget - used) n else n) = Nat.min (length n) (budget - used)) as L.
  { destruct (Nat.ltb_spec (budget - used) (length n)); rewrite ?length_take; lia. }
  split_and!; [unfold compose in *; rewrite L; lia|done|cbn; lia|].
  intros [|i] t Ht; cbn in Ht.
  - injection Ht as <-. exists n. split; [done|].
    match goal with |- (if ?b then _ else _) `prefix_of` _ => destruct b end; [|reflexivity].
    exists (drop (budget - used) n). by rewrite take_drop.
  - by apply H4.
Qed.

Section inheritance.
Context {V : Type} {W : Type} {HSub : SubTurns V W}.

(** With the gate closed, or a configuration that does not load, a sub-agent
    inherits nothing.  With the gate open it inherits the first notes of the
    parent, their contents cut to a prefix, at most as many characters as the
    budget halved once per level and never below 512; a skill comes before them,
    and then at most five notes are left.  The policy is the one of the cell. *)
Theorem inheritance_exact agent prompt depth (w : W) :
  let '(session, sub) := compose_sub_session (V := V) agent prompt depth w in
  ss_policy session = sensitivity_cell (V := V) w
  /\ match inheritance_config (V := V) w with
     | Ok (true, base) =>
       knowledge_chars sub <= Nat.max (base / 2 ^ Nat.min depth 31) KNOWLEDGE_BUDGET_CHARS_MIN
       /\ (forall i n, inherited sub !! i = Some n -> exists p, knowledge_cell (V := V) w !! i = Some p
             /\ n_content n `prefix_of` n_content p /\ n_path n = n_path p /\ n_sensitivity n = n_sensitivity p)
       /\ ss_knowledge session = match skill_hit (V := V) prompt w with
                                 | Some (_, note) => take M1_TOP_K (note :: inherited sub)
                                 | None => inherited sub
                                 end
     | _ => ss_knowledge session = [] /\ inherited sub = []
     end.
Proof.
  unfold compose_sub_session, inheritance_budget_chars. destruct (inheritance_config w) as [[[] base]|e]; [|done..].
  rewrite Nat.shiftr_div_pow2. set (budget := Nat.max _ _). pose proof (truncate_spec (map n_content (knowledge_cell w)) budget 0 ltac:(lia)) as T.
  assert (knowledge_chars {| inherited := truncate_notes (knowledge_cell (V := V) w) budget; hits := []; budget_chars := budget |} <= budget
    /\ forall i n, truncate_notes (knowledge_cell (V := V) w) budget !! i = Some n -> exists p, knowledge_cell (V := V) w !! i = Some p
             /\ n_content n `prefix_of` n_content p /\ n_path n = n_path p /\ n_sensitivity n = n_sensitivity p) as [K1 K2].
  { unfold truncate_notes. destruct (truncate_notes_to_budget _ budget 0) as [l u]. destruct T as (T1 & T2 & T3 & T4). cbn [fst]. split.
    - assert (sum_list_with length l <= budget) as Hb by (cbn in T1; lia). etrans; [|exact Hb]. clear.
      unfold knowledge_chars. cbn [inherited]. generalize (knowledge_cell w). intros ns.
      revert l. induction ns as [|n ns IH]; intros [|t l]; cbn; [lia..|]. specialize (IH l). unfold compose in *. lia.
    - intros i n Hi. rewrite lookup_zip_with in Hi. destruct (knowledge_cell w !! i) as [p|] eqn:Hp; [|done]. cbn in Hi.
      destruct (l !! i) as [t|] eqn:Ht; [|done]. cbn in Hi. injection Hi as <-. exists p.
      destruct (T4 i t Ht) as (q & Hq & Hpre). rewrite list_lookup_fmap, Hp in Hq. injection Hq as <-. by split_and!. }
  destruct (skill_hit prompt w) as [[skill note]|]; cbn [ss_policy ss_knowledge inherited]; by split_and!.
Qed.
End inheritance.

(** ** Closed runs *)

(** A world of replies still to come and a clock that a round advances. *)
Record toy := { replies : list text; time : N; pace : N; policy : Sensitivity; open_gate : bool; notes : list Note }.
Definition after_round (w : toy) : toy :=
  {| replies := tail (replies w); time := (time w + pace w)%N; pace := pace w; policy := policy w;
     open_gate := open_gate w; notes := notes w |}.
Definition call_of (name : string) (args : list (string * jval)) : jval := JObj [("tool", JStr name); ("args", JObj args)].
#[local] Instance toy_turns : SubTurns jval toy := {
  j_parse_block b :=
    if bool_decide (trim b = utf8 "LIST") then Ok (call_of "fs.list" [])
    else if bool_decide (trim b = utf8 "DELEGATE") then Ok (call_of "delegate.task" [("agent", JStr "Explore"); ("prompt", JStr "look")])
    else Err (utf8 "expected value");
  normalize_call name args := Ok {| ti_name := name; ti_args := args |};
  inheritance_config w := Ok (open_gate w, 4000);
  sensitivity_cell := policy;
  knowledge_cell := notes;
  skill_hit _ _ := None;
  can_build _ _ := true;
  reserve_tokens _ w := (Ok true, {| replies := replies w; time := (time w + pace w)%N; pace := pace w; policy := policy w;
                                     open_gate := open_gate w; notes := notes w |});
  record_usage _ w := w;
  run_round _ _ _ _ w := (match replies w with r :: _ => Ok r | [] => Err (utf8 "no reply") end, after_round w);
  clock := time;
  use_tool _ w := (Ok (JStr "listed"), w);
  error_text _ := utf8 "tool error";
}.
Fixpoint toy_dispatch (run : ToolInvocation (V := jval) -> sub_world jval toy -> result jval KernelError * sub_world jval toy)
    (tools : list string) (invs : list (ToolInvocation (V := jval))) (d : sub_world jval toy)
    : result (list (ToolInvocation (V := jval) * jval)) KernelError * sub_world jval toy :=
  match invs with
  | [] => (Ok [], d)
  | inv :: rest =>
    if bool_decide (ti_name inv ∈ tools) then
      let '(r, d1) := run inv d in
      match r with
      | Err e => (Err e, d1)
      | Ok v => let '(rs, d2) := toy_dispatch run tools rest d1 in
                (match rs with Ok l => Ok ((inv, v) :: l) | Err e => Err e end, d2)
      end
    else (Err (ToolNotFound (ti_name inv)), d)
  end.
#[local] Instance toy_dispatcher : Dispatcher jval (sub_world jval toy) := { dispatch := toy_dispatch }.
Lemma toy_dispatch_only (P : sub_world jval toy -> Prop) run tools invs d :
  (forall inv d, inv ∈ invs -> ti_name inv ∈ tools -> P d -> P (run inv d).2) -> P d -> P (toy_dispatch run tools invs d).2.
Proof.
  revert d. induction invs as [|inv invs IH]; intros d Hrun Hd; cbn [toy_dispatch]; [done|].
  case_bool_decide as Hin; [|done]. pose proof (Hrun inv d ltac:(by left) Hin Hd) as H1.
  destruct (run inv d) as [[v|e] d1]; cbn [snd] in H1; [|done].
  specialize (IH d1 ltac:(intros; apply Hrun; [by right|done|done]) H1). by destruct (toy_dispatch run tools invs d1).
Qed.
#[local] Instance toy_laws : DispatcherLaws jval toy := {
  hook_change _ _ := False;
  dispatch_only P run tools invs d Hrun _ := toy_dispatch_only P run tools invs d Hrun;
}.
#[local] Instance toy_files : FileSystem :=
  {| symlink_metadata _ := None; canonicalize p := Some p; path_exists _ := false; user_root := components (utf8 "/home/u/.zen") |}.

Definition toy_tool (overlay : list string) : DelegateTool :=
  tool_of_config {| cfg_enabled := None; cfg_timeout_secs := None; cfg_max_depth := Some 3%N; cfg_max_concurrent := None |}
    overlay ["fs.read"; "fs.list"; "delegate.task"; "plan.execute"] WorkspaceWrite (Some (components (utf8 "/ws"))).
Definition toy_world (l : list string) (pace : N) : toy :=
  {| replies := map utf8 l; time := 0; pace := pace; policy := Private; open_gate := false; notes := [] |}.
Definition ask (agent prompt : string) : jval := JObj [("agent", JStr agent); ("prompt", JStr prompt)].
Definition toy_run (overlay l : list string) (pace : N) (args : jval) : jval * sub_world jval toy :=
  delegate_task (toy_tool overlay) (fun _ p => p) args {| outer := toy_world l pace; events := [] |}.
Definition calls_list : string := "```json LIST ```".
Definition calls_delegate : string := "```json DELEGATE ```".
Definition response_of (v : jval) : option string := match jval_get v "response" with Some (JStr s) => Some s | _ => None end.
Definition has_error (v : jval) : bool := bool_decide (is_Some (jval_get v "error")).

(** Which sub-turns were started. *)
Definition spawns {V} (l : list (event V)) : list (string * string * nat) :=
  omap (fun e => match e with Spawned p c k _ => Some (p, c, k) | _ => None end) l.

(** An overlay that grants the tool, and a planner that uses it. *)
Example nested_run : spawns (events (toy_run ["delegate.*"] [calls_delegate; "found"; "done"] 0 (ask "Metis" "review")).2)
  = [("Sisyphus", "Metis", 1); ("Metis", "Explore", 2)].
Proof. by vm_compute. Qed.

(** A sub-agent that calls tools to the last round, and one whose deadline is over
    before the first, have answered nothing: the note that is put after the
    answer makes the checks for an empty answer pass, and both count as done. *)
Example cut_is_reported_done :
  (let v := (toy_run [] [calls_list; calls_list; calls_list; calls_list] 0 (ask "Explore" "look")).1 in
   response_of v = Some (calls_list ++ to_string cap_note) /\ has_error v = false)
  /\ (let v := (toy_run [] [] (10 ^ 12) (ask "Explore" "look")).1 in
      response_of v = Some (to_string deadline_note) /\ has_error v = false).
Proof. by vm_compute. Qed.

(** An answer that is given in the fourth round is complete, and is marked as cut. *)
Example complete_marked_cut :
  response_of (toy_run [] [calls_list; calls_list; calls_list; "the answer"] 0 (ask "Explore" "look")).1
  = Some ("the answer" ++ to_string cap_note).
Proof. by vm_compute. Qed.

(** A path under a subtree of the global root: the file that [fs.write] would make
    is there, and what is validated for the artifact is the path in the working
    directory. *)
Example artifact_elsewhere :
  resolve_agent_path (utf8 "vault/a.md") = components (utf8 "/home/u/.zen/vault/a.md")
  /\ components (utf8 "vault/a.md") <> components (utf8 "/home/u/.zen/vault/a.md").
Proof. by vm_compute. Qed.

(** ** Witnesses *)

Lemma toy_keeps : keeps (V := jval) (fun w => sensitivity_cell (V := jval) w = Private).
Proof. by split. Qed.

Lemma delegation_tree_bounded_witness :
  spawns (events (toy_run ["delegate.*"] [calls_delegate; "found"; "done"] 0 (ask "Metis" "review")).2)
    = [("Sisyphus", "Metis", 1); ("Metis", "Explore", 2)]
  /\ Forall (fun e => match e with
                   | Spawned parent child depth tools =>
                     1 <= depth <= Nat.min 3 2
                     /\ (exists rp rc, role_of parent = Ok rp /\ role_of child = Ok rc /\ may_spawn rp rc = true)
                     /\ NoDup tools /\ PLAN_TOOL_NAME ∉ tools
                     /\ (forall t, t ∈ tools -> t ∈ registered (toy_tool ["delegate.*"])
                           /\ (t ∈ resolve_tool_ids child \/ overlaid ["delegate.*"] t))
                     /\ (depth = 3 -> forall t, t ∈ tools -> starts_with (utf8 t) (utf8 "delegate.") = false)
                   | _ => True
                   end) (events (toy_run ["delegate.*"] [calls_delegate; "found"; "done"] 0 (ask "Metis" "review")).2).
Proof. split; [by vm_compute|]. apply (delegation_tree_bounded (toy_tool ["delegate.*"])). Defined.

Lemma sub_rounds_keep_policy_witness :
  omap (fun e => match e with Ran c k p => Some (c, k, p) | _ => None end)
    (events (toy_run ["delegate.*"] [calls_delegate; "found"; "done"] 0 (ask "Metis" "review")).2)
    = [("Metis", 1, Private); ("Explore", 2, Private); ("Metis", 1, Private)]
  /\ Forall (fun e => match e with Ran _ _ policy => policy = Private | _ => True end)
    (events (toy_run ["delegate.*"] [calls_delegate; "found"; "done"] 0 (ask "Metis" "review")).2).
Proof. split; [by vm_compute|]. apply (sub_rounds_keep_policy (toy_tool ["delegate.*"])); [apply toy_keeps|done]. Defined.

Definition two_tasks : jval := JObj [("tasks", JArr [ask "Explore" "look"; ask "Sisyphus" "no"])].
Definition two_requests : list ParsedDelegate := match parse_requests two_tasks with Ok l => l | Err _ => [] end.
Lemma batch_positional_witness : exists values d', invoke_with (toy_tool []) (fun _ p => p) (fun _ _ d => (JNull, d)) 0 "Sisyphus" two_tasks
      {| outer := toy_world ["found"] 0; events := [] |}
    = (match values with [v] => v | _ => j_obj [("results", j_arr values)] end, d')
  /\ length values = 2 /\ rejection (toy_tool []) (fun _ p => p) "Sisyphus" 0 2 <$> two_requests !! 1
    = Some (Some "spawn hierarchy violation: Orchestrator cannot spawn Orchestrator (001 arch A.1)").
Proof.
  destruct (batch_positional (toy_tool []) (fun _ p => p) (fun _ _ d => (JNull, d)) 0 "Sisyphus" two_tasks
    {| outer := toy_world ["found"] 0; events := [] |} two_requests ltac:(done) ltac:(by vm_compute)) as (values & d' & H1 & H2 & _).
  exists values, d'. split_and!; [exact H1|rewrite H2; by vm_compute|by vm_compute].
Defined.

Definition look : DelegateRequest :=
  {| r_agent := "Explore"; r_prompt := "look"; r_description := None; r_independent := true; r_artifact := None |}.
Definition no_nesting (agent : string) (args : jval) (d : sub_world jval toy) : jval * sub_world jval toy := (JNull, d).
Definition one_turn : list (string * jval) * sub_world jval toy :=
  run_single_composed (toy_tool []) no_nesting look 0 "Sisyphus" {| ss_agent := "Explore"; ss_policy := Private; ss_knowledge := [] |}
    {| inherited := []; hits := []; budget_chars := 0 |} no_contract {| outer := toy_world [calls_list; "the answer"] 0; events := [] |}.
Lemma sub_turn_result_witness : assoc "error" one_turn.1 = None /\ exists clean, trim clean <> [].
Proof.
  assert (assoc "error" one_turn.1 = None) as E by (by vm_compute). split; [exact E|].
  destruct (sub_turn_result (toy_tool []) no_nesting look 0 "Sisyphus" {| ss_agent := "Explore"; ss_policy := Private; ss_knowledge := [] |}
    {| inherited := []; hits := []; budget_chars := 0 |} no_contract {| outer := toy_world [calls_list; "the answer"] 0; events := [] |}
    one_turn.1 one_turn.2 (surjective_pairing one_turn) E) as (r & n & t & x & y & clean & e & _ & _ & _ & H & _).
  exists clean. by apply H.
Defined.
