(* ===== verification/Communities.v ===== *)
(** * Communities of the graph of notions

    Models zen-repo/src/communities.rs, the Louvain method.  A map of the standard
    library lists its entries in an order of its own, the class [HashIteration];
    an index of a map that is absent, and an [unwrap] of none, panic.  Weights are
    binary64; the sum of an empty iterator is -0.  The loop over levels has a unit
    of fuel per node of the graph and one more. *)

From S2P Require Import Prelude Ordering.
From Stdlib Require Import Lia SpecFloat.
Local Open Scope list_scope.
Local Open Scope string_scope.

(** ** Maps with an order of iteration *)

Class HashIteration := {
  iter : forall {A}, gmap string A -> list (string * A);
  iter_perm : forall {A} (m : gmap string A), iter m ≡ₚ map_to_list m;
}.

Record Community := { co_id : string; co_label : string; co_members : list (string * f64) }.
Abbreviation Adjacency := (gmap string (gmap string f64)).
Definition MAX_LOCAL_MOVING_PASSES : nat := 100.

(** [sort] on strings: equal strings cannot be told apart. *)
Definition sorted (l : list string) : list string := merge_sort String.le l.

(** [dedup]. *)
Fixpoint dedup (l : list string) : list string :=
  match l with
  | x :: (y :: _) as r => if bool_decide (x = y) then dedup r else x :: dedup r
  | _ => l
  end.

Section louvain.
Context {HIter : HashIteration}.

Definition keys {A} (m : gmap string A) : list string := map fst (iter m).
Definition degree_of (node : string) (neighbors : gmap string f64) : f64 :=
  f64_sum (map (fun x => if bool_decide (x.1 = node) then f64_mul (f64_of 2) x.2 else x.2) (iter neighbors)).
Definition degrees (adj : Adjacency) : gmap string f64 := map_imap (fun node nbrs => Some (degree_of node nbrs)) adj.

(** [*m.entry(k).or_insert(0.0) += w]. *)
Definition bump (m : gmap string f64) (k : string) (w : f64) : gmap string f64 :=
  <[k := f64_add (default f64_zero (m !! k)) w]> m.

(** ** Local moving *)

Record moving := { community : gmap string string; tot : gmap string f64; improved : bool }.

Definition weight_into (node : string) (comm : gmap string string) (k_i_in : gmap string f64) (x : string * f64)
    : outcome (gmap string f64) :=
  if bool_decide (x.1 = node) then Done k_i_in
  else let! c := index comm x.1 in Done (bump k_i_in c x.2).

Definition better (gamma m k_node : f64) (k_i_in tots : gmap string f64) (best : option string * f64) (c : string)
    : outcome (option string * f64) :=
  let! w := index k_i_in c in
  let! t := index tots c in
  let gain := f64_sub w (f64_div (f64_mul (f64_mul gamma t) k_node) (f64_mul (f64_of 2) m)) in
  Done (if SFltb best.2 gain then (Some c, gain) else best).

Definition move_node (adj : Adjacency) (gamma m : f64) (k : gmap string f64) (s : moving) (node : string) : outcome moving :=
  let! nbrs := index adj node in
  let! k_i_in := ofold (weight_into node (community s)) (iter nbrs) ∅ in
  let! cur := index (community s) node in
  let! k_node := index k node in
  let! t := index (tot s) cur in
  let tots := <[cur := f64_sub t k_node]> (tot s) in
  let! best := ofold (better gamma m k_node k_i_in tots) (sorted (keys k_i_in)) (None, f64_zero) in
  match best.1 with
  | Some b =>
    if bool_decide (b <> cur) then
      let! tb := index tots b in
      Done {| community := <[node := b]> (community s); tot := <[b := f64_add tb k_node]> tots; improved := true |}
    else
      let! tc := index tots cur in
      Done {| community := community s; tot := <[cur := f64_add tc k_node]> tots; improved := improved s |}
  | None =>
    let! tc := index tots cur in
    Done {| community := community s; tot := <[cur := f64_add tc k_node]> tots; improved := improved s |}
  end.

Fixpoint passes (n : nat) (adj : Adjacency) (gamma m : f64) (k : gmap string f64) (nodes : list string) (s : moving)
    : outcome (gmap string string) :=
  match n with
  | O => Done (community s)
  | S n' =>
    let! s' := ofold (move_node adj gamma m k) nodes {| community := community s; tot := tot s; improved := false |} in
    if improved s' then passes n' adj gamma m k nodes s' else Done (community s')
  end.

Definition louvain_pass (adj : Adjacency) (gamma : f64) : outcome (gmap string string) :=
  let k := degrees adj in
  let m := f64_div (f64_sum (map snd (iter k))) (f64_of 2) in
  let own := map_imap (fun node _ => Some node) adj in
  if SFleb m f64_zero then Done own
  else passes MAX_LOCAL_MOVING_PASSES adj gamma m k (sorted (keys adj)) {| community := own; tot := k; improved := false |}.

(** ** Aggregation *)

Definition community_names (comm : gmap string string) : gmap string string :=
  list_to_map (imap (fun i c => (c, "c" +:+ pretty i)) (dedup (sorted (map snd (iter comm))))).

(** [*next.entry(a).or_default().entry(b).or_insert(0.0) += w]. *)
Definition bump_edge (next : Adjacency) (a b : string) (w : f64) : Adjacency := <[a := bump (default ∅ (next !! a)) b w]> next.

Definition aggregate_edge (adj : Adjacency) (comm name : gmap string string) (node ci : string) (next : Adjacency) (nbr : string)
    : outcome Adjacency :=
  if String.leb nbr node then Done next
  else
    let! c := index comm nbr in
    let! cj := index name c in
    let! nbrs := index adj node in
    let! w := index nbrs nbr in
    Done (if bool_decide (ci = cj) then bump_edge next ci ci w else bump_edge (bump_edge next ci cj w) cj ci w).

Definition aggregate_node (adj : Adjacency) (comm name : gmap string string) (next : Adjacency) (node : string) : outcome Adjacency :=
  let! c := index comm node in
  let! ci := index name c in
  let! nbrs := index adj node in
  ofold (aggregate_edge adj comm name node ci) (sorted (keys nbrs)) next.

Definition aggregate (adj : Adjacency) (comm : gmap string string) : outcome (Adjacency * gmap string string) :=
  let name := community_names comm in
  let! next := ofold (aggregate_node adj comm name) (sorted (keys adj)) ∅ in
  Done (foldl (fun next c => <[c := default ∅ (next !! c)]> next) next (map snd (iter name)), name).

(** ** The communities of the original nodes *)

(** [entry(key).or_default().extend(members[node])], for the nodes of a partition. *)
Definition gather (members : gmap string (list string)) (key : string -> outcome string)
    (grouped : gmap string (list string)) (x : string * string) : outcome (gmap string (list string)) :=
  let! c := key x.2 in
  let! ms := index members x.1 in
  Done (<[c := (default [] (grouped !! c) ++ ms)%list]> grouped).

(** [iter().min()], which is none for an empty list; none is the least. *)
Definition least (l : list string) : option string :=
  best_of (fun y x => negb (String.ltb x y)) l.
Definition least_before (a b : list string) : bool :=
  match least a, least b with
  | None, Some _ => true
  | Some x, Some y => String.ltb x y
  | _, None => false
  end.

(** [max_by]: of members that compare equal, the last. *)
Definition heavier (degree : gmap string f64) (a b : string) : bool :=
  let wa := total_key (default f64_zero (degree !! a)) in
  let wb := total_key (default f64_zero (degree !! b)) in
  bool_decide (key_lt wb wa) || (bool_decide (~ key_lt wa wb) && String.ltb b a).
Definition heaviest (degree : gmap string f64) (l : list string) : option string :=
  best_of (heavier degree) l.

Definition build_communities (grouped : gmap string (list string)) (degree : gmap string f64) : list Community :=
  imap (fun i members =>
    let members := sorted members in
    {| co_id := "c" +:+ pretty i; co_label := default "" (heaviest degree members);
       co_members := map (fun m => (m, default f64_zero (degree !! m))) members |})
    (sort_by (fun y x => least_before y x) (map snd (iter grouped))).

Fixpoint louvain_levels (fuel : nat) (gamma : f64) (degree : gmap string f64) (members : gmap string (list string)) (current : Adjacency)
    : outcome (list Community) :=
  match fuel with
  | O => OutOfFuel
  | S fuel' =>
    let! comm := louvain_pass current gamma in
    let! x := aggregate current comm in
    let '(next, name) := x in
    if (size next =? size current)%nat then
      let! grouped := ofold (gather members Done) (iter comm) ∅ in
      Done (build_communities grouped degree)
    else
      let! members' := ofold (gather members (index name)) (iter comm) ∅ in
      louvain_levels fuel' gamma degree members' next
  end.

Definition louvain_communities (adjacency : Adjacency) (resolution : f64) : outcome (list Community) :=
  if bool_decide (adjacency = ∅) then Done []
  else louvain_levels (S (size adjacency)) resolution (degrees adjacency) (map_imap (fun n _ => Some [n]) adjacency) adjacency.
End louvain.
