(* ===== verification/CommunitiesProps.v ===== *)
(** * What the Louvain method guarantees

    On every graph whose edges lead to nodes of the graph the method ends,
    without a panic, and what it returns is a partition of the nodes, whatever the
    weights, the resolution and the order in which maps are listed. *)

From S2P Require Import Prelude Ordering Communities.
From Stdlib Require Import Lia SpecFloat.
Local Open Scope list_scope.

(** ** Sorted lists of strings *)

Lemma sorted_perm l : sorted l ≡ₚ l.
Proof. apply merge_sort_Permutation. Qed.
Lemma sorted_sorted l : StronglySorted String.le (sorted l).
Proof. apply StronglySorted_merge_sort; apply _. Qed.
Lemma sorted_unique l1 l2 : l1 ≡ₚ l2 -> sorted l1 = sorted l2.
Proof.
  intros H. apply (StronglySorted_unique String.le); [apply sorted_sorted..|]. by rewrite !sorted_perm.
Qed.

Lemma dedup_elem x l : x ∈ dedup l <-> x ∈ l.
Proof.
  induction l as [|y l IH]; [done|]. cbn [dedup]. destruct l as [|z l]; [done|].
  case_bool_decide as E; [subst z|]; rewrite !elem_of_cons, ?IH, !elem_of_cons; tauto.
Qed.
Lemma dedup_sorted l : StronglySorted String.le l -> NoDup (dedup l).
Proof.
  induction 1 as [|x l Hs IH Hx]; [constructor|]. cbn [dedup]. destruct l as [|y l].
  { apply NoDup_singleton. }
  case_bool_decide as E; [done|]. constructor; [|done]. rewrite dedup_elem. intros Hin.
  apply Forall_cons in Hx as [Hxy _]. assert (y = x) as ->; [|done]. inversion Hs as [|? ? _ Hy]; subst.
  apply elem_of_cons in Hin as [->|Hin]; [done|]. rewrite Forall_forall in Hy.
  apply (anti_symm String.le); [by apply Hy|done].
Qed.

(** ** Listing maps *)

Section listing.
Context {HIter : HashIteration}.

Lemma keys_elem {A} (m : gmap string A) k : k ∈ keys m <-> k ∈ dom m.
Proof.
  unfold keys. rewrite iter_perm, list_elem_of_fmap, elem_of_dom. split.
  - intros ([k' a] & -> & H%elem_of_map_to_list). by exists a.
  - intros [a H]. exists (k, a). split; [done|]. by apply elem_of_map_to_list.
Qed.
Lemma iter_elem {A} (m : gmap string A) k a : (k, a) ∈ iter m <-> m !! k = Some a.
Proof. by rewrite iter_perm, elem_of_map_to_list. Qed.
Lemma iter_dom {A} (m : gmap string A) x : x ∈ iter m -> x.1 ∈ dom m.
Proof. destruct x as [k a]. rewrite iter_elem, elem_of_dom. eauto. Qed.
Lemma values_elem {A} (m : gmap string A) a : a ∈ map snd (iter m) <-> exists k, m !! k = Some a.
Proof.
  rewrite list_elem_of_fmap. split.
  - intros ([k b] & -> & H%iter_elem). eauto.
  - intros [k H]. exists (k, a). split; [done|]. by apply iter_elem.
Qed.
Lemma index_dom {A} (m : gmap string A) k : k ∈ dom m -> exists a, index m k = Done a /\ m !! k = Some a.
Proof. intros [a H]%elem_of_dom. exists a. unfold index. by rewrite H. Qed.

Lemma dom_each {A B} (f : string -> A -> B) (m : gmap string A) : dom (map_imap (fun k a => Some (f k a)) m) = dom m.
Proof.
  apply set_eq. intros k. rewrite !elem_of_dom, map_lookup_imap. destruct (m !! k); cbn.
  - split; eauto.
  - by split; intros [? ?].
Qed.

(** All that the lists of a map hold. *)
Definition flat (g : gmap string (list string)) : list string := concat (map snd (map_to_list g)).
Lemma flat_split g c : flat g ≡ₚ default [] (g !! c) ++ flat (delete c g).
Proof.
  unfold flat. destruct (g !! c) as [l|] eqn:E; cbn [default].
  - by rewrite <- (map_to_list_delete g c l E).
  - by rewrite delete_id.
Qed.
Lemma flat_extend g c l : flat (<[c := default [] (g !! c) ++ l]> g) ≡ₚ flat g ++ l.
Proof.
  rewrite (flat_split (<[c := _]> g) c), lookup_insert_eq, delete_insert_eq. cbn [default id].
  rewrite (flat_split g c), <- !app_assoc. apply Permutation_app_head, Permutation_app_comm.
Qed.
Lemma flat_iter g : concat (map snd (iter g)) ≡ₚ flat g.
Proof. unfold flat. by rewrite iter_perm. Qed.
Lemma flat_elem g x : x ∈ flat g <-> exists k l, g !! k = Some l /\ x ∈ l.
Proof.
  unfold flat. rewrite list_elem_of_In, in_concat. split.
  - intros (l & H%list_elem_of_In & Hx%list_elem_of_In). apply list_elem_of_fmap in H as ([k l'] & -> & H).
    exists k, l'. by rewrite elem_of_map_to_list in H.
  - intros (k & l & H & Hx). exists l. split; apply list_elem_of_In; [|done].
    apply list_elem_of_fmap. exists (k, l). by rewrite elem_of_map_to_list.
Qed.
End listing.

(** ** A pass never panics *)

(** Every edge leads to a node. *)
Definition closed (adj : Adjacency) : Prop := forall n nbrs m, adj !! n = Some nbrs -> m ∈ dom nbrs -> m ∈ dom adj.
(** Every node has a community, named after a node. *)
Definition assigned (adj : Adjacency) (comm : gmap string string) : Prop :=
  dom comm = dom adj /\ (forall n c, comm !! n = Some c -> c ∈ dom adj).

Section moves.
Context {HIter : HashIteration} (adj : Adjacency) (Hclosed : closed adj).

Definition moving_ok (s : moving) : Prop := assigned adj (community s) /\ dom (tot s) = dom adj.

Lemma dom_degrees a : dom (degrees a) = dom a.
Proof. apply dom_each. Qed.
Lemma assigned_own : assigned adj (map_imap (fun node _ => Some node) adj).
Proof.
  split.
  - apply dom_each.
  - intros n c. rewrite map_lookup_imap. intros (a & E & H)%bind_Some. injection H as <-. by apply elem_of_dom_2 in E.
Qed.

Lemma weight_into_ok node comm k x nbrs n : assigned adj comm -> adj !! n = Some nbrs -> x ∈ iter nbrs -> dom k ⊆ dom adj ->
  exists k', weight_into node comm k x = Done k' /\ dom k' ⊆ dom adj.
Proof.
  intros [Hd Hc] Hn Hx Hk. unfold weight_into. case_bool_decide; [eauto|].
  destruct (index_dom comm x.1) as (c & -> & E); [rewrite Hd; eapply Hclosed; [exact Hn|by apply iter_dom]|].
  cbn [obind]. eexists. split; [done|]. unfold bump. rewrite dom_insert_L. apply Hc in E. set_solver.
Qed.

Lemma better_ok gamma m kn k tots best c : dom k ⊆ dom adj -> dom tots = dom adj -> c ∈ sorted (keys k) ->
  (forall b, best.1 = Some b -> b ∈ dom adj) ->
  exists best', better gamma m kn k tots best c = Done best' /\ (forall b, best'.1 = Some b -> b ∈ dom adj).
Proof.
  intros Hk Ht Hc Hb. rewrite sorted_perm, keys_elem in Hc. unfold better.
  destruct (index_dom k c Hc) as (w & -> & _). cbn [obind].
  destruct (index_dom tots c) as (t & -> & _); [rewrite Ht; set_solver|]. cbn [obind].
  eexists. split; [done|]. destruct (SFltb _ _); [|done]. cbn. intros b [= <-]. set_solver.
Qed.

Lemma move_node_ok gamma m k s node : dom k = dom adj -> node ∈ dom adj -> moving_ok s ->
  exists s', move_node adj gamma m k s node = Done s' /\ moving_ok s'.
Proof.
  intros Hk Hn [[Hd Hc] Ht]. unfold move_node.
  destruct (index_dom adj node Hn) as (nbrs & -> & En). cbn [obind].
  destruct (ofold_inv (fun k => dom k ⊆ dom adj) (weight_into node (community s)) (iter nbrs) ∅) as (kin & -> & Hkin).
  { set_solver. }
  { intros k' x Hx Hk'. by eapply weight_into_ok. }
  cbn [obind].
  destruct (index_dom (community s) node) as (cur & -> & Ecur); [by rewrite Hd|]. cbn [obind].
  destruct (index_dom k node) as (kn & -> & _); [by rewrite Hk|]. cbn [obind].
  pose proof (Hc _ _ Ecur) as Hcur.
  destruct (index_dom (tot s) cur) as (t & -> & _); [by rewrite Ht|]. cbn [obind].
  set (tots := <[cur := _]> (tot s)).
  assert (dom tots = dom adj) as Htots by (unfold tots; rewrite dom_insert_L; set_solver).
  destruct (ofold_inv (fun best : option string * f64 => forall b, best.1 = Some b -> b ∈ dom adj)
    (better gamma m kn kin tots) (sorted (keys kin)) (None, f64_zero)) as (best & -> & Hbest); [done| |].
  { intros best c Hcc Hb. by apply better_ok. }
  cbn [obind].
  assert (exists tc, index tots cur = Done tc) as [tc Etc] by (destruct (index_dom tots cur) as (? & ? & _); [by rewrite Htots|eauto]).
  assert (forall c v, c ∈ dom adj -> dom (<[c := v]> tots) = dom adj) as Hins by (intros; rewrite dom_insert_L; set_solver).
  destruct best.1 as [b|] eqn:Eb; [case_bool_decide|].
  - pose proof (Hbest b eq_refl) as Hb. destruct (index_dom tots b) as (tb & -> & _); [by rewrite Htots|]. cbn [obind].
    eexists. split; [done|]. split; [split|]; cbn [community tot].
    + rewrite dom_insert_L. set_solver.
    + intros n c. destruct (decide (n = node)) as [->|N]; [rewrite lookup_insert_eq; by intros [= <-]|].
      rewrite lookup_insert_ne by done. apply Hc.
    + by apply Hins.
  - rewrite Etc. cbn [obind]. eexists. split; [done|]. split; [done|]. by apply Hins.
  - rewrite Etc. cbn [obind]. eexists. split; [done|]. split; [done|]. by apply Hins.
Qed.

Lemma passes_ok n gamma m k nodes s : dom k = dom adj -> (forall x, x ∈ nodes -> x ∈ dom adj) -> moving_ok s ->
  exists comm, passes n adj gamma m k nodes s = Done comm /\ assigned adj comm.
Proof.
  intros Hk Hn. revert s. induction n as [|n IH]; intros s Hs; cbn [passes]; [exists (community s); split; [done|apply Hs]|].
  destruct (ofold_inv moving_ok (move_node adj gamma m k) nodes {| community := community s; tot := tot s; improved := false |})
    as (s' & -> & Hs'); [done| |].
  { intros s' x Hx H'. apply move_node_ok; auto. }
  cbn [obind]. destruct (improved s'); [by apply IH|]. eexists. split; [done|]. apply Hs'.
Qed.

Lemma louvain_pass_ok gamma : exists comm, louvain_pass adj gamma = Done comm /\ assigned adj comm.
Proof.
  unfold louvain_pass. destruct (SFleb _ _); [eexists; split; [done|apply assigned_own]|].
  apply passes_ok; [apply dom_degrees| |].
  - intros x. by rewrite sorted_perm, keys_elem.
  - split; [apply assigned_own|apply dom_degrees].
Qed.
End moves.

(** ** Aggregation *)

Section aggregation.
Context {HIter : HashIteration}.

Definition distinct_communities (comm : gmap string string) : list string := dedup (sorted (map snd (iter comm))).
Definition name_of (i : nat) : string := ("c" +:+ pretty i)%string.
Lemma name_of_inj i j : name_of i = name_of j -> i = j.
Proof. unfold name_of. intros H. injection H as H. by apply pretty_nat_inj in H. Qed.

Lemma distinct_elem comm c : c ∈ distinct_communities comm <-> exists n, comm !! n = Some c.
Proof. unfold distinct_communities. by rewrite dedup_elem, sorted_perm, values_elem. Qed.
Lemma length_dedup l : length (dedup l) <= length l.
Proof.
  induction l as [|x l IH]; [done|]. cbn [dedup]. destruct l as [|y l]; [done|]. case_bool_decide; cbn [length] in *; lia.
Qed.

Lemma names_lookup comm c x : community_names comm !! c = Some x <->
  exists i, distinct_communities comm !! i = Some c /\ x = name_of i.
Proof.
  unfold community_names. fold (distinct_communities comm).
  rewrite <- elem_of_list_to_map.
  - rewrite elem_of_lookup_imap. split.
    + intros (i & y & [= -> ->] & H). by exists i.
    + intros (i & H & ->). by exists i, c.
  - assert (fst <$> imap (fun i c => (c, ("c" +:+ pretty i)%string)) (distinct_communities comm) = distinct_communities comm) as E.
    { rewrite fmap_imap. apply list_eq. intros i. rewrite list_lookup_imap. by destruct (_ !! i). }
    rewrite E. apply dedup_sorted, sorted_sorted.
Qed.
Lemma names_dom comm n c : comm !! n = Some c -> exists x, community_names comm !! c = Some x.
Proof.
  intros H. assert (c ∈ distinct_communities comm) as [i Hi]%list_elem_of_lookup_1 by (apply distinct_elem; eauto).
  exists (name_of i). apply names_lookup. eauto.
Qed.
Lemma names_inj comm c1 c2 x : community_names comm !! c1 = Some x -> community_names comm !! c2 = Some x -> c1 = c2.
Proof.
  rewrite !names_lookup. intros (i & Hi & ->) (j & Hj & E). apply name_of_inj in E as ->. congruence.
Qed.

(** The names that the communities get. *)
Definition new_names (comm : gmap string string) : gset string := list_to_set (map snd (iter (community_names comm))).
Lemma new_names_elem comm x : x ∈ new_names comm <-> exists c, community_names comm !! c = Some x.
Proof. unfold new_names. by rewrite elem_of_list_to_set, values_elem. Qed.

Lemma size_list_le (l : list string) : size (list_to_set l : gset string) <= length l.
Proof.
  induction l as [|x l IH]; cbn [list_to_set length]; [by rewrite size_empty|].
  rewrite size_union_alt, size_singleton.
  assert (size (list_to_set l ∖ {[x]} : gset string) <= size (list_to_set l : gset string)) by (apply subseteq_size; set_solver).
  lia.
Qed.
Lemma new_names_size comm : size (new_names comm) <= size comm.
Proof.
  unfold new_names. etrans; [apply size_list_le|]. rewrite length_map, iter_perm, length_map_to_list.
  unfold community_names. fold (distinct_communities comm). rewrite <- size_dom, dom_list_to_map_L.
  etrans; [apply size_list_le|]. rewrite length_fmap, length_imap. unfold distinct_communities.
  etrans; [apply length_dedup|]. by rewrite sorted_perm, length_map, iter_perm, length_map_to_list.
Qed.

Definition named (N : gset string) (next : Adjacency) : Prop := forall a nbrs, next !! a = Some nbrs -> a ∈ N /\ dom nbrs ⊆ N.
Lemma named_bump N next a b w : named N next -> a ∈ N -> b ∈ N -> named N (bump_edge next a b w).
Proof.
  intros H Ha Hb x nbrs. unfold bump_edge. destruct (decide (a = x)) as [<-|E].
  - rewrite lookup_insert_eq. intros [= <-]. split; [done|]. unfold bump. rewrite dom_insert_L.
    destruct (next !! a) as [old|] eqn:Eo; cbn [default]; [apply H in Eo as [_ Eo]|]; set_solver.
  - rewrite lookup_insert_ne by done. apply H.
Qed.

Context (adj : Adjacency) (Hclosed : closed adj) (comm : gmap string string) (Hcomm : assigned adj comm).
Let name := community_names comm.

Lemma node_name n : n ∈ dom adj -> exists c x, index comm n = Done c /\ comm !! n = Some c /\ index name c = Done x /\ name !! c = Some x /\ x ∈ new_names comm.
Proof.
  intros Hn. destruct Hcomm as [Hd _]. destruct (index_dom comm n) as (c & Ei & E); [by rewrite Hd|].
  destruct (names_dom comm n c E) as [x Ex]. exists c, x. split_and!; try done.
  - unfold index. change (name !! c) with (community_names comm !! c). by rewrite Ex.
  - apply new_names_elem. eauto.
Qed.

Lemma aggregate_edge_ok node nbrs ci next nbr : adj !! node = Some nbrs -> nbr ∈ sorted (keys nbrs) -> ci ∈ new_names comm ->
  named (new_names comm) next ->
  exists next', aggregate_edge adj comm name node ci next nbr = Done next' /\ named (new_names comm) next'.
Proof.
  intros Hn Hb Hci Hnext. rewrite sorted_perm, keys_elem in Hb. unfold aggregate_edge. destruct (String.leb _ _); [eauto|].
  destruct (node_name nbr) as (c & cj & -> & _ & Hj & _ & Hcj); [by eapply Hclosed|]. cbn [obind]. rewrite Hj. cbn [obind].
  unfold index at 1. rewrite Hn. cbn [obind]. destruct (index_dom nbrs nbr Hb) as (w & -> & _). cbn [obind].
  eexists. split; [done|]. case_bool_decide; auto using named_bump.
Qed.
Lemma aggregate_node_ok next node : node ∈ sorted (keys adj) -> named (new_names comm) next ->
  exists next', aggregate_node adj comm name next node = Done next' /\ named (new_names comm) next'.
Proof.
  intros Hn Hnext. rewrite sorted_perm, keys_elem in Hn. unfold aggregate_node.
  destruct (node_name node Hn) as (c & ci & -> & _ & Hi & _ & Hci). cbn [obind]. rewrite Hi. cbn [obind].
  destruct (index_dom adj node Hn) as (nbrs & -> & En). cbn [obind].
  apply ofold_inv; [done|]. intros next' nbr Hb H'. by eapply aggregate_edge_ok.
Qed.

Lemma or_default_lookup (next : Adjacency) cs a : foldl (fun next c => <[c := default ∅ (next !! c)]> next) next cs !! a =
  match next !! a with Some nbrs => Some nbrs | None => if bool_decide (a ∈ cs) then Some ∅ else None end.
Proof.
  revert next. induction cs as [|c cs IH]; intros next; cbn [foldl].
  - rewrite bool_decide_false by (by intros ?%elem_of_nil). by destruct (next !! a).
  - rewrite IH. destruct (decide (c = a)) as [->|E].
    + rewrite lookup_insert_eq. destruct (next !! a); cbn [default]; [done|]. rewrite bool_decide_true by (by left). done.
    + rewrite lookup_insert_ne by done. destruct (next !! a); [done|].
      rewrite (bool_decide_ext (a ∈ c :: cs) (a ∈ cs)); [done|]. rewrite elem_of_cons. naive_solver.
Qed.

Lemma aggregate_ok : exists next, aggregate adj comm = Done (next, name) /\ closed next /\ dom next = new_names comm
  /\ size next <= size adj.
Proof.
  unfold aggregate. fold name.
  destruct (ofold_inv (named (new_names comm)) (aggregate_node adj comm name) (sorted (keys adj)) ∅) as (next & -> & Hn).
  { intros a nbrs. by rewrite lookup_empty. }
  { intros. by apply aggregate_node_ok. }
  cbn [obind]. eexists. split; [done|]. set (next' := foldl _ _ _).
  assert (dom next' = new_names comm) as Hd.
  { apply set_eq. intros a. rewrite elem_of_dom, new_names_elem, <- values_elem. unfold next'. rewrite or_default_lookup.
    destruct (next !! a) as [nbrs|] eqn:E.
    - split; [|by eexists]. intros _. apply values_elem, new_names_elem. exact (proj1 (Hn a nbrs E)).
    - fold name. case_bool_decide; split; [done|by eexists|by intros [? ?]|done]. }
  split_and!; [|done|].
  - intros a nbrs b Ha Hb. rewrite Hd. unfold next' in Ha. rewrite or_default_lookup in Ha.
    destruct (next !! a) as [nbrs'|] eqn:E; [|case_bool_decide; [|done]]; injection Ha as <-; [|set_solver].
    apply (Hn a nbrs' E). done.
  - rewrite <- size_dom, Hd. etrans; [apply new_names_size|]. destruct Hcomm as [E _].
    by rewrite <- (size_dom comm), E, size_dom.
Qed.
End aggregation.

(** ** Members *)

(** A partition of the nodes of the original graph among those of the current one. *)
Definition partitioned (nodes : list string) (g : gmap string (list string)) : Prop :=
  flat g ≡ₚ nodes /\ (forall k l, g !! k = Some l -> l <> []).

Section gathering.
Context {HIter : HashIteration}.

Lemma gather_ok nodes (members : gmap string (list string)) (key : string -> outcome string) comm (N : gset string) :
  partitioned nodes members -> dom comm = dom members -> (forall n c, comm !! n = Some c -> exists x, key c = Done x /\ x ∈ N) ->
  (forall x, x ∈ N -> exists n c, comm !! n = Some c /\ key c = Done x) ->
  exists g, ofold (gather members key) (iter comm) ∅ = Done g /\ partitioned nodes g /\ dom g = N.
Proof.
  intros [Hp Hne] Hd Hkey HN.
  set (P := fun (pre : list (string * string)) (g : gmap string (list string)) =>
    flat g ≡ₚ concat (omap (fun x => members !! x.1) pre) /\ (forall k l, g !! k = Some l -> l <> [])
    /\ forall x, x ∈ dom g <-> exists n c, (n, c) ∈ pre /\ key c = Done x).
  destruct (ofold_prefix P (gather members key) (iter comm) ∅) as (g & -> & Hg1 & Hg2 & Hg3).
  - split_and!; [done| |].
    + intros k l. by rewrite lookup_empty.
    + intros x. rewrite dom_empty_L. split; [set_solver|]. by intros (? & ? & ?%elem_of_nil & _).
  - intros pre [n c] post g E (H1 & H2 & H3).
    assert (comm !! n = Some c) as Ec by (apply iter_elem; rewrite E; apply elem_of_app; right; by left).
    unfold gather. cbn [fst snd]. destruct (Hkey n c Ec) as (x & Hx & _). rewrite Hx. cbn [obind].
    destruct (index_dom members n) as (ms & -> & Em); [rewrite <- Hd; by apply elem_of_dom_2 in Ec|]. cbn [obind].
    eexists. split; [done|]. split_and!.
    + rewrite flat_extend, H1, omap_app, concat_app. cbn. rewrite Em. cbn. by rewrite app_nil_r.
    + intros k l. destruct (decide (x = k)) as [<-|N']; [|rewrite lookup_insert_ne by done; apply H2].
      rewrite lookup_insert_eq. intros [= <-] [_ ?]%app_eq_nil. by apply (Hne n ms).
    + intros y. rewrite dom_insert_L, elem_of_union, elem_of_singleton, H3. split.
      * intros [->|(n' & c' & Hin & Hk)]; [exists n, c|exists n', c']; (split; [|done]); apply elem_of_app; [right; by left|by left].
      * intros (n' & c' & [Hin|Hin]%elem_of_app & Hk); [right; eauto|]. apply list_elem_of_singleton in Hin. left. congruence.
  - exists g. split; [done|]. split; [split; [|done]|].
    + rewrite Hg1, <- Hp. unfold flat. f_equiv.
      rewrite iter_perm. assert (omap (fun x => members !! x.1) (map_to_list comm) = omap (fun k => members !! k) (map fst (map_to_list comm))) as ->.
      { induction (map_to_list comm) as [|y l IH]; [done|]. cbn. by rewrite IH. }
      assert (map fst (map_to_list comm) ≡ₚ map fst (map_to_list members)) as ->.
      { apply NoDup_Permutation; [apply NoDup_fst_map_to_list..|]. intros k.
        assert (forall A (m : gmap string A), k ∈ map fst (map_to_list m) <-> k ∈ dom m) as K.
        { intros A m. rewrite elem_of_dom, list_elem_of_fmap. split.
          - intros ([k' a] & -> & H%elem_of_map_to_list). by exists a.
          - intros [a H]. exists (k, a). split; [done|]. by apply elem_of_map_to_list. }
        by rewrite !K, Hd. }
      assert (forall k l, (k, l) ∈ map_to_list members -> members !! k = Some l) as Hin by (intros; by apply elem_of_map_to_list).
      induction (map_to_list members) as [|[k l] r IH]; [done|]. cbn. rewrite (Hin k l) by (by left). f_equiv. apply IH.
      intros. apply Hin. by right.
    + apply set_eq. intros x. rewrite Hg3. split.
      * intros (n & c & Hin%iter_elem & Hk). destruct (Hkey n c Hin) as (y & Hy & Hn). congruence.
      * intros (n & c & Hc & Hk)%HN. exists n, c. by rewrite iter_elem.
Qed.

(** The last level, and a level that is followed by another. *)
Lemma gather_last nodes members (current : Adjacency) comm : partitioned nodes members -> dom members = dom current ->
  assigned current comm -> exists g, ofold (gather members Done) (iter comm) ∅ = Done g /\ partitioned nodes g.
Proof.
  intros Hp Hd [Hdc _]. destruct (gather_ok nodes members Done comm (list_to_set (map snd (iter comm)))) as (g & Eg & Hg & _);
    [done|congruence| | |by exists g].
  - intros n c Hn. exists c. split; [done|]. rewrite elem_of_list_to_set, values_elem. eauto.
  - intros x. rewrite elem_of_list_to_set, values_elem. intros [k Hk]. eauto.
Qed.
Lemma name_index comm n c : comm !! n = Some c -> exists x, index (community_names comm) c = Done x /\ x ∈ new_names comm.
Proof.
  intros Hn. destruct (names_dom comm n c Hn) as [x Hx]. exists x. unfold index. rewrite Hx. split; [done|].
  apply new_names_elem. eauto.
Qed.
Lemma gather_next nodes members (current : Adjacency) comm : partitioned nodes members -> dom members = dom current ->
  assigned current comm -> exists g, ofold (gather members (index (community_names comm))) (iter comm) ∅ = Done g
    /\ partitioned nodes g /\ dom g = new_names comm.
Proof.
  intros Hp Hd [Hdc _]. apply (gather_ok nodes); [done|congruence|apply name_index|].
  intros x (c & Hx)%new_names_elem. assert (c ∈ distinct_communities comm) as [n Hn]%distinct_elem.
  { apply names_lookup in Hx as (i & Hi & _). by eapply list_elem_of_lookup_2. }
  exists n, c. unfold index. by rewrite Hx.
Qed.
End gathering.

(** ** The communities that are built *)

Definition names (c : Community) : list string := map fst (co_members c).

Lemma least_spec l : l <> [] -> exists x, least l = Some x /\ x ∈ l /\ forall y, y ∈ l -> String.ltb y x = false.
Proof.
  apply best_of_spec; [apply string_order|intros x y H%negb_true_iff; done|].
  intros x y H%negb_false_iff. by apply (before_asym (P := fun _ => True)).
Qed.
#[export] Instance least_order : WeakOrder least_before (fun l => l <> []).
Proof.
  split; unfold least_before.
  - intros x y (a & -> & _)%least_spec (b & -> & _)%least_spec. by apply (before_asym (P := fun _ => True)).
  - intros x y z (a & -> & _)%least_spec (b & -> & _)%least_spec (c & -> & _)%least_spec.
    by apply (before_cotrans (P := fun _ => True)).
Qed.

Lemma heavier_order degree : WeakOrder (heavier degree) (fun _ => True).
Proof.
  assert (forall a b, heavier degree a b = true <->
    key_lt (total_key (default f64_zero (degree !! b))) (total_key (default f64_zero (degree !! a)))
    \/ (~ key_lt (total_key (default f64_zero (degree !! a))) (total_key (default f64_zero (degree !! b))) /\ String.ltb b a = true)) as H.
  { intros a b. unfold heavier. by rewrite orb_true_iff, andb_true_iff, !bool_decide_eq_true. }
  split.
  - intros x y _ _ Hxy. apply not_true_iff_false. intros Hyx. apply H in Hxy, Hyx. unfold key_lt in *.
    destruct Hxy as [?|[? Sxy]], Hyx as [?|[? Syx]]; try lia.
    pose proof (before_asym (before := String.ltb) (P := fun _ => True) x y I I Syx). congruence.
  - intros x y z _ _ _ Hxz. apply H in Hxz. rewrite !H. unfold key_lt in *.
    destruct Hxz as [?|[? Sxz]]; [lia|].
    destruct (before_cotrans (before := String.ltb) (P := fun _ => True) z y x I I I Sxz) as [S|S]; rewrite S; lia.
Qed.
Lemma heaviest_spec degree l : l <> [] ->
  exists x, heaviest degree l = Some x /\ x ∈ l /\ forall y, y ∈ l -> heavier degree y x = false.
Proof.
  pose proof (heavier_order degree) as O. apply best_of_spec; [done| |done].
  intros x y. by apply (before_asym (P := fun _ => True)).
Qed.

(** ** The whole method *)

Section partition.
Context {HIter : HashIteration}.

Lemma louvain_levels_ok fuel gamma degree nodes members current : closed current -> partitioned nodes members ->
  dom members = dom current -> size current < fuel ->
  exists grouped, louvain_levels fuel gamma degree members current = Done (build_communities grouped degree) /\ partitioned nodes grouped.
Proof.
  revert members current. induction fuel as [|fuel IH]; intros members current Hc Hp Hd Hf; [lia|]. cbn [louvain_levels].
  destruct (louvain_pass_ok current Hc gamma) as (comm & -> & Ha). cbn [obind].
  destruct (aggregate_ok current Hc comm Ha) as (next & -> & Hnc & Hnd & Hsz). cbn [obind].
  destruct (size next =? size current)%nat eqn:E.
  - destruct (gather_last nodes members current comm Hp Hd Ha) as (g & -> & Hg). cbn [obind]. eauto.
  - destruct (gather_next nodes members current comm Hp Hd Ha) as (g & -> & Hg & Hdg). cbn [obind].
    apply Nat.eqb_neq in E. apply IH; [done|done|congruence|lia].
Qed.

Lemma build_spec grouped degree nodes : partitioned nodes grouped ->
  concat (map names (build_communities grouped degree)) ≡ₚ nodes
  /\ exists groups, groups ≡ₚ map snd (iter grouped) /\ ordered least_before groups
       /\ length (build_communities grouped degree) = length groups
       /\ forall i c, build_communities grouped degree !! i = Some c -> exists l, groups !! i = Some l /\ l <> []
            /\ c = {| co_id := name_of i; co_label := default ""%string (heaviest degree (sorted l));
                      co_members := map (fun m => (m, default f64_zero (degree !! m))) (sorted l) |}.
Proof.
  intros [Hp Hne]. set (groups := sort_by least_before (map snd (iter grouped))).
  assert (groups ≡ₚ map snd (iter grouped)) as Hg by apply sort_by_perm.
  assert (forall l, l ∈ groups -> l <> []) as Hn by (intros l; rewrite Hg, values_elem; intros [k Hk]; by eapply Hne).
  split; [|exists groups; split_and!; [done| |by apply length_imap|]].
  - rewrite <- Hp, <- flat_iter, <- Hg. unfold build_communities. fold groups. generalize 0. clear.
    assert (forall f : nat -> nat, concat (map names (imap (fun i members => {| co_id := ("c" +:+ pretty (f i))%string;
      co_label := default ""%string (heaviest degree (sorted members));
      co_members := map (fun m => (m, default f64_zero (degree !! m))) (sorted members) |}) groups)) ≡ₚ concat groups) as H.
    { induction groups as [|l r IH]; intros f; [done|]. cbn [imap map concat]. apply Permutation_app; [|apply (IH (f ∘ S))].
      unfold names. cbn. rewrite map_map, map_id. apply sorted_perm. }
    intros _. apply (H id).
  - apply (sort_by_ordered least_before (P := fun l : list string => l <> [])). apply Forall_forall. intros l [k Hk]%values_elem.
    by eapply Hne.
  - intros i c. unfold build_communities. rewrite list_lookup_imap. fold groups.
    intros (l & E & ->)%fmap_Some. exists l. split_and!; [done| |done]. apply Hn. by eapply list_elem_of_lookup_2.
Qed.

Lemma sorted_least l x : least l = Some x -> l <> [] -> head (sorted l) = Some x.
Proof.
  intros Hx (y & Hy & Hin & Hle)%least_spec. assert (y = x) as -> by congruence.
  pose proof (sorted_sorted l) as Hs. assert (x ∈ sorted l) as Hx' by (by rewrite sorted_perm).
  destruct (sorted l) as [|z r] eqn:E; [by apply elem_of_nil in Hx'|]. cbn. f_equal.
  inversion Hs as [|? ? _ Hz]; subst. apply elem_of_cons in Hx' as [->|Hx']; [done|].
  rewrite Forall_forall in Hz. apply (anti_symm String.le); [by apply Hz|].
  assert (z ∈ l) as Hzl by (rewrite <- sorted_perm, E; by left). specialize (Hle z Hzl). rewrite ltb_leb in Hle.
  apply negb_false_iff in Hle. by apply Is_true_true.
Qed.

(** At the start every node is alone. *)
Lemma alone_ok (adj : Adjacency) : partitioned (elements (dom adj)) (map_imap (fun n _ => Some [n]) adj).
Proof.
  set (members := map_imap (fun n _ => Some [n]) adj).
  split.
  - unfold flat. assert (map snd (map_to_list members) ≡ₚ map (fun n => [n]) (elements (dom adj))) as ->; [|by rewrite concat_singletons].
    assert (dom members = dom adj) as <- by apply dom_each.
    assert (forall x, x ∈ map_to_list members -> x.2 = [x.1]) as Hx.
    { intros [k l] H%elem_of_map_to_list. unfold members in H. rewrite map_lookup_imap in H.
      apply bind_Some in H as (a & _ & [= <-]). done. }
    assert (map snd (map_to_list members) = map (fun n => [n]) (map fst (map_to_list members))) as ->.
    { rewrite map_map. apply map_ext_in. intros x H%list_elem_of_In. by apply Hx. }
    apply Permutation_map, NoDup_Permutation; [apply NoDup_fst_map_to_list|apply NoDup_elements|].
    intros k. rewrite elem_of_elements, elem_of_dom, list_elem_of_fmap. split.
    + intros ([k' a] & -> & H%elem_of_map_to_list). by exists a.
    + intros [a H]. exists (k, a). split; [done|]. by apply elem_of_map_to_list.
  - intros k l H. unfold members in H. rewrite map_lookup_imap in H. by apply bind_Some in H as (a & _ & [= <-]).
Qed.

(** Whatever the weights and the resolution, and in whatever order maps are
    listed: on a graph whose edges lead to nodes the method ends, without a panic,
    and its communities hold every node exactly once.  They are numbered in the
    order of their first members; each has a member, its members are sorted, with
    their degrees in the graph, and its label is a member such that none weighs
    more, nor as much with a later name. *)
Lemma louvain_partition (adj : Adjacency) resolution : closed adj -> exists cs, louvain_communities adj resolution = Done cs
  /\ concat (map names cs) ≡ₚ elements (dom adj)
  /\ (forall i c, cs !! i = Some c -> co_id c = name_of i /\ names c <> [] /\ StronglySorted String.le (names c)
        /\ co_members c = map (fun m => (m, default f64_zero (degrees adj !! m))) (names c)
        /\ co_label c ∈ names c /\ forall m, m ∈ names c -> heavier (degrees adj) m (co_label c) = false)
  /\ (forall i j c d, i < j -> cs !! i = Some c -> cs !! j = Some d ->
        exists m n, head (names c) = Some m /\ head (names d) = Some n /\ String.leb m n = true).
Proof.
  intros Hc. unfold louvain_communities. case_bool_decide as E0.
  { subst. exists []. split_and!; [done|by rewrite dom_empty_L, elements_empty|by intros ? ? ?|by intros]. }
  destruct (louvain_levels_ok (S (size adj)) resolution (degrees adj) (elements (dom adj)) _ adj Hc (alone_ok adj)) as (g & -> & Hg);
    [apply dom_each|lia|].
  destruct (build_spec g (degrees adj) _ Hg) as (Hcat & groups & _ & Hord & _ & Hb).
  exists (build_communities g (degrees adj)). split_and!; [done|done| |].
  - intros i c (l & _ & Hl & ->)%Hb. unfold names. cbn [co_id co_label co_members]. rewrite map_map, map_id.
    assert (sorted l <> []) as Hs by (intros H; apply Hl, Permutation_nil_r; by rewrite <- (sorted_perm l), H).
    destruct (heaviest_spec (degrees adj) (sorted l) Hs) as (x & -> & Hx & Hm). split_and!; try done. apply sorted_sorted.
  - intros i j c d Hij (l & Hl & Hne & ->)%Hb (l' & Hl' & Hne' & ->)%Hb. unfold names. cbn [co_members]. rewrite !map_map, !map_id.
    destruct (least_spec l Hne) as (m & Em & _). destruct (least_spec l' Hne') as (n & En & _).
    exists m, n. split_and!; [by apply sorted_least..|]. specialize (Hord i j l l' Hij Hl Hl'). unfold least_before in Hord.
    rewrite Em, En, ltb_leb in Hord. by apply negb_false_iff in Hord.
Qed.
End partition.
