(* ===== verification/CommunitiesOrder.v ===== *)
(** * The order in which maps are listed does not matter

    The weights of the graph of notions are numbers of edges.  As long as their
    sums stay below 2^53 they are exact, and the method returns the same
    communities, with the same weights, for any two orders of iteration. *)

From S2P Require Import Prelude Ordering Communities CommunitiesProps.
From Stdlib Require Import Lia SpecFloat.
Local Open Scope list_scope.
Local Open Scope Z_scope.

(** ** Loops with the same steps *)

Lemma ofold_ext {A B} (P : B -> Prop) (f g : B -> A -> outcome B) l b : P b ->
  (forall b x, x ∈ l -> P b -> f b x = g b x /\ forall b', g b x = Done b' -> P b') -> ofold f l b = ofold g l b.
Proof.
  revert b. induction l as [|x l IH]; intros b Hb Hs; [done|]. cbn [ofold].
  destruct (Hs b x) as [-> Hp]; [by left|done|]. destruct (g b x) as [b'| |] eqn:E; [|done..]. cbn [obind].
  apply IH; [by apply Hp|]. intros b2 y Hy. apply Hs. by right.
Qed.
Lemma foldl_perm {A B} (f : B -> A -> B) l1 l2 b : (forall b x y, f (f b x) y = f (f b y) x) -> l1 ≡ₚ l2 -> foldl f b l1 = foldl f b l2.
Proof.
  intros Hf H. revert b. induction H as [|x l1 l2 _ IH|x y l|l1 l2 l3 _ IH1 _ IH2]; intros b; cbn [foldl]; [done|apply IH|by rewrite Hf|].
  by rewrite IH1.
Qed.

(** ** Matrices of counts *)

Abbreviation Counts := (gmap string (gmap string Z)).
Definition floats (c : Counts) : Adjacency := fmap (M := gmap string) (fmap (M := gmap string) f64_of) c.

Definition row (f : string -> Z) (nb : gmap string Z) : Z := zsum (map (fun x => f x.1 * x.2) (map_to_list nb)).
Definition linear (f : string -> string -> Z) (c : Counts) : Z := zsum (map (fun x => row (f x.1) x.2) (map_to_list c)).
Definition nonneg (c : Counts) : Prop := forall a nb b w, c !! a = Some nb -> nb !! b = Some w -> 0 <= w.

(** The sum of the degrees, and the sum of the weights that aggregation reads. *)
Definition twice (a b : string) : Z := if bool_decide (b = a) then 2 else 1.
Definition upper (a b : string) : Z := if String.leb b a then 0 else 1.
Definition counted (c : Counts) : Prop := nonneg c /\ linear twice c < TWO53 /\ 2 * linear upper c < TWO53.

Lemma row_insert f nb b w : nb !! b = None -> row f (<[b := w]> nb) = f b * w + row f nb.
Proof. intros H. unfold row. rewrite (zsum_perm _ (map (fun x => f x.1 * x.2) ((b, w) :: map_to_list nb))); [done|]. by rewrite map_to_list_insert. Qed.
Lemma row_bump f nb b w : row f (<[b := default 0 (nb !! b) + w]> nb) = row f nb + f b * w.
Proof.
  destruct (nb !! b) as [v|] eqn:E; cbn [default].
  - rewrite <- (insert_delete_id nb b v E) at 2. rewrite <- insert_delete_eq, !row_insert by apply lookup_delete_eq. cbn [id]. lia.
  - rewrite row_insert by done. cbn [id]. lia.
Qed.
Lemma row_empty f : row f ∅ = 0.
Proof. by unfold row. Qed.
Lemma linear_insert f c a nb : c !! a = None -> linear f (<[a := nb]> c) = row (f a) nb + linear f c.
Proof.
  intros H. unfold linear. rewrite (zsum_perm _ (map (fun x => row (f x.1) x.2) ((a, nb) :: map_to_list c))); [done|].
  by rewrite map_to_list_insert.
Qed.
Definition bump_count (c : Counts) (a b : string) (w : Z) : Counts :=
  let nb := default ∅ (c !! a) in <[a := <[b := default 0 (nb !! b) + w]> nb]> c.
Lemma linear_bump f c a b w : linear f (bump_count c a b w) = linear f c + f a b * w.
Proof.
  unfold bump_count. destruct (c !! a) as [nb|] eqn:E; cbn [default id].
  - rewrite <- (insert_delete_id c a nb E) at 2. rewrite <- insert_delete_eq, !linear_insert by apply lookup_delete_eq. rewrite row_bump. lia.
  - rewrite linear_insert, row_bump, row_empty by done. lia.
Qed.
Lemma linear_or_empty f c a : linear f (<[a := default ∅ (c !! a)]> c) = linear f c.
Proof.
  destruct (c !! a) as [nb|] eqn:E; cbn [default id]; [by rewrite insert_id|]. by rewrite linear_insert, row_empty.
Qed.

Lemma row_nonneg f nb : (forall b, 0 <= f b) -> (forall b w, nb !! b = Some w -> 0 <= w) -> 0 <= row f nb.
Proof.
  intros Hf Hn. apply zsum_nonneg. intros x ([b w] & -> & H%elem_of_map_to_list)%list_elem_of_fmap. cbn.
  specialize (Hf b). specialize (Hn b w H). nia.
Qed.
Lemma adjacent_elem f nb b w : (forall b, 0 <= f b) -> (forall b w, nb !! b = Some w -> 0 <= w) -> nb !! b = Some w -> f b * w <= row f nb.
Proof.
  intros Hf Hn Hb. apply zsum_elem.
  - intros x ([b' w'] & -> & H%elem_of_map_to_list)%list_elem_of_fmap. cbn. specialize (Hf b'). specialize (Hn b' w' H). nia.
  - apply list_elem_of_fmap. exists (b, w). split; [done|]. by apply elem_of_map_to_list.
Qed.
Lemma linear_row f c a nb : (forall a b, 0 <= f a b) -> nonneg c -> c !! a = Some nb -> row (f a) nb <= linear f c.
Proof.
  intros Hf Hn Ha. apply zsum_elem.
  - intros x ([a' nb'] & -> & H%elem_of_map_to_list)%list_elem_of_fmap. apply row_nonneg; [apply Hf|]. intros b w. by apply (Hn a').
  - apply list_elem_of_fmap. exists (a, nb). split; [done|]. by apply elem_of_map_to_list.
Qed.
Lemma twice_pos a b : 1 <= twice a b.
Proof. unfold twice. case_bool_decide; lia. Qed.
Lemma upper_pos a b : 0 <= upper a b.
Proof. unfold upper. destruct (String.leb b a); lia. Qed.
#[local] Hint Resolve twice_pos upper_pos : core.

Lemma floats_lookup c a : floats c !! a = fmap f64_of <$> c !! a.
Proof. unfold floats. apply lookup_fmap. Qed.
Lemma floats_bump c a b w : nonneg c -> 0 <= w -> linear twice c + twice a b * w < TWO53 ->
  bump_edge (floats c) a b (f64_of w) = floats (bump_count c a b w).
Proof.
  intros Hn Hw Hs. unfold bump_edge, bump_count, floats. rewrite fmap_insert. f_equal. rewrite lookup_fmap.
  unfold bump. assert (default ∅ (fmap (M := gmap string) f64_of <$> c !! a) = fmap (M := gmap string) f64_of (default ∅ (c !! a))) as ->.
  { destruct (c !! a); cbn; [done|by rewrite fmap_empty]. }
  rewrite fmap_insert. f_equal. rewrite lookup_fmap.
  assert (forall o : option Z, default f64_zero (f64_of <$> o) = f64_of (default 0 o)) as -> by (by intros []).
  pose proof (twice_pos a b). assert (0 <= default 0 (default ∅ (c !! a) !! b) /\ default 0 (default ∅ (c !! a) !! b) <= linear twice c) as [H1 H2].
  { assert (0 <= linear twice c).
    { apply zsum_nonneg. intros x ([a' nb'] & -> & H'%elem_of_map_to_list)%list_elem_of_fmap. apply row_nonneg.
      - intros b'. pose proof (twice_pos a' b'). cbn. lia.
      - intros b' w'. by apply (Hn a'). }
    destruct (c !! a) as [nb|] eqn:Ea; cbn [default id]; [|by rewrite lookup_empty].
    destruct (nb !! b) as [v|] eqn:Eb; cbn [default id]; [|done]. split; [by apply (Hn a nb b)|].
    assert (forall a b, 0 <= twice a b) as Ht by (intros a' b'; pose proof (twice_pos a' b'); lia).
    pose proof (linear_row twice c a nb Ht Hn Ea). pose proof (adjacent_elem (twice a) nb b v (Ht a) (fun b w => Hn a nb b w Ea) Eb).
    pose proof (Hn a nb b v Ea Eb). nia. }
  apply f64_add_int; nia.
Qed.

(** ** Local moving *)

Definition count_degree (node : string) (nb : gmap string Z) : count :=
  count_sum (map (fun x => Some (twice node x.1 * x.2)) (map_to_list nb)).
Definition count_degrees (c : Counts) : gmap string count := map_imap (fun node nb => Some (count_degree node nb)) c.

Lemma degree_value node nb : value (count_degree node nb) = row (twice node) nb.
Proof. unfold count_degree, row. by rewrite count_sum_value, map_map. Qed.

Section one_order.
Context {HIter : HashIteration}.

Lemma iter_fmap {A B} (f : A -> B) (m : gmap string A) :
  exists l, iter (f <$> m) = map (fun x => (x.1, f x.2)) l /\ l ≡ₚ map_to_list m.
Proof.
  assert (iter (f <$> m) ≡ₚ map (fun x => (x.1, f x.2)) (map_to_list m)) as H.
  { rewrite iter_perm, map_to_list_fmap. apply reflexive_eq, map_ext. by intros [k a]. }
  apply Permutation_map_inv in H as (l & -> & H). by exists l.
Qed.

Lemma degree_exact node nb : (forall b w, nb !! b = Some w -> 0 <= w) -> row (twice node) nb < TWO53 ->
  degree_of node (f64_of <$> nb) = of_count (count_degree node nb).
Proof.
  intros Hn Hs. unfold degree_of. destruct (iter_fmap f64_of nb) as (l & -> & Hl). rewrite map_map.
  assert (forall b, 0 <= twice node b) as Ht by (intros b; pose proof (twice_pos node b); lia).
  assert (map (fun x : string * Z => if bool_decide (x.1 = node) then f64_mul (f64_of 2) (f64_of x.2) else f64_of x.2) l
    = map of_count (map (fun x => Some (twice node x.1 * x.2)) l)) as E.
  { rewrite map_map. apply map_ext_in. intros [b w] Hin%list_elem_of_In. rewrite Hl, elem_of_map_to_list in Hin. cbn.
    pose proof (Hn b w Hin). pose proof (adjacent_elem (twice node) nb b w Ht Hn Hin). unfold twice in *.
    case_bool_decide; [apply f64_double; lia|f_equal; lia]. }
  cbn [fst snd]. rewrite E. unfold count_degree. apply f64_sum_perm.
  - by rewrite Hl.
  - intros c ([b w] & -> & H%elem_of_map_to_list)%list_elem_of_fmap. cbn. pose proof (twice_pos node b).
    specialize (Hn b w H). nia.
  - by rewrite map_map.
Qed.

Lemma degrees_exact c : counted c -> degrees (floats c) = of_count <$> count_degrees c.
Proof.
  intros (Hn & Ht & _). apply map_eq. intros a. unfold degrees, count_degrees. rewrite lookup_fmap, !map_lookup_imap, floats_lookup.
  destruct (c !! a) as [nb|] eqn:E; [|done]. cbn. f_equal. apply degree_exact; [by intros; apply (Hn a nb b)|].
  pose proof (linear_row twice c a nb ltac:(intros x y; pose proof (twice_pos x y); lia) Hn E). lia.
Qed.

Lemma count_degrees_elem c x : x ∈ map_to_list (count_degrees c) -> exists nb, c !! x.1 = Some nb /\ x.2 = count_degree x.1 nb.
Proof.
  destruct x as [a d]. rewrite elem_of_map_to_list. unfold count_degrees. rewrite map_lookup_imap.
  intros (nb & E & H)%bind_Some. injection H as <-. eauto.
Qed.
Lemma count_degrees_total c : zsum (map (fun x => value x.2) (map_to_list (count_degrees c))) = linear twice c.
Proof.
  unfold linear. assert (map_to_list (count_degrees c) ≡ₚ map (fun x => (x.1, count_degree x.1 x.2)) (map_to_list c)) as ->.
  { apply NoDup_Permutation; [apply NoDup_map_to_list| |].
    - apply NoDup_fmap_2_strong; [|apply NoDup_map_to_list]. intros [k a] [k' a'] H1%elem_of_map_to_list H2%elem_of_map_to_list [= -> _].
      congruence.
    - intros [a d]. rewrite elem_of_map_to_list, list_elem_of_fmap. unfold count_degrees. rewrite map_lookup_imap. split.
      + intros (nb & E & H)%bind_Some. injection H as <-. exists (a, nb). split; [done|]. by apply elem_of_map_to_list.
      + intros ([a' nb] & [= -> ->] & ->%elem_of_map_to_list). done. }
  rewrite map_map. f_equal. apply map_ext. intros [a nb]. apply degree_value.
Qed.

Lemma total_exact c : counted c -> f64_sum (map snd (iter (degrees (floats c)))) = of_count (count_sum (map snd (map_to_list (count_degrees c)))).
Proof.
  intros Hc. rewrite degrees_exact by done. destruct (iter_fmap of_count (count_degrees c)) as (l & -> & Hl). rewrite map_map. cbn [snd].
  destruct Hc as (Hn & Ht & _). apply f64_sum_perm.
  - by rewrite Hl, map_map.
  - intros d ([a d'] & -> & (nb & E & ->)%count_degrees_elem)%list_elem_of_fmap. cbn [fst snd] in *. rewrite degree_value. apply row_nonneg.
    + intros b. pose proof (twice_pos a b). lia.
    + intros b w. by apply (Hn a).
  - rewrite map_map. by rewrite count_degrees_total.
Qed.

(** The weights into the communities around a node. *)
Definition count_into (node : string) (comm : gmap string string) (k : gmap string Z) (x : string * Z) : gmap string Z :=
  if bool_decide (x.1 = node) then k
  else match comm !! x.1 with Some c => <[c := default 0 (k !! c) + x.2]> k | None => k end.
Lemma count_into_comm node comm k x y : count_into node comm (count_into node comm k x) y = count_into node comm (count_into node comm k y) x.
Proof.
  unfold count_into. case_bool_decide; [done|]. case_bool_decide; [done|].
  destruct (comm !! x.1) as [c|], (comm !! y.1) as [d|]; try done. destruct (decide (c = d)) as [->|N].
  - rewrite !lookup_insert_eq, !insert_insert_eq. cbn [default id]. f_equal. lia.
  - rewrite !(lookup_insert_ne _ c d), !(lookup_insert_ne _ d c) by done. by apply insert_insert_ne.
Qed.

Lemma weights_exact node comm nb : (forall x, x ∈ dom nb -> x ∈ dom comm) -> (forall b w, nb !! b = Some w -> 0 <= w) ->
  row (fun _ => 1) nb < TWO53 ->
  ofold (weight_into node comm) (iter (f64_of <$> nb)) ∅ = Done (f64_of <$> foldl (count_into node comm) ∅ (map_to_list nb)).
Proof.
  intros Hd Hn Hs. destruct (iter_fmap f64_of nb) as (l & -> & Hl).
  rewrite <- (foldl_perm (count_into node comm) l) by (try apply count_into_comm; done).
  assert (zsum (map snd l) < TWO53) as Hsum.
  { rewrite (zsum_perm _ (map (fun x => 1 * x.2) (map_to_list nb))); [done|]. rewrite Hl. apply reflexive_eq, map_ext.
    intros x. lia. }
  assert (forall x, x ∈ l -> 0 <= x.2 /\ x.1 ∈ dom comm) as Hx.
  { intros [b w]. rewrite Hl, elem_of_map_to_list. intros H. split; [by apply (Hn b)|]. apply Hd. by apply elem_of_dom_2 in H. }
  clear Hl Hs Hn Hd nb.
  assert (forall l s (k : gmap string Z), (forall c v, k !! c = Some v -> 0 <= v <= s) -> 0 <= s ->
    (forall x, x ∈ l -> 0 <= x.2 /\ x.1 ∈ dom comm) -> s + zsum (map snd l) < TWO53 ->
    ofold (weight_into node comm) (map (fun x => (x.1, f64_of x.2)) l) (f64_of <$> k)
      = Done (f64_of <$> foldl (count_into node comm) k l)) as H.
  { clear. induction l as [|[b w] l IH]; intros s k Hk Hs Hx Hl; [done|]. cbn [map ofold foldl fst snd] in *. cbn in Hl.
    fold (zsum (map snd l)) in Hl. destruct (Hx (b, w)) as [Hw Hb]; [by left|]. cbn in Hw, Hb.
    assert (forall x, x ∈ l -> 0 <= x.2 /\ x.1 ∈ dom comm) as Hx' by (intros; apply Hx; by right).
    assert (0 <= zsum (map snd l)) by (apply zsum_nonneg; intros y (x & -> & Hin)%list_elem_of_fmap; by apply Hx').
    assert (weight_into node comm (f64_of <$> k) (b, f64_of w) = Done (f64_of <$> count_into node comm k (b, w))
      /\ forall c v, count_into node comm k (b, w) !! c = Some v -> 0 <= v <= s + w) as [-> Hk'].
    { unfold weight_into, count_into. cbn [fst snd]. case_bool_decide.
      - split; [done|]. intros c v E. specialize (Hk c v E). lia.
      - apply elem_of_dom in Hb as [c Ec]. unfold index. rewrite Ec. cbn [obind]. unfold bump. rewrite lookup_fmap.
        assert (default f64_zero (f64_of <$> k !! c) = f64_of (default 0 (k !! c))) as -> by (by destruct (k !! c)).
        assert (0 <= default 0 (k !! c) <= s) as Hv by (destruct (k !! c) eqn:E; [by apply (Hk c)|done]).
        rewrite f64_add_int, <- fmap_insert by lia. split; [done|]. intros d v.
        destruct (decide (c = d)) as [->|N]; [rewrite lookup_insert_eq; intros [= <-]; lia|].
        rewrite lookup_insert_ne by done. intros E. specialize (Hk d v E). lia. }
    cbn [obind]. apply (IH (s + w)); [done|lia|done|lia]. }
  rewrite <- (fmap_empty f64_of). apply (H l 0 ∅); [by intros c v; rewrite lookup_empty|done|done|lia].
Qed.
End one_order.

Lemma row_mono f g nb : (forall b, f b <= g b) -> (forall b w, nb !! b = Some w -> 0 <= w) -> row f nb <= row g nb.
Proof.
  intros Hf Hn. unfold row. assert (forall x, x ∈ map_to_list nb -> 0 <= x.2) as H.
  { intros [b w] Hx%elem_of_map_to_list. by apply (Hn b). }
  induction (map_to_list nb) as [|[b w] l IH]; cbn; [lia|]. specialize (Hf b). assert (0 <= w) by (by apply (H (b, w)); left).
  assert (forall x, x ∈ l -> 0 <= x.2) as H' by (intros; apply H; by right). specialize (IH H'). unfold zsum in IH. nia.
Qed.

Section two_orders.
Context (I1 I2 : HashIteration).

Lemma keys_order {A} (m : gmap string A) : sorted (keys (HIter := I1) m) = sorted (keys (HIter := I2) m).
Proof. apply sorted_unique. unfold keys. by rewrite !iter_perm. Qed.

Section levels.
Context (c : Counts) (Hc : counted c) (Hclosed : closed (floats c)).

Lemma move_node_order gamma m k s node : node ∈ dom (floats c) -> moving_ok (floats c) s ->
  move_node (HIter := I1) (floats c) gamma m k s node = move_node (HIter := I2) (floats c) gamma m k s node.
Proof.
  intros Hn [[Hd _] _]. apply elem_of_dom in Hn as [nbrs En]. pose proof En as Ef. rewrite floats_lookup in En.
  apply fmap_Some in En as (nb & En & ->). destruct Hc as (Hnn & Ht & _). unfold move_node.
  assert (index (floats c) node = Done (f64_of <$> nb)) as -> by (unfold index; by rewrite Ef). cbn [obind].
  assert (forall b w, nb !! b = Some w -> 0 <= w) as Hw by (intros b w; by apply (Hnn node)).
  assert (row (fun _ => 1) nb < TWO53) as Hr.
  { pose proof (row_mono (fun _ => 1) (twice node) nb (twice_pos node) Hw).
    pose proof (linear_row twice c node nb ltac:(intros x y; pose proof (twice_pos x y); lia) Hnn En). lia. }
  assert (forall x, x ∈ dom nb -> x ∈ dom (community s)) as Hx.
  { intros x Hx. rewrite Hd. eapply Hclosed; [exact Ef|]. by rewrite dom_fmap_L. }
  rewrite !weights_exact by done. cbn [obind]. by rewrite keys_order.
Qed.

Lemma passes_order n gamma m k nodes s : dom k = dom (floats c) -> (forall x, x ∈ nodes -> x ∈ dom (floats c)) -> moving_ok (floats c) s ->
  passes (HIter := I1) n (floats c) gamma m k nodes s = passes (HIter := I2) n (floats c) gamma m k nodes s.
Proof.
  intros Hk Hn. revert s. induction n as [|n IH]; intros s Hs; [done|]. cbn [passes].
  set (s0 := {| community := community s; tot := tot s; improved := false |}).
  rewrite (ofold_ext (moving_ok (floats c)) (move_node (HIter := I1) (floats c) gamma m k) (move_node (HIter := I2) (floats c) gamma m k)).
  - destruct (ofold_inv (moving_ok (floats c)) (move_node (HIter := I2) (floats c) gamma m k) nodes s0) as (s' & -> & Hs'); [done| |].
    { intros s' x Hx H'. apply move_node_ok; auto. }
    cbn [obind]. destruct (improved s'); [by apply IH|done].
  - done.
  - intros s' x Hx H'. split; [apply move_node_order; auto|]. intros s2 E.
    destruct (move_node_ok (HIter := I2) (floats c) Hclosed gamma m k s' x Hk (Hn x Hx) H') as (s3 & E3 & H3). congruence.
Qed.

Lemma pass_order gamma : louvain_pass (HIter := I1) (floats c) gamma = louvain_pass (HIter := I2) (floats c) gamma.
Proof.
  unfold louvain_pass. rewrite !total_exact, !degrees_exact, keys_order by done. destruct (SFleb _ _); [done|].
  rewrite <- (degrees_exact (HIter := I2)) by done. apply passes_order; [apply dom_degrees| |].
  - intros x. by rewrite sorted_perm, keys_elem.
  - split; [apply assigned_own|apply dom_degrees].
Qed.
End levels.

Lemma names_order comm : community_names (HIter := I1) comm = community_names (HIter := I2) comm.
Proof.
  unfold community_names. rewrite (sorted_unique (map snd (iter (HashIteration := I1) comm)) (map snd (iter (HashIteration := I2) comm))); [done|].
  by rewrite !iter_perm.
Qed.
Lemma aggregate_order adj comm : aggregate (HIter := I1) adj comm = aggregate (HIter := I2) adj comm.
Proof.
  unfold aggregate. rewrite names_order, keys_order.
  rewrite (ofold_ext (fun _ => True) (aggregate_node (HIter := I1) adj comm (community_names (HIter := I2) comm))
    (aggregate_node (HIter := I2) adj comm (community_names (HIter := I2) comm))); [|done|].
  - destruct (ofold _ _ _) as [next| |]; [|done..]. cbn [obind]. do 2 f_equal. apply map_eq. intros a. rewrite !or_default_lookup.
    destruct (next !! a); [done|]. erewrite bool_decide_ext; [done|]. by rewrite !iter_perm.
  - intros next node _ _. split; [|done]. unfold aggregate_node. do 3 (destruct (index _ _); [|done..]; cbn [obind]).
    by rewrite keys_order.
Qed.
End two_orders.

(** ** Aggregation *)

Lemma nonneg_bump c a b w : nonneg c -> 0 <= w -> nonneg (bump_count c a b w).
Proof.
  intros Hn Hw x nb y v. unfold bump_count. destruct (decide (a = x)) as [<-|N]; [|rewrite lookup_insert_ne by done; apply Hn].
  rewrite lookup_insert_eq. intros [= <-]. destruct (decide (b = y)) as [<-|N].
  - rewrite lookup_insert_eq. intros [= <-]. destruct (c !! a) as [nb|] eqn:E; cbn [default id]; [|rewrite lookup_empty; cbn; lia].
    destruct (nb !! b) as [v|] eqn:Ev; cbn [default id]; [|lia]. specialize (Hn a nb b v E Ev). lia.
  - rewrite lookup_insert_ne by done. destruct (c !! a) as [nb|] eqn:E; cbn [default id]; [by apply (Hn a)|by rewrite lookup_empty].
Qed.

(** A graph of counts whose sums are bounded by [s]. *)
Definition within (s : Z) (next : Adjacency) : Prop :=
  exists z, next = floats z /\ nonneg z /\ linear twice z <= 2 * s /\ linear upper z <= s.
Lemma within_bump s next ci cj w : within s next -> 0 <= w -> 2 * (s + w) < TWO53 ->
  within (s + w) (if bool_decide (ci = cj) then bump_edge next ci ci (f64_of w)
                  else bump_edge (bump_edge next ci cj (f64_of w)) cj ci (f64_of w)).
Proof.
  intros (z & -> & Hn & Ht & Hu) Hw Hs. case_bool_decide as E.
  - subst cj. exists (bump_count z ci ci w). assert (twice ci ci = 2) as T by (unfold twice; by rewrite bool_decide_true).
    assert (upper ci ci = 0) as U.
    { unfold upper. destruct (String.leb ci ci) eqn:L; [done|]. destruct (String.leb_total ci ci); congruence. }
    rewrite floats_bump, !linear_bump, T, U by (try done; lia). split_and!; [done|by apply nonneg_bump|lia|lia].
  - exists (bump_count (bump_count z ci cj w) cj ci w). assert (twice ci cj = 1 /\ twice cj ci = 1) as [T1 T2].
    { unfold twice. by rewrite !bool_decide_false by congruence. }
    assert (upper ci cj + upper cj ci <= 1) as U.
    { unfold upper. destruct (String.leb cj ci) eqn:L1, (String.leb ci cj) eqn:L2; try lia.
      destruct (String.leb_total ci cj); congruence. }
    rewrite !floats_bump, !linear_bump, ?T1, ?T2 by (rewrite ?linear_bump, ?T1, ?T2; try done; try lia; by apply nonneg_bump).
    split_and!; [done|by apply nonneg_bump, Hw; apply nonneg_bump|lia|nia].
Qed.
Lemma within_mono s s' next : within s next -> s <= s' -> within s' next.
Proof. intros (z & -> & Hn & Ht & Hu) Hs. exists z. split_and!; [done|done|lia|lia]. Qed.

Section count_aggregation.
Context {HIter : HashIteration} (c : Counts) (Hc : counted c) (Hclosed : closed (floats c)) (comm : gmap string string)
  (Hcomm : assigned (floats c) comm).

Definition row_above (node : string) : Z := row (upper node) (default ∅ (c !! node)).
Lemma row_above_nonneg node : 0 <= row_above node.
Proof.
  apply row_nonneg; [apply upper_pos|]. intros b w. destruct (c !! node) as [nb|] eqn:E; cbn [default id]; [by apply (proj1 Hc node)|].
  by rewrite lookup_empty.
Qed.
Lemma keys_fst {A B} (f : A -> B) (m : gmap string A) : keys (f <$> m) ≡ₚ map fst (map_to_list m).
Proof. unfold keys. destruct (iter_fmap f m) as (l & -> & Hl). by rewrite map_map, <- Hl. Qed.
Lemma row_keys node nb : row (upper node) nb = zsum (map (fun b => upper node b * default 0 (nb !! b)) (sorted (keys (f64_of <$> nb)))).
Proof.
  rewrite sorted_perm, keys_fst, map_map. unfold row. f_equal. apply map_ext_in. intros [b w] H%list_elem_of_In. cbn.
  apply elem_of_map_to_list in H as ->. done.
Qed.
Lemma linear_keys : linear upper c = zsum (map row_above (sorted (keys (floats c)))).
Proof.
  unfold floats. rewrite sorted_perm, keys_fst, map_map. unfold linear. f_equal. apply map_ext_in. intros [a nb] H%list_elem_of_In. cbn.
  apply elem_of_map_to_list in H. unfold row_above. by rewrite H.
Qed.

Lemma aggregate_node_within pre node post next : sorted (keys (floats c)) = pre ++ node :: post ->
  within (zsum (map row_above pre)) next -> named (new_names comm) next ->
  exists next', aggregate_node (floats c) comm (community_names comm) next node = Done next'
    /\ within (zsum (map row_above (pre ++ [node]))) next' /\ named (new_names comm) next'.
Proof.
  intros Hsplit Hw Hnext. assert (node ∈ dom (floats c)) as Hn.
  { apply keys_elem. rewrite <- sorted_perm, Hsplit. apply elem_of_app. right. by left. }
  pose proof Hn as [nbrs Ef]%elem_of_dom. pose proof Ef as En. rewrite floats_lookup in En. apply fmap_Some in En as (nb & En & ->).
  assert (row_above node = row (upper node) nb) as Er by (unfold row_above; by rewrite En).
  assert (zsum (map row_above pre) + row (upper node) nb <= linear upper c) as Htot.
  { rewrite linear_keys, Hsplit, map_app, zsum_app. cbn. fold (zsum (map row_above post)). rewrite Er.
    assert (0 <= zsum (map row_above post)); [|lia]. apply zsum_nonneg. intros x (n & -> & _)%list_elem_of_fmap. apply row_above_nonneg. }
  destruct Hc as (Hnn & _ & Hup). unfold aggregate_node.
  destruct (node_name (floats c) comm Hcomm node Hn) as (cn & ci & -> & _ & Hi & _ & Hci). cbn [obind]. rewrite Hi. cbn [obind].
  unfold index at 1. rewrite Ef. cbn [obind]. rewrite map_app, zsum_app. cbn [map]. rewrite Er.
  set (s := zsum (map row_above pre)) in *. set (term b := upper node b * default 0 (nb !! b)).
  assert (forall b, 0 <= term b) as Hterm.
  { intros b. unfold term. pose proof (upper_pos node b). destruct (nb !! b) as [w|] eqn:E; cbn [default id]; [|lia].
    specialize (Hnn node nb b w En E). nia. }
  destruct (ofold_prefix (fun pre next => within (s + zsum (map term pre)) next /\ named (new_names comm) next)
    (aggregate_edge (floats c) comm (community_names comm) node ci) (sorted (keys (f64_of <$> nb))) next) as (next' & -> & Hw' & Hn').
  - split; [|done]. by rewrite Z.add_0_r.
  - intros p b q nx Hs2 [Hx Hnx].
    assert (b ∈ sorted (keys (f64_of <$> nb))) as Hb by (rewrite Hs2; apply elem_of_app; right; by left).
    destruct (aggregate_edge_ok (floats c) Hclosed comm Hcomm node (f64_of <$> nb) ci nx b Ef Hb Hci Hnx) as (ny & Ey & Hny).
    exists ny. split; [done|]. split; [|done]. rewrite map_app, zsum_app. cbn [map].
    assert (s + (zsum (map term p) + term b) <= linear upper c) as Hle.
    { pose proof (row_keys node nb) as Erk. fold term in Erk. rewrite Hs2, map_app, zsum_app in Erk. cbn in Erk.
      assert (0 <= zsum (map term q)) by (apply zsum_nonneg; intros x (n & -> & _)%list_elem_of_fmap; apply Hterm).
      unfold zsum in *. lia. }
    unfold aggregate_edge in Ey. assert (zsum [term b] = term b) as -> by (cbn; lia).
    destruct (String.leb b node) eqn:L; [injection Ey as <-; eapply within_mono; [exact Hx|]; specialize (Hterm b); lia|].
    rewrite sorted_perm, keys_elem, dom_fmap_L in Hb. pose proof Hb as [w Ew]%elem_of_dom.
    destruct (node_name (floats c) comm Hcomm b) as (cb & cj & Ecb & _ & Hj & _ & Hcj).
    { eapply Hclosed; [exact Ef|]. by rewrite dom_fmap_L. }
    rewrite Ecb in Ey. cbn [obind] in Ey. rewrite Hj in Ey. cbn [obind] in Ey. unfold index at 1 in Ey. rewrite Ef in Ey. cbn [obind] in Ey.
    unfold index in Ey. rewrite lookup_fmap, Ew in Ey. cbn in Ey. injection Ey as <-.
    specialize (Hnn node nb b w En Ew). assert (term b = w) as Tb by (unfold term, upper; rewrite L, Ew; cbn [default id]; lia).
    rewrite Tb in *.
    eapply within_mono; [apply within_bump; [exact Hx|done|lia]|lia].
  - exists next'. split; [done|]. split; [|done].
    assert (zsum [row (upper node) nb] = row (upper node) nb) as -> by (cbn; lia). rewrite row_keys. exact Hw'.
Qed.

Lemma aggregate_counted next : aggregate (floats c) comm = Done (next, community_names comm) -> exists c', next = floats c' /\ counted c'.
Proof.
  unfold aggregate.
  destruct (ofold_prefix (fun pre next => within (zsum (map row_above pre)) next /\ named (new_names comm) next)
    (aggregate_node (floats c) comm (community_names comm)) (sorted (keys (floats c))) ∅) as (nx & -> & Hw & _).
  - split; [|intros a nbrs; by rewrite lookup_empty]. exists ∅. split_and!; [by unfold floats; rewrite fmap_empty| |done|done].
    intros a nb b w. by rewrite lookup_empty.
  - intros pre node post nx E [H1 H2]. by eapply aggregate_node_within.
  - cbn [obind]. intros [= <-]. rewrite <- linear_keys in Hw. destruct Hw as (z & -> & Hn & Ht & Hu). destruct Hc as (_ & _ & Hup).
    generalize (map snd (iter (community_names comm))) as cs. intros cs.
    assert (exists c', foldl (fun next c => <[c := default ∅ (next !! c)]> next) (floats z) cs = floats c'
      /\ nonneg c' /\ linear twice c' = linear twice z /\ linear upper c' = linear upper z) as (c' & E & Hn' & Et & Eu).
    { clear - Hn. revert z Hn. induction cs as [|a cs IH]; intros z Hn; cbn [foldl]; [by exists z|].
      assert (<[a := default ∅ (floats z !! a)]> (floats z) = floats (<[a := default ∅ (z !! a)]> z)) as ->.
      { unfold floats. rewrite fmap_insert, lookup_fmap. f_equal. destruct (z !! a); cbn; [done|by rewrite fmap_empty]. }
      destruct (IH (<[a := default ∅ (z !! a)]> z)) as (c' & E & Hn' & Et & Eu).
      - intros x nb y w. destruct (decide (a = x)) as [<-|N]; [|rewrite lookup_insert_ne by done; apply Hn].
        rewrite lookup_insert_eq. intros [= <-]. destruct (z !! a) as [nb|] eqn:E; cbn [default id]; [by apply (Hn a)|by rewrite lookup_empty].
      - exists c'. rewrite !linear_or_empty in *. done. }
    exists c'. split; [done|]. split_and!; [done|lia|lia].
Qed.
End count_aggregation.

(** ** Groups, up to the order of their members *)

Definition alike (g1 g2 : gmap string (list string)) : Prop := forall k, option_Forall2 Permutation (g1 !! k) (g2 !! k).
#[local] Instance alike_equiv : Equivalence alike.
Proof.
  split; [by intros g k|intros g1 g2 H k; by symmetry|intros g1 g2 g3 H1 H2 k; by transitivity (g2 !! k)].
Qed.
Lemma alike_insert g1 g2 k l1 l2 : alike g1 g2 -> l1 ≡ₚ l2 -> alike (<[k := l1]> g1) (<[k := l2]> g2).
Proof.
  intros H Hl x. destruct (decide (k = x)) as [<-|N]; [rewrite !lookup_insert_eq; by constructor|].
  rewrite !lookup_insert_ne by done. apply H.
Qed.
Lemma alike_default g1 g2 k : alike g1 g2 -> default [] (g1 !! k) ≡ₚ default [] (g2 !! k).
Proof. intros H. by destruct (H k); cbn. Qed.

Definition gather_step (members : gmap string (list string)) (key : string -> outcome string) (g : gmap string (list string))
    (x : string * string) : gmap string (list string) :=
  match key x.2 with
  | Done c => <[c := default [] (g !! c) ++ default [] (members !! x.1)]> g
  | _ => g
  end.
Lemma gather_steps members key l g : (forall x, x ∈ l -> exists c, key x.2 = Done c /\ x.1 ∈ dom members) ->
  ofold (gather members key) l g = Done (foldl (gather_step members key) g l).
Proof.
  revert g. induction l as [|x l IH]; intros g Hx; [done|]. cbn [ofold foldl].
  destruct (Hx x) as (c & Hk & [ms Hm]%elem_of_dom); [by left|].
  assert (gather members key g x = Done (gather_step members key g x)) as ->.
  { unfold gather, gather_step, index. by rewrite Hk, Hm. }
  cbn [obind]. apply IH. intros. apply Hx. by right.
Qed.
Lemma gather_step_alike m1 m2 key g1 g2 x : alike m1 m2 -> alike g1 g2 -> alike (gather_step m1 key g1 x) (gather_step m2 key g2 x).
Proof.
  intros Hm Hg. unfold gather_step. destruct (key x.2) as [c| |]; [|done..]. apply alike_insert; [done|].
  by rewrite (alike_default g1 g2), (alike_default m1 m2).
Qed.
Lemma gather_alike m1 m2 key l1 l2 g1 g2 : alike m1 m2 -> alike g1 g2 -> l1 ≡ₚ l2 ->
  alike (foldl (gather_step m1 key) g1 l1) (foldl (gather_step m2 key) g2 l2).
Proof.
  intros Hm Hg Hl. revert m1 m2 Hm g1 g2 Hg. induction Hl as [|x l1 l2 _ IH|x y l|l1 l2 l3 _ IH1 _ IH2]; intros m1 m2 Hm g1 g2 Hg; cbn [foldl].
  - done.
  - apply IH; [done|]. by apply gather_step_alike.
  - assert (forall l a b, alike a b -> alike (foldl (gather_step m1 key) a l) (foldl (gather_step m2 key) b l)) as H.
    { clear - Hm. induction l as [|z l IH]; intros a b Hab; [done|]. cbn. apply IH. by apply gather_step_alike. }
    apply H. etransitivity; [by apply gather_step_alike, gather_step_alike|].
    unfold gather_step. destruct (key x.2) as [c| |] eqn:Ex, (key y.2) as [d| |] eqn:Ey; try reflexivity.
    destruct (decide (c = d)) as [->|N].
    + rewrite !lookup_insert_eq, !insert_insert_eq. cbn [default id]. apply alike_insert; [reflexivity|].
      rewrite <- !app_assoc. apply Permutation_app_head, Permutation_app_comm.
    + rewrite !(lookup_insert_ne _ c d), !(lookup_insert_ne _ d c) by done. rewrite insert_insert_ne by done. reflexivity.
  - etransitivity; [by apply IH1|]. apply IH2; [done|reflexivity].
Qed.

Lemma flat_inj g k1 k2 l1 l2 x : NoDup (flat g) -> g !! k1 = Some l1 -> x ∈ l1 -> g !! k2 = Some l2 -> x ∈ l2 -> k1 = k2.
Proof.
  intros Hnd H1 Hx1 H2 Hx2. destruct (decide (k1 = k2)) as [|N]; [done|]. exfalso.
  rewrite (flat_split g k1), H1 in Hnd. cbn [default id] in Hnd. apply NoDup_app in Hnd as (_ & Hd & _). apply (Hd x Hx1).
  apply flat_elem. exists k2, l2. by rewrite lookup_delete_ne by done.
Qed.

(** The groups are listed in one order, and so are their members. *)
Lemma sorted_groups_order (I1 I2 : HashIteration) nodes g1 g2 : NoDup nodes -> partitioned nodes g1 -> partitioned nodes g2 -> alike g1 g2 ->
  map sorted (sort_by least_before (map snd (iter (HashIteration := I1) g1)))
  = map sorted (sort_by least_before (map snd (iter (HashIteration := I2) g2))).
Proof.
  intros Hnd Hp1 Hp2 Ha.
  assert (forall (I : HashIteration) g, partitioned nodes g ->
    map sorted (sort_by least_before (map snd (iter g))) ≡ₚ map snd (map_to_list (sorted <$> g))
    /\ StronglySorted (fun x y => least_before y x = false) (map sorted (sort_by least_before (map snd (iter g))))) as H.
  { intros I g [_ Hne]. set (groups := sort_by least_before (map snd (iter g))).
    assert (forall l, l ∈ groups -> l <> []) as Hn.
    { intros l. unfold groups. rewrite sort_by_perm, values_elem. intros [k Hk]. by eapply Hne. }
    split.
    - unfold groups. rewrite sort_by_perm, iter_perm, map_to_list_fmap. rewrite map_map.
      apply reflexive_eq. induction (map_to_list g) as [|x l IH]; [done|]. cbn. by f_equal.
    - apply ordered_strongly. intros i j x y Hij. rewrite !list_lookup_fmap.
      intros (lx & Hx & ->)%fmap_Some (ly & Hy & ->)%fmap_Some.
      assert (forall l, l ∈ groups -> least (sorted l) = least l) as Hleast.
      { intros l Hl. pose proof (Hn l Hl) as Hne'. destruct (least_spec l Hne') as (a & Ea & _). rewrite Ea.
        pose proof (sorted_least l a Ea Hne') as Eh. assert (sorted l <> []) as Hs by (by destruct (sorted l)).
        destruct (least_spec (sorted l) Hs) as (b & Eb & _). rewrite Eb.
        pose proof (sorted_least (sorted l) b Eb Hs) as Eh2. rewrite (sorted_unique (sorted l) l) in Eh2 by apply sorted_perm. congruence. }
      unfold least_before. rewrite !Hleast by (by eapply list_elem_of_lookup_2).
      apply (sort_by_ordered least_before (P := fun l : list string => l <> []) (map snd (iter g))) with i j; try done.
      apply Forall_forall. intros l Hl. apply Hn. unfold groups. by rewrite sort_by_perm. }
  destruct (H I1 g1 Hp1) as [P1 S1], (H I2 g2 Hp2) as [P2 S2].
  assert (sorted <$> g1 = sorted <$> g2) as E.
  { apply map_eq. intros k. rewrite !lookup_fmap. destruct (Ha k); cbn; [|done]. f_equal. by apply sorted_unique. }
  rewrite E in P1. eapply StronglySorted_unique_strong; [|exact S1|exact S2|by rewrite P1, P2].
  intros x y Hx Hy Hxy Hyx. rewrite P1 in Hx. rewrite P2 in Hy.
  apply list_elem_of_fmap in Hx as ([k1 x'] & -> & Hx), Hy as ([k2 y'] & -> & Hy). cbn in *.
  apply elem_of_map_to_list in Hx, Hy. rewrite lookup_fmap in Hx, Hy. apply fmap_Some in Hx as (lx & Hx & ->), Hy as (ly & Hy & ->).
  destruct Hp2 as [Hflat Hne]. pose proof (Hne k1 lx Hx) as Nx. pose proof (Hne k2 ly Hy) as Ny.
  assert (forall l, l <> [] -> exists a, least (sorted l) = Some a /\ a ∈ l /\ forall b, b ∈ l -> String.ltb b a = false) as Hl.
  { intros l Hl. destruct (least_spec (sorted l)) as (a & Ea & Hin & Hle); [by intros E0; apply Hl, Permutation_nil_r; rewrite <- (sorted_perm l), E0|].
    exists a. rewrite sorted_perm in Hin. split_and!; [done|done|]. intros b Hb. apply Hle. by rewrite sorted_perm. }
  destruct (Hl lx Nx) as (a & Ea & Hax & _), (Hl ly Ny) as (b & Eb & Hby & _). unfold least_before in Hxy, Hyx. rewrite Ea, Eb in Hxy, Hyx.
  rewrite ltb_leb in Hxy, Hyx. apply negb_false_iff in Hxy, Hyx. assert (a = b) as -> by (by apply String.leb_antisym).
  assert (k1 = k2) as -> by (eapply flat_inj; [rewrite Hflat; exact Hnd|exact Hx|exact Hax|exact Hy|exact Hby]). congruence.
Qed.

(** ** The whole method *)

Section both.
Context (I1 I2 : HashIteration).

Lemma build_order nodes degree g1 g2 : NoDup nodes -> partitioned nodes g1 -> partitioned nodes g2 -> alike g1 g2 ->
  build_communities (HIter := I1) g1 degree = build_communities (HIter := I2) g2 degree.
Proof.
  intros Hnd Hp1 Hp2 Ha. pose proof (sorted_groups_order I1 I2 nodes g1 g2 Hnd Hp1 Hp2 Ha) as E.
  set (h := fun (i : nat) (members : list string) => {| co_id := ("c" +:+ pretty i)%string; co_label := default ""%string (heaviest degree members);
    co_members := map (fun m => (m, default f64_zero (degree !! m))) members |}).
  assert (forall (I : HashIteration) g, build_communities g degree = imap h (map sorted (sort_by least_before (map snd (iter g))))) as B.
  { intros I g. unfold build_communities, h. by rewrite imap_fmap. }
  by rewrite !B, E.
Qed.

Lemma levels_order fuel gamma degree nodes m1 m2 c : NoDup nodes -> counted c -> closed (floats c) ->
  partitioned nodes m1 -> partitioned nodes m2 -> alike m1 m2 -> dom m1 = dom (floats c) -> dom m2 = dom (floats c) ->
  louvain_levels (HIter := I1) fuel gamma degree m1 (floats c) = louvain_levels (HIter := I2) fuel gamma degree m2 (floats c).
Proof.
  intros Hnd. revert m1 m2 c. induction fuel as [|fuel IH]; intros m1 m2 c Hc Hcl Hp1 Hp2 Ha Hd1 Hd2; [done|]. cbn [louvain_levels].
  rewrite (pass_order I1 I2) by done.
  destruct (louvain_pass_ok (HIter := I2) (floats c) Hcl gamma) as (comm & -> & Hcomm). cbn [obind].
  rewrite (aggregate_order I1 I2).
  destruct (aggregate_ok (HIter := I2) (floats c) Hcl comm Hcomm) as (next & Eagg & Hnc & Hnd' & _).
  destruct (aggregate_counted (HIter := I2) c Hc Hcl comm Hcomm next Eagg) as (c' & -> & Hc'). rewrite Eagg. cbn [obind].
  assert (forall key g1 g2, (forall n d, comm !! n = Some d -> exists x, key d = Done x) ->
    ofold (gather m1 key) (iter (HashIteration := I1) comm) ∅ = Done g1 ->
    ofold (gather m2 key) (iter (HashIteration := I2) comm) ∅ = Done g2 -> alike g1 g2) as Hgather.
  { intros key g1 g2 Hkey. assert (forall (I : HashIteration) (m : gmap string (list string)), dom m = dom (floats c) ->
      forall x, x ∈ iter comm -> exists d, key x.2 = Done d /\ x.1 ∈ dom m) as Hx.
    { intros I m Hm [n d] Hin%iter_elem. destruct (Hkey n d Hin) as [x Hx]. exists x. split; [done|]. cbn.
      rewrite Hm, <- (proj1 Hcomm). by apply elem_of_dom_2 in Hin. }
    rewrite !gather_steps by (by apply Hx). intros [= <-] [= <-]. apply gather_alike; [done|reflexivity|]. by rewrite !iter_perm. }
  destruct (size (floats c') =? size (floats c))%nat.
  - destruct (gather_last (HIter := I1) nodes m1 (floats c) comm Hp1 Hd1 Hcomm) as (g1 & E1 & Hg1).
    destruct (gather_last (HIter := I2) nodes m2 (floats c) comm Hp2 Hd2 Hcomm) as (g2 & E2 & Hg2). rewrite E1, E2. cbn [obind]. f_equal.
    apply (build_order nodes); [done..|]. eapply (Hgather Done); [by intros n d _; exists d|done|done].
  - destruct (gather_next (HIter := I1) nodes m1 (floats c) comm Hp1 Hd1 Hcomm) as (g1 & E1 & Hg1 & Hdg1).
    destruct (gather_next (HIter := I2) nodes m2 (floats c) comm Hp2 Hd2 Hcomm) as (g2 & E2 & Hg2 & Hdg2).
    rewrite (names_order I1 I2) in E1. rewrite E1, E2. cbn [obind].
    apply IH; try done; [|unfold new_names in *; rewrite Hdg1, Hnd', (names_order I1 I2); by rewrite !iter_perm|congruence].
    eapply (Hgather (index (community_names comm))); [|done|done].
    intros n d Hn. destruct (name_index (HIter := I2) comm n d Hn) as (x & Hx & _). by exists x.
Qed.
End both.

(** The weights being counts, whose sums stay below 2^53, the communities are a
    function of the graph and the resolution: they do not depend on the order in
    which any map is listed. *)
Lemma louvain_deterministic (I1 I2 : HashIteration) (c : Counts) resolution : counted c -> closed (floats c) ->
  louvain_communities (HIter := I1) (floats c) resolution = louvain_communities (HIter := I2) (floats c) resolution.
Proof.
  intros Hc Hcl. unfold louvain_communities. case_bool_decide; [done|]. rewrite !degrees_exact by done.
  apply (levels_order I1 I2 _ _ _ (elements (dom (floats c)))); try done; try apply alone_ok; try apply dom_each. apply NoDup_elements.
Qed.

(** ** Self-loops

    The edges inside a community become a loop of its node, which counts in the
    degrees of the next level; aggregating that level drops it. *)
Definition without_loops (adj : Adjacency) : Adjacency := map_imap (fun n nbrs => Some (delete n nbrs)) adj.

Section loops.
Context {HIter : HashIteration}.

Lemma StronglySorted_filter {A} (R : A -> A -> Prop) (P : A -> Prop) `{forall x, Decision (P x)} l :
  StronglySorted R l -> StronglySorted R (filter P l).
Proof.
  induction 1 as [|x l _ IH Hx]; [constructor|]. rewrite filter_cons. case_decide; [|done]. constructor; [done|].
  rewrite Forall_forall in *. intros y [_ Hy]%list_elem_of_filter. by apply Hx.
Qed.
Lemma sorted_keys_delete {A} (m : gmap string A) n : sorted (keys (delete n m)) = filter (fun k => k <> n) (sorted (keys m)).
Proof.
  apply (StronglySorted_unique String.le); [apply sorted_sorted|apply StronglySorted_filter, sorted_sorted|].
  rewrite !sorted_perm. apply NoDup_Permutation.
  - unfold keys. rewrite iter_perm. apply NoDup_fst_map_to_list.
  - apply NoDup_filter. unfold keys. rewrite iter_perm. apply NoDup_fst_map_to_list.
  - intros k. rewrite list_elem_of_filter, !keys_elem, dom_delete_L. set_solver.
Qed.
Lemma ofold_filter {A B} (P : A -> Prop) `{forall x, Decision (P x)} (f g : B -> A -> outcome B) l b :
  (forall b x, x ∈ l -> ~ P x -> f b x = Done b) -> (forall b x, x ∈ l -> P x -> f b x = g b x) -> ofold f l b = ofold g (filter P l) b.
Proof.
  revert b. induction l as [|x l IH]; intros b Hf Hg; [done|]. rewrite filter_cons. cbn [ofold]. case_decide as E.
  - cbn [ofold]. rewrite Hg by (try done; by left). destruct (g b x); [|done..]. cbn [obind]. apply IH; intros; [apply Hf|apply Hg]; try done; by right.
  - rewrite Hf by (try done; by left). cbn [obind]. apply IH; intros; [apply Hf|apply Hg]; try done; by right.
Qed.

(** Aggregation gives the same graph as if the loops had been removed first: a
    loop that a level has made is lost in the next. *)
Lemma aggregate_drops_loops adj comm : aggregate adj comm = aggregate (without_loops adj) comm.
Proof.
  unfold aggregate. assert (sorted (keys (without_loops adj)) = sorted (keys adj)) as ->.
  { apply sorted_unique. apply NoDup_Permutation; [unfold keys; rewrite iter_perm; apply NoDup_fst_map_to_list..|].
    intros k. rewrite !keys_elem. unfold without_loops. by rewrite dom_each. }
  rewrite (ofold_ext (fun _ => True) (aggregate_node adj comm (community_names comm)) (aggregate_node (without_loops adj) comm (community_names comm)));
    [done|done|].
  intros next node Hn _. split; [|done]. rewrite sorted_perm, keys_elem in Hn. apply elem_of_dom in Hn as [nbrs E].
  assert (index (without_loops adj) node = Done (delete node nbrs)) as E'.
  { unfold index, without_loops. by rewrite map_lookup_imap, E. }
  unfold aggregate_node. destruct (index comm node) as [c| |]; [|done..]. cbn [obind]. destruct (index _ c) as [ci| |]; [|done..]. cbn [obind].
  rewrite E'. unfold index at 1. rewrite E. cbn [obind]. rewrite sorted_keys_delete. apply ofold_filter.
  - intros b x Hx ->%dec_stable. unfold aggregate_edge. by destruct (String.leb_total node node) as [-> | ->].
  - intros b x Hx Hne. unfold aggregate_edge. destruct (String.leb x node); [done|]. destruct (index comm x) as [cx| |]; [|done..]. cbn [obind].
    destruct (index _ cx) as [cj| |]; [|done..]. cbn [obind]. rewrite E'. unfold index at 1. rewrite E. cbn [obind].
    unfold index. by rewrite lookup_delete_ne by done.
Qed.
End loops.

(** ** Runs *)

Definition in_order : HashIteration.
Proof. refine {| iter A m := map_to_list m |}. done. Defined.
Definition backwards : HashIteration.
Proof. refine {| iter A m := reverse (map_to_list m) |}. intros A m. apply reverse_Permutation. Defined.

Definition edge (c : Counts) (e : string * string) : Counts := bump_count (bump_count c e.1 e.2 1) e.2 e.1 1.
Definition graph (l : list (string * string)) : Counts := foldl edge ∅ l.
(** Two triangles and an edge between them. *)
Definition triangles : Counts := graph [("a", "b"); ("b", "c"); ("a", "c"); ("d", "e"); ("e", "f"); ("d", "f"); ("c", "d")]%string.

Lemma closed_by adj : bool_decide (map_Forall (fun _ nbrs => dom nbrs ⊆ dom adj) adj) = true -> closed adj.
Proof. intros H%bool_decide_eq_true n nbrs m E. by apply (H n nbrs E). Qed.
Lemma triangles_closed : closed (floats triangles).
Proof. apply closed_by. by vm_compute. Qed.
Lemma triangles_counted : counted triangles.
Proof.
  split_and!; [|by vm_compute..]. assert (map_Forall (fun _ nb => map_Forall (fun _ w => 0 <= w) nb) triangles) as H.
  { apply (bool_decide_eq_true_1 _). by vm_compute. }
  intros a nb b w Ha Hb. by apply (H a nb Ha b w).
Qed.

Definition members_of (o : outcome (list Community)) : list (string * string * list string) :=
  match o with Done l => map (fun c => (co_id c, co_label c, names c)) l | _ => [] end.
Example triangles_found : members_of (louvain_communities (HIter := in_order) (floats triangles) (f64_of 1))
  = [("c0", "c", ["a"; "b"; "c"]); ("c1", "d", ["d"; "e"; "f"])]%string.
Proof. by vm_compute. Qed.

(** The label of a community is documented as the smallest name among the heaviest
    members; it is the greatest. *)
Example greatest_label : members_of (louvain_communities (HIter := in_order) (floats (graph [("a", "b")]%string)) (f64_of 1))
  = [("c0", "b", ["a"; "b"])]%string.
Proof. by vm_compute. Qed.

Definition weight_of (o : outcome (Adjacency * gmap string string)) : option f64 :=
  match o with Done (next, _) => Some (f64_sum (map snd (map_to_list (degrees (HIter := in_order) next)))) | _ => None end.
Definition aggregated (comm : list (string * string)) (o : outcome (Adjacency * gmap string string)) : outcome (Adjacency * gmap string string) :=
  let! x := o in aggregate (HIter := in_order) x.1 (list_to_map comm).
(** Two levels above two triangles: the fourteen half-edges become fourteen, then
    two. *)
Example weight_is_lost :
  let start := Done (floats triangles, ∅) in
  let once := aggregated [("a", "a"); ("b", "a"); ("c", "a"); ("d", "d"); ("e", "d"); ("f", "d")]%string start in
  let again := aggregated [("c0", "c0"); ("c1", "c1")]%string once in
  (weight_of start, weight_of once, weight_of again) = (Some (f64_of 14), Some (f64_of 14), Some (f64_of 2)).
Proof. by vm_compute. Qed.
