(* ===== verification/Graph.v ===== *)
(** * The graph of notions

    Models zen-repo/src/notions_repo.rs over the tables of its migrations: notions,
    aliases, relationships with their validity windows, stages of notes; traversal,
    PageRank over a cached snapshot, and the graph whose communities are computed.
    A table is the list of its rows; the order in which a statement without ORDER
    BY lists them is the class [Scan].  Primary keys, uniqueness, foreign keys and
    CHECK constraints refuse a statement; other failures of the database are left
    out.  [unicode_normalization] is the class [Nfc]. *)

From S2P Require Import Prelude Text Sanitize Ordering Communities.
From Stdlib Require Import Lia SpecFloat.
Local Open Scope list_scope.
Local Open Scope string_scope.

Class Nfc := nfc : text -> text.
Class Scan := {
  scan : forall {A}, list A -> list A;
  scan_perm : forall {A} (l : list A), scan l ≡ₚ l;
}.

(** ** Aliases in their canonical form *)

Definition ALIAS_SUFFIXES : list string :=
  [".js"; ".rs"; ".py"; "-lang"; " lang"; " language"; ".ts"; ".go"; ".java"; ".rb"].
Fixpoint strip_first_suffix (suffixes : list string) (s : text) : text :=
  match suffixes with
  | [] => s
  | suffix :: rest => match strip_suffix s (utf8 suffix) with Some stripped => stripped | None => strip_first_suffix rest s end
  end.
Definition normalize_alias `{Nfc, Lowercase} (raw : string) : string :=
  to_string (trim (strip_first_suffix ALIAS_SUFFIXES (to_lowercase (trim (nfc (utf8 raw)))))).

(** ** Rows *)

Record NotionRow := {
  n_id : string; n_name : string; n_kind : string; n_created_at : string; n_last_updated : option string;
  n_description : string; n_access_count : Z; n_last_accessed_at : option string; n_confidence : f64; n_source : string;
  n_promoted_at : option string }.
Record RelationRow := {
  r_id : string; r_source : string; r_target : string; r_type : string; r_confidence : f64; r_note_ids : string;
  r_created_at : string; r_description : string; r_valid_from : option string; r_valid_until : option string; r_weight : f64;
  t_valid : string; t_invalid : option string }.
Record StageRow := { s_path : string; s_hash : string; s_stage : string; s_updated_at : string }.

Record graph_db := {
  notions : list NotionRow;
  aliases : list (string * string);
  relationships : list RelationRow;
  stages : list StageRow;
}.
Definition set_notions (l : list NotionRow) (db : graph_db) : graph_db :=
  {| notions := l; aliases := aliases db; relationships := relationships db; stages := stages db |}.
Definition set_aliases (l : list (string * string)) (db : graph_db) : graph_db :=
  {| notions := notions db; aliases := l; relationships := relationships db; stages := stages db |}.
Definition set_relationships (l : list RelationRow) (db : graph_db) : graph_db :=
  {| notions := notions db; aliases := aliases db; relationships := l; stages := stages db |}.
Definition set_stages (l : list StageRow) (db : graph_db) : graph_db :=
  {| notions := notions db; aliases := aliases db; relationships := relationships db; stages := l |}.

Inductive constraint := UniqueFailed | ForeignKeyFailed | CheckFailed.

Definition ids (db : graph_db) : list string := map n_id (notions db).
Definition references_ok (db : graph_db) : Prop :=
  Forall (fun a => a.2 ∈ ids db) (aliases db) /\ Forall (fun r => r_source r ∈ ids db /\ r_target r ∈ ids db) (relationships db).
#[export] Instance references_ok_dec db : Decision (references_ok db).
Proof. unfold references_ok. apply _. Defined.
(** Foreign keys are checked at the end of a statement, which is undone when one fails. *)
Definition checked (db : graph_db) : result graph_db constraint := if bool_decide (references_ok db) then Ok db else Err ForeignKeyFailed.

(** ** Notions *)

Definition new_notion (id name kind created updated description source : string) (confidence : f64) : NotionRow :=
  {| n_id := id; n_name := name; n_kind := kind; n_created_at := created; n_last_updated := Some updated;
     n_description := description; n_access_count := 0; n_last_accessed_at := None; n_confidence := confidence; n_source := source;
     n_promoted_at := None |}.

(** [INSERT OR REPLACE]: the rows that the new one conflicts with are deleted. *)
Definition insert_entity_with (id name kind now description source : string) (confidence : f64) (db : graph_db)
    : result graph_db constraint :=
  checked (set_notions (filter (fun r => n_id r <> id /\ ~ (n_name r = name /\ n_kind r = kind)) (notions db)
                        ++ [new_notion id name kind now now description source confidence])%list db).
Definition f64_half : f64 := f64_div (f64_of 1) (f64_of 2).
Definition insert_entity (id name kind now : string) (db : graph_db) : result graph_db constraint :=
  insert_entity_with id name kind now "" "manual" f64_half db.

Definition refresh (last_updated description : string) (confidence : f64) (r : NotionRow) : NotionRow :=
  {| n_id := n_id r; n_name := n_name r; n_kind := n_kind r; n_created_at := n_created_at r; n_last_updated := Some last_updated;
     n_description := if bool_decide (description <> "") then description else n_description r;
     n_access_count := n_access_count r; n_last_accessed_at := n_last_accessed_at r;
     n_confidence := if SFeqb confidence f64_half then n_confidence r else confidence;
     n_source := n_source r; n_promoted_at := n_promoted_at r |}.
Definition upsert_entity_with (id name kind created_at last_updated description source : string) (confidence : f64) (db : graph_db)
    : result graph_db constraint :=
  if bool_decide (Exists (fun r => n_name r = name /\ n_kind r = kind) (notions db)) then
    Ok (set_notions (map (fun r => if bool_decide (n_name r = name /\ n_kind r = kind) then refresh last_updated description confidence r else r)
                         (notions db)) db)
  else if bool_decide (id ∈ ids db) then Err UniqueFailed
  else Ok (set_notions (notions db ++ [new_notion id name kind created_at last_updated description source confidence])%list db).

Definition on_notion (id : string) (f : NotionRow -> NotionRow) (db : graph_db) : graph_db :=
  set_notions (map (fun r => if bool_decide (n_id r = id) then f r else r) (notions db)) db.
Definition with_access (now : string) (r : NotionRow) : NotionRow :=
  {| n_id := n_id r; n_name := n_name r; n_kind := n_kind r; n_created_at := n_created_at r; n_last_updated := n_last_updated r;
     n_description := n_description r; n_access_count := n_access_count r + 1; n_last_accessed_at := Some now;
     n_confidence := n_confidence r; n_source := n_source r; n_promoted_at := n_promoted_at r |}.
Definition with_confidence (c : f64) (r : NotionRow) : NotionRow :=
  {| n_id := n_id r; n_name := n_name r; n_kind := n_kind r; n_created_at := n_created_at r; n_last_updated := n_last_updated r;
     n_description := n_description r; n_access_count := n_access_count r; n_last_accessed_at := n_last_accessed_at r;
     n_confidence := c; n_source := n_source r; n_promoted_at := n_promoted_at r |}.
Definition with_promotion (now : string) (r : NotionRow) : NotionRow :=
  {| n_id := n_id r; n_name := n_name r; n_kind := n_kind r; n_created_at := n_created_at r; n_last_updated := n_last_updated r;
     n_description := n_description r; n_access_count := n_access_count r; n_last_accessed_at := n_last_accessed_at r;
     n_confidence := n_confidence r; n_source := n_source r; n_promoted_at := Some now |}.
Definition update_entity_access (id now : string) (db : graph_db) : graph_db := on_notion id (with_access now) db.
Definition update_entity_confidence (id : string) (c : f64) (db : graph_db) : graph_db := on_notion id (with_confidence c) db.
Definition promote_entity (id now : string) (db : graph_db) : graph_db :=
  on_notion id (fun r => match n_promoted_at r with None => with_promotion now r | Some _ => r end) db.
Definition f64_max (a b : f64) : f64 := if SFltb a b then b else a.
Definition PROMOTED_CONFIDENCE : f64 := f64_div (f64_of 8) (f64_of 10).
Definition auto_promote_entities (threshold : Z) (now : string) (db : graph_db) : graph_db * nat :=
  let due r := (threshold <=? n_access_count r)%Z && bool_decide (n_promoted_at r = None) in
  (set_notions (map (fun r => if due r then with_promotion now (with_confidence (f64_max (n_confidence r) PROMOTED_CONFIDENCE) r) else r)
                    (notions db)) db,
   length (filter (fun r => due r = true) (notions db))).

Definition notion_name (id : string) (db : graph_db) : option string := n_name <$> List.find (fun r => bool_decide (n_id r = id)) (notions db).
(** [COLLATE NOCASE] folds ASCII letters. *)
Definition nocase (s : string) : text := map ascii_lower (utf8 s).

Section selects.
Context {HScan : Scan}.
Definition find_entity_by_name (name : string) (db : graph_db) : option NotionRow :=
  List.find (fun r => bool_decide (nocase (n_name r) = nocase name)) (scan (notions db)).
Definition load_all_entities (db : graph_db) : list NotionRow := sort_by (fun a b => String.ltb (n_name a) (n_name b)) (scan (notions db)).

(** ** Aliases *)

Context {HNfc : Nfc} {HLow : Lowercase}.

Definition insert_alias_row (row : string * string) (l : list (string * string)) : list (string * string) :=
  if bool_decide (row ∈ l) then l else (l ++ [row])%list.
Definition insert_alias (alias id : string) (db : graph_db) : result graph_db constraint :=
  let alias := normalize_alias alias in
  if bool_decide (alias = "") then Ok db else checked (set_aliases (insert_alias_row (alias, id) (aliases db)) db).
Definition resolve_alias (alias : string) (db : graph_db) : option string :=
  snd <$> List.find (fun a => bool_decide (a.1 = normalize_alias alias)) (scan (aliases db)).

Definition repair (l : list (string * string)) (row : string * string) : list (string * string) :=
  let canonical := normalize_alias row.1 in
  let l := filter (fun a => a <> row) l in
  if bool_decide (canonical = "") then l else insert_alias_row (canonical, row.2) l.
Definition normalize_aliases_pass (db : graph_db) : result graph_db constraint * nat :=
  let repairs := filter (fun row => normalize_alias row.1 <> row.1) (scan (aliases db)) in
  (checked (set_aliases (foldl repair (aliases db) repairs) db), length repairs).
End selects.

(** ** Relationships *)

Record InsertRelationshipRequest := {
  q_id : string; q_source : string; q_target : string; q_type : string; q_confidence : f64; q_note_ids : option string;
  q_created_at : string; q_description : option string; q_valid_from : option string; q_valid_until : option string; q_weight : option f64 }.
Definition relation_of (q : InsertRelationshipRequest) : RelationRow :=
  {| r_id := q_id q; r_source := q_source q; r_target := q_target q; r_type := q_type q; r_confidence := q_confidence q;
     r_note_ids := default "" (q_note_ids q); r_created_at := q_created_at q; r_description := default "" (q_description q);
     r_valid_from := q_valid_from q; r_valid_until := q_valid_until q; r_weight := default (f64_of 1) (q_weight q);
     t_valid := q_created_at q; t_invalid := None |}.
Definition close (t : string) (r : RelationRow) : RelationRow :=
  {| r_id := r_id r; r_source := r_source r; r_target := r_target r; r_type := r_type r; r_confidence := r_confidence r;
     r_note_ids := r_note_ids r; r_created_at := r_created_at r; r_description := r_description r; r_valid_from := r_valid_from r;
     r_valid_until := r_valid_until r; r_weight := r_weight r; t_valid := t_valid r; t_invalid := Some t |}.

Definition insert_relationship (q : InsertRelationshipRequest) (db : graph_db) : result graph_db constraint :=
  if bool_decide (q_source q = q_target q) then Err CheckFailed
  else checked (set_relationships (filter (fun r => r_id r <> q_id q) (relationships db) ++ [relation_of q])%list db).

(** The open edges that a new one contradicts. *)
Definition contradicts (q : InsertRelationshipRequest) (r : RelationRow) : bool :=
  bool_decide (r_source r = q_source q /\ r_type r = q_type q /\ r_target r <> q_target q /\ t_invalid r = None /\ r_id r <> q_id q).
(** One transaction: when the insert is refused nothing is closed. *)
Definition insert_relationship_temporal (q : InsertRelationshipRequest) (db : graph_db) : result (graph_db * nat) constraint :=
  let closed := set_relationships (map (fun r => if contradicts q r then close (q_created_at q) r else r) (relationships db)) db in
  let? db' := insert_relationship q closed in
  Ok (db', length (filter (fun r => contradicts q r = true) (relationships db))).
Definition invalidate_relationship (id t : string) (db : graph_db) : graph_db * bool :=
  let open_edge r := bool_decide (r_id r = id /\ t_invalid r = None) in
  (set_relationships (map (fun r => if open_edge r then close t r else r) (relationships db)) db,
   existsb open_edge (relationships db)).

Definition valid_at (ts : string) (r : RelationRow) : bool :=
  String.leb (t_valid r) ts && match t_invalid r with None => true | Some t => String.ltb ts t end.
Definition before_valid (a b : RelationRow) : bool :=
  String.ltb (t_valid a) (t_valid b) || (bool_decide (t_valid a = t_valid b) && String.ltb (r_id a) (r_id b)).
Definition currently_valid (r : RelationRow) : bool :=
  bool_decide (r_valid_until r = None \/ r_valid_until r = Some "") && bool_decide (t_invalid r = None).

Section queries.
Context {HScan : Scan}.
Definition relationships_as_of (ts : string) (db : graph_db) : list RelationRow :=
  sort_by before_valid (filter (fun r => valid_at ts r = true) (scan (relationships db))).
Definition load_relationships_all (id : string) (db : graph_db) : list RelationRow :=
  filter (fun r => r_source r = id \/ r_target r = id) (scan (relationships db)).

(** ** Traversal *)

Record bfs_row := { b_id : string; b_name : string; b_depth : nat; b_source : string; b_relation : string; b_direction : string; b_path : text }.
Record GraphSearchResult := { g_notion : string; g_depth : nat; g_relation : string; g_target : string; g_source_entity : string; g_direction : string }.

(** From, to, type and direction. *)
Definition edge_set (rel_filter : string) (db : graph_db) : list (string * string * string * string) :=
  let valid := filter (fun r => currently_valid r && (bool_decide (rel_filter = "") || bool_decide (r_type r = rel_filter)) = true) (relationships db) in
  (map (fun r => (r_source r, r_target r, r_type r, "outbound")) valid ++ map (fun r => (r_target r, r_source r, r_type r, "inbound")) valid)%list.
Definition comma_id (id : string) : text := ([44%N] ++ utf8 id ++ [44%N])%list.
Definition bfs_step (edges : list (string * string * string * string)) (db : graph_db) (b : bfs_row) : list bfs_row :=
  flat_map (fun edge => let '(from, to, rel, dir) := edge in
    if bool_decide (from = b_id b) then
      omap (fun e =>
        if bool_decide (n_id e = to) && negb (contains (b_path b) (comma_id (n_id e))) then
          Some {| b_id := n_id e; b_name := n_name e; b_depth := S (b_depth b); b_source := b_name b; b_relation := rel;
                  b_direction := dir; b_path := (b_path b ++ utf8 (n_id e) ++ [44%N])%list |}
        else None) (notions db)
    else []) edges.
Fixpoint bfs_levels (depth : nat) (edges : list (string * string * string * string)) (db : graph_db) (rows : list bfs_row) : list bfs_row :=
  match depth with
  | O => rows
  | S d => (rows ++ bfs_levels d edges db (flat_map (bfs_step edges db) rows))%list
  end.
Definition bfs_start (name : string) (db : graph_db) : list bfs_row :=
  omap (fun e => if bool_decide (n_name e = name) then
    Some {| b_id := n_id e; b_name := n_name e; b_depth := 0; b_source := ""; b_relation := ""; b_direction := ""; b_path := comma_id (n_id e) |}
  else None) (notions db).

Definition min_string (l : list string) : string := default "" (least l).
Definition before_group (a b : nat * string) : bool := (a.1 <? b.1)%nat || ((a.1 =? b.1)%nat && String.ltb a.2 b.2).
Definition group_of (rows : list bfs_row) (key : nat * string) : GraphSearchResult :=
  let group := filter (fun b => (b_depth b, b_name b) = key) rows in
  {| g_notion := key.2; g_depth := key.1; g_relation := min_string (map b_relation group); g_target := key.2;
     g_source_entity := min_string (map b_source group); g_direction := min_string (map b_direction group) |}.
Definition bfs_search_filtered (name : string) (max_depth : nat) (rel_filter : string) (db : graph_db) : list GraphSearchResult :=
  match trim (utf8 name) with
  | [] => []
  | _ =>
    let rows := filter (fun b => (0 < b_depth b)%nat) (bfs_levels max_depth (edge_set rel_filter db) db (bfs_start name db)) in
    map (group_of rows) (sort_by before_group (remove_dups (map (fun b => (b_depth b, b_name b)) rows)))
  end.
Definition bfs_search (name : string) (max_depth : nat) (db : graph_db) : list GraphSearchResult := bfs_search_filtered name max_depth "" db.
End queries.

(** ** The snapshot of valid edges, and PageRank *)

Record GraphCore := {
  name_by_idx : list string;
  name_to_idx : gmap string nat;
  id_to_idx : gmap string nat;
  out_degree : list nat;
  inbound : list (list nat);
}.
(** The snapshot of a client, with the time of its load. *)
Definition GraphCoreCache : Type := option (N * GraphCore).
Definition GRAPH_CORE_CACHE_TTL : N := 60 * 10 ^ 9.
Definition get_fresh (now : N) (cache : GraphCoreCache) : option GraphCore :=
  match cache with Some (at_, core) => if (now - at_ <? GRAPH_CORE_CACHE_TTL)%N then Some core else None | None => None end.

Definition count_edge (id_to_idx : gmap string nat) (acc : list nat * list (list nat)) (r : RelationRow) : list nat * list (list nat) :=
  match id_to_idx !! r_source r, id_to_idx !! r_target r with
  | Some src, Some tgt => (alter S src acc.1, alter (fun l => l ++ [src])%list tgt acc.2)
  | _, _ => acc
  end.

Section snapshot.
Context {HScan : Scan}.
Definition build_core (db : graph_db) : GraphCore :=
  let rows := load_all_entities db in
  let n := length rows in
  let indexed := zip rows (seq 0 n) in
  let by_id := foldl (fun m x => <[n_id x.1 := x.2]> m) ∅ indexed in
  let by_name := foldl (fun m x => match m !! n_name x.1 with Some _ => m | None => <[n_name x.1 := x.2]> m end) ∅ indexed in
  let edges := foldl (count_edge by_id) (replicate n 0, replicate n []) (scan (filter (fun r => currently_valid r = true) (relationships db))) in
  {| name_by_idx := map n_name rows; name_to_idx := by_name; id_to_idx := by_id; out_degree := edges.1; inbound := edges.2 |}.
Definition load_graph_core (now : N) (db : graph_db) (cache : GraphCoreCache) : GraphCore * GraphCoreCache :=
  match get_fresh now cache with
  | Some fresh => (fresh, cache)
  | None => let core := build_core db in (core, Some (now, core))
  end.
End snapshot.

Fixpoint otraverse {A B} (f : A -> outcome B) (l : list A) : outcome (list B) :=
  match l with
  | [] => Done []
  | x :: r => let! y := f x in let! ys := otraverse f r in Done (y :: ys)
  end.

Section pagerank.
Context (core : GraphCore) (damping restart : f64).

Definition dangling_score (pr : list f64) (i : nat) : outcome (list f64) :=
  let! d := index (out_degree core) i in
  let! s := index pr i in
  Done (if (d =? 0)%nat then [s] else []).
Definition add_inbound (pr : list f64) (score : f64) (src : nat) : outcome f64 :=
  let! d := index (out_degree core) src in
  if (0 <? d)%nat then
    let! p := index pr src in
    Done (f64_add score (f64_div (f64_mul damping p) (f64_of (Z.of_nat d))))
  else Done score.
Definition new_score (teleport pr : list f64) (dangling_sum : f64) (i : nat) : outcome f64 :=
  let! t := index teleport i in
  let! srcs := index (inbound core) i in
  ofold (add_inbound pr) srcs (f64_mul (f64_add restart (f64_mul damping dangling_sum)) t).
Definition round_of_scores (teleport pr : list f64) : outcome (list f64) :=
  let! dangling := otraverse (dangling_score pr) (seq 0 (length pr)) in
  otraverse (new_score teleport pr (f64_sum (concat dangling))) (seq 0 (length (name_by_idx core))).
Fixpoint power_iteration (iterations : nat) (teleport pr : list f64) : outcome (list f64) :=
  match iterations with
  | O => Done pr
  | S n => let! pr' := round_of_scores teleport pr in power_iteration n teleport pr'
  end.
Definition run_pagerank_core (teleport : list f64) (iterations : nat) : outcome (list (string * f64)) :=
  let! pr := power_iteration iterations teleport teleport in
  let! results := otraverse (fun x => let! name := index (name_by_idx core) x.1 in Done (name, x.2)) (zip (seq 0 (length pr)) pr) in
  Done (sort_by (fun a b => SFltb b.2 a.2) results).
End pagerank.

Section ranking.
Context {HScan : Scan}.
Definition pagerank (iterations : nat) (damping : f64) (now : N) (db : graph_db) (cache : GraphCoreCache)
    : outcome (list (string * f64)) * GraphCoreCache :=
  let '(core, cache) := load_graph_core now db cache in
  let n := length (name_by_idx core) in
  (if (n =? 0)%nat then Done []
   else run_pagerank_core core damping (f64_sub (f64_of 1) damping) (replicate n (f64_div (f64_of 1) (f64_of (Z.of_nat n)))) iterations, cache).

Definition seed_indices (core : GraphCore) (seeds : list string) : gset nat :=
  list_to_set (omap (fun seed => match name_to_idx core !! seed with Some i => Some i | None => id_to_idx core !! seed end) seeds).
Definition personalized_pagerank (seeds : list string) (iterations : nat) (damping restart : f64) (now : N) (db : graph_db)
    (cache : GraphCoreCache) : outcome (list (string * f64)) * GraphCoreCache :=
  let '(core, cache) := load_graph_core now db cache in
  let n := length (name_by_idx core) in
  let seed_idx := seed_indices core seeds in
  (if (n =? 0)%nat then Done []
   else if bool_decide (seed_idx = ∅) then Done []
   else
     let share := f64_div (f64_of 1) (f64_of (Z.of_nat (size seed_idx))) in
     (** [teleport[i] = share], for each seed *)
     run_pagerank_core core damping restart (foldl (fun t i => <[i := share]> t) (replicate n f64_zero) (elements seed_idx)) iterations, cache).

(** ** Communities *)

Context {HIter : HashIteration}.
Definition project_edge (name_by_idx : list string) (tgt_idx : nat) (adjacency : Adjacency) (src_idx : nat) : outcome Adjacency :=
  let! sn := index name_by_idx src_idx in
  let! tn := index name_by_idx tgt_idx in
  Done (if bool_decide (sn = tn) then adjacency
        else bump_edge (bump_edge adjacency sn tn (f64_of 1)) tn sn (f64_of 1)).
Definition project (core : GraphCore) : outcome Adjacency :=
  ofold (fun adjacency x => ofold (project_edge (name_by_idx core) x.1) x.2 adjacency) (zip (seq 0 (length (inbound core))) (inbound core)) ∅.
Definition compute_communities (resolution : f64) (now : N) (db : graph_db) (cache : GraphCoreCache)
    : outcome (list Community) * GraphCoreCache :=
  let '(core, cache) := load_graph_core now db cache in
  (let! adjacency := project core in louvain_communities adjacency resolution, cache).
End ranking.

(** ** Stages of notes *)

Definition record_note_stage (path hash stage now : string) (db : graph_db) : graph_db :=
  let row := {| s_path := path; s_hash := hash; s_stage := stage; s_updated_at := now |} in
  if bool_decide (Exists (fun r => s_path r = path /\ s_hash r = hash) (stages db)) then
    set_stages (map (fun r => if bool_decide (s_path r = path /\ s_hash r = hash) then row else r) (stages db)) db
  else set_stages (stages db ++ [row])%list db.
Definition load_note_stages (stage : string) (db : graph_db) : list StageRow := filter (fun r => s_stage r = stage) (stages db).
(** [on_disk]: the paths that exist. *)
Definition prune_note_stages (cutoff : string) (on_disk : string -> bool) (db : graph_db) : graph_db * nat :=
  let to_delete := filter (fun p => on_disk p = false) (map s_path (filter (fun r => String.ltb (s_updated_at r) cutoff = true) (stages db))) in
  (foldl (fun db path => set_stages (filter (fun r => s_path r <> path) (stages db)) db) db to_delete, length to_delete).
