(* ===== verification/GraphProps.v ===== *)
(** * What the graph of notions guarantees

    Facts superseded in order never overlap, and the past is not rewritten;
    PageRank and communities end without a panic on the snapshot of any database,
    and communities do not depend on the order in which maps are listed; and the
    closed runs that go wrong. *)

From S2P Require Import Prelude Text Sanitize Ordering Communities CommunitiesProps CommunitiesOrder Graph.
From Stdlib Require Import Lia SpecFloat.
Local Open Scope list_scope.

(** ** Facts over time *)

Definition same_fact (r1 r2 : RelationRow) : Prop := r_source r1 = r_source r2 /\ r_type r1 = r_type r2.

(** What is done to the relationships at a time. *)
Inductive fact_step (now : string) : graph_db -> graph_db -> Prop :=
  | step_insert q db db' n : q_created_at q = now -> insert_relationship_temporal q db = Ok (db', n) -> fact_step now db db'
  | step_invalidate id db : fact_step now db (invalidate_relationship id now db).1
  | step_other db db' : relationships db' = relationships db -> fact_step now db db'.
Inductive fact_history : string -> graph_db -> Prop :=
  | history_start db : relationships db = [] -> fact_history ""%string db
  | history_step last now db db' : fact_history last db -> String.leb last now = true -> fact_step now db db' -> fact_history now db'.

Definition ends_before (r1 r2 : RelationRow) : Prop := exists t, t_invalid r1 = Some t /\ String.leb t (t_valid r2) = true.
Definition disjoint_facts (db : graph_db) : Prop := forall r1 r2, r1 ∈ relationships db -> r2 ∈ relationships db ->
  same_fact r1 r2 -> r_target r1 <> r_target r2 -> ends_before r1 r2 \/ ends_before r2 r1.
Definition stamped (last : string) (db : graph_db) : Prop := forall r, r ∈ relationships db ->
  String.leb (t_valid r) last = true /\ (forall t, t_invalid r = Some t -> String.leb t last = true).

Lemma insert_temporal_rows q db db' n : insert_relationship_temporal q db = Ok (db', n) ->
  relationships db' = filter (fun r => r_id r <> q_id q) (map (fun r => if contradicts q r then close (q_created_at q) r else r) (relationships db))
    ++ [relation_of q].
Proof.
  unfold insert_relationship_temporal, insert_relationship, checked. case_bool_decide; [done|]. case_bool_decide; [|done].
  cbn [rbind]. intros [= <- _]. done.
Qed.
Lemma insert_temporal_elem q db db' n r : insert_relationship_temporal q db = Ok (db', n) -> r ∈ relationships db' ->
  r = relation_of q \/ exists r0, r0 ∈ relationships db /\ r_id r0 <> q_id q
    /\ ((contradicts q r0 = true /\ r = close (q_created_at q) r0) \/ (contradicts q r0 = false /\ r = r0)).
Proof.
  intros H%insert_temporal_rows. rewrite H, elem_of_app, list_elem_of_singleton, list_elem_of_filter, list_elem_of_fmap.
  intros [[Hid (r0 & -> & Hr0)]| ->]; [right|by left]. exists r0. split; [done|].
  destruct (contradicts q r0) eqn:E; auto.
Qed.

Lemma step_disjoint now last db db' : String.leb last now = true -> fact_step now db db' -> stamped last db -> disjoint_facts db ->
  stamped now db' /\ disjoint_facts db'.
Proof.
  intros Hle Hs Hst Hd. assert (String.leb now now = true) as Hnow by (by destruct (String.leb_total now now)).
  assert (forall r, r ∈ relationships db -> String.leb (t_valid r) now = true /\ (forall t, t_invalid r = Some t -> String.leb t now = true)) as Hst'.
  { intros r Hr. destruct (Hst r Hr) as [H1 H2]. split; [by eapply leb_trans|]. intros t Ht. eapply leb_trans; [by apply H2|done]. }
  destruct Hs as [q db db' n Hq Hi|id db|db db' E].
  - split.
    + intros r [->|(r0 & Hr0 & _ & [[_ ->]|[_ ->]])]%(insert_temporal_elem q db db' n r Hi).
      * cbn. by rewrite Hq.
      * cbn. rewrite Hq. destruct (Hst' r0 Hr0). split; [done|]. by intros t [= <-].
      * by apply Hst'.
    + assert (forall r0 r1, r0 ∈ relationships db -> r_id r0 <> q_id q ->
        ((contradicts q r0 = true /\ r1 = close (q_created_at q) r0) \/ (contradicts q r0 = false /\ r1 = r0)) ->
        same_fact r1 (relation_of q) -> r_target r1 <> q_target q -> ends_before r1 (relation_of q)) as Hnew.
      { intros r0 r1 Hr0 Hid Hr1 [Hs Ht] Htg. unfold ends_before. cbn [t_valid relation_of]. rewrite Hq.
        destruct Hr1 as [[C ->]|[C ->]]; [by exists now; cbn; rewrite Hq|].
        destruct (t_invalid r0) as [t|] eqn:Et; [exists t; split; [done|by apply (Hst' r0)]|].
        unfold contradicts in C. apply bool_decide_eq_false in C. exfalso. by apply C. }
      intros r1 r2 H1%(insert_temporal_elem q db db' n r1 Hi) H2%(insert_temporal_elem q db db' n r2 Hi) [Hs Ht] Htg.
      destruct H1 as [->|(r3 & H3 & I3 & C3)], H2 as [->|(r4 & H4 & I4 & C4)].
      * done.
      * right. by apply (Hnew r4).
      * left. by apply (Hnew r3).
      * assert (ends_before r3 r4 \/ ends_before r4 r3) as D.
        { apply Hd; [done|done|split; destruct C3 as [[_ ->]|[_ ->]], C4 as [[_ ->]|[_ ->]]; done|].
          destruct C3 as [[_ ->]|[_ ->]], C4 as [[_ ->]|[_ ->]]; done. }
        assert (forall a b a' b', ends_before a b -> ((contradicts q a = true /\ a' = close (q_created_at q) a) \/ (contradicts q a = false /\ a' = a)) ->
          t_valid b' = t_valid b -> ends_before a' b') as Hk.
        { intros a b a' b' (t & Hta & Htb) [[Ca ->]|[_ ->]] Hv; [|exists t; by rewrite Hv].
          unfold contradicts in Ca. apply bool_decide_eq_true in Ca. destruct Ca as (_ & _ & _ & Ca & _). congruence. }
        destruct D as [D|D]; [left; apply (Hk r3 r4)|right; apply (Hk r4 r3)]; try done;
          destruct C3 as [[_ ->]|[_ ->]], C4 as [[_ ->]|[_ ->]]; done.
  - set (o := fun r => bool_decide (r_id r = id /\ t_invalid r = None)).
    assert (forall r, r ∈ relationships (invalidate_relationship id now db).1 -> exists r0, r0 ∈ relationships db
      /\ ((t_invalid r0 = None /\ r = close now r0) \/ r = r0)) as Hel.
    { intros r (r0 & -> & Hr0)%list_elem_of_fmap. exists r0. split; [done|]. case_bool_decide as E; [left|by right]. by destruct E. }
    split.
    + intros r (r0 & Hr0 & [[_ ->]| ->])%Hel; [|by apply Hst']. cbn. destruct (Hst' r0 Hr0). split; [done|]. by intros t [= <-].
    + intros r1 r2 (r3 & H3 & C3)%Hel (r4 & H4 & C4)%Hel [Hs Ht] Htg.
      assert (ends_before r3 r4 \/ ends_before r4 r3) as D.
      { apply Hd; [done|done|split; destruct C3 as [[_ ->]| ->], C4 as [[_ ->]| ->]; done|].
        destruct C3 as [[_ ->]| ->], C4 as [[_ ->]| ->]; done. }
      assert (forall a b a' b', ends_before a b -> ((t_invalid a = None /\ a' = close now a) \/ a' = a) -> t_valid b' = t_valid b -> ends_before a' b') as Hk.
      { intros a b a' b' (t & Hta & Htb) [[Ca ->]| ->] Hv; [congruence|exists t; by rewrite Hv]. }
      destruct D as [D|D]; [left; apply (Hk r3 r4)|right; apply (Hk r4 r3)]; try done; destruct C3 as [[_ ->]| ->], C4 as [[_ ->]| ->]; done.
  - split; [intros r; rewrite E; apply Hst'|]. intros r1 r2. rewrite E. apply Hd.
Qed.

Lemma valid_not_ended ts r1 r2 : valid_at ts r1 = true -> valid_at ts r2 = true -> ~ ends_before r1 r2.
Proof.
  unfold valid_at. intros H1 H2 (t & Ht & Hle). bool_to_prop. rewrite Ht, ltb_leb in *. bool_to_prop.
  assert (String.leb t ts = true) by (eapply leb_trans; done). congruence.
Qed.

(** C26. Facts that are asserted and closed in the order of their times: at any
    instant, past, present or future, the edges of a notion and a type that are
    valid point at one target. *)
Theorem one_fact_at_a_time {HScan : Scan} last db ts r1 r2 : fact_history last db -> r1 ∈ relationships_as_of ts db ->
  r2 ∈ relationships_as_of ts db -> same_fact r1 r2 -> r_target r1 = r_target r2.
Proof.
  intros Hh. unfold relationships_as_of. rewrite !sort_by_perm, !list_elem_of_filter, !scan_perm. intros [V1 H1] [V2 H2] Hs.
  destruct (decide (r_target r1 = r_target r2)) as [|N]; [done|]. exfalso.
  assert (stamped last db /\ disjoint_facts db) as [_ Hd].
  { clear -Hh. induction Hh as [db E|last now db db' _ [H1 H2] Hle Hstep]; [|by eapply step_disjoint].
    split; [intros r|intros r1 r2]; rewrite E; by intros ?%elem_of_nil. }
  destruct (Hd r1 r2 H1 H2 Hs N) as [E|E]; [by apply (valid_not_ended ts r1 r2)|by apply (valid_not_ended ts r2 r1)].
Qed.

(** Closing the facts that a new one contradicts does not rewrite the past: before
    the new fact's time the other edges are valid exactly when they were. *)
Theorem past_is_kept {HScan : Scan} q db db' n ts : insert_relationship_temporal q db = Ok (db', n) -> String.ltb ts (q_created_at q) = true ->
  forall id, id <> q_id q -> id ∈ map r_id (relationships_as_of ts db') <-> id ∈ map r_id (relationships_as_of ts db).
Proof.
  intros H Hts id Hid. pose proof (insert_temporal_rows q db db' n H) as E.
  assert (forall d, id ∈ map r_id (relationships_as_of ts d) <-> exists r, r ∈ relationships d /\ r_id r = id /\ valid_at ts r = true) as S.
  { intros d. unfold relationships_as_of. rewrite list_elem_of_fmap. setoid_rewrite sort_by_perm. setoid_rewrite list_elem_of_filter.
    setoid_rewrite scan_perm. naive_solver. }
  rewrite !S, E. assert (forall r, contradicts q r = true -> valid_at ts (close (q_created_at q) r) = valid_at ts r) as Hv.
  { intros r C. unfold contradicts in C. apply bool_decide_eq_true in C as (_ & _ & _ & C & _). unfold valid_at, close. cbn. by rewrite C, Hts. }
  split.
  - intros (r & [[_ (r0 & -> & Hr0)%list_elem_of_fmap]%list_elem_of_filter|Hr%list_elem_of_singleton]%elem_of_app & Hi & V); [|by subst r].
    exists r0. destruct (contradicts q r0) eqn:C; [rewrite Hv in V by done; by cbn in Hi|done].
  - intros (r & Hr & Hi & V). exists (if contradicts q r then close (q_created_at q) r else r).
    rewrite elem_of_app, list_elem_of_filter, list_elem_of_fmap. split_and!.
    + left. split; [destruct (contradicts q r); cbn; congruence|]. by exists r.
    + by destruct (contradicts q r).
    + destruct (contradicts q r) eqn:C; [by rewrite Hv|done].
Qed.

(** ** The snapshot *)

Definition occurrences (i : nat) (l : list nat) : nat := length (filter (fun x => x = i) l).
(** The vectors have an entry for each notion, and their entries are notions; the
    degree of a notion counts its edges. *)
Definition core_ok (core : GraphCore) : Prop :=
  let n := length (name_by_idx core) in
  length (out_degree core) = n /\ length (inbound core) = n
  /\ (forall src, src ∈ concat (inbound core) -> src < n)
  /\ (forall i, i < n -> out_degree core !! i = Some (occurrences i (concat (inbound core))))
  /\ (forall k i, name_to_idx core !! k = Some i -> i < n) /\ (forall k i, id_to_idx core !! k = Some i -> i < n).

Lemma concat_alter (ls : list (list nat)) j x : j < length ls -> concat (alter (fun l => l ++ [x]) j ls) ≡ₚ x :: concat ls.
Proof.
  revert j. induction ls as [|l ls IH]; intros [|j] Hj; cbn in *; try lia.
  - rewrite <- app_assoc. symmetry. apply Permutation_middle.
  - rewrite IH by lia. symmetry. apply Permutation_middle.
Qed.

(** Degrees and sources, while the edges are read. *)
Definition degrees_ok (n : nat) (acc : list nat * list (list nat)) : Prop :=
  length acc.1 = n /\ length acc.2 = n /\ (forall src, src ∈ concat acc.2 -> src < n)
  /\ (forall i, i < n -> acc.1 !! i = Some (occurrences i (concat acc.2))).
Lemma count_edge_ok by_id n acc r : (forall k i, by_id !! k = Some i -> i < n) -> degrees_ok n acc ->
  degrees_ok n (count_edge by_id acc r) /\ length (concat (count_edge by_id acc r).2) <= S (length (concat acc.2)).
Proof.
  intros Hb (Ho & Hi & Hs & Hd). unfold count_edge.
  destruct (by_id !! r_source r) as [src|] eqn:Es; [|by split; [|lia]]. destruct (by_id !! r_target r) as [tgt|] eqn:Et; [|by split; [|lia]].
  apply Hb in Es, Et. pose proof (concat_alter acc.2 tgt src ltac:(lia)) as Hp. cbn [fst snd]. split; [|by rewrite Hp].
  split_and!; cbn [fst snd]; [by rewrite length_alter|by rewrite length_alter| |].
  - intros x. rewrite Hp. intros [->|Hx]%elem_of_cons; auto.
  - intros i Hin. assert (occurrences i (concat (alter (fun l => l ++ [src]) tgt acc.2)) = occurrences i (src :: concat acc.2)) as ->.
    { unfold occurrences. by rewrite Hp. }
    unfold occurrences. rewrite filter_cons, list_alter_lookup, (Hd i Hin). by repeat case_decide.
Qed.
Lemma count_edges_ok by_id n rows acc : (forall k i, by_id !! k = Some i -> i < n) -> degrees_ok n acc ->
  degrees_ok n (foldl (count_edge by_id) acc rows) /\ length (concat (foldl (count_edge by_id) acc rows).2) <= length (concat acc.2) + length rows.
Proof.
  intros Hb. revert acc. induction rows as [|r rows IH]; intros acc H; cbn [foldl length]; [split; [done|lia]|].
  destruct (count_edge_ok by_id n acc r Hb H) as [H1 H2]. destruct (IH _ H1). split; [done|lia].
Qed.

Lemma build_core_ok {HScan : Scan} db : core_ok (build_core db) /\ name_by_idx (build_core db) ≡ₚ map n_name (notions db)
  /\ length (concat (inbound (build_core db))) <= length (relationships db).
Proof.
  unfold core_ok, build_core. cbn [name_by_idx name_to_idx id_to_idx out_degree inbound]. rewrite length_map.
  set (rows := load_all_entities db). set (n := length rows). set (indexed := zip rows (seq 0 n)).
  assert (forall x, x ∈ indexed -> x.2 < n) as Hx.
  { intros [r i] H%elem_of_zip_r. apply elem_of_seq in H. cbn. lia. }
  set (by_id := foldl (fun m x => <[n_id x.1 := x.2]> m) ∅ indexed).
  assert (forall (l : list (NotionRow * nat)) (m : gmap string nat), (forall x, x ∈ l -> x.2 < n) -> (forall k i, m !! k = Some i -> i < n) ->
    (forall k i, foldl (fun m x => <[n_id x.1 := x.2]> m) m l !! k = Some i -> i < n)
    /\ (forall k i, foldl (fun m x => match m !! n_name x.1 with Some _ => m | None => <[n_name x.1 := x.2]> m end) m l !! k = Some i -> i < n)) as Hm.
  { induction l as [|x l IH]; intros m Hl Hm; cbn [foldl]; [done|].
    assert (forall k0, (forall k i, <[k0 := x.2]> m !! k = Some i -> i < n)) as Hin.
    { intros k0 k i. destruct (decide (k0 = k)) as [->|N]; [rewrite lookup_insert_eq; intros [= <-]; apply Hl; by left|].
      rewrite lookup_insert_ne by done. apply Hm. }
    assert (forall y, y ∈ l -> y.2 < n) as Hl' by (intros; apply Hl; by right).
    split; [exact (proj1 (IH _ Hl' (Hin _)))|]. destruct (m !! n_name x.1); [exact (proj2 (IH _ Hl' Hm))|exact (proj2 (IH _ Hl' (Hin _)))]. }
  destruct (Hm indexed ∅ Hx) as [Hid Hnm]; [intros k i; by rewrite lookup_empty|].
  assert (concat (replicate n []) = @nil nat) as Enil.
  { clear. induction n; [done|done]. }
  destruct (count_edges_ok by_id n (scan (filter (fun r => currently_valid r = true) (relationships db))) (replicate n 0, replicate n []))
    as [(H1 & H2 & H3 & H4) H5]; [done| |].
  { split_and!; cbn [fst snd]; [apply length_replicate..|rewrite Enil; by intros ? ?%elem_of_nil|].
    intros i Hi. rewrite lookup_replicate_2 by done. by rewrite Enil. }
  cbn [snd] in H5. rewrite Enil in H5. split_and!; try done.
  - unfold rows, load_all_entities. by rewrite sort_by_perm, scan_perm.
  - etrans; [exact H5|]. cbn. rewrite scan_perm. apply length_filter.
Qed.

(** What the cache of a client can hold: the snapshot of a database, read at most
    a minute ago when it is used. *)
Definition snapshot_of {HScan : Scan} (now : N) (db : graph_db) (cache : GraphCoreCache) (db0 : graph_db) : Prop :=
  match get_fresh now cache with Some core => core = build_core db0 | None => db0 = db end.
Lemma load_snapshot {HScan : Scan} now db cache db0 : snapshot_of now db cache db0 -> (load_graph_core now db cache).1 = build_core db0.
Proof. unfold snapshot_of, load_graph_core. destruct (get_fresh now cache); by intros ->. Qed.

(** ** PageRank *)

Lemma otraverse_ok {A B} (f : A -> outcome B) l : (forall x, x ∈ l -> exists y, f x = Done y) ->
  exists ys, otraverse f l = Done ys /\ Forall2 (fun x y => f x = Done y) l ys.
Proof.
  induction l as [|x l IH]; intros H; cbn [otraverse]; [by exists []|].
  destruct (H x) as [y Hy]; [by left|]. destruct IH as (ys & -> & Hys); [intros; apply H; by right|]. rewrite Hy. cbn [obind].
  exists (y :: ys). split; [done|]. by constructor.
Qed.
Lemma index_lt {A} (l : list A) i : i < length l -> exists x, index l i = Done x /\ l !! i = Some x.
Proof. intros [x H]%lookup_lt_is_Some_2. exists x. unfold index. by rewrite H. Qed.

Section ranks.
Context (core : GraphCore) (Hcore : core_ok core) (damping restart : f64).
Let n := length (name_by_idx core).

Lemma round_ok teleport pr : length teleport = n -> length pr = n ->
  exists pr', round_of_scores core damping restart teleport pr = Done pr' /\ length pr' = n.
Proof.
  intros Ht Hp. destruct Hcore as (Ho & Hi & Hs & _). fold n in Ho, Hi, Hs. unfold round_of_scores.
  destruct (otraverse_ok (dangling_score core pr) (seq 0 (length pr))) as (ds & -> & _).
  { intros i Hin%elem_of_seq. unfold dangling_score. destruct (index_lt (out_degree core) i) as (d & -> & _); [lia|]. cbn [obind].
    destruct (index_lt pr i) as (s & -> & _); [lia|]. cbn [obind]. eauto. }
  cbn [obind]. fold n.
  destruct (otraverse_ok (new_score core damping restart teleport pr (f64_sum (concat ds))) (seq 0 n)) as (pr' & -> & H2).
  { intros i Hin%elem_of_seq. unfold new_score. destruct (index_lt teleport i) as (t & -> & _); [lia|]. cbn [obind].
    destruct (index_lt (inbound core) i) as (srcs & -> & Es); [lia|]. cbn [obind].
    destruct (ofold_inv (fun _ => True) (add_inbound core damping pr) srcs (f64_mul (f64_add restart (f64_mul damping (f64_sum (concat ds)))) t))
      as (s & -> & _); [done| |eauto].
    intros s src Hsrc _. assert (src < n) as Hlt.
    { apply Hs, list_elem_of_In, in_concat. exists srcs. split; apply list_elem_of_In; [by eapply list_elem_of_lookup_2|done]. }
    unfold add_inbound. destruct (index_lt (out_degree core) src) as (d & -> & _); [lia|]. cbn [obind].
    destruct (_ <? _); [|eauto]. destruct (index_lt pr src) as (p & -> & _); [lia|]. cbn [obind]. eauto. }
  exists pr'. split; [done|]. apply Forall2_length in H2. by rewrite <- H2, length_seq.
Qed.
Lemma power_ok k teleport pr : length teleport = n -> length pr = n ->
  exists pr', power_iteration core damping restart k teleport pr = Done pr' /\ length pr' = n.
Proof.
  intros Ht. revert pr. induction k as [|k IH]; intros pr Hp; cbn [power_iteration]; [by exists pr|].
  destruct (round_ok teleport pr Ht Hp) as (pr' & -> & Hp'). cbn [obind]. by apply IH.
Qed.
Lemma run_ok k teleport : length teleport = n -> exists res, run_pagerank_core core damping restart teleport k = Done res
  /\ map fst res ≡ₚ name_by_idx core /\ (Forall (fun x => is_number x.2) res -> ordered (fun a b => SFltb b.2 a.2) res).
Proof.
  intros Ht. unfold run_pagerank_core. destruct (power_ok k teleport teleport Ht Ht) as (pr & -> & Hp). cbn [obind].
  destruct (otraverse_ok (fun x => let! name := index (name_by_idx core) x.1 in Done (name, x.2)) (zip (seq 0 (length pr)) pr)) as (res & -> & H2).
  { intros [i s] Hin%elem_of_zip_l. apply elem_of_seq in Hin. cbn [fst snd].
    destruct (index_lt (name_by_idx core) i) as (name & -> & _); [fold n; lia|]. cbn [obind]. eauto. }
  cbn [obind]. eexists. split; [done|]. split.
  - rewrite sort_by_perm. apply reflexive_eq, list_eq_same_length with n; [done|by rewrite length_map, <- (Forall2_length _ _ _ H2), length_zip_with, length_seq; lia|].
    intros i x y Hi Hx Hy. rewrite list_lookup_fmap in Hx. apply fmap_Some in Hx as ([x' s] & Hx & ->).
    destruct (Forall2_lookup_r _ _ _ _ _ H2 Hx) as ([j s'] & Hz & E). apply lookup_zip_with_Some in Hz as (j' & s2 & [= -> ->] & Hj & _).
    apply lookup_seq in Hj as [-> _]. cbn in E. unfold index in E. rewrite Hy in E. cbn in E. by injection E.
  - intros Hn. apply (sort_by_ordered (fun a b : string * f64 => SFltb b.2 a.2) (P := fun x => is_number x.2)).
    by rewrite sort_by_perm in Hn.
Qed.
End ranks.

Lemma seeds_length {A} (s : A) (l : list nat) (t : list A) : length (foldl (fun t i => <[i := s]> t) t l) = length t.
Proof. revert t. induction l as [|i l IH]; intros t; cbn; [done|]. by rewrite IH, length_insert. Qed.

(** A name or an identifier that is not in the maps of the snapshot is not in it. *)
Lemma names_known {HScan : Scan} db s : name_to_idx (build_core db) !! s = None -> s ∉ map n_name (notions db).
Proof.
  unfold build_core. cbn [name_to_idx]. assert (map n_name (notions db) ≡ₚ map n_name (load_all_entities db)) as ->.
  { unfold load_all_entities. by rewrite sort_by_perm, scan_perm. }
  set (rows := load_all_entities db). assert (map n_name rows = map (fun x => n_name x.1) (zip rows (seq 0 (length rows)))) as ->.
  { rewrite <- (map_map fst n_name). f_equal. symmetry. apply fst_zip. by rewrite length_seq. }
  generalize (zip rows (seq 0 (length rows))) as l. intros l.
  assert (forall m : gmap string nat, foldl (fun m x => match m !! n_name x.1 with Some _ => m | None => <[n_name x.1 := x.2]> m end) m l !! s = None ->
    m !! s = None /\ s ∉ map (fun x => n_name x.1) l) as H; [|by intros [_ ?]%H].
  induction l as [|x l IH]; intros m; cbn [foldl map]; [intros H; split; [done|apply not_elem_of_nil]|].
  intros H. destruct (m !! n_name x.1) eqn:E; apply IH in H as [H1 H2].
  - split; [done|]. intros [->|?]%elem_of_cons; congruence.
  - apply lookup_insert_None in H1 as [H1 N]. split; [done|]. intros [->|?]%elem_of_cons; congruence.
Qed.
Lemma ids_known {HScan : Scan} db s : id_to_idx (build_core db) !! s = None -> s ∉ map n_id (notions db).
Proof.
  unfold build_core. cbn [id_to_idx]. assert (map n_id (notions db) ≡ₚ map n_id (load_all_entities db)) as ->.
  { unfold load_all_entities. by rewrite sort_by_perm, scan_perm. }
  set (rows := load_all_entities db). assert (map n_id rows = map (fun x => n_id x.1) (zip rows (seq 0 (length rows)))) as ->.
  { rewrite <- (map_map fst n_id). f_equal. symmetry. apply fst_zip. by rewrite length_seq. }
  generalize (zip rows (seq 0 (length rows))) as l. intros l.
  assert (forall m : gmap string nat, foldl (fun m x => <[n_id x.1 := x.2]> m) m l !! s = None ->
    m !! s = None /\ s ∉ map (fun x => n_id x.1) l) as H; [|by intros [_ ?]%H].
  induction l as [|x l IH]; intros m; cbn [foldl map]; [intros H; split; [done|apply not_elem_of_nil]|].
  intros [[H1 N]%lookup_insert_None H2]%IH. split; [done|]. intros [->|?]%elem_of_cons; congruence.
Qed.

(** Whatever the database, the seeds and the parameters: personalised PageRank
    ends without a panic, and what it returns is either nothing, when no seed is a
    notion, or every notion of the snapshot once, the highest score first unless
    a score is not a number. *)
Theorem pagerank_total {HScan : Scan} seeds iterations damping restart now db cache db0 : snapshot_of now db cache db0 ->
  exists res, (personalized_pagerank seeds iterations damping restart now db cache).1 = Done res
    /\ ((res = [] /\ forall s, s ∈ seeds -> s ∉ map n_name (notions db0) /\ s ∉ map n_id (notions db0)) \/ map fst res ≡ₚ map n_name (notions db0))
    /\ (Forall (fun x => is_number x.2) res -> ordered (fun a b => SFltb b.2 a.2) res).
Proof.
  intros Hs. unfold personalized_pagerank. pose proof (load_snapshot now db cache db0 Hs) as El.
  destruct (load_graph_core now db cache) as [core cache']. cbn [fst] in El. subst core. cbn [fst].
  destruct (build_core_ok db0) as (Hok & Hn & _). set (core := build_core db0) in *.
  assert (ordered (fun a b : string * f64 => SFltb b.2 a.2) []) as Hnil by (intros i j x y _ H; by rewrite lookup_nil in H).
  destruct (Nat.eqb_spec (length (name_by_idx core)) 0) as [E0|E0].
  { exists []. split_and!; [done| |done]. right. apply length_zero_iff_nil in E0. rewrite E0 in Hn. by rewrite <- Hn. }
  case_bool_decide as E.
  - exists []. split_and!; [done| |done]. left. split; [done|]. intros s Hin.
    assert (forall i, match name_to_idx core !! s with Some i => Some i | None => id_to_idx core !! s end <> Some i) as Hno.
    { intros i Hi. assert (i ∈ seed_indices core seeds) as H; [|rewrite E in H; set_solver].
      unfold seed_indices. rewrite elem_of_list_to_set, list_elem_of_omap. by exists s. }
    destruct (name_to_idx core !! s) as [i|] eqn:En; [by destruct (Hno i)|]. destruct (id_to_idx core !! s) as [i|] eqn:Ei; [by destruct (Hno i)|].
    split; [apply (names_known db0 s En)|apply (ids_known db0 s Ei)].
  - destruct (run_ok core Hok damping restart iterations (foldl (fun t i => <[i := f64_div (f64_of 1) (f64_of (Z.of_nat (size (seed_indices core seeds))))]> t)
      (replicate (length (name_by_idx core)) f64_zero) (elements (seed_indices core seeds)))) as (res & -> & Hp & Ho).
    { by rewrite seeds_length, length_replicate. }
    exists res. split_and!; [done| |done]. right. by rewrite Hp.
Qed.

(** ** Communities *)

(** An edge of the snapshot between two notions of different names. *)
Definition linked (core : GraphCore) (a b : string) : Prop :=
  exists i j srcs, inbound core !! j = Some srcs /\ i ∈ srcs /\ name_by_idx core !! i = Some a /\ name_by_idx core !! j = Some b /\ a <> b.
Definition connected (core : GraphCore) (x : string) : Prop := exists y, linked core x y \/ linked core y x.

Lemma project_edge_spec names j (adj : Adjacency) i : i < length names -> j < length names ->
  exists a b, names !! i = Some a /\ names !! j = Some b /\ project_edge names j adj i
    = Done (if bool_decide (a = b) then adj else bump_edge (bump_edge adj a b (f64_of 1)) b a (f64_of 1)).
Proof.
  intros Hi Hj. destruct (index_lt names i Hi) as (a & Ea & La), (index_lt names j Hj) as (b & Eb & Lb). exists a, b.
  split_and!; [done|done|]. unfold project_edge. by rewrite Ea, Eb.
Qed.
Lemma closed_bump (adj : Adjacency) a b w : closed adj -> closed (bump_edge (bump_edge adj a b w) b a w) /\
  dom (bump_edge (bump_edge adj a b w) b a w) = dom adj ∪ {[a; b]}.
Proof.
  intros Hc. assert (dom (bump_edge (bump_edge adj a b w) b a w) = dom adj ∪ {[a; b]}) as Hd.
  { unfold bump_edge. rewrite !dom_insert_L. set_solver. }
  split; [|done]. intros n nbrs m Hn Hm. rewrite Hd. unfold bump_edge in Hn at 1.
  assert (forall (ad : Adjacency) x y, (forall n nbrs m, ad !! n = Some nbrs -> m ∈ dom nbrs -> m ∈ dom adj ∪ {[a; b]}) -> y ∈ ({[a; b]} : gset string) ->
    forall n nbrs m, bump_edge ad x y w !! n = Some nbrs -> m ∈ dom nbrs -> m ∈ dom adj ∪ {[a; b]}) as Hstep.
  { intros ad x y Had Hy k nb z Hk Hz. unfold bump_edge in Hk. destruct (decide (x = k)) as [<-|N].
    - rewrite lookup_insert_eq in Hk. injection Hk as <-. unfold bump in Hz. rewrite dom_insert_L in Hz.
      apply elem_of_union in Hz as [->%elem_of_singleton|Hz]; [set_solver|].
      destruct (ad !! x) as [old|] eqn:E; cbn [default id] in Hz; [by apply (Had x old)|set_solver].
    - rewrite lookup_insert_ne in Hk by done. by apply (Had k nb). }
  apply (Hstep (bump_edge adj a b w) b a) with n nbrs; [|set_solver|done|done].
  intros k nb z. apply Hstep; [|set_solver]. intros k' nb' z' H1 H2. pose proof (Hc k' nb' z' H1 H2). set_solver.
Qed.

Lemma project_edges core (P : list (nat * nat) -> Adjacency -> Prop) : core_ok core -> P [] ∅ ->
  (forall pre adj i j srcs, inbound core !! j = Some srcs -> i ∈ srcs -> P pre adj ->
    exists adj', project_edge (name_by_idx core) j adj i = Done adj' /\ P (pre ++ [(i, j)]) adj') ->
  exists adj, project core = Done adj /\ P (concat (imap (fun j srcs => map (fun i => (i, j)) srcs) (inbound core))) adj.
Proof.
  intros Hok H0 Hstep. unfold project.
  assert (forall rows k adj pre, (forall j srcs, rows !! j = Some srcs -> inbound core !! (k + j) = Some srcs) -> P pre adj ->
    exists adj', ofold (fun adj x => ofold (project_edge (name_by_idx core) x.1) x.2 adj) (zip (seq k (length rows)) rows) adj = Done adj'
      /\ P (pre ++ concat (imap (fun j srcs => map (fun i => (i, k + j)) srcs) rows)) adj') as H.
  { induction rows as [|srcs rows IH]; intros k adj pre Hrows Hp; cbn [length seq zip zip_with ofold imap concat].
    { exists adj. split; [done|]. by rewrite app_nil_r. }
    cbn [fst snd]. destruct (ofold_prefix (fun p adj => P (pre ++ map (fun i => (i, k)) p) adj) (project_edge (name_by_idx core) k) srcs adj)
      as (adj1 & -> & H1).
    - by rewrite app_nil_r.
    - intros p i q ad -> Hp'. destruct (Hstep (pre ++ map (fun i => (i, k)) p) ad i k (p ++ i :: q)) as (ad' & -> & H').
      + specialize (Hrows 0 (p ++ i :: q) eq_refl). by rewrite Nat.add_0_r in Hrows.
      + apply elem_of_app. right. by left.
      + done.
      + exists ad'. split; [done|]. by rewrite map_app, app_assoc.
    - cbn [obind]. destruct (IH (S k) adj1 (pre ++ map (fun i => (i, k)) srcs)) as (adj2 & -> & H2); [|done|].
      + intros j s Hj. specialize (Hrows (S j) s Hj). by replace (S k + j) with (k + S j) by lia.
      + exists adj2. split; [done|]. rewrite <- app_assoc in H2. rewrite Nat.add_0_r. unfold compose.
        erewrite imap_ext; [exact H2|]. intros j s _. cbn. apply map_ext. intros i. f_equal. lia. }
  destruct (H (inbound core) 0 ∅ []) as (adj & E & Hp); [done|done|]. exists adj. by split.
Qed.

Lemma edge_bounds core j srcs i : core_ok core -> inbound core !! j = Some srcs -> i ∈ srcs ->
  i < length (name_by_idx core) /\ j < length (name_by_idx core).
Proof.
  intros (_ & Hl & Hs & _) Hj Hi. split.
  - apply Hs, list_elem_of_In, in_concat. exists srcs. split; apply list_elem_of_In; [by eapply list_elem_of_lookup_2|done].
  - rewrite <- Hl. by eapply lookup_lt_Some.
Qed.

Lemma project_ok core : core_ok core -> exists adj, project core = Done adj /\ closed adj /\ forall x, x ∈ dom adj <-> connected core x.
Proof.
  intros Hok. set (edge := fun (e : nat * nat) a b => name_by_idx core !! e.1 = Some a /\ name_by_idx core !! e.2 = Some b /\ a <> b).
  destruct (project_edges core (fun pre adj => closed adj /\ forall x, x ∈ dom adj <-> exists e y, e ∈ pre /\ (edge e x y \/ edge e y x))) as (adj & E & Hc & Hd);
    [done| | |].
  - split; [intros n nbrs m; by rewrite lookup_empty|]. intros x. rewrite dom_empty_L. split; [set_solver|]. by intros (e & y & ?%elem_of_nil & _).
  - intros pre adj i j srcs Hj Hi [Hc Hd]. destruct (edge_bounds core j srcs i Hok Hj Hi) as [Bi Bj].
    destruct (project_edge_spec (name_by_idx core) j adj i Bi Bj) as (a & b & Ea & Eb & ->). eexists. split; [done|].
    assert (forall x, (exists e y, e ∈ pre ++ [(i, j)] /\ (edge e x y \/ edge e y x)) <-> (exists e y, e ∈ pre /\ (edge e x y \/ edge e y x)) \/ ((x = a \/ x = b) /\ a <> b)) as Hx.
    { intros x. setoid_rewrite elem_of_app. setoid_rewrite list_elem_of_singleton. split.
      - intros (e & y & [He| ->] & He'); [left; eauto|right]. unfold edge in He'. cbn in He'. rewrite Ea, Eb in He'.
        destruct He' as [([= <-] & [= <-] & N)|([= <-] & [= <-] & N)]; auto.
      - intros [(e & y & He & He')|[[-> | ->] N]]; [exists e, y; auto|exists (i, j), b|exists (i, j), a]; (split; [by right|]); [left|right]; done. }
    case_bool_decide as E.
    + split; [done|]. intros x. rewrite Hx, Hd. naive_solver.
    + destruct (closed_bump adj a b (f64_of 1) Hc) as [Hc' Hd']. split; [done|]. intros x. rewrite Hx, Hd', elem_of_union, Hd. set_solver.
  - exists adj. split_and!; [done|done|]. intros x. rewrite Hd. unfold connected, linked. split.
    + intros (e & y & He & Hxy). apply list_elem_of_In, in_concat in He as (l & Hl%list_elem_of_In & He%list_elem_of_In).
      apply elem_of_lookup_imap in Hl as (j & srcs & -> & Hj). apply list_elem_of_fmap in He as (i & -> & Hi). unfold edge in Hxy. cbn in Hxy.
      exists y. destruct Hxy as [(? & ? & ?)|(? & ? & ?)]; [left|right]; by exists i, j, srcs.
    + assert (forall i j srcs, inbound core !! j = Some srcs -> i ∈ srcs ->
        (i, j) ∈ concat (imap (fun j srcs => map (fun i => (i, j)) srcs) (inbound core))) as Hin.
      { intros i j srcs Hj Hi. apply list_elem_of_In, in_concat. exists (map (fun i => (i, j)) srcs).
        split; apply list_elem_of_In; [apply elem_of_lookup_imap; eauto|]. apply list_elem_of_fmap. eauto. }
      intros (y & [(i & j & srcs & Hj & Hi & H)|(i & j & srcs & Hj & Hi & H)]); exists (i, j), y; (split; [by eapply Hin|]); [left|right]; done.
Qed.

Lemma project_counted core : core_ok core -> (2 * Z.of_nat (length (concat (inbound core))) < TWO53)%Z ->
  exists c, project core = Done (floats c) /\ counted c.
Proof.
  intros Hok Hb.
  destruct (project_edges core (fun pre adj => (2 * Z.of_nat (length pre) < TWO53)%Z -> within (Z.of_nat (length pre)) adj)) as (adj & E & Hw); [done| | |].
  - intros _. exists ∅. split_and!; [by unfold floats; rewrite fmap_empty| |done|done]. intros a nb b w. by rewrite lookup_empty.
  - intros pre adj i j srcs Hj Hi Hp. destruct (edge_bounds core j srcs i Hok Hj Hi) as [Bi Bj].
    destruct (project_edge_spec (name_by_idx core) j adj i Bi Bj) as (a & b & _ & _ & ->). eexists. split; [done|].
    rewrite length_app. cbn [length]. intros Hlt. specialize (Hp ltac:(lia)). replace (Z.of_nat (length pre + 1)) with (Z.of_nat (length pre) + 1)%Z by lia.
    case_bool_decide as N; [eapply within_mono; [exact Hp|lia]|].
    pose proof (within_bump _ adj a b 1 Hp ltac:(lia) ltac:(lia)) as H. by rewrite bool_decide_false in H.
  - assert (length (concat (imap (fun j srcs => map (fun i => (i, j)) srcs) (inbound core))) = length (concat (inbound core))) as El.
    { generalize (inbound core). clear. intros ls.
      assert (forall f : nat -> nat, length (concat (imap (fun j srcs => map (fun i => (i, f j)) srcs) ls)) = length (concat ls)) as H.
      { induction ls as [|l ls IH]; intros f; [done|]. cbn. rewrite !length_app, length_map. f_equal. apply (IH (f ∘ S)). }
      apply (H id). }
    rewrite El in Hw. destruct (Hw Hb) as (c & -> & Hn & Ht & Hu). exists c. split; [done|]. split_and!; [done|lia|lia].
Qed.

(** C12. Whatever the database and the resolution: the computation ends without a
    panic.  Its communities hold every name of the snapshot that an edge joins to
    another name, once, and no other; they are numbered in the order of their
    first members, which are sorted; no community is empty, and its label is one of
    its members. *)
Theorem communities_partition {HScan : Scan} {HIter : HashIteration} resolution now db cache db0 : snapshot_of now db cache db0 ->
  exists cs, (compute_communities resolution now db cache).1 = Done cs
    /\ NoDup (concat (map names cs)) /\ (forall x, x ∈ concat (map names cs) <-> connected (build_core db0) x)
    /\ (forall i c, cs !! i = Some c -> co_id c = name_of i /\ StronglySorted String.le (names c) /\ co_label c ∈ names c)
    /\ (forall i j c d, i < j -> cs !! i = Some c -> cs !! j = Some d ->
          exists m n, head (names c) = Some m /\ head (names d) = Some n /\ String.leb m n = true).
Proof.
  intros Hs. unfold compute_communities. pose proof (load_snapshot now db cache db0 Hs) as El.
  destruct (load_graph_core now db cache) as [core cache']. cbn [fst] in El. subst core. cbn [fst].
  destruct (build_core_ok db0) as (Hok & _ & _). destruct (project_ok (build_core db0) Hok) as (adj & -> & Hc & Hd). cbn [obind].
  destruct (louvain_partition adj resolution Hc) as (cs & -> & Hp & Hi & Ho). exists cs. split_and!; [done| | | |done].
  - rewrite Hp. apply NoDup_elements.
  - intros x. by rewrite Hp, elem_of_elements, Hd.
  - intros i c Hic. destruct (Hi i c Hic) as (H1 & _ & H3 & _ & H5 & _). by split_and!.
Qed.

(** C19. With fewer than 2^52 relationships, the communities are a function of the
    database and the resolution: two runs whose maps list their entries in any two
    orders give the same communities, names and weights. *)
Theorem communities_deterministic {HScan : Scan} (I1 I2 : HashIteration) resolution now db cache db0 : snapshot_of now db cache db0 ->
  (2 * Z.of_nat (length (relationships db0)) < 2 ^ 53)%Z ->
  compute_communities (HIter := I1) resolution now db cache = compute_communities (HIter := I2) resolution now db cache.
Proof.
  intros Hs Hb. unfold compute_communities. pose proof (load_snapshot now db cache db0 Hs) as El.
  destruct (load_graph_core now db cache) as [core cache']. cbn [fst] in El. subst core.
  destruct (build_core_ok db0) as (Hok & _ & Hlen). destruct (project_counted (build_core db0) Hok) as (c & Ec & Hc); [unfold TWO53; lia|].
  destruct (project_ok (build_core db0) Hok) as (adj & Ea & Hcl & _). rewrite Ec in Ea. injection Ea as <-. rewrite Ec. cbn [obind]. f_equal.
  by apply louvain_deterministic.
Qed.
