(* ===== verification/GraphPaths.v ===== *)
(** * What a traversal of the graph finds

    The recursive query keeps the identifiers of a path in a text, and asks whether
    a notion is on it by searching the text.  With identifiers that hold no comma
    the answer is exact, and a traversal finds the ends of the simple paths up to
    its depth, and nothing else. *)

From S2P Require Import Prelude Text Sanitize Ordering Communities CommunitiesProps CommunitiesOrder Graph GraphProps.
From Stdlib Require Import Lia.
From Stdlib Require Import Lia SpecFloat.
Local Open Scope list_scope.

(** ** Paths as texts *)

Definition plain_id (id : string) : Prop := utf8 id <> [] /\ 44%N ∉ utf8 id /\ to_string (utf8 id) = id.
Definition path_text (p : list string) : text := 44%N :: concat (map (fun id => utf8 id ++ [44%N]) p).

Lemma plain_inj x y : plain_id x -> plain_id y -> utf8 x = utf8 y -> x = y.
Proof. intros (_ & _ & Hx) (_ & _ & Hy) E. by rewrite <- Hx, <- Hy, E. Qed.
Lemma path_text_snoc p x : path_text (p ++ [x]) = path_text p ++ utf8 x ++ [44%N].
Proof. unfold path_text. rewrite map_app, concat_app. cbn. by rewrite app_nil_r. Qed.

Lemma split_at_comma (a e u r : text) : 44%N ∉ a -> a ++ e = u ++ 44%N :: r -> exists u', u = a ++ u' /\ e = u' ++ 44%N :: r.
Proof.
  revert u. induction a as [|c a IH]; intros u Ha E; [by exists u|].
  apply not_elem_of_cons in Ha as [Hc Ha]. destruct u as [|d u]; cbn in E; injection E as -> E; [done|].
  destruct (IH u Ha E) as (u' & -> & ->). by exists u'.
Qed.
Lemma same_before_comma (a b e r : text) : 44%N ∉ a -> 44%N ∉ b -> a ++ 44%N :: e = b ++ 44%N :: r -> a = b.
Proof.
  intros Ha Hb E. destruct (split_at_comma a (44%N :: e) b r Ha E) as (u' & -> & E').
  destruct u' as [|c u']; [by rewrite app_nil_r|]. injection E' as <- _. exfalso. apply Hb. rewrite elem_of_app. right. by left.
Qed.

Lemma path_text_infix p x : Forall plain_id p -> plain_id x -> infix (comma_id x) (path_text p) <-> x ∈ p.
Proof.
  intros Hp Hx. pose proof Hx as (Hne & Hc & _). split.
  - intros (u & v & E). unfold comma_id in E. revert u E. induction Hp as [|id p Hid Hp IH]; intros u E.
    + unfold path_text in E. cbn in E. apply (f_equal length) in E. rewrite !length_app in E. cbn in E.
      destruct (utf8 x); [done|]. cbn in E. lia.
    + assert (path_text (id :: p) = 44%N :: (utf8 id ++ path_text p)) as Ec.
      { unfold path_text. cbn. by rewrite <- app_assoc. }
      rewrite Ec in E. pose proof Hid as (_ & Hcid & _). destruct u as [|c u]; cbn in E; [injection E as E|injection E as Hcu E].
      * apply elem_of_cons. left. apply (plain_inj x id Hx Hid). rewrite <- !app_assoc in E. cbn in E. unfold path_text in E. symmetry in E.
        by eapply same_before_comma in E.
      * destruct (split_at_comma (utf8 id) (path_text p) u ((utf8 x ++ [44%N]) ++ v) Hcid) as (u' & -> & E'); [by rewrite E|].
        right. apply (IH u'). exact E'.
  - intros [p1 [p2 ->]]%list_elem_of_split. unfold comma_id.
    assert (path_text (p1 ++ x :: p2) = path_text p1 ++ utf8 x ++ [44%N] ++ concat (map (fun id => utf8 id ++ [44%N]) p2)) as ->.
    { unfold path_text. rewrite map_app, concat_app. cbn. by rewrite <- app_assoc. }
    assert (exists w, path_text p1 = w ++ [44%N]) as [w ->].
    { clear. induction p1 as [|y p _] using rev_ind; [by exists []|]. rewrite path_text_snoc. exists (path_text p ++ utf8 y). by rewrite app_assoc. }
    exists w, (concat (map (fun id => utf8 id ++ [44%N]) p2)). by rewrite <- !app_assoc.
Qed.

(** ** Simple paths *)

Definition edge_of (edges : list (string * string * string * string)) (x y : string) : Prop := exists rel dir, (x, y, rel, dir) ∈ edges.
Inductive simple_path (db : graph_db) (edges : list (string * string * string * string)) (name : string) : list string -> Prop :=
  | path_start e : e ∈ notions db -> n_name e = name -> simple_path db edges name [n_id e]
  | path_step p x y : simple_path db edges name (p ++ [x]) -> edge_of edges x y -> y ∈ ids db -> y ∉ p ++ [x] ->
      simple_path db edges name (p ++ [x; y]).
Definition stored (db : graph_db) : Prop := NoDup (ids db) /\ Forall plain_id (ids db).

Section traversal.
Context (db : graph_db) (Hdb : stored db) (edges : list (string * string * string * string)) (name : string).

Lemma path_ids p : simple_path db edges name p -> Forall (fun id => id ∈ ids db) p.
Proof.
  induction 1 as [e He _|p x y _ IH _ Hy _]; [apply Forall_singleton, list_elem_of_fmap; eauto|].
  apply Forall_app in IH as [H1 H2]. apply Forall_app. split; [done|]. apply Forall_cons in H2 as [H2 _]. by repeat constructor.
Qed.
Lemma path_plain p : simple_path db edges name p -> Forall plain_id p.
Proof.
  intros H%path_ids. destruct Hdb as [_ Hp]. rewrite Forall_forall in *. auto.
Qed.
Lemma id_unique e e' : e ∈ notions db -> e' ∈ notions db -> n_id e = n_id e' -> e = e'.
Proof.
  intros [i Hi]%list_elem_of_lookup_1 [j Hj]%list_elem_of_lookup_1 E. destruct Hdb as [Hnd _].
  assert (i = j) as ->; [|congruence]. apply (NoDup_lookup (ids db) i j (n_id e) Hnd); unfold ids; rewrite list_lookup_fmap; [by rewrite Hi|by rewrite Hj, E].
Qed.

(** The row of a path. *)
Definition row_at (b : bfs_row) (p : list string) : Prop :=
  exists e, e ∈ notions db /\ last p = Some (n_id e) /\ b_id b = n_id e /\ b_name b = n_name e /\ length p = S (b_depth b) /\ b_path b = path_text p.

Lemma step_elem b b' : b' ∈ bfs_step edges db b <-> exists rel dir e, (b_id b, n_id e, rel, dir) ∈ edges /\ e ∈ notions db
  /\ contains (b_path b) (comma_id (n_id e)) = false
  /\ b' = {| b_id := n_id e; b_name := n_name e; b_depth := S (b_depth b); b_source := b_name b; b_relation := rel; b_direction := dir;
             b_path := b_path b ++ utf8 (n_id e) ++ [44%N] |}.
Proof.
  unfold bfs_step. rewrite list_elem_of_In, in_flat_map. split.
  - intros ([[[from to] rel] dir] & Hin%list_elem_of_In & Hb). case_bool_decide as E; [|done]. subst from.
    apply list_elem_of_In, list_elem_of_omap in Hb as (e & He & Hb). case_bool_decide as E; [|done]. cbn in Hb.
    destruct (contains _ _) eqn:C; [done|]. injection Hb as <-. subst to. by exists rel, dir, e.
  - intros (rel & dir & e & Hin & He & C & ->). exists (b_id b, n_id e, rel, dir). split; [by apply list_elem_of_In|].
    rewrite bool_decide_true by done. apply list_elem_of_In, list_elem_of_omap. exists e. split; [done|].
    by rewrite bool_decide_true, C by done.
Qed.

Lemma level_sound k b : b ∈ Nat.iter k (flat_map (bfs_step edges db)) (bfs_start name db) -> exists p, simple_path db edges name p /\ row_at b p /\ length p = S k.
Proof.
  revert b. induction k as [|k IH]; intros b.
  - cbn. unfold bfs_start. intros (e & He & Hb)%list_elem_of_omap. case_bool_decide as E; [|done]. injection Hb as <-.
    exists [n_id e]. split_and!; [by constructor| |done]. exists e. split_and!; try done. unfold path_text, comma_id. cbn. by rewrite app_nil_r.
  - rewrite Nat.iter_succ, list_elem_of_In, in_flat_map. intros (b0 & Hb0%list_elem_of_In & Hb%list_elem_of_In).
    apply IH in Hb0 as (p & Hp & (e0 & He0 & Hl & Hid & Hn & Hlen & Hpath) & Hk). apply step_elem in Hb as (rel & dir & e & Hin & He & C & ->).
    destruct p as [|x p] using rev_ind; [done|]. clear IHp. rewrite last_snoc in Hl. injection Hl as ->.
    exists (p ++ [n_id e0; n_id e]). split_and!.
    + apply path_step; [done|exists rel, dir; by rewrite <- Hid| |].
      * apply list_elem_of_fmap. eauto.
      * intros Hx. rewrite Hpath in C. apply not_true_iff_false in C. apply C, contains_spec, path_text_infix; [by apply path_plain| |done].
        destruct Hdb as [_ Hpl]. rewrite Forall_forall in Hpl. apply Hpl, list_elem_of_fmap. eauto.
    + exists e. cbn [b_id b_name b_depth b_path]. assert (p ++ [n_id e0; n_id e] = (p ++ [n_id e0]) ++ [n_id e]) as -> by (by rewrite <- app_assoc).
      split_and!; try done; [by rewrite last_snoc|rewrite length_app; cbn; lia|by rewrite path_text_snoc, Hpath].
    + rewrite length_app in *. cbn in *. lia.
Qed.
Lemma level_complete p : simple_path db edges name p -> exists b, b ∈ Nat.iter (pred (length p)) (flat_map (bfs_step edges db)) (bfs_start name db) /\ row_at b p.
Proof.
  induction 1 as [e He Hn|p x y Hp (b & Hb & (e0 & He0 & Hl & Hid & Hbn & Hlen & Hpath)) (rel & dir & Hin) Hy Hnew].
  - cbn. eexists. split; [apply list_elem_of_omap; exists e; split; [done|]; by rewrite bool_decide_true|].
    exists e. split_and!; try done. unfold path_text, comma_id. cbn. by rewrite app_nil_r.
  - apply list_elem_of_fmap in Hy as (e & -> & He). rewrite last_snoc in Hl. injection Hl as ->.
    assert (length (p ++ [n_id e0; n_id e]) = S (length (p ++ [n_id e0]))) as El by (rewrite !length_app; cbn; lia).
    eexists. split.
    + rewrite El, Hlen. cbn [pred]. rewrite Nat.iter_succ. rewrite Hlen in Hb. cbn [pred] in Hb. apply list_elem_of_In, in_flat_map. exists b. split; [by apply list_elem_of_In|].
      apply list_elem_of_In, step_elem. exists rel, dir, e. split_and!; [by rewrite Hid|done| |done].
      apply not_true_iff_false. rewrite Hpath, contains_spec, path_text_infix; [done|by apply path_plain|].
      destruct Hdb as [_ Hpl]. rewrite Forall_forall in Hpl. apply Hpl, list_elem_of_fmap. eauto.
    + exists e. cbn [b_id b_name b_depth b_path]. assert (p ++ [n_id e0; n_id e] = (p ++ [n_id e0]) ++ [n_id e]) as -> by (by rewrite <- app_assoc).
      split_and!; try done; [by rewrite last_snoc|rewrite length_app; cbn; lia|by rewrite path_text_snoc, Hpath].
Qed.

Lemma levels_elem d rows b : b ∈ bfs_levels d edges db rows <-> exists k, k <= d /\ b ∈ Nat.iter k (flat_map (bfs_step edges db)) rows.
Proof.
  revert rows. induction d as [|d IH]; intros rows; cbn [bfs_levels].
  - split; [intros H; by exists 0|]. intros (k & Hk & H). assert (k = 0) as -> by lia. done.
  - rewrite elem_of_app, IH. assert (forall k, Nat.iter k (flat_map (bfs_step edges db)) (flat_map (bfs_step edges db) rows)
      = Nat.iter (S k) (flat_map (bfs_step edges db)) rows) as Hit.
    { induction k as [|k IHk]; [done|]. by rewrite !Nat.iter_succ, IHk, Nat.iter_succ. }
    split.
    + intros [H|(k & Hk & H)]; [exists 0; split; [lia|done]|]. exists (S k). rewrite <- Hit. split; [lia|done].
    + intros ([|k] & Hk & H); [by left|right]. exists k. rewrite Hit. split; [lia|done].
Qed.
End traversal.

Lemma before_group_order : WeakOrder before_group (fun _ => True).
Proof.
  assert (forall a b, before_group a b = true <-> a.1 < b.1 \/ (a.1 = b.1 /\ String.ltb a.2 b.2 = true)) as H.
  { intros a b. unfold before_group. by rewrite orb_true_iff, andb_true_iff, Nat.ltb_lt, Nat.eqb_eq. }
  split.
  - intros x y _ _ Hxy%H. apply not_true_iff_false. intros Hyx%H. destruct Hxy as [?|[? S1]], Hyx as [?|[? S2]]; try lia.
    pose proof (before_asym (before := String.ltb) (P := fun _ => True) x.2 y.2 I I S1). congruence.
  - intros x y z _ _ _ Hxz%H. rewrite !H. destruct Hxz as [?|[? S]]; [lia|].
    destruct (before_cotrans (before := String.ltb) (P := fun _ => True) x.2 y.2 z.2 I I I S) as [T|T]; rewrite T; lia.
Qed.

(** C22. On a database whose identifiers are unique and hold no comma, a traversal
    lists, once each and in the order of depth and name, the names and depths of
    the notions at the end of a simple path of currently valid edges, of either
    direction, from a notion of the given name, of at least one edge and at most
    [max_depth]. *)
Theorem traversal_exact db name max_depth rel : stored db -> trim (utf8 name) <> [] ->
  let found := map (fun g => (g_depth g, g_notion g)) (bfs_search_filtered name max_depth rel db) in
  NoDup found /\ ordered before_group found
  /\ forall d n, (d, n) ∈ found <-> 0 < d <= max_depth
       /\ exists p e, simple_path db (edge_set rel db) name p /\ length p = S d /\ last p = Some (n_id e) /\ e ∈ notions db /\ n_name e = n.
Proof.
  intros Hdb Hname. unfold bfs_search_filtered. destruct (trim (utf8 name)) as [|c0 t0]; [done|].
  set (rows := filter (fun b => 0 < b_depth b) (bfs_levels max_depth (edge_set rel db) db (bfs_start name db))).
  rewrite map_map. cbn [group_of g_depth g_notion]. assert (forall l : list (nat * string), map (fun x => (x.1, x.2)) l = l) as ->.
  { induction l as [|[a b] l IH]; [done|]. cbn. by rewrite IH. }
  split_and!.
  - rewrite sort_by_perm. apply NoDup_remove_dups.
  - apply (sort_by_ordered (P := fun _ => True) before_group (H := before_group_order)). by apply Forall_true.
  - intros d n. rewrite sort_by_perm, elem_of_remove_dups, list_elem_of_fmap. unfold rows. setoid_rewrite list_elem_of_filter.
    setoid_rewrite levels_elem. split.
    + intros (b & [= -> ->] & Hd & k & Hk & Hb). apply (level_sound db Hdb) in Hb as (p & Hp & (e & He & Hl & _ & Hn & Hlen & _) & Hlk).
      assert (k = b_depth b) by lia. split; [lia|]. exists p, e. by rewrite Hn.
    + intros (Hd & p & e & Hp & Hlen & Hl & He & <-). destruct (level_complete db Hdb _ _ p Hp) as (b & Hb & (e' & He' & Hl' & Hid & Hn & Hlb & _)).
      assert (e = e') as -> by (apply (id_unique db Hdb); [done|done|congruence]).
      exists b. assert (b_depth b = d) by lia. split; [by rewrite Hn; f_equal|]. split; [lia|]. exists d. rewrite Hlen in Hb. split; [lia|done].
Qed.

(** ** Runs on a small graph

    The witnesses of the properties of the graph, and the closed runs that go
    wrong: an assertion that arrives late, an alias repaired into another, a stage
    pruned too early, and notions that no seed reaches. *)

Local Open Scope string_scope.

#[local] Instance rowid_order : Scan := {| scan A l := l; scan_perm A l := reflexivity l |}.
#[local] Instance ascii_nfc : Nfc := fun t => t.
#[local] Instance ascii_lowercase : Lowercase.
Proof. by refine {| lower_char c := [ascii_lower c] |}. Defined.

Definition empty_graph : graph_db := {| notions := []; aliases := []; relationships := []; stages := [] |}.
Definition or_same (db : graph_db) (r : result graph_db constraint) : graph_db := match r with Ok db' => db' | Err _ => db end.
Definition notion (id name : string) (db : graph_db) : graph_db := or_same db (insert_entity id name "concept" "2026-01-01" db).
Definition fact (id source type target at_ : string) : InsertRelationshipRequest :=
  {| q_id := id; q_source := source; q_target := target; q_type := type; q_confidence := f64_of 1; q_note_ids := None; q_created_at := at_;
     q_description := None; q_valid_from := None; q_valid_until := None; q_weight := None |}.
Definition assert_fact (q : InsertRelationshipRequest) (db : graph_db) : graph_db :=
  match insert_relationship_temporal q db with Ok (db', _) => db' | Err _ => db end.

Definition people : graph_db := notion "n3" "beta" (notion "n2" "acme" (notion "n1" "ada" empty_graph)).
Definition hired : graph_db := assert_fact (fact "r1" "n1" "works_at" "n2" "2026-02-01") people.
Definition moved : graph_db := assert_fact (fact "r2" "n1" "works_at" "n3" "2026-03-01") hired.
Definition employers (ts : string) (db : graph_db) : list string := map r_target (relationships_as_of ts db).

Example facts_over_time : employers "2026-01-15" moved = [] /\ employers "2026-02-15" moved = ["n2"] /\ employers "2026-03-15" moved = ["n3"].
Proof. by vm_compute. Qed.

(** The older fact arrives last: it closes the newer one at a time before it began,
    so that the newer one was never valid. *)
Example late_arrival : let db := assert_fact (fact "r2" "n1" "works_at" "n3" "2026-01-01") hired in
  employers "2026-02-15" db = ["n3"] /\ (forall ts, "n2" ∉ employers ts db).
Proof.
  split; [by vm_compute|]. intros ts H. apply list_elem_of_fmap in H as (r & E & Hr). unfold relationships_as_of in Hr.
  rewrite sort_by_perm, list_elem_of_filter in Hr. destruct Hr as [V Hr].
  assert (r = close "2026-01-01" (relation_of (fact "r1" "n1" "works_at" "n2" "2026-02-01"))) as ->.
  { apply elem_of_cons in Hr as [->|Hr]; [by vm_compute|]. apply list_elem_of_singleton in Hr as ->. by vm_compute in E. }
  unfold valid_at in V. cbn in V. apply andb_true_iff in V as [V1 V2]. rewrite ltb_leb in V2. apply negb_true_iff in V2.
  assert (String.leb "2026-01-01" ts = true) as V3 by (eapply leb_trans; [|exact V1]; by vm_compute). congruence.
Qed.

(** The canonical form of a canonical form is another: the pass that repairs
    aliases takes a row that [insert_alias] wrote for a legacy one, and the alias is
    not found afterwards. *)
Definition with_alias : graph_db := or_same people (insert_alias "Node.js.js" "n2" people).
Example alias_repaired_away :
  normalize_alias "Node.js.js" = "node.js" /\ normalize_alias "node.js" = "node"
  /\ resolve_alias "Node.js.js" with_alias = Some "n2"
  /\ (let '(db, n) := normalize_aliases_pass with_alias in n = 1 /\ resolve_alias "Node.js.js" (or_same with_alias db) = None).
Proof. by vm_compute. Qed.

(** A young row of a path that is gone is pruned with an old one. *)
Example young_stage_pruned :
  let db := record_note_stage "inbox/a.md" "h2" "distilled" "2026-03-01" (record_note_stage "inbox/a.md" "h1" "distilled" "2026-01-01" empty_graph) in
  load_note_stages "distilled" (prune_note_stages "2026-02-01" (fun _ => false) db).1 = [].
Proof. by vm_compute. Qed.

(** A notion that no edge joins to the seed is ranked with the others, with a
    score of zero. *)
Example unreached_is_ranked : exists ranked, (personalized_pagerank ["ada"] 20 (f64_div (f64_of 85) (f64_of 100)) (f64_div (f64_of 15) (f64_of 100)) 0
    hired None).1 = Done ranked /\ map fst ranked = ["ada"; "acme"; "beta"] /\ ("beta", f64_zero) ∈ ranked.
Proof. eexists. split; [by vm_compute|]. split; [done|]. do 2 right. left. Qed.

(** *** Witnesses *)

Lemma moved_history : fact_history "2026-03-01" moved.
Proof.
  apply (history_step "2026-02-01" _ hired); [|done|].
  - apply (history_step "2026-01-01" _ people); [|done|].
    + apply (history_step "" _ empty_graph); [by apply history_start|done|]. by apply step_other.
    + eapply (step_insert _ (fact "r1" "n1" "works_at" "n2" "2026-02-01") people hired); [done|]. by vm_compute.
  - eapply (step_insert _ (fact "r2" "n1" "works_at" "n3" "2026-03-01") hired moved); [done|]. by vm_compute.
Qed.
Lemma one_fact_at_a_time_witness : exists r, r ∈ relationships_as_of "2026-02-15" moved /\ r_target r = "n2"
  /\ forall r', r' ∈ relationships_as_of "2026-02-15" moved -> same_fact r r' -> r_target r = r_target r'.
Proof.
  eexists. split; [vm_compute; left|]. split; [done|]. intros r' H1 H2.
  eapply (one_fact_at_a_time "2026-03-01" moved "2026-02-15"); [apply moved_history|vm_compute; left|exact H1|exact H2].
Defined.

Lemma past_is_kept_witness : exists n, insert_relationship_temporal (fact "r2" "n1" "works_at" "n3" "2026-03-01") hired = Ok (moved, n)
  /\ ("r1" ∈ map r_id (relationships_as_of "2026-02-15" moved) <-> "r1" ∈ map r_id (relationships_as_of "2026-02-15" hired)).
Proof.
  exists 1. assert (insert_relationship_temporal (fact "r2" "n1" "works_at" "n3" "2026-03-01") hired = Ok (moved, 1)) as E by (by vm_compute).
  split; [exact E|]. apply (past_is_kept (fact "r2" "n1" "works_at" "n3" "2026-03-01") hired moved 1 "2026-02-15" E); [by vm_compute|done].
Defined.

Lemma pagerank_total_witness : exists res, (personalized_pagerank ["ada"] 3 (f64_of 1) f64_zero 0 moved None).1 = Done res
  /\ map fst res ≡ₚ map n_name (notions moved).
Proof.
  destruct (pagerank_total ["ada"] 3 (f64_of 1) f64_zero 0 moved None moved eq_refl) as (res & E & [[_ H]|H] & _); exists res; (split; [exact E|]).
  - exfalso. destruct (H "ada") as [Hn _]; [by left|]. apply Hn. vm_compute. left.
  - exact H.
Defined.

Lemma communities_partition_witness : exists cs, (compute_communities (HIter := backwards) (f64_of 1) 0 moved None).1 = Done cs
  /\ (forall x, x ∈ concat (map names cs) <-> connected (build_core moved) x) /\ connected (build_core moved) "ada".
Proof.
  destruct (communities_partition (HIter := backwards) (f64_of 1) 0 moved None moved eq_refl) as (cs & E & _ & H & _).
  exists cs. split; [exact E|]. split; [exact H|]. exists "beta". left. exists 1, 2, [1]. split; [by vm_compute|]. split; [by left|].
  split; [by vm_compute|]. by split; [by vm_compute|].
Defined.

Lemma communities_deterministic_witness :
  compute_communities (HIter := in_order) (f64_of 1) 0 moved None = compute_communities (HIter := backwards) (f64_of 1) 0 moved None.
Proof. apply (communities_deterministic in_order backwards (f64_of 1) 0 moved None moved); by vm_compute. Defined.

Lemma moved_stored : stored moved.
Proof.
  split; [apply (bool_decide_eq_true_1 _); by vm_compute|]. repeat constructor; try (by vm_compute); apply (bool_decide_eq_true_1 _); by vm_compute.
Qed.
Lemma traversal_exact_witness : stored moved /\ (1, "beta") ∈ map (fun g => (g_depth g, g_notion g)) (bfs_search "ada" 3 moved)
  /\ exists p e, simple_path moved (edge_set "" moved) "ada" p /\ length p = 2 /\ last p = Some (n_id e) /\ e ∈ notions moved /\ n_name e = "beta".
Proof.
  assert ((1, "beta") ∈ map (fun g => (g_depth g, g_notion g)) (bfs_search "ada" 3 moved)) as H by (vm_compute; left).
  split; [exact moved_stored|]. split; [exact H|].
  destruct (traversal_exact moved "ada" 3 "" moved_stored) as (_ & _ & T); [by vm_compute|]. by apply T in H as [_ H].
Defined.
