(* ===== verification/Embeddings.v ===== *)
(** * Embeddings

    Models zen-vault/src/tindy/embeddings.rs over the router of
    zen-provider/src/embedding.rs: chunks of words, the providers with their flags
    of death, the vector made of hashes when none answers, padding, normalisation
    and the mean over chunks, in binary32.  What a provider answers at its n-th call
    is the parameter [embed]. *)

From S2P Require Import Prelude Text Ordering.
From Stdlib Require Import Lia SpecFloat.
Local Open Scope list_scope.

(** ** Binary32 *)

Abbreviation f32 := spec_float.
Definition f32_of_N (n : N) : f32 := binary_normalize 24 128 (Z.of_N n) 0 false.
Definition f32_add (a b : f32) : f32 := SFadd 24 128 a b.
Definition f32_sub (a b : f32) : f32 := SFsub 24 128 a b.
Definition f32_mul (a b : f32) : f32 := SFmul 24 128 a b.
Definition f32_div (a b : f32) : f32 := SFdiv 24 128 a b.
Definition f32_sqrt (a : f32) : f32 := SFsqrt 24 128 a.
(** The literal that is the quotient of two integers, rounded once. *)
Definition f32_lit (p q : positive) : f32 := SFdiv 24 128 (S754_finite false p 0) (S754_finite false q 0).
Definition f32_zero : f32 := S754_zero false.
Definition f32_sum (l : list f32) : f32 := foldl f32_add (S754_zero true) l.
Definition f32_finite (x : f32) : bool := match x with S754_zero _ | S754_finite _ _ _ => true | _ => false end.

(** ** Vectors *)

Definition SYSTEM_EMBEDDING_DIM : nat := N.to_nat 4096.
Definition pad_to_dim (v : list f32) (target : nat) : list f32 := take target v ++ replicate (target - length v) f32_zero.
Definition square_sum (v : list f32) : f32 := f32_sum (map (fun x => f32_mul x x) v).
Definition l2_normalize (v : list f32) : list f32 :=
  let norm := f32_sqrt (square_sum v) in
  if SFltb (f32_lit 1 (10 ^ 8)) norm then map (fun x => f32_div x norm) v else v.

Definition wrapping_mul64 (a b : N) : N := ((a * b) mod 2 ^ 64)%N.
Definition wrapping_add64 (a b : N) : N := ((a + b) mod 2 ^ 64)%N.
(** One byte of the content: the two hashes, and the places they choose. *)
Definition hash_byte (s : N * N * list f32) (x : nat * N) : N * N * list f32 :=
  let '(hasher1, hasher2, embedding) := s in
  let '(i, byte) := x in
  let hasher1 := wrapping_add64 (wrapping_mul64 hasher1 31) byte in
  let hasher2 := wrapping_add64 (wrapping_mul64 hasher2 37) (wrapping_add64 byte (N.of_nat i)) in
  let bin1 := N.to_nat (hasher1 mod N.of_nat SYSTEM_EMBEDDING_DIM) in
  let bin2 := N.to_nat (hasher2 mod N.of_nat SYSTEM_EMBEDDING_DIM) in
  let sign := if (N.land hasher1 1 =? 0)%N then f32_lit 1 1 else S754_finite true 8388608 (-23) in
  let weight := f32_sub (f32_mul (f32_div (f32_of_N (N.land hasher2 255)) (f32_of_N 255)) (f32_of_N 2)) (f32_of_N 1) in
  let embedding := alter (fun x => f32_add x (f32_mul sign weight)) bin1 embedding in
  let embedding := alter (fun x => f32_sub x (f32_mul (f32_mul sign weight) (f32_lit 1 2))) bin2 embedding in
  (hasher1, hasher2, embedding).
Definition position_noise (i : nat) (x : f32) : f32 :=
  let pos_hash := wrapping_mul64 (N.of_nat i) 2654435761 in
  f32_add x (f32_mul (f32_sub (f32_div (f32_of_N (N.land pos_hash 255)) (f32_of_N 255)) (f32_lit 1 2)) (f32_lit 1 10)).
Definition bytes_of (t : text) : list N := flat_map utf8_encode_char t.
Definition hash_embedding (content : text) : list f32 :=
  let bytes := bytes_of content in
  let start := ((2 ^ 64 - 1)%N, 0x811C9DC5%N, replicate SYSTEM_EMBEDDING_DIM f32_zero) in
  let '(_, _, embedding) := foldl hash_byte start (zip (seq 0 (length bytes)) bytes) in
  l2_normalize (imap position_noise embedding).

(** ** Chunks *)

(** [slice::chunks]. *)
Fixpoint chunks_go {A} (fuel n : nat) (l : list A) : list (list A) :=
  match fuel, l with
  | S f, _ :: _ => take n l :: chunks_go f n (drop n l)
  | _, _ => []
  end.
Definition chunks {A} (n : nat) (l : list A) : list (list A) := chunks_go (length l) n l.
Fixpoint join_spaces (l : list text) : text :=
  match l with
  | [] => []
  | [t] => t
  | t :: rest => t ++ 32%N :: join_spaces rest
  end.
Definition chunk_content (content : text) (chunk_size overlap : nat) : list text :=
  let words := split_whitespace content in
  match words with
  | [] => []
  | _ :: _ =>
    let step := chunk_size - overlap in
    if (step =? 0)%nat then [content]
    else omap (fun x => if (x.1 =? 0)%nat || (x.1 * step <? length words)%nat then Some (join_spaces x.2) else None)
              (zip (seq 0 (length (chunks chunk_size words))) (chunks chunk_size words))
  end.

(** ** Providers *)

(** [dead], and the calls made so far. *)
Record embed_router := { dead : list bool; calls : nat }.
Definition called (r : embed_router) : embed_router := {| dead := dead r; calls := S (calls r) |}.
Definition mark_dead (i : nat) (r : embed_router) : embed_router := {| dead := <[i := true]> (dead r); calls := calls r |}.
Definition with_providers (n : nat) : embed_router := {| dead := replicate n false; calls := 0 |}.

Section providers.
Context (embed : nat -> nat -> text -> option (list f32)).

(** The providers from the i-th on; the flags are read before the first call. *)
Fixpoint try_providers (snapshot : list bool) (i : nat) (t : text) (r : embed_router) : option (list f32) * embed_router :=
  match snapshot with
  | [] => (None, r)
  | true :: rest => try_providers rest (S i) t r
  | false :: rest =>
    match embed i (calls r) t with
    | Some v => (Some v, called r)
    | None =>
      let r := called r in
      match embed i (calls r) t with
      | Some v => (Some v, called r)
      | None => try_providers rest (S i) t (mark_dead i (called r))
      end
    end
  end.
Definition embed_sync (t : text) (r : embed_router) : option (list f32) * embed_router := try_providers (dead r) 0 t r.

(** ** Embedding a text: the vector, and whether it is made of hashes *)

Definition degenerate (v : list f32) : bool := existsb (fun x => negb (f32_finite x)) v || SFltb (square_sum v) (f32_lit 1 (10 ^ 12)).
Definition compute_embedding_with_fallback (t : text) (r : embed_router) : (list f32 * bool) * embed_router :=
  match embed_sync t r with
  | (Some v, r) => (if degenerate v then (hash_embedding t, true) else (l2_normalize (pad_to_dim v SYSTEM_EMBEDDING_DIM), false), r)
  | (None, r) => ((hash_embedding t, true), r)
  end.
Definition zeros : list f32 := replicate SYSTEM_EMBEDDING_DIM f32_zero.
Definition compute_embeddings (t : text) (r : embed_router) : (list f32 * bool) * embed_router :=
  match trim t with [] => ((zeros, false), r) | _ => compute_embedding_with_fallback t r end.

Definition add_vector (aggregated v : list f32) : list f32 :=
  imap (fun i x => match v !! i with Some y => f32_add x y | None => x end) aggregated.
Definition add_chunk (s : (list f32 * bool) * embed_router) (chunk : text) : (list f32 * bool) * embed_router :=
  let '(e, r) := compute_embedding_with_fallback chunk s.2 in
  ((add_vector s.1.1 e.1, s.1.2 || e.2), r).
Definition aggregate_chunks_tagged (cs : list text) (r : embed_router) : (list f32 * bool) * embed_router :=
  let '((aggregated, degraded), r) := foldl add_chunk ((zeros, false), r) cs in
  let mean := match cs with [] => aggregated | _ => map (fun x => f32_div x (f32_of_N (N.of_nat (length cs)))) aggregated end in
  ((l2_normalize mean, degraded), r).
Definition compute_embeddings_for_text_tagged (t : text) (r : embed_router) : (list f32 * bool) * embed_router :=
  match chunk_content t 400 80 with
  | [] => ((zeros, false), r)
  | [chunk] => compute_embeddings chunk r
  | cs => aggregate_chunks_tagged cs r
  end.
End providers.

(** ** The dimension *)

Lemma l2_length v : length (l2_normalize v) = length v.
Proof. unfold l2_normalize. destruct (SFltb _ _); [apply length_map|done]. Qed.
Lemma pad_length v n : length (pad_to_dim v n) = n.
Proof. unfold pad_to_dim. rewrite length_app, length_take, length_replicate. lia. Qed.
Lemma zeros_length : length zeros = SYSTEM_EMBEDDING_DIM.
Proof. apply length_replicate. Qed.
Lemma hash_bytes_length l s : length (foldl hash_byte s l).2 = length s.2.
Proof.
  revert s. induction l as [|[i b] l IH]; intros [[h1 h2] e]; cbn [foldl]; [done|]. rewrite IH. cbn [hash_byte snd].
  by rewrite !length_alter.
Qed.
Lemma hash_length t : length (hash_embedding t) = SYSTEM_EMBEDDING_DIM.
Proof.
  unfold hash_embedding. set (s := (_, _, replicate _ _)). pose proof (hash_bytes_length (zip (seq 0 (length (bytes_of t))) (bytes_of t)) s) as H.
  destruct (foldl _ s _) as [[h1 h2] e]. cbn [snd] in H. rewrite l2_length, length_imap, H. apply length_replicate.
Qed.

Section properties.
Context (embed : nat -> nat -> text -> option (list f32)).

Lemma fallback_length t r : length (compute_embedding_with_fallback embed t r).1.1 = SYSTEM_EMBEDDING_DIM.
Proof.
  unfold compute_embedding_with_fallback. destruct (embed_sync embed t r) as [[v|] r']; cbn [fst]; [|apply hash_length].
  destruct (degenerate v); cbn [fst]; [apply hash_length|]. by rewrite l2_length, pad_length.
Qed.
Lemma add_chunks_length cs s : length s.1.1 = SYSTEM_EMBEDDING_DIM -> length (foldl (add_chunk embed) s cs).1.1 = SYSTEM_EMBEDDING_DIM.
Proof.
  revert s. induction cs as [|c cs IH]; intros s Hs; cbn [foldl]; [done|]. apply IH. unfold add_chunk.
  destruct (compute_embedding_with_fallback embed c s.2) as [e r]. cbn [fst]. unfold add_vector. by rewrite length_imap.
Qed.

(** ** What the flag says *)

(** [t] was embedded by a provider, at some call. *)
Definition served (t : text) : Prop := exists i n v, embed i n t = Some v /\ degenerate v = false.
Lemma try_served snapshot i t r v r' : try_providers embed snapshot i t r = (Some v, r') -> exists i n, embed i n t = Some v.
Proof.
  revert i r. induction snapshot as [|[] rest IH]; intros i r; cbn [try_providers]; [done|apply IH|].
  destruct (embed i (calls r) t) as [w|] eqn:E; [intros [= <- _]; by exists i, (calls r)|].
  destruct (embed i (calls (called r)) t) as [w|] eqn:E2; [intros [= <- _]; by exists i, (calls (called r))|]. apply IH.
Qed.
Lemma fallback_served t r : (compute_embedding_with_fallback embed t r).1.2 = false -> served t.
Proof.
  unfold compute_embedding_with_fallback, embed_sync. destruct (try_providers _ _ _ _ _) as [[v|] r'] eqn:E; [|done].
  destruct (degenerate v) eqn:D; [done|]. intros _. destruct (try_served _ _ _ _ _ _ E) as (i & n & Hv). by exists i, n, v.
Qed.
Lemma add_chunks_served cs s : (foldl (add_chunk embed) s cs).1.2 = false -> s.1.2 = false /\ Forall served cs.
Proof.
  revert s. induction cs as [|c cs IH]; intros s; cbn [foldl]; [done|]. intros [H Hcs]%IH. unfold add_chunk in H.
  destruct (compute_embedding_with_fallback embed c s.2) as [e r] eqn:E. cbn [fst snd] in H. apply orb_false_iff in H as [H1 H2].
  split; [done|]. constructor; [|done]. apply (fallback_served c s.2). by rewrite E.
Qed.

(** ** Death *)

Lemma all_dead snapshot i t r : Forall (fun b => b = true) snapshot -> try_providers embed snapshot i t r = (None, r).
Proof. intros H. revert i. induction H as [|b l -> _ IH]; intros i; cbn [try_providers]; [done|apply IH]. Qed.
End properties.

(** ** Chunks *)

Lemma chunks_concat {A} fuel n (l : list A) : 0 < n -> length l <= fuel -> concat (chunks_go fuel n l) = l.
Proof.
  intros Hn. revert l. induction fuel as [|f IH]; intros [|x l] Hl; try done; [cbn in Hl; lia|]. cbn [chunks_go concat].
  rewrite IH; [apply take_drop|]. rewrite length_drop. cbn in *. lia.
Qed.
Lemma chunks_index {A} fuel n (l : list A) i c : 0 < n -> chunks_go fuel n l !! i = Some c -> i * n < length l.
Proof.
  intros Hn. revert l i. induction fuel as [|f IH]; intros [|x l] i; try done. cbn [chunks_go]. destruct i as [|i]; cbn [lookup list_lookup]; [cbn; lia|].
  intros H%IH. rewrite length_drop in H. cbn in *. lia.
Qed.
Lemma chunks_short {A} fuel n (l : list A) : Forall (fun c => length c <= n) (chunks_go fuel n l).
Proof.
  revert l. induction fuel as [|f IH]; intros [|x l]; try constructor; [|apply IH]. rewrite length_take. lia.
Qed.
Lemma omap_keep {A} (cs : list A) (p : nat -> bool) (f : A -> text) n : (forall i c, cs !! i = Some c -> p (n + i) = true) ->
  omap (fun x => if p x.1 then Some (f x.2) else None) (zip (seq n (length cs)) cs) = map f cs.
Proof.
  revert n. induction cs as [|c cs IH]; intros n H; cbn [length seq zip]; [done|]. cbn [omap list_omap zip_with]. cbn [fst snd].
  pose proof (H 0 c eq_refl) as H0. rewrite Nat.add_0_r in H0. rewrite H0. cbn [map]. f_equal. apply (IH (S n)).
  intros i d Hd. specialize (H (S i) d Hd). by rewrite Nat.add_succ_r in H.
Qed.
Lemma chunk_content_chunks content size overlap : overlap < size ->
  chunk_content content size overlap = map join_spaces (chunks size (split_whitespace content)).
Proof.
  intros Hs. unfold chunk_content, chunks. destruct (split_whitespace content) as [|w ws] eqn:E; [done|].
  destruct (Nat.eqb_spec (size - overlap) 0); [lia|]. rewrite <- E.
  apply (omap_keep _ (fun i => (i =? 0) || (i * (size - overlap) <? length (split_whitespace content))) join_spaces 0). intros i c Hi. rewrite Nat.add_0_l.
  apply chunks_index in Hi; [|lia]. apply orb_true_iff. right. apply Nat.ltb_lt. nia.
Qed.

Lemma aggregate_length embed cs r : length (aggregate_chunks_tagged embed cs r).1.1 = SYSTEM_EMBEDDING_DIM.
Proof.
  unfold aggregate_chunks_tagged. pose proof (add_chunks_length embed cs ((zeros, false), r) zeros_length) as HL.
  destruct (foldl _ _ cs) as [[v d] r']. cbn [fst snd] in *. rewrite l2_length. by destruct cs; rewrite ?length_map.
Qed.
Lemma tagged_length embed t r v d : (compute_embeddings_for_text_tagged embed t r).1 = (v, d) -> length v = SYSTEM_EMBEDDING_DIM.
Proof.
  intros H. assert (length (compute_embeddings_for_text_tagged embed t r).1.1 = SYSTEM_EMBEDDING_DIM) as HL; [|by rewrite H in HL].
  unfold compute_embeddings_for_text_tagged. destruct (chunk_content t 400 80) as [|c [|c2 cs]]; [apply zeros_length| |apply aggregate_length].
  unfold compute_embeddings. destruct (trim c); [apply zeros_length|apply fallback_length].
Qed.

Lemma embedding_flag embed t r : (compute_embeddings_for_text_tagged embed t r).1.2 = false ->
  Forall (fun c => trim c = [] \/ served embed c) (chunk_content t 400 80).
Proof.
  unfold compute_embeddings_for_text_tagged. destruct (chunk_content t 400 80) as [|c [|c2 cs]]; [done| |].
  - intros E. constructor; [|done]. unfold compute_embeddings in E. destruct (trim c) as [|x u]; [by left|right].
    by apply (fallback_served embed c r).
  - unfold aggregate_chunks_tagged. pose proof (add_chunks_served embed (c :: c2 :: cs) ((zeros, false), r)) as HS.
    destruct (foldl _ _ _) as [[w d] r2]. cbn [fst snd] in *. intros Hd. destruct (HS Hd) as [_ H]. apply (Forall_impl _ _ _ H). auto.
Qed.

(** Embedding a text never fails, and gives a vector of the dimension of the
    index; when the flag says that it is not degraded, a provider gave a vector that
    is finite and not nearly zero for every chunk of it. *)
Theorem embedding_total embed t r :
  let '((v, degraded), _) := compute_embeddings_for_text_tagged embed t r in
  length v = SYSTEM_EMBEDDING_DIM /\ (degraded = false -> Forall (fun c => trim c = [] \/ served embed c) (chunk_content t 400 80)).
Proof.
  pose proof (embedding_flag embed t r) as HF. destruct (compute_embeddings_for_text_tagged embed t r) as [[v degraded] r'] eqn:E.
  split; [apply (tagged_length embed t r v degraded); by rewrite E|done].
Qed.

(** The chunks of a text are its words in runs of the size, one after the other,
    and the last may be shorter: none is in two chunks, whatever the overlap asked
    for. *)
Theorem chunks_do_not_overlap content size overlap : overlap < size ->
  exists runs, chunk_content content size overlap = map join_spaces runs /\ concat runs = split_whitespace content
  /\ Forall (fun run => length run <= size) runs.
Proof.
  intros Hs. exists (chunks size (split_whitespace content)). split_and!; [by apply chunk_content_chunks| |apply chunks_short].
  apply chunks_concat; lia.
Qed.
Lemma chunks_do_not_overlap_witness : chunk_content (utf8 "one two  three four five") 2 1 = map utf8 ["one two"; "three four"; "five"] /\
  exists runs, chunk_content (utf8 "one two  three four five") 2 1 = map join_spaces runs /\ concat runs = split_whitespace (utf8 "one two  three four five")
  /\ Forall (fun run => length run <= 2) runs.
Proof. split; [reflexivity|]. apply (chunks_do_not_overlap (utf8 "one two  three four five") 2 1). lia. Defined.

(** A provider that failed twice in a row is never called again: when all have,
    no text is embedded by one. *)
Theorem dead_stay_dead embed t r : Forall (fun b => b = true) (dead r) ->
  compute_embedding_with_fallback embed t r = ((hash_embedding t, true), r).
Proof. intros H. unfold compute_embedding_with_fallback, embed_sync. by rewrite all_dead. Qed.
(** Two failures of the only provider, which answers from its third call on. *)
Definition recovering (i n : nat) (t : text) : option (list f32) := if (n <? 2)%nat then None else Some [f32_of_N 1].
Lemma dead_stay_dead_witness : let r := (compute_embedding_with_fallback recovering (utf8 "a") (with_providers 1)).2 in
  dead r = [true] /\ compute_embedding_with_fallback recovering (utf8 "b") r = ((hash_embedding (utf8 "b"), true), r).
Proof.
  intros r. assert (dead r = [true]) as H by reflexivity. split; [exact H|]. apply (dead_stay_dead recovering (utf8 "b") r). rewrite H. by constructor.
Defined.
