(* ===== verification/Notes.v ===== *)
(** * Notes and their front matter

    Models zen-vault/src/note.rs: the front matter that [write_note] puts before
    the body of a note, and the reader of it.  [chrono] is the class [Chrono]: how an
    instant is written, read, and made a file name. *)

From S2P Require Import Prelude Types Text Sanitize.
From Stdlib Require Import Lia.
Local Open Scope list_scope.

Class Chrono (T : Type) := {
  to_rfc3339 : T -> text;
  parse_datetime : text -> option T;
  file_stamp : T -> text;
}.

(** ** Domains *)

Inductive Domain := Work | Personal | Learning | Finance | Health.
#[export] Instance Domain_eq_dec : EqDecision Domain.
Proof. solve_decision. Defined.
Definition domain_str (d : Domain) : string :=
  match d with Work => "work" | Personal => "personal" | Learning => "learning" | Finance => "finance" | Health => "health" end.

(** The names a note uses. *)
Definition sensitivity_name (s : Sensitivity) : string :=
  match s with Public => "public" | Private => "private" | Confidential => "confidential" end.

Section domains.
Context {HL : Lowercase}.
Definition domain_from_str (s : text) : option Domain :=
  List.find (fun d => bool_decide (to_lowercase s = utf8 (domain_str d))) [Work; Personal; Learning; Finance; Health].
Definition parse_sensitivity (value : text) : option Sensitivity :=
  List.find (fun s => bool_decide (to_lowercase value = utf8 (sensitivity_name s))) [Public; Private; Confidential].
End domains.

(** ** Notes *)

Record Note {T : Type} := {
  note_id : text; note_tags : list text; note_source : text; note_source_id : option text; note_sensitivity : Sensitivity;
  note_created_at : T; note_updated_at : T; note_domain : list Domain; note_project : option text; note_para : option text;
  note_okf_type : option text; note_description : option text; note_content : text; note_file_path : option text;
}.
Arguments Note T : clear implicits.

Definition default_note {T} (now : T) : Note T :=
  {| note_id := []; note_tags := []; note_source := []; note_source_id := None; note_sensitivity := Private;
     note_created_at := now; note_updated_at := now; note_domain := []; note_project := None; note_para := None;
     note_okf_type := None; note_description := None; note_content := []; note_file_path := None |}.

Definition validate_para (para : option text) : bool :=
  match para with
  | None => true
  | Some p => existsb (fun c => bool_decide (p = utf8 c)) ["projects"; "areas"; "resources"; "archive"]%string
  end.

(** One field replaced. *)
Inductive field {T : Type} :=
  | FId (v : text) | FSource (v : text) | FSourceId (v : text) | FProject (v : text) | FPara (v : text) | FType (v : text)
  | FDescription (v : text) | FTags (v : list text) | FSensitivity (s : Sensitivity) | FDomain (d : list Domain)
  | FCreated (t : T) | FUpdated (t : T) | FContent (v : text) | FPath (v : text).
Arguments field T : clear implicits.
Definition assign {T} (n : Note T) (f : field T) : Note T :=
  {| note_id := match f with FId v => v | _ => note_id n end;
     note_tags := match f with FTags v => v | _ => note_tags n end;
     note_source := match f with FSource v => v | _ => note_source n end;
     note_source_id := match f with FSourceId v => Some v | _ => note_source_id n end;
     note_sensitivity := match f with FSensitivity s => s | _ => note_sensitivity n end;
     note_created_at := match f with FCreated t => t | _ => note_created_at n end;
     note_updated_at := match f with FUpdated t => t | _ => note_updated_at n end;
     note_domain := match f with FDomain d => d | _ => note_domain n end;
     note_project := match f with FProject v => Some v | _ => note_project n end;
     note_para := match f with FPara v => Some v | _ => note_para n end;
     note_okf_type := match f with FType v => Some v | _ => note_okf_type n end;
     note_description := match f with FDescription v => Some v | _ => note_description n end;
     note_content := match f with FContent v => v | _ => note_content n end;
     note_file_path := match f with FPath v => Some v | _ => note_file_path n end |}.

(** ** The reader *)

Definition FENCE : text := utf8 "---".
Definition QUOTE : char := 34%N.
Definition has_frontmatter (t : text) : bool := starts_with (trim_start t) FENCE.
Definition extract_front_matter (t : text) : result (text * text) text :=
  let t := trim_start t in
  if negb (has_frontmatter t) then Err (utf8 "missing leading --- delimiter")
  else
    let rest := drop 3 t in
    match find rest FENCE with
    | None => Err (utf8 "missing closing --- delimiter")
    | Some end_pos => Ok (take end_pos rest, drop (end_pos + 3) rest)
    end.

Definition quoted_by (q : char) (raw : text) : bool := starts_with raw [q] && ends_with raw [q].
(** The slice from 1 to the length less 1. *)
Definition inside (raw : text) : text := removelast (tl raw).
Definition unquote (raw : text) : text :=
  if (2 <=? str_len raw)%nat && (quoted_by QUOTE raw || quoted_by 39%N raw) then inside raw else raw.
Definition parse_kv_line (line : text) : option (text * text) :=
  '(before, after) ← split_once 58%N line;
  let key := trim before in
  let value := unquote (trim after) in
  if bool_decide (key = []) then None else Some (key, value).

Definition is_quote (c : char) : bool := N.eqb c QUOTE || N.eqb c 39%N.
Definition parse_array (value : text) : list text :=
  let value := trim value in
  if negb (starts_with value (utf8 "[")) || negb (ends_with value (utf8 "]")) then [value]
  else
    let inner := inside value in
    if bool_decide (trim inner = []) then []
    else filter (fun s => s <> []) (map (fun s => trim_matches is_quote (trim s)) (split_on 44%N inner)).

Definition given (value : text) : bool := negb (existsb (fun v => bool_decide (value = v)) [[]; utf8 "null"; utf8 "~"]).
Definition error_of (what : string) (value : text) : text := utf8 what ++ value.

Section reader.
Context {T : Type} {HC : Chrono T} {HL : Lowercase}.

(** The domains before the first that is not one are pushed; the note is lost then. *)
Fixpoint parse_domains (items : list text) (acc : list Domain) : result (list Domain) text :=
  match items with
  | [] => Ok acc
  | item :: rest =>
    match domain_from_str item with
    | Some d => parse_domains rest (acc ++ [d])
    | None => Err (error_of "invalid domain: " item)
    end
  end.
Definition set_key (note : Note T) (key value : text) : result (Note T) text :=
  let named k := bool_decide (key = utf8 k) in
  if named "id"%string then Ok (assign note (FId value))
  else if named "source"%string then Ok (assign note (FSource value))
  else if named "source_id"%string && given value then Ok (assign note (FSourceId value))
  else if named "project"%string && given value then Ok (assign note (FProject value))
  else if named "para"%string && given value then Ok (assign note (FPara value))
  else if named "type"%string && given value then Ok (assign note (FType value))
  else if named "description"%string && given value then Ok (assign note (FDescription value))
  else if named "tags"%string then Ok (assign note (FTags (parse_array value)))
  else if named "sensitivity"%string then
    match parse_sensitivity value with
    | Some s => Ok (assign note (FSensitivity s))
    | None => Err (error_of "invalid sensitivity: " value)
    end
  else if named "domain"%string then
    let? d := parse_domains (parse_array value) (note_domain note) in Ok (assign note (FDomain d))
  else if named "created_at"%string then
    match parse_datetime value with
    | Some t => Ok (assign note (FCreated t))
    | None => Err (error_of "invalid created_at: " value)
    end
  else if named "updated_at"%string then
    match parse_datetime value with
    | Some t => Ok (assign note (FUpdated t))
    | None => Err (error_of "invalid updated_at: " value)
    end
  else Ok note.
Definition parse_line (note : Note T) (line : text) : result (Note T) text :=
  let line := trim line in
  if bool_decide (line = []) then Ok note
  else if starts_with line (utf8 "- ") then Ok note
  else match parse_kv_line line with
       | None => Err (error_of "invalid front-matter line: " line)
       | Some (key, value) => set_key note key value
       end.
Fixpoint parse_lines (ls : list text) (note : Note T) : result (Note T) text :=
  match ls with
  | [] => Ok note
  | line :: rest => let? note := parse_line note line in parse_lines rest note
  end.
Definition parse_frontmatter (now : T) (t : text) : result (Note T) text :=
  let? parts := extract_front_matter t in
  let? note := parse_lines (lines parts.1) (default_note now) in
  Ok (assign note (FContent (trim_start parts.2))).

(** ** The writer *)

Fixpoint join_comma (l : list text) : text :=
  match l with
  | [] => []
  | [t] => t
  | t :: rest => t ++ utf8 ", " ++ join_comma rest
  end.
Definition quoted (t : text) : text := [QUOTE] ++ t ++ [QUOTE].
Definition entry (key : string) (value : text) : text := utf8 key ++ utf8 ": " ++ value.
Definition array (l : list text) : text := utf8 "[" ++ join_comma l ++ utf8 "]".
Definition or_null (o : option text) : text := match o with Some t => quoted t | None => utf8 "null" end.
Definition front_lines (note : Note T) : list text :=
  [ entry "id" (quoted (note_id note));
    entry "tags" (array (map quoted (note_tags note)));
    entry "source" (quoted (note_source note));
    entry "source_id" (or_null (note_source_id note));
    entry "sensitivity" (utf8 (sensitivity_name (note_sensitivity note)));
    entry "created_at" (quoted (to_rfc3339 (note_created_at note)));
    entry "updated_at" (quoted (to_rfc3339 (note_updated_at note)));
    entry "domain" (array (map (fun d => utf8 (domain_str d)) (note_domain note)));
    entry "project" (or_null (note_project note)) ]
  ++ match note_para note with Some para => [entry "para" (quoted para)] | None => [] end
  ++ match note_okf_type note with Some okf_type => [entry "type" (quoted okf_type)] | None => [] end.
Definition front_matter (note : Note T) : text := flat_map (fun line => line ++ [10%N]) (front_lines note).
Definition full_content (note : Note T) : text := FENCE ++ [10%N] ++ front_matter note ++ FENCE ++ [10; 10]%N ++ note_content note.

(** [PathBuf::push] of a name. *)
Definition push_name (base name : text) : text :=
  if bool_decide (base = []) || ends_with base (utf8 "/") then base ++ name else base ++ utf8 "/" ++ name.
Definition note_path (note : Note T) (base_dir : text) : text :=
  push_name (push_name base_dir (utf8 "inbox")) (file_stamp (note_created_at note) ++ utf8 ".md").

(** The disk: what a directory or a file that cannot be written answers. *)
Class Disk := {
  create_dir_all : text -> option text;
  write_error : text -> option text;
}.
Context {HD : Disk}.
Definition write_note (note : Note T) (base_dir : text) (disk : gmap text text) : result text text * gmap text text :=
  match create_dir_all (push_name base_dir (utf8 "inbox")) with
  | Some e => (Err e, disk)
  | None =>
    let path := note_path note base_dir in
    match write_error path with
    | Some e => (Err e, disk)
    | None => (Ok path, <[path := full_content note]> disk)
    end
  end.

(** ** [NoteService::create_note]

    The title and the tags that are indexed; [index] is what the index does, whose
    failure is logged. *)
Definition new_note (id : text) (now : T) (t : text) (tags : list text) (source : text) : Note T :=
  {| note_id := id; note_tags := tags; note_source := source; note_source_id := None; note_sensitivity := Private;
     note_created_at := now; note_updated_at := now; note_domain := []; note_project := None; note_para := None;
     note_okf_type := None; note_description := None; note_content := t; note_file_path := None |}.
Definition title_of (t : text) : text := take 200 (match lines t with line :: _ => line | [] => t end).
Record IndexNoteRequest := { i_id : text; i_title : text; i_content : text; i_tags : text; i_file_path : text; i_source : text }.
Fixpoint join_with (sep : text) (l : list text) : text :=
  match l with
  | [] => []
  | [t] => t
  | t :: rest => t ++ sep ++ join_with sep rest
  end.
Definition create_note (id : text) (now : T) (vault : text) (t : text) (tags : list text) (source : text) (disk : gmap text text)
    : result (Note T * IndexNoteRequest) text * gmap text text :=
  let note := new_note id now t tags source in
  let '(written, disk) := write_note note vault disk in
  (let? path := written in
   Ok (assign note (FPath path),
       {| i_id := id; i_title := title_of t; i_content := t; i_tags := join_with (utf8 ",") tags; i_file_path := path; i_source := source |}), disk).
End reader.
