(* ===== verification/NotesProps.v ===== *)
(** * What is written is read back

    The front matter of [write_note] is what [parse_frontmatter] reads, for the notes
    whose fields keep to their lines; and what happens to the others. *)

From S2P Require Import Prelude Types Text Secrets Sanitize SanitizeProps Notes.
From Stdlib Require Import Lia.
Local Open Scope list_scope.

(** ** Trimming, and lines *)

Definition solid (c : char) : Prop := is_whitespace c = false.
Lemma trim_start_solid c t : solid c -> trim_start (c :: t) = c :: t.
Proof. intros H. cbn [trim_start]. by rewrite H. Qed.
(** Text between two characters that are not white space. *)
Definition tight (t : text) : Prop := t = [] \/ exists c d, head t = Some c /\ last t = Some d /\ solid c /\ solid d.
Lemma trim_tight t : tight t -> trim t = t.
Proof.
  intros [->|(c & d & Hc & Hd & Sc & Sd)]; [done|]. unfold trim. destruct t as [|x t]; [done|]. injection Hc as ->.
  rewrite trim_start_solid by done. apply last_Some in Hd as [u Hu]. rewrite Hu, rev_app_distr. cbn [rev app].
  rewrite trim_start_solid by done. cbn [rev]. by rewrite rev_involutive.
Qed.
Lemma trim_space t : tight t -> trim (32%N :: t) = t.
Proof. intros H. rewrite <- (trim_tight t H) at 2. done. Qed.

Lemma split_on_feed sep t u : sep ∉ t -> split_on sep (t ++ sep :: u) = t :: split_on sep u.
Proof.
  induction t as [|c t IH]; cbn [app split_on]; intros H; [by rewrite N.eqb_refl|].
  apply not_elem_of_cons in H as [Hc Ht]. destruct (N.eqb_spec c sep) as [->|_]; [done|]. by rewrite IH.
Qed.
Lemma split_on_none sep t : sep ∉ t -> split_on sep t = [t].
Proof.
  induction t as [|c t IH]; cbn [split_on]; intros H; [done|].
  apply not_elem_of_cons in H as [Hc Ht]. destruct (N.eqb_spec c sep) as [->|_]; [done|]. by rewrite IH.
Qed.
Lemma split_once_at sep t u : sep ∉ t -> split_once sep (t ++ sep :: u) = Some (t, u).
Proof.
  induction t as [|c t IH]; cbn [app split_once]; intros H; [by rewrite N.eqb_refl|].
  apply not_elem_of_cons in H as [Hc Ht]. destruct (N.eqb_spec c sep) as [->|_]; [done|]. by rewrite IH.
Qed.
Lemma split_feeds ls : Forall (fun l => 10%N ∉ l) ls -> split_on 10%N (flat_map (fun l => l ++ [10%N]) ls) = ls ++ [[]].
Proof.
  induction 1 as [|l ls Hl _ IH]; [done|]. cbn [flat_map]. rewrite <- app_assoc. cbn [app]. rewrite split_on_feed by done.
  by rewrite IH.
Qed.
Lemma lines_feeds ls : Forall (fun l => 10%N ∉ l) ls -> lines (flat_map (fun l => l ++ [10%N]) ls) = map chop_return ls.
Proof.
  intros H. unfold lines. rewrite split_feeds by done. rewrite last_snoc, removelast_last. apply app_nil_r.
Qed.
Lemma chop_return_solid t d : last t = Some d -> solid d -> chop_return t = t.
Proof.
  intros [u ->]%last_Some Hd. unfold chop_return, strip_suffix, ends_with. rewrite rev_app_distr. cbn [rev app starts_with].
  by destruct (N.eqb_spec 13 d) as [<-|N].
Qed.

(** The first fence is the one after text without a fence that ends outside of it. *)
Lemma find_first p u c v : p <> [] -> c ∉ p -> ~ infix p (u ++ [c]) -> find ((u ++ [c]) ++ p ++ v) p = Some (length (u ++ [c])).
Proof.
  intros Hp Hc Hi. destruct (find_infix _ p (u ++ [c]) v eq_refl) as (n & Hn & Hle). rewrite Hn. f_equal.
  apply find_Some in Hn as (u2 & v2 & E & <-).
  apply app_eq_inv in E as [(w & E1 & E2)|(w & E1 & E2)].
  2:{ rewrite E1, length_app in Hle. rewrite E1, length_app. destruct w; [cbn; lia|cbn in Hle; lia]. }
  destruct w as [|x w] using rev_ind; [by rewrite E1, app_nil_r|]. exfalso. clear IHw.
  rewrite app_assoc in E1. apply app_inj_tail in E1 as [E1 ->].
  apply app_eq_inv in E2 as [(k & E3 & _)|(k & E3 & _)].
  - apply Hc. rewrite E3. set_solver.
  - apply Hi. exists u2, k. by rewrite E1, <- app_assoc, E3.
Qed.

(** ** Entries *)

Lemma tight_quoted t : tight (quoted t).
Proof. right. exists QUOTE, QUOTE. unfold quoted. split_and!; [done| |done..]. rewrite app_assoc. apply last_snoc. Qed.
Lemma last_array l : last (array l) = Some 93%N.
Proof. unfold array. rewrite app_assoc. apply last_snoc. Qed.
Lemma tight_array l : tight (array l).
Proof. right. exists 91%N, 93%N. split_and!; [done|apply last_array|done..]. Qed.
Lemma quoted_by_quoted t : quoted_by QUOTE (quoted t) = true.
Proof.
  apply andb_true_iff. split; [apply (starts_with_app [QUOTE])|]. unfold quoted, ends_with.
  rewrite app_assoc, rev_app_distr. apply (starts_with_app [QUOTE]).
Qed.
Lemma unquote_quoted t : unquote (quoted t) = t.
Proof.
  unfold unquote. rewrite quoted_by_quoted. rewrite orb_true_l, andb_true_r.
  assert (2 <= str_len (quoted t)) as H.
  { unfold quoted. cbn [app str_len]. assert (forall u, 1 <= str_len (u ++ [QUOTE])) as Hu; [|specialize (Hu t); cbn; lia].
    induction u; cbn [app str_len]; [cbn; lia|lia]. }
  apply Nat.leb_le in H. rewrite H. unfold inside, quoted. cbn [app tl]. apply removelast_last.
Qed.

(** ** Arrays *)

Definition piece_ok (t : text) : Prop := t <> [] /\ tight t /\ 44%N ∉ t.
Lemma join_comma_cons t u l : join_comma (t :: u :: l) = t ++ 44%N :: 32%N :: join_comma (u :: l).
Proof. done. Qed.
Lemma split_join l : l <> [] -> Forall piece_ok l -> map trim (split_on 44%N (join_comma l)) = l.
Proof.
  induction l as [|t l IH]; intros H0 Hl; [done|]. apply Forall_cons in Hl as [(N & Ht & Hc) Hl]. destruct l as [|u l].
  - cbn [join_comma]. rewrite split_on_none by done. cbn [map]. by rewrite trim_tight.
  - rewrite join_comma_cons, split_on_feed by done. cbn [split_on].
    assert (map trim (split_on 44%N (join_comma (u :: l))) = u :: l) as IH' by by apply IH.
    destruct (split_on 44%N (join_comma (u :: l))) as [|p ps] eqn:E; [by destruct (split_on_nonempty 44%N (join_comma (u :: l)))|].
    change ((32 =? 44)%N) with false. cbn iota. cbn [map] in *. rewrite (trim_tight t) by done. f_equal. by rewrite <- IH'.
Qed.
Lemma join_comma_nonempty l : l <> [] -> Forall piece_ok l -> trim (join_comma l) <> [].
Proof.
  intros H0 Hl. apply (split_join l H0) in Hl as E. intros Ht. destruct l as [|t l]; [done|].
  apply Forall_cons in Hl as [(N & Tt & _) Hl]. destruct Tt as [|(c & d & Hc & _ & Sc & _)]; [done|].
  assert (exists r, join_comma (t :: l) = c :: r) as [r Hr].
  { destruct t as [|x t]; [done|]. injection Hc as ->. destruct l; [by exists t|]. rewrite join_comma_cons. by eexists. }
  rewrite Hr in Ht. unfold trim in Ht. rewrite trim_start_solid in Ht by done. cbn [rev] in Ht.
  apply (f_equal (@rev _)) in Ht. rewrite rev_involutive in Ht. cbn in Ht.
  assert (forall u, trim_start (u ++ [c]) <> []) as HN; [|by apply (HN (rev r))].
  induction u as [|x u IHu]; cbn [app trim_start]; [by rewrite Sc|]. by destruct (is_whitespace x).
Qed.
Lemma inside_array l : inside (array l) = join_comma l.
Proof. unfold inside, array. change (utf8 "[") with [91%N]. cbn [app tl]. apply removelast_last. Qed.
Lemma parse_array_array l : Forall piece_ok l -> parse_array (array l) = filter (fun s => s <> []) (map (trim_matches is_quote) l).
Proof.
  intros Hl. unfold parse_array. rewrite trim_tight by apply tight_array.
  assert (starts_with (array l) (utf8 "[") = true) as -> by apply (starts_with_app [91%N]).
  assert (ends_with (array l) (utf8 "]") = true) as ->.
  { unfold ends_with, array. rewrite app_assoc, rev_app_distr. apply (starts_with_app [93%N]). }
  cbn [negb orb]. rewrite inside_array. case_bool_decide as E.
  - destruct l as [|t l]; [done|]. exfalso. by apply (join_comma_nonempty (t :: l)) in E.
  - destruct l as [|t l]; [done|]. rewrite <- (map_map trim (trim_matches is_quote)). by rewrite split_join.
Qed.

(** A tag that stays in its place of an array. *)
Definition plain_tag (t : text) : Prop :=
  t <> [] /\ 44%N ∉ t /\ 10%N ∉ t /\ (forall c, head t = Some c -> is_quote c = false) /\ (forall c, last t = Some c -> is_quote c = false).
Lemma trim_matches_quoted t : plain_tag t -> trim_matches is_quote (quoted t) = t.
Proof.
  intros (N & _ & _ & Hh & Hl). unfold trim_matches, quoted. cbn [app trim_start_matches]. change (is_quote QUOTE) with true. cbn iota.
  destruct t as [|c t]; [done|]. cbn [app trim_start_matches]. rewrite (Hh c) by done.
  rewrite app_comm_cons, rev_app_distr. cbn [rev app trim_start_matches]. change (is_quote QUOTE) with true. cbn iota.
  destruct (last (c :: t)) as [d|] eqn:E; [|by apply last_None in E]. specialize (Hl d eq_refl). apply last_Some in E as [u Hu].
  change (rev t ++ [c]) with (rev (c :: t)). rewrite Hu, rev_app_distr. cbn [rev app trim_start_matches]. rewrite Hl.
  change (d :: rev u) with (rev [d] ++ rev u). by rewrite <- rev_app_distr, rev_involutive.
Qed.
Lemma quoted_piece t : plain_tag t -> piece_ok (quoted t).
Proof. intros (N & Hc & _). split_and!; [done|apply tight_quoted|]. unfold quoted, QUOTE. set_solver. Qed.
Lemma filter_id {A} (P : A -> Prop) `{forall x, Decision (P x)} l : Forall P l -> filter P l = l.
Proof. induction 1 as [|x l Hx _ IH]; [done|]. rewrite filter_cons. by rewrite decide_True, IH. Qed.
Lemma parse_tags tags : Forall plain_tag tags -> parse_array (array (map quoted tags)) = tags.
Proof.
  intros H. rewrite parse_array_array by (apply Forall_map; by apply (Forall_impl _ _ _ H quoted_piece)).
  rewrite map_map. rewrite (map_ext_in _ id), map_id, filter_id; [done| |].
  - apply (Forall_impl _ _ _ H). by intros t [? _].
  - intros t Ht%list_elem_of_In. apply trim_matches_quoted. rewrite Forall_forall in H. by apply H.
Qed.

Section entries.
Context {T : Type} {HC : Chrono T} {HL : Lowercase}.
Implicit Types (note : Note T) (key : string).

(** A key as the writer uses them. *)
Definition plain_key key : Prop := utf8 key <> [] /\ tight (utf8 key) /\ 58%N ∉ utf8 key /\ 10%N ∉ utf8 key /\ head (utf8 key) <> Some 45%N.
Lemma parse_entry note key value : plain_key key -> value <> [] -> tight value ->
  parse_line note (chop_return (entry key value)) = set_key note (utf8 key) (unquote value).
Proof.
  intros (K0 & K1 & K2 & K3 & K4) V0 V1. pose proof K1 as [|(c & d & Hc & _ & Sc & _)]; [done|].
  pose proof V1 as [|(e & f & _ & Hf & Se & Sf)]; [done|].
  assert (last (entry key value) = Some f) as HL2.
  { apply last_Some in Hf as [w Hw]. apply last_Some. exists (utf8 key ++ utf8 ": " ++ w). unfold entry. by rewrite Hw, <- !app_assoc. }
  rewrite (chop_return_solid _ f) by done. unfold parse_line.
  assert (exists r, entry key value = c :: r) as [r Hr].
  { unfold entry. destruct (utf8 key) as [|x k]; [done|]. injection Hc as ->. by eexists. }
  rewrite trim_tight by (right; exists c, f; by rewrite Hr at 1). rewrite bool_decide_false by by rewrite Hr.
  assert (starts_with (entry key value) (utf8 "- ") = false) as ->.
  { rewrite Hr. destruct (utf8 key) as [|x k]; [done|]. injection Hc as ->. cbn [head] in K4.
    change (utf8 "- ") with [45; 32]%N. cbn [starts_with]. by destruct (N.eqb_spec 45 c) as [<-|]. }
  unfold parse_kv_line, entry. change (utf8 ": ") with [58; 32]%N. cbn [app].
  rewrite split_once_at by done. cbn [mbind option_bind]. rewrite (trim_tight (utf8 key)) by done.
  rewrite trim_space by done. by rewrite bool_decide_false.
Qed.

Lemma name_lower (k : string) : ascii (utf8 k) -> map ascii_lower (utf8 k) = utf8 k -> to_lowercase (utf8 k) = utf8 k.
Proof. intros Ha Hk. by rewrite lower_ascii. Qed.
Lemma parse_sensitivity_name s : parse_sensitivity (utf8 (sensitivity_name s)) = Some s.
Proof.
  unfold parse_sensitivity. rewrite name_lower by (destruct s; [by repeat constructor|by repeat constructor|by repeat constructor]). by destruct s.
Qed.
Lemma domain_from_name d : domain_from_str (utf8 (domain_str d)) = Some d.
Proof. unfold domain_from_str. rewrite name_lower by (by destruct d; repeat constructor). by destruct d. Qed.
Lemma parse_domain_names ds acc : parse_domains (map (fun d => utf8 (domain_str d)) ds) acc = Ok (acc ++ ds).
Proof.
  revert acc. induction ds as [|d ds IH]; intros acc; cbn [map parse_domains]; [by rewrite app_nil_r|].
  by rewrite domain_from_name, IH, <- app_assoc.
Qed.
Lemma parse_domain_array ds : parse_array (array (map (fun d => utf8 (domain_str d)) ds)) = map (fun d => utf8 (domain_str d)) ds.
Proof.
  assert (forall d, piece_ok (utf8 (domain_str d)) /\ trim_matches is_quote (utf8 (domain_str d)) = utf8 (domain_str d)) as H.
  { intros d. split; [split_and!|]; destruct d; try done; try (right; by do 2 eexists); apply (bool_decide_unpack _); reflexivity. }
  rewrite parse_array_array by (apply Forall_map, Forall_true; intros d; apply H).
  rewrite map_map. rewrite (map_ext _ (fun d => utf8 (domain_str d))) by (intros d; apply H).
  apply filter_id. apply Forall_map, Forall_true. intros d. apply H.
Qed.

(** ** The round trip *)

(** The notes that keep to the format: one line for each field, tags that stay in
    their places, no fence before the end, a body that does not begin with white
    space.  The description and the path are not written. *)
Definition optional_fields note : list text :=
  option_list (note_source_id note) ++ option_list (note_project note) ++ option_list (note_para note) ++ option_list (note_okf_type note).
Record writable note : Prop := {
  w_lines : Forall (fun t => 10%N ∉ t)
    ([note_id note; note_source note; to_rfc3339 (note_created_at note); to_rfc3339 (note_updated_at note)] ++ optional_fields note);
  w_tags : Forall plain_tag (note_tags note);
  w_given : Forall (fun v => given v = true) (optional_fields note);
  w_created : parse_datetime (to_rfc3339 (note_created_at note)) = Some (note_created_at note);
  w_updated : parse_datetime (to_rfc3339 (note_updated_at note)) = Some (note_updated_at note);
  w_fence : ~ infix FENCE (front_matter note);
  w_content : trim_start (note_content note) = note_content note;
  w_description : note_description note = None;
  w_path : note_file_path note = None;
}.

Lemma no_feed_quoted t : 10%N ∉ t -> 10%N ∉ quoted t.
Proof. unfold quoted, QUOTE. set_solver. Qed.
Lemma no_feed_null o : Forall (fun t => 10%N ∉ t) (option_list o) -> 10%N ∉ or_null o.
Proof.
  destruct o as [t|]; cbn [option_list or_null]; [intros [H _]%Forall_cons; by apply no_feed_quoted|].
  intros _. by apply (bool_decide_unpack _).
Qed.
Lemma no_feed_array l : Forall (fun t => 10%N ∉ t) l -> 10%N ∉ array l.
Proof.
  intros H. unfold array. change (utf8 "[") with [91%N]. change (utf8 "]") with [93%N].
  assert (10%N ∉ join_comma l) as HJ; [|set_solver]. induction H as [|t l Ht _ IH]; [set_solver|].
  destruct l as [|u l]; [done|]. rewrite join_comma_cons. set_solver.
Qed.
Lemma no_feed_entry key t : 10%N ∉ utf8 key -> 10%N ∉ t -> 10%N ∉ entry key t.
Proof. intros Hk Ht. unfold entry. change (utf8 ": ") with [58; 32]%N. set_solver. Qed.
Lemma plain_tag_line t : plain_tag t -> 10%N ∉ quoted t.
Proof. intros (_ & _ & H & _). by apply no_feed_quoted. Qed.

Lemma front_lines_feeds note : writable note -> Forall (fun l => 10%N ∉ l) (front_lines note).
Proof.
  intros [WL WT _ _ _ _ _ _ _]. unfold optional_fields in WL.
  cbn [app] in WL. do 4 (apply Forall_cons in WL as [? WL]). rewrite !Forall_app in WL. destruct WL as (? & ? & WP & WY).
  assert (Forall (fun t => 10%N ∉ t) (map quoted (note_tags note))) as HT.
  { apply Forall_map. apply (Forall_impl _ _ _ WT plain_tag_line). }
  assert (Forall (fun t => 10%N ∉ t) (map (fun d => utf8 (domain_str d)) (note_domain note))) as HD.
  { apply Forall_map, Forall_true. intros []; by apply (bool_decide_unpack _). }
  assert (10%N ∉ utf8 (sensitivity_name (note_sensitivity note))) as HS by (destruct (note_sensitivity note); by apply (bool_decide_unpack _)).
  assert (forall key, 10%N ∉ utf8 key -> forall t, 10%N ∉ t -> 10%N ∉ entry key t) as HE by (intros; by apply no_feed_entry).
  unfold front_lines. rewrite !Forall_app. split_and!.
  - repeat (apply Forall_cons; split); try apply Forall_nil_2;
      (apply HE; [by apply (bool_decide_unpack _)|auto using no_feed_quoted, no_feed_null, no_feed_array]).
  - destruct (note_para note); [|done]. apply Forall_cons in WP as [? _]. apply Forall_cons. split; [|done].
    apply HE; [by apply (bool_decide_unpack _)|by apply no_feed_quoted].
  - destruct (note_okf_type note); [|done]. apply Forall_cons in WY as [? _]. apply Forall_cons. split; [|done].
    apply HE; [by apply (bool_decide_unpack _)|by apply no_feed_quoted].
Qed.

Lemma front_matter_feed note : exists u, front_matter note = u ++ [10%N].
Proof.
  unfold front_matter. destruct (front_lines note) as [|l ls] eqn:E using rev_ind; [done|]. rewrite flat_map_app. cbn [flat_map].
  eexists. rewrite app_nil_r, app_assoc. done.
Qed.
Lemma extract_full note : ~ infix FENCE (front_matter note) ->
  extract_front_matter (full_content note) = Ok (10%N :: front_matter note, [10; 10]%N ++ note_content note).
Proof.
  intros H. set (v := [10; 10]%N ++ note_content note).
  assert (find ((10%N :: front_matter note) ++ FENCE ++ v) FENCE = Some (length (10%N :: front_matter note))) as HF.
  { destruct (front_matter_feed note) as [u Hu]. rewrite Hu. apply (find_first FENCE (10%N :: u) 10%N); [done|by apply (bool_decide_unpack _)|].
    intros (x & y & E). destruct x as [|c x]; [discriminate E|]. injection E as _ E. apply H. exists x, y. by rewrite Hu. }
  unfold extract_front_matter, has_frontmatter.
  change (full_content note) with (45 :: 45 :: 45 :: (10 :: front_matter note) ++ FENCE ++ v)%N.
  rewrite !trim_start_solid by done. change (drop 3 (45 :: 45 :: 45 :: ?x)%N) with x. rewrite HF.
  change (starts_with (45 :: 45 :: 45 :: ?x)%N FENCE) with true. cbn [negb]. do 2 f_equal.
  - by rewrite take_app_length.
  - rewrite <- drop_drop, drop_app_length. done.
Qed.

(** ** The fields, one after the other *)

Lemma set_optional note key o (f : text -> field T) : plain_key key ->
  (forall n v, given v = true -> set_key n (utf8 key) v = Ok (assign n (f v))) -> (forall n, set_key n (utf8 key) (utf8 "null") = Ok n) ->
  Forall (fun v => given v = true) (option_list o) ->
  parse_line note (chop_return (entry key (or_null o))) = Ok match o with Some v => assign note (f v) | None => note end.
Proof.
  intros Hk Hset Hnull Ho. destruct o as [v|]; cbn [or_null].
  - apply Forall_cons in Ho as [Hv _]. rewrite parse_entry by (try done; apply tight_quoted). by rewrite unquote_quoted, Hset.
  - rewrite parse_entry; [by rewrite <- (Hnull note)|done|done|by right; do 2 eexists].
Qed.
Lemma plain_quoted note key v : plain_key key -> parse_line note (chop_return (entry key (quoted v))) = set_key note (utf8 key) v.
Proof. intros Hk. rewrite parse_entry by (try done; apply tight_quoted). by rewrite unquote_quoted. Qed.
Lemma plain_array note key l : plain_key key -> parse_line note (chop_return (entry key (array l))) = set_key note (utf8 key) (array l).
Proof. intros Hk. rewrite parse_entry by (try done; apply tight_array). f_equal. unfold unquote, quoted_by. by rewrite andb_false_r. Qed.

Lemma plain_keys key : key ∈ ["id"; "tags"; "source"; "source_id"; "sensitivity"; "created_at"; "updated_at"; "domain"; "project"; "para"; "type"]%string ->
  plain_key key.
Proof.
  intros H. repeat (apply elem_of_cons in H as [->|H]; [split_and!; [done|by right; do 2 eexists|by apply (bool_decide_unpack _)..|done]|]).
  by apply elem_of_nil in H.
Qed.
Lemma parse_lines_app l1 l2 note : parse_lines (l1 ++ l2) note = (let? n := parse_lines l1 note in parse_lines l2 n).
Proof. revert note. induction l1 as [|l l1 IH]; intros note; cbn [app parse_lines rbind]; [done|]. by destruct (parse_line note l); cbn [rbind]. Qed.
Lemma set_id note v : set_key note (utf8 "id") v = Ok (assign note (FId v)).
Proof. done. Qed.
Lemma set_tags note v : set_key note (utf8 "tags") v = Ok (assign note (FTags (parse_array v))).
Proof. done. Qed.
Lemma set_source note v : set_key note (utf8 "source") v = Ok (assign note (FSource v)).
Proof. done. Qed.
Lemma set_given note v : given v = true ->
  set_key note (utf8 "source_id") v = Ok (assign note (FSourceId v)) /\ set_key note (utf8 "project") v = Ok (assign note (FProject v))
  /\ set_key note (utf8 "para") v = Ok (assign note (FPara v)) /\ set_key note (utf8 "type") v = Ok (assign note (FType v)).
Proof. intros H. unfold set_key. rewrite H. done. Qed.
Lemma set_created note t : parse_datetime (to_rfc3339 t) = Some t -> set_key note (utf8 "created_at") (to_rfc3339 t) = Ok (assign note (FCreated t)).
Proof. intros H. unfold set_key. rewrite H. done. Qed.
Lemma set_updated note t : parse_datetime (to_rfc3339 t) = Some t -> set_key note (utf8 "updated_at") (to_rfc3339 t) = Ok (assign note (FUpdated t)).
Proof. intros H. unfold set_key. rewrite H. done. Qed.
Lemma set_domain note ds : note_domain note = [] ->
  set_key note (utf8 "domain") (array (map (fun d => utf8 (domain_str d)) ds)) = Ok (assign note (FDomain ds)).
Proof. intros H. unfold set_key. rewrite parse_domain_array, parse_domain_names, H. done. Qed.
Lemma plain_sensitivity note s : parse_line note (chop_return (entry "sensitivity" (utf8 (sensitivity_name s)))) = Ok (assign note (FSensitivity s)).
Proof.
  rewrite parse_entry; [|apply plain_keys; set_solver|by destruct s|right; destruct s; by do 2 eexists].
  assert (unquote (utf8 (sensitivity_name s)) = utf8 (sensitivity_name s)) as -> by by destruct s.
  unfold set_key. rewrite parse_sensitivity_name. done.
Qed.
Lemma parse_front now note : writable note ->
  parse_lines (map chop_return (front_lines note)) (default_note now) = Ok (assign note (FContent [])).
Proof.
  intros W. pose proof W as [_ WT WG WC WU _ _ WD WP]. unfold optional_fields in WG. rewrite !Forall_app in WG. destruct WG as (G1 & G2 & G3 & G4).
  unfold front_lines. rewrite !map_app, !parse_lines_app. cbn [map parse_lines].
  rewrite plain_quoted, set_id by (apply plain_keys; set_solver). cbn [rbind].
  rewrite plain_array, set_tags, parse_tags by (done || (apply plain_keys; set_solver)). cbn [rbind].
  rewrite plain_quoted, set_source by (apply plain_keys; set_solver). cbn [rbind].
  rewrite (set_optional _ _ _ FSourceId) by (apply plain_keys; set_solver) || done || (intros n v Hv; apply (set_given n v Hv)). cbn [rbind].
  rewrite plain_sensitivity by (apply plain_keys; set_solver). cbn [rbind].
  rewrite plain_quoted, set_created by (done || (apply plain_keys; set_solver)). cbn [rbind].
  rewrite plain_quoted, set_updated by (done || (apply plain_keys; set_solver)). cbn [rbind].
  rewrite plain_array, set_domain by first [by destruct (note_source_id note)|apply plain_keys; set_solver]. cbn [rbind].
  rewrite (set_optional _ _ _ FProject) by (apply plain_keys; set_solver) || done || (intros n v Hv; apply (set_given n v Hv)). cbn [rbind].
  rewrite parse_lines_app. assert (forall n, parse_lines (map chop_return match note_para note with Some v => [entry "para" (quoted v)] | None => [] end) n
    = Ok match note_para note with Some v => assign n (FPara v) | None => n end) as ->.
  { intros n. destruct (note_para note) as [v|]; [|done]. apply Forall_cons in G3 as [Hv _]. cbn [map parse_lines].
    rewrite plain_quoted by (apply plain_keys; set_solver). by rewrite (proj1 (proj2 (proj2 (set_given n v Hv)))). }
  cbn [rbind].
  assert (forall n, parse_lines (map chop_return match note_okf_type note with Some v => [entry "type" (quoted v)] | None => [] end) n
    = Ok match note_okf_type note with Some v => assign n (FType v) | None => n end) as ->.
  { intros n. destruct (note_okf_type note) as [v|]; [|done]. apply Forall_cons in G4 as [Hv _]. cbn [map parse_lines].
    rewrite plain_quoted by (apply plain_keys; set_solver). by rewrite (proj2 (proj2 (proj2 (set_given n v Hv)))). }
  f_equal. destruct note as [? ? ? [] ? ? ? ? [] [] [] ? ? ?]; cbn in *; by subst.
Qed.
End entries.

(** C20. A note that keeps to the format is read back as it was written, whatever the
    time of the read: every field, the tags in their places, the domains, the
    instants, and the body; nothing is lost but the description and the path, which
    are not written. *)
Theorem note_roundtrip {T} `{Chrono T} `{Lowercase} (now : T) (note : Note T) : writable note ->
  parse_frontmatter now (full_content note) = Ok note.
Proof.
  intros W. unfold parse_frontmatter. rewrite extract_full by apply W. cbn [rbind fst snd].
  assert (lines (10%N :: front_matter note) = [] :: map chop_return (front_lines note)) as ->.
  { pose proof (lines_feeds ([] :: front_lines note)) as HL. cbn [flat_map map app] in HL. apply HL.
    apply Forall_cons. split; [set_solver|by apply front_lines_feeds]. }
  cbn [parse_lines]. change (parse_line (default_note now) []) with (@Ok (Note T) text (default_note now)). cbn [rbind].
  rewrite parse_front by done. cbn [rbind]. f_equal.
  change (trim_start ([10; 10]%N ++ note_content note)) with (trim_start (note_content note)). rewrite (w_content note W).
  by destruct note.
Qed.

(** Two notes created within a second have the same file: the second replaces
    the first, and both calls answer with success and the same path. *)
Theorem second_note_replaces {T} `{Chrono T} `{Disk} id1 id2 (now1 now2 : T) vault t1 t2 tags1 tags2 s1 s2 files :
  (forall d, create_dir_all d = None) -> (forall p, write_error p = None) -> file_stamp now1 = file_stamp now2 ->
  let '(r1, files1) := create_note id1 now1 vault t1 tags1 s1 files in
  let '(r2, files2) := create_note id2 now2 vault t2 tags2 s2 files1 in
  exists n1 q1 n2 q2, r1 = Ok (n1, q1) /\ r2 = Ok (n2, q2) /\ note_file_path n1 = note_file_path n2
  /\ files2 = <[i_file_path q1 := full_content (new_note id2 now2 t2 tags2 s2)]> files.
Proof.
  intros Hd Hw E. unfold create_note, write_note. rewrite !Hd, !Hw. cbn [fst snd rbind].
  do 4 eexists. split_and!; [done|done| |]; unfold note_path; cbn [note_created_at new_note assign note_file_path i_file_path]; rewrite E; [done|].
  apply insert_insert_eq.
Qed.

(** ** At concrete notes *)

(** Instants in tenths of a second; a file name has the second. *)
#[local] Instance clock : Chrono nat :=
  {| to_rfc3339 := decimal; parse_datetime := fun t => N.to_nat <$> parse_unsigned 32 t; file_stamp := fun t => decimal (t / 10) |}.
#[local] Instance disk : Disk := {| create_dir_all := fun _ => None; write_error := fun _ => None |}.

Definition meeting : Note nat :=
  {| note_id := utf8 "0193b8f2"; note_tags := [utf8 "reminder"; utf8 "team notes"]; note_source := utf8 "qq: private";
     note_source_id := Some (utf8 "msg 1"); note_sensitivity := Confidential; note_created_at := 1234; note_updated_at := 1240;
     note_domain := [Personal; Work]; note_project := None; note_para := Some (utf8 "areas"); note_okf_type := None;
     note_description := None; note_content := utf8 "Call at noon."; note_file_path := None |}.
Lemma note_roundtrip_witness : writable meeting /\ parse_frontmatter 9 (full_content meeting) = Ok meeting.
Proof.
  assert (writable meeting) as W.
  { split; try reflexivity; try (apply (bool_decide_unpack _); reflexivity).
    - repeat (apply Forall_cons; split; [split_and!; try (apply (bool_decide_unpack _); reflexivity); intros c [= <-]; reflexivity|]). done.
    - apply find_None. reflexivity. }
  split; [exact W|]. apply (note_roundtrip 9 meeting W).
Defined.

Definition tagged (id source : string) (tags : list string) : Note nat :=
  new_note (utf8 id) 1234 (utf8 "Body") (map utf8 tags) (utf8 source).
Definition read_back (n : Note nat) : option (list text * Sensitivity * text) :=
  match parse_frontmatter 9 (full_content n) with Ok m => Some (note_tags m, note_sensitivity m, note_content m) | Err _ => None end.

(** Nothing is escaped: a comma divides a tag, and a fence within a value ends the
    front matter, so that the rest of it becomes the body, and a line feed adds a
    line. *)
Example comma_divides_tag : read_back (tagged "1" "cli" ["a, b"]) = Some ([utf8 "a"; utf8 "b"], Private, utf8 "Body").
Proof. by vm_compute. Qed.
Example fence_ends_matter :
  exists n, parse_frontmatter 9 (full_content (tagged "1" "a---b" [])) = Ok n /\ note_source n <> utf8 "a---b" /\ note_content n <> utf8 "Body".
Proof. eexists. split; [vm_compute; reflexivity|]. split; done. Qed.
Example project_lowers_sensitivity :
  read_back (assign (assign meeting (FSensitivity Confidential)) (FProject (utf8 "p" ++ [QUOTE; 10]%N ++ utf8 "sensitivity: " ++ [QUOTE] ++ utf8 "public")))
  = Some (note_tags meeting, Public, note_content meeting).
Proof. by vm_compute. Qed.

(** A description is lost, whatever it is. *)
Example description_is_lost v : full_content (assign meeting (FDescription v)) = full_content meeting.
Proof. done. Qed.

Lemma second_note_replaces_witness : file_stamp 1234 = file_stamp 1239 /\
  exists files, snd (create_note (utf8 "2") 1239 (utf8 "/vault") (utf8 "second") [] (utf8 "cli")
                       (snd (create_note (utf8 "1") 1234 (utf8 "/vault") (utf8 "first") [] (utf8 "cli") ∅))) = files /\ size files = 1.
Proof.
  assert (file_stamp 1234 = file_stamp 1239) as E by reflexivity. split; [exact E|]. eexists. split; [reflexivity|].
  pose proof (second_note_replaces (utf8 "1") (utf8 "2") 1234 1239 (utf8 "/vault") (utf8 "first") (utf8 "second") [] [] (utf8 "cli") (utf8 "cli") ∅
    (fun _ => eq_refl) (fun _ => eq_refl) E) as H.
  destruct (create_note (utf8 "1") 1234 _ _ _ _ _) as [r1 f1]. cbn [snd].
  destruct (create_note (utf8 "2") 1239 _ _ _ _ _) as [r2 f2]. cbn [snd].
  destruct H as (n1 & q1 & n2 & q2 & _ & _ & _ & ->). rewrite insert_empty. apply map_size_singleton.
Defined.
