(* ===== verification/Index.v ===== *)
(** * The index of notes

    Models zen-repo/src/notes_repo.rs and embeddings_repo.rs (their writes, and what
    the gate of a reindex reads) and zen-vault/src/tindy/reindex.rs over them: the
    rows of the notes, the full-text rows, the vectors, the engine they were made
    with, and the walk that brings them up to date.  The files do not change during
    a run.  [sha2], [walkdir] and the faults of the database are parameters; a
    table is the list of its rows, which a scan gives in the order of [scan_rows]. *)

From S2P Require Import Prelude Text Sanitize Sandbox FileTools Notes Embeddings.
From Stdlib Require Import Lia SpecFloat.
Local Open Scope list_scope.

(** ** Tables *)

Record MetaRow := {
  m_rowid : N; m_id : text; m_path : text; m_source : text; m_created : text; m_updated : text; m_hash : text; m_embedded : text }.
Record FtsRow := { f_rowid : N; f_id : text; f_title : text; f_content : text; f_tags : text }.
Abbreviation fingerprint := (text * text * Z)%type.
Record index_db := { meta : list MetaRow; fts : list FtsRow; vectors : list (text * list f32); engine : option fingerprint }.
Definition set_meta (l : list MetaRow) (db : index_db) : index_db :=
  {| meta := l; fts := fts db; vectors := vectors db; engine := engine db |}.
Definition set_fts (l : list FtsRow) (db : index_db) : index_db :=
  {| meta := meta db; fts := l; vectors := vectors db; engine := engine db |}.
Definition set_vectors (l : list (text * list f32)) (db : index_db) : index_db :=
  {| meta := meta db; fts := fts db; vectors := l; engine := engine db |}.
Definition set_engine (e : option fingerprint) (db : index_db) : index_db :=
  {| meta := meta db; fts := fts db; vectors := vectors db; engine := e |}.
Definition with_embedded (h : text) (r : MetaRow) : MetaRow :=
  {| m_rowid := m_rowid r; m_id := m_id r; m_path := m_path r; m_source := m_source r; m_created := m_created r;
     m_updated := m_updated r; m_hash := m_hash r; m_embedded := h |}.
Definition with_hash (h : text) (r : MetaRow) : MetaRow :=
  {| m_rowid := m_rowid r; m_id := m_id r; m_path := m_path r; m_source := m_source r; m_created := m_created r;
     m_updated := m_updated r; m_hash := h; m_embedded := m_embedded r |}.

(** The statements that may fail. *)
Inductive statement :=
  | LoadChecksums | LoadEmbedded | ReadEngine | WriteEngine
  | IndexMeta (id : text) | IndexFts (id : text) | InsertVector (id : text) | MarkEmbedded (id : text).

#[export] Instance statement_eq_dec : EqDecision statement.
Proof. solve_decision. Defined.

(** The library of hashes, and the decoder of UTF-8. *)
Class Codec := {
  sha256 : list N -> list N;
  from_utf8 : list N -> result text text;
}.
(** What a run finds: the files, the order of a scan, the statements that fail. *)
Class Moment := {
  read_bytes : text -> result (list N) text;
  scan_rows : forall {A}, list A -> list A;
  scan_rows_perm : forall {A} (l : list A), scan_rows l ≡ₚ l;
  fails : statement -> bool;
}.

Definition hex_low (n : N) : char := (if n <? 10 then 48 + n else 87 + n)%N.
Definition hex_of (bytes : list N) : text := flat_map (fun b => [hex_low (b / 16); hex_low (b mod 16)])%N bytes.

Section repositories.
Context {HK : Codec} {HM : Moment}.

Definition checksum_of (bytes : list N) : text := hex_of (sha256 bytes).
(** The first eight bytes, most significant first, without the sign. *)
Definition rowid_of (id : text) : N :=
  (foldl (fun n b => n * 256 + b) 0 (take 8 (sha256 (bytes_of id))) mod 2 ^ 63)%N.
Definition content_hash (q : IndexNoteRequest) : text :=
  let body_hash := checksum_of (bytes_of (i_content q)) in
  match i_file_path q with
  | [] => body_hash
  | path => match read_bytes path with Ok bytes => checksum_of bytes | Err _ => body_hash end
  end.

(** [INSERT OR REPLACE], into each table. *)
Definition insert_meta (row : MetaRow) (l : list MetaRow) : list MetaRow :=
  filter (fun r => m_rowid r <> m_rowid row /\ m_id r <> m_id row) l ++ [row].
Definition insert_fts (row : FtsRow) (l : list FtsRow) : list FtsRow := filter (fun r => f_rowid r <> f_rowid row) l ++ [row].
Definition meta_row (now : text) (q : IndexNoteRequest) : MetaRow :=
  {| m_rowid := rowid_of (i_id q); m_id := i_id q; m_path := i_file_path q; m_source := i_source q; m_created := now;
     m_updated := now; m_hash := content_hash q; m_embedded := [] |}.
Definition fts_row (q : IndexNoteRequest) : FtsRow :=
  {| f_rowid := rowid_of (i_id q); f_id := i_id q; f_title := i_title q; f_content := i_content q; f_tags := i_tags q |}.
(** Two statements, each committed by itself; whether both succeed. *)
Definition index_note (now : text) (q : IndexNoteRequest) (db : index_db) : bool * index_db :=
  if fails (IndexMeta (i_id q)) then (false, db)
  else
    let db := set_meta (insert_meta (meta_row now q) (meta db)) db in
    if fails (IndexFts (i_id q)) then (false, db)
    else (true, set_fts (insert_fts (fts_row q) (fts db)) db).
Definition mark_embedded (id hash : text) (db : index_db) : bool * index_db :=
  if fails (MarkEmbedded id) then (false, db)
  else (true, set_meta (map (fun r => if bool_decide (m_id r = id) then with_embedded hash r else r) (meta db)) db).
Definition all_embedded_hashes (db : index_db) : gmap text text :=
  foldl (fun m r => <[m_id r := m_embedded r]> m) ∅ (scan_rows (meta db)).
Definition all_file_checksums (db : index_db) : gmap text text :=
  foldl (fun m r => <[m_path r := m_hash r]> m) ∅ (scan_rows (filter (fun r => m_hash r <> []) (meta db))).

Definition insert_note_embedding (id : text) (v : list f32) (db : index_db) : index_db :=
  set_vectors (filter (fun x => x.1 <> id) (vectors db) ++ [(id, v)]) db.
Definition reset_embedding_tables (db : index_db) : index_db :=
  set_engine None (set_vectors [] (set_meta (map (fun r => with_embedded [] (with_hash [] r)) (meta db)) db)).
(** [Tier3Search::insert_embedding]; the table has the dimension. *)
Definition insert_embedding (id : text) (v : list f32) (db : index_db) : bool * index_db :=
  if bool_decide (v = []) then (false, db)
  else if fails (InsertVector id) || negb (length v =? SYSTEM_EMBEDDING_DIM)%nat then (false, db)
  else (true, insert_note_embedding id v db).
End repositories.

(** ** The gate of the engine *)

Inductive GateDecision := Write | Proceed | Mismatch (stored active : fingerprint) | UnknownEngine.
Definition fingerprint_gate (stored active : option fingerprint) : GateDecision :=
  match stored, active with
  | None, Some _ => Write
  | Some s, Some a => if bool_decide (s = a) then Proceed else Mismatch s a
  | _, None => UnknownEngine
  end.

(** ** The walk *)

Record walk_entry := { e_path : text; e_file : bool }.
Definition EXCLUDED_DIR_COMPONENTS : list text := [utf8 "iterations"].
(** Of the components below the root. *)
Definition is_excluded_entry (root entry : text) : bool :=
  match components root, components entry with
  | r, p => bool_decide (take (length r) p = r) && existsb (fun c => bool_decide (name_of c ∈ EXCLUDED_DIR_COMPONENTS)) (drop (length r) p)
  end.
Definition is_markdown (path : text) : bool := bool_decide (extension (components path) = Some (utf8 "md")).
Definition file_stem (path : text) : text := default (utf8 "untitled") ((fun n => (split_name n).1) <$> file_name (components path)).

Record ReindexReport := {
  files_scanned : nat; files_updated : nat; files_unchanged : nat; files_reembedded : nat; files_embedded : nat;
  embeddings_degraded : nat; embeddings_skipped : nat; errors : list text }.
Definition empty_report : ReindexReport :=
  {| files_scanned := 0; files_updated := 0; files_unchanged := 0; files_reembedded := 0; files_embedded := 0;
     embeddings_degraded := 0; embeddings_skipped := 0; errors := [] |}.
Inductive tally := Scanned (n : nat) | Updated | Unchanged | Reembedded | Embedded | Degraded | Skipped | Error (e : text).
Definition bump (t : tally) (r : ReindexReport) : ReindexReport :=
  {| files_scanned := match t with Scanned n => n | _ => files_scanned r end;
     files_updated := match t with Updated => S (files_updated r) | _ => files_updated r end;
     files_unchanged := match t with Unchanged => S (files_unchanged r) | _ => files_unchanged r end;
     files_reembedded := match t with Reembedded => S (files_reembedded r) | _ => files_reembedded r end;
     files_embedded := match t with Embedded => S (files_embedded r) | _ => files_embedded r end;
     embeddings_degraded := match t with Degraded => S (embeddings_degraded r) | _ => embeddings_degraded r end;
     embeddings_skipped := match t with Skipped => S (embeddings_skipped r) | _ => embeddings_skipped r end;
     errors := match t with Error e => errors r ++ [e] | _ => errors r end |}.

(** ** The reindexer *)

Record Reindexer := { known_checksums : gmap text text; db_client : bool; embed_on : bool; force_full_run : bool }.
Definition with_client : Reindexer := {| known_checksums := ∅; db_client := true; embed_on := true; force_full_run := false |}.
Definition without_embeddings (x : Reindexer) : Reindexer :=
  {| known_checksums := known_checksums x; db_client := db_client x; embed_on := false; force_full_run := force_full_run x |}.
Definition force_full (x : Reindexer) : Reindexer :=
  {| known_checksums := ∅; db_client := db_client x; embed_on := embed_on x; force_full_run := true |}.
Definition set_known_checksum (path checksum : text) (x : Reindexer) : Reindexer :=
  {| known_checksums := <[path := checksum]> (known_checksums x); db_client := db_client x; embed_on := embed_on x;
     force_full_run := force_full_run x |}.
Definition rebuild_fts_indexes (db : index_db) : index_db := set_fts [] db.

(** What a run has: the database, the router of embeddings, the report. *)
Record run := { r_db : index_db; r_router : embed_router; r_report : ReindexReport }.
Definition on_report (f : ReindexReport -> ReindexReport) (s : run) : run := {| r_db := r_db s; r_router := r_router s; r_report := f (r_report s) |}.
Definition with_db (db : index_db) (s : run) : run := {| r_db := db; r_router := r_router s; r_report := r_report s |}.
Definition with_router (r : embed_router) (s : run) : run := {| r_db := r_db s; r_router := r; r_report := r_report s |}.

Section reindex.
Context {HK : Codec} {HM : Moment} {T : Type} {HC : Chrono T} {HL : Lowercase}.
Context (embed : nat -> nat -> text -> option (list f32)) (clock : T) (now : text) (descriptor : option (text * text)).

(** The id, the body and the tags of a file. *)
Definition derive_note_identity (content file_name : text) : text * text * text :=
  match parse_frontmatter clock content with
  | Ok note =>
    (match note_id note with [] => utf8 "auto-" ++ file_name | id => id end, note_content note, join_with (utf8 ",") (note_tags note))
  | Err _ => (utf8 "auto-" ++ file_name, content, [])
  end.
Definition not_zero (v : list f32) : bool := existsb (fun x => negb (SFeqb x f32_zero)) v.
Definition store_embedding (id body display checksum : text) (s : run) : bool * run :=
  let '((v, degraded), router) := compute_embeddings_for_text_tagged embed body (r_router s) in
  let s := with_router router s in
  if negb (bool_decide (v = [])) && not_zero v then
    let '(stored, db) := insert_embedding id v (r_db s) in
    let s := with_db db s in
    if stored then
      if degraded then (true, on_report (fun r => bump Degraded (bump Embedded r)) s)
      else
        let '(marked, db) := mark_embedded id checksum (r_db s) in
        let s := with_db db s in
        if marked then (true, on_report (bump Embedded) s)
        else (false, on_report (fun r => bump Skipped (bump (Error (utf8 "embed-mark " ++ display)) r)) s)
    else (false, on_report (bump Skipped) s)
  else (false, on_report (bump Skipped) s).

Definition read_to_string (path : text) : result text text := let? bytes := read_bytes path in from_utf8 bytes.
Definition source_of (display : text) : text :=
  if contains display (utf8 "/wiki/") then utf8 "wiki" else if contains display (utf8 "/inbox/") then utf8 "inbox" else utf8 "vault".

Inductive VectorRefresh := Fresh | WasReembedded | WasSkipped.
Definition refresh_embedding (x : Reindexer) (path checksum : text) (embedded : gmap text text) (s : run) : result VectorRefresh text * run :=
  if negb (db_client x) then (Ok WasSkipped, if embed_on x then on_report (bump Skipped) s else s)
  else match read_to_string path with
  | Err e => (Err e, s)
  | Ok content =>
    let '(id, body, _) := derive_note_identity content (file_stem path) in
    if bool_decide (embedded !! id = Some checksum) then (Ok Fresh, s)
    else let '(stored, s) := store_embedding id body path checksum s in (Ok (if stored then WasReembedded else WasSkipped), s)
  end.
Definition process_file (x : Reindexer) (path checksum : text) (s : run) : result unit text * run :=
  match read_to_string path with
  | Err e => (Err e, s)
  | Ok content =>
    let '(id, body, tags) := derive_note_identity content (file_stem path) in
    if db_client x then
      let '(ok, db) := index_note now {| i_id := id; i_title := file_stem path; i_content := body; i_tags := tags; i_file_path := path;
                                         i_source := source_of path |} (r_db s) in
      let s := with_db db s in
      if ok then (Ok tt, if embed_on x then (store_embedding id body path checksum s).2 else s)
      else (Err (utf8 "FTS5 index failed for " ++ path), s)
    else (Ok tt, if embed_on x then on_report (bump Skipped) s else s)
  end.
Definition step_file (x : Reindexer) (known embedded : gmap text text) (s : run) (path : text) : run :=
  match read_bytes path with
  | Err e => on_report (bump (Error (utf8 "checksum " ++ path ++ utf8 ": " ++ e))) s
  | Ok bytes =>
    let current := checksum_of bytes in
    if bool_decide (known !! path = Some current) then
      if negb (embed_on x) || negb (db_client x) then on_report (bump Unchanged) s
      else match refresh_embedding x path current embedded s with
           | (Ok Fresh, s) => on_report (bump Unchanged) s
           | (Ok WasReembedded, s) => on_report (bump Reembedded) s
           | (Ok WasSkipped, s) => s
           | (Err e, s) => on_report (bump (Error (utf8 "reembed " ++ path ++ utf8 ": " ++ e))) s
           end
    else match process_file x path current s with
         | (Ok _, s) => on_report (bump Updated) s
         | (Err e, s) => on_report (bump (Error (utf8 "reindex " ++ path ++ utf8 ": " ++ e))) s
         end
  end.

Definition known_of (x : Reindexer) (db : index_db) : gmap text text :=
  let known := if force_full_run x then ∅ else known_checksums x in
  if negb (force_full_run x) && bool_decide (known = ∅) && db_client x && negb (fails LoadChecksums) then all_file_checksums db else known.
Definition embedded_of (x : Reindexer) (db : index_db) : gmap text text :=
  if embed_on x && negb (force_full_run x) && db_client x && negb (fails LoadEmbedded) then all_embedded_hashes db else ∅.
Definition active_engine : option fingerprint := (fun d => (d, Z.of_nat SYSTEM_EMBEDDING_DIM)) <$> descriptor.
(** The error message has both fingerprints. *)
Definition engine_gate (x : Reindexer) (db : index_db) : result index_db (fingerprint * fingerprint) :=
  if negb (db_client x) || fails ReadEngine then Ok db
  else match fingerprint_gate (engine db) active_engine with
       | Proceed | UnknownEngine => Ok db
       | Write => Ok (if fails WriteEngine then db else set_engine active_engine db)
       | Mismatch stored active => Err (stored, active)
       end.

(** [walk]: [WalkDir] with its filter of entries. *)
Context (is_dir : bool) (walk : (text -> bool) -> list (result walk_entry text)) (root : text).
Definition walked : list (result walk_entry text) := walk (fun p => negb (is_excluded_entry root p)).
Definition walk_errors : list text := omap (fun e => match e with Err m => Some (utf8 "walk: " ++ m) | Ok _ => None end) walked.
Definition md_files : list text :=
  omap (fun e => match e with Ok w => if e_file w && is_markdown (e_path w) then Some (e_path w) else None | Err _ => None end) walked.
Definition reindex (x : Reindexer) (db : index_db) (router : embed_router) : result ReindexReport (fingerprint * fingerprint) * index_db * embed_router :=
  if negb is_dir then (Ok empty_report, db, router)
  else
    let known := known_of x db in
    let embedded := embedded_of x db in
    match engine_gate x db with
    | Err e => (Err e, db, router)
    | Ok db =>
      let report := bump (Scanned (length md_files)) (foldl (fun r m => bump (Error m) r) empty_report walk_errors) in
      let s := foldl (step_file x known embedded) {| r_db := db; r_router := router; r_report := report |} md_files in
      (Ok (r_report s), r_db s, r_router s)
    end.
End reindex.
