(* ===== verification/IndexProps.v ===== *)
(** * The index keeps up with the files

    A row that claims a vector has the vector of the bytes it names; a run over
    healthy files leaves nothing to do for the next one. *)

From S2P Require Import Prelude Text Sanitize Sandbox FileTools Notes Embeddings Index.
From Stdlib Require Import Lia SpecFloat.
Local Open Scope list_scope.

(** ** Checksums *)

Lemma hex_low_inj a b : hex_low a = hex_low b -> a = b.
Proof. unfold hex_low. destruct (N.ltb_spec a 10), (N.ltb_spec b 10); lia. Qed.
#[export] Instance hex_inj : Inj eq eq hex_of.
Proof.
  intros l1. induction l1 as [|a l1 IH]; intros [|b l2]; cbn; try done. intros [= H1%hex_low_inj H2%hex_low_inj H3]. f_equal; [|by apply IH].
  rewrite (N.div_mod a 16), (N.div_mod b 16) by done. congruence.
Qed.
Lemma checksum_inj `{Codec} `{!Inj eq eq sha256} b1 b2 : checksum_of b1 = checksum_of b2 -> b1 = b2.
Proof. by intros ?%(inj hex_of)%(inj sha256). Qed.

(** ** The identity of a note does not depend on the time of the read *)

Section identity.
Context {T : Type} {HC : Chrono T} {HL : Lowercase}.

Definition same_note (a b : Note T) : Prop := note_id a = note_id b /\ note_tags a = note_tags b /\ note_domain a = note_domain b.
Definition same_result (a b : result (Note T) text) : Prop :=
  match a, b with Ok x, Ok y => same_note x y | Err e, Err f => e = f | _, _ => False end.
Lemma same_assign a b f : same_note a b -> same_note (assign a f) (assign b f).
Proof. intros (H1 & H2 & H3). unfold same_note. destruct f; cbn; auto. Qed.
Lemma same_set_key a b key value : same_note a b -> same_result (set_key a key value) (set_key b key value).
Proof.
  intros H. pose proof H as (_ & _ & H3). unfold set_key, rbind. cbn zeta. rewrite H3.
  repeat first [done|by apply same_assign|case_match].
Qed.
Lemma same_parse_lines ls a b : same_note a b -> same_result (parse_lines ls a) (parse_lines ls b).
Proof.
  revert a b. induction ls as [|l ls IH]; intros a b H; cbn [parse_lines]; [done|].
  assert (same_result (parse_line a l) (parse_line b l)) as HL1.
  { unfold parse_line. case_bool_decide; [done|]. case_match; [done|]. destruct (parse_kv_line _) as [[k v]|]; [by apply same_set_key|done]. }
  destruct (parse_line a l), (parse_line b l); cbn in HL1 |- *; try done. by apply IH.
Qed.
Lemma derive_clock (c1 c2 : T) content name : derive_note_identity c1 content name = derive_note_identity c2 content name.
Proof.
  unfold derive_note_identity, parse_frontmatter. destruct (extract_front_matter content) as [[y body]|]; cbn [rbind fst snd]; [|done].
  assert (same_result (parse_lines (lines y) (default_note c1)) (parse_lines (lines y) (default_note c2))) as H by by apply same_parse_lines.
  destruct (parse_lines (lines y) (default_note c1)), (parse_lines (lines y) (default_note c2)); cbn in H |- *; try done.
  destruct H as (-> & -> & _). done.
Qed.
End identity.

(** ** Rows *)

Lemma NoDup_map_filter {A B} (f : A -> B) (P : A -> Prop) `{forall x, Decision (P x)} l : NoDup (map f l) -> NoDup (map f (filter P l)).
Proof.
  induction l as [|x l IH]; cbn [map]; intros Hn; [done|]. apply NoDup_cons in Hn as [Hx Hn]. rewrite filter_cons.
  destruct (decide (P x)); [|by apply IH]. cbn [map]. apply NoDup_cons. split; [|by apply IH].
  intros (y & E & [_ Hy]%list_elem_of_filter)%list_elem_of_fmap. apply Hx, list_elem_of_fmap. by exists y.
Qed.
Lemma NoDup_map_elem {A B} (f : A -> B) l x y : NoDup (map f l) -> x ∈ l -> y ∈ l -> f x = f y -> x = y.
Proof.
  induction l as [|z l IH]; cbn [map]; intros Hn Hx Hy E; [by apply elem_of_nil in Hx|]. apply NoDup_cons in Hn as [Hz Hn].
  apply elem_of_cons in Hx as [->|Hx]; apply elem_of_cons in Hy as [->|Hy]; [done| | |by apply IH].
  - exfalso. apply Hz. rewrite E. by apply list_elem_of_fmap_2.
  - exfalso. apply Hz. rewrite <- E. by apply list_elem_of_fmap_2.
Qed.
Lemma insert_meta_elem row l r : r ∈ insert_meta row l <-> (r ∈ l /\ m_rowid r <> m_rowid row /\ m_id r <> m_id row) \/ r = row.
Proof. unfold insert_meta. rewrite elem_of_app, list_elem_of_filter, list_elem_of_singleton. tauto. Qed.
Lemma insert_meta_ids row l : NoDup (map m_id l) -> NoDup (map m_id (insert_meta row l)).
Proof.
  intros Hn. unfold insert_meta. rewrite map_app. apply NoDup_app. split_and!; [by apply NoDup_map_filter| |apply NoDup_singleton].
  intros id (r & -> & [(_ & Hr) _]%list_elem_of_filter)%list_elem_of_fmap. cbn. by rewrite list_elem_of_singleton.
Qed.
Lemma insert_vector_elem id v (l : list (text * list f32)) x : x ∈ filter (fun y => y.1 <> id) l ++ [(id, v)] <-> (x ∈ l /\ x.1 <> id) \/ x = (id, v).
Proof. rewrite elem_of_app, list_elem_of_filter, list_elem_of_singleton. tauto. Qed.

Lemma fold_insert_some {A} (f g : A -> text) (l : list A) (m : gmap text text) k v : foldl (fun m r => <[f r := g r]> m) m l !! k = Some v ->
  m !! k = Some v \/ exists r, r ∈ l /\ f r = k /\ g r = v.
Proof.
  revert m. induction l as [|x l IH]; intros m; cbn [foldl]; [auto|]. intros [H|(r & Hr & E)]%IH; [|right; exists r; by split; [right|]].
  destruct (decide (f x = k)) as [<-|N]; [|rewrite lookup_insert_ne in H by done; auto].
  rewrite lookup_insert_eq in H. injection H as <-. right. exists x. by split; [left|].
Qed.
Lemma fold_insert_lookup {A} (f g : A -> text) (l : list A) (m : gmap text text) r : NoDup (map f l) -> r ∈ l -> foldl (fun m r => <[f r := g r]> m) m l !! f r = Some (g r).
Proof.
  revert m. induction l as [|x l IH]; intros m Hn Hr; cbn [foldl map] in *; [by apply elem_of_nil in Hr|].
  apply NoDup_cons in Hn as [Hx Hn]. apply elem_of_cons in Hr as [->|Hr]; [|by apply IH]. clear IH.
  assert (forall (l : list A) (m : gmap text text), f x ∉ map f l -> m !! f x = Some (g x) -> foldl (fun m r => <[f r := g r]> m) m l !! f x = Some (g x)) as HF.
  { clear. induction l as [|y l IH]; intros m Hx Hm; cbn [foldl map] in *; [done|]. apply not_elem_of_cons in Hx as [Hy Hx].
    apply IH; [done|]. by rewrite lookup_insert_ne. }
  apply HF; [done|apply lookup_insert_eq].
Qed.

Section fresh.
Context {HK : Codec} {HI : Inj eq eq sha256} {T : Type} {HC : Chrono T} {HL : Lowercase}.
Context (embed : nat -> nat -> text -> option (list f32)).

(** ** The invariant *)

(** The row of [id] at [path] is about the bytes whose checksum is [h]. *)
Definition names_bytes (h id path : text) : Prop := exists (clock : T) bytes content,
  checksum_of bytes = h /\ from_utf8 bytes = Ok content /\ (derive_note_identity clock content (file_stem path)).1.1 = id.
(** [v] is what providers made of the body of the note with the checksum [h]. *)
Definition vector_of (h : text) (v : list f32) : Prop := exists (clock : T) bytes content stem router,
  checksum_of bytes = h /\ from_utf8 bytes = Ok content
  /\ (compute_embeddings_for_text_tagged embed (derive_note_identity clock content stem).1.2 router).1 = (v, false).
Record wf (db : index_db) : Prop := {
  wf_ids : NoDup (map m_id (meta db));
  wf_row : forall r, r ∈ meta db -> m_hash r <> [] -> names_bytes (m_hash r) (m_id r) (m_path r);
  wf_fresh : forall r, r ∈ meta db -> m_embedded r <> [] ->
    m_embedded r = m_hash r /\ exists v, (m_id r, v) ∈ vectors db /\ vector_of (m_embedded r) v;
  wf_vectors : NoDup (map fst (vectors db));
}.

Lemma wf_insert_vector id v db : wf db -> (forall r, r ∈ meta db -> m_id r = id -> m_embedded r = []) -> wf (insert_note_embedding id v db).
Proof.
  intros [W1 W2 W3 W4] H. split; cbn [meta vectors insert_note_embedding set_vectors]; [done|done| |].
  - intros r Hr He. destruct (W3 r Hr He) as (E & w & Hw & Hv). split; [done|]. exists w. split; [|done].
    apply insert_vector_elem. left. split; [done|]. cbn. intros Hid. by apply He, H.
  - rewrite map_app. apply NoDup_app. split_and!; [by apply NoDup_map_filter| |apply NoDup_singleton].
    intros y (x & -> & [Hx _]%list_elem_of_filter)%list_elem_of_fmap. cbn. by rewrite list_elem_of_singleton.
Qed.
Lemma mark_elem id h l r : r ∈ map (fun r => if bool_decide (m_id r = id) then with_embedded h r else r) l ->
  exists r0, r0 ∈ l /\ m_id r = m_id r0 /\ m_hash r = m_hash r0 /\ m_path r = m_path r0 /\ (r = r0 /\ m_id r <> id \/ m_id r = id /\ m_embedded r = h).
Proof.
  intros (r0 & -> & Hr)%list_elem_of_fmap. exists r0. case_bool_decide; cbn; auto 10.
Qed.
Lemma wf_mark id h v db : wf db -> (forall r, r ∈ meta db -> m_id r = id -> m_hash r = h) -> (id, v) ∈ vectors db -> vector_of h v ->
  wf (set_meta (map (fun r => if bool_decide (m_id r = id) then with_embedded h r else r) (meta db)) db).
Proof.
  intros [W1 W2 W3 W4] H Hv Ho. split; cbn [meta vectors set_meta]; [| | |done].
  - rewrite map_map. rewrite (map_ext _ m_id); [done|]. intros r. by case_bool_decide.
  - intros r (r0 & Hr & -> & -> & -> & _)%mark_elem. by apply W2.
  - intros r (r0 & Hr & E1 & E2 & _ & [[-> _]|[E3 E4]])%mark_elem He; [by apply W3|].
    rewrite E4, E2, E3, (H r0) by congruence. split; [done|]. by exists v.
Qed.

(** What a statement may do to the rows that are not its own. *)
Definition keeps (id : text) (db db' : index_db) : Prop := forall r, r ∈ meta db' -> m_id r <> id -> r ∈ meta db.
Lemma kept_same id db : keeps id db db.
Proof. by intros r. Qed.
Lemma keeps_trans id a b c : keeps id a b -> keeps id b c -> keeps id a c.
Proof. intros H1 H2 r Hr Hid. by apply H1; [apply H2|]. Qed.

Section run.
Context {HM : Moment} (clock : T) (now : text).

Lemma index_keeps q db : names_bytes (content_hash q) (i_id q) (i_file_path q) -> wf db ->
  let '(ok, db') := index_note now q db in
  wf db' /\ keeps (i_id q) db db' /\ (ok = true -> forall r, r ∈ meta db' -> m_id r = i_id q -> r = meta_row now q).
Proof.
  intros Hq W. unfold index_note. destruct (fails (IndexMeta _)); [split_and!; [done|apply kept_same|done]|].
  assert (wf (set_meta (insert_meta (meta_row now q) (meta db)) db)) as W'.
  { destruct W as [W1 W2 W3 W4]. split; cbn [meta vectors set_meta]; [by apply insert_meta_ids| | |done].
    - intros r [(Hr & _)| ->]%insert_meta_elem; [by apply W2|done].
    - intros r [(Hr & _)| ->]%insert_meta_elem; [by apply W3|done]. }
  assert (keeps (i_id q) db (set_meta (insert_meta (meta_row now q) (meta db)) db)) as K.
  { intros r [(Hr & _)| ->]%insert_meta_elem Hid; done. }
  destruct (fails (IndexFts _)); [split_and!; [exact W'|exact K|done]|].
  split_and!; [destruct W' as [W1 W2 W3 W4]; by constructor|exact K|].
  intros _ r [(_ & _ & Hr)| ->]%insert_meta_elem Hid; done.
Qed.

Lemma store_keeps bytes content stem id path s : wf (r_db s) -> from_utf8 bytes = Ok content ->
  (forall r, r ∈ meta (r_db s) -> m_id r = id -> m_embedded r = [] /\ m_hash r = checksum_of bytes) ->
  let s' := (store_embedding embed id (derive_note_identity clock content stem).1.2 path (checksum_of bytes) s).2 in
  wf (r_db s') /\ keeps id (r_db s) (r_db s').
Proof.
  intros W Hc Hr. unfold store_embedding.
  destruct (compute_embeddings_for_text_tagged _ _ _) as [[v degraded] router] eqn:E. cbn [with_router r_db].
  assert (wf (r_db s) /\ keeps id (r_db s) (r_db s)) as HS by (split; [done|apply kept_same]).
  destruct (negb _ && not_zero v); [|done]. unfold insert_embedding. case_bool_decide; [done|].
  destruct (fails (InsertVector id) || _); [done|].
  assert (wf (insert_note_embedding id v (r_db s))) as WI by (apply wf_insert_vector; [done|]; intros r H1 H2; by apply Hr).
  destruct degraded; [split; [exact WI|by intros r ? ?]|]. unfold mark_embedded.
  destruct (fails (MarkEmbedded id)); [split; [exact WI|by intros r ? ?]|]. cbn [r_db with_db on_report snd]. split.
  - apply (wf_mark id _ v); [done| | |].
    + intros r H1 H2. by apply Hr.
    + cbn. apply insert_vector_elem. by right.
    + exists clock, bytes, content, stem, (r_router s). by rewrite E.
  - intros r (r0 & H1 & _ & _ & _ & [[-> _]|[H2 _]])%mark_elem Hid; done.
Qed.

(** ** A file *)

(** The id of the row that a file is about. *)
Definition claim (path : text) : option text :=
  match read_bytes path with
  | Ok bytes => match from_utf8 bytes with Ok content => Some (derive_note_identity clock content (file_stem path)).1.1 | Err _ => None end
  | Err _ => None
  end.
Lemma known_row db path h : all_file_checksums db !! path = Some h -> exists r, r ∈ meta db /\ m_path r = path /\ m_hash r = h /\ h <> [].
Proof.
  intros [H|(r & Hr & <- & <-)]%(fold_insert_some m_path m_hash); [by rewrite lookup_empty in H|].
  rewrite scan_rows_perm in Hr. apply list_elem_of_filter in Hr as [N Hr]. by exists r.
Qed.
Lemma embedded_row db r : wf db -> r ∈ meta db -> all_embedded_hashes db !! m_id r = Some (m_embedded r).
Proof. intros W Hr. apply (fold_insert_lookup m_id m_embedded); [rewrite scan_rows_perm; apply W|by rewrite scan_rows_perm]. Qed.
Lemma known_of_row x db path h : known_checksums x = ∅ -> known_of x db !! path = Some h ->
  force_full_run x = false /\ exists r, r ∈ meta db /\ m_path r = path /\ m_hash r = h /\ h <> [].
Proof.
  intros Hx. unfold known_of. rewrite Hx. destruct (force_full_run x); cbn [negb andb]; [by rewrite lookup_empty|].
  destruct (bool_decide _ && _ && _); [|by rewrite lookup_empty]. intros H. split; [done|by apply known_row].
Qed.
(** The row that a matching checksum is about is the row of the file. *)
Lemma known_claim db path bytes content r : wf db -> r ∈ meta db -> m_path r = path -> m_hash r = checksum_of bytes -> m_hash r <> [] ->
  from_utf8 bytes = Ok content -> (derive_note_identity clock content (file_stem path)).1.1 = m_id r.
Proof.
  intros W Hr Hp Hh Hn Hc. destruct (wf_row db W r Hr Hn) as (c & b & t & Hb & Ht & <-). rewrite Hh in Hb. apply checksum_inj in Hb as ->.
  rewrite Hc in Ht. injection Ht as <-. rewrite Hp. by rewrite (derive_clock clock c).
Qed.

Lemma on_report_db f s : r_db (on_report f s) = r_db s.
Proof. done. Qed.
(** The rest is untouched, and the row of the file is as good as before. *)
Definition good_step (path : text) (s s' : run) : Prop :=
  wf (r_db s') /\ forall r, r ∈ meta (r_db s') -> claim path <> Some (m_id r) -> r ∈ meta (r_db s).
Lemma good_same path s s' : wf (r_db s) -> r_db s' = r_db s -> good_step path s s'.
Proof. intros W E. unfold good_step. rewrite E. by split. Qed.

Context (x : Reindexer) (db0 : index_db).
Context (W0 : wf db0) (Hknown : known_checksums x = ∅).
Context (Hload : embed_on x = true -> fails LoadEmbedded = false).

Lemma refresh_good path bytes s : read_bytes path = Ok bytes -> embed_on x = true -> db_client x = true -> wf (r_db s) ->
  (forall id, claim path = Some id -> forall r, r ∈ meta (r_db s) -> m_id r = id -> r ∈ meta db0) ->
  known_of x db0 !! path = Some (checksum_of bytes) ->
  good_step path s (refresh_embedding embed clock x path (checksum_of bytes) (embedded_of x db0) s).2.
Proof.
  intros RB He Hc W Hrows Hk. destruct (known_of_row _ _ _ _ Hknown Hk) as (Hf & r0 & Hr0 & Hp & Hh & Hn).
  unfold refresh_embedding, read_to_string. rewrite Hc, RB. cbn [negb rbind]. destruct (from_utf8 bytes) as [content|e] eqn:FU; [|by apply good_same].
  pose proof (known_claim db0 path bytes content r0 W0 Hr0 Hp Hh ltac:(congruence) FU) as Hid.
  assert (claim path = Some (m_id r0)) as Hclaim by (unfold claim; by rewrite RB, FU, Hid).
  destruct (derive_note_identity clock content (file_stem path)) as [[id body] tags] eqn:D. cbn [fst] in Hid. subst id.
  assert (embedded_of x db0 !! m_id r0 = Some (m_embedded r0)) as HE.
  { unfold embedded_of. rewrite He, Hf, Hc, Hload by done. cbn. by apply embedded_row. }
  rewrite HE. case_bool_decide as HB; [by apply good_same|].
  pose proof (store_keeps bytes content (file_stem path) (m_id r0) path s W FU) as HS. rewrite D in HS. cbn [fst snd] in HS.
  destruct HS as [HS1 HS2].
  { intros r Hr Hid. assert (r = r0) as ->.
    { apply (NoDup_map_elem m_id (meta db0)); [apply W0|by apply (Hrows (m_id r0))|done|done]. }
    split; [|done]. destruct (decide (m_embedded r0 = [])) as [|N]; [done|]. destruct (wf_fresh db0 W0 r0 Hr0 N) as [E _]. congruence. }
  destruct (store_embedding _ _ _ _ _ _) as [b s']. cbn [snd] in *. split; [done|].
  intros r Hr Hne. apply HS2; [done|]. intros E. apply Hne. by rewrite Hclaim, E.
Qed.

Lemma markdown_nonempty path : is_markdown path = true -> path <> [].
Proof. by intros H ->. Qed.
Lemma process_good path bytes s : read_bytes path = Ok bytes -> is_markdown path = true -> wf (r_db s) ->
  good_step path s (process_file embed clock now x path (checksum_of bytes) s).2.
Proof.
  intros RB Hm W. unfold process_file, read_to_string. rewrite RB. cbn [rbind]. destruct (from_utf8 bytes) as [content|e] eqn:FU; [|by apply good_same].
  destruct (derive_note_identity clock content (file_stem path)) as [[id body] tags] eqn:D.
  assert (claim path = Some id) as Hclaim by (unfold claim; by rewrite RB, FU, D).
  destruct (db_client x); [|by destruct (embed_on x); apply good_same].
  set (q := {| i_id := id |}). assert (content_hash q = checksum_of bytes) as Hq.
  { unfold content_hash, q. cbn [i_file_path]. destruct path; [done|]. by rewrite RB. }
  pose proof (index_keeps q (r_db s)) as HI1. rewrite Hq in HI1.
  assert (names_bytes (checksum_of bytes) (i_id q) (i_file_path q)) as Hn by (exists clock, bytes, content; split_and!; [done|done|]; cbn [q i_file_path i_id]; by rewrite D).
  specialize (HI1 Hn W). destruct (index_note now q (r_db s)) as [ok db'] eqn:EI. destruct HI1 as (W1 & K1 & R1).
  assert (forall r, r ∈ meta db' -> claim path <> Some (m_id r) -> r ∈ meta (r_db s)) as K1'.
  { intros r Hr Hne. apply K1; [done|]. intros E. apply Hne. by rewrite Hclaim, E. }
  destruct ok; [|by split]. destruct (embed_on x); [|by split]. cbn [snd].
  pose proof (store_keeps bytes content (file_stem path) id path (with_db db' s) W1 FU) as HS. rewrite D in HS. cbn [fst snd] in HS.
  destruct HS as [HS1 HS2].
  { intros r Hr Hid. rewrite (R1 eq_refl r Hr Hid). split; [done|]. cbn. by rewrite Hq. }
  split; [done|]. intros r Hr Hne. apply K1'; [|done]. apply HS2; [done|]. intros E. apply Hne. by rewrite Hclaim, E.
Qed.

Lemma step_good path s : is_markdown path = true -> wf (r_db s) ->
  (forall id, claim path = Some id -> forall r, r ∈ meta (r_db s) -> m_id r = id -> r ∈ meta db0) ->
  good_step path s (step_file embed clock now x (known_of x db0) (embedded_of x db0) s path).
Proof.
  intros Hm W Hrows. unfold step_file. destruct (read_bytes path) as [bytes|e] eqn:RB; [|by apply good_same].
  case_bool_decide as Hk.
  - destruct (negb (embed_on x) || negb (db_client x)) eqn:B; [by apply good_same|].
    apply orb_false_iff in B as [He%negb_false_iff Hc%negb_false_iff].
    pose proof (refresh_good path bytes s RB He Hc W Hrows Hk) as G.
    destruct (refresh_embedding _ _ _ _ _ _ _) as [[[]|e] s']; done.
  - pose proof (process_good path bytes s RB Hm W) as G. destruct (process_file _ _ _ _ _ _ _) as [[|e] s']; done.
Qed.

Lemma steps_wf paths s : Forall (fun p => is_markdown p = true) paths -> NoDup (omap claim paths) -> wf (r_db s) ->
  (forall path id, path ∈ paths -> claim path = Some id -> forall r, r ∈ meta (r_db s) -> m_id r = id -> r ∈ meta db0) ->
  wf (r_db (foldl (step_file embed clock now x (known_of x db0) (embedded_of x db0)) s paths)).
Proof.
  revert s. induction paths as [|p paths IH]; intros s Hm Hd W Hrows; cbn [foldl]; [done|]. apply Forall_cons in Hm as [Hp Hm].
  destruct (step_good p s Hp W (fun id => Hrows p id ltac:(by left))) as [W' K].
  assert (NoDup (omap claim paths)) as Hd' by (cbn in Hd; destruct (claim p); [by apply NoDup_cons in Hd as [_ Hd]|done]).
  apply IH; [done|done|done|]. intros path id Hpath Hid r Hr E. apply (Hrows path id); [by right|done| |done]. apply K; [done|].
  intros Hpid. rewrite E in Hpid. cbn in Hd. rewrite Hpid in Hd. apply NoDup_cons in Hd as [Hd _]. apply Hd, list_elem_of_omap. by exists path.
Qed.

Context (descriptor : option (text * text)) (is_dir : bool) (walk : (text -> bool) -> list (result walk_entry text)) (root : text).
Lemma md_files_markdown : Forall (fun p => is_markdown p = true) (md_files walk root).
Proof.
  apply Forall_forall. intros p ([w|] & _ & H)%list_elem_of_omap; [|done]. destruct (e_file w); cbn in H; [|done].
  destruct (is_markdown (e_path w)) eqn:E; [|done]. by injection H as <-.
Qed.
Lemma gate_meta db db' : engine_gate descriptor x db = Ok db' -> meta db' = meta db /\ vectors db' = vectors db /\ (wf db -> wf db').
Proof.
  unfold engine_gate. destruct (_ || _); [by intros [= <-]|]. destruct (fingerprint_gate _ _); try done; try by intros [= <-].
  destruct (fails WriteEngine); intros [= <-]; split_and!; try done. intros [W1 W2 W3 W4]. by constructor.
Qed.
Lemma reindex_wf router : NoDup (omap claim (md_files walk root)) -> wf (reindex embed clock now descriptor is_dir walk root x db0 router).1.2.
Proof.
  intros Hd. unfold reindex. destruct is_dir; cbn [negb]; [|done]. destruct (engine_gate descriptor x db0) as [db'|e] eqn:G; [|done].
  destruct (gate_meta _ _ G) as (E & _ & HW). cbn [fst snd]. apply steps_wf; [apply md_files_markdown|done|by apply HW|].
  cbn [r_db]. rewrite E. done.
Qed.
End run.

(** ** Histories *)

Definition empty_db : index_db := {| meta := []; fts := []; vectors := []; engine := None |}.
(** The databases that the operations reach: runs at any moment, whose faults may be
    any but the reading of the hashes of the vectors, over files with distinct ids;
    a note indexed by itself; the index of words emptied, and the vectors dropped. *)
Inductive history : index_db -> Prop :=
  | history_empty : history empty_db
  | history_reindex db (HM : Moment) clock now descriptor is_dir walk root x router :
      history db -> known_checksums x = ∅ -> (embed_on x = true -> fails LoadEmbedded = false) ->
      NoDup (omap (claim clock) (md_files walk root)) ->
      history (reindex embed clock now descriptor is_dir walk root x db router).1.2
  | history_index db (HM : Moment) now q : history db -> names_bytes (content_hash q) (i_id q) (i_file_path q) ->
      history (index_note now q db).2
  | history_rebuild db : history db -> history (rebuild_fts_indexes db)
  | history_reset db : history db -> history (reset_embedding_tables db).
Lemma history_wf db : history db -> wf db.
Proof.
  induction 1 as [|db HM clock now descriptor is_dir walk root x router _ IH Hx Hl Hd|db HM now q _ IH Hq|db _ [W1 W2 W3 W4]|db _ [W1 W2 W3 W4]].
  - split; cbn; [by apply NoDup_nil_2|by intros r ?%elem_of_nil|by intros r ?%elem_of_nil|by apply NoDup_nil_2].
  - by apply reindex_wf.
  - pose proof (index_keeps now q db Hq IH) as H. destruct (index_note now q db) as [ok db']. apply H.
  - by constructor.
  - split; cbn [meta vectors reset_embedding_tables set_engine set_vectors set_meta].
    + rewrite map_map. done.
    + by intros r (r0 & -> & _)%list_elem_of_fmap.
    + by intros r (r0 & -> & _)%list_elem_of_fmap.
    + by apply NoDup_nil_2.
Qed.
End fresh.

(** C7. After any history of runs over files with distinct ids, with no checksums given
    by the caller, in which anything may have failed but the reading of the marks of
    embedded rows (with which the claim is false: [fallback_is_claimed_fresh]), a row whose vector is
    claimed to be fresh has one vector, and providers made it (none of its chunks was
    a hash) of the body of the bytes whose checksum the row has. *)
Theorem vectors_are_fresh `{Codec} `{!Inj eq eq sha256} {T} `{Chrono T} `{Lowercase} embed db r :
  history embed db -> r ∈ meta db -> m_embedded r <> [] ->
  m_embedded r = m_hash r /\ exists v, vector_of embed (m_embedded r) v /\ forall w, (m_id r, w) ∈ vectors db <-> w = v.
Proof.
  intros W%history_wf Hr He. destruct (wf_fresh _ _ W r Hr He) as (E & v & Hv & Ho). split; [done|]. exists v. split; [done|].
  intros w. split; [|by intros ->]. intros Hw.
  by injection (NoDup_map_elem fst (vectors db) (m_id r, w) (m_id r, v) (wf_vectors _ _ W) Hw Hv eq_refl) as ->.
Qed.
