(* ===== verification/IndexSettles.v ===== *)
(** * A run over healthy files leaves nothing to do

    When nothing fails and every file can be read and embedded, the run after a run
    finds every file unchanged and writes nothing. *)

From S2P Require Import Prelude Text Sanitize Sandbox FileTools Secrets Notes Embeddings Index IndexProps.
From Stdlib Require Import Lia SpecFloat.
Local Open Scope list_scope.

Lemma fold_insert_same {A} (f g : A -> text) (l : list A) (m : gmap text text) k v : (exists r, r ∈ l /\ f r = k) ->
  (forall r, r ∈ l -> f r = k -> g r = v) -> foldl (fun m r => <[f r := g r]> m) m l !! k = Some v.
Proof.
  induction l as [|x l IH] using rev_ind; intros (r & Hr & E) Hall; [by apply elem_of_nil in Hr|]. rewrite foldl_snoc.
  destruct (decide (f x = k)) as [<-|N].
  - rewrite lookup_insert_eq. f_equal. apply Hall; [|done]. set_solver.
  - rewrite lookup_insert_ne by done. apply IH.
    + apply elem_of_app in Hr as [Hr| ->%list_elem_of_singleton]; [by exists r|done].
    + intros y Hy. apply Hall. set_solver.
Qed.

Section settles.
Context {HK : Codec} {HI : Inj eq eq sha256} {T : Type} {HC : Chrono T} {HL : Lowercase}.
Context (embed : nat -> nat -> text -> option (list f32)) {HM : Moment} (clock : T) (now : text).
Context (faultless : forall st, fails st = false).
Let client := with_client.

(** A router with providers, none of them dead. *)
Definition alive (router : embed_router) : Prop := exists n, dead router = replicate (S n) false.
(** A file that can be read, with a body that live providers embed and survive. *)
Definition healthy (path : text) : Prop := exists bytes content,
  read_bytes path = Ok bytes /\ from_utf8 bytes = Ok content /\ checksum_of bytes <> [] /\
  forall router, alive router -> exists v router',
    compute_embeddings_for_text_tagged embed (derive_note_identity clock content (file_stem path)).1.2 router = ((v, false), router')
    /\ not_zero v = true /\ alive router'.
(** The row of the file is as the file, and so is the vector. *)
Definition up_to_date (db : index_db) (path : text) : Prop := exists r bytes,
  r ∈ meta db /\ m_path r = path /\ read_bytes path = Ok bytes /\ m_hash r = checksum_of bytes /\ m_embedded r = checksum_of bytes
  /\ claim clock path = Some (m_id r) /\ m_rowid r = rowid_of (m_id r).
(** No other row is about a path. *)
Definition own_path (db : index_db) (path : text) : Prop := forall r, r ∈ meta db -> m_path r = path -> claim clock path = Some (m_id r).

(** ** A file that is up to date *)

Lemma known_up_to_date db path bytes : wf embed db -> own_path db path -> up_to_date db path -> read_bytes path = Ok bytes -> checksum_of bytes <> [] ->
  known_of client db !! path = Some (checksum_of bytes).
Proof.
  intros W Hown (r & b & Hr & Hp & Hb & Hh & _ & Hid & _) RB Hn. rewrite RB in Hb. injection Hb as <-.
  unfold known_of. rewrite faultless. cbn. apply (fold_insert_same m_path m_hash).
  - exists r. split; [|done]. rewrite scan_rows_perm. apply list_elem_of_filter. by rewrite Hh.
  - intros y Hy Ep. rewrite scan_rows_perm in Hy. apply list_elem_of_filter in Hy as [_ Hy].
    assert (y = r) as ->; [|done]. apply (NoDup_map_elem m_id (meta db)); [apply W|done|done|].
    specialize (Hown y Hy Ep). congruence.
Qed.
Lemma up_to_date_step db s path : healthy path -> wf embed db -> own_path db path -> up_to_date db path ->
  step_file embed clock now client (known_of client db) (embedded_of client db) s path = on_report (bump Unchanged) s.
Proof.
  intros (bytes & content & RB & FU & Hn & _) W Hown Hup. unfold step_file. rewrite RB.
  rewrite bool_decide_true by (by apply known_up_to_date). cbn [client with_client embed_on db_client negb orb].
  unfold refresh_embedding, read_to_string. cbn [client with_client embed_on db_client negb]. rewrite RB. cbn [rbind]. rewrite FU.
  destruct Hup as (r & b & Hr & Hp & Hb & Hh & He & Hid & _). rewrite RB in Hb. injection Hb as <-.
  unfold claim in Hid. rewrite RB, FU in Hid. destruct (derive_note_identity clock content (file_stem path)) as [[id body] tags].
  injection Hid as ->. rewrite bool_decide_true; [done|]. unfold embedded_of. rewrite faultless. cbn.
  rewrite <- He. by apply (embedded_row embed).
Qed.

(** ** A file that may not be *)

Lemma mark_all id h db : mark_embedded id h db = (true, set_meta (map (fun r => if bool_decide (m_id r = id) then with_embedded h r else r) (meta db)) db).
Proof. unfold mark_embedded. by rewrite faultless. Qed.
Lemma store_healthy id body path h s v router' : length v = SYSTEM_EMBEDDING_DIM -> not_zero v = true ->
  compute_embeddings_for_text_tagged embed body (r_router s) = ((v, false), router') ->
  let '(b, s') := store_embedding embed id body path h s in
  b = true /\ r_router s' = router' /\ meta (r_db s') = map (fun r => if bool_decide (m_id r = id) then with_embedded h r else r) (meta (r_db s)).
Proof.
  intros Hlen Hz Hv. unfold store_embedding. rewrite Hv.
  rewrite Hz, bool_decide_false by by intros ->. cbn [negb andb]. unfold insert_embedding.
  rewrite bool_decide_false by by intros ->. rewrite faultless, Hlen, Nat.eqb_refl. cbn [negb orb]. rewrite mark_all. done.
Qed.
Lemma computed_length body router v d router' : compute_embeddings_for_text_tagged embed body router = ((v, d), router') -> length v = SYSTEM_EMBEDDING_DIM.
Proof. intros H. apply (tagged_length embed body router v d). by rewrite H. Qed.

(** What a step does to the rows: those of other ids stay, and the file is up to
    date. *)
Definition settling (id path : text) (db db' : index_db) : Prop :=
  (forall r, r ∈ meta db -> m_id r <> id -> m_rowid r <> rowid_of id -> r ∈ meta db')
  /\ up_to_date db' path /\ (forall r, r ∈ meta db' -> m_id r = id /\ m_path r = path /\ m_rowid r = rowid_of id \/ r ∈ meta db /\ m_id r <> id).

Lemma decide_id (r : MetaRow) id : m_id r = id \/ m_id r <> id.
Proof. destruct (decide (m_id r = id)); auto. Qed.
(** The rows after the vector of [id] is marked: its own row, with the hash. *)
Lemma settling_mark id path bytes db db1 db' : read_bytes path = Ok bytes -> claim clock path = Some id ->
  meta db' = map (fun r => if bool_decide (m_id r = id) then with_embedded (checksum_of bytes) r else r) (meta db1) ->
  (forall r, r ∈ meta db -> m_id r <> id -> m_rowid r <> rowid_of id -> r ∈ meta db1) ->
  (exists r, r ∈ meta db1 /\ m_id r = id /\ m_path r = path /\ m_hash r = checksum_of bytes /\ m_rowid r = rowid_of id) ->
  (forall r, r ∈ meta db1 -> m_id r = id /\ m_path r = path /\ m_rowid r = rowid_of id \/ r ∈ meta db /\ m_id r <> id) -> settling id path db db'.
Proof.
  intros RB Hc Hm Hkeep (r0 & Hr0 & H1 & H2 & H3 & H4) Hall. unfold settling. rewrite Hm. split_and!.
  - intros r Hr Hid Hrow. apply list_elem_of_fmap. exists r. split; [|by apply Hkeep]. by rewrite bool_decide_false.
  - exists (with_embedded (checksum_of bytes) r0), bytes. rewrite Hm. split_and!; cbn [with_embedded m_path m_hash m_embedded m_id m_rowid]; try congruence.
    apply list_elem_of_fmap. exists r0. split; [|done]. by rewrite bool_decide_true.
  - intros r (r1 & -> & Hr1)%list_elem_of_fmap. case_bool_decide as Hid; [left|]; cbn [with_embedded m_id m_path m_rowid].
    + by destruct (Hall r1 Hr1) as [?|[_ ?]].
    + right. by destruct (Hall r1 Hr1) as [[? _]|[? _]].
Qed.

Lemma settle_step db0 s path id : wf embed db0 -> own_path db0 path -> (forall r, r ∈ meta db0 -> m_rowid r = rowid_of (m_id r)) ->
  healthy path -> is_markdown path = true -> claim clock path = Some id ->
  (forall r, m_id r = id -> r ∈ meta (r_db s) <-> r ∈ meta db0) -> alive (r_router s) ->
  let s' := step_file embed clock now client (known_of client db0) (embedded_of client db0) s path in
  settling id path (r_db s) (r_db s') /\ alive (r_router s').
Proof.
  intros W0 Hown Hrowid (bytes & content & RB & FU & Hn & Hemb) Hm Hc Hsame Ha. unfold step_file. rewrite RB.
  assert ((derive_note_identity clock content (file_stem path)).1.1 = id) as Hid by (unfold claim in Hc; rewrite RB, FU in Hc; by injection Hc).
  assert (read_to_string path = Ok content) as RS by (unfold read_to_string; by rewrite RB).
  destruct (derive_note_identity clock content (file_stem path)) as [[id' body] tags] eqn:D. cbn [fst snd] in Hid, Hemb. subst id'.
  case_bool_decide as Hk; cbn [client with_client embed_on db_client negb orb].
  - destruct (known_of_row client db0 path _ eq_refl Hk) as (_ & r0 & Hr0 & Hp & Hh & _).
    assert (m_id r0 = id) as Hr0id by (pose proof (Hown r0 Hr0 Hp) as E; rewrite Hc in E; by injection E).
    assert (r0 ∈ meta (r_db s)) as Hr0s by by apply Hsame.
    assert (forall r, r ∈ meta (r_db s) -> m_id r = id /\ m_path r = path /\ m_rowid r = rowid_of id \/ r ∈ meta (r_db s) /\ m_id r <> id) as Hall.
    { intros r Hr. destruct (decide_id r id) as [E|E]; [left|by right]. split; [done|].
      assert (r = r0) as ->; [|split; [done|]; rewrite <- Hr0id; by apply Hrowid].
      apply (NoDup_map_elem m_id (meta db0)); [apply W0|by apply Hsame|done|congruence]. }
    unfold refresh_embedding. rewrite RS, D. cbn [client with_client db_client negb].
    assert (embedded_of client db0 !! id = Some (m_embedded r0)) as ->.
    { unfold embedded_of. rewrite faultless. cbn. rewrite <- Hr0id. by apply (embedded_row embed). }
    case_bool_decide as He.
    + cbn [r_db r_router on_report]. split; [|done]. split_and!; [done| |done]. exists r0, bytes. injection He as He. split_and!; try done; [by rewrite Hr0id|by apply Hrowid].
    + destruct (Hemb (r_router s) Ha) as (v & router' & Hv & Hz & Ha').
      pose proof (store_healthy id body path (checksum_of bytes) s v router' (computed_length _ _ _ _ _ Hv) Hz Hv) as HS.
      destruct (store_embedding _ _ _ _ _ _) as [b s']. destruct HS as (-> & HR & HS). cbn [r_db r_router on_report]. split; [|by rewrite HR].
      apply (settling_mark id path bytes (r_db s) (r_db s)); try done. exists r0. split_and!; try done. rewrite Hrowid by done. by rewrite Hr0id.
  - unfold process_file. rewrite RS, D. cbn [client with_client db_client embed_on]. unfold index_note. rewrite !faultless. cbn [i_id].
    set (q := {| i_id := id |}). set (db1 := set_fts _ _).
    assert (content_hash q = checksum_of bytes) as Hq.
    { unfold content_hash, q. cbn [i_file_path]. destruct path; [done|]. by rewrite RB. }
    destruct (Hemb (r_router s) Ha) as (v & router' & Hv & Hz & Ha').
    pose proof (store_healthy id body path (checksum_of bytes) (with_db db1 s) v router' (computed_length _ _ _ _ _ Hv) Hz Hv) as HS.
    destruct (store_embedding _ _ _ _ _ _) as [b s']. destruct HS as (-> & HR & HS). cbn [r_db r_router on_report snd] in *.
    split; [|by rewrite HR].
    assert (meta db1 = insert_meta (meta_row now q) (meta (r_db s))) as Hm1 by done.
    apply (settling_mark id path bytes (r_db s) db1); try done; rewrite Hm1.
    + intros r Hr H1 H2. apply insert_meta_elem. by left.
    + exists (meta_row now q). split_and!; try done. apply insert_meta_elem. by right.
    + intros r [(Hr & _ & Hne)| ->]%insert_meta_elem; [by right|by left].
Qed.

(** ** The whole run *)

Lemma store_engine id body path h s : engine (r_db (store_embedding embed id body path h s).2) = engine (r_db s).
Proof.
  unfold store_embedding, insert_embedding. destruct (compute_embeddings_for_text_tagged _ _ _) as [[v d] router].
  destruct (_ && _); [|done]. case_bool_decide; [done|]. destruct (_ || _); [done|]. destruct d; [done|].
  unfold mark_embedded. by destruct (fails _).
Qed.
Lemma step_engine x known embedded s path : engine (r_db (step_file embed clock now x known embedded s path)) = engine (r_db s).
Proof.
  unfold step_file. destruct (read_bytes path) as [bytes|]; [|done]. case_bool_decide.
  - destruct (_ || _); [done|]. unfold refresh_embedding. destruct (negb (db_client x)); [by destruct (embed_on x)|].
    destruct (read_to_string path) as [content|]; [|done]. destruct (derive_note_identity _ _ _) as [[id body] tags].
    case_bool_decide; [done|]. pose proof (store_engine id body path (checksum_of bytes) s) as HE.
    by destruct (store_embedding _ _ _ _ _ _) as [[] s'].
  - unfold process_file. destruct (read_to_string path) as [content|]; [|done]. destruct (derive_note_identity _ _ _) as [[id body] tags].
    destruct (db_client x); [|by destruct (embed_on x)]. unfold index_note. destruct (fails _); [done|]. destruct (fails _); [done|].
    destruct (embed_on x); [|done]. etransitivity; [apply store_engine|done].
Qed.
Lemma steps_engine x known embedded paths s : engine (r_db (foldl (step_file embed clock now x known embedded) s paths)) = engine (r_db s).
Proof. revert s. induction paths as [|p paths IH]; intros s; cbn [foldl]; [done|]. by rewrite IH, step_engine. Qed.

Section loop.
Context (db0 : index_db) (files : list text).
Context (W0 : wf embed db0) (Hmd : Forall (fun p => is_markdown p = true) files) (Hhealthy : Forall healthy files).
Context (Hown : Forall (own_path db0) files) (Hdistinct : NoDup (omap (claim clock) files)).
Context (Hrowid : forall r, r ∈ meta db0 -> m_rowid r = rowid_of (m_id r)).
Context (Hinj : forall a b, a ∈ map m_id (meta db0) ++ omap (claim clock) files -> b ∈ omap (claim clock) files -> rowid_of a = rowid_of b -> a = b).

Lemma healthy_claim path : healthy path -> is_Some (claim clock path).
Proof. intros (b & c & RB & FU & _). unfold claim. rewrite RB, FU. by eexists. Qed.
Lemma claimed path id : path ∈ files -> claim clock path = Some id -> id ∈ omap (claim clock) files.
Proof. intros H1 H2. apply list_elem_of_omap. by exists path. Qed.
(** After some of the files: those are up to date, the rows of the others are as at
    the start, and every row is one of the start or of a file. *)
Record midway (done rest : list text) (db : index_db) : Prop := {
  mid_wf : wf embed db;
  mid_done : forall path, path ∈ done -> up_to_date db path;
  mid_rest : forall path id, path ∈ rest -> claim clock path = Some id -> forall r, m_id r = id -> r ∈ meta db <-> r ∈ meta db0;
  mid_rows : forall r, r ∈ meta db ->
    r ∈ meta db0 \/ m_path r ∈ done /\ claim clock (m_path r) = Some (m_id r) /\ m_rowid r = rowid_of (m_id r);
}.
Lemma midway_step done path rest s : files = done ++ path :: rest -> midway done (path :: rest) (r_db s) -> alive (r_router s) ->
  let s' := step_file embed clock now client (known_of client db0) (embedded_of client db0) s path in
  midway (done ++ [path]) rest (r_db s') /\ alive (r_router s').
Proof.
  intros Hf [M1 M2 M3 M4] Ha. assert (path ∈ files) as Hp by set_solver. rewrite Forall_forall in Hmd, Hhealthy, Hown.
  destruct (healthy_claim path (Hhealthy path Hp)) as [id Hc].
  assert (forall p i, p ∈ done ++ rest -> claim clock p = Some i -> i <> id) as Hother.
  { intros p i Hpin Hpi ->. rewrite Hf, omap_app in Hdistinct. cbn in Hdistinct. rewrite Hc in Hdistinct.
    apply NoDup_app in Hdistinct as (_ & HD & HD2). apply elem_of_app in Hpin as [Hpin|Hpin].
    - apply (HD id); [apply list_elem_of_omap; by exists p|by left].
    - apply NoDup_cons in HD2 as [HD2 _]. apply HD2, list_elem_of_omap. by exists p. }
  destruct (settle_step db0 s path id W0 (Hown path Hp) Hrowid (Hhealthy path Hp) (Hmd path Hp) Hc (M3 path id ltac:(by left) Hc) Ha) as [(S1 & S2 & S3) Ha'].
  assert (forall r, r ∈ meta (r_db s) -> m_rowid r = rowid_of (m_id r) /\ m_id r ∈ map m_id (meta db0) ++ omap (claim clock) files) as Hids.
  { intros r [Hr|(Hd & Hr & E)]%M4.
    - split; [by apply Hrowid|]. apply elem_of_app. left. by apply list_elem_of_fmap_2.
    - split; [done|]. apply elem_of_app. right. apply (claimed (m_path r)); [set_solver|done]. }
  assert (forall r, r ∈ meta (r_db s) -> m_id r <> id -> m_rowid r <> rowid_of id) as Hrow.
  { intros r Hr Hne E. destruct (Hids r Hr) as [Er Hin]. apply Hne, Hinj; [done|by apply (claimed path)|congruence]. }
  split; [|done]. split.
  - apply (step_good embed clock now client db0); try done; [by apply Hmd|]. intros i Hi r Hr Er. apply (M3 path i); [by left|done..].
  - intros p [Hd| ->%list_elem_of_singleton]%elem_of_app; [|done]. destruct (M2 p Hd) as (r & b & U1 & U2 & U3 & U4 & U5 & U6 & U7).
    exists r, b. split_and!; try done. apply S1; [done| |].
    + apply (Hother p); [set_solver|done].
    + apply Hrow; [done|]. apply (Hother p); [set_solver|done].
  - intros p i Hpin Hpi r Hri. rewrite <- (M3 p i) by (try done; by right).
    assert (m_id r <> id) as Hne by (rewrite Hri; apply (Hother p); [set_solver|done]). split.
    + intros [[? _]|[? _]]%S3; done.
    + intros Hr. apply S1; [done|done|by apply Hrow].
  - intros r [(E1 & E2 & E3)|[Hr _]]%S3.
    + right. rewrite E1, E2. split_and!; [set_solver|done|done].
    + destruct (M4 r Hr) as [?|(? & ? & ?)]; [by left|right; split_and!; [set_solver|done|done]].
Qed.
Lemma midway_run s done rest : files = done ++ rest -> midway done rest (r_db s) -> alive (r_router s) ->
  midway files [] (r_db (foldl (step_file embed clock now client (known_of client db0) (embedded_of client db0)) s rest)).
Proof.
  revert s done. induction rest as [|p rest IH]; intros s done Hf M Ha; cbn [foldl]; [by rewrite Hf, app_nil_r|].
  destruct (midway_step done p rest s Hf M Ha) as [M' Ha']. apply (IH _ (done ++ [p])); [by rewrite <- app_assoc|done|done].
Qed.
End loop.
End settles.

(** ** The next run *)

Section next.
Context {HK : Codec} {HI : Inj eq eq sha256} {T : Type} {HC : Chrono T} {HL : Lowercase}.
Context (embed : nat -> nat -> text -> option (list f32)) {HM : Moment}.

Lemma claim_clock (c1 c2 : T) path : claim c1 path = claim c2 path.
Proof. unfold claim. destruct (read_bytes path) as [b|]; [|done]. destruct (from_utf8 b); [|done]. by rewrite (derive_clock c1 c2). Qed.
Lemma healthy_clock (c1 c2 : T) path : healthy embed c1 path -> healthy embed c2 path.
Proof.
  intros (b & c & H1 & H2 & H3 & H4). exists b, c. split_and!; [done..|]. intros router Ha. destruct (H4 router Ha) as (v & r' & Hv).
  exists v, r'. by rewrite (derive_clock c2 c1).
Qed.
Lemma up_to_date_clock (c1 c2 : T) db path : up_to_date c1 db path -> up_to_date c2 db path.
Proof. intros (r & b & H1 & H2 & H3 & H4 & H5 & H6 & H7). exists r, b. by rewrite (claim_clock c2 c1). Qed.

Definition counts (n : nat) (r r' : ReindexReport) : Prop :=
  files_scanned r' = files_scanned r /\ files_unchanged r' = files_unchanged r + n /\ files_updated r' = files_updated r
  /\ files_reembedded r' = files_reembedded r /\ errors r' = errors r.
Lemma idle_run (step : run -> text -> run) s files : (forall s p, p ∈ files -> step s p = on_report (bump Unchanged) s) ->
  let s' := foldl step s files in r_db s' = r_db s /\ r_router s' = r_router s /\ counts (length files) (r_report s) (r_report s').
Proof.
  unfold counts. revert s. induction files as [|p files IH]; intros s H; cbn [foldl length]; [split_and!; try done; lia|].
  rewrite H by by left. destruct (IH (on_report (bump Unchanged) s)) as (H1 & H2 & H3 & H4 & H5 & H6 & H7); [intros; apply H; by right|].
  split_and!; try done. rewrite H4. cbn. lia.
Qed.
Lemma walk_report r l : files_unchanged (foldl (fun r m => bump (Error m) r) r l) = files_unchanged r
  /\ files_updated (foldl (fun r m => bump (Error m) r) r l) = files_updated r
  /\ files_reembedded (foldl (fun r m => bump (Error m) r) r l) = files_reembedded r
  /\ errors (foldl (fun r m => bump (Error m) r) r l) = errors r ++ l.
Proof.
  revert r. induction l as [|m l IH]; intros r; cbn [foldl]; [by rewrite app_nil_r|].
  destruct (IH (bump (Error m) r)) as (-> & -> & -> & ->). split_and!; try done. cbn. by rewrite <- app_assoc.
Qed.
Lemma gate_again x db db1 db' descriptor : (forall st, fails st = false) -> engine_gate descriptor x db = Ok db' -> engine db1 = engine db' ->
  engine_gate descriptor x db1 = Ok db1.
Proof.
  intros Hf. unfold engine_gate. rewrite !Hf. destruct (negb (db_client x)); cbn [orb]; [done|].
  destruct (fingerprint_gate (engine db) _) eqn:G; try done.
  - intros [= <-] E. cbn [engine set_engine] in E. rewrite E. unfold fingerprint_gate in *.
    destruct (engine db), (active_engine descriptor); try done; [by case_bool_decide|]. by rewrite bool_decide_true.
  - intros [= <-] ->. by rewrite G.
  - intros [= <-] ->. by rewrite G.
Qed.

(** C17. When nothing fails, every file can be read and has a body that live providers
    embed, so no empty one, the files have distinct ids, the row of a file's path, if
    there is one, has the file's id, and no two ids share a row number, the run after
    a run finds every file unchanged: it writes nothing, calls no provider, and has no
    error but those of the walk. *)
Theorem next_run_is_idle (clock1 clock2 : T) now1 now2 descriptor walk root db router rep1 db1 router1 :
  let files := md_files walk root in
  (forall st, fails st = false) -> wf embed db -> Forall (healthy embed clock1) files -> Forall (own_path clock1 db) files ->
  NoDup (omap (claim clock1) files) -> (forall r, r ∈ meta db -> m_rowid r = rowid_of (m_id r)) ->
  (forall a b, a ∈ map m_id (meta db) ++ omap (claim clock1) files -> b ∈ omap (claim clock1) files -> rowid_of a = rowid_of b -> a = b) -> alive router ->
  reindex embed clock1 now1 descriptor true walk root with_client db router = (Ok rep1, db1, router1) ->
  exists rep2, reindex embed clock2 now2 descriptor true walk root with_client db1 router1 = (Ok rep2, db1, router1)
  /\ files_scanned rep2 = length files /\ files_unchanged rep2 = length files /\ files_updated rep2 = 0 /\ files_reembedded rep2 = 0
  /\ errors rep2 = walk_errors walk root.
Proof.
  intros files Hf W Hh Ho Hd Hrow Hinj Ha. pose proof (md_files_markdown walk root) as Hmd.
  unfold reindex at 1. cbn [negb]. destruct (engine_gate descriptor with_client db) as [db'|e] eqn:G; [|done].
  destruct (gate_meta embed _ _ _ _ G) as (Em & _ & HW).
  set (s0 := {| r_db := db' |}). set (s1 := foldl _ s0 _). intros [= _ <- <-].
  assert (midway embed clock1 db files [] (r_db s1)) as [M1 M2 _ M4].
  { apply (midway_run embed clock1 now1 Hf db files) with (done := []); try done. split; cbn [r_db s0]; [by apply HW|set_solver| |].
    - intros p i _ _ r _. by rewrite Em.
    - intros r Hr. left. by rewrite <- Em. }
  assert (engine_gate descriptor with_client (r_db s1) = Ok (r_db s1)) as G1.
  { apply (gate_again _ db _ db'); try done. unfold s1. by rewrite steps_engine. }
  assert (Forall (own_path clock2 (r_db s1)) files) as Ho1.
  { apply Forall_forall. intros p Hp r Hr <-. rewrite Forall_forall in Ho. rewrite (claim_clock clock2 clock1).
    destruct (M4 r Hr) as [Hr0|(_ & Hc & _)]; [by apply (Ho (m_path r))|done]. }
  unfold reindex. cbn [negb]. rewrite G1. fold files. set (report := bump _ _).
  destruct (idle_run (step_file embed clock2 now2 with_client (known_of with_client (r_db s1)) (embedded_of with_client (r_db s1)))
    {| r_db := r_db s1; r_router := r_router s1; r_report := report |} files) as (E1 & E2 & E3 & E4 & E5 & E6 & E7).
  { intros s p Hp. rewrite Forall_forall in Hh, Ho1. apply (up_to_date_step embed clock2 now2 Hf); [|done|by apply Ho1|].
    - apply (healthy_clock clock1), Hh, Hp.
    - by apply (up_to_date_clock clock1), M2. }
  destruct (walk_report empty_report (walk_errors walk root)) as (R1 & R2 & R3 & R4).
  eexists. split_and!; [by rewrite E1, E2|by rewrite E3| | | |].
  - rewrite E4. exact (f_equal (fun n => n + length files) R1).
  - rewrite E5. exact R2.
  - rewrite E6. exact R3.
  - rewrite E7. exact R4.
Qed.
End next.

(** ** Runs of the index over a small vault

    The theorems of the index at concrete vaults, and what it does where they do not
    apply: a second statement that fails, hashes that cannot be read, an id that two
    files share, a body that becomes empty. *)

(** *** A machine *)

#[local] Instance codec : Codec := {| sha256 := id; from_utf8 := fun bytes => Ok (utf8_decode bytes) |}.
#[local] Instance clock : Chrono nat :=
  {| to_rfc3339 := decimal; parse_datetime := fun t => N.to_nat <$> parse_unsigned 32 t; file_stamp := decimal |}.
Definition find_file (files : list (string * text)) (path : text) : result (list N) text :=
  match List.find (fun f => bool_decide (utf8 f.1 = path)) files with Some f => Ok (bytes_of f.2) | None => Err (utf8 "not found") end.
Definition moment (files : list (string * text)) (bad : statement -> bool) : Moment.
Proof. refine {| read_bytes := find_file files; scan_rows := fun A l => l; fails := bad |}. done. Defined.
Definition none_fails (_ : statement) : bool := false.
Definition walk_of (files : list (string * text)) (pred : text -> bool) : list (result walk_entry text) :=
  map (fun f => Ok {| e_path := utf8 f.1; e_file := true |}) (filter (fun f => pred (utf8 f.1) = true) files).
(** A provider that answers, and one that does not. *)
Definition working (i n : nat) (t : text) : option (list f32) := Some [f32_of_N 1].
Definition silent (i n : nat) (t : text) : option (list f32) := None.

Definition page (id body : string) : text := utf8 "---" ++ [10%N] ++ utf8 "id: " ++ utf8 id ++ [10%N] ++ utf8 "---" ++ [10%N] ++ utf8 body.
Definition vault : list (string * text) := [("/v/a.md", page "a1" "alpha"); ("/v/b.md", utf8 "beta"); ("/v/iterations/a.md", page "a1" "old")]%string.
Definition go (embed : nat -> nat -> text -> option (list f32)) (files : list (string * text)) (bad : statement -> bool) (x : Reindexer) (db : index_db) (router : embed_router)
    : result ReindexReport (fingerprint * fingerprint) * index_db * embed_router :=
  reindex (HM := moment files bad) embed 7 (utf8 "now") None true (walk_of files) (utf8 "/v") x db router.
Definition hashes (db : index_db) : list (text * text * bool) := map (fun r => (m_id r, m_path r, bool_decide (m_embedded r = m_hash r))) (meta db).

Example both_are_indexed : let '(r, db, _) := go working vault none_fails with_client empty_db (with_providers 1) in
  hashes db = [(utf8 "a1", utf8 "/v/a.md", true); (utf8 "auto-b", utf8 "/v/b.md", true)] /\ length (vectors db) = 2.
Proof. by vm_compute. Qed.

(** *** The theorems at the vault *)

Definition first_db : index_db := (go working vault none_fails with_client empty_db (with_providers 1)).1.2.
Lemma vectors_are_fresh_witness : exists r, history working first_db /\ r ∈ meta first_db /\ m_embedded r <> [] /\
  m_embedded r = m_hash r /\ exists v, vector_of working (m_embedded r) v /\ forall w, (m_id r, w) ∈ vectors first_db <-> w = v.
Proof.
  assert (history working first_db) as H.
  { apply (history_reindex working empty_db (moment vault none_fails) 7); [apply history_empty|done|done|].
    apply (bool_decide_unpack _). by vm_compute. }
  assert (exists r, head (meta first_db) = Some r /\ m_embedded r <> []) as (r & Hr & He).
  { assert (match head (meta first_db) with Some r => negb (bool_decide (m_embedded r = [])) | None => false end = true) as E by by vm_compute.
    destruct (head (meta first_db)) as [r|]; [|done]. exists r. split; [done|]. intros N. by rewrite N in E. }
  assert (r ∈ meta first_db) as Hin by (destruct (meta first_db); [done|injection Hr as ->; by left]).
  assert (Inj eq eq (sha256 (Codec := codec))) as HI by by intros ??.
  exists r. split; [exact H|]. split; [exact Hin|]. split; [exact He|].
  exact (vectors_are_fresh working first_db r H Hin He).
Defined.

Definition first_run := go working vault none_fails with_client empty_db (with_providers 1).
Definition vault_files : list text := md_files (walk_of vault) (utf8 "/v").
(** A body of one word, whatever the router, as long as it has a live provider. *)
Lemma working_embeds (word : text) (router : embed_router) : chunk_content word 400 80 = [word] -> trim word <> [] -> alive router ->
  exists v router', compute_embeddings_for_text_tagged working word router = ((v, false), router') /\ not_zero v = true /\ alive router'.
Proof.
  intros Hc Ht [n Hd]. exists (l2_normalize (pad_to_dim [f32_of_N 1] SYSTEM_EMBEDDING_DIM)), (called router).
  split; [|split; [by vm_compute|by exists n]].
  unfold compute_embeddings_for_text_tagged. rewrite Hc. unfold compute_embeddings. destruct (trim word); [done|].
  unfold compute_embedding_with_fallback, embed_sync. rewrite Hd. cbn [replicate try_providers working].
  assert (degenerate [f32_of_N 1] = false) as -> by by vm_compute. done.
Qed.
Lemma vault_healthy : Forall (healthy (HM := moment vault none_fails) working 7) vault_files.
Proof.
  assert (vault_files = [utf8 "/v/a.md"; utf8 "/v/b.md"]) as -> by by vm_compute.
  apply Forall_cons. split; [|apply Forall_cons; split; [|done]].
  - exists (bytes_of (page "a1" "alpha")), (page "a1" "alpha"). split_and!; [by vm_compute|by vm_compute|by vm_compute|].
    assert ((derive_note_identity 7 (page "a1" "alpha") (file_stem (utf8 "/v/a.md"))).1.2 = utf8 "alpha") as -> by by vm_compute.
    intros router. by apply working_embeds.
  - exists (bytes_of (utf8 "beta")), (utf8 "beta"). split_and!; [by vm_compute|by vm_compute|by vm_compute|].
    assert ((derive_note_identity 7 (utf8 "beta") (file_stem (utf8 "/v/b.md"))).1.2 = utf8 "beta") as -> by by vm_compute.
    intros router. by apply working_embeds.
Qed.
Lemma first_run_shape : exists rep db router, first_run = (Ok rep, db, router).
Proof. unfold first_run, go, reindex. cbn [negb]. do 3 eexists. done. Qed.
Lemma next_run_is_idle_witness : exists rep1 db1 router1, first_run = (Ok rep1, db1, router1) /\
  exists rep2, go working vault none_fails with_client db1 router1 = (Ok rep2, db1, router1)
  /\ files_scanned rep2 = length vault_files /\ files_unchanged rep2 = length vault_files /\ files_updated rep2 = 0 /\ files_reembedded rep2 = 0
  /\ errors rep2 = [].
Proof.
  destruct first_run_shape as (rep1 & db1 & router1 & E). exists rep1, db1, router1. split; [exact E|].
  assert (Inj eq eq (sha256 (Codec := codec))) as HI by by intros ??.
  apply (next_run_is_idle (HM := moment vault none_fails) working 7 7 (utf8 "now") (utf8 "now") None (walk_of vault) (utf8 "/v")
    empty_db (with_providers 1) rep1 db1 router1); [done| |exact vault_healthy| | | | | |exact E].
  - apply history_wf, history_empty.
  - apply Forall_true. intros p r Hr. exfalso. by apply elem_of_nil in Hr.
  - apply (bool_decide_unpack _). by vm_compute.
  - intros r Hr. exfalso. by apply elem_of_nil in Hr.
  - assert (omap (claim (HM := moment vault none_fails) 7) vault_files = [utf8 "a1"; utf8 "auto-b"]) as HO by by vm_compute.
    intros a b Ha Hb. change (map m_id (meta empty_db)) with (@nil text) in Ha. cbn [app] in Ha. fold vault_files in Ha, Hb. rewrite HO in Ha, Hb.
    apply elem_of_cons in Ha as [->|Ha%list_elem_of_singleton]; apply elem_of_cons in Hb as [->|Hb%list_elem_of_singleton]; subst; done.
  - by exists 0.
Defined.

(** *** Where the index falls behind *)

Definition db_of (x : result ReindexReport (fingerprint * fingerprint) * index_db * embed_router) : index_db := x.1.2.
Definition updated_of (x : result ReindexReport (fingerprint * fingerprint) * index_db * embed_router) : option (nat * nat) :=
  match x.1.1 with Ok r => Some (files_updated r, files_unchanged r) | Err _ => None end.
Definition again (embed : nat -> nat -> text -> option (list f32)) (files : list (string * text)) (bad : statement -> bool) (db : index_db) :=
  go embed files bad with_client db (with_providers 1).

(** The row of the note is committed before its words are: when the second statement
    fails the words are lost for good, since the next runs find the file unchanged. *)
Example words_are_lost :
  let db1 := db_of (again working vault (fun st => bool_decide (st = IndexFts (utf8 "a1"))) empty_db) in
  let db2 := db_of (again working vault none_fails db1) in
  let run3 := again working vault none_fails db2 in
  updated_of run3 = Some (0, 2) /\ map f_id (fts (db_of run3)) = [utf8 "auto-b"].
Proof. by vm_compute. Qed.

(** When the hashes of the vectors cannot be read and the provider does not answer,
    the vector of hashes replaces the good one, and the row still claims it fresh. *)
Example fallback_is_claimed_fresh :
  let db1 := db_of (again working vault none_fails empty_db) in
  let db2 := db_of (again silent vault (fun st => bool_decide (st = LoadEmbedded)) db1) in
  hashes db2 = [(utf8 "a1", utf8 "/v/a.md", true); (utf8 "auto-b", utf8 "/v/b.md", true)]
  /\ List.find (fun x => bool_decide (x.1 = utf8 "a1")) (vectors db2) = Some (utf8 "a1", hash_embedding (utf8 "alpha")).
Proof. by vm_compute. Qed.

(** Two files with one id: each run indexes one of them anew, in turn, and says that
    the other is unchanged; only one of them can be found. *)
Definition twins : list (string * text) := [("/v/a.md", page "a1" "alpha"); ("/v/c.md", page "a1" "gamma")]%string.
Example twins_take_turns :
  let db1 := db_of (again working twins none_fails empty_db) in
  let run2 := again working twins none_fails db1 in
  let run3 := again working twins none_fails (db_of run2) in
  updated_of run2 = Some (1, 1) /\ map m_path (meta (db_of run2)) = [utf8 "/v/a.md"]
  /\ updated_of run3 = Some (1, 1) /\ map m_path (meta (db_of run3)) = [utf8 "/v/c.md"].
Proof. by vm_compute. Qed.

(** A body that becomes empty keeps the vector of the body it had; and so does a file
    that is gone, with its row. *)
Example emptied_body_is_still_found :
  let db1 := db_of (again working vault none_fails empty_db) in
  let db2 := db_of (again working [("/v/a.md", page "a1" "")]%string none_fails db1) in
  vectors db2 = vectors db1 /\ length (vectors db2) = 2
  /\ map m_path (meta db2) = [utf8 "/v/b.md"; utf8 "/v/a.md"].
Proof. by vm_compute. Qed.

(** After the words are dropped only a forced run brings them back. *)
Example rebuild_needs_force :
  let db1 := rebuild_fts_indexes (db_of (again working vault none_fails empty_db)) in
  updated_of (again working vault none_fails db1) = Some (0, 2) /\ fts (db_of (again working vault none_fails db1)) = []
  /\ map f_id (fts (db_of (go working vault none_fails (force_full with_client) db1 (with_providers 1)))) = [utf8 "a1"; utf8 "auto-b"].
Proof. by vm_compute. Qed.
