(* ===== verification/Fusion.v ===== *)
(** * Reciprocal rank fusion

    Models zen-vault/src/search/fusion.rs: the rankings of several tiers are added
    up in an accumulator by place, a file and a line, and sorted.  [HashMap] is
    [gmap]; two paths are the same key when they have the same components. *)

From S2P Require Import Prelude Text Sandbox Ordering.
From Stdlib Require Import Lia SpecFloat.
Local Open Scope list_scope.

#[export] Instance component_countable : Countable component.
Proof.
  apply (inj_countable'
    (fun c => match c with RootDir => inl (inl ()) | CurDir => inl (inr ()) | ParentDir => inr (inl ()) | Normal n => inr (inr n) end)
    (fun s => match s with inl (inl _) => RootDir | inl (inr _) => CurDir | inr (inl _) => ParentDir | inr (inr n) => Normal n end)).
  by intros [].
Defined.

Record SearchResult := { file : text; line : N; content : text }.
Record RankedList := { source : string; weight : f64; results : list SearchResult }.
Record FusedResult := { result_of : SearchResult; score : f64; provenance : list string }.

Abbreviation place := (path * N)%type.
Definition key_of (r : SearchResult) : place := (components (file r), line r).
Definition RRF_K : f64 := f64_of 60.

(** ** The code *)

Definition contribution (k weight : f64) (idx : nat) : f64 := f64_div weight (f64_add k (f64_of (Z.of_nat (idx + 1)))).
Abbreviation accumulator := (list place * gmap place FusedResult)%type.
Definition add_hit (source : string) (c : f64) (acc : accumulator) (result : SearchResult) : accumulator :=
  let key := key_of result in
  match acc.2 !! key with
  | Some existing =>
    (acc.1, <[key := {| result_of := result_of existing; score := f64_add (score existing) c;
                        provenance := provenance existing ++ [source] |}]> acc.2)
  | None => (acc.1 ++ [key], <[key := {| result_of := result; score := c; provenance := [source] |}]> acc.2)
  end.
(** [f64::is_finite]. *)
Definition is_finite (w : f64) : bool := match w with S754_zero _ | S754_finite _ _ _ => true | _ => false end.
Definition trusted (w : f64) : bool := SFltb f64_zero w && is_finite w.
Definition add_list (k : f64) (acc : accumulator) (l : RankedList) : accumulator :=
  if negb (trusted (weight l)) then acc
  else foldl (fun acc x => add_hit (source l) (contribution k (weight l) x.1) acc x.2) acc (zip (seq 0 (length (results l))) (results l)).
(** [filter_map] of [acc.remove]. *)
Fixpoint drain (order : list place) (acc : gmap place FusedResult) : list FusedResult :=
  match order with
  | [] => []
  | key :: rest => match acc !! key with Some f => f :: drain rest (delete key acc) | None => drain rest acc end
  end.
Definition before (a b : FusedResult) : bool := float_lt (score b) (score a).
Definition reciprocal_rank_fusion (lists : list RankedList) (k : f64) (limit : nat) : list FusedResult :=
  let '(order, acc) := foldl (add_list k) ([], ∅) lists in
  take limit (sort_by before (drain order acc)).

(** ** What it is: the hits by place, in the order in which places are first seen *)

Definition hits_of (k : f64) (l : RankedList) : list (string * f64 * SearchResult) :=
  if trusted (weight l) then imap (fun idx r => (source l, contribution k (weight l) idx, r)) (results l) else [].
Definition all_hits (k : f64) (lists : list RankedList) : list (string * f64 * SearchResult) := flat_map (hits_of k) lists.
Definition hit_key (h : string * f64 * SearchResult) : place := key_of h.2.
Definition see (seen : list place) (key : place) : list place := if bool_decide (key ∈ seen) then seen else seen ++ [key].
Definition first_seen (keys : list place) : list place := foldl see [] keys.
Definition fuse (hits : list (string * f64 * SearchResult)) : option FusedResult :=
  match hits with
  | [] => None
  | h :: rest => Some {| result_of := h.2; score := foldl f64_add h.1.2 (map (fun x => x.1.2) rest); provenance := map (fun x => x.1.1) (h :: rest) |}
  end.
Definition fused_at (hits : list (string * f64 * SearchResult)) (key : place) : option FusedResult := fuse (filter (fun h => hit_key h = key) hits).
Definition fused (hits : list (string * f64 * SearchResult)) : list FusedResult := omap (fused_at hits) (first_seen (map hit_key hits)).

(** ** The accumulator *)

Definition step (acc : accumulator) (h : string * f64 * SearchResult) : accumulator := add_hit h.1.1 h.1.2 acc h.2.
Lemma add_list_hits k acc l : add_list k acc l = foldl step acc (hits_of k l).
Proof.
  unfold add_list, hits_of. destruct (trusted (weight l)); cbn [negb]; [|done].
  assert (forall rs n acc, foldl (fun acc x => add_hit (source l) (contribution k (weight l) x.1) acc x.2) acc (zip (seq n (length rs)) rs)
    = foldl step acc (imap (fun idx r => (source l, contribution k (weight l) (n + idx), r)) rs)) as H.
  { induction rs as [|r rs IH]; intros n a; cbn [length seq zip imap foldl]; [done|].
    rewrite Nat.add_0_r. unfold step at 2. cbn [fst snd]. rewrite (IH (S n)). f_equal. apply imap_ext. intros i x _.
    cbn [compose]. do 3 f_equal. lia. }
  apply (H (results l) 0 acc).
Qed.
Lemma fold_lists k lists acc : foldl (add_list k) acc lists = foldl step acc (all_hits k lists).
Proof.
  revert acc. induction lists as [|l ls IH]; intros acc; cbn [foldl all_hits flat_map]; [done|].
  by rewrite foldl_app, <- add_list_hits, IH.
Qed.

Lemma filter_snoc {A} (P : A -> Prop) `{forall x, Decision (P x)} l x :
  filter P (l ++ [x]) = if decide (P x) then filter P l ++ [x] else filter P l.
Proof. rewrite filter_app, filter_cons, filter_nil. destruct (decide (P x)); [done|apply app_nil_r]. Qed.
Lemma fused_at_none hits key : fused_at hits key = None <-> key ∉ map hit_key hits.
Proof.
  unfold fused_at. split.
  - intros H (h & -> & Hh)%list_elem_of_fmap. assert (h ∈ filter (fun x => hit_key x = hit_key h) hits) as Hf by by apply list_elem_of_filter.
    destruct (filter _ hits); [by apply elem_of_nil in Hf|done].
  - intros H. destruct (filter _ hits) as [|h r] eqn:E; [done|]. exfalso. apply H.
    assert (h ∈ filter (fun x => hit_key x = key) hits) as [<- Hh]%list_elem_of_filter by (rewrite E; by left).
    by apply list_elem_of_fmap_2.
Qed.
Lemma fused_at_snoc hits h key :
  fused_at (hits ++ [h]) key =
    if decide (hit_key h = key) then
      Some match fused_at hits key with
           | Some f => {| result_of := result_of f; score := f64_add (score f) h.1.2; provenance := provenance f ++ [h.1.1] |}
           | None => {| result_of := h.2; score := h.1.2; provenance := [h.1.1] |}
           end
    else fused_at hits key.
Proof.
  unfold fused_at. rewrite filter_snoc. destruct (decide (hit_key h = key)); [|done].
  destruct (filter _ hits) as [|x r]; cbn [fuse app]; [done|]. cbn [result_of score provenance map].
  by rewrite !map_app, foldl_app.
Qed.
Lemma first_seen_snoc keys key : first_seen (keys ++ [key]) = see (first_seen keys) key.
Proof. apply foldl_snoc. Qed.
Lemma first_seen_elem keys key : key ∈ first_seen keys <-> key ∈ keys.
Proof.
  induction keys as [|x keys IH] using rev_ind; [done|]. rewrite first_seen_snoc. unfold see.
  case_bool_decide; set_solver.
Qed.
Lemma first_seen_nodup keys : NoDup (first_seen keys).
Proof.
  induction keys as [|x keys IH] using rev_ind; [constructor|]. rewrite first_seen_snoc. unfold see.
  case_bool_decide; [done|]. apply NoDup_app. split_and!; [done| |apply NoDup_singleton]. set_solver.
Qed.

(** The accumulator after the hits: the places in order, each with its fusion. *)
Lemma accumulator_spec hits : (foldl step ([], ∅) hits).1 = first_seen (map hit_key hits)
  /\ forall key, (foldl step ([], ∅) hits).2 !! key = fused_at hits key.
Proof.
  induction hits as [|h hits [IH1 IH2]] using rev_ind; [done|]. rewrite foldl_snoc.
  destruct (foldl step ([], ∅) hits) as [order acc]. cbn [fst snd] in *. subst order.
  rewrite map_app. cbn [map]. rewrite first_seen_snoc. unfold step, add_hit.
  cbn [fst snd]. change (key_of h.2) with (hit_key h). rewrite IH2. unfold see.
  destruct (fused_at hits (hit_key h)) as [f|] eqn:E; cbn [fst snd].
  - rewrite bool_decide_true.
    2:{ apply first_seen_elem. destruct (decide (hit_key h ∈ map hit_key hits)) as [|N]; [done|]. apply fused_at_none in N. congruence. }
    split; [done|]. intros key. rewrite fused_at_snoc. destruct (decide (hit_key h = key)) as [<-|N].
    + by rewrite lookup_insert_eq, E.
    + by rewrite lookup_insert_ne, IH2.
  - rewrite bool_decide_false by (rewrite first_seen_elem; by apply fused_at_none). split; [done|].
    intros key. rewrite fused_at_snoc. destruct (decide (hit_key h = key)) as [<-|N].
    + by rewrite lookup_insert_eq, E.
    + by rewrite lookup_insert_ne, IH2.
Qed.
Lemma drain_omap order acc : NoDup order -> drain order acc = omap (fun key => acc !! key) order.
Proof.
  revert acc. induction order as [|key order IH]; intros acc; cbn [drain omap list_omap]; [done|]. intros [Hk Ho]%NoDup_cons.
  destruct (acc !! key) as [f|] eqn:E; rewrite IH by done; [|done]. f_equal.
  clear IH. induction order as [|x order IHo]; cbn; [done|]. apply not_elem_of_cons in Hk as [Hx Hk]. apply NoDup_cons in Ho as [_ Ho].
  rewrite lookup_delete_ne by done. by rewrite IHo.
Qed.
Lemma omap_ext_all {A B} (f g : A -> option B) (l : list A) : (forall x, f x = g x) -> omap f l = omap g l.
Proof. intros H. induction l as [|x l IH]; cbn; [done|]. by rewrite H, IH. Qed.

Lemma fusion_fused lists k limit : reciprocal_rank_fusion lists k limit = take limit (sort_by before (fused (all_hits k lists))).
Proof.
  unfold reciprocal_rank_fusion. rewrite fold_lists. destruct (accumulator_spec (all_hits k lists)) as [H1 H2].
  destruct (foldl step ([], ∅) (all_hits k lists)) as [order acc]. cbn [fst snd] in *. subst order.
  rewrite drain_omap by apply first_seen_nodup. unfold fused. by rewrite (omap_ext_all _ _ _ H2).
Qed.

(** ** Scores *)

Lemma rank_denominator idx : (Z.of_nat idx < 2 ^ 50)%Z ->
  exists m e, f64_add RRF_K (f64_of (Z.of_nat (idx + 1))) = S754_finite false m e.
Proof.
  intros H. unfold RRF_K. rewrite f64_add_int by (unfold TWO53; lia). rewrite f64_of_exact by (unfold TWO53; lia).
  unfold exact. eauto.
Qed.
Lemma contribution_score w idx : trusted w = true -> (Z.of_nat idx < 2 ^ 50)%Z -> at_least_zero (contribution RRF_K w idx).
Proof.
  intros Hw Hi. destruct (rank_denominator idx Hi) as (m & e & E). unfold contribution. rewrite E.
  destruct w as [[]|[]| |[] mw ew]; try done. apply div_zero.
Qed.
Lemma fuse_score hits f : (forall h, h ∈ hits -> at_least_zero h.1.2) -> fuse hits = Some f -> at_least_zero (score f).
Proof.
  destruct hits as [|h r]; [done|]. cbn [fuse]. intros H [= <-]. cbn [score].
  assert (forall l x, at_least_zero x -> (forall h, h ∈ l -> at_least_zero h.1.2) ->
    at_least_zero (foldl f64_add x (map (fun y : string * f64 * SearchResult => y.1.2) l))) as HF.
  { induction l as [|y l IH]; intros x Hx Hl; cbn; [done|]. apply IH; [|set_solver]. apply add_zero; [done|]. apply Hl. by left. }
  apply HF; [apply H; by left|]. intros y Hy. apply H. by right.
Qed.
Definition short (lists : list RankedList) : Prop := Forall (fun l => (Z.of_nat (length (results l)) <= 2 ^ 50)%Z) lists.
Lemma hits_score lists h : short lists -> h ∈ all_hits RRF_K lists -> at_least_zero h.1.2.
Proof.
  intros Hs (l & Hl & Hh)%list_elem_of_In%in_flat_map. apply list_elem_of_In in Hh. apply list_elem_of_In in Hl.
  unfold short in Hs. rewrite Forall_forall in Hs. specialize (Hs l Hl). unfold hits_of in Hh.
  destruct (trusted (weight l)) eqn:T; [|by apply elem_of_nil in Hh].
  apply list_elem_of_lookup_1 in Hh as [i Hi]. rewrite list_lookup_imap in Hi. apply fmap_Some in Hi as (r & Hr & ->). cbn [fst snd].
  apply contribution_score; [done|]. apply lookup_lt_Some in Hr. lia.
Qed.

Lemma fused_at_score lists key f : short lists -> fused_at (all_hits RRF_K lists) key = Some f -> at_least_zero (score f).
Proof.
  intros Hs. unfold fused_at. apply fuse_score. intros h [_ Hh]%list_elem_of_filter. by apply (hits_score lists).
Qed.
Lemma fused_scores lists : short lists -> Forall (fun f => is_number (score f)) (fused (all_hits RRF_K lists)).
Proof.
  intros Hs. apply Forall_forall. intros f (key & _ & Hk)%list_elem_of_omap.
  by apply at_least_zero_number, (fused_at_score lists key).
Qed.
Lemma fused_at_key hits key f : fused_at hits key = Some f -> key_of (result_of f) = key.
Proof.
  unfold fused_at. destruct (filter _ hits) as [|h r] eqn:E; [done|]. cbn [fuse]. intros [= <-]. cbn [result_of].
  assert (h ∈ filter (fun x => hit_key x = key) hits) as [H _]%list_elem_of_filter by (rewrite E; by left). done.
Qed.
Lemma fused_keys hits : map (fun f => key_of (result_of f)) (fused hits) = first_seen (map hit_key hits).
Proof.
  unfold fused. assert (forall keys, (forall key, key ∈ keys -> key ∈ map hit_key hits) ->
    map (fun f => key_of (result_of f)) (omap (fused_at hits) keys) = keys) as H.
  { induction keys as [|key keys IH]; intros Hk; cbn; [done|].
    destruct (fused_at hits key) as [f|] eqn:E; [|apply fused_at_none in E; exfalso; apply E, Hk; by left].
    cbn. rewrite (fused_at_key _ _ _ E), IH; [done|]. intros x Hx. apply Hk. by right. }
  apply H. intros key. apply first_seen_elem.
Qed.
Lemma float_lt_irrefl x : is_number x -> float_lt x x = false.
Proof. intros Hx. apply not_true_iff_false. intros H. by rewrite (float_lt_asym x x Hx Hx H) in H. Qed.

(** The ranking: a rearrangement of the fused places, by falling score, where equal
    scores keep the order in which the places were first seen. *)
Definition ranking_of (l ranking : list FusedResult) : Prop :=
  ranking ≡ₚ l /\ StronglySorted (fun a b => float_lt (score a) (score b) = false) ranking
  /\ forall s, filter (fun f => score f = s) ranking = filter (fun f => score f = s) l.
Lemma sorted_ranking l : Forall (fun f => is_number (score f)) l -> ranking_of l (sort_by before l).
Proof.
  intros Hn. split_and!; [apply sort_by_perm| |].
  - apply (ordered_strongly before). by apply (sort_by_ordered before (P := fun f => is_number (score f))).
  - intros s. apply sort_by_stable. intros a b Ha Hb <- E. unfold before. rewrite E. apply float_lt_irrefl.
    rewrite Forall_forall in Hn. by apply Hn.
Qed.
