(* ===== verification/Tiers.v ===== *)
(** * The tiers of search

    Models zen-vault/src/search (tier_selector.rs, mod.rs, tier3.rs, tier4.rs) and the
    reads of zen-repo/src/notes_repo.rs and embeddings_repo.rs: the choice of a tier,
    ripgrep and the scan that stands in for it, full-text and vector search with the
    snippets of the files, and the graph.  The process of ripgrep, [walkdir], the
    full-text engine and the nearest neighbours are the class [Engines]; times are in
    nanoseconds, and [tick] is the clock at each turn of the scan. *)

From S2P Require Import Prelude Text Sandbox Secrets Ordering Sanitize Notes Embeddings Index Communities Graph Fusion.
From Stdlib Require Import Lia SpecFloat.
Local Open Scope list_scope.

(** ** The choice of a tier *)

Section selector.
Context {HL : Lowercase}.
Definition select_tier (query : text) : N :=
  let trimmed := trim query in
  let lower := to_lowercase trimmed in
  if starts_with lower (utf8 "similar:") || starts_with lower (utf8 "like:") then 3
  else if starts_with lower (utf8 "graph:") || starts_with lower (utf8 "related:") then 4
  else if starts_with lower (utf8 "summarize:") || starts_with lower (utf8 "explain:") then 5
  else if (length (split_whitespace trimmed) <=? 1)%nat then 1
  else 2.
End selector.

(** ** What the tiers stand on *)

(** A process of ripgrep: what its output gives, read by read, its exit, what it wrote
    to its error stream, and when the reader of its output was done. *)
Record rg_process := { rg_reads : list (result (list N) text); rg_exit : result (option Z) text; rg_stderr : list N; rg_elapsed : N }.
Record disk_entry := { d_path : text; d_depth : nat; d_name : option text; d_file : bool; d_bytes : option (list N) }.
Class Engines := {
  rg_env : option text;
  rg_home : option text;
  which_rg : option text;
  is_file : text -> bool;
  spawn : text -> list text -> option rg_process;
  from_utf8_lossy : list N -> text;
  walk_dir : text -> (nat -> option text -> bool) -> list (option disk_entry);
  walk_kept : forall base keep e, Some e ∈ walk_dir base keep -> keep (d_depth e) (d_name e) = true;
  tick : nat -> N;
  fts_match : text -> list FtsRow -> result (list (N * f64)) text;
  nearest : list f32 -> N -> list (text * list f32) -> result (list text) text;
  is_alphanumeric : char -> bool;
}.

Section tiers.
Context {HK : Codec} {HM : Moment} {HE : Engines} {HL : Lowercase}.

(** ** Tier 1 *)

Definition TIER1_TIMEOUT : N := (10 * 10 ^ 9)%N.
Definition TIER1_OUTPUT_CAP_BYTES : nat := N.to_nat (1024 * 1024).
Definition RG_WELL_KNOWN : list text := [utf8 "/opt/homebrew/bin/rg"; utf8 "/usr/local/bin/rg"].
Definition cargo_rg (home : text) : text := push_name (push_name (push_name home (utf8 ".cargo")) (utf8 "bin")) (utf8 "rg").
Definition resolve_rg_binary_uncached : option text :=
  match (p ← rg_env; if is_file p then Some p else None) with
  | Some p => Some p
  | None => match which_rg with
            | Some found => Some found
            | None => List.find is_file (RG_WELL_KNOWN ++ option_list (cargo_rg <$> rg_home))
            end
  end.
(** The first answer is kept for the life of the process. *)
Definition resolve_rg_binary (resolved : option (option text)) : option text * option (option text) :=
  match resolved with
  | Some r => (r, resolved)
  | None => (resolve_rg_binary_uncached, Some resolve_rg_binary_uncached)
  end.

Definition parse_rg_line (line : text) : option SearchResult :=
  '(file_part, rest) ← split_once 58%N line;
  '(line_part, content) ← split_once 58%N rest;
  n ← parse_unsigned 32 line_part;
  Some {| file := file_part; line := n; content := content |}.
(** What the reader has at the end, and whether it stopped at the cap. *)
Fixpoint read_output (stdout : list N) (reads : list (result (list N) text)) : result (list N * bool) text :=
  match reads with
  | [] => Ok (stdout, false)
  | Err e :: _ => Err e
  | Ok chunk :: rest =>
    match chunk with
    | [] => Ok (stdout, false)
    | _ => if (TIER1_OUTPUT_CAP_BYTES <=? length (stdout ++ chunk))%nat then Ok (stdout ++ chunk, true) else read_output (stdout ++ chunk) rest
    end
  end.
Definition rg_argv (query base_dir : text) (limit : nat) : list text :=
  [utf8 "--line-number"; utf8 "--no-heading"; utf8 "--color=never"; utf8 "--fixed-strings"; utf8 "--max-count"; decimal limit; query; base_dir].

Definition is_hidden (name : option text) : bool := match name with Some n => starts_with n (utf8 ".") | None => false end.
(** The lines of a file; whether the limit is reached. *)
Fixpoint scan_lines (query path : text) (limit idx : nat) (ls : list text) (results : list SearchResult) : list SearchResult * bool :=
  match ls with
  | [] => (results, false)
  | l :: rest =>
    if contains l query then
      let results := results ++ [{| file := path; line := (N.of_nat idx mod 2 ^ 32 + 1)%N; content := l |}] in
      if (limit <=? length results)%nat then (results, true) else scan_lines query path limit (S idx) rest results
    else scan_lines query path limit (S idx) rest results
  end.
Definition scan_entry (query : text) (limit : nat) (e : option disk_entry) (results : list SearchResult) : list SearchResult * bool :=
  match e with
  | None => (results, false)
  | Some e =>
    if negb (d_file e) then (results, false)
    else match d_bytes e with
         | None => (results, false)
         | Some all =>
           let bytes := take TIER1_OUTPUT_CAP_BYTES all in
           if existsb (N.eqb 0) bytes then (results, false)
           else scan_lines query (d_path e) limit 0 (lines (from_utf8_lossy bytes)) results
         end
  end.
Fixpoint scan_entries (query : text) (limit : nat) (deadline : N) (turn : nat) (entries : list (option disk_entry)) (results : list SearchResult)
    : result (list SearchResult) text :=
  match entries with
  | [] => Ok results
  | e :: rest =>
    if (deadline <=? tick turn)%N then Err (utf8 "tier1 search timed out after 10s")
    else match scan_entry query limit e results with
         | (results, true) => Ok results
         | (results, false) => scan_entries query limit deadline (S turn) rest results
         end
  end.
Definition search_in_process (query base_dir : text) (limit : nat) : result (list SearchResult) text :=
  scan_entries query limit (tick 0 + TIER1_TIMEOUT)%N 1 (walk_dir base_dir (fun depth name => (depth =? 0)%nat || negb (is_hidden name))) [].

Definition search_via_rg (rg query base_dir : text) (limit : nat) : result (list SearchResult) text :=
  match spawn rg (rg_argv query base_dir limit) with
  | None => search_in_process query base_dir limit
  | Some p =>
    if (TIER1_TIMEOUT <? rg_elapsed p)%N then Err (utf8 "ripgrep timed out")
    else match read_output [] (rg_reads p), rg_exit p with
         | Err _, _ | _, Err _ => Err (utf8 "failed to execute ripgrep")
         | Ok (stdout, capped), Ok code =>
           if negb capped && negb (bool_decide (code = Some 0%Z)) && bool_decide (stdout = []) then
             if bool_decide (code = Some 1%Z) then Ok [] else Err (utf8 "ripgrep failed: " ++ from_utf8_lossy (rg_stderr p))
           else Ok (take limit (omap parse_rg_line (lines (from_utf8_lossy stdout))))
         end
  end.
Definition tier1_search (rg : option text) (query base_dir : text) (limit : nat) : result (list SearchResult) text :=
  match query, limit with
  | [], _ | _, O => Ok []
  | _, _ => match rg with Some rg => search_via_rg rg query base_dir limit | None => search_in_process query base_dir limit end
  end.

(** ** Tier 2 *)

Definition SNIPPET_FILE_MAX_BYTES : N := (256 * 1024)%N.
Definition SNIPPET_MAX_CHARS : nat := N.to_nat (8 * 1024).
Definition read_canonical_snippet (path : text) : text :=
  match read_bytes path with
  | Err _ => []
  | Ok bytes =>
    if (N.of_nat (length bytes) <=? SNIPPET_FILE_MAX_BYTES)%N then
      match from_utf8 bytes with
      | Ok t => if (length t <=? SNIPPET_MAX_CHARS)%nat then t else take SNIPPET_MAX_CHARS t ++ [10%N] ++ utf8 "…[truncated]"
      | Err _ => []
      end
    else []
  end.

Record FtsResult := { fr_path : text; fr_score : f64; fr_snippet : text }.
(** A [usize] as an [i64], and [LIMIT]: a negative one is no limit. *)
Definition as_i64 (n : N) : Z := let z := (Z.of_N n mod 2 ^ 64)%Z in if (z <? 2 ^ 63)%Z then z else (z - 2 ^ 64)%Z.
Definition sql_limit {A} (n : Z) (l : list A) : list A := if (n <? 0)%Z then l else take (Z.to_nat n) l.
Definition saturating_mul (a b : N) : N := N.min (a * b) (2 ^ 64 - 1).
(** The rows that match, the best first, joined with the rows of their notes. *)
Definition matching (query : text) (db : index_db) : result (list FtsResult) text :=
  let? hits := fts_match query (fts db) in
  Ok (omap (fun h => (fun r => {| fr_path := m_path r; fr_score := h.2; fr_snippet := [] |}) <$> List.find (fun r => N.eqb (m_rowid r) h.1) (meta db)) hits).
Definition with_snippet (r : FtsResult) : FtsResult :=
  {| fr_path := fr_path r; fr_score := fr_score r; fr_snippet := read_canonical_snippet (fr_path r) |}.
Definition notes_search (query : text) (limit : N) (db : index_db) : result (list FtsResult) text :=
  match trim query with
  | [] => Ok []
  | _ => let? rows := matching query db in Ok (map with_snippet (sql_limit (as_i64 (N.max limit 1)) rows))
  end.
Definition search_scoped (query base_dir : text) (limit : N) (db : index_db) : result (list FtsResult) text :=
  match trim query with
  | [] => Ok []
  | _ =>
    let? rows := matching query db in
    let fetched := sql_limit (as_i64 (N.max (saturating_mul limit 2) 1)) rows in
    Ok (map with_snippet (take (N.to_nat limit) (filter (fun r => starts_with (fr_path r) base_dir = true) fetched)))
  end.
Definition fts_to_search (r : FtsResult) : SearchResult := {| file := fr_path r; line := 0; content := fr_snippet r |}.

(** ** Tier 3 *)

Definition vec_search (v : list f32) (top_k : N) (db : index_db) : result (list SearchResult) text :=
  match v with
  | [] => Ok []
  | _ =>
    let? ids := nearest v (N.max top_k 1) (vectors db) in
    Ok (omap (fun id => (fun r => {| file := m_path r; line := 0; content := read_canonical_snippet (m_path r) |})
                        <$> List.find (fun r => bool_decide (m_id r = id)) (meta db)) ids)
  end.

(** ** Tier 4 *)

Context {HScan : Scan} {HNfc : Nfc}.
Definition PPR_DAMPING : f64 := f64_div (f64_of 85) (f64_of 100).
Definition PPR_ITERATIONS : nat := 20.
Definition MAX_SEEDS : nat := 6.

(** [str::split] on a predicate. *)
Fixpoint split_by (p : char -> bool) (t : text) : list text :=
  match t with
  | [] => [[]]
  | c :: t' => if p c then [] :: split_by p t' else match split_by p t' with [] => [[c]] | piece :: rest => (c :: piece) :: rest end
  end.
Definition add_candidate (out : list text) (token : text) : list text :=
  if (length token <? 3)%nat then out
  else let lowered := to_lowercase token in if bool_decide (lowered ∈ out) then out else out ++ [lowered].
Definition query_seed_candidates (query : text) : list text := foldl add_candidate [] (split_by (fun c => negb (is_alphanumeric c)) query).

Definition resolve_seed (db : graph_db) (token : text) : option string :=
  match find_entity_by_name (to_string token) db with
  | Some row => Some (n_name row)
  | None => id ← resolve_alias (to_string token) db; notion_name id db
  end.
Definition add_seed (db : graph_db) (seeds : list string) (token : text) : list string :=
  match resolve_seed db token with
  | Some name => if bool_decide (name ∈ seeds) then seeds else seeds ++ [name]
  | None => seeds
  end.
(** [{:.3}]: the exact value, rounded to even at a half. *)
Definition round_half_even (num den : Z) : Z :=
  let q := (num / den)%Z in
  match (2 * (num - q * den) ?= den)%Z with Lt => q | Gt => q + 1 | Eq => if Z.even q then q else q + 1 end%Z.
Definition thousandths (m : positive) (e : Z) : Z :=
  if (0 <=? e)%Z then (Z.pos m * 2 ^ e * 1000)%Z else round_half_even (Z.pos m * 1000) (2 ^ (- e)).
Definition three_places (n : Z) : string :=
  pretty (n / 1000)%Z +:+ "." +:+ pretty (n / 100 mod 10)%Z +:+ pretty (n / 10 mod 10)%Z +:+ pretty (n mod 10)%Z.
Definition fixed3 (x : f64) : string :=
  match x with
  | S754_nan => "NaN"
  | S754_infinity s => if s then "-inf" else "inf"
  | S754_zero s => if s then "-0.000" else "0.000"
  | S754_finite s m e => (if s then "-" else "") +:+ three_places (thousandths m e)
  end.
Fixpoint join_names (l : list string) : string :=
  match l with [] => "" | [s] => s | s :: rest => s +:+ ", " +:+ join_names rest end.
(** What the database refuses of the reads of the graph: the walk from a notion, the
    look-up of a word, the rows of the snapshot, the neighbourhood. *)
Record graph_reads := { walk_fails : option text; word_fails : text -> bool; core_fails : option text; around_fails : bool }.
Definition all_reads : graph_reads := {| walk_fails := None; word_fails _ := false; core_fails := None; around_fails := false |}.

(** A word that cannot be looked up is no seed; the snapshot is read only when no
    fresh one is kept. *)
Definition seeded_ranking (reads : graph_reads) (query : text) (limit : nat) (now : N) (db : graph_db) (cache : GraphCoreCache)
    : outcome (result (list SearchResult) text) * GraphCoreCache :=
  let seeds := foldl (add_seed db) [] (filter (fun t => word_fails reads t = false) (take MAX_SEEDS (query_seed_candidates query))) in
  match seeds, core_fails reads, get_fresh now cache with
  | [], _, _ => (Done (Ok []), cache)
  | _, Some e, None => (Done (Err e), cache)
  | _, _, _ =>
    let '(ranked, cache) := personalized_pagerank seeds PPR_ITERATIONS PPR_DAMPING (f64_sub (f64_of 1) PPR_DAMPING) now db cache in
    (let! ranked := ranked in
     Done (Ok (map (fun row => {| file := utf8 ("@" +:+ row.1); line := 0; content := utf8 ("related to " +:+ join_names seeds +:+ " (ppr " +:+ fixed3 row.2 +:+ ")") |})
             (take limit (filter (fun row => row.1 ∉ seeds) ranked)))), cache)
  end.
Definition tier4_search (reads : graph_reads) (name : string) (max_depth : nat) (db : graph_db) : result (list GraphSearchResult) text :=
  match trim (utf8 name), walk_fails reads with
  | [], _ => Ok []
  | _, Some e => Err e
  | _, None => Ok (bfs_search name max_depth db)
  end.
Definition graph_to_search (g : GraphSearchResult) : SearchResult :=
  {| file := utf8 ("@" +:+ g_notion g); line := N.of_nat (g_depth g); content := utf8 (g_relation g +:+ " → " +:+ g_target g) |}.

(** *** The neighbourhood of a notion *)

Record SubgraphNode := { sn_name : string; sn_depth : nat }.
Record SubgraphEdge := { se_source : string; se_target : string; se_relation : string }.
Record SubgraphContext := { center : string; nodes : list SubgraphNode; edges : list SubgraphEdge }.
Definition add_node (acc : list SubgraphNode * gset string) (row : GraphSearchResult) : list SubgraphNode * gset string :=
  if bool_decide (g_notion row ∈ acc.2) then acc
  else (acc.1 ++ [{| sn_name := g_notion row; sn_depth := g_depth row |}], {[g_notion row]} ∪ acc.2).
Definition add_edge (db : graph_db) (seen : gset string) (acc : list SubgraphEdge) (rel : RelationRow) : list SubgraphEdge :=
  match notion_name (r_source rel) db, notion_name (r_target rel) db with
  | Some source, Some target =>
    let edge := {| se_source := source; se_target := target; se_relation := r_type rel |} in
    if negb (bool_decide (source ∈ seen)) || negb (bool_decide (target ∈ seen)) then acc
    else if existsb (fun e => String.eqb (se_source e) source && String.eqb (se_target e) target && String.eqb (se_relation e) (r_type rel)) acc then acc
    else acc ++ [edge]
  | _, _ => acc
  end.
Definition add_edges (db : graph_db) (seen : gset string) (acc : list SubgraphEdge) (node : SubgraphNode) : list SubgraphEdge :=
  match find_entity_by_name (sn_name node) db with
  | None => acc
  | Some entity => foldl (add_edge db seen) acc (load_relationships_all (n_id entity) db)
  end.
Definition before_node (a b : SubgraphNode) : bool :=
  (sn_depth a <? sn_depth b)%nat || ((sn_depth a =? sn_depth b)%nat && String.ltb (sn_name a) (sn_name b)).
Definition before_edge (a b : SubgraphEdge) : bool :=
  String.ltb (se_source a) (se_source b)
  || (String.eqb (se_source a) (se_source b)
      && (String.ltb (se_relation a) (se_relation b)
          || (String.eqb (se_relation a) (se_relation b) && String.ltb (se_target a) (se_target b)))).
Definition subgraph_synthesis (center : string) (hops : nat) (db : graph_db) : SubgraphContext :=
  match trim (utf8 center) with
  | [] => {| center := center; nodes := []; edges := [] |}
  | _ =>
    let bfs := bfs_search center hops db in
    let start := match bfs with [] => ([], ∅) | _ => ([{| sn_name := center; sn_depth := 0 |}], {[center]}) end in
    let '(ns, seen) := foldl add_node start bfs in
    {| center := center; nodes := sort_by before_node ns; edges := sort_by before_edge (foldl (add_edges db seen) [] ns) |}
  end.

(** [render]: the nodes by depth, the edges in order without repetition. *)
Definition render_depth (ns : list SubgraphNode) (depth : nat) : string :=
  nl +:+ "### Depth " +:+ pretty depth +:+ nl +:+ foldr (fun n s => "- " +:+ sn_name n +:+ nl +:+ s) "" (filter (fun n => sn_depth n = depth) ns).
Definition render_edge (e : SubgraphEdge) : string := "- " +:+ se_source e +:+ " -> " +:+ se_target e +:+ " (" +:+ se_relation e +:+ ")" +:+ nl.
Definition render (c : SubgraphContext) : string :=
  "## Subgraph: " +:+ center c +:+ " (" +:+ pretty (length (nodes c)) +:+ " nodes, " +:+ pretty (length (edges c)) +:+ " edges)" +:+ nl
  +:+ foldr String.append "" (map (render_depth (nodes c)) (sort_by Nat.ltb (remove_dups (map sn_depth (nodes c)))))
  +:+ nl +:+ "### Edges" +:+ nl +:+ foldr String.append "" (sorted_names (map render_edge (edges c))).
End tiers.
