(* ===== verification/Search.v ===== *)
(** * The search service

    Models zen-vault/src/search/service.rs and tier5.rs over the tiers: the fused
    search, the choice of one tier, the filter by domain, and the synthesis of an
    answer by a provider.  The reads of the tiers that run together touch separate
    parts of the state, so their interleavings are one sequence. *)

From S2P Require Import Prelude Types Text Secrets Router Sandbox Ordering Sanitize Notes Embeddings Index Communities Graph Fusion Tiers.
From Stdlib Require Import Lia SpecFloat.
Local Open Scope list_scope.

Definition DEFAULT_SEARCH_LIMIT : N := 20.
Definition TIER1_WEIGHT : f64 := f64_of 1.
Definition TIER2_WEIGHT : f64 := f64_of 1.
Definition TIER3_WEIGHT : f64 := f64_of 1.
Definition TIER4_WEIGHT : f64 := f64_div (f64_of 8) (f64_of 10).
Definition PPR_WEIGHT : f64 := f64_div (f64_of 9) (f64_of 10).

Record SearchDiagnostics := { query_embedding_degraded : bool; query_embedding_unavailable : bool }.
Definition healthy_query : SearchDiagnostics := {| query_embedding_degraded := false; query_embedding_unavailable := false |}.

(** What the five tiers answered. *)
Record answers := {
  a_fts : result (list FtsResult) text; a_semantic : result (list SearchResult) text; a_graph : result (list GraphSearchResult) text;
  a_ppr : result (list SearchResult) text; a_raw : result (list SearchResult) text }.
Definition ranked (source : string) (weight : f64) (l : list SearchResult) : RankedList := {| source := source; weight := weight; results := l |}.
(** A list that may be left out when it is empty. *)
Definition if_any (source : string) (weight : f64) (a : result (list SearchResult) text) : list RankedList :=
  match a with Ok ((_ :: _) as l) => [ranked source weight l] | _ => [] end.
Definition ranked_lists (a : answers) : list RankedList :=
  match a_fts a with Ok rows => [ranked "fts5" TIER2_WEIGHT (map fts_to_search rows)] | Err _ => [] end
  ++ if_any "vec0" TIER3_WEIGHT (a_semantic a)
  ++ match a_graph a with Ok rows => [ranked "graph" TIER4_WEIGHT (map graph_to_search rows)] | Err _ => [] end
  ++ if_any "ppr" PPR_WEIGHT (a_ppr a)
  ++ if_any "ripgrep" TIER1_WEIGHT (a_raw a).
Definition fuse_answers (a : answers) (limit : nat) : list FusedResult := reciprocal_rank_fusion (ranked_lists a) RRF_K limit.

Record service := { s_index : index_db; s_graph : graph_db; s_cache : GraphCoreCache; s_embedder : embed_router; s_llm : router }.
Definition with_embedder (r : embed_router) (s : service) : service :=
  {| s_index := s_index s; s_graph := s_graph s; s_cache := s_cache s; s_embedder := r; s_llm := s_llm s |}.
Definition with_cache (c : GraphCoreCache) (s : service) : service :=
  {| s_index := s_index s; s_graph := s_graph s; s_cache := c; s_embedder := s_embedder s; s_llm := s_llm s |}.
Definition with_llm (r : router) (s : service) : service :=
  {| s_index := s_index s; s_graph := s_graph s; s_cache := s_cache s; s_embedder := s_embedder s; s_llm := r |}.

Section service.
Context {HK : Codec} {HM : Moment} {HE : Engines} {HL : Lowercase} {HScan : Scan} {HNfc : Nfc}.
Context {HCred : Credentials} {HW : Wire} {HR : Regex} {T : Type} {HC : Chrono T}.
Context (embed : nat -> nat -> text -> option (list f32)) (clock : T) (now : N) (rg : option text) (reads : graph_reads).
(** [reads]: what the database refuses of the graph; [lost]: the blocking task of the
    embedding did not come back; [raw_lost]: nor did that of the scan; [guard] and [vars]:
    the guard of secrets and the environment. *)
Context (lost raw_lost guard : bool) (vars : list (text * text)).

Definition query_embedding (query : text) (s : service) : result (list f32 * bool) text * service :=
  if lost then (Err (utf8 "join error"), s)
  else let '(e, router) := compute_embeddings_for_text_tagged embed query (s_embedder s) in (Ok e, with_embedder router s).

Definition raw_search (query base_dir : text) (limit : N) : result (list SearchResult) text :=
  if raw_lost then Err (utf8 "join error") else tier1_search rg query base_dir (N.to_nat limit).

(** ** The fused search *)

Definition search_fused_with_diagnostics (query base_dir : text) (limit : option N) (s : service)
    : outcome (list FusedResult * SearchDiagnostics) * service :=
  let limit := default DEFAULT_SEARCH_LIMIT limit in
  let fts := search_scoped query base_dir limit (s_index s) in
  let '(embedding, s) := query_embedding query s in
  let '(semantic, diagnostics) := match embedding with
    | Ok (v, degraded) => (vec_search v limit (s_index s), {| query_embedding_degraded := degraded; query_embedding_unavailable := false |})
    | Err _ => (Ok [], {| query_embedding_degraded := false; query_embedding_unavailable := true |})
    end in
  let graph := tier4_search reads (to_string query) 3 (s_graph s) in
  let '(ppr, cache) := seeded_ranking reads query (N.to_nat limit) now (s_graph s) (s_cache s) in
  let raw := raw_search query base_dir limit in
  (let! ppr := ppr in
   Done (fuse_answers {| a_fts := fts; a_semantic := semantic; a_graph := graph; a_ppr := ppr; a_raw := raw |} (N.to_nat limit), diagnostics),
   with_cache cache s).

(** ** The filter by domain *)

Definition in_domain (domain path : text) : bool :=
  match read_to_string path with
  | Err _ => false
  | Ok t => match parse_frontmatter clock t with
            | Err _ => false
            | Ok note => existsb (fun d => bool_decide (utf8 (domain_str d) = domain)) (note_domain note)
            end
  end.
Definition keep_result (domain : text) (acc : list SearchResult * gmap path bool) (r : SearchResult) : list SearchResult * gmap path bool :=
  if starts_with (file r) (utf8 "@") then (acc.1 ++ [r], acc.2)
  else
    let key := components (file r) in
    let '(has, cache) := match acc.2 !! key with
      | Some b => (b, acc.2)
      | None => (in_domain domain (file r), <[key := in_domain domain (file r)]> acc.2)
      end in
    (if has then acc.1 ++ [r] else acc.1, cache).
Definition filter_by_domain (results : list SearchResult) (domain : text) : list SearchResult :=
  (foldl (keep_result (Sanitize.to_lowercase domain)) ([], ∅) results).1.
Definition filtered (domain : option text) (results : list SearchResult) : list SearchResult :=
  match domain with Some d => filter_by_domain results d | None => results end.

(** ** Tier 5 *)

Definition ENOUGH : text := utf8 "Local search found sufficient results. Use `/synthesize` for AI summary.".
Definition source_block (x : nat * SearchResult) : outcome text :=
  let! t := strip_dangerous_patterns (content x.2) in
  Done (utf8 "[" ++ decimal (S x.1) ++ utf8 "] " ++ file x.2 ++ utf8 ":" ++ decimal (N.to_nat (line x.2)) ++ [10%N] ++ t).
Definition synthesis_prompt (query context_text : text) : text :=
  utf8 "You are a knowledge synthesis assistant. Given a user query and search results from a local knowledge base, synthesize a concise, accurate answer."
  ++ [10; 10]%N ++ utf8 "Query: [USER_CONTENT_START]" ++ query ++ utf8 "[USER_CONTENT_END]" ++ [10; 10]%N
  ++ utf8 "Search Results:" ++ [10%N] ++ utf8 "[USER_CONTENT_START]" ++ context_text ++ utf8 "[USER_CONTENT_END]" ++ [10; 10]%N
  ++ join_lines (map utf8
      ["Instructions:";
       "- Answer based ONLY on the provided search results";
       "- If the results don't contain enough information, say so";
       "- Cite sources by filename where possible";
       "- Quote distinctive nouns, code identifiers, and file paths verbatim from the results — do not paraphrase them; lexical search depends on exact matches";
       "- Be concise (2-3 paragraphs max unless the query demands more)"]%string).
(** [LlmRouterExt::complete]. *)
Definition llm_complete (prompt : text) (sensitivity : Sensitivity) (r : router) : result text LlmError * router :=
  match route sensitivity r with
  | (Err e, r) => (Err e, r)
  | (Ok provider, r) => call guard vars provider prompt r
  end.
Definition full_results (context : list SearchResult) : nat := length (filter (fun r => content r <> []) context).
Definition synthesize (query : text) (context : list SearchResult) (r : router) : outcome (result text LlmError * router) :=
  if (3 <=? full_results context)%nat then Done (Ok ENOUGH, r)
  else
    let! query := strip_dangerous_patterns query in
    let! blocks := otraverse source_block (zip (seq 0 (length context)) context) in
    Done (llm_complete (synthesis_prompt query (join_with [10; 10]%N blocks)) Public r).

(** ** The service *)

Definition subgraph_result (c : SubgraphContext) : SearchResult :=
  {| file := utf8 ("@subgraph:" +:+ center c); line := 0; content := utf8 (render c) |}.
Definition tier5_context (query base_dir : text) (limit : N) (s : service) : result (list SearchResult) text :=
  let? rows := search_scoped query base_dir limit (s_index s) in
  let context := map fts_to_search rows in
  let subgraph := subgraph_synthesis (to_string query) 2 (s_graph s) in
  Ok (if negb (around_fails reads) && (1 <? length (nodes subgraph))%nat then subgraph_result subgraph :: context else context).
Definition one_tier (tier : N) (query base_dir : text) (limit : N) (s : service) : outcome (result (list SearchResult * bool) text) * service :=
  match tier with
  | 1%N => (Done (let? l := raw_search query base_dir limit in Ok (l, false)), s)
  | 2%N => (Done (let? l := search_scoped query base_dir limit (s_index s) in Ok (map fts_to_search l, false)), s)
  | 3%N =>
    let '(embedding, s) := query_embedding query s in
    (Done (match embedding with
           | Ok (v, degraded) => let? l := vec_search v limit (s_index s) in Ok (l, degraded)
           | Err e => Err (utf8 "Tier 3 search failed: query embedding task join error: " ++ e)
           end), s)
  | 4%N => (Done (let? l := tier4_search reads (to_string query) 3 (s_graph s) in Ok (map graph_to_search l, false)), s)
  | 5%N =>
    match tier5_context query base_dir limit s with
    | Err e => (Done (Err e), s)
    | Ok context =>
      match synthesize query context (s_llm s) with
      | Done (Ok answer, r) => (Done (Ok ([{| file := utf8 "synthesis"; line := 0; content := answer |}], false)), with_llm r s)
      | Done (Err _, r) => (Done (Ok (context, false)), with_llm r s)
      | Panic => (Panic, s)
      | OutOfFuel => (OutOfFuel, s)
      end
    end
  | _ => (Done (Err (utf8 "unknown tier: " ++ decimal (N.to_nat tier))), s)
  end.
Definition search_with_diagnostics (query base_dir : text) (tier : option N) (domain : option text) (limit : option N) (s : service)
    : outcome (result (list SearchResult * SearchDiagnostics) text) * service :=
  let limit := default DEFAULT_SEARCH_LIMIT limit in
  let selected := default (select_tier query) tier in
  if bool_decide (tier = None) && ((selected =? 1) || (selected =? 2))%N then
    let '(o, s) := search_fused_with_diagnostics query base_dir (Some limit) s in
    (let! x := o in Done (Ok (filtered domain (map result_of x.1), x.2)), s)
  else
    let '(o, s) := one_tier selected query base_dir limit s in
    (let! r := o in
     Done (let? x := r in
           Ok (filtered domain x.1, {| query_embedding_degraded := x.2; query_embedding_unavailable := false |})), s).
End service.
