(* ===== verification/SearchProps.v ===== *)
(** * What a search answers

    The fused search ranks what the tiers that answered found, and cannot fail; the
    full-text search of a directory; what the scan and ripgrep give; the
    neighbourhood of a notion. *)

From S2P Require Import Prelude Types Text Secrets SecretsPieces SecretsProps Router RouterProps Sandbox Ordering Sanitize Notes NotesProps Embeddings Index IndexProps IndexSettles Communities Graph GraphProps GraphPaths Fusion Tiers Search.
From Stdlib Require Import Lia SpecFloat.
Local Open Scope list_scope.

(** ** Fusion *)

(** C10. The fusion of rankings is a ranking: what each place gathered (the first
    result seen there, the sum of its contributions in the order of the tiers, the
    tiers), by falling score, where equal scores keep the order of the first sight;
    the limit cuts it, and no place comes twice. *)
Theorem fusion_ranks lists limit : short lists ->
  exists ranking, ranking_of (fused (all_hits RRF_K lists)) ranking /\ reciprocal_rank_fusion lists RRF_K limit = take limit ranking
  /\ NoDup (map (fun f => key_of (result_of f)) ranking).
Proof.
  intros Hs. exists (sort_by before (fused (all_hits RRF_K lists))). split_and!; [apply sorted_ranking, fused_scores, Hs|apply fusion_fused|].
  rewrite (sort_by_perm before). rewrite fused_keys. apply first_seen_nodup.
Qed.
Definition hit (path : string) (n : N) : SearchResult := {| file := utf8 path; line := n; content := utf8 path |}.
Definition two_lists : list RankedList :=
  [ranked "fts5" (f64_of 1) [hit "/v/a.md" 0; hit "/v/b.md" 0]; ranked "graph" S754_nan [hit "/v/d.md" 0];
   ranked "vec0" (f64_of 1) [hit "/v/c.md" 0; hit "/v//b.md" 0]]%string.
Lemma fusion_ranks_witness : map (fun f => (file (result_of f), provenance f)) (reciprocal_rank_fusion two_lists RRF_K 2)
    = [(utf8 "/v/b.md", ["fts5"; "vec0"]%string); (utf8 "/v/a.md", ["fts5"]%string)] /\
  exists ranking, ranking_of (fused (all_hits RRF_K two_lists)) ranking /\ reciprocal_rank_fusion two_lists RRF_K 2 = take 2 ranking
  /\ NoDup (map (fun f => key_of (result_of f)) ranking).
Proof.
  split; [by vm_compute|]. apply (fusion_ranks two_lists 2). repeat (apply Forall_cons; split; [done|]). done.
Defined.

(** ** Tiers that fail *)

(** The lists of all tiers, one that failed as if it had found nothing. *)
Definition told {A} (r : result (list A) text) : list A := match r with Ok l => l | Err _ => [] end.
Definition contributions (a : answers) : list RankedList :=
  [ranked "fts5" TIER2_WEIGHT (map fts_to_search (told (a_fts a))); ranked "vec0" TIER3_WEIGHT (told (a_semantic a));
   ranked "graph" TIER4_WEIGHT (map graph_to_search (told (a_graph a))); ranked "ppr" PPR_WEIGHT (told (a_ppr a));
   ranked "ripgrep" TIER1_WEIGHT (told (a_raw a))].
Lemma no_hits k source weight : hits_of k (ranked source weight []) = [].
Proof. unfold hits_of. by destruct (trusted _). Qed.
Lemma hits_app k l1 l2 : all_hits k (l1 ++ l2) = all_hits k l1 ++ all_hits k l2.
Proof. apply flat_map_app. Qed.
Lemma if_any_hits k source weight a : all_hits k (if_any source weight a) = match a with Ok l => hits_of k (ranked source weight l) | Err _ => [] end.
Proof. unfold if_any. destruct a as [[|x l]|e]; cbn [all_hits flat_map]; [by rewrite no_hits|apply app_nil_r|done]. Qed.
Lemma fuse_contributions a limit : fuse_answers a limit = reciprocal_rank_fusion (contributions a) RRF_K limit.
Proof.
  assert (all_hits RRF_K (ranked_lists a) = all_hits RRF_K (contributions a)) as E; [|unfold fuse_answers; by rewrite !fusion_fused, E].
  unfold ranked_lists. rewrite !hits_app, !if_any_hits. unfold contributions. cbn [all_hits flat_map].
  rewrite app_nil_r. destruct (a_fts a), (a_semantic a), (a_graph a), (a_ppr a), (a_raw a); cbn [all_hits flat_map told map];
    rewrite ?no_hits, ?app_nil_r; done.
Qed.

Section service.
Context {HK : Codec} {HM : Moment} {HE : Engines} {HL : Lowercase} {HScan : Scan} {HNfc : Nfc}.
Context (embed : nat -> nat -> text -> option (list f32)) (now : N) (rg : option text) (reads : graph_reads) (lost raw_lost : bool).

Lemma seeded_done query limit db cache db0 : snapshot_of now db cache db0 -> exists l, (seeded_ranking reads query limit now db cache).1 = Done l.
Proof.
  intros Hs. unfold seeded_ranking. destruct (foldl (add_seed db) [] _) as [|s seeds]; [by eexists|].
  assert (forall x : outcome (result (list SearchResult) text) * GraphCoreCache, (exists l, x.1 = Done l) ->
    exists l, (match core_fails reads, get_fresh now cache with Some e, None => (Done (Err e), cache) | _, _ => x end).1 = Done l) as HC.
  { intros x Hx. destruct (core_fails reads), (get_fresh now cache); try done. by eexists. }
  apply HC. unfold personalized_pagerank. pose proof (load_snapshot now db cache db0 Hs) as El.
  destruct (load_graph_core now db cache) as [core cache']. cbn [fst] in El. subst core.
  destruct (build_core_ok db0) as (Hok & _). destruct (_ =? 0); cbn [fst obind]; [by eexists|]. case_bool_decide; cbn [fst obind]; [by eexists|].
  match goal with |- context [run_pagerank_core ?core ?d ?r ?t ?k] => destruct (run_ok core Hok d r k t) as (res & -> & _) end.
  { by rewrite seeds_length, length_replicate. }
  cbn [obind]. by eexists.
Qed.

(** C11. A fused search never fails: whichever tiers fail (the index, the vectors, the
    embedding of the query, the walk of the graph, its ranking, the scan), it answers,
    and its answer is the fusion of the lists of all five tiers, each with its weight,
    those that failed counted as empty: the full-text matches of the directory, the
    nearest neighbours of the query's vector, the walk from the query's notion, the
    notions ranked from its words, and what the scan finds.  It says whether the query
    was embedded at all, and a vector it does not call degraded was given by a
    provider.  The snapshot of the graph is one of an earlier state of it. *)
Theorem fused_search_survives query base_dir limit s db0 : snapshot_of now (s_graph s) (s_cache s) db0 ->
  let n := default DEFAULT_SEARCH_LIMIT limit in
  exists ppr d, (seeded_ranking reads query (N.to_nat n) now (s_graph s) (s_cache s)).1 = Done ppr
  /\ (search_fused_with_diagnostics embed now rg reads lost raw_lost query base_dir limit s).1
    = Done (reciprocal_rank_fusion
        [ranked "fts5" TIER2_WEIGHT (map fts_to_search (told (search_scoped query base_dir n (s_index s))));
         ranked "vec0" TIER3_WEIGHT (if lost then [] else
           told (vec_search (compute_embeddings_for_text_tagged embed query (s_embedder s)).1.1 n (s_index s)));
         ranked "graph" TIER4_WEIGHT (map graph_to_search (told (tier4_search reads (to_string query) 3 (s_graph s))));
         ranked "ppr" PPR_WEIGHT (told ppr);
         ranked "ripgrep" TIER1_WEIGHT (if raw_lost then [] else told (tier1_search rg query base_dir (N.to_nat n)))]
        RRF_K (N.to_nat n), d)
  /\ query_embedding_unavailable d = lost
  /\ (query_embedding_unavailable d = false -> query_embedding_degraded d = false ->
      Forall (fun c => trim c = [] \/ served embed c) (chunk_content query 400 80)).
Proof.
  intros Hs n. unfold search_fused_with_diagnostics. fold n.
  destruct (query_embedding embed lost query s) as [embedding s1] eqn:E.
  assert (s_graph s1 = s_graph s /\ s_cache s1 = s_cache s /\ s_index s1 = s_index s) as (-> & -> & ->).
  { unfold query_embedding in E. destruct lost; [by injection E as _ <-|].
    destruct (compute_embeddings_for_text_tagged _ _ _) as [e router]. by injection E as _ <-. }
  destruct (seeded_done query (N.to_nat n) (s_graph s) (s_cache s) db0 Hs) as [ppr Hp].
  destruct (seeded_ranking reads query (N.to_nat n) now (s_graph s) (s_cache s)) as [o cache]. cbn [fst] in Hp |- *. subst o. exists ppr.
  assert (told (raw_search rg raw_lost query base_dir n) = if raw_lost then [] else told (tier1_search rg query base_dir (N.to_nat n))) as Hraw
    by (unfold raw_search; by destruct raw_lost).
  unfold query_embedding in E. destruct lost.
  - injection E as <- <-. cbn [obind fst]. eexists. split; [done|]. rewrite fuse_contributions. unfold contributions. cbn [a_fts a_semantic a_graph a_ppr a_raw].
    rewrite Hraw. by split_and!.
  - pose proof (embedding_flag embed query (s_embedder s)) as HF.
    destruct (compute_embeddings_for_text_tagged embed query (s_embedder s)) as [[v degraded] router]. injection E as <- <-.
    cbn [obind fst]. eexists. split; [done|]. rewrite fuse_contributions. unfold contributions. cbn [a_fts a_semantic a_graph a_ppr a_raw].
    rewrite Hraw. by split_and!.
Qed.
End service.

(** ** The words of a directory *)

Lemma sql_limit_small {A} n (l : list A) : (n < 2 ^ 62)%N -> sql_limit (as_i64 (N.max (saturating_mul n 2) 1)) l = take (N.to_nat (N.max (n * 2) 1)) l.
Proof.
  intros H. unfold sql_limit, as_i64, saturating_mul. cbn zeta. rewrite (N.min_l (n * 2)) by lia. rewrite Z.mod_small by lia.
  destruct (Z.ltb_spec (Z.of_N (N.max (n * 2) 1)) (2 ^ 63)); [|lia].
  destruct (Z.ltb_spec (Z.of_N (N.max (n * 2) 1)) 0); [lia|]. f_equal. lia.
Qed.
Lemma filter_take_prefix {A} (P : A -> Prop) `{forall x, Decision (P x)} n l : filter P (take n l) `prefix_of` filter P l.
Proof. rewrite <- (take_drop n l) at 2. rewrite filter_app. by exists (filter P (drop n l)). Qed.
Lemma prefix_map {A B} (f : A -> B) l1 l2 : l1 `prefix_of` l2 -> map f l1 `prefix_of` map f l2.
Proof. intros [k ->]. rewrite map_app. by eexists. Qed.
Lemma snippet_length `{Codec} `{Moment} path : length (read_canonical_snippet path) <= SNIPPET_MAX_CHARS + 13.
Proof.
  unfold read_canonical_snippet. destruct (read_bytes path) as [b|]; [|cbn; lia]. destruct (_ <=? _)%N; [|cbn; lia].
  destruct (from_utf8 b) as [t|]; [|cbn; lia]. destruct (Nat.leb_spec (length t) SNIPPET_MAX_CHARS); [lia|].
  rewrite !length_app, length_take. change (length (utf8 "…[truncated]")) with 12. cbn [length]. lia.
Qed.
Definition under (base_dir : text) (r : FtsResult) : Prop := starts_with (fr_path r) base_dir = true.
#[export] Instance under_dec base_dir r : Decision (under base_dir r) := bool_eq_dec (starts_with (fr_path r) base_dir) true.

(** The full-text search of a directory gives, in their order, the best of the
    notes whose path begins with it, at most the limit, each with a bounded snippet;
    they are all there (up to the limit) when the whole index has no more matches
    than twice the limit. *)
Theorem scoped_search `{Codec} `{Moment} `{Engines} query base_dir limit db rows : (limit < 2 ^ 62)%N -> trim query <> [] ->
  search_scoped query base_dir limit db = Ok rows -> exists all, matching query db = Ok all /\
  length rows <= N.to_nat limit /\ map fr_path rows `prefix_of` map fr_path (filter (under base_dir) all)
  /\ (length all <= 2 * N.to_nat limit -> map fr_path rows = take (N.to_nat limit) (map fr_path (filter (under base_dir) all)))
  /\ Forall (fun r => length (fr_snippet r) <= SNIPPET_MAX_CHARS + 13) rows.
Proof.
  intros Hl Hq. unfold search_scoped. destruct (trim query) as [|c q]; [done|]. destruct (matching query db) as [all|e]; [|done].
  cbn [rbind]. rewrite sql_limit_small by done. set (n := N.to_nat (N.max (limit * 2) 1)). intros [= <-]. exists all.
  assert (forall l, map fr_path (map with_snippet l) = map fr_path l) as HM by (intros l; rewrite map_map; by apply map_ext).
  split; [done|]. split; [|split; [|split]].
  - rewrite length_map, length_take. lia.
  - rewrite HM. etrans; [|by apply prefix_map, (filter_take_prefix (under base_dir) n)]. apply prefix_map.
    exists (drop (N.to_nat limit) (filter (under base_dir) (take n all))). symmetry. apply take_drop.
  - intros Hall. rewrite HM. rewrite (take_ge all) by lia. symmetry. apply firstn_map.
  - apply Forall_map, Forall_true. intros r. apply snippet_length.
Qed.

(** ** The scan *)

#[local] Opaque TIER1_OUTPUT_CAP_BYTES.

(** [r] is a line of a file of the walk, within the part of it that is read. *)
Definition line_of `{Engines} (query base_dir : text) (r : SearchResult) : Prop := exists e all,
  Some e ∈ walk_dir base_dir (fun depth name => (depth =? 0) || negb (is_hidden name)) /\ d_path e = file r /\ d_file e = true
  /\ (d_depth e = 0 \/ is_hidden (d_name e) = false) /\ d_bytes e = Some all /\ existsb (N.eqb 0) (take TIER1_OUTPUT_CAP_BYTES all) = false
  /\ content r ∈ lines (from_utf8_lossy (take TIER1_OUTPUT_CAP_BYTES all)) /\ contains (content r) query = true.

Lemma scan_lines_spec query path limit idx ls results : length results < limit ->
  exists found, let '(all, full) := scan_lines query path limit idx ls results in all = results ++ found
  /\ length all <= limit /\ (full = false -> length all < limit)
  /\ Forall (fun r => file r = path /\ content r ∈ ls /\ contains (content r) query = true) found.
Proof.
  revert idx results. induction ls as [|l ls IH]; intros idx results Hr; cbn [scan_lines]; [exists []; rewrite app_nil_r; repeat split; [lia|done|done]|].
  assert (forall found, Forall (fun r => file r = path /\ content r ∈ ls /\ contains (content r) query = true) found ->
    Forall (fun r => file r = path /\ content r ∈ l :: ls /\ contains (content r) query = true) found) as HW.
  { intros found Hf. apply (Forall_impl _ _ _ Hf). intros r (? & ? & ?). split_and!; [done|by right|done]. }
  destruct (contains l query) eqn:C.
  - set (r := {| file := path |}). destruct (Nat.leb_spec limit (length (results ++ [r]))) as [Hle|Hlt].
    + exists [r]. rewrite length_app in *. cbn in *. split_and!; [done|lia|done|]. apply Forall_cons. split; [|done]. split_and!; [done|by left|done].
    + destruct (IH (S idx) (results ++ [r]) Hlt) as [found Hf]. exists (r :: found).
      destruct (scan_lines query path limit (S idx) ls (results ++ [r])) as [all full]. destruct Hf as (E & H1 & H2 & H3).
      split_and!; [by rewrite E, <- app_assoc|done|done|]. apply Forall_cons. split; [split_and!; [done|by left|done]|by apply HW].
  - destruct (IH (S idx) results Hr) as [found Hf]. exists found.
    destruct (scan_lines query path limit (S idx) ls results) as [all full]. destruct Hf as (E & H1 & H2 & H3). split_and!; auto.
Qed.
Lemma scan_entries_spec `{Engines} query base_dir limit deadline turn entries results all :
  (forall e, e ∈ entries -> e ∈ walk_dir base_dir (fun depth name => (depth =? 0) || negb (is_hidden name))) -> length results < limit ->
  Forall (line_of query base_dir) results -> scan_entries query limit deadline turn entries results = Ok all ->
  length all <= limit /\ Forall (line_of query base_dir) all.
Proof.
  revert turn results. induction entries as [|e entries IH]; intros turn results Hw Hr Hf; cbn [scan_entries]; [intros [= <-]; split; [lia|done]|].
  destruct (_ <=? _)%N; [done|].
  assert (exists found, let '(now, full) := scan_entry query limit e results in now = results ++ found /\ length now <= limit
    /\ (full = false -> length now < limit) /\ Forall (line_of query base_dir) found) as [found HE].
  { assert (exists found, let '(now, full) := (results, false) in now = results ++ found /\ length now <= limit
      /\ (full = false -> length now < limit) /\ Forall (line_of query base_dir) found) as HN by (exists []; rewrite app_nil_r; split_and!; [done|lia|done|done]).
    unfold scan_entry. destruct e as [e|]; [|done]. destruct (d_file e) eqn:Ef; cbn [negb]; [|done]. destruct (d_bytes e) as [bytes|] eqn:Eb; [|done].
    destruct (existsb _ _) eqn:Ez; [done|]. set (ls := lines _).
    destruct (scan_lines_spec query (d_path e) limit 0 ls results Hr) as [found Hs]. exists found.
    destruct (scan_lines query (d_path e) limit 0 ls results) as [now full]. destruct Hs as (H1 & H2 & H3 & H4). split_and!; [done|done|done|].
    apply (Forall_impl _ _ _ H4). intros r (E1 & E2 & E3). exists e, bytes.
    assert (Some e ∈ walk_dir base_dir (fun depth name => (depth =? 0) || negb (is_hidden name))) as Hin by (apply Hw; by left).
    pose proof (walk_kept _ _ _ Hin) as K. cbn in K. apply orb_true_iff in K as [K%Nat.eqb_eq|K%negb_true_iff]; split_and!; auto. }
  destruct (scan_entry query limit e results) as [res [|]]; destruct HE as (-> & H1 & H2 & H3).
  - intros [= <-]. split; [done|]. by apply Forall_app.
  - apply IH; [intros; apply Hw; by right|by apply H2|by apply Forall_app].
Qed.
(** The scan that stands in for ripgrep gives at most the limit of results, each a
    line with the query in it, of a regular file that is not hidden and has no zero
    byte in the part that is read. *)
Theorem scan_finds_lines `{Engines} query base_dir limit all : 0 < limit -> search_in_process query base_dir limit = Ok all ->
  length all <= limit /\ Forall (line_of query base_dir) all.
Proof.
  intros Hl. unfold search_in_process. intros Hs.
  apply (scan_entries_spec query base_dir limit _ _ _ [] all) in Hs; [exact Hs|by intros e He|exact Hl|apply Forall_nil_2].
Qed.

(** ** What ripgrep wrote *)

Lemma digits_value_snoc t c : digits_value (t ++ [c]) = (digits_value t * 10 + (c - 48))%N.
Proof. unfold digits_value. by rewrite fold_left_app. Qed.
Lemma digits_value_app t acc : digits_value (t ++ acc) = (digits_value t * 10 ^ N.of_nat (length acc) + digits_value acc)%N.
Proof.
  induction acc as [|c acc IH] using rev_ind; [rewrite app_nil_r; cbn; lia|].
  rewrite app_assoc, !digits_value_snoc, IH, length_app. cbn [length]. rewrite Nat.add_1_r, Nat2N.inj_succ, N.pow_succ_r'. lia.
Qed.
Lemma decimal_go_value fuel n acc : n < fuel ->
  digits_value (decimal_go fuel n acc) = (N.of_nat n * 10 ^ N.of_nat (length acc) + digits_value acc)%N
  /\ forallb is_ascii_digit (decimal_go fuel n acc) = forallb is_ascii_digit acc.
Proof.
  revert n acc. induction fuel as [|f IH]; intros n acc Hn; [lia|]. cbn [decimal_go].
  assert (forall k, k < 10 -> digits_value ((48 + N.of_nat k)%N :: acc) = (N.of_nat k * 10 ^ N.of_nat (length acc) + digits_value acc)%N) as HD.
  { intros k Hk. change ((48 + N.of_nat k)%N :: acc) with ([(48 + N.of_nat k)%N] ++ acc). rewrite digits_value_app. cbn [digits_value fold_left]. lia. }
  assert (is_ascii_digit (48 + N.of_nat (n mod 10))%N = true) as Hdig.
  { unfold is_ascii_digit. pose proof (Nat.mod_upper_bound n 10). apply andb_true_iff. split; apply N.leb_le; lia. }
  destruct (Nat.ltb_spec n 10) as [L|L].
  - rewrite Nat.mod_small in * by done. split; [by apply HD|]. cbn [forallb]. by rewrite Hdig.
  - destruct (IH (n / 10) ((48 + N.of_nat (n mod 10))%N :: acc)) as [-> ->].
    { apply Nat.Div0.div_lt_upper_bound. lia. }
    split; [|cbn [forallb]; by rewrite Hdig]. rewrite HD by (by apply Nat.mod_upper_bound). cbn [length].
    rewrite Nat2N.inj_succ, N.pow_succ_r'. pose proof (Nat.div_mod_eq n 10) as Hdm.
    replace (N.of_nat n) with (N.of_nat (n / 10) * 10 + N.of_nat (n mod 10))%N by lia. lia.
Qed.
Lemma parse_decimal n w : (N.of_nat n < 2 ^ w)%N -> parse_unsigned w (decimal n) = Some (N.of_nat n).
Proof.
  intros H. destruct (decimal_go_value (S n) n [] ltac:(lia)) as [HV HF]. fold (decimal n) in HV, HF. cbn in HV, HF.
  rewrite N.mul_1_r, N.add_0_r in HV. pose proof (decimal_nonempty n) as HN. unfold parse_unsigned.
  destruct (decimal n) as [|c t]; [done|].
  assert (c <> 43%N) as Hc by (intros ->; cbn in HF; discriminate HF).
  assert (match (c :: t : text) with 43%N :: (_ :: _) => tl (c :: t) | _ => (c :: t : text) end = c :: t) as ->.
  { clear -Hc. repeat (case_match; try done); by simplify_eq. }
  rewrite HF, HV. cbn [andb]. destruct (N.ltb_spec (N.of_nat n) (2 ^ w)); [done|lia].
Qed.

(** A result that ripgrep can write on a line of its own. *)
Definition printable (r : SearchResult) : Prop :=
  58%N ∉ file r /\ 10%N ∉ file r /\ 10%N ∉ content r /\ last (content r) <> Some 13%N /\ (line r < 2 ^ 32)%N.
Definition printed (r : SearchResult) : text := file r ++ 58%N :: decimal (N.to_nat (line r)) ++ 58%N :: content r.
Lemma no_char c t : (57 < c)%N \/ (c < 48)%N -> forallb is_ascii_digit t = true -> c ∉ t.
Proof.
  intros Hc Ht Hin. rewrite forallb_forall in Ht. specialize (Ht c ltac:(by apply list_elem_of_In)). unfold is_ascii_digit in Ht.
  apply andb_true_iff in Ht as [H1%N.leb_le H2%N.leb_le]. lia.
Qed.
Lemma decimal_chars n : forallb is_ascii_digit (decimal n) = true.
Proof. destruct (decimal_go_value (S n) n [] ltac:(lia)) as [_ H]. exact H. Qed.
Lemma chop_return_other t : last t <> Some 13%N -> chop_return t = t.
Proof.
  unfold chop_return, strip_suffix, ends_with. intros H. destruct t as [|c t] using rev_ind; [done|]. rewrite rev_app_distr.
  cbn [rev app starts_with]. destruct (N.eqb_spec 13 c) as [<-|N]; [by rewrite last_snoc in H|done].
Qed.
Lemma printed_last r : printable r -> last (printed r) <> Some 13%N.
Proof.
  intros (_ & _ & _ & H & _). unfold printed. destruct (content r) as [|c t] using rev_ind.
  - rewrite app_comm_cons, app_assoc. by rewrite last_snoc.
  - rewrite !app_comm_cons, !app_assoc, last_snoc. by rewrite last_snoc in H.
Qed.
Lemma parse_printed r : printable r -> parse_rg_line (chop_return (printed r)) = Some r.
Proof.
  intros Hr. rewrite chop_return_other by by apply printed_last. destruct Hr as (H1 & _ & _ & _ & H2). unfold parse_rg_line, printed.
  rewrite split_once_at by done. cbn [mbind option_bind]. rewrite split_once_at by (apply no_char; [lia|apply decimal_chars]). cbn [mbind option_bind].
  rewrite parse_decimal by (by rewrite N2Nat.id). cbn [mbind option_bind]. rewrite N2Nat.id. by destruct r.
Qed.

(** When ripgrep ends well within the time and the cap, the results it printed, one
    on a line, are the results of the search, in its order and cut at the limit; a
    path with a colon is not one it can print. *)
Theorem rg_output_read_back `{Engines} rg query base_dir limit p hits : spawn rg (rg_argv query base_dir limit) = Some p ->
  (rg_elapsed p <= TIER1_TIMEOUT)%N -> rg_exit p = Ok (Some 0%Z) -> Forall printable hits ->
  (exists stdout, read_output [] (rg_reads p) = Ok (stdout, false) /\ from_utf8_lossy stdout = flat_map (fun r => printed r ++ [10%N]) hits) ->
  search_via_rg rg query base_dir limit = Ok (take limit hits).
Proof.
  intros Hs Ht Hx Hp (stdout & Ho & Hl). unfold search_via_rg. rewrite Hs. destruct (N.ltb_spec TIER1_TIMEOUT (rg_elapsed p)); [lia|].
  rewrite Ho, Hx. rewrite (bool_decide_true (Some 0%Z = Some 0%Z)) by done. cbn [negb andb]. rewrite Hl. do 2 f_equal.
  assert (flat_map (fun r => printed r ++ [10%N]) hits = flat_map (fun l => l ++ [10%N]) (map printed hits)) as ->.
  { clear. induction hits as [|r hits IH]; cbn [flat_map map]; [done|]. by rewrite IH. }
  rewrite lines_feeds.
  - clear -Hp. induction Hp as [|r l Hr _ IH]; [done|]. cbn [map omap list_omap]. rewrite parse_printed by done. by f_equal.
  - apply Forall_map. apply (Forall_impl _ _ _ Hp). intros r (_ & H1 & H2 & _). unfold printed.
    pose proof (no_char 10%N (decimal (N.to_nat (line r))) ltac:(lia) (decimal_chars _)) as H3.
    rewrite elem_of_app, elem_of_cons, elem_of_app, elem_of_cons. by intros [?|[?|[?|[?|?]]]].
Qed.

(** ** The neighbourhood of a notion *)

Section neighbourhood.
Context {HScan : Scan}.

Lemma add_nodes_spec rows ns seen : list_to_set (map sn_name ns) = seen -> NoDup (map sn_name ns) ->
  let '(ns', seen') := foldl add_node (ns, seen) rows in
  list_to_set (map sn_name ns') = seen' /\ NoDup (map sn_name ns') /\ ns `prefix_of` ns'
  /\ forall n, n ∈ ns' -> n ∈ ns \/ exists row, row ∈ rows /\ sn_name n = g_notion row /\ sn_depth n = g_depth row.
Proof.
  revert ns seen. induction rows as [|row rows IH]; intros ns seen Hs Hn; cbn [foldl]; [split_and!; auto|].
  unfold add_node at 2. cbn [fst snd]. case_bool_decide as Hin.
  - specialize (IH ns seen Hs Hn). destruct (foldl add_node (ns, seen) rows) as [ns' seen']. destruct IH as (H1 & H2 & H3 & H4).
    split_and!; try done. intros n [?|(r & ? & ?)]%H4; [by left|right; exists r; by split; [right|]].
  - set (node := {| sn_name := g_notion row |}).
    assert (list_to_set (map sn_name (ns ++ [node])) = {[g_notion row]} ∪ seen) as Hs'.
    { rewrite map_app, list_to_set_app_L, Hs. cbn. set_solver. }
    assert (NoDup (map sn_name (ns ++ [node]))) as Hn'.
    { rewrite map_app. apply NoDup_app. split_and!; [done| |apply NoDup_singleton]. intros x Hx ->%list_elem_of_singleton. apply Hin.
      rewrite <- Hs. by apply elem_of_list_to_set. }
    specialize (IH _ _ Hs' Hn'). destruct (foldl add_node (ns ++ [node], _) rows) as [ns' seen']. destruct IH as (H1 & H2 & H3 & H4).
    split_and!; [done|done|etrans; [by apply prefix_app_r|done]|]. intros n [[?| ->%list_elem_of_singleton]%elem_of_app|(r & ? & ?)]%H4; [by left| |].
    + right. exists row. by split; [left|].
    + right. exists r. by split; [right|].
Qed.

(** [e] is the names of the ends of a relationship, both seen. *)
Definition edge_of (db : graph_db) (seen : gset string) (e : SubgraphEdge) : Prop := se_source e ∈ seen /\ se_target e ∈ seen /\
  exists rel, rel ∈ relationships db /\ notion_name (r_source rel) db = Some (se_source e) /\ notion_name (r_target rel) db = Some (se_target e)
    /\ r_type rel = se_relation e.
Lemma add_edge_ok db seen acc rel : rel ∈ relationships db -> NoDup acc -> Forall (edge_of db seen) acc ->
  NoDup (add_edge db seen acc rel) /\ Forall (edge_of db seen) (add_edge db seen acc rel).
Proof.
  intros Hr Hn Hf. unfold add_edge. destruct (notion_name (r_source rel) db) as [s|] eqn:Es; [|done].
  destruct (notion_name (r_target rel) db) as [t|] eqn:Et; [|done]. destruct (bool_decide (s ∈ seen)) eqn:Ds; cbn [negb orb]; [|done].
  destruct (bool_decide (t ∈ seen)) eqn:Dt; cbn [negb]; [|done]. apply bool_decide_eq_true in Ds, Dt.
  destruct (existsb _ acc) eqn:Ex; [done|]. split.
  - apply NoDup_app. split_and!; [done| |apply NoDup_singleton]. intros e He ->%list_elem_of_singleton.
    apply not_true_iff_false in Ex. apply Ex, existsb_exists. eexists. split; [by apply list_elem_of_In|]. cbn. by rewrite !String.eqb_refl.
  - apply Forall_app. split; [done|]. apply Forall_cons. split; [|done]. split_and!; [done|done|]. by exists rel.
Qed.
Lemma add_edges_ok db seen nodes acc : NoDup acc -> Forall (edge_of db seen) acc ->
  NoDup (foldl (add_edges db seen) acc nodes) /\ Forall (edge_of db seen) (foldl (add_edges db seen) acc nodes).
Proof.
  revert acc. induction nodes as [|n nodes IH]; intros acc Hd Hf; cbn [foldl]; [done|].
  assert (NoDup (add_edges db seen acc n) /\ Forall (edge_of db seen) (add_edges db seen acc n)) as [H1 H2]; [|by apply IH].
  unfold add_edges. destruct (find_entity_by_name _ _) as [entity|]; [|done].
  assert (forall l acc, (forall r, r ∈ l -> r ∈ relationships db) -> NoDup acc -> Forall (edge_of db seen) acc ->
    NoDup (foldl (add_edge db seen) acc l) /\ Forall (edge_of db seen) (foldl (add_edge db seen) acc l)) as HF.
  { clear. induction l as [|r l IH]; intros acc Hl Hd Hf; cbn [foldl]; [done|].
    destruct (add_edge_ok db seen acc r) as [H1 H2]; [apply Hl; by left|done|done|]. apply IH; [intros; apply Hl; by right|done|done]. }
  apply HF; [|done|done]. intros r [_ Hr]%list_elem_of_filter. by rewrite scan_perm in Hr.
Qed.

(** The neighbourhood that an answer is synthesised from is closed: its nodes are
    distinct notions that the traversal found, the centre among them at depth 0 when
    it found any, and its edges are distinct, each from one of the nodes to another by
    a relationship of the database. *)
Theorem neighbourhood_closed name hops db :
  let c := subgraph_synthesis name hops db in
  let names : gset string := list_to_set (map sn_name (nodes c)) in
  NoDup (map sn_name (nodes c)) /\ NoDup (edges c) /\ Forall (edge_of db names) (edges c)
  /\ (nodes c <> [] -> {| sn_name := name; sn_depth := 0 |} ∈ nodes c)
  /\ forall n, n ∈ nodes c -> n = {| sn_name := name; sn_depth := 0 |} \/ exists row, row ∈ bfs_search name hops db /\ sn_name n = g_notion row /\ sn_depth n = g_depth row.
Proof.
  unfold subgraph_synthesis. destruct (trim (utf8 name)) as [|ch t].
  { cbn. split_and!; [by apply NoDup_nil_2|by apply NoDup_nil_2|by apply Forall_nil_2|done|by intros m ?%elem_of_nil]. }
  set (centre := {| sn_name := name; sn_depth := 0 |}). set (bfs := bfs_search name hops db).
  set (start := match bfs with [] => _ | _ => _ end).
  assert (list_to_set (map sn_name start.1) = start.2 /\ NoDup (map sn_name start.1) /\ (start.1 = [] /\ bfs = [] \/ start.1 = [centre])) as (S1 & S2 & S3).
  { unfold start. destruct bfs; cbn; split_and!; auto; try constructor; try set_solver; constructor. }
  pose proof (add_nodes_spec bfs start.1 start.2 S1 S2) as HA. rewrite <- surjective_pairing in HA.
  destruct (foldl add_node start bfs) as [ns seen]. destruct HA as (H1 & H2 & H3 & H4). cbn [nodes edges].
  destruct (add_edges_ok db seen ns [] ltac:(constructor) ltac:(constructor)) as [E1 E2].
  assert (forall n, n ∈ sort_by before_node ns <-> n ∈ ns) as HS by (intros n; by rewrite (sort_by_perm before_node)).
  split_and!.
  - by rewrite (sort_by_perm before_node).
  - by rewrite (sort_by_perm before_edge).
  - rewrite (sort_by_perm before_edge). assert (list_to_set (map sn_name (sort_by before_node ns)) = seen) as ->; [|done].
    apply set_eq. intros x. rewrite <- H1, !elem_of_list_to_set. by rewrite (sort_by_perm before_node).
  - intros Hne. apply HS. destruct S3 as [[S3 Eb]|S3]; rewrite S3 in *.
    + exfalso. apply Hne. destruct ns as [|n ns]; [done|]. destruct (H4 n ltac:(by left)) as [Hn|(row & Hr & _)]; [by apply elem_of_nil in Hn|].
      rewrite Eb in Hr. by apply elem_of_nil in Hr.
    + destruct H3 as [k ->]. by left.
  - intros n Hn%HS. destruct (H4 n Hn) as [Hin|?]; [left|by right]. destruct S3 as [[S3 _]|S3]; rewrite S3 in Hin; [by apply elem_of_nil in Hin|].
    by apply list_elem_of_singleton in Hin.
Qed.
End neighbourhood.

(** ** Searches of a small vault

    The witnesses of the properties of the search, and searches that surprise: a note
    of the directory that is lost behind others, a sibling directory, a query that is
    an option of ripgrep, a path with a colon, a fact that is over, and a private note
    in a prompt for a provider in the cloud. *)

#[local] Instance rowid_order : Scan := {| scan A l := l; scan_perm A l := reflexivity l |}.
#[local] Instance ascii_nfc : Nfc := fun t => t.
#[local] Existing Instance codec.
#[local] Existing Instance IndexSettles.clock.
#[local] Existing Instance demo_credentials.
#[local] Existing Instance demo_wire.
#[local] Existing Instance demo_engine.

(** *** A machine: every row matches every query, in the order of the index; ripgrep
    prints two lines; the walk finds two files. *)

Definition printed_hits : list SearchResult := [{| file := utf8 "/v/a.md"; line := 3; content := utf8 "alpha: one" |}; {| file := utf8 "/v/b.md"; line := 12; content := utf8 "alpha" |}].
Definition rg_says (r : list N) : rg_process := {| rg_reads := [Ok r; Ok []]; rg_exit := Ok (Some 0%Z); rg_stderr := []; rg_elapsed := 5 |}.
Definition a_file (path name body : string) : disk_entry :=
  {| d_path := utf8 path; d_depth := 1; d_name := Some (utf8 name); d_file := true; d_bytes := Some (bytes_of (utf8 body)) |}.
Definition all_files : list disk_entry := [a_file "/v/a.md" "a.md" "alpha"; a_file "/v/.git" ".git" "alpha"].
#[local] Instance machine : Engines.
Proof.
  refine {| rg_env := None; rg_home := None; which_rg := Some (utf8 "/usr/bin/rg"); is_file _ := false;
    spawn rg argv := Some (rg_says (flat_map (fun r => bytes_of (printed r) ++ [10%N]) printed_hits));
    from_utf8_lossy := utf8_decode;
    walk_dir base keep := filter (fun e => match e with Some e => keep (d_depth e) (d_name e) | None => false end = true) (map Some all_files);
    tick _ := 0%N;
    fts_match query l := Ok (map (fun r => (f_rowid r, f64_of 0)) l);
    nearest v k l := Ok (map fst l);
    is_alphanumeric c := is_ascii_digit c || ((65 <=? c) && (c <=? 90))%N || ((97 <=? c) && (c <=? 122))%N |}.
  intros base keep e [H _]%list_elem_of_filter. exact H.
Defined.

Definition note_row (id path : string) : MetaRow :=
  {| m_rowid := rowid_of (utf8 id); m_id := utf8 id; m_path := utf8 path; m_source := utf8 "vault"; m_created := []; m_updated := [];
     m_hash := utf8 "1"; m_embedded := [] |}.
Definition words_row (id : string) : FtsRow := {| f_rowid := rowid_of (utf8 id); f_id := utf8 id; f_title := []; f_content := []; f_tags := [] |}.
Definition notes : index_db :=
  {| meta := [note_row "o1" "/other/1.md"; note_row "o2" "/other/2.md"; note_row "w" "/v/work/w.md"; note_row "s" "/v/workshop/s.md"]%string;
     fts := map words_row ["o1"; "o2"; "w"; "s"]%string; vectors := []; engine := None |}.
#[local] Instance here : Moment := moment [("/v/work/w.md", utf8 "Private plans of mine")]%string none_fails.

(** *** The directory *)

Definition found (r : result (list FtsResult) text) : list text := match r with Ok l => map fr_path l | Err _ => [] end.
Lemma scoped_search_witness : exists rows, search_scoped (utf8 "plans") (utf8 "/v/work/") 2 notes = Ok rows /\ exists all, matching (utf8 "plans") notes = Ok all /\
  length rows <= 2 /\ map fr_path rows `prefix_of` map fr_path (filter (under (utf8 "/v/work/")) all)
  /\ (length all <= 2 * 2 -> map fr_path rows = take 2 (map fr_path (filter (under (utf8 "/v/work/")) all)))
  /\ Forall (fun r => length (fr_snippet r) <= SNIPPET_MAX_CHARS + 13) rows.
Proof.
  destruct (search_scoped (utf8 "plans") (utf8 "/v/work/") 2 notes) as [rows|e] eqn:E; [|discriminate E]. exists rows. split; [done|].
  apply (scoped_search (utf8 "plans") (utf8 "/v/work/") 2 notes rows); [lia|done|exact E].
Defined.
(** The only note of the directory is third of all: with a limit of one it is not
    found. *)
Example note_behind_others : found (search_scoped (utf8 "plans") (utf8 "/v/work/") 1 notes) = []
  /\ found (search_scoped (utf8 "plans") (utf8 "/v/work/") 2 notes) = [utf8 "/v/work/w.md"].
Proof. by vm_compute. Qed.
(** The directory is a prefix of characters. *)
Example sibling_is_found : found (search_scoped (utf8 "plans") (utf8 "/v/work") 5 notes) = [utf8 "/v/work/w.md"; utf8 "/v/workshop/s.md"].
Proof. by vm_compute. Qed.

(** *** Ripgrep *)

Lemma rg_output_read_back_witness : search_via_rg (utf8 "/usr/bin/rg") (utf8 "alpha") (utf8 "/v") 1 = Ok (take 1 printed_hits).
Proof.
  apply (rg_output_read_back (utf8 "/usr/bin/rg") (utf8 "alpha") (utf8 "/v") 1 (rg_says (flat_map (fun r => bytes_of (printed r) ++ [10%N]) printed_hits))).
  - reflexivity.
  - done.
  - reflexivity.
  - repeat (apply Forall_cons; split; [split_and!; try (apply (bool_decide_unpack _); by vm_compute)|]). done.
  - eexists. split; [vm_compute; reflexivity|]. by vm_compute.
Defined.
Lemma scan_finds_lines_witness : exists all, search_in_process (utf8 "alpha") (utf8 "/v") 5 = Ok all /\ all <> []
  /\ length all <= 5 /\ Forall (line_of (utf8 "alpha") (utf8 "/v")) all.
Proof.
  destruct (search_in_process (utf8 "alpha") (utf8 "/v") 5) as [all|e] eqn:E; [|exfalso; vm_compute in E; discriminate E]. exists all.
  split; [done|]. split; [intros ->; vm_compute in E; discriminate E|]. apply (scan_finds_lines (utf8 "alpha") (utf8 "/v") 5 all); [lia|exact E].
Defined.
(** A file whose name has a colon is not in the results, though ripgrep found it. *)
Example colon_is_lost : parse_rg_line (utf8 "/v/plan: b.md:3:alpha") = None.
Proof. by vm_compute. Qed.
(** The query comes after the options, and no argument ends them: one that begins
    with a dash is an option. *)
Example query_is_an_option : rg_argv (utf8 "--pre=/tmp/x") (utf8 "/v") 20 !! 6 = Some (utf8 "--pre=/tmp/x")
  /\ utf8 "--" ∉ rg_argv (utf8 "--pre=/tmp/x") (utf8 "/v") 20.
Proof. split; [by vm_compute|]. by apply (bool_decide_unpack _). Qed.

(** *** The fused search *)

Definition small_service : service :=
  {| s_index := notes; s_graph := moved; s_cache := None; s_embedder := with_providers 1; s_llm := demo_router "http://10.0.0.7:11434" |}.
(** The graph and the embedding fail, and the words of the directory are found. *)
Definition no_graph : graph_reads := {| walk_fails := Some (utf8 "locked"); word_fails _ := true; core_fails := Some (utf8 "locked"); around_fails := true |}.
Lemma fused_search_survives_witness : exists results d,
  (search_fused_with_diagnostics silent 0 (Some (utf8 "/usr/bin/rg")) no_graph true false (utf8 "plans") (utf8 "/v") None small_service).1 = Done (results, d)
  /\ map (fun f => (file (result_of f), provenance f)) results
    = [(utf8 "/v/work/w.md", ["fts5"]); (utf8 "/v/a.md", ["ripgrep"]); (utf8 "/v/workshop/s.md", ["fts5"]); (utf8 "/v/b.md", ["ripgrep"])]%string /\ query_embedding_unavailable d = true.
Proof.
  destruct (fused_search_survives silent 0 (Some (utf8 "/usr/bin/rg")) no_graph true false (utf8 "plans") (utf8 "/v") None small_service moved) as (ppr & d & H1 & H2 & H3 & _);
    [done|]. eexists _, d. split; [exact H2|]. split; [|exact H3]. injection H1 as <-. vm_compute. reflexivity.
Defined.

(** *** The prompt of a synthesis *)

(** A fact that is over is in the neighbourhood as if it still held. *)
Example fact_is_over :
  map (fun e => (se_source e, se_relation e, se_target e)) (edges (subgraph_synthesis "beta" 2 (assert_fact (fact "r3" "n2" "partner_of" "n3" "2026-03-02") moved)))
    = [("acme", "partner_of", "beta"); ("ada", "works_at", "acme"); ("ada", "works_at", "beta")]%string
  /\ relationships_as_of "2026-04-01" moved = filter (fun r => r_id r = "r2"%string) (relationships moved).
Proof. by vm_compute. Qed.

(** Whatever the notes are, the prompt is routed as public: a provider in the cloud
    gets them. *)
Definition prompts_to (name : string) (o : outcome (result text LlmError * router)) : list text :=
  match o with Done (_, r) => omap (fun x => if String.eqb x.1 name then Some x.2 else None) (egress r) | _ => [] end.
Example private_note_leaves :
  let context := match search_scoped (utf8 "plans") (utf8 "/v/work/") 2 notes with Ok rows => map fts_to_search rows | Err _ => [] end in
  match prompts_to "openai" (synthesize false [] (utf8 "summarize: plans") context (demo_router "http://10.0.0.7:11434")) with
  | [prompt] => contains prompt (utf8 "Private plans of mine")
  | _ => false
  end = true.
Proof. by vm_compute. Qed.
