(* ===== verification/Pages.v ===== *)
(** * Pages of the wiki: sources, versions, dead sources

    Models zen-vault/src/distill/cascade.rs, zen-vault/src/wiki/iterations.rs and
    what they use of zen-vault/src/wiki.rs and wiki_compile.rs, over the files of
    [Transaction]: the list of sources of a page, the versions kept of it, the
    pages that follow an archived note, and the sweep that strips dead sources and
    deletes orphans.  A path is its text, absolute and normalised.  Any operation on
    the disk may be refused ([Refusals]); [read_dir] lists in any order ([Listing]);
    the letters of a slug are the class [Alphabet], diffs the class [Patches]. *)

From S2P Require Import Prelude Text Sanitize Ordering FileTools Graph Transaction.
From Stdlib Require Import Lia.
Local Open Scope list_scope.

Inductive disk_op := ReadDir (p : text) | ReadFile (p : text) | WriteFile (p : text) | PutChar (p : text) (k : nat) | RemoveFile (p : text) | Track (p : text) | MakeDirs (p : text).
Class Refusals := refuses : disk_op -> bool.
Class Listing := {
  list_order : list text -> list text;
  list_order_perm : forall l, list_order l ≡ₚ l;
}.
Class Alphabet := alphanumeric : char -> bool.
Class Patches := create_patch : text -> text -> text.

(** ** Front matter of a page *)

(** The rest of the first line of the front matter that begins with [key]. *)
Fixpoint front_entry (key : text) (inside : bool) (ls : list text) : option text :=
  match ls with
  | [] => None
  | line :: rest =>
    let trimmed := trim_end line in
    if bool_decide (trimmed = utf8 "---") then if inside then None else front_entry key true rest
    else if negb inside then front_entry key inside rest
    else match strip_prefix trimmed key with Some value => Some value | None => front_entry key inside rest end
  end.
Definition quote_char (c : char) : bool := (c =? 34)%N.
(** [str::split] on a text that is not empty; [acc] is the piece so far, reversed. *)
Fixpoint split_text (sep t : text) (skip : nat) (acc : text) : list text :=
  match t with
  | [] => [rev acc]
  | c :: rest =>
    match skip with
    | S k => split_text sep rest k acc
    | O => if starts_with t sep then rev acc :: split_text sep rest (length sep - 1) []
           else split_text sep rest 0 (c :: acc)
    end
  end.
Definition SOURCES : text := utf8 "sources:".
Definition BETWEEN : text := [34; 44; 32; 34]%N.
Definition parse_list (rest : text) : list text :=
  let listed := trim rest in
  let inner := default listed (l ← strip_prefix listed [91%N]; strip_suffix l [93%N]) in
  filter (fun item => item <> []) (map (fun item => trim_matches quote_char (trim item)) (split_text BETWEEN inner 0 [])).
Definition parse_sources (content : text) : option (list text) := parse_list <$> front_entry SOURCES false (lines content).
Definition frontmatter_title (content : text) : option text :=
  (fun rest => trim_matches quote_char (trim rest)) <$> front_entry (utf8 "title:") false (lines content).

Definition quote_source (s : text) : text := [34%N] ++ s ++ [34%N].
Fixpoint serialize (sources : list text) : text :=
  match sources with
  | [] => []
  | [s] => quote_source s
  | s :: rest => quote_source s ++ utf8 ", " ++ serialize rest
  end.
Definition sources_line (sources : list text) : text := utf8 "sources: [" ++ serialize sources ++ [93%N].
Fixpoint write_go (entry : text) (inside : bool) (ls : list text) : list text * bool :=
  match ls with
  | [] => ([], false)
  | line :: rest =>
    let trimmed := trim_end line in
    if bool_decide (trimmed = utf8 "---") then
      let '(out, replaced) := write_go entry (negb inside) rest in (trimmed :: out, replaced)
    else if inside && starts_with trimmed SOURCES then
      let '(out, _) := write_go entry inside rest in (entry :: out, true)
    else let '(out, replaced) := write_go entry inside rest in (line :: out, replaced)
  end.
Definition write_sources (content : text) (sources : list text) : text :=
  let '(out, replaced) := write_go (sources_line sources) false (lines content) in
  if replaced then flat_map (fun l => l ++ [10%N]) out else content.

(** ** Links and slugs *)

(** [extract_wikilinks]: [cur] is the link being read. *)
Fixpoint links_go (cur : option text) (t : text) : list text :=
  match cur, t with
  | _, [] => []
  | None, 91%N :: 91%N :: rest => links_go (Some []) rest
  | None, _ :: rest => links_go None rest
  | Some link, 93%N :: 93%N :: rest => match link with [] => links_go None rest | _ => link :: links_go None rest end
  | Some link, 93%N :: rest => links_go (Some link) rest
  | Some link, c :: rest => links_go (Some (link ++ [c])) rest
  end.
Definition extract_wikilinks (content : text) : list text := links_go None content.
Definition bracketed (target : text) : text := utf8 "[[" ++ target ++ utf8 "]]".

Definition is_dash (c : char) : bool := (c =? 45)%N.
Fixpoint slug_go `{Alphabet} (prev_dash : bool) (t : text) : text :=
  match t with
  | [] => []
  | c :: rest => if alphanumeric c then c :: slug_go false rest else if prev_dash then slug_go true rest else 45%N :: slug_go true rest
  end.
Definition slugify `{Alphabet, Lowercase} (title : text) : text := trim_matches is_dash (slug_go false (to_lowercase title)).

(** ** Paths and directories *)

Definition SLASH : char := 47%N.
Definition within (dir p : text) : text := dir ++ SLASH :: p.
(** The directory of a path and its last name. *)
Definition cut_name (p : text) : option (text * text) := '(name, dir) ← split_once SLASH (rev p); Some (rev dir, rev name).
Definition dir_of (p : text) : option text := fst <$> cut_name p.
Definition name_of (p : text) : text := match cut_name p with Some (_, name) => name | None => p end.
Definition stem_of (p : text) : text := (split_name (name_of p)).1.
Definition is_md (p : text) : bool := bool_decide ((split_name (name_of p)).2 = Some (utf8 "md")).
Definition is_dir (d : fs) (p : text) : bool := match d !! p with Some Dir => true | _ => false end.
(** [strip_prefix]: the rest of a path below a directory. *)
Definition relative (base p : text) : option text := strip_prefix p (base ++ [SLASH]).

Section disk.
Context `{Refusals, Listing}.

Definition entries (d : fs) (dir : text) : option (list text) :=
  if refuses (ReadDir dir) || negb (is_dir d dir) then None
  else Some (list_order (filter (fun p => dir_of p = Some dir) (map_to_list d).*1)).
Definition read_to_string (p : text) (d : fs) : option text :=
  if refuses (ReadFile p) then None else match d !! p with Some (File content _) => Some content | _ => None end.
(** [write_atomic] of [zen-core/src/atomic_file.rs]: the file holds the old text or
    the new one.  The temporary file beside it, which a failure leaves, is left out:
    nothing here reads a name that ends in [.tmp]. *)
Definition write_file (p content : text) (now : Z) (d : fs) : result fs text :=
  if refuses (WriteFile p) then Err (utf8 "write: " ++ p) else write p content now d.
(** [fs::write]: opening the file truncates it; the disk may then refuse any
    character, and what was put before stays. *)
Fixpoint put (p : text) (k : nat) (content : text) : text :=
  match content with
  | [] => []
  | c :: rest => if refuses (PutChar p k) then [] else c :: put p (S k) rest
  end.
Definition overwrite (p content : text) (now : Z) (d : fs) : option text * fs :=
  if refuses (WriteFile p) then (Some (utf8 "write: " ++ p), d)
  else match write p (put p 0 content) now d with
  | Err e => (Some e, d)
  | Ok d => (if length (put p 0 content) =? length content then None else Some (utf8 "write: " ++ p), d)
  end.
Definition remove (p : text) (d : fs) : result fs text :=
  if refuses (RemoveFile p) then Err (utf8 "remove: " ++ p) else remove_file p d.
Definition track (tf p : text) (now : Z) (d : fs) : result fs text :=
  if refuses (Track p) then Err (utf8 "track: " ++ p) else track_path tf p now d.
(** The directories above a path and the path itself. *)
Definition prefixes (p : text) : list text :=
  filter (fun q => q <> []) (map (fun i => take i p) (filter (fun i => i = length p \/ p !! i = Some SLASH) (seq 0 (S (length p))))).
Definition make_dir (r : result fs text) (p : text) : result fs text :=
  let? d := r in
  match d !! p with Some Dir => Ok d | Some (File _ _) => Err (utf8 "create dir: " ++ p) | None => Ok (<[p := Dir]> d) end.
Definition create_dir_all (p : text) (d : fs) : result fs text :=
  if refuses (MakeDirs p) then Err (utf8 "create dir: " ++ p) else foldl make_dir (Ok d) (prefixes p).

(** ** Versions of a page (iterations.rs) *)

Definition version_dir_for (root rel : text) : text :=
  match dir_of rel with Some parent => within (within root parent) (stem_of rel) | None => within root (stem_of rel) end.
(** [parse::<i64>]. *)
Definition parse_i64 (t : text) : option Z :=
  let digits := match t with 43%N :: ds | 45%N :: ds => ds | _ => t end in
  match digits with
  | [] => None
  | _ =>
    let n := Z.of_N (digits_value digits) in
    let z := match t with 45%N :: _ => (- n)%Z | _ => n end in
    if forallb is_ascii_digit digits && (-(2 ^ 63) <=? z)%Z && (z <? 2 ^ 63)%Z then Some z else None
  end.
Definition version_path (dir : text) (millis : Z) (ext : string) : text := within dir (utf8 (pretty millis) ++ utf8 ext).
Record IterationVersion := { v_page : text; v_millis : Z; v_md : text; v_diff : option text }.
Definition version_of (d : fs) (rel dir md : text) : option IterationVersion :=
  if is_md md then
    millis ← parse_i64 (stem_of md);
    let candidate := within dir (stem_of md ++ utf8 ".diff") in
    Some {| v_page := rel; v_millis := millis; v_md := md; v_diff := if exists_ d candidate then Some candidate else None |}
  else None.
Definition newer (a b : IterationVersion) : bool := (v_millis b <? v_millis a)%Z.
Definition versions (d : fs) (root wiki page : text) : list IterationVersion :=
  match relative wiki page with
  | None => []
  | Some rel =>
    let dir := version_dir_for root rel in
    match entries d dir with
    | None => []
    | Some es => sort_by newer (omap (version_of d rel dir) es)
    end
  end.

(** The first free name: as many tries as there are entries on the disk, and one. *)
Fixpoint free_millis (fuel : nat) (d : fs) (dir : text) (millis : Z) : Z :=
  match fuel with
  | O => millis
  | S fuel => if exists_ d (version_path dir millis ".md") then free_millis fuel d dir (millis + 1) else millis
  end.
Record CapturedIteration := { c_page : text; md_path : text; diff_path : option text }.
Definition capture_page `{Patches} (now millis : Z) (root wiki page next : text) (d : fs) : result (option CapturedIteration) text * fs :=
  match relative wiki page, read_to_string page d with
  | Some rel, Some prior =>
    if bool_decide (prior = next) then (Ok None, d)
    else
      let dir := version_dir_for root rel in
      match create_dir_all dir d with
      | Err e => (Err (utf8 "create iteration dir: " ++ e), d)
      | Ok d =>
        let millis := free_millis (S (size d)) d dir millis in
        let md := version_path dir millis ".md" in
        match write_file md prior now d with
        | Err e => (Err (utf8 "write iteration: " ++ e), d)
        | Ok d =>
          let patch := create_patch prior next in
          let diff := version_path dir millis ".diff" in
          if bool_decide (patch = []) then (Ok (Some {| c_page := rel; md_path := md; diff_path := None |}), d)
          else match write_file diff patch now d with
          | Ok d => (Ok (Some {| c_page := rel; md_path := md; diff_path := Some diff |}), d)
          | Err _ => (Ok (Some {| c_page := rel; md_path := md; diff_path := None |}), d)
          end
        end
      end
  | _, _ => (Ok None, d)
  end.
Definition restore_page `{Patches} (now millis : Z) (root wiki : text) (v : IterationVersion) (d : fs)
    : result (option CapturedIteration) text * fs :=
  match read_to_string (v_md v) d with
  | None => (Err (utf8 "read iteration: " ++ v_md v), d)
  | Some restored =>
    let page := within wiki (v_page v) in
    match capture_page now millis root wiki page restored d with
    | (Err e, d) => (Err e, d)
    | (Ok captured, d) =>
      match write_file page restored now d with
      | Err e => (Err (utf8 "restore page: " ++ e), d)
      | Ok d => (Ok captured, d)
      end
    end
  end.

(** ** The walk over pages *)

Definition CASCADE_EXEMPT_STEMS : list text := [utf8 "index"; utf8 "log"].
Definition is_page (p : text) : bool := is_md p && negb (existsb (fun s => bool_decide (s = stem_of p)) CASCADE_EXEMPT_STEMS).

Section walk.
Context {A : Type} (now : Z) (f : text -> text -> fs * A -> option text * (fs * A)).
(** One file: what [f] makes of it is written, unless it is empty. *)
Definition visit_page (path : text) (s : fs * A) : option text * (fs * A) :=
  match read_to_string path s.1 with
  | None => (None, s)
  | Some content =>
    match f path content s with
    | (Some ((_ :: _) as new), s) =>
      match overwrite path new now s.1 with
      | (None, d) => (None, (d, s.2))
      | (Some e, d) => (Some (utf8 "cascade rewrite: " ++ e), (d, s.2))
      end
    | (_, s) => (None, s)
    end
  end.
(** The entries of a directory: its directories are pushed, the last on top. *)
Fixpoint visit_entries (es : list text) (stack : list text) (s : fs * A) : option text * list text * (fs * A) :=
  match es with
  | [] => (None, stack, s)
  | path :: rest =>
    if is_dir s.1 path then visit_entries rest (path :: stack) s
    else if is_page path then
      match visit_page path s with
      | (None, s) => visit_entries rest stack s
      | (Some e, s) => (Some e, stack, s)
      end
    else visit_entries rest stack s
  end.
Fixpoint walk (fuel : nat) (stack : list text) (s : fs * A) : outcome (option text * (fs * A)) :=
  match stack with
  | [] => Done (None, s)
  | dir :: stack =>
    match fuel with
    | O => OutOfFuel
    | S fuel =>
      match entries s.1 dir with
      | None => walk fuel stack s
      | Some es =>
        match visit_entries es stack s with
        | (None, stack, s) => walk fuel stack s
        | (Some e, _, s) => Done (Some e, s)
        end
      end
    end
  end.
Definition for_each_page (wiki : text) (s : fs * A) : outcome (option text * (fs * A)) := walk (S (size s.1)) [wiki] s.
End walk.

(** ** Redirecting and sweeping *)

Definition redirect_step (tf from to : text) (now : Z) (path content : text) (s : fs * nat) : option text * (fs * nat) :=
  match parse_sources content with
  | None => (None, s)
  | Some sources =>
    if bool_decide (from ∈ sources) then
      let new := write_sources content (map (fun x => if bool_decide (x = from) then to else x) sources) in
      (Some new, (match track tf path now s.1 with Ok d => d | Err _ => s.1 end, S s.2))
    else (None, s)
  end.
Definition redirect_page_source (tf wiki from to : text) (now : Z) (d : fs) : outcome (result nat text * fs) :=
  let! r := for_each_page now (redirect_step tf from to now) wiki (d, 0) in
  Done (match r.1 with None => Ok r.2.2 | Some e => Err (utf8 "cascade redirect: walk wiki pages: " ++ e) end, r.2.1).

(** The report of a sweep and what its first pass remembers. *)
Record CascadeReport := { pages_scanned : nat; entries_stripped : nat; pages_deleted : nat; orphans_pending : nat; links_cleaned : nat }.
Definition count (scanned stripped deleted pending cleaned : nat) (r : CascadeReport) : CascadeReport :=
  {| pages_scanned := pages_scanned r + scanned; entries_stripped := entries_stripped r + stripped;
     pages_deleted := pages_deleted r + deleted; orphans_pending := orphans_pending r + pending; links_cleaned := links_cleaned r + cleaned |}.
Definition empty_report : CascadeReport :=
  {| pages_scanned := 0; entries_stripped := 0; pages_deleted := 0; orphans_pending := 0; links_cleaned := 0 |}.
Record sweeping := { report : CascadeReport; deleted : list (text * text); captured_paths : list text }.
Definition on_report (g : CascadeReport -> CascadeReport) (s : sweeping) : sweeping :=
  {| report := g (report s); deleted := deleted s; captured_paths := captured_paths s |}.
Definition with_deleted (x : text * text) (s : sweeping) : sweeping :=
  {| report := report s; deleted := deleted s ++ [x]; captured_paths := captured_paths s |}.
Definition with_captured (c : CapturedIteration) (s : sweeping) : sweeping :=
  {| report := report s; deleted := deleted s; captured_paths := captured_paths s ++ md_path c :: option_list (diff_path c) |}.

Context `{Patches, Alphabet, Lowercase, Nfc}.
Context (tf : text) (now millis : Z) (wiki : text) (store : option text).

Definition seen_before (d : fs) (path : text) : bool :=
  match store with Some root => negb (bool_decide (versions d root wiki path = [])) | None => true end.
Definition identity_of (path content : text) : text * text :=
  let title := default (stem_of path) (frontmatter_title content) in (title, slugify title).
(** A page none of whose sources is left. *)
Definition orphan_step (path content : text) (s : fs * sweeping) : option text * (fs * sweeping) :=
  if seen_before s.1 path then
    match remove path s.1 with
    | Ok d => (Some [], (d, with_deleted (identity_of path content) (on_report (count 0 0 1 0 0) s.2)))
    | Err _ => (None, s)
    end
  else match store with
  | None => (None, (s.1, on_report (count 0 0 0 1 0) s.2))
  | Some root =>
    match capture_page now millis root wiki path [] s.1 with
    | (Ok (Some c), d) => (None, (d, on_report (count 0 0 0 1 0) (with_captured c s.2)))
    | (Ok None, d) => (None, (d, on_report (count 0 0 0 1 0) s.2))
    | (Err _, d) => (None, (d, s.2))
    end
  end.
Definition sweep_step (path content : text) (s : fs * sweeping) : option text * (fs * sweeping) :=
  let s := (s.1, on_report (count 1 0 0 0 0) s.2) in
  match parse_sources content with
  | None | Some [] => (None, s)
  | Some sources =>
    let alive := filter (fun x => exists_ s.1 x = true) sources in
    let dead := length sources - length alive in
    if dead =? 0 then (None, s)
    else match alive with
    | [] => orphan_step path content s
    | _ => (Some (write_sources content alive), (s.1, on_report (count 0 dead 0 0 0) s.2))
    end
  end.

Definition same_name (a b : text) : bool := bool_decide (normalize_alias (to_string a) = normalize_alias (to_string b)).
Definition names_deleted (gone : list (text * text)) (target : text) : bool :=
  existsb (fun x => same_name target x.1 || bool_decide (normalize_alias (to_string target) = to_string x.2)) gone.
Definition unlink (gone : list (text * text)) (s : text * nat) (target : text) : text * nat :=
  if names_deleted gone target then (replace s.1 (bracketed target) target, S s.2) else s.
Definition links_step (gone : list (text * text)) (path content : text) (s : fs * sweeping) : option text * (fs * sweeping) :=
  let '(new, cleaned) := foldl (unlink gone) (content, 0) (extract_wikilinks content) in
  if cleaned =? 0 then (None, s)
  else (Some new, (match track tf path now s.1 with Ok d => d | Err _ => s.1 end, on_report (count 0 0 0 0 cleaned) s.2)).

Fixpoint track_all (paths : list text) (d : fs) : option text * fs :=
  match paths with
  | [] => (None, d)
  | p :: rest => match track tf p now d with Ok d => track_all rest d | Err e => (Some e, d) end
  end.
Definition sweep_dead_sources (d : fs) : outcome (result CascadeReport text * fs) :=
  if negb (is_dir d wiki) then Done (Ok empty_report, d)
  else
    let! r := for_each_page now sweep_step wiki (d, {| report := empty_report; deleted := []; captured_paths := [] |}) in
    match r with
    | (Some e, (d, _)) => Done (Err (utf8 "cascade sweep: walk wiki pages: " ++ e), d)
    | (None, (d, s)) =>
      match track_all (captured_paths s) d with
      | (Some e, d) => Done (Err e, d)
      | (None, d) =>
        match deleted s with
        | [] => Done (Ok (report s), d)
        | gone =>
          let! r := for_each_page now (links_step gone) wiki (d, s) in
          match r with
          | (Some e, (d, _)) => Done (Err (utf8 "cascade sweep: link cleanup: " ++ e), d)
          | (None, (d, s)) => Done (Ok (report s), d)
          end
        end
      end
    end.
End disk.
