(* ===== verification/PagesProps.v ===== *)
(** * Sources of a page, and the walk over the pages

    The list of sources is read back as it is written; the walk over the pages ends and
    visits a page once, and carries the invariants of its visits. *)

From S2P Require Import Prelude Text Sanitize NotesProps Ordering FileTools Graph Transaction Pages.
From Stdlib Require Import Lia.
Local Open Scope list_scope.

(** ** Lines and front matter *)

Lemma drop_trim t : exists ws, t = ws ++ trim_start t /\ Forall (fun c => is_whitespace c = true) ws.
Proof.
  induction t as [|c t (ws & E & F)]; [by exists []|]. cbn [trim_start]. destruct (is_whitespace c) eqn:W.
  - exists (c :: ws). split; [by rewrite E at 1|by constructor].
  - by exists [].
Qed.
Lemma trim_start_app ws t : Forall (fun c => is_whitespace c = true) ws -> trim_start (ws ++ t) = trim_start t.
Proof. induction 1 as [|c ws W _ IH]; [done|]. cbn [app trim_start]. by rewrite W. Qed.
Lemma trim_start_twice t : trim_start (trim_start t) = trim_start t.
Proof. induction t as [|c t IH]; [done|]. cbn [trim_start]. destruct (is_whitespace c) eqn:W; [done|]. cbn [trim_start]. by rewrite W. Qed.
Lemma trim_end_twice t : trim_end (trim_end t) = trim_end t.
Proof. unfold trim_end. by rewrite rev_involutive, trim_start_twice. Qed.
Lemma trim_end_chop t : trim_end (chop_return t) = trim_end t.
Proof.
  unfold chop_return, strip_suffix. destruct (ends_with t [13]%N) eqn:E; [|done]. cbn [default length].
  unfold ends_with in E. apply starts_with_spec in E as [v Hv]. cbn [rev app] in Hv.
  assert (t = rev v ++ [13]%N) as -> by (rewrite <- (rev_involutive t), Hv; done).
  unfold trim_end. rewrite length_app, (rev_app_distr (rev v)), rev_involutive. cbn [length rev app trim_start]. change (is_whitespace 13%N) with true.
  unfold id. rewrite Nat.add_sub, take_app_length. by rewrite rev_involutive.
Qed.
Lemma trim_end_solid t d : last t = Some d -> solid d -> trim_end t = t.
Proof.
  intros [u ->]%last_Some Hd. unfold trim_end. rewrite rev_app_distr. cbn [rev app]. rewrite trim_start_solid by done.
  cbn [rev]. by rewrite rev_involutive.
Qed.
Lemma rev_in {A} (c : A) t : c ∈ rev t -> c ∈ t.
Proof. intros H. apply list_elem_of_In. apply list_elem_of_In in H. by apply in_rev. Qed.
Lemma trim_end_in c t : c ∈ trim_end t -> c ∈ t.
Proof.
  unfold trim_end. intros H%rev_in. destruct (drop_trim (rev t)) as (ws & E & _). apply rev_in. rewrite E. apply elem_of_app. by right.
Qed.

Lemma split_on_feedless sep t : Forall (fun l => sep ∉ l) (split_on sep t).
Proof.
  induction t as [|c t IH]; cbn [split_on]; [constructor; [by apply not_elem_of_nil|done]|].
  destruct (N.eqb_spec c sep) as [->|N]; [constructor; [by apply not_elem_of_nil|done]|].
  destruct (split_on sep t) as [|piece rest]; [constructor; [|done]; by apply not_elem_of_cons; split; [|apply not_elem_of_nil]|].
  apply Forall_cons in IH as [H1 H2]. constructor; [|done]. by apply not_elem_of_cons.
Qed.
Lemma chop_return_in c t : c ∈ chop_return t -> c ∈ t.
Proof.
  unfold chop_return, strip_suffix. destruct (ends_with _ _); [|done]. cbn [default]. intros H.
  apply (elem_of_take) in H as (i & H & _). by eapply list_elem_of_lookup_2.
Qed.
Lemma lines_feedless t : Forall (fun l => 10%N ∉ l) (lines t).
Proof.
  unfold lines. pose proof (split_on_feedless 10%N t) as H. apply Forall_app. split.
  - apply Forall_map. destruct (split_on 10%N t) as [|p ps] eqn:E using rev_ind; [done|]. rewrite removelast_last. apply Forall_app in H as [H _].
    apply (Forall_impl _ _ _ H). intros l Hl Hc. by apply Hl, chop_return_in.
  - destruct (last (split_on 10%N t)) as [[|c l]|] eqn:E; [done| |done]. constructor; [|done]. rewrite Forall_forall in H.
    apply H. apply last_Some in E as [u ->]. apply elem_of_app. right. by left.
Qed.

(** ** Sources *)

(** A source as the pipeline writes it: an absolute path on one line, without quotes
    or white space around it. *)
Definition plain_source (s : text) : Prop := head s = Some SLASH /\ 34%N ∉ s /\ 10%N ∉ s /\ exists d, last s = Some d /\ solid d.

Lemma split_text_chars (s : text) : forall t acc, 34%N ∉ s -> split_text BETWEEN (s ++ t) 0 acc = split_text BETWEEN t 0 (rev s ++ acc).
Proof.
  induction s as [|c s IH]; intros t acc H; [done|]. apply not_elem_of_cons in H as [Hc Hs].
  cbn [app split_text rev]. destruct (starts_with (c :: s ++ t) BETWEEN) eqn:E.
  { cbn [BETWEEN starts_with] in E. apply andb_true_iff in E as [E _]. apply N.eqb_eq in E. by destruct Hc. }
  rewrite IH by done. by rewrite <- app_assoc.
Qed.
Lemma split_text_between t acc : split_text BETWEEN (BETWEEN ++ t) 0 acc = rev acc :: split_text BETWEEN t 0 [].
Proof. cbn. by destruct t. Qed.
Lemma quote_char_not (s : text) c : 34%N ∉ s -> c ∈ s -> quote_char c = false.
Proof. intros H Hc. unfold quote_char. apply N.eqb_neq. by intros ->. Qed.
Lemma trim_quotes_start (s : text) : 34%N ∉ s -> trim_start_matches quote_char s = s.
Proof. destruct s as [|c s]; [done|]. cbn [trim_start_matches]. intros H. by rewrite (quote_char_not (c :: s) c) by (done || apply list_elem_of_here). Qed.
Lemma trim_quotes_plain (s : text) : 34%N ∉ s -> trim_matches quote_char s = s.
Proof.
  intros H. unfold trim_matches. rewrite (trim_quotes_start s) by done. rewrite trim_quotes_start; [apply rev_involutive|].
  by intros H'%rev_in.
Qed.
Lemma trim_quotes_after (s : text) : 34%N ∉ s -> trim_matches quote_char (s ++ [34%N]) = s.
Proof.
  intros H. destruct s as [|c s]; [done|]. unfold trim_matches.
  assert (trim_start_matches quote_char ((c :: s) ++ [34%N]) = (c :: s) ++ [34%N]) as ->.
  { cbn [app trim_start_matches]. by rewrite (quote_char_not (c :: s) c) by (done || apply list_elem_of_here). }
  rewrite rev_app_distr. cbn [rev app]. change (trim_start_matches quote_char (34%N :: rev s ++ [c])) with (trim_start_matches quote_char (rev (c :: s))).
  rewrite trim_quotes_start; [apply (rev_involutive (c :: s))|]. by intros H'%rev_in.
Qed.
Lemma trim_quotes_before s : trim_matches quote_char (34%N :: s) = trim_matches quote_char s.
Proof. done. Qed.

Definition joined (s : text) (l : list text) : text := s ++ flat_map (fun x => BETWEEN ++ x) l.
Lemma serialize_joined l : forall s, serialize (s :: l) = 34%N :: joined s l ++ [34%N].
Proof.
  induction l as [|s' l IH]; intros s; [unfold joined; cbn [flat_map]; by rewrite app_nil_r|].
  change (serialize (s :: s' :: l)) with (quote_source s ++ utf8 ", " ++ serialize (s' :: l)). rewrite IH.
  unfold quote_source, joined. cbn [flat_map]. by rewrite <- !app_assoc.
Qed.
Lemma trim_item pre s post : pre = [] \/ pre = [34%N] -> post = [] \/ post = [34%N] -> plain_source s ->
  trim_matches quote_char (trim (pre ++ s ++ post)) = s.
Proof.
  intros Hpre Hpost (Hh & Hq & _ & d & Hd & Sd). destruct s as [|c s]; [done|]. injection Hh as ->.
  rewrite trim_tight.
  - destruct Hpre as [->| ->], Hpost as [->| ->]; rewrite ?app_nil_r; cbn [app]; rewrite ?trim_quotes_before;
      [by apply trim_quotes_plain|by apply (trim_quotes_after (SLASH :: s))|by apply trim_quotes_plain|by apply (trim_quotes_after (SLASH :: s))].
  - right. exists (default SLASH (head pre)), (default d (head post)). split_and!; destruct Hpre as [->| ->], Hpost as [->| ->]; try done.
    + by rewrite app_nil_r.
    + exact (last_snoc 34%N (SLASH :: s)).
    + rewrite app_nil_r. cbn [app]. by rewrite last_cons, Hd.
    + exact (last_snoc 34%N (34%N :: SLASH :: s)).
Qed.
Lemma split_joined l : forall s acc, acc = [] \/ acc = [34%N] -> Forall plain_source (s :: l) ->
  map (fun item => trim_matches quote_char (trim item)) (split_text BETWEEN (joined s l ++ [34%N]) 0 acc) = s :: l.
Proof.
  induction l as [|s' l IH]; intros s acc Ha H; apply Forall_cons in H as [Hs H]; unfold joined; cbn [flat_map].
  - rewrite app_nil_r, split_text_chars by apply Hs. cbn [split_text]. change (starts_with [34%N] BETWEEN) with false. cbn iota.
    cbn [split_text rev map]. rewrite rev_app_distr, rev_involutive. rewrite <- app_assoc. f_equal. apply trim_item; [|by right|done].
    destruct Ha as [->| ->]; [by left|by right].
  - rewrite <- !app_assoc. rewrite split_text_chars by apply Hs. rewrite split_text_between. cbn [map].
    rewrite rev_app_distr, rev_involutive. f_equal.
    + rewrite <- (app_nil_r s) at 1. apply trim_item; [|by left|done]. destruct Ha as [->| ->]; [by left|by right].
    + rewrite app_assoc. apply (IH s' []); [by left|done].
Qed.
Lemma parse_list_serialized l : Forall plain_source l -> parse_list (32%N :: [91%N] ++ serialize l ++ [93%N]) = l.
Proof.
  intros H. unfold parse_list. rewrite trim_space.
  2:{ right. exists 91%N, 93%N. split_and!; [done| |done|done]. change ([91%N] ++ serialize l ++ [93%N]) with ((91%N :: serialize l) ++ [93%N]). apply last_snoc. }
  assert ((l0 ← strip_prefix ([91%N] ++ serialize l ++ [93%N]) [91%N]; strip_suffix l0 [93%N]) = Some (serialize l)) as ->.
  { unfold strip_prefix. rewrite starts_with_app. cbn [mbind option_bind length app drop]. unfold strip_suffix, ends_with.
    rewrite drop_0, rev_app_distr, starts_with_app. by rewrite length_app, Nat.add_sub, take_app_length. }
  cbn [default]. unfold id. destruct l as [|s l]; [done|]. rewrite serialize_joined. cbn [app split_text].
  assert (starts_with (34%N :: joined s l ++ [34%N]) BETWEEN = false) as ->.
  { apply Forall_cons in H as [(Hh & _) _]. destruct s as [|c s]; [done|]. by injection Hh as ->. }
  rewrite split_joined; [|by right|done]. apply list_filter_all. intros x Hx. rewrite Forall_forall in H.
  destruct (H x Hx) as (Hh & _). by destruct x.
Qed.

Lemma trim_end_feedless t : 10%N ∉ t -> 10%N ∉ trim_end t.
Proof. intros H Hc. by apply H, trim_end_in. Qed.
Lemma serialize_in c l : c ∈ serialize l -> c = 34%N \/ c = 44%N \/ c = 32%N \/ exists s, s ∈ l /\ c ∈ s.
Proof.
  destruct l as [|s l]; [by intros ?%elem_of_nil|]. rewrite serialize_joined. unfold joined.
  rewrite elem_of_cons, !elem_of_app, list_elem_of_singleton. intros [->|[[Hs|Hf]| ->]]; [by left| |  |by left].
  - do 3 right. exists s. split; [by left|done].
  - apply list_elem_of_In, in_flat_map in Hf as (x & Hx%list_elem_of_In & Hc%list_elem_of_In). apply elem_of_app in Hc as [Hc|Hc].
    + unfold BETWEEN in Hc. rewrite !elem_of_cons, elem_of_nil in Hc. naive_solver.
    + do 3 right. exists x. split; [by right|done].
Qed.
Lemma sources_line_feedless l : Forall plain_source l -> 10%N ∉ sources_line l.
Proof.
  intros H. unfold sources_line. rewrite !elem_of_app, list_elem_of_singleton. intros [Hc|[Hc|Hc]]; [by refine (bool_decide_unpack (10%N ∉ utf8 "sources: [") _ Hc)| |done].
  apply serialize_in in Hc as [Hc|[Hc|[Hc|(s & Hs & Hc)]]]; [done..|]. rewrite Forall_forall in H. by apply (H s Hs).
Qed.

(** Rewriting leaves the other entries of the front matter where they were. *)
Lemma front_entry_chop key ls : forall inside, front_entry key inside (map chop_return ls) = front_entry key inside ls.
Proof.
  induction ls as [|line ls IH]; intros inside; [done|]. cbn [map front_entry]. rewrite trim_end_chop.
  destruct (bool_decide _); [destruct inside; [done|apply IH]|]. destruct inside; cbn [negb]; [|apply IH]. by destruct (strip_prefix _ key).
Qed.
Lemma write_go_feedless entry ls : 10%N ∉ entry -> Forall (fun l => 10%N ∉ l) ls -> forall inside, Forall (fun l => 10%N ∉ l) (write_go entry inside ls).1.
Proof.
  intros He. induction 1 as [|line ls Hl _ IH]; intros inside; [done|]. cbn [write_go].
  destruct (bool_decide _); [|destruct (inside && _)];
    match goal with |- context [write_go _ ?b ls] => specialize (IH b); destruct (write_go entry b ls) as [out replaced] end;
    cbn [fst] in *; by constructor; [try apply trim_end_feedless|].
Qed.
Lemma front_entry_written entry value ls : trim_end entry = entry -> strip_prefix entry SOURCES = Some value ->
  forall inside v, front_entry SOURCES inside ls = Some v -> exists out, write_go entry inside ls = (out, true) /\ front_entry SOURCES inside out = Some value.
Proof.
  intros Ht Hv. induction ls as [|line ls IH]; intros inside v; [done|]. cbn [front_entry write_go].
  destruct (bool_decide (trim_end line = utf8 "---")) eqn:E.
  - destruct inside; [done|]. cbn [negb]. intros H. destruct (IH true v H) as (out & -> & Ho). eexists. split; [done|].
    cbn [front_entry]. by rewrite trim_end_twice, E.
  - destruct inside; cbn [negb andb].
    + unfold strip_prefix at 1. destruct (starts_with (trim_end line) SOURCES) eqn:S.
      * intros _. destruct (write_go entry true ls) as [out b]. eexists. split; [done|]. cbn [front_entry]. rewrite Ht, Hv.
        unfold strip_prefix in Hv. destruct (starts_with entry SOURCES) eqn:S'; [|done]. apply starts_with_spec in S' as [w ->]. done.
      * intros H. destruct (IH true v H) as (out & -> & Ho). eexists. split; [done|]. cbn [front_entry]. rewrite E. cbn [negb].
        unfold strip_prefix at 1. by rewrite S.
    + intros H. destruct (IH false v H) as (out & -> & Ho). eexists. split; [done|]. cbn [front_entry]. by rewrite E.
Qed.
(** The list of sources is read back as it is written, on any page that has one. *)
Theorem sources_roundtrip content old l : parse_sources content = Some old -> Forall plain_source l ->
  parse_sources (write_sources content l) = Some l.
Proof.
  unfold parse_sources, write_sources. intros H Hl. destruct (front_entry SOURCES false (lines content)) as [v|] eqn:E; [|done].
  destruct (front_entry_written (sources_line l) (32%N :: [91%N] ++ serialize l ++ [93%N]) (lines content)) with (inside := false) (v := v) as (out & Ho & Hf).
  - apply (trim_end_solid _ 93%N); [|done]. unfold sources_line. rewrite app_assoc. apply last_snoc.
  - done.
  - done.
  - pose proof (write_go_feedless (sources_line l) (lines content) (sources_line_feedless l Hl) (lines_feedless content) false) as HF.
    rewrite Ho in *. rewrite lines_feeds by done. rewrite front_entry_chop, Hf. cbn [fmap option_fmap option_map]. by rewrite parse_list_serialized.
Qed.

(** ** The walk over the pages

    The walk of [for_each_page] ends with the fuel it is given, and visits a page once:
    a rule by which an invariant of the visits is one of the walk. *)

(** *** Paths below a directory *)

Definition belowb (dir p : text) : bool := bool_decide (p = dir) || starts_with p (dir ++ [SLASH]).
Definition below (dir p : text) : Prop := belowb dir p = true.
#[export] Instance below_dec dir p : Decision (below dir p) := bool_eq_dec (belowb dir p) true.
Lemma below_spec dir p : below dir p <-> p = dir \/ exists r, p = within dir r.
Proof.
  unfold below, belowb. rewrite orb_true_iff, bool_decide_eq_true, starts_with_spec. unfold within.
  split; (intros [->|[v ->]]; [by left|right; exists v; by rewrite <- app_assoc]).
Qed.
Lemma below_refl p : below p p.
Proof. apply below_spec. by left. Qed.
Lemma below_within dir r : below dir (within dir r).
Proof. apply below_spec. right. by exists r. Qed.
Lemma below_trans a b c : below a b -> below b c -> below a c.
Proof.
  rewrite !below_spec. intros [->|[r ->]]; [done|]. intros [->|[r' ->]]; right; [by exists r|].
  exists (r ++ SLASH :: r'). unfold within. by rewrite <- app_assoc.
Qed.
Lemma below_length dir p : below dir p -> length dir <= length p /\ (length p <= length dir -> p = dir).
Proof. rewrite below_spec. intros [->|[r ->]]; [done|]. unfold within. rewrite length_app. cbn [length]. split; lia. Qed.

Lemma split_once_back sep t a b : split_once sep t = Some (a, b) -> t = a ++ sep :: b /\ sep ∉ a.
Proof.
  revert a. induction t as [|c t IH]; intros a; [done|]. cbn [split_once]. destruct (N.eqb_spec c sep) as [->|N].
  - intros [= <- <-]. split; [done|apply not_elem_of_nil].
  - destruct (split_once sep t) as [[x y]|] eqn:E; [|done]. cbn. intros [= <- <-]. destruct (IH x eq_refl) as [-> H].
    split; [done|]. by apply not_elem_of_cons.
Qed.
Lemma dir_of_spec p dir : dir_of p = Some dir -> exists name, p = within dir name /\ SLASH ∉ name.
Proof.
  unfold dir_of, cut_name. destruct (split_once SLASH (rev p)) as [[name d]|] eqn:E; [|done]. cbn. intros [= <-].
  apply split_once_back in E as [E H]. exists (rev name). split.
  - rewrite <- (rev_involutive p), E, rev_app_distr. cbn [rev]. unfold within. by rewrite <- app_assoc.
  - intros H'%list_elem_of_In. apply H, list_elem_of_In. by apply in_rev in H'.
Qed.
(** What is above a path is the path or is above its directory. *)
Lemma below_child x p dir : dir_of p = Some dir -> below x p -> p = x \/ below x dir.
Proof.
  intros (n & -> & Hn)%dir_of_spec. rewrite !below_spec. intros [E|[r E]]; [by left|]. right. unfold within in E.
  apply app_eq_inv in E as [(k & E1 & E2)|(k & E1 & E2)].
  - destruct k as [|c k]; [left; by rewrite app_nil_r in E1|]. injection E2 as <- E2. right. exists k. done.
  - destruct k as [|c k]; [left; by rewrite app_nil_r in E1|]. injection E2 as <- E2. exfalso. apply Hn. rewrite E2.
    apply elem_of_app. right. by left.
Qed.
Lemma below_dir_of p dir : dir_of p = Some dir -> below dir p /\ ~ below p dir.
Proof.
  intros (n & -> & Hn)%dir_of_spec. split; [apply below_within|]. intros [H _]%below_length. unfold within in H.
  rewrite length_app in H. cbn [length] in H. lia.
Qed.
Lemma siblings_apart a b dir : dir_of a = Some dir -> dir_of b = Some dir -> a <> b -> ~ below a b.
Proof.
  intros Ha Hb N H. destruct (below_child a b dir Hb H) as [->|H']; [done|]. by apply (below_dir_of a dir Ha).
Qed.
(** The entry of a directory on the way to what is below it. *)
Lemma child_towards dir p : below dir p -> p <> dir -> exists c, dir_of c = Some dir /\ below c p.
Proof.
  rewrite below_spec. intros [->|[r ->]] N; [done|]. exists (within dir (take_while (fun c => negb (c =? SLASH)%N) r)).
  assert (forall r : text, SLASH ∉ take_while (fun c => negb (c =? SLASH)%N) r) as HT.
  { clear. induction r as [|c r IH]; cbn [take_while]; [apply not_elem_of_nil|]. destruct (N.eqb_spec c SLASH) as [->|]; [apply not_elem_of_nil|].
    by apply not_elem_of_cons. }
  split.
  - unfold dir_of, cut_name, within. rewrite rev_app_distr. cbn [rev]. rewrite <- app_assoc. cbn [app].
    assert (forall n d : text, SLASH ∉ n -> split_once SLASH (n ++ SLASH :: d) = Some (n, d)) as HS.
    { clear. induction n as [|c n IH]; intros d Hn; cbn [app split_once]; [by rewrite N.eqb_refl|].
      apply not_elem_of_cons in Hn as [Hc Hn]. destruct (N.eqb_spec c SLASH); [done|]. by rewrite IH. }
    rewrite HS; [cbn; by rewrite rev_involutive|]. intros H%list_elem_of_In%in_rev%list_elem_of_In. by apply HT in H.
  - apply below_spec. assert (exists k, r = take_while (fun c => negb (c =? SLASH)%N) r ++ k /\ (k = [] \/ exists k', k = SLASH :: k')) as (k & E & Hk).
    { clear. induction r as [|c r (k & E & Hk)]; cbn [take_while]; [exists []; split; [done|by left]|].
      destruct (N.eqb_spec c SLASH) as [->|]; cbn [negb]; [exists (SLASH :: r); split; [done|right; by eexists]|]. exists k. by rewrite E at 1. }
    destruct Hk as [->|[k' ->]]; [left; by rewrite E at 1; rewrite app_nil_r|]. right. exists k'. unfold within. rewrite E at 1. by rewrite <- app_assoc.
Qed.

Lemma filter_length_lt {B} (Q R : B -> Prop) `{forall x, Decision (Q x), forall x, Decision (R x)} l a :
  (forall x, Q x -> R x) -> a ∈ l -> R a -> ~ Q a -> length (filter Q l) < length (filter R l).
Proof.
  intros HQ Ha Ra Qa. assert (forall l, length (filter Q l) <= length (filter R l)) as HL.
  { clear -HQ. induction l as [|x l IH]; [done|]. rewrite !filter_cons. specialize (HQ x). repeat case_decide; cbn [length]; first [lia|exfalso; auto]. }
  induction l as [|x l IH]; [by apply elem_of_nil in Ha|]. rewrite !filter_cons. apply elem_of_cons in Ha as [<-|Ha].
  - rewrite decide_False, decide_True by done. cbn [length]. specialize (HL l). lia.
  - specialize (IH Ha). specialize (HQ x). repeat case_decide; cbn [length]; first [lia|exfalso; auto].
Qed.

(** *** The rule *)

Section rule.
Context `{Refusals, Listing} {A : Type} (now : Z) (f : text -> text -> fs * A -> option text * (fs * A)).
Context (wiki : text) (d0 : fs) (P : list text -> fs * A -> Prop) (goal : text -> Prop) (Q : text -> Prop).
Definition same_dirs (d d' : fs) : Prop := forall p, below wiki p -> is_dir d p = is_dir d' p.
(** A page whose directories can all be read. *)
Definition reachable (p : text) : Prop :=
  below wiki p /\ p <> wiki /\ is_page p = true /\ is_dir d0 p = false
  /\ forall x, below wiki x -> below x p -> x <> p -> is_dir d0 x = true /\ refuses (ReadDir x) = false.
Hypothesis step : forall vis s path content o s', P vis s -> path ∉ vis -> below wiki path -> is_page path = true ->
  read_to_string path s.1 = Some content -> visit_page now f path s = (o, s') -> P (path :: vis) s' /\ same_dirs s.1 s'.1 /\ forall e, o = Some e -> Q e.
Hypothesis aims : forall p, goal p -> reachable p.
Hypothesis keeps : forall vis s p, P vis s -> goal p -> p ∉ vis -> exists content, read_to_string p s.1 = Some content.

Definition pending (stack rest vis : list text) (p : text) : Prop := p ∈ vis \/ (exists x, x ∈ stack /\ below x p) \/ exists x, x ∈ rest /\ below x p.
Record walked (stack rest vis : list text) (s : fs * A) : Prop := {
  wk_inv : P vis s;
  wk_dirs : same_dirs d0 s.1;
  wk_below : forall x, x ∈ stack -> below wiki x;
  wk_isdir : forall x, x ∈ stack -> is_dir d0 x = true;
  wk_nodup : NoDup stack;
  wk_apart : forall a b, a ∈ stack -> b ∈ stack -> below a b -> a = b;
  wk_vis : forall v x, v ∈ vis -> x ∈ stack -> ~ below x v;
  wk_goal : forall p, goal p -> pending stack rest vis p;
}.
(** What is left of the entries of a directory. *)
Record unread (dir : text) (rest stack vis : list text) (s : fs * A) : Prop := {
  ur_nodup : NoDup rest;
  ur_dir : forall e, e ∈ rest -> dir_of e = Some dir;
  ur_new : forall e, e ∈ rest -> e ∉ vis;
  ur_apart : forall e x, e ∈ rest -> x ∈ stack -> ~ below x e /\ ~ below e x;
  ur_vis : forall v, v ∈ vis -> ~ below dir v \/ dir_of v = Some dir;
}.
Definition in_dir (dir : text) (rest stack vis : list text) (s : fs * A) : Prop := walked stack rest vis s /\ unread dir rest stack vis s.
Lemma in_dir_head dir path rest stack vis s : in_dir dir (path :: rest) stack vis s ->
  dir_of path = Some dir /\ path ∉ vis /\ path ∉ rest /\ forall e, e ∈ rest -> ~ below path e /\ ~ below e path.
Proof.
  intros [W [U1 U2 U3 U4 U5]]. apply NoDup_cons in U1 as [N1 N2]. split_and!; [apply U2; by left|apply U3; by left|done|].
  intros e He. assert (path <> e) by (by intros ->). assert (dir_of path = Some dir) by (apply U2; by left).
  assert (dir_of e = Some dir) by (apply U2; by right). split; by eapply siblings_apart.
Qed.
(** A directory is pushed. *)
Lemma push_walked dir path rest stack vis s : below wiki dir -> is_dir s.1 path = true -> in_dir dir (path :: rest) stack vis s ->
  in_dir dir rest (path :: stack) vis s.
Proof.
  intros Hw E HI. destruct (in_dir_head _ _ _ _ _ _ HI) as (Hp & Hv & Hr & Hs). destruct HI as [W U].
  destruct (below_dir_of path dir Hp) as [Bp _]. assert (below wiki path) as Bw by by eapply below_trans. split.
  - destruct W as [W1 W2 W3 W4 W5 W6 W7 W8]. split; try done.
    + intros x [->|Hx]%elem_of_cons; auto.
    + intros x [->|Hx]%elem_of_cons; [by rewrite W2|auto].
    + apply NoDup_cons. split; [|done]. intros Hx. destruct (ur_apart _ _ _ _ _ U path path) as [[] _]; [by left|done|apply below_refl].
    + intros a b [->|Ha]%elem_of_cons [->|Hb]%elem_of_cons Hab; [done| | |auto].
      * by destruct (ur_apart _ _ _ _ _ U path b ltac:(by left) Hb) as [_ []].
      * by destruct (ur_apart _ _ _ _ _ U path a ltac:(by left) Ha) as [[] _].
    + intros v x Hin [->|Hx]%elem_of_cons; [|auto]. intros Hb. destruct (ur_vis _ _ _ _ _ U v Hin) as [H1|H1].
      * apply H1. by eapply below_trans.
      * apply (siblings_apart path v dir Hp H1); [|done]. by intros <-.
    + intros p Hg. destruct (W8 p Hg) as [Hin|[(x & Hx & Hb)|(x & [->|Hx]%elem_of_cons & Hb)]]; [by left|..].
      * right. left. exists x. split; [by right|done].
      * right. left. exists path. split; [by left|done].
      * right. right. by exists x.
  - destruct U as [U1 U2 U3 U4 U5]. apply NoDup_cons in U1 as [_ U1]. split; [done| | | |done].
    + intros e He. apply U2. by right.
    + intros e He. apply U3. by right.
    + intros e x He [->|Hx]%elem_of_cons; [by apply Hs|apply U4; [by right|done]].
Qed.
(** A file is passed, visited or not. *)
Lemma pass_walked dir path rest stack vis s vis1 s1 : below wiki dir -> is_dir s.1 path = false -> in_dir dir (path :: rest) stack vis s ->
  P vis1 s1 -> same_dirs s.1 s1.1 -> vis1 = vis \/ vis1 = path :: vis -> (goal path -> path ∈ vis1) -> in_dir dir rest stack vis1 s1.
Proof.
  intros Hw E HI HP HD Hv Hg. destruct (in_dir_head _ _ _ _ _ _ HI) as (Hp & Hpv & Hr & _). destruct HI as [W U].
  destruct (below_dir_of path dir Hp) as [Bp _]. assert (below wiki path) as Bw by by eapply below_trans. split.
  - destruct W as [W1 W2 W3 W4 W5 W6 W7 W8]. split; try done.
    + intros p Hb. by rewrite W2, HD.
    + intros v x Hx. destruct Hv as [->| ->]; [by apply W7|]. apply elem_of_cons in Hx as [->|Hx]; [|by apply W7].
      intros Hs. by apply (ur_apart _ _ _ _ _ U path x); [left|].
    + intros p Hp'. destruct (W8 p Hp') as [Hv'|[Hs|(x & [->|Hx]%elem_of_cons & Hb)]].
      * left. destruct Hv as [->| ->]; [done|by right].
      * right. by left.
      * left. destruct (decide (p = path)) as [->|N]; [by apply Hg|]. exfalso.
        destruct (aims p Hp') as (_ & _ & _ & _ & HA). destruct (HA path Bw Hb) as [HI _]; [done|]. by rewrite W2, E in HI by done.
      * right. right. by exists x.
  - destruct U as [U1 U2 U3 U4 U5]. apply NoDup_cons in U1 as [_ U1]. split; [done| | | |].
    + intros e He. apply U2. by right.
    + intros e He. destruct Hv as [->| ->]; [apply U3; by right|]. apply not_elem_of_cons. split; [by intros ->|apply U3; by right].
    + intros e x He. apply U4. by right.
    + intros v Hx. destruct Hv as [->| ->]; [by apply U5|]. apply elem_of_cons in Hx as [->|Hx]; [by right|by apply U5].
Qed.
Definition read_through (dir : text) (rest stack : list text) (s : fs * A) : Prop :=
  exists o stack' s' vis', visit_entries now f rest stack s = (o, stack', s') /\ P vis' s' /\ (forall e, o = Some e -> Q e)
  /\ (o = None -> walked stack' [] vis' s') /\ (forall x, x ∈ stack' -> x ∈ stack \/ dir_of x = Some dir).
Lemma entries_rule dir rest : forall stack vis s, below wiki dir -> in_dir dir rest stack vis s -> read_through dir rest stack s.
Proof.
  unfold read_through. induction rest as [|path rest IH]; intros stack vis s Hw HI.
  { exists None, stack, s, vis. split_and!; [done|apply HI|done|intros _; apply HI|by left]. }
  destruct (in_dir_head _ _ _ _ _ _ HI) as (Hp & Hnew & _). destruct (below_dir_of path dir Hp) as [Bp _].
  assert (below wiki path) as Bw by by eapply below_trans. cbn [visit_entries]. destruct (is_dir s.1 path) eqn:E.
  - destruct (IH (path :: stack) vis s Hw) as (o & st & s' & vis' & HE & HP & HQ & HW & HS); [by apply push_walked|].
    exists o, st, s', vis'. split_and!; [done..|]. intros x [[->|Hx]%elem_of_cons|Hx]%HS; [by right|by left|by right].
  - pose proof (wk_inv _ _ _ _ (proj1 HI)) as HP. destruct (is_page path) eqn:Ep.
    + destruct (read_to_string path s.1) as [content|] eqn:Er.
      * destruct (visit_page now f path s) as [o s1] eqn:Ev. destruct (step vis s path content o s1 HP Hnew Bw Ep Er Ev) as (HP1 & HD1 & HQ1).
        destruct o as [e|].
        -- exists (Some e), stack, s1, (path :: vis). split_and!; [done|done|by apply HQ1|done|by left].
        -- apply (IH stack (path :: vis) s1 Hw). eapply pass_walked; eauto. intros _. by left.
      * assert (visit_page now f path s = (None, s)) as -> by (unfold visit_page; by rewrite Er).
        apply (IH stack vis s Hw). eapply pass_walked; eauto; [done|]. intros Hg. destruct (keeps vis s path HP Hg Hnew) as [c Hc]. by rewrite Er in Hc.
    + apply (IH stack vis s Hw). eapply pass_walked; eauto; [done|]. intros Hg. destruct (aims path Hg) as (_ & _ & Hp' & _). by rewrite Ep in Hp'.
Qed.

(** The directories that the walk has still to read. *)
Definition to_read (stack : list text) : list text :=
  filter (fun p => Exists (fun x => below x p) stack) (filter (fun p => is_dir d0 p = true) (map_to_list d0).*1).
Lemma to_read_popped dir stack stack' : is_dir d0 dir = true -> dir ∉ stack -> (forall x, x ∈ stack -> below x dir -> x = dir) ->
  (forall x, x ∈ stack' -> x ∈ stack \/ dir_of x = Some dir) -> length (to_read stack') < length (to_read (dir :: stack)).
Proof.
  intros Hd Hn Ha Hs. apply (filter_length_lt _ _ _ dir).
  - intros p [x [Hx Hb]]%Exists_exists. apply Exists_exists. destruct (Hs x Hx) as [Hi|Hi]; [exists x; split; [by right|done]|].
    exists dir. split; [by left|]. eapply below_trans; [|done]. by apply below_dir_of.
  - apply list_elem_of_filter. split; [done|]. unfold is_dir in Hd. destruct (d0 !! dir) as [n|] eqn:E; [|done].
    apply list_elem_of_fmap. exists (dir, n). split; [done|]. by apply elem_of_map_to_list.
  - apply Exists_exists. exists dir. split; [by left|apply below_refl].
  - intros [x [Hx Hb]]%Exists_exists. destruct (Hs x Hx) as [Hi|Hi]; [by rewrite (Ha x Hi Hb) in Hi|]. by apply (below_dir_of x dir Hi).
Qed.
Lemma entries_spec d dir es : entries d dir = Some es -> NoDup es /\ (forall e, e ∈ es <-> dir_of e = Some dir /\ is_Some (d !! e)).
Proof.
  unfold entries. destruct (_ || _); [done|]. intros [= <-]. split.
  - rewrite list_order_perm. apply NoDup_filter, NoDup_fst_map_to_list.
  - intros e. rewrite list_order_perm, list_elem_of_filter. split.
    + intros [He [[p n] [-> Hp%elem_of_map_to_list]]%list_elem_of_fmap]. by split; [|eexists].
    + intros [He [n Hn]]. split; [done|]. apply list_elem_of_fmap. exists (e, n). split; [done|]. by apply elem_of_map_to_list.
Qed.
Lemma popped_facts dir stack vis s : walked (dir :: stack) [] vis s ->
  is_dir d0 dir = true /\ below wiki dir /\ dir ∉ stack /\ (forall x, x ∈ stack -> below x dir -> x = dir) /\ forall x, x ∈ stack -> ~ below dir x.
Proof.
  intros W. pose proof (wk_nodup _ _ _ _ W) as [N1 N2]%NoDup_cons. split_and!.
  - apply (wk_isdir _ _ _ _ W). by left.
  - apply (wk_below _ _ _ _ W). by left.
  - done.
  - intros x Hx. apply (wk_apart _ _ _ _ W); [by right|by left].
  - intros x Hx Hb. apply N1. by rewrite (wk_apart _ _ _ _ W dir x ltac:(by left) ltac:(by right) Hb).
Qed.
(** The walk goes on without the directory that was popped, when what it leads to is pending. *)
Lemma popped_walked dir stack rest vis s : walked (dir :: stack) [] vis s ->
  (forall p, goal p -> below dir p -> p <> dir -> pending stack rest vis p) -> walked stack rest vis s.
Proof.
  intros W HG. pose proof (popped_facts dir stack vis s W) as (Hd & _). destruct W as [W1 W2 W3 W4 W5 W6 W7 W8]. apply NoDup_cons in W5 as [_ W5]. split; try done.
  - intros x Hx. apply W3. by right.
  - intros x Hx. apply W4. by right.
  - intros a b H1 H2. apply W6; by right.
  - intros v x Hv Hx. apply W7; [done|by right].
  - intros p Hg. destruct (W8 p Hg) as [Hv|[(x & [->|Hx]%elem_of_cons & Hb)|(x & Hx%elem_of_nil & _)]]; [by left| |right; left; by exists x|done].
    apply HG; [done|done|]. intros ->. destruct (aims dir Hg) as (_ & _ & _ & Hpd & _). by rewrite Hd in Hpd.
Qed.
Lemma open_dir dir stack vis s es : walked (dir :: stack) [] vis s -> entries s.1 dir = Some es -> in_dir dir es stack vis s.
Proof.
  intros W [En Ee]%entries_spec. pose proof (popped_facts dir stack vis s W) as (Hd & Hw & Hn & Ha & Ha'). split.
  - apply (popped_walked dir); [done|]. intros p Hg Hb Np. destruct (aims p Hg) as (Hbw & _ & _ & _ & HA).
    destruct (child_towards dir p Hb Np) as (c & Hc & Hcp). right. right. exists c. split; [|done]. apply Ee. split; [done|].
    destruct (decide (c = p)) as [->|N].
    + destruct (keeps vis s p (wk_inv _ _ _ _ W) Hg) as [content Hr].
      { intros Hv. by apply (wk_vis _ _ _ _ W p dir Hv); [left|]. }
      unfold read_to_string in Hr. destruct (refuses _); [done|]. by destruct (s.1 !! p).
    + assert (below wiki c) as Hwc by (apply (below_trans _ dir); [done|by apply below_dir_of]). destruct (HA c Hwc Hcp N) as [Hi _].
      rewrite (wk_dirs _ _ _ _ W) in Hi by done. unfold is_dir in Hi. by destruct (s.1 !! c).
  - split; [done| | | |].
    + intros e He. by apply Ee.
    + intros e [He _]%Ee Hv. apply (wk_vis _ _ _ _ W e dir Hv); [by left|by apply below_dir_of].
    + intros e x [He _]%Ee Hx. split; intros Hb.
      * destruct (below_child x e dir He Hb) as [->|Hb']; [|by rewrite (Ha x Hx Hb') in Hx]. apply (Ha' x Hx). by apply below_dir_of.
      * apply (Ha' x Hx). eapply below_trans; [by apply below_dir_of|done].
    + intros v Hv. left. apply (wk_vis _ _ _ _ W v dir Hv). by left.
Qed.
Lemma walk_rule fuel : forall stack vis s, walked stack [] vis s -> length (to_read stack) <= fuel ->
  exists o s' vis', walk now f fuel stack s = Done (o, s') /\ P vis' s' /\ (forall e, o = Some e -> Q e) /\ (o = None -> forall p, goal p -> p ∈ vis').
Proof.
  induction fuel as [|fuel IH]; intros [|dir stack] vis s W Hf; pose proof (wk_inv _ _ _ _ W) as HP;
    try (exists None, s, vis; split_and!; [done..|]; intros _ p Hg; destruct (wk_goal _ _ _ _ W p Hg) as [H1|[(x & Hx%elem_of_nil & _)|(x & Hx%elem_of_nil & _)]]; done);
    pose proof (popped_facts dir stack vis s W) as (Hd & Hw & Hn & Ha & _).
  { pose proof (to_read_popped dir stack stack Hd Hn Ha ltac:(by left)). lia. }
  cbn [walk]. destruct (entries s.1 dir) as [es|] eqn:E.
  - destruct (entries_rule dir es stack vis s Hw (open_dir _ _ _ _ _ W E)) as (o & st & s' & vis' & -> & HP' & HQ & HW & HS).
    destruct o as [e|]; [by exists (Some e), s', vis'|]. apply (IH st vis' s'); [by apply HW|].
    pose proof (to_read_popped dir stack st Hd Hn Ha HS). lia.
  - apply (IH stack vis s); [|pose proof (to_read_popped dir stack stack Hd Hn Ha ltac:(by left)); lia].
    apply (popped_walked dir); [done|]. intros p Hg Hb Np. exfalso. destruct (aims p Hg) as (_ & _ & _ & _ & HA).
    destruct (HA dir Hw Hb) as [_ Hr]; [by intros ->|]. unfold entries in E. rewrite Hr, <- (wk_dirs _ _ _ _ W), Hd in E by done. done.
Qed.
(** The walk ends, and an invariant of its visits holds at its end; when nothing was
    refused it has visited every page it had to. *)
Lemma for_each_rule a : is_dir d0 wiki = true -> P [] (d0, a) ->
  exists o s' vis', for_each_page now f wiki (d0, a) = Done (o, s') /\ P vis' s' /\ (forall e, o = Some e -> Q e) /\ (o = None -> forall p, goal p -> p ∈ vis').
Proof.
  intros Hw HP. apply (walk_rule _ [wiki] []).
  - split; try done.
    + intros x ->%list_elem_of_singleton. apply below_refl.
    + by intros x ->%list_elem_of_singleton.
    + apply NoDup_singleton.
    + by intros a' b ->%list_elem_of_singleton ->%list_elem_of_singleton.
    + by intros v x ?%elem_of_nil.
    + intros p Hg. right. left. exists wiki. split; [by left|]. by apply aims.
  - cbn [fst]. transitivity (length (map_to_list d0)); [|by rewrite length_map_to_list; lia]. unfold to_read.
    rewrite length_filter, length_filter. by rewrite length_fmap.
Qed.
End rule.
