(* ===== verification/PagesSweep.v ===== *)
(** * What a sweep may take

    Whatever operations the disk refuses, a sweep ends, and takes only what its
    documentation lets it take: entries whose files are gone, pages none of whose
    sources is left, the brackets of links. *)

From S2P Require Import Prelude Text Sanitize Ordering FileTools Graph Transaction Pages PagesProps.
From Stdlib Require Import Lia.
Local Open Scope list_scope.

Lemma below_chain a b p : below a p -> below b p -> below a b \/ below b a.
Proof.
  rewrite !below_spec. intros [->|[r ->]] [E|[r' E]]; [by left; left| | |].
  - right. right. by exists r'.
  - left. right. by exists r.
  - unfold within in E. apply app_eq_inv in E as [(k & E1 & E2)|(k & E1 & E2)].
    + destruct k as [|c k]; [left; left; by rewrite app_nil_r in E1|]. injection E2 as <- E2. right. right. by exists k.
    + destruct k as [|c k]; [left; left; by rewrite app_nil_r in E1|]. injection E2 as <- E2. left. right. by exists k.
Qed.

Section sweep.
Context {Rf : Refusals} {Ls : Listing} {Pa : Patches} {Al : Alphabet} {Lo : Lowercase} {Nf : Nfc}.
Context (tf : text) (now millis : Z) (wiki : text) (store : option text).

(** The paths on which versions are written, and the directories above them. *)
Definition reserved (p : text) : Prop := exists root, store = Some root /\ (below root p \/ below p root).
(** The versions are kept beside the wiki. *)
Definition beside : Prop := forall root, store = Some root -> ~ below wiki root /\ ~ below root wiki.
Hypothesis Hbeside : beside.
Lemma wiki_unreserved p : below wiki p -> ~ reserved p.
Proof.
  intros Hw (root & Hr & [Hb|Hb]); destruct (Hbeside root Hr) as [H1 H2].
  - by destruct (below_chain wiki root p Hw Hb).
  - apply H1. by eapply below_trans.
Qed.

(** ** What the operations leave alone *)

Definition grows (d d' : fs) : Prop := forall p, is_Some (d !! p) -> is_Some (d' !! p) /\ (is_dir d p = true -> is_dir d' p = true).
Lemma grows_trans a b c : grows a b -> grows b c -> grows a c.
Proof. intros Hab Hbc p Hp. destruct (Hab p Hp) as [H1 H2], (Hbc p) as [H3 H4]; [done|]. by auto. Qed.
Lemma write_frame p content t d d' : write_file p content t d = Ok d' ->
  d' = <[p := File content t]> d /\ is_dir d p = false /\ grows d d'.
Proof.
  unfold write_file, write. destruct (refuses _); [done|]. destruct (d !! p) as [[]|] eqn:E; intros [= <-];
    (assert (is_dir d p = false) as Hd by (unfold is_dir; by rewrite E); split_and!; [done..|]; intros q Hq; unfold is_dir in *;
     destruct (decide (q = p)) as [->|N]; [rewrite lookup_insert_eq; split; [done|]; by rewrite E|by rewrite lookup_insert_ne]).
Qed.
(** [fs::write] changes nothing but the file, which is left whole, with the new
    text, or with its beginning. *)
Definition cut_write (p : text) : Prop := exists k, refuses (PutChar p k) = true.
Lemma put_spec p content : forall k, put p k content = content \/ cut_write p.
Proof.
  induction content as [|c rest IH]; intros k; cbn [put]; [by left|]. destruct (refuses _) eqn:E; [right; by exists k|].
  destruct (IH (S k)) as [->|?]; [by left|by right].
Qed.
Lemma overwrite_frame p content t d o d' : overwrite p content t d = (o, d') ->
  d' = d \/ is_dir d p = false /\ exists kept, d' = <[p := File kept t]> d /\ (kept = content \/ cut_write p).
Proof.
  unfold overwrite. destruct (refuses _); [intros [= _ <-]; by left|]. pose proof (put_spec p content 0) as HP.
  unfold write, is_dir. destruct (d !! p) as [[]|]; intros [= _ <-]; [right|by left|right]; (split; [done|]; by eexists).
Qed.
Lemma prefixes_above p q : q ∈ prefixes p -> below q p.
Proof.
  unfold prefixes. rewrite list_elem_of_filter, list_elem_of_fmap. intros [_ (i & -> & Hi)]. apply list_elem_of_filter in Hi as [[->|Hi] _].
  - rewrite firstn_all. apply below_refl.
  - apply below_spec. right. exists (drop (S i) p). unfold within. by rewrite <- (take_drop_middle p i SLASH Hi) at 1.
Qed.
Lemma make_dirs_frame qs : forall d d', foldl make_dir (Ok d) qs = Ok d' -> (forall p, p ∉ qs -> d' !! p = d !! p) /\ grows d d'.
Proof.
  induction qs as [|q qs IH]; intros d d'; cbn [foldl]; [intros [= <-]; split; [done|by intros p Hp]|].
  intros E. assert (exists d1, make_dir (Ok d) q = Ok d1) as [d1 E1].
  { destruct (make_dir (Ok d) q) as [d1|e]; [by eexists|]. exfalso. revert E. clear. induction qs as [|q' qs IH]; [done|]. exact IH. }
  rewrite E1 in E. destruct (IH d1 d' E) as [HF HG]. assert ((forall p, p <> q -> d1 !! p = d !! p) /\ grows d d1) as [F1 G1].
  { unfold make_dir in E1. cbn [rbind] in E1. destruct (d !! q) as [[]|] eqn:Eq; simplify_eq; [by split; [done|by intros p]|].
    split; [intros p N; by rewrite lookup_insert_ne|]. intros p Hp. unfold is_dir. destruct (decide (p = q)) as [->|N]; [by rewrite lookup_insert_eq|by rewrite lookup_insert_ne]. }
  split; [|by eapply grows_trans]. intros p [N Hp]%not_elem_of_cons. by rewrite HF, F1.
Qed.
Lemma version_dir_below root rel : below root (version_dir_for root rel).
Proof.
  unfold version_dir_for. destruct (dir_of rel); [|apply below_within]. eapply below_trans; apply below_within.
Qed.
Lemma capture_frame root page next d r d' : store = Some root -> capture_page now millis root wiki page next d = (r, d') ->
  (forall p, ~ reserved p -> d' !! p = d !! p) /\ grows d d'.
Proof.
  intros Hr. unfold capture_page. destruct (relative wiki page) as [rel|]; [|by intros [= <- <-]; split; [done|by intros p]].
  destruct (read_to_string page d) as [prior|]; [|by intros [= <- <-]; split; [done|by intros p]].
  case_bool_decide; [by intros [= <- <-]; split; [done|by intros p]|]. unfold create_dir_all.
  destruct (refuses _); [by intros [= <- <-]; split; [done|by intros p]|]. pose proof (version_dir_below root rel) as Hv.
  destruct (foldl make_dir (Ok d) _) as [d1|e] eqn:E1; [|by intros [= <- <-]; split; [done|by intros p]].
  apply make_dirs_frame in E1 as [F1 G1].
  assert (forall p, ~ reserved p -> d1 !! p = d !! p) as F1'.
  { intros p Hp. apply F1. intros Hq%prefixes_above. apply Hp. exists root. split; [done|]. by destruct (below_chain root p _ Hv Hq); [left|right]. }
  assert (forall q c d2 d3, below root q -> write_file q c now d2 = Ok d3 -> (forall p, ~ reserved p -> d3 !! p = d2 !! p) /\ grows d2 d3) as FW.
  { intros q c d2 d3 Hq (-> & _ & HG)%write_frame. split; [|done]. intros p Hp. rewrite lookup_insert_ne; [done|]. intros <-. apply Hp. exists root. auto. }
  assert (forall m e, below root (version_path (version_dir_for root rel) m e)) as HP by (intros m e; eapply below_trans; [done|apply below_within]).
  destruct (write_file _ prior now d1) as [d2|e] eqn:E2; [|by intros [= <- <-]].
  apply FW in E2 as [F2 G2]; [|done]. assert (forall p, ~ reserved p -> d2 !! p = d !! p) as F by (intros p Hp; by rewrite F2, F1').
  assert (grows d d2) as G by by eapply grows_trans.
  case_bool_decide; [by intros [= <- <-]|]. destruct (write_file _ _ now d2) as [d3|e] eqn:E3; [|by intros [= <- <-]].
  apply FW in E3 as [F3 G3]; [|done]. intros [= <- <-]. split; [intros p Hp; by rewrite F3, F|by eapply grows_trans].
Qed.

(** ** What a visit may do *)

Definition gone (d : fs) (x : text) : Prop := reserved x \/ exists_ d x = false.
Definition recoverable (d : fs) (page : text) : Prop :=
  match store with Some root => versions d root wiki page <> [] | None => True end.
(** What a first visit may have made of a page. *)
Definition stripped (d : fs) (content : text) (sources alive : list text) : Prop :=
  parse_sources content = Some sources /\ alive <> [] /\ alive `sublist_of` sources
  /\ (forall x, x ∈ sources -> x ∉ alive -> gone d x) /\ exists x, x ∈ sources /\ gone d x.
Definition orphan (d : fs) (page content : text) : Prop :=
  exists sources, parse_sources content = Some sources /\ sources <> [] /\ (forall x, x ∈ sources -> gone d x) /\ recoverable d page.
(** A page whose writing the disk refused after it was opened: it holds what was
    put until then. *)
Definition cut_short (d : fs) (page : text) : Prop := cut_write page /\ exists c u, d !! page = Some (File c u).
Definition verdict (d : fs) (page content : text) (t : Z) : Prop :=
  d !! page = Some (File content t)
  \/ (exists sources alive, stripped d content sources alive /\ d !! page = Some (File (write_sources content alive) now))
  \/ (orphan d page content /\ d !! page = None)
  \/ cut_short d page.

(** From one state to a later one: what was gone stays so, what was kept is still there. *)
Definition later (d d' : fs) : Prop :=
  (forall x, gone d x -> gone d' x) /\ (forall page, recoverable d page -> recoverable d' page).
Lemma later_trans a b c : later a b -> later b c -> later a c.
Proof. intros [A1 A2] [B1 B2]. split; auto. Qed.
Lemma versions_grow d d' root page : (forall x, below root x -> is_Some (d !! x) -> is_Some (d' !! x) /\ (is_dir d x = true -> is_dir d' x = true)) ->
  versions d root wiki page <> [] -> versions d' root wiki page <> [].
Proof.
  intros HG. unfold versions. destruct (relative wiki page) as [rel|]; [|done]. pose proof (version_dir_below root rel) as Hv.
  set (dir := version_dir_for root rel) in *. destruct (entries d dir) as [es|] eqn:E; [|done]. intros Hne.
  assert (exists md, md ∈ es /\ is_Some (version_of d rel dir md)) as (md & Hmd & Hs).
  { destruct (omap (version_of d rel dir) es) as [|v vs] eqn:Eo; [done|]. assert (v ∈ omap (version_of d rel dir) es) as Hv' by (rewrite Eo; by left).
    apply list_elem_of_omap in Hv' as (md & Hmd & Hs). by exists md. }
  pose proof (entries_spec d dir es E) as [_ Hes]. apply Hes in Hmd as [Hdir Hsome].
  assert (is_dir d dir = true) as Hd by (unfold entries in E; destruct (refuses (ReadDir dir)); [done|]; by destruct (is_dir d dir)).
  assert (entries d' dir <> None) as HE.
  { unfold entries in *. destruct (refuses (ReadDir dir)); [done|]. cbn [orb] in *. destruct (HG dir Hv) as [_ Hd']; [|by rewrite Hd'].
    unfold is_dir in Hd. destruct (d !! dir); [by eexists|done]. }
  destruct (entries d' dir) as [es'|] eqn:E'; [|done]. pose proof (entries_spec d' dir es' E') as [_ Hes'].
  assert (md ∈ es') as Hmd'.
  { apply Hes'. split; [done|]. apply HG; [|done]. eapply below_trans; [exact Hv|]. by apply below_dir_of. }
  assert (is_Some (version_of d' rel dir md)) as [v Hv'].
  { unfold version_of in *. destruct (is_md md); [|by destruct Hs]. destruct (parse_i64 _); [by eexists|by destruct Hs]. }
  intros HN. assert (v ∈ sort_by newer (omap (version_of d' rel dir) es')) as HI.
  { rewrite sort_by_perm. apply list_elem_of_omap. by exists md. }
  rewrite HN in HI. by apply elem_of_nil in HI.
Qed.
Lemma later_frame d d' : (forall x, ~ reserved x -> exists_ d x = false -> exists_ d' x = false) ->
  (forall x, reserved x -> is_Some (d !! x) -> is_Some (d' !! x) /\ (is_dir d x = true -> is_dir d' x = true)) -> later d d'.
Proof.
  intros HE HG. split.
  - intros x [Hr|Hx]; [by left|]. destruct (decide (exists_ d' x = false)) as [Hf|Hf]; [by right|]. left.
    destruct (exists_ d' x) eqn:E; [|done]. destruct store as [root|] eqn:Es.
    + unfold reserved. exists root. split; [done|]. destruct (decide (below root x)); [by left|]. destruct (decide (below x root)); [by right|].
      exfalso. apply Hf. rewrite <- E. apply HE; [|done]. intros (root' & Hr' & Hb). assert (root' = root) as -> by congruence. by destruct Hb.
    + exfalso. apply Hf. rewrite <- E. apply HE; [|done]. intros (root' & Hr' & _). congruence.
  - unfold recoverable. intros page. destruct store as [root|] eqn:Es; [|done]. apply versions_grow. intros x Hx. apply HG.
    exists root. split; [done|]. by left.
Qed.
Lemma verdict_later d d' page content t : later d d' -> d' !! page = d !! page -> verdict d page content t -> verdict d' page content t.
Proof.
  intros [L1 L2] E [H|[(sources & alive & (S1 & S2 & S3 & S4 & x & S5 & S6) & H)|[[(sources & O1 & O2 & O3 & O4) H]|[HC H]]]]; unfold verdict, cut_short; rewrite E.
  - by left.
  - right. left. exists sources, alive. split; [|done]. split_and!; auto. exists x. auto.
  - right. right. left. split; [|done]. exists sources. split_and!; auto.
  - by right; right; right.
Qed.

(** ** The first pass *)

Definition settled (d d' : fs) (path content : text) (t : Z) : Prop :=
  (forall p, p <> path -> ~ reserved p -> d' !! p = d !! p) /\ is_dir d' path = false /\ later d d' /\ verdict d' path content t.
Lemma later_refl d : later d d.
Proof. by split. Qed.
Section page.
Context (d : fs) (path content : text) (t : Z).
Hypothesis Hw : below wiki path.
Hypothesis Hd : d !! path = Some (File content t).
Lemma settled_same : settled d d path content t.
Proof. split_and!; [done|unfold is_dir; by rewrite Hd|apply later_refl|by left]. Qed.
Lemma settled_grown d' : (forall p, ~ reserved p -> d' !! p = d !! p) -> grows d d' -> settled d d' path content t.
Proof.
  intros F G. assert (d' !! path = Some (File content t)) as Hd' by (rewrite F; [done|by apply wiki_unreserved]).
  split_and!; [auto|unfold is_dir; by rewrite Hd'| |by left].
  apply later_frame; [|by intros x _; apply G]. intros x Hx. unfold exists_. by rewrite F.
Qed.
(** What changes the page and nothing else. *)
Lemma settled_only d' : (forall p, p <> path -> d' !! p = d !! p) -> is_dir d' path = false -> (later d d' -> verdict d' path content t) ->
  settled d d' path content t.
Proof.
  intros F Hp HV. assert (later d d') as L.
  { apply later_frame.
    - intros x _. unfold exists_. destruct (decide (x = path)) as [->|N]; [by rewrite Hd|by rewrite F].
    - intros x Hx. assert (x <> path) by (intros ->; by apply (wiki_unreserved path)). unfold is_dir. by rewrite F. }
  split_and!; auto.
Qed.
Lemma orphan_visit s sources : parse_sources content = Some sources -> sources <> [] -> filter (fun x => exists_ d x = true) sources = [] ->
  forall o d' s', orphan_step now millis wiki store path content (d, s) = (o, (d', s')) -> (o = None \/ o = Some []) /\ settled d d' path content t.
Proof.
  intros Hp Hne Ha o d' s'. unfold orphan_step. cbn [fst snd]. destruct (seen_before wiki store d path) eqn:Es.
  - unfold remove, remove_file. rewrite Hd. destruct (refuses _); intros [= <- <- <-]; (split; [by auto|]); [apply settled_same|].
    apply settled_only; [by intros p N; rewrite lookup_delete_ne|unfold is_dir; by rewrite lookup_delete_eq|]. intros [L1 L2].
    right. right. left. split; [|by rewrite lookup_delete_eq]. exists sources. split_and!; [done|done| |].
    + intros x Hx. apply L1. right. destruct (exists_ d x) eqn:E; [|done]. exfalso.
      assert (x ∈ filter (fun x => exists_ d x = true) sources) as HI by by apply list_elem_of_filter. rewrite Ha in HI. by apply elem_of_nil in HI.
    + apply L2. unfold seen_before in Es. unfold recoverable. destruct store; [|done]. by case_bool_decide.
  - destruct store as [root|] eqn:Er; [|intros [= <- <- <-]; split; [by left|apply settled_same]].
    destruct (capture_page now millis root wiki path [] d) as [r d1] eqn:Ec.
    assert (settled d d1 path content t) as HS by (destruct (capture_frame root path [] d r d1 Er Ec) as [F G]; by apply settled_grown).
    destruct r as [[c|]|e]; intros [= <- <- <-]; by auto.
Qed.
Lemma sweep_visit s o d' s' : read_to_string path d = Some content ->
  visit_page now (sweep_step now millis wiki store) path (d, s) = (o, (d', s')) -> settled d d' path content t.
Proof.
  intros Hr. unfold visit_page. cbn [fst snd]. rewrite Hr. unfold sweep_step. cbn [fst snd].
  assert (forall s1, (None : option text, (d, s1)) = (o, (d', s')) -> settled d d' path content t) as same by (intros s1 [= _ <- _]; apply settled_same).
  destruct (parse_sources content) as [[|x sources]|] eqn:Hp; [apply same| |apply same].
  set (alive := filter (fun y => exists_ d y = true) (x :: sources)). destruct (_ =? 0) eqn:E0; [apply same|]. bool_to_prop.
  destruct alive as [|y ys] eqn:Ea.
  - destruct (orphan_step _ _ _ _ _ _ _) as [o1 [d1 s1]] eqn:Eo.
    destruct (orphan_visit _ (x :: sources) Hp ltac:(done) Ea _ _ _ Eo) as [[->| ->] HS]; by intros [= _ <- _].
  - rewrite <- Ea. destruct (write_sources content alive) as [|c new] eqn:En; [apply same|].
    cbn [fst snd].
    destruct (overwrite path (c :: new) now d) as [e d1] eqn:Ew. intros HE. assert (d' = d1) as -> by (destruct e; by injection HE as _ <- _). clear HE.
    apply overwrite_frame in Ew as [->|[_ (kept & -> & [->|Hcut])]]; [apply settled_same| |].
    2:{ apply settled_only; [by intros p N; rewrite lookup_insert_ne|unfold is_dir; by rewrite lookup_insert_eq|]. intros _. right. right. right.
      split; [done|]. eexists _, _. apply lookup_insert_eq. }
    apply settled_only; [by intros p N; rewrite lookup_insert_ne|unfold is_dir; by rewrite lookup_insert_eq|].
    intros [L1 _]. right. left. exists (x :: sources), alive. split; [|by rewrite lookup_insert_eq, En].
    assert (forall z, z ∈ x :: sources -> z ∉ alive -> gone d z) as HG.
    { intros z Hz Hn. right. destruct (exists_ d z) eqn:Ez; [|done]. exfalso. apply Hn. subst alive. by apply list_elem_of_filter. }
    split_and!; [done|by rewrite Ea|apply sublist_filter|auto|].
    destruct (decide (Exists (fun z => z ∉ alive) (x :: sources))) as [[z [Hz Hn]]%Exists_exists|Hn]; [by exists z; auto|]. exfalso.
    apply E0. rewrite <- Ea. assert (alive = x :: sources) as ->; [|lia]. subst alive. apply list_filter_all. intros z Hz.
    destruct (exists_ d z) eqn:Ez; [done|]. exfalso. apply Hn, Exists_exists. exists z. split; [done|]. intros [HI _]%list_elem_of_filter. by rewrite Ez in HI.
Qed.
End page.

Context (d0 : fs).
Definition seen_file (d : fs) (p : text) : Prop := below wiki p /\ is_page p = true /\ exists content t, d !! p = Some (File content t).
Definition first_pass (vis : list text) (s : fs * sweeping) : Prop :=
  (forall p, ~ reserved p -> p ∉ vis -> s.1 !! p = d0 !! p)
  /\ forall p, p ∈ vis -> seen_file d0 p /\ forall content t, d0 !! p = Some (File content t) -> verdict s.1 p content t.
Lemma read_file p d content : read_to_string p d = Some content -> exists t, d !! p = Some (File content t).
Proof. unfold read_to_string. destruct (refuses _); [done|]. destruct (d !! p) as [[c t|]|]; intros [= <-]. by exists t. Qed.
Lemma first_pass_step vis s path content o s' : first_pass vis s -> path ∉ vis -> below wiki path -> is_page path = true ->
  read_to_string path s.1 = Some content -> visit_page now (sweep_step now millis wiki store) path s = (o, s') ->
  first_pass (path :: vis) s' /\ same_dirs wiki s.1 s'.1.
Proof.
  destruct s as [d s], s' as [d' s']. cbn [fst]. intros [HA HB] Hn Hw Hp Hr Hv. cbn [fst] in *. destruct (read_file _ _ _ Hr) as [t Hd].
  destruct (sweep_visit d path content t Hw Hd s o d' s' Hr Hv) as (F & Hnd & L & V).
  assert (d0 !! path = Some (File content t)) as Hd0 by (rewrite <- HA; [done|by apply wiki_unreserved|done]). split; [split|]; cbn [fst].
  - intros p Hp' [N Hv']%not_elem_of_cons. rewrite F by done. by apply HA.
  - intros p [->|Hin]%elem_of_cons.
    + split; [split_and!; [done|done|by exists content, t]|]. intros c u. rewrite Hd0. by intros [= <- <-].
    + destruct (HB p Hin) as [Hs HV]. split; [done|]. intros c u Hc. apply (verdict_later d); [done| |by apply HV]. apply F; [by intros ->|].
      apply wiki_unreserved, Hs.
  - intros p Hb. destruct (decide (p = path)) as [->|N]; [unfold is_dir at 1; by rewrite Hd|]. unfold is_dir. rewrite F; [done|done|by apply wiki_unreserved].
Qed.

(** ** The second pass *)

Definition unlinked (content new : text) : Prop := exists targets, new = foldl (fun c target => replace c (bracketed target) target) content targets.
Lemma unlink_unlinked names links : forall c n, unlinked c (foldl (unlink names) (c, n) links).1.
Proof.
  induction links as [|target links IH]; intros c n; [by exists []|]. cbn [foldl]. unfold unlink at 2. cbn [fst snd].
  destruct (names_deleted names target); [|apply IH]. destruct (IH (replace c (bracketed target) target) (S n)) as [ts ->]. by exists (target :: ts).
Qed.
Definition tracking (d : fs) : Prop := exists c t, d !! tf = Some (File c t).
Lemma track_frame p t d d' : track tf p t d = Ok d' -> (forall q, q <> tf -> d' !! q = d !! q) /\ (tracking d -> tracking d').
Proof.
  unfold track, track_path. destruct (refuses _); [done|]. destruct (d !! tf) as [[c u|]|]; intros [= <-];
    (split; [intros q N; by rewrite lookup_insert_ne|intros _; eexists _, _; apply lookup_insert_eq]).
Qed.
Lemma track_all_frame paths : forall d o d', track_all tf now paths d = (o, d') -> (forall q, q <> tf -> d' !! q = d !! q) /\ (tracking d -> tracking d').
Proof.
  induction paths as [|p paths IH]; intros d o d'; cbn [track_all]; [by intros [= _ <-]|].
  destruct (track tf p now d) as [d1|e] eqn:E; [|by intros [= _ <-]]. apply track_frame in E as [F T]. intros [F' T']%IH.
  split; [|by auto]. intros q N. by rewrite F', F.
Qed.
Definition second_pass (d2 : fs) (vis : list text) (s : fs * sweeping) : Prop :=
  (forall p, p <> tf -> p ∉ vis -> s.1 !! p = d2 !! p) /\ tracking s.1
  /\ forall p, p ∈ vis -> seen_file d2 p /\ forall content t, d2 !! p = Some (File content t) -> exists c u, s.1 !! p = Some (File c u) /\ (unlinked content c \/ cut_write p).
Hypothesis Htf : ~ below wiki tf.
Lemma second_pass_step d2 names vis s path content o s' : second_pass d2 vis s -> path ∉ vis -> below wiki path -> is_page path = true ->
  read_to_string path s.1 = Some content -> visit_page now (links_step tf now names) path s = (o, s') ->
  second_pass d2 (path :: vis) s' /\ same_dirs wiki s.1 s'.1.
Proof.
  destruct s as [d s], s' as [d' s']. cbn [fst]. intros (HA & HT & HB) Hn Hw Hp Hr Hv. cbn [fst] in *. destruct (read_file _ _ _ Hr) as [t Hd].
  assert (path <> tf) as Npt by (intros ->; done).
  assert (tracking d' /\ (forall p, p <> path -> p <> tf -> d' !! p = d !! p) /\ exists c u, d' !! path = Some (File c u) /\ (unlinked content c \/ cut_write path)) as (T & F & Hc).
  { unfold visit_page in Hv. cbn [fst snd] in Hv. rewrite Hr in Hv. unfold links_step in Hv. cbn [fst snd] in Hv.
    pose proof (unlink_unlinked names (extract_wikilinks content) content 0) as HU.
    destruct (foldl (unlink names) (content, 0) (extract_wikilinks content)) as [new cleaned]. cbn [fst] in HU.
    assert (tracking d /\ (forall p, p <> path -> p <> tf -> d !! p = d !! p) /\ exists c u, d !! path = Some (File c u) /\ (unlinked content c \/ cut_write path)) as same.
    { split_and!; [done|done|]. exists content, t. split; [done|left; by exists []]. }
    destruct (cleaned =? 0); [by injection Hv as _ <- _|].
    assert (exists d1, (match track tf path now d with Ok d => d | Err _ => d end) = d1 /\ (forall q, q <> tf -> d1 !! q = d !! q) /\ tracking d1) as (d1 & E1 & F1 & T1).
    { destruct (track tf path now d) as [d1|e] eqn:E; [|by exists d]. apply track_frame in E as [F T]. exists d1. auto. }
    rewrite E1 in Hv. assert (tracking d1 /\ (forall p, p <> path -> p <> tf -> d1 !! p = d !! p) /\ exists c u, d1 !! path = Some (File c u) /\ (unlinked content c \/ cut_write path)) as tracked.
    { split_and!; [done|auto|]. exists content, t. split; [by rewrite F1|left; by exists []]. }
    destruct new as [|c new]; [by injection Hv as _ <- _|]. cbn [fst snd] in Hv.
    destruct (overwrite path (c :: new) now d1) as [e d3] eqn:Ew. assert (d' = d3) as -> by (destruct e; by injection Hv as _ <- _).
    apply overwrite_frame in Ew as [->|[_ (kept & -> & Hk)]]; [done|]. split_and!.
    - destruct T1 as (c1 & t1 & T1). exists c1, t1. by rewrite lookup_insert_ne.
    - intros p N1 N2. rewrite lookup_insert_ne by done. by apply F1.
    - eexists _, _. split; [apply lookup_insert_eq|]. destruct Hk as [->|?]; [by left|by right]. }
  split; [split_and!|]; cbn [fst].
  - intros p N1 [N2 Hv']%not_elem_of_cons. rewrite F by done. by apply HA.
  - done.
  - assert (d2 !! path = Some (File content t)) as Hd2 by by rewrite <- HA.
    intros p [->|Hin]%elem_of_cons; [split; [split_and!; [done|done|by exists content, t]|]; intros c u; rewrite Hd2; by intros [= <- <-]|].
    destruct (HB p Hin) as [Hs HV]. split; [done|]. intros c u Hcu. rewrite F; [by apply (HV c u)|by intros ->|intros ->; by apply Htf, Hs].
  - intros p Hb. unfold is_dir. destruct (decide (p = path)) as [->|N]; [|rewrite F; [done|done|by intros ->]]. rewrite Hd. by destruct Hc as (c & u & -> & _).
Qed.

(** ** The whole sweep *)

Definition spared (d' : fs) (p content : text) (t : Z) : Prop :=
  (~ (below wiki p /\ is_page p = true) -> d' !! p = Some (File content t))
  /\ ((forall sources x, parse_sources content = Some sources -> x ∈ sources -> ~ gone d' x) ->
      exists new t', d' !! p = Some (File new t') /\ unlinked content new)
  /\ (forall new t', d' !! p = Some (File new t') -> exists kept, unlinked kept new
      /\ (kept = content \/ exists sources alive, stripped d' content sources alive /\ kept = write_sources content alive))
  /\ (d' !! p = None -> orphan d' p content)
  /\ d' !! p <> Some Dir.
Definition unharmed (d' : fs) : Prop :=
  forall p, p <> tf -> ~ reserved p -> match d0 !! p with
    | Some (File content t) => spared d' p content t \/ (below wiki p /\ is_page p = true /\ cut_short d' p)
    | other => d' !! p = other
    end.
Lemma stripped_later d d' content sources alive : later d d' -> stripped d content sources alive -> stripped d' content sources alive.
Proof. intros [L _] (S1 & S2 & S3 & S4 & x & S5 & S6). split_and!; auto. exists x. auto. Qed.
Lemma orphan_later d d' p content : later d d' -> orphan d p content -> orphan d' p content.
Proof. intros [L1 L2] (sources & O1 & O2 & O3 & O4). exists sources. split_and!; auto. Qed.
Lemma passes_spare vis1 vis2 d1 d2 s s2 : (exists s1, first_pass vis1 (d1, s1)) -> (forall q, q <> tf -> d2 !! q = d1 !! q) -> tracking d1 -> tracking d2 ->
  ~ reserved tf -> second_pass d2 vis2 (s, s2) -> unharmed s.
Proof.
  intros (s1 & A1 & B1) F12 T1 T2 Hr (A2 & T3 & B2). cbn [fst] in *.
  assert (forall d d', tracking d -> tracking d' -> (forall q, q <> tf -> exists_ d' q = exists_ d q) ->
    (forall q, reserved q -> q <> tf -> d' !! q = d !! q) -> later d d') as HL.
  { intros d d' (c & t & T) (c' & t' & T') HE HR. apply later_frame.
    - intros x _. destruct (decide (x = tf)) as [->|N]; [unfold exists_; by rewrite T|by rewrite HE].
    - intros x Hx. destruct (decide (x = tf)) as [->|N]; [done|]. unfold is_dir. by rewrite HR. }
  assert (later d1 d2) as L12 by (apply HL; [done|done|intros q N; unfold exists_; by rewrite F12|auto]).
  assert (later d2 s) as L2.
  { apply HL; [done|done| |].
    - intros q N. destruct (decide (q ∈ vis2)) as [Hv|Hv]; [|unfold exists_; by rewrite A2].
      destruct (B2 q Hv) as [(_ & _ & c & t & Hc) HV]. destruct (HV c t Hc) as (c' & t' & Hc' & _). unfold exists_. by rewrite Hc, Hc'.
    - intros q Hq N. apply A2; [done|]. intros Hv. destruct (B2 q Hv) as [(Hb & _) _]. by apply (wiki_unreserved q). }
  intros p N Hp. assert (forall n, d0 !! p = n -> (forall c t, n <> Some (File c t)) -> s !! p = n) as other.
  { intros n Hn Hf. assert (d2 !! p = n) as H2.
    { rewrite F12, A1; [done|done| |done]. intros Hv. destruct (B1 p Hv) as [(_ & _ & c & t & Hc) _]. apply (Hf c t). congruence. }
    rewrite A2; [done|done|]. intros Hv. destruct (B2 p Hv) as [(_ & _ & c & t & Hc) _]. apply (Hf c t). congruence. }
  destruct (d0 !! p) as [[content t|]|] eqn:E; [|by apply other|by apply other]. clear other.
  assert (verdict d2 p content t) as V.
  { apply (verdict_later d1); [done|by apply F12|]. destruct (decide (p ∈ vis1)) as [Hv|Hv]; [by apply (proj2 (B1 p Hv))|left; by rewrite A1]. }
  assert (forall c u, d2 !! p = Some (File c u) -> exists c' u', s !! p = Some (File c' u') /\ (unlinked c c' \/ below wiki p /\ is_page p = true /\ cut_write p)) as V2.
  { intros c u Hc. destruct (decide (p ∈ vis2)) as [Hv|Hv].
    - destruct (B2 p Hv) as [(? & ? & _) HV]. destruct (HV c u Hc) as (c' & u' & Hc' & [HU|HU]); exists c', u'; auto.
    - exists c, u. split; [by rewrite A2|left; by exists []]. }
  assert (d2 !! p = None -> s !! p = None) as VN.
  { intros HN. rewrite A2; [done|done|]. intros Hv. destruct (B2 p Hv) as [(_ & _ & c & u & Hc) _]. congruence. }
  assert (~ (below wiki p /\ is_page p = true) -> s !! p = Some (File content t)) as Hfirst.
  { intros Hnp. rewrite A2, F12, A1; try done; intros Hv; apply Hnp; [by destruct (B1 p Hv) as [(? & ? & _) _]|by destruct (B2 p Hv) as [(? & ? & _) _]]. }
  assert ((exists kept new u, s !! p = Some (File new u) /\ unlinked kept new
      /\ (kept = content \/ exists sources alive, stripped s content sources alive /\ kept = write_sources content alive))
    \/ (s !! p = None /\ orphan s p content) \/ (below wiki p /\ is_page p = true /\ cut_short s p)) as [H|[[HN HO]|H]]; [| | |by right].
  { assert (d2 !! p = Some (File content t) \/ (below wiki p /\ is_page p = true)) as [VC|VC].
    { destruct (decide (p ∈ vis1)) as [Hv|Hv]; [right; by destruct (B1 p Hv) as [(? & ? & _) _]|left; by rewrite F12, A1]. }
    2: destruct V as [V|[(sources & alive & HS & V)|[[HO V]|[HC (c & u & V)]]]].
    1,2: destruct (V2 content t) as (c & u & Hc & [HU|(? & ? & ?)]); [done|left; exists content, c, u; auto|right; right; split_and!; [done|done|]; split; [done|by exists c, u]].
    - destruct (V2 _ _ V) as (c & u & Hc & [HU|(? & ? & ?)]); [left|right; right; split_and!; [done|done|]; split; [done|by exists c, u]].
      eexists _, c, u. split_and!; [done|done|]. right. exists sources, alive. split; [by apply (stripped_later d2)|done].
    - right. left. split; [by apply VN|by apply (orphan_later d2)].
    - destruct (V2 _ _ V) as (c' & u' & Hc & _). right. right. split_and!; [apply VC..|]. split; [done|by exists c', u']. }
  - left. destruct H as (kept & new & u & Hs & HU & HK). unfold spared. split_and!; [done|rewrite Hs..].
    + intros Hal. exists new, u. split; [done|]. destruct HK as [->|(sources & alive & (S1 & _ & _ & _ & x & Hx & Hg) & _)]; [done|].
      by destruct (Hal sources x S1 Hx).
    + intros new' u' [= <- <-]. by exists kept.
    + done.
    + done.
  - left. unfold spared. split_and!; [done|rewrite HN..].
    2-4: done.
    intros Hal. destruct HO as (sources & O1 & O2 & O3 & _). destruct sources as [|x sources]; [done|]. destruct (Hal (x :: sources) x O1); [by left|]. apply O3. by left.
Qed.
Lemma sweep_ends : tracking d0 -> ~ reserved tf -> exists r d', sweep_dead_sources tf now millis wiki store d0 = Done (r, d') /\ unharmed d'.
Proof.
  intros T0 Hr. unfold sweep_dead_sources.
  assert (forall d, first_pass [] (d0, d)) as P0 by (intros d; split; [done|by intros p ?%elem_of_nil]).
  assert (forall d s, second_pass d [] (d, s) <-> tracking d) as Q0.
  { intros d s. split; [by intros (_ & T & _)|]. intros T. split_and!; [done|done|by intros p ?%elem_of_nil]. }
  set (zero := {| report := empty_report |}).
  destruct (is_dir d0 wiki) eqn:Ew; cbn [negb]; [|exists (Ok empty_report), d0; split; [done|]; by apply (passes_spare [] [] d0 d0 d0 zero); [exists zero|..|apply Q0]].
  destruct (for_each_rule now (sweep_step now millis wiki store) wiki d0 first_pass (fun _ => False) (fun _ => True)) with (a := zero)
    as (o1 & [d1 s1] & vis1 & -> & P1 & _); [by intros; edestruct first_pass_step as [HP HD]; [..|split_and!]|done|done|done|done|].
  assert (tracking d1) as T1 by (destruct T0 as (c & t & T0); exists c, t; destruct P1 as [A1 B1]; cbn [fst] in A1; rewrite A1; [done|done|];
    intros Hv; by apply Htf, (B1 tf Hv)).
  cbn [obind]. destruct o1 as [e|]; [eexists _, d1; split; [done|]; by apply (passes_spare vis1 [] d1 d1 d1 s1); [exists s1|..|apply Q0]|].
  destruct (track_all tf now (captured_paths s1) d1) as [o d2] eqn:Et. apply track_all_frame in Et as [F2 T2]. specialize (T2 T1).
  assert (unharmed d2) as U2 by (by apply (passes_spare vis1 [] d1 d2 d2 s1); [exists s1|..|apply Q0]).
  destruct o as [e|]; [by eexists _, d2|]. destruct (deleted s1) as [|x names]; [by eexists _, d2|].
  destruct (for_each_rule now (links_step tf now (x :: names)) wiki d2 (second_pass d2) (fun _ => False) (fun _ => True)) with (a := s1)
    as (o3 & [d3 s3] & vis2 & -> & P2 & _); [by intros; edestruct second_pass_step as [HP HD]; [..|split_and!]|done|done| |by apply Q0|].
  - unfold is_dir in *. rewrite F2 by (intros <-; apply Htf, below_refl). destruct P1 as [A1 B1]. cbn [fst] in A1. rewrite A1; [done| |].
    + apply wiki_unreserved, below_refl.
    + intros Hv. destruct (B1 wiki Hv) as [(_ & _ & c & t & Hc) _]. by rewrite Hc in Ew.
  - cbn [obind]. destruct o3 as [e|]; eexists _, d3; (split; [done|]); by apply (passes_spare vis1 vis2 d1 d2 d3 s3); [exists s1|..].
Qed.
End sweep.

