(* ===== verification/PagesRedirect.v ===== *)
(** * Pages that follow a note, and what a rollback makes of them

    A redirection re-points every page that cites the old path, and no other, and
    records the pages it rewrote; a rollback, which deletes what is recorded,
    deletes them. *)

From S2P Require Import Prelude Text Sanitize Graph NotesProps Transaction Pages PagesProps PagesSweep.
From Stdlib Require Import Lia.
Local Open Scope list_scope.

Section redirect.
Context {Rf : Refusals} {Ls : Listing}.
Context (tf wiki from to : text) (now : Z) (d0 : fs) (before : list text).
Hypothesis willing : forall op, refuses op = false.
Hypothesis Htf : ~ below wiki tf.

Definition moved (sources : list text) : list text := map (fun x => if bool_decide (x = from) then to else x) sources.
Definition redirected (content : text) (t : Z) : node :=
  match parse_sources content with
  | Some sources => if bool_decide (from ∈ sources) then File (write_sources content (moved sources)) now else File content t
  | None => File content t
  end.
Definition cites (content : text) : Prop := exists sources, parse_sources content = Some sources /\ from ∈ sources.
#[export] Instance cites_dec content : Decision (cites content).
Proof.
  refine (match parse_sources content as o return parse_sources content = o -> _ with
    | Some sources => fun E => cast_if (decide (from ∈ sources)) | None => fun E => right _ end eq_refl); unfold cites; naive_solver.
Defined.
Lemma write_sources_nonempty content old l : parse_sources content = Some old -> write_sources content l <> [].
Proof.
  unfold parse_sources, write_sources. destruct (front_entry SOURCES false (lines content)) as [v|] eqn:E; [|done]. intros _.
  destruct (front_entry_written (sources_line l) (32%N :: [91%N] ++ serialize l ++ [93%N]) (lines content)) with (inside := false) (v := v) as (out & -> & Hf); [|done|done|].
  - apply (trim_end_solid _ 93%N); [|done]. unfold sources_line. rewrite app_assoc. apply last_snoc.
  - destruct out as [|line out]; [done|]. cbn [flat_map]. by destruct line.
Qed.

Definition recorded (d : fs) (ps : list text) : Prop := exists t, d !! tf = Some (File (unlines (before ++ ps)) t).
Lemma overwrite_willing p c t d : overwrite p c t d = match write p c t d with Ok d => (None, d) | Err e => (Some e, d) end.
Proof.
  unfold overwrite. rewrite willing. destruct (put_spec p c 0) as [->|[k Hk]]; [|by rewrite willing in Hk].
  destruct (write p c t d); [by rewrite Nat.eqb_refl|done].
Qed.
Lemma redirect_visit d n path content t ps : below wiki path -> d !! path = Some (File content t) -> recorded d ps ->
  exists d' n', visit_page now (redirect_step tf from to now) path (d, n) = (None, (d', n'))
  /\ n' = (if decide (cites content) then S n else n) /\ (forall p, p <> path -> p <> tf -> d' !! p = d !! p) /\ d' !! path = Some (redirected content t)
  /\ recorded d' (if decide (cites content) then ps ++ [path] else ps).
Proof.
  intros Hw Hd [u Hu]. assert (path <> tf) as N by (by intros ->). unfold visit_page, read_to_string, redirect_step, redirected. rewrite !willing. cbn [fst snd]. rewrite Hd.
  destruct (parse_sources content) as [sources|] eqn:Hp.
  2:{ exists d, n. assert (~ cites content) by (intros (sources & H & _); congruence). rewrite !decide_False by done. split_and!; [done..|by exists u]. }
  case_bool_decide as Hf.
  2:{ exists d, n. assert (~ cites content) by (intros (sources' & H & H'); congruence). rewrite !decide_False by done. split_and!; [done..|by exists u]. }
  rewrite !decide_True by by exists sources. unfold track, track_path. rewrite willing, Hu. cbn [fst snd]. fold (moved sources).
  pose proof (write_sources_nonempty content sources (moved sources) Hp) as Hne. destruct (write_sources content (moved sources)) as [|c new] eqn:En; [done|].
  rewrite overwrite_willing. unfold write. rewrite lookup_insert_ne by done. rewrite Hd. eexists _, _. split; [done|]. cbn [fst snd]. split_and!; [done| | |].
  - intros p N1 N2. by rewrite !lookup_insert_ne.
  - apply lookup_insert_eq.
  - exists now. rewrite lookup_insert_ne, lookup_insert_eq by done. f_equal. f_equal. rewrite (app_assoc before), (unlines_app (before ++ ps)). f_equal. unfold unlines. cbn. by rewrite ?app_nil_r.
Qed.

Definition following (vis : list text) (s : fs * nat) : Prop :=
  (forall p, p <> tf -> p ∉ vis -> s.1 !! p = d0 !! p)
  /\ (forall p, p ∈ vis -> seen_file wiki d0 p /\ forall content t, d0 !! p = Some (File content t) -> s.1 !! p = Some (redirected content t))
  /\ exists ps, recorded s.1 ps /\ NoDup ps /\ s.2 = length ps
    /\ (forall p, p ∈ ps -> p ∈ vis /\ exists content t, d0 !! p = Some (File content t) /\ cites content)
    /\ forall p content t, p ∈ vis -> d0 !! p = Some (File content t) -> cites content -> p ∈ ps.
Lemma following_step vis s path content o s' : following vis s -> path ∉ vis -> below wiki path -> is_page path = true ->
  read_to_string path s.1 = Some content -> visit_page now (redirect_step tf from to now) path s = (o, s') ->
  following (path :: vis) s' /\ same_dirs wiki s.1 s'.1 /\ forall e, o = Some e -> False.
Proof.
  destruct s as [d n], s' as [d' n']. cbn [fst]. intros (HA & HB & ps & HR & HN & HL & HP & HC) Hn Hw Hp Hr Hv. cbn [fst snd] in *.
  destruct (read_file _ _ _ Hr) as [t Hd]. assert (path <> tf) as N by (by intros ->).
  destruct (redirect_visit d n path content t ps Hw Hd HR) as (d1 & n1 & E & En & F & Hd1 & R). rewrite E in Hv. injection Hv as <- <- <-.
  assert (d0 !! path = Some (File content t)) as H0 by by rewrite <- HA. split; [split_and!|split]; cbn [fst snd].
  - intros p N1 [N2 Hv]%not_elem_of_cons. rewrite F by done. by apply HA.
  - intros p [->|Hin]%elem_of_cons; [split; [split_and!; [done|done|by exists content, t]|]; intros c u; rewrite H0; by intros [= <- <-]|].
    destruct (HB p Hin) as [Hs HV]. split; [done|]. intros c u Hc. rewrite F; [by apply HV|by intros ->|intros ->; by apply Htf, Hs].
  - eexists. split; [done|]. split_and!.
    + destruct (decide (cites content)); [|done]. apply NoDup_app. split_and!; [done| |apply NoDup_singleton].
      intros p Hin ->%list_elem_of_singleton. by apply Hn, HP.
    + rewrite En. destruct (decide (cites content)); [rewrite length_app; cbn; lia|done].
    + intros p Hin. assert (p ∈ ps \/ p = path /\ cites content) as [Hps|[-> Hcite]].
      { destruct (decide (cites content)); [|by left]. apply elem_of_app in Hin as [Hin|Hin%list_elem_of_singleton]; [by left|by right]. }
      * destruct (HP p Hps) as [? ?]. split; [by right|done].
      * split; [by left|]. by exists content, t.
    + intros p c u [->|Hin]%elem_of_cons Hc Hcite.
      * rewrite H0 in Hc. injection Hc as <- <-. rewrite decide_True by done. apply elem_of_app. right. by left.
      * assert (p ∈ ps) by by eapply HC. destruct (decide _); [apply elem_of_app; by left|done].
  - intros p Hb. unfold is_dir. destruct (decide (p = path)) as [->|N2]; [|rewrite F; [done|done|by intros ->]]. rewrite Hd, Hd1.
    unfold redirected. destruct (parse_sources content); [|done]. by case_bool_decide.
  - done.
Qed.

(** A file on a page's name, in directories of the wiki. *)
Definition wiki_page (p content : text) (t : Z) : Prop := reachable wiki d0 p /\ d0 !! p = Some (File content t).
Lemma redirect_follows : is_dir d0 wiki = true -> recorded d0 [] ->
  exists n d' ps, redirect_page_source tf wiki from to now d0 = Done (Ok n, d')
  /\ (forall p content t, wiki_page p content t -> d' !! p = Some (redirected content t) /\ (cites content -> p ∈ ps))
  /\ (forall p, p <> tf -> ~ (below wiki p /\ is_page p = true) -> d' !! p = d0 !! p)
  /\ (forall p, p <> tf -> p ∉ ps -> d' !! p = d0 !! p)
  /\ recorded d' ps /\ NoDup ps /\ n = length ps
  /\ forall p, p ∈ ps -> below wiki p /\ is_page p = true
    /\ exists content t, d0 !! p = Some (File content t) /\ cites content /\ d' !! p = Some (redirected content t).
Proof.
  intros Hw HR. destruct (for_each_rule now (redirect_step tf from to now) wiki d0 following (fun p => exists content t, wiki_page p content t) (fun _ => False))
    with (a := 0) as (o & [d' n] & vis & E & (HA & HB & ps & HR' & HN & HL & HP & HC) & HQ & HG).
  - intros. by eapply following_step.
  - by intros p (content & t & H & _).
  - intros vis s p (HA & _) (content & t & Hr & Hd) Hv. exists content. unfold read_to_string. rewrite willing, HA; [by rewrite Hd| |done].
    intros ->. apply Htf, Hr.
  - done.
  - split_and!; [done|by intros p ?%elem_of_nil|]. exists []. split_and!; [done|constructor|done|by intros p ?%elem_of_nil|by intros p content t ?%elem_of_nil].
  - destruct o as [e|]; [by destruct (HQ e)|]. exists n, d', ps. unfold redirect_page_source. rewrite E. cbn [fst snd] in *. split_and!; [done| | | |done|done|done|].
    + intros p content t Hp. assert (p ∈ vis) as Hv by (apply HG; [done|by exists content, t]). destruct Hp as [_ Hp].
      split; [by apply (proj2 (HB p Hv))|]. intros Hc. by apply (HC p content t).
    + intros p N Hn. apply HA; [done|]. intros Hv. apply Hn. by destruct (HB p Hv) as [(? & ? & _) _].
    + intros p N Hn. destruct (decide (p ∈ vis)) as [Hv|Hv]; [|by apply HA]. destruct (HB p Hv) as [(_ & _ & c & t & Hd) Hred].
      rewrite (Hred c t Hd), Hd. f_equal. unfold redirected. destruct (parse_sources c) as [sources|] eqn:Ep; [|done]. case_bool_decide as Hf; [|done].
      exfalso. apply Hn. apply (HC p c t); [done|done|]. by exists sources.
    + intros p Hin. destruct (HP p Hin) as (Hv & c & t & Hd & Hc). destruct (HB p Hv) as [(? & ? & _) Hred]. split_and!; [done|done|]. exists c, t. auto.
Qed.
End redirect.

(** C32. When the disk refuses nothing and the transaction's list is kept outside the
    wiki, a redirection succeeds and is exact: it rewrites the sources of the pages of
    the wiki that cite the old path, each to the new one where it stood and the
    others left, and no other file but the transaction's list, to which each
    rewritten page is added once; it answers their number.  A rewritten page reads
    back as having the new sources, when they are absolute paths on one line, without
    quotes or white space around them. *)
Theorem redirect_exact {Rf : Refusals} {Ls : Listing} tf wiki from to now d before t0 :
  (forall op, refuses op = false) -> ~ below wiki tf -> is_dir d wiki = true -> d !! tf = Some (File (unlines before) t0) ->
  exists d' ps t', redirect_page_source tf wiki from to now d = Done (Ok (length ps), d')
  /\ d' !! tf = Some (File (unlines (before ++ ps)) t') /\ NoDup ps
  /\ (forall p content t, wiki_page wiki d p content t -> cites from content -> p ∈ ps)
  /\ (forall p, p <> tf -> p ∉ ps -> d' !! p = d !! p)
  /\ forall p, p ∈ ps -> below wiki p /\ is_page p = true /\ exists content t sources,
    d !! p = Some (File content t) /\ parse_sources content = Some sources /\ from ∈ sources
    /\ d' !! p = Some (File (write_sources content (moved from to sources)) now)
    /\ (Forall plain_source (moved from to sources) -> parse_sources (write_sources content (moved from to sources)) = Some (moved from to sources)).
Proof.
  intros Hwill Htf Hw Hd. destruct (redirect_follows tf wiki from to now d before Hwill Htf Hw) as (n & d' & ps & E & HP & _ & HF & [t' HR] & HN & -> & HS).
  { exists t0. by rewrite app_nil_r. }
  exists d', ps, t'. split_and!; [done|done|done|intros p content t Hp; by apply (HP p content t)|done|].
  intros p Hin. destruct (HS p Hin) as (? & ? & content & t & Hc & (sources & Hs & Hf) & Hd'). split_and!; [done|done|]. exists content, t, sources.
  unfold redirected in Hd'. rewrite Hs, bool_decide_true in Hd' by done. split_and!; [done..|]. by apply (sources_roundtrip content sources).
Qed.
(** A rollback of the transaction deletes the pages that a redirection rewrote, where
    the comment of [redirect_page_source] says that it restores their sources. *)
Theorem redirect_then_rollback {Rf : Refusals} {Ls : Listing} tf wiki from to now d before t0 :
  (forall op, refuses op = false) -> ~ below wiki tf -> is_dir d wiki = true ->
  d !! tf = Some (File (unlines before) t0) -> Forall line_safe before ->
  (forall p, below wiki p -> is_page p = true -> is_Some (d !! p) -> line_safe p) ->
  exists n d' k d'', redirect_page_source tf wiki from to now d = Done (Ok n, d')
  /\ rollback_tracking_file tf d' = Ok (k, d'')
  /\ (forall p content t, wiki_page wiki d p content t -> cites from content -> d'' !! p = None).
Proof.
  intros Hwill Htf Hw Hd Hb Hs. destruct (redirect_follows tf wiki from to now d before Hwill Htf Hw) as (n & d' & ps & E & HP & _ & _ & [t' HR] & _ & _ & HS).
  { exists t0. by rewrite app_nil_r. }
  destruct (rollback_exact tf d' _ t' HR) as (k & d'' & Er & HD). exists n, d', k, d''. split_and!; [done|done|].
  intros p content t Hp Hc. destruct (HP p content t Hp) as [Hd' Hin]. rewrite HD, decide_True; [done|]. right. split.
  - rewrite tracked_unlines; [apply elem_of_app; right; by apply Hin|]. apply Forall_app. split; [done|]. apply Forall_forall. intros q Hq.
    destruct (HS q Hq) as (? & ? & c & u & Hq' & _). apply Hs; [done|done|by rewrite Hq'].
  - unfold is_file. rewrite Hd'. unfold redirected. destruct (parse_sources content); [|done]. by case_bool_decide.
Qed.

(** ** A small wiki, swept

    The witnesses of the properties of sources, sweeps and redirections, and what goes
    wrong: a page deleted at first sight because an older version of it was kept, a
    hand-written page that a rollback deletes, a rule of the body taken for front
    matter. *)

#[local] Instance nothing_refused : Refusals := fun _ => false.
#[local] Instance by_name : Listing := {| list_order l := l; list_order_perm l := reflexivity l |}.
#[local] Instance ascii_letters : Alphabet := fun c => is_ascii_digit c || ((97 <=? c) && (c <=? 122))%N.
#[local] Instance no_patch : Patches := fun _ _ => [].
#[local] Instance ascii_nfc : Nfc := fun t => t.
#[local] Instance ascii_lower : Lowercase := {| lower_char c := [ascii_lower c]; lower_char_ascii c H := eq_refl |}.

Definition page_of (title : string) (sources : option (list text)) (body : list text) : text :=
  flat_map (fun l => l ++ [10%N]) ([utf8 "---"; utf8 ("title: " +:+ title)] ++ match sources with Some l => [sources_line l] | None => [] end ++ [utf8 "---"] ++ body).
Definition file_at (path : string) (content : text) : text * node := (utf8 path, File content 0).
Definition dir_at (path : string) : text * node := (utf8 path, Dir).
Definition wiki : text := utf8 "/v/wiki".
Definition store : option text := Some (utf8 "/v/iterations").
Definition txn : text := utf8 "/l/.txn-1.jsonl".
Definition alpha_page : text := page_of "Alpha" (Some [utf8 "/v/inbox/a.md"]) [utf8 "tuned by hand"].
Definition mine_page : text := page_of "Mine" None [utf8 "see [[Alpha]]"].
Definition vault : fs := list_to_map
  [dir_at "/v"; dir_at "/v/wiki"; dir_at "/v/iterations"; dir_at "/v/inbox"; file_at "/l/.txn-1.jsonl" [];
   file_at "/v/wiki/alpha.md" alpha_page; file_at "/v/wiki/mine.md" mine_page].
Definition with_version (d : fs) : fs :=
  <[utf8 "/v/iterations/alpha" := Dir]> (<[utf8 "/v/iterations/alpha/5.md" := File (utf8 "an older text") 0]> d).
Definition swept (d : fs) : fs := match sweep_dead_sources txn 1 7 wiki store d with Done (_, d') => d' | _ => ∅ end.
Definition undone (d : fs) : fs := match rollback_tracking_file txn d with Ok (_, d') => d' | Err _ => ∅ end.

Definition one_source : text := utf8 "/v/inbox/a.md".
Lemma sources_roundtrip_witness : parse_sources alpha_page = Some [one_source] /\
  parse_sources (write_sources alpha_page [one_source; utf8 "/v/b.md"]) = Some [one_source; utf8 "/v/b.md"].
Proof.
  split; [by vm_compute|]. apply (sources_roundtrip alpha_page [one_source]); [by vm_compute|].
  repeat (apply Forall_cons; split; [split_and!; [done|by apply (bool_decide_unpack _)..|]; exists 100%N; by split|]). done.
Defined.

(** An orphan without a version is kept, and a version of it is stored. *)
Example orphan_is_deferred : swept vault !! utf8 "/v/wiki/alpha.md" = Some (File alpha_page 0)
  /\ swept vault !! utf8 "/v/iterations/alpha/7.md" = Some (File alpha_page 1).
Proof. split; by vm_compute. Qed.
(** A page of which any version was ever stored is deleted by the first sweep that
    finds its sources gone, and its text with it: nothing on the disk holds it. *)
Example deleted_at_first_sight : swept (with_version vault) !! utf8 "/v/wiki/alpha.md" = None
  /\ forallb (fun x => match x.2 with File c _ => negb (bool_decide (c = alpha_page)) | Dir => true end) (map_to_list (swept (with_version vault))) = true.
Proof. split; by vm_compute. Qed.
(** The sweep takes the brackets of a hand-written page, and a rollback of the
    transaction then deletes the page. *)
Example handwritten_page_is_lost : swept (with_version vault) !! utf8 "/v/wiki/mine.md" = Some (File (page_of "Mine" None [utf8 "see Alpha"]) 1)
  /\ undone (swept (with_version vault)) !! utf8 "/v/wiki/mine.md" = None.
Proof. split; by vm_compute. Qed.
(** Two rules in the body are taken for front matter when sources are written. *)
Example body_is_rewritten :
  write_sources (page_of "Alpha" (Some [one_source]) [utf8 "text"; utf8 "---"; utf8 "sources: a history"; utf8 "---"]) []
  = page_of "Alpha" (Some []) [utf8 "text"; utf8 "---"; sources_line []; utf8 "---"].
Proof. by vm_compute. Qed.

Definition moved_to : text := utf8 "/v/archive/a.md".
Lemma alpha_cites : wiki_page wiki vault (utf8 "/v/wiki/alpha.md") alpha_page 0 /\ cites one_source alpha_page.
Proof.
  split.
  - split; [|by vm_compute]. split_and!; [by vm_compute..|]. intros x Hx Hb N.
    destruct (below_child x (utf8 "/v/wiki/alpha.md") wiki ltac:(by vm_compute) Hb) as [E|Hb']; [by subst x|].
    assert (x = wiki) as -> by (apply below_length in Hx as [Hl _], Hb' as [_ Hb']; symmetry; by apply Hb'). by vm_compute.
  - exists [one_source]. split; [by vm_compute|by left].
Qed.
Lemma redirect_exact_witness : exists d' ps, redirect_page_source txn wiki one_source moved_to 1 vault = Done (Ok (length ps), d')
  /\ utf8 "/v/wiki/alpha.md" ∈ ps /\ d' !! utf8 "/v/wiki/alpha.md" = Some (File (write_sources alpha_page [moved_to]) 1).
Proof.
  destruct (redirect_exact txn wiki one_source moved_to 1 vault [] 0) as (d' & ps & t' & E & _ & _ & HP & _ & HR); [done|by vm_compute|by vm_compute|by vm_compute|].
  destruct alpha_cites as [H1 H2]. pose proof (HP _ _ _ H1 H2) as Hin. exists d', ps. split_and!; [done|done|].
  destruct (HR _ Hin) as (_ & _ & c & t & sources & Hc & Hs & _ & -> & _). assert (vault !! utf8 "/v/wiki/alpha.md" = Some (File alpha_page 0)) as Ha by by vm_compute.
  rewrite Ha in Hc. injection Hc as <- <-. assert (parse_sources alpha_page = Some [one_source]) as Hp by by vm_compute. rewrite Hp in Hs. by injection Hs as <-.
Defined.
Lemma redirect_then_rollback_witness : exists n d' k d'', redirect_page_source txn wiki one_source moved_to 1 vault = Done (Ok n, d')
  /\ rollback_tracking_file txn d' = Ok (k, d'') /\ d'' !! utf8 "/v/wiki/alpha.md" = None.
Proof.
  destruct (redirect_then_rollback txn wiki one_source moved_to 1 vault [] 0) as (n & d' & k & d'' & E & Er & HD); [done|by vm_compute|by vm_compute|by vm_compute|done| |].
  - assert (Forall (fun x => line_safe x.1) (map_to_list vault)) as HS.
    { apply (Forall_impl (fun x => bool_decide (x.1 <> [] /\ 10%N ∉ x.1 /\ trim x.1 = x.1) = true)); [|intros x; apply line_safe_dec].
      apply (bool_decide_unpack _). by vm_compute. }
    intros p _ _ [n Hn]. rewrite Forall_forall in HS. apply (HS (p, n)). by apply elem_of_map_to_list.
  - exists n, d', k, d''. split_and!; [done|done|]. destruct alpha_cites as [H1 H2]. by apply (HD _ _ _ H1).
Defined.
(** A page whose rewriting the disk refuses after four characters is left with these:
    what it held is lost, where the other writers put a new file in its place. *)
Definition full_disk : Refusals := fun op => match op with PutChar _ 4 => true | _ => false end.
Example rewriting_is_cut : exists e d', @overwrite full_disk (utf8 "/v/wiki/mine.md") (utf8 "rewritten") 1 vault = (Some e, d')
  /\ d' !! utf8 "/v/wiki/mine.md" = Some (File (utf8 "rewr") 1).
Proof. by eexists _, _. Qed.
