(* ===== verification/Merge.v ===== *)
(** * Merging pages of the wiki

    Models zen-vault/src/distill/merge.rs and, of distill/pipeline.rs, the execution of
    merge plans with the provenance it writes, over the files of [Transaction] and the
    disk of [Pages]: clusters by title and by trigrams, the plan of a cluster, the
    absorption and the archiving of its pages.  The order of the groups is that of a hash
    map ([HashIteration]); the language model that may compose a section is the class
    [Composer]; dates are texts. *)

From S2P Require Import Prelude Text Sanitize Ordering FileTools Communities Graph Transaction Pages.
From Stdlib Require Import Lia SpecFloat.
Local Open Scope list_scope.

(** ** Similarity *)

Fixpoint windows3 (t : text) : list text :=
  match t with a :: ((b :: c :: _) as rest) => [a; b; c] :: windows3 rest | _ => [] end.
Definition trigrams `{Lowercase} (t : text) : list text :=
  let normalized := map (fun c => if is_whitespace c then 32%N else c) (to_lowercase t) in
  remove_dups (windows3 ([32; 32]%N ++ normalized ++ [32%N])).
Definition trigram_jaccard `{Lowercase} (a b : text) : f64 :=
  let ta := trigrams a in let tb := trigrams b in
  match ta, tb with
  | [], [] => f64_of 1
  | _, _ =>
    let inter := length (list_intersection ta tb) in
    let union := length (list_union ta tb) in
    if union =? 0 then f64_zero else f64_div (f64_of (Z.of_nat inter)) (f64_of (Z.of_nat union))
  end.

(** ** Plans *)

Inductive MergeStrategy := Merge | PureDuplicate | Skip.
#[export] Instance MergeStrategy_eq_dec : EqDecision MergeStrategy.
Proof. solve_decision. Defined.
Record WikiMergePlan := {
  source_pages : list text; similarity_scores : gmap (text * text) f64; strategy : MergeStrategy; target_page : text; llm_merged : bool }.
(** A page is its path and its content. *)
Abbreviation page := (text * text)%type.
Abbreviation scores := (gmap (text * text) f64).
(** What a run gathers: which pages are used, the plans, the titles of the gaps. *)
Record clustering := { used : list bool; plans : list WikiMergePlan; gaps : list (list string) }.

Section plans.
Context `{Nfc, Lowercase} {HIter : HashIteration}.
Definition title_of (p : text) : string := normalize_alias (to_string (stem_of p)).
Definition f64_max (a b : f64) : f64 := if float_lt a b then b else a.
(** [max_by_key] on the length, and the first of the longest. *)
Definition longer (best p : page) : page := if str_len best.2 <? str_len p.2 then p else best.
Definition longest (l : list page) : option text :=
  match l with [] => None | p :: rest => Some (foldl longer p rest).1 end.
Definition emit_cluster_plan (l : list page) (s : scores) (pure_duplicate : f64) (c : clustering) : clustering :=
  let best := map_fold (fun _ v acc => f64_max acc v) f64_zero s in
  let titles := remove_dups (map (fun p => title_of p.1) l) in
  {| used := used c;
     plans := plans c ++ [{| source_pages := map fst l; similarity_scores := s;
       strategy := if SFleb pure_duplicate best then PureDuplicate else Merge;
       target_page := default [] (longest l); llm_merged := false |}];
     gaps := if length titles <? length l then gaps c ++ [titles] else gaps c |}.
Definition mark (i : nat) (c : clustering) : clustering := {| used := <[i := true]> (used c); plans := plans c; gaps := gaps c |}.
Fixpoint pair_scores (l : list page) (s : scores) : scores :=
  match l with
  | [] => s
  | x :: rest => pair_scores rest (foldl (fun s y => <[(x.1, y.1) := trigram_jaccard x.2 y.2]> s) s rest)
  end.

Section build.
Context (items : list page) (threshold pure_duplicate : f64).
Definition group_page (m : gmap string (list nat)) (i : nat) (p : page) : gmap string (list nat) :=
  <[title_of p.1 := default [] (m !! title_of p.1) ++ [i]]> m.
Fixpoint title_groups (i : nat) (l : list page) (m : gmap string (list nat)) : gmap string (list nat) :=
  match l with [] => m | p :: rest => title_groups (S i) rest (group_page m i p) end.
Definition by_title (c : clustering) (g : string * list nat) : clustering :=
  if length g.2 <? 2 then c
  else
    let l := omap (fun i => items !! i) g.2 in
    emit_cluster_plan l (pair_scores l ∅) pure_duplicate (foldl (fun c i => mark i c) c g.2).
Definition is_used (i : nat) (c : clustering) : bool := default true (used c !! i).
(** A page that is not used joins the cluster of a seed. *)
Definition join_cluster (seed : page) (x : clustering * (list page * scores)) (j : nat) : clustering * (list page * scores) :=
  let '(c, (l, s)) := x in
  match items !! j with
  | None => x
  | Some p =>
    if is_used j c then x
    else
      let sim := trigram_jaccard seed.2 p.2 in
      if SFleb threshold sim then (mark j c, (l ++ [p], <[(seed.1, p.1) := sim]> s)) else x
  end.
Definition by_content (c : clustering) (i : nat) : clustering :=
  match items !! i with
  | None => c
  | Some seed =>
    if is_used i c then c
    else
      let '(c, (l, s)) := foldl (join_cluster seed) (mark i c, ([seed], ∅)) (seq (S i) (length items - S i)) in
      if length l <? 2 then c else emit_cluster_plan l s pure_duplicate c
  end.
Definition build_merge_plans : list WikiMergePlan * list (list string) :=
  let c := {| used := replicate (length items) false; plans := []; gaps := [] |} in
  let c := foldl by_title c (iter (title_groups 0 items ∅)) in
  let c := foldl by_content c (seq 0 (length items)) in
  (plans c, gaps c).
End build.
End plans.

(** ** Execution *)

Class Composer := compose : text -> text -> text -> option text.
Definition pair_line (kv : string * text) : text := utf8 kv.1 ++ utf8 ": " ++ [34%N] ++ kv.2 ++ [34%N].
Definition append_provenance (raw : text) (pairs : list (string * text)) : text :=
  let ls := lines raw in
  let new := map pair_line pairs in
  let is_fence l := bool_decide (trim l = utf8 "---") in
  let out := join_lines match ls with
    | first :: rest =>
      if is_fence first
      then match list_find (fun l => is_fence l = true) rest with
        | Some (p, _) => first :: take p rest ++ new ++ drop p rest
        | None => ls ++ new
        end
      else [utf8 "---"] ++ new ++ [utf8 "---"] ++ ls
    | [] => [utf8 "---"] ++ new ++ [utf8 "---"]
    end in
  if ends_with out [10%N] then out else out ++ [10%N].

Record absorbing := { target_content : text; absorbed : list text }.
Section execution.
Context `{Refusals, Listing, Patches, Composer}.
Context (wiki archive versions month rfc cycle tf : text) (now millis : Z).

(** The lines of a source that the target lacks, as a section. *)
Definition absorb_content (target source content target_content : text) : text :=
  let unique := filter (fun line => trim line <> [] /\ contains target_content (trim line) = false) (lines content) in
  match unique with
  | [] => target_content
  | _ => target_content ++ [10; 10]%N ++ utf8 "## From [[" ++ stem_of source ++ utf8 "]]" ++ [10; 10]%N
         ++ default (join_lines unique) (compose (stem_of target) (stem_of source) (join_lines unique)) ++ [10%N]
  end.
Definition archived_at (source : text) : text := within (within archive month) (name_of source).
Definition merged_note (target source content : text) : text :=
  append_provenance content [("source_path", source); ("archived_at", rfc); ("cycle_id", cycle); ("merged_into", stem_of target)]%string.
Definition absorb_source (strategy : MergeStrategy) (target source : text) (s : fs * absorbing) : option text * (fs * absorbing) :=
  if bool_decide (source = target) || negb (exists_ s.1 source) then (None, s)
  else
    let content := default [] (read_to_string source s.1) in
    let merged := if bool_decide (strategy = Merge) then absorb_content target source content (target_content s.2) else target_content s.2 in
    let kept := {| target_content := merged; absorbed := absorbed s.2 |} in
    let d := match create_dir_all (within archive month) s.1 with Ok d => d | Err _ => s.1 end in
    match write_file (archived_at source) (merged_note target source content) now d with
    | Err _ => (None, (d, kept))
    | Ok d =>
      match remove source d with
      | Err _ => (None, (d, kept))
      | Ok d =>
        match track tf (archived_at source) now d with
        | Err e => (Some e, (d, kept))
        | Ok d =>
          match track tf source now d with
          | Err e => (Some e, (d, kept))
          | Ok d => (None, (d, {| target_content := merged; absorbed := absorbed s.2 ++ [stem_of source] |}))
          end
        end
      end
    end.
Fixpoint absorb_all (strategy : MergeStrategy) (target : text) (sources : list text) (s : fs * absorbing) : option text * (fs * absorbing) :=
  match sources with
  | [] => (None, s)
  | source :: rest =>
    match absorb_source strategy target source s with
    | (None, s) => absorb_all strategy target rest s
    | (Some e, s) => (Some e, s)
    end
  end.
Definition track_quiet (p : text) (d : fs) : fs := match track tf p now d with Ok d => d | Err _ => d end.
Definition optional_track (p : option text) (d : fs) : fs := match p with Some p => track_quiet p d | None => d end.
Definition relink_page (target : text) (gone : list text) (path : text) (s : fs * nat) : option text * (fs * nat) :=
  if negb (exists_ s.1 path) || bool_decide (path = target) then (None, s)
  else match read_to_string path s.1 with
  | None => (None, s)
  | Some content =>
    let rewritten := foldl (fun t stem => replace t (bracketed stem) (bracketed (stem_of target))) content gone in
    if bool_decide (rewritten = content) then (None, s)
    else
      let '(r, d) := capture_page now millis versions wiki path rewritten s.1 in
      let '(d, n) := match r with Ok (Some c) => (optional_track (diff_path c) (track_quiet (md_path c) d), S s.2) | _ => (d, s.2) end in
      let d := match write_file path rewritten now d with Ok d => d | Err _ => d end in
      match track tf path now d with Ok d => (None, (d, n)) | Err e => (Some e, (d, n)) end
  end.
Fixpoint relink_all (target : text) (gone paths : list text) (s : fs * nat) : option text * (fs * nat) :=
  match paths with
  | [] => (None, s)
  | path :: rest =>
    match relink_page target gone path s with (None, s) => relink_all target gone rest s | (Some e, s) => (Some e, s) end
  end.
Definition listed (gone : list text) : text :=
  [91%N] ++ match map quote_source gone with [] => [] | q :: rest => q ++ flat_map (fun q => utf8 ", " ++ q) rest end ++ [93%N].
(** The target with its provenance, its version stored first. *)
Definition write_target (target content : text) (gone : list text) (s : fs * nat) : option text * (fs * nat) :=
  let content := append_provenance content
    [("merged_from", listed gone); ("supersede_of", listed gone); ("merged_at", rfc); ("cycle_id", cycle)]%string in
  let '(r, d) := capture_page now millis versions wiki target content s.1 in
  let tracked := match r with
    | Ok (Some c) =>
      match track tf (md_path c) now d with
      | Err e => (Some e, (d, s.2))
      | Ok d =>
        match diff_path c with
        | None => (None, (d, S s.2))
        | Some diff => match track tf diff now d with Ok d => (None, (d, S s.2)) | Err e => (Some e, (d, s.2)) end
        end
      end
    | _ => (None, (d, s.2))
    end in
  match tracked with
  | (Some e, s) => (Some e, s)
  | (None, (d, n)) =>
    match write_file target content now d with
    | Err e => (Some e, (d, n))
    | Ok d => match track tf target now d with Ok d => (None, (d, n)) | Err e => (Some e, (d, n)) end
    end
  end.
(** One plan: [merged] and [captured] are counted with the disk. *)
Definition execute_plan (paths : list text) (plan : WikiMergePlan) (s : fs * (nat * nat)) : option text * (fs * (nat * nat)) :=
  if bool_decide (strategy plan = Skip) then (None, s)
  else
    let '(d, (merged, captured)) := s in
    let target := target_page plan in
    let start := {| target_content := default [] (read_to_string target d); absorbed := [] |} in
    match absorb_all (strategy plan) target (source_pages plan) (d, start) with
    | (Some e, (d, _)) => (Some e, (d, (merged, captured)))
    | (None, (d, a)) =>
      match absorbed a with
      | [] => (None, (d, (merged, captured)))
      | gone =>
        match relink_all target gone paths (d, captured) with
        | (Some e, (d, n)) => (Some e, (d, (merged, n)))
        | (None, s) =>
          match write_target target (target_content a) gone s with
          | (Some e, (d, n)) => (Some e, (d, (merged, n)))
          | (None, (d, n)) => (None, (d, (S merged, n)))
          end
        end
      end
    end.
Fixpoint execute_plans (paths : list text) (l : list WikiMergePlan) (s : fs * (nat * nat)) : result (nat * nat) text * fs :=
  match l with
  | [] => (Ok s.2, s.1)
  | plan :: rest => match execute_plan paths plan s with (None, s) => execute_plans paths rest s | (Some e, s) => (Err e, s.1) end
  end.
(** The whole step, on an inventory of paths of pages. *)
Definition execute_merge_plans `{Nfc, Lowercase} {HIter : HashIteration} (threshold pure_duplicate : f64) (inventory : list text) (d : fs) : result (nat * nat) text * fs :=
  if length inventory <? 2 then (Ok (0, 0), d)
  else
    let pages := omap (fun p => content ← read_to_string p d; Some (p, content)) inventory in
    execute_plans (map fst pages) (build_merge_plans pages threshold pure_duplicate).1 (d, (0, 0)).
End execution.

(** ** What plans are *)

Section sound.
Context `{Nfc, Lowercase} {HIter : HashIteration} (items : list page) (threshold pure_duplicate : f64).
Definition picked (us : list nat) : list page := omap (fun i => items !! i) us.
Lemma picked_app a b : picked (a ++ b) = picked a ++ picked b.
Proof. apply omap_app. Qed.
Lemma picked_all n l : omap (fun i => l !! (i - n)) (seq n (length l)) = (l : list page).
Proof.
  revert n. induction l as [|p l IH]; intros n; [done|]. cbn [length seq omap list_omap]. rewrite Nat.sub_diag. cbn. f_equal.
  rewrite <- (IH (S n)) at 2. apply list_omap_ext, Forall_Forall2_diag, Forall_forall. intros i Hi%elem_of_seq.
  by replace (i - n) with (S (i - S n)) by lia.
Qed.
Lemma picked_once us : NoDup us -> picked us ⊆+ items.
Proof.
  intros Hd. assert (picked us = picked (filter (fun i => i < length items) us)) as ->.
  { clear. unfold picked. induction us as [|i us IH]; [done|]. rewrite filter_cons. case_decide as Hi; cbn; [by rewrite IH|].
    rewrite (lookup_ge_None_2 items i) by lia. done. }
  destruct (submseteq_Permutation (filter (fun i => i < length items) us) (seq 0 (length items))) as [k Hk].
  { apply NoDup_submseteq; [by apply NoDup_filter|]. intros i [Hi _]%list_elem_of_filter. apply elem_of_seq. lia. }
  assert (picked (seq 0 (length items)) ≡ₚ picked (filter (fun i => i < length items) us) ++ picked k) as HP.
  { rewrite <- picked_app. unfold picked. by rewrite Hk. }
  assert (picked (seq 0 (length items)) = items) as E.
  { etrans; [|apply (picked_all 0 items)]. apply list_omap_ext, Forall_Forall2_diag, Forall_forall. intros i _. by rewrite Nat.sub_0_r. }
  rewrite E in HP. rewrite HP. apply submseteq_inserts_r. done.
Qed.
(** A plan is one of at least two pages, and its target the longest. *)
Definition well_formed (plan : WikiMergePlan) : Prop := exists us t, source_pages plan = map fst (picked us) /\ 2 <= length (picked us)
  /\ t ∈ picked us /\ target_page plan = t.1 /\ forall p, p ∈ picked us -> str_len p.2 <= str_len t.2.
Lemma longest_spec l : l <> [] -> exists t, longest l = Some t.1 /\ t ∈ l /\ forall p, p ∈ l -> str_len p.2 <= str_len t.2.
Proof.
  destruct l as [|x l]; [done|]. intros _. cbn [longest]. exists (foldl longer x l). split; [done|].
  assert (forall l x, foldl longer x l ∈ x :: l /\ forall p, p ∈ x :: l -> str_len p.2 <= str_len (foldl longer x l).2) as HL; [|apply HL].
  clear. induction l as [|y l IH]; intros x; cbn [foldl].
  - split; [by left|]. intros p Hp. apply list_elem_of_singleton in Hp as ->. done.
  - destruct (IH (longer x y)) as [I1 I2]. assert (longer x y = x \/ longer x y = y) as HX by (unfold longer; destruct (_ <? _); auto).
    assert (str_len x.2 <= str_len (longer x y).2 /\ str_len y.2 <= str_len (longer x y).2) as [Hx Hy].
    { unfold longer. destruct (Nat.ltb_spec (str_len x.2) (str_len y.2)); lia. }
    specialize (I2 (longer x y) (list_elem_of_here _ _)) as I0. split.
    + apply elem_of_cons in I1 as [E|I1]; [|by right; right]. rewrite E. destruct HX as [->| ->]; [by left|by right; left].
    + intros p [->|[->|Hp]%elem_of_cons]%elem_of_cons; [lia..|]. apply I2. by right.
Qed.
(** The indices that are used, the plans they are in, and those of a cluster that is
    being gathered. *)
Record covered (us js : list nat) (c : clustering) : Prop := {
  cov_once : NoDup (us ++ js);
  cov_used : forall i, i ∈ us ++ js -> used c !! i = Some true;
  cov_plans : concat (map source_pages (plans c)) ≡ₚ map fst (picked us);
  cov_wf : Forall well_formed (plans c);
}.
Lemma covered_mark us js c i : covered us js c -> used c !! i = Some false -> covered us (js ++ [i]) (mark i c).
Proof.
  intros [C1 C2 C3 C4] Hi. assert (i ∉ us ++ js) as Hn by (intros Hin%C2; congruence). split; [| |done|done].
  - rewrite app_assoc. apply NoDup_app. split; [done|]. split; [|apply NoDup_singleton]. intros j Hj ->%list_elem_of_singleton. done.
  - intros j. rewrite app_assoc. intros [Hj|Hj]%elem_of_app; cbn [mark used].
    + rewrite list_lookup_insert_ne; [by apply C2|]. intros ->. done.
    + apply list_elem_of_singleton in Hj as ->. apply list_lookup_insert_eq. by eapply lookup_lt_Some.
Qed.
Lemma covered_emit us js c s : covered us js c -> 2 <= length (picked js) -> covered (us ++ js) [] (emit_cluster_plan (picked js) s pure_duplicate c).
Proof.
  intros [C1 C2 C3 C4] Hl. split; cbn [emit_cluster_plan used plans].
  - by rewrite app_nil_r.
  - by rewrite app_nil_r.
  - rewrite map_app, concat_app, picked_app, map_app, C3. cbn. by rewrite app_nil_r.
  - apply Forall_app. split; [done|]. apply Forall_singleton. destruct (longest_spec (picked js)) as (t & E & Ht & Hm); [intros E; rewrite E in Hl; cbn in Hl; lia|].
    exists js, t. cbn. rewrite E. done.
Qed.
Lemma covered_drop us js c : covered us js c -> covered us [] c.
Proof.
  intros [C1 C2 C3 C4]. split; [| |done|done].
  - rewrite app_nil_r. by apply NoDup_app in C1 as [C1 _].
  - intros i. rewrite app_nil_r. intros Hi. apply C2, elem_of_app. by left.
Qed.
(** A group holds the pages of its title. *)
Definition titled (n : nat) (k : string) (l : list nat) : Prop :=
  NoDup l /\ forall j, j ∈ l <-> j < n /\ exists p, items !! j = Some p /\ title_of p.1 = k.
Lemma title_groups_titled l : forall i m, l = drop i items -> i <= length items -> (forall k, titled i k (default [] (m !! k))) ->
  forall k, titled (length items) k (default [] (title_groups i l m !! k)).
Proof.
  induction l as [|p l IH]; intros i m E Hi Hm; cbn [title_groups].
  - apply (f_equal length) in E. rewrite length_drop in E. cbn in E. by replace (length items) with i by lia.
  - assert (items !! i = Some p) as Ep by (rewrite <- (Nat.add_0_r i), <- lookup_drop, <- E; done).
    assert (i < length items) by (by eapply lookup_lt_Some). apply IH; [|lia|].
    + by rewrite <- Nat.add_1_r, <- drop_drop, <- E.
    + intros k. destruct (Hm k) as [M1 M2]. unfold group_page. destruct (decide (k = title_of p.1)) as [->|N].
      * rewrite lookup_insert_eq. cbn. split.
        -- apply NoDup_app. split; [done|]. split; [|apply NoDup_singleton]. intros j Hj ->%list_elem_of_singleton. apply M2 in Hj. lia.
        -- intros j. rewrite elem_of_app, M2, list_elem_of_singleton. split.
           ++ intros [[Hj Hp]| ->]; [split; [lia|done]|split; [lia|by exists p]].
           ++ intros [Hj (q & Eq & Et)]. destruct (decide (j = i)) as [->|]; [by right|left]. split; [lia|by exists q].
      * rewrite lookup_insert_ne by done. split; [done|]. intros j. rewrite M2. split.
        -- intros [Hj Hp]. split; [lia|done].
        -- intros [Hj (q & Eq & Et)]. split; [|by exists q]. destruct (decide (j = i)) as [->|]; [|lia]. congruence.
Qed.
Definition groups : gmap string (list nat) := title_groups 0 items ∅.
Lemma groups_titled k l : groups !! k = Some l -> titled (length items) k l.
Proof.
  intros E. pose proof (title_groups_titled items 0 ∅) as HT. rewrite drop_0 in HT. specialize (HT eq_refl (Nat.le_0_l _)).
  assert (forall k, titled 0 k (default [] ((∅ : gmap string (list nat)) !! k))) as Hz.
  { intros k'. rewrite lookup_empty. cbn. split; [constructor|]. intros j. split; [by intros ?%elem_of_nil|lia]. }
  specialize (HT Hz k). fold groups in HT. by rewrite E in HT.
Qed.
Lemma mark_every js : forall us js0 c, NoDup js -> covered us js0 c -> (forall i, i ∈ js -> used c !! i = Some false) ->
  covered us (js0 ++ js) (foldl (fun c i => mark i c) c js) /\ forall i, i ∉ js -> used (foldl (fun c i => mark i c) c js) !! i = used c !! i.
Proof.
  induction js as [|j js IH]; intros us js0 c Hd HC Hu; cbn [foldl]; [by rewrite app_nil_r|].
  apply NoDup_cons in Hd as [Hj Hd]. destruct (IH us (js0 ++ [j]) (mark j c)) as [I1 I2]; [done| |intros i Hi|split].
  - apply covered_mark; [done|]. apply Hu. by left.
  - cbn. rewrite list_lookup_insert_ne; [apply Hu; by right|]. by intros ->.
  - by rewrite <- app_assoc in I1.
  - intros i [Hi1 Hi2]%not_elem_of_cons. rewrite I2 by done. cbn. by rewrite list_lookup_insert_ne.
Qed.
(** The plans of a run only grow. *)
Lemma by_title_covered gs : NoDup (map fst gs) -> Forall (fun g => groups !! g.1 = Some g.2) gs ->
  forall us c, covered us [] c -> (forall g i, g ∈ gs -> i ∈ g.2 -> used c !! i = Some false) ->
  exists us', covered us' [] (foldl (by_title items pure_duplicate) c gs)
    /\ (forall plan, plan ∈ plans c -> plan ∈ plans (foldl (by_title items pure_duplicate) c gs))
    /\ forall g, g ∈ gs -> 2 <= length g.2 -> exists plan, plan ∈ plans (foldl (by_title items pure_duplicate) c gs) /\ source_pages plan = map fst (picked g.2).
Proof.
  induction gs as [|g gs IH]; intros Hd Hg us c HC Hu; cbn [foldl]; [exists us; split_and!; [done..|by intros g ?%elem_of_nil]|].
  cbn [map] in Hd. apply NoDup_cons in Hd as [Hk Hd]. apply Forall_cons in Hg as [Hg Hgs]. pose proof (groups_titled _ _ Hg) as [T1 T2].
  assert (forall g' i, g' ∈ gs -> i ∈ g'.2 -> i ∉ g.2) as Hap.
  { intros g' i Hg' Hi' Hi. rewrite Forall_forall in Hgs. apply T2 in Hi as [_ (p & E1 & E2)].
    apply (groups_titled _ _ (Hgs g' Hg')) in Hi' as [_ (p' & E1' & E2')]. apply Hk. apply list_elem_of_fmap. exists g'. split; [congruence|done]. }
  unfold by_title at 2 4 6. destruct (Nat.ltb_spec (length g.2) 2) as [Hl|Hl].
  { destruct (IH Hd Hgs us c HC) as (us' & I1 & I2 & I3); [intros g' i Hg'; apply Hu; by right|]. exists us'. split_and!; [done..|].
    intros g' [->|Hg']%elem_of_cons Hl'; [lia|by apply I3]. }
  destruct (mark_every g.2 us [] c T1 HC) as [M1 M2]; [intros i; apply Hu; by left|]. cbn [app] in M1.
  assert (length (picked g.2) = length g.2) as HL.
  { clear -T2. assert (forall i, i ∈ g.2 -> is_Some (items !! i)) as Hs by (intros i [_ (p & E & _)]%T2; by exists p). clear T2.
    unfold picked. induction g.2 as [|i l IH]; [done|]. cbn. destruct (Hs i (list_elem_of_here _ _)) as [p ->]. cbn. f_equal. apply IH. intros j Hj. apply Hs. by right. }
  pose proof (covered_emit us g.2 _ (pair_scores (picked g.2) ∅) M1 ltac:(lia)) as HE. fold (picked g.2).
  destruct (IH Hd Hgs _ _ HE) as (us' & I1 & I2 & I3).
  { intros g' i Hg' Hi. cbn [emit_cluster_plan used]. rewrite M2 by (by eapply Hap). by apply (Hu g' i); [right|]. }
  assert (forall js c, plans (foldl (fun c i => mark i c) c js) = plans c) as HP by (clear; induction js as [|j js IH]; intros c; [done|]; cbn [foldl]; by rewrite IH).
  exists us'. split_and!; [done| |].
  - intros plan Hp. apply I2. cbn [emit_cluster_plan plans]. rewrite HP. apply elem_of_app. by left.
  - intros g' [->|Hg']%elem_of_cons Hl'; [|by apply I3]. eexists. split; [apply I2; cbn [emit_cluster_plan plans]; apply elem_of_app; right; by left|done].
Qed.
Lemma is_used_false i c : is_used i c = false -> used c !! i = Some false.
Proof. unfold is_used. destruct (used c !! i) as [[]|]; done. Qed.
Lemma join_covered seed l : forall us js c s c' l' s', covered us js c -> foldl (join_cluster items threshold seed) (c, (picked js, s)) l = (c', (l', s')) ->
  exists js', covered us js' c' /\ l' = picked js' /\ plans c' = plans c.
Proof.
  induction l as [|j l IH]; intros us js c s c' l' s' HC; cbn [foldl]; [by intros [= <- <- <-]; exists js|].
  unfold join_cluster at 2. destruct (items !! j) as [p|] eqn:Ep; [|by apply IH]. destruct (is_used j c) eqn:Eu; [by apply IH|].
  destruct (SFleb _ _); [|by apply IH]. assert (picked js ++ [p] = picked (js ++ [j])) as -> by (rewrite picked_app; cbn; by rewrite Ep).
  intros E. apply (IH us) in E; [done|]. apply covered_mark; [done|by apply is_used_false].
Qed.
Lemma by_content_covered us c i : covered us [] c -> exists us', covered us' [] (by_content items threshold pure_duplicate c i)
  /\ forall plan, plan ∈ plans c -> plan ∈ plans (by_content items threshold pure_duplicate c i).
Proof.
  intros HC. unfold by_content. destruct (items !! i) as [seed|] eqn:Es; [|by exists us]. destruct (is_used i c) eqn:Eu; [by exists us|].
  destruct (foldl _ _ _) as [c' [l' s']] eqn:E. assert ([seed] = picked [i]) as Ei by (cbn; by rewrite Es). rewrite Ei in E.
  apply (join_covered seed _ us) in E as (js & HJ & -> & HP); [|apply (covered_mark us []); [done|by apply is_used_false]].
  destruct (Nat.ltb_spec (length (picked js)) 2).
  - exists us. split; [by eapply covered_drop|]. by rewrite HP.
  - exists (us ++ js). split; [by apply covered_emit|]. intros plan Hp. cbn [emit_cluster_plan plans]. rewrite HP. apply elem_of_app. by left.
Qed.
Lemma contents_covered l : forall us c, covered us [] c -> exists us', covered us' [] (foldl (by_content items threshold pure_duplicate) c l)
  /\ forall plan, plan ∈ plans c -> plan ∈ plans (foldl (by_content items threshold pure_duplicate) c l).
Proof.
  induction l as [|i l IH]; intros us c HC; cbn [foldl]; [by exists us|].
  destruct (by_content_covered us c i HC) as (us1 & C1 & P1), (IH _ _ C1) as (us2 & C2 & P2). exists us2. split; [done|]. auto.
Qed.
(** C15. Whatever the order of the groups and the thresholds: a page is in at most one plan;
    a plan has at least two pages, and keeps the longest; and pages whose titles
    normalize to the same name are in one plan. *)
Theorem merge_plans_sound : let plans := (build_merge_plans items threshold pure_duplicate).1 in
  concat (map source_pages plans) ⊆+ map fst items /\ Forall well_formed plans
  /\ forall i j p q, i <> j -> items !! i = Some p -> items !! j = Some q -> title_of p.1 = title_of q.1 ->
      exists plan, plan ∈ plans /\ p.1 ∈ source_pages plan /\ q.1 ∈ source_pages plan.
Proof.
  unfold build_merge_plans. cbn [fst]. fold groups.
  assert (covered [] [] {| used := replicate (length items) false; plans := []; gaps := [] |}) as Hc0.
  { split; [constructor|by intros i ?%elem_of_nil|done|constructor]. }
  assert (NoDup (map fst (iter groups))) as Hk.
  { eapply NoDup_Permutation_proper; [apply Permutation_map, iter_perm|]. apply NoDup_fst_map_to_list. }
  assert (Forall (fun g => groups !! g.1 = Some g.2) (iter groups)) as Hg.
  { apply Forall_forall. intros [k l] Hin. rewrite iter_perm in Hin. by apply elem_of_map_to_list in Hin. }
  destruct (by_title_covered (iter groups) Hk Hg [] _ Hc0) as (us1 & C1 & _ & T1).
  { intros g i Hin Hi. rewrite Forall_forall in Hg. apply (groups_titled _ _ (Hg g Hin)) in Hi as [Hi _]. cbn. by apply lookup_replicate_2. }
  destruct (contents_covered (seq 0 (length items)) us1 _ C1) as (us2 & C2 & P2). set (c := foldl _ _ (seq 0 (length items))) in *.
  destruct C2 as [D1 D2 D3 D4]. split_and!; [|done|].
  - rewrite D3. rewrite app_nil_r in D1. apply fmap_submseteq. by apply picked_once.
  - intros i j p q Hij Ep Eq Et. pose proof (title_groups_titled items 0 ∅ (eq_sym (drop_0 items)) (Nat.le_0_l _)) as HT.
    destruct (HT) with (k := title_of p.1) as [G1 G2].
    { intros k. rewrite lookup_empty. cbn. split; [constructor|]. intros x. split; [by intros ?%elem_of_nil|lia]. }
    fold groups in G1, G2. assert (i ∈ default [] (groups !! title_of p.1) /\ j ∈ default [] (groups !! title_of p.1)) as [Hi Hj].
    { split; apply G2; (split; [by eapply lookup_lt_Some|]); eexists; split; try done; by symmetry. }
    destruct (groups !! title_of p.1) as [l|] eqn:El; [|by apply elem_of_nil in Hi]. cbn in Hi, Hj, G1.
    destruct (T1 (title_of p.1, l)) as (plan & Hp & Es).
    + rewrite iter_perm. by apply elem_of_map_to_list.
    + cbn. destruct l as [|x [|y l]]; [by apply elem_of_nil in Hi| |cbn; lia].
      apply list_elem_of_singleton in Hi as ->. apply list_elem_of_singleton in Hj as ->. done.
    + exists plan. split; [by apply P2|]. rewrite Es. cbn [snd]. split; apply list_elem_of_fmap; eexists; (split; [reflexivity|]); apply list_elem_of_omap; eauto.
Qed.
End sound.

(** ** What absorbing keeps *)

Section keeps.
Context `{Refusals, Listing, Patches, Composer} (archive month rfc cycle tf : text) (now : Z).
Lemma make_dirs_keep qs : forall d d', foldl make_dir (Ok d) qs = Ok d' -> forall p n, d !! p = Some n -> d' !! p = Some n.
Proof.
  assert (forall qs e, foldl make_dir (Err e) qs = Err e) as HE by (clear; induction qs as [|q qs IH]; intros e; [done|]; cbn [foldl]; by apply IH).
  induction qs as [|q qs IH]; intros d d'; cbn [foldl]; [by intros [= <-]|]. unfold make_dir at 2. cbn [rbind]. intros E p n Hp.
  destruct (d !! q) as [[c t|]|] eqn:Eq; [by rewrite HE in E|by eapply IH|]. eapply IH; [exact E|]. rewrite lookup_insert_ne; [done|]. intros ->. congruence.
Qed.
Lemma create_dirs_keep dir d p n : d !! p = Some n -> (match create_dir_all dir d with Ok d => d | Err _ => d end) !! p = Some n.
Proof.
  intros Hp. unfold create_dir_all. destruct (refuses _); [done|]. destruct (foldl make_dir (Ok d) (prefixes dir)) as [d'|] eqn:E; [|done]. by eapply make_dirs_keep.
Qed.
Lemma write_file_spec p content t d d' : write_file p content t d = Ok d' -> d' = <[p := File content t]> d.
Proof. unfold write_file, write. destruct (refuses _); [done|]. destruct (d !! p) as [[]|]; by intros [= <-]. Qed.
Lemma remove_spec p d d' : remove p d = Ok d' -> d' = delete p d.
Proof. unfold remove, remove_file. destruct (refuses _); [done|]. destruct (d !! p) as [[]|]; by intros [= <-]. Qed.
Lemma track_spec p t d d' : track tf p t d = Ok d' -> forall q, q <> tf -> d' !! q = d !! q.
Proof.
  unfold track, track_path, write. destruct (refuses _); [done|]. intros E q Hq.
  repeat (case_match; try done); injection E as <-; by rewrite lookup_insert_ne.
Qed.
(** A note that was, or its copy in the archive. *)
Definition safe (target source content : text) (d : fs) : Prop :=
  (exists t, d !! source = Some (File content t)) \/ exists t, d !! archived_at archive month source = Some (File (merged_note rfc cycle target source content) t).
Lemma absorb_source_frame strategy target source s o s' p n : absorb_source archive month rfc cycle tf now strategy target source s = (o, s') ->
  p <> source -> p <> archived_at archive month source -> p <> tf -> s.1 !! p = Some n -> s'.1 !! p = Some n.
Proof.
  unfold absorb_source. destruct (_ || _); [by intros [= <- <-]|]. intros E H1' H2' H3' Hp. apply (create_dirs_keep (within archive month)) in Hp. revert E.
  destruct (write_file _ _ _ _) as [d1|e] eqn:E1; [|by intros [= <- <-]]. apply write_file_spec in E1 as ->.
  rewrite <- (lookup_insert_ne _ (archived_at archive month source) p (File (merged_note rfc cycle target source (default [] (read_to_string source s.1))) now)) in Hp by congruence.
  destruct (remove source _) as [d2|e] eqn:E2; [|by intros [= <- <-]]. apply remove_spec in E2 as ->. rewrite <- (lookup_delete_ne _ source p) in Hp by congruence.
  destruct (track tf (archived_at archive month source) now _) as [d3|e] eqn:E3; [|by intros [= <- <-]]. rewrite <- (track_spec _ _ _ _ E3 p H3') in Hp.
  destruct (track tf source now d3) as [d4|e] eqn:E4; [|by intros [= <- <-]]. rewrite <- (track_spec _ _ _ _ E4 p H3') in Hp. by intros [= <- <-].
Qed.
Lemma absorb_source_safe strategy target source content t s o s' : absorb_source archive month rfc cycle tf now strategy target source s = (o, s') ->
  refuses (ReadFile source) = false -> source <> tf -> archived_at archive month source <> tf -> archived_at archive month source <> source ->
  s.1 !! source = Some (File content t) -> safe target source content s'.1.
Proof.
  unfold absorb_source. intros E HR N1 N2 N3 Hs. revert E. destruct (_ || _); [intros [= <- <-]; left; by exists t|].
  assert (read_to_string source s.1 = Some content) as -> by (unfold read_to_string; by rewrite HR, Hs). cbn [default from_option id].
  pose proof (create_dirs_keep (within archive month) _ _ _ Hs) as Hs'.
  destruct (write_file _ _ _ _) as [d1|e] eqn:E1; [|intros [= <- <-]; left; by exists t]. apply write_file_spec in E1 as ->.
  destruct (remove source _) as [d2|e] eqn:E2; [|intros [= <- <-]; left; exists t; cbn; by rewrite lookup_insert_ne]. apply remove_spec in E2 as ->.
  intros E. right. exists now.
  match type of E with context [track tf _ now ?d] => assert (d !! archived_at archive month source = Some (File (merged_note rfc cycle target source content) now)) as Ha
    by (by rewrite lookup_delete_ne, lookup_insert_eq) end. revert E.
  destruct (track tf (archived_at archive month source) now _) as [d3|e] eqn:E3; [|by intros [= <- <-]]. rewrite <- (track_spec _ _ _ _ E3 _ N2) in Ha.
  destruct (track tf source now d3) as [d4|e] eqn:E4; [|by intros [= <- <-]]. rewrite <- (track_spec _ _ _ _ E4 _ N2) in Ha. by intros [= <- <-].
Qed.
(** When the pages of a plan have distinct names, none of them in the archive, and can be
    read, absorbing them loses none, whatever else is refused and wherever it stops: each
    is where it was or in the archive, with its content. *)
Theorem absorb_keeps strategy target sources s o s' : absorb_all archive month rfc cycle tf now strategy target sources s = (o, s') ->
  NoDup (map name_of sources) -> tf ∉ sources ->
  (forall p, p ∈ sources -> refuses (ReadFile p) = false /\ archived_at archive month p <> tf /\ archived_at archive month p ∉ sources) ->
  forall source content t, source ∈ sources -> s.1 !! source = Some (File content t) -> safe target source content s'.1.
Proof.
  intros E Hd Htf Hp source content t Hin Hs.
  assert (forall rest s, absorb_all archive month rfc cycle tf now strategy target rest s = (o, s') -> NoDup (map name_of rest) ->
    (forall p, p ∈ rest -> p ∈ sources) -> source ∉ rest -> name_of source ∉ map name_of rest -> safe target source content s.1 -> safe target source content s'.1) as HF.
  { induction rest as [|p rest IH]; intros s0 E0 Hd0 Hsub Hn Hname; cbn [absorb_all] in E0; [by injection E0 as <- <-|].
    apply not_elem_of_cons in Hn as [Hne Hn]. cbn in Hname. apply not_elem_of_cons in Hname as [Hna Hname]. cbn in Hd0. apply NoDup_cons in Hd0 as [_ Hd0].
    assert (p ∈ sources) as Hps by (apply Hsub; by left). destruct (Hp source Hin) as (_ & A1 & A2), (Hp p Hps) as (_ & B1 & B2). intros HS.
    destruct (absorb_source _ _ _ _ _ _ _ _ p s0) as [o1 s1] eqn:E1. assert (safe target source content s1.1) as HS1.
    { assert (source <> archived_at archive month p) by (intros EE; apply B2; by rewrite <- EE).
      assert (archived_at archive month source <> p) by (intros EE; apply A2; by rewrite EE).
      assert (archived_at archive month source <> archived_at archive month p) by (unfold archived_at, within; intros EE; apply app_inv_head in EE; congruence).
      assert (source <> tf) by (intros EE; apply Htf; by rewrite <- EE).
      destruct HS as [[t' HS]|[t' HS]]; [left|right]; exists t'; by (eapply absorb_source_frame; [exact E1|..|exact HS]). }
    destruct o1 as [e|]; [by injection E0 as <- <-|]. apply (IH s1); try done. intros q Hq. apply Hsub. by right. }
  assert (forall rest s, absorb_all archive month rfc cycle tf now strategy target rest s = (o, s') -> NoDup (map name_of rest) ->
    (forall p, p ∈ rest -> p ∈ sources) -> source ∈ rest -> s.1 !! source = Some (File content t) -> safe target source content s'.1) as HG; [|by eapply (HG sources)].
  induction rest as [|p rest IH]; intros s0 E0 Hd0 Hsub Hr Hs0; [by apply elem_of_nil in Hr|]. cbn [absorb_all] in E0. cbn in Hd0. apply NoDup_cons in Hd0 as [Hp0 Hd0].
  destruct (absorb_source _ _ _ _ _ _ _ _ p s0) as [o1 s1] eqn:E1. destruct (Hp source Hin) as (A0 & A1 & A2).
  assert (forall q, q ∈ rest -> q ∈ sources) as Hsub' by (intros q Hq; apply Hsub; by right).
  destruct (decide (source = p)) as [->|N].
  - assert (safe target p content s1.1) as HS.
    { assert (p <> tf) by (intros EE; apply Htf; by rewrite <- EE). assert (archived_at archive month p <> p) by (intros EE; apply A2; by rewrite EE).
      by (eapply absorb_source_safe; [exact E1|..|exact Hs0]). }
    destruct o1 as [e|]; [by injection E0 as <- <-|]. apply (HF rest s1); try done. intros Hx. apply Hp0. by apply (list_elem_of_fmap_2 name_of).
  - assert (p ∈ sources) as Hps by (apply Hsub; by left). destruct (Hp p Hps) as (_ & B1 & B2). apply elem_of_cons in Hr as [?|Hr]; [done|].
    assert (s1.1 !! source = Some (File content t)) as Hs1.
    { assert (source <> archived_at archive month p) by (intros EE; apply B2; by rewrite <- EE).
      assert (source <> tf) by (intros EE; apply Htf; by rewrite <- EE). by (eapply absorb_source_frame; [exact E1|..|exact Hs0]). }
    destruct o1 as [e|]; [injection E0 as <- <-; left; by exists t|]. by apply (IH s1).
Qed.
End keeps.

(** ** Merges of a small wiki *)

#[local] Instance nothing_refused : Refusals := fun _ => false.
#[local] Instance by_name : Listing := {| list_order l := l; list_order_perm l := reflexivity l |}.
#[local] Instance whole_patch : Patches := fun _ next => next.
#[local] Instance no_model : Composer := fun _ _ _ => None.
#[local] Instance same_form : Nfc := fun t => t.
#[local] Instance ascii_lowercase : Lowercase := {| lower_char c := [Text.ascii_lower c]; lower_char_ascii c H := eq_refl |}.
#[local] Instance map_order : HashIteration := {| iter A m := map_to_list m; iter_perm A m := reflexivity _ |}.

Definition folder (s : string) : text * node := (utf8 s, Dir).
Definition note (s t : string) : text * node := (utf8 s, File (utf8 t) 0).
Definition small_wiki (a b c : string) : fs := list_to_map
  [folder "/v"; folder "/v/wiki"; folder "/v/wiki/a"; folder "/v/wiki/b"; folder "/v/wiki/c"; folder "/v/logs"; note "/v/logs/.txn-1.jsonl" "";
   note "/v/wiki/a/rust.md" a; note "/v/wiki/b/rust.md" b; note "/v/wiki/c/rust.md" c]%string.
Definition inventory : list text := [utf8 "/v/wiki/a/rust.md"; utf8 "/v/wiki/b/rust.md"; utf8 "/v/wiki/c/rust.md"].
Definition merged_wiki (a b c : string) : result (nat * nat) text * fs :=
  execute_merge_plans (utf8 "/v/wiki") (utf8 "/v/archive") (utf8 "/v/versions") (utf8 "2026-01") (utf8 "now") (utf8 "c1") (utf8 "/v/logs/.txn-1.jsonl") 5 5
    (f64_div (f64_of 82) (f64_of 100)) (f64_div (f64_of 98) (f64_of 100)) inventory (small_wiki a b c).
(** Whether a content is anywhere on the disk. *)
Definition somewhere (s : string) (d : fs) : bool :=
  existsb (fun x => match x.2 with File c _ => contains c (utf8 s) | Dir => false end) (map_to_list d).
(** Three pages of one title, two of them the same: the best pair makes the whole
    cluster a pure duplicate, so that the third is not absorbed; and the copies in the
    archive have one name, so that the last overwrites it: its content is lost. *)
Example page_is_lost : (merged_wiki "only here" "the same long page" "the same long page").1 = Ok (1, 1)
  /\ somewhere "only here" (small_wiki "only here" "the same long page" "the same long page") = true
  /\ somewhere "only here" (merged_wiki "only here" "the same long page" "the same long page").2 = false.
Proof. by vm_compute. Qed.
(** A merge appends what the target lacks. *)
Example page_is_absorbed : (merged_wiki "only here" "the same long page" "another page").1 = Ok (1, 1)
  /\ somewhere "only here" (merged_wiki "only here" "the same long page" "another page").2 = true
  /\ somewhere "another page" (merged_wiki "only here" "the same long page" "another page").2 = true.
Proof. by vm_compute. Qed.
(** A merge tracks what it archived, its versions and the pages it rewrote: the rollback
    of its transaction deletes them all, and no page of the cluster is left anywhere. *)
Example rollback_after_merge : match rollback (utf8 "/v/logs/.txn-1.jsonl") (merged_wiki "only here" "the same long page" "another page").2 with
  | Ok d => map (fun s => somewhere s d) ["only here"; "the same long page"; "another page"]%string
  | Err _ => []
  end = [false; false; false].
Proof. by vm_compute. Qed.
