(* ===== verification/Commitments.v ===== *)
(** * Commitments

    Models zen-memory/src/commitment.rs with zen-memory/src/frontmatter.rs: the states of
    a commitment and the guards of its transitions, its milestones and its stop loss,
    and the file it is kept in, as it is written and read.  Instants ([T]), dates
    ([D]) and floats come and go through the class [Dates]; [Alphabet] says which
    characters a slug keeps.  [Utc::now()] is an argument, and one instant within a
    call; the files are those of [Transaction]. *)

From S2P Require Import Prelude Text Sanitize Ordering Transaction Pages.
From Stdlib Require Import Lia SpecFloat.
Local Open Scope list_scope.

Class Dates (T D : Type) := {
  show_time : T -> text; parse_time : text -> option T;
  show_date : D -> text; parse_date : text -> option D;
  show_float : spec_float -> text; parse_float : text -> option spec_float;
  date_of : T -> D; date_before : D -> D -> bool;
}.

(** ** States and errors *)

Inductive CommitmentState := Drafted | Validated | Executing | Reviewing | Completed | Abandoned | Pivoted.
#[export] Instance CommitmentState_eq_dec : EqDecision CommitmentState.
Proof. solve_decision. Defined.
Definition state_str (s : CommitmentState) : string :=
  match s with
  | Drafted => "drafted" | Validated => "validated" | Executing => "executing" | Reviewing => "reviewing"
  | Completed => "completed" | Abandoned => "abandoned" | Pivoted => "pivoted"
  end.
Definition all_states : list CommitmentState := [Drafted; Validated; Executing; Reviewing; Completed; Abandoned; Pivoted].
Definition state_from_str (t : text) : option CommitmentState := snd <$> list_find (fun s => t = utf8 (state_str s)) all_states.

Inductive TransitionError :=
  | MissingValidation | MissingStopLoss | InsufficientMilestones (count : nat) | MissingMilestoneDataFeedback | MissingRetrospective
  | MissingStopLossExtraction | MissingSustainedValue | InvalidTransition (from to : string).

(** ** The record *)

Record Milestone {T D : Type} := { m_description : text; m_target : option D; m_completed : bool; m_completed_at : option T }.
Record StopLossLine {T : Type} := { economic : option spec_float; time_hours : option spec_float; trigger_action : text; triggered : bool; triggered_at : option T }.
Record ExecutionChecklist := {
  low_cost_validation : option text; detail_risks_identified : bool; avoid_perfect_decision : bool; milestone_feedback_planned : bool;
  retrospective_planned : bool; self_discipline_assessed : bool; stop_loss_committed : bool; checklist_value_plan : option text }.
Arguments Milestone : clear implicits.
Arguments StopLossLine : clear implicits.
Record Commitment {T D : Type} := {
  id : text; what : text; state : CommitmentState; by_when : option D; review_at : option D; next_action : text; two_minute_rule : bool;
  milestones : list (Milestone T D); stop_loss : StopLossLine T; discipline_streak : N; sustained_value_plan : option text;
  retrospective : option text; execution_checklist : ExecutionChecklist; source_journal : option text;
  created_at : T; updated_at : T; closed_at : option T }.
Arguments Commitment : clear implicits.

Definition empty_checklist : ExecutionChecklist :=
  {| low_cost_validation := None; detail_risks_identified := false; avoid_perfect_decision := false; milestone_feedback_planned := false;
     retrospective_planned := false; self_discipline_assessed := false; stop_loss_committed := false; checklist_value_plan := None |}.
Definition no_stop_loss {T} : StopLossLine T :=
  {| economic := None; time_hours := None; trigger_action := utf8 "abandon + extract sustained value"; triggered := false; triggered_at := None |}.
Definition given {A} (o : option A) : bool := match o with Some _ => true | None => false end.
Definition completed_count (c : ExecutionChecklist) : nat :=
  length (filter (fun b => b = true) [given (low_cost_validation c); detail_risks_identified c; avoid_perfect_decision c; milestone_feedback_planned c;
    retrospective_planned c; self_discipline_assessed c; stop_loss_committed c; given (checklist_value_plan c)]).
Definition is_complete (c : ExecutionChecklist) : bool := completed_count c =? 8.

Section commitment.
Context {T D : Type} {HD : Dates T D}.
Definition new_commitment (uuid t : text) (now : T) : Commitment T D :=
  {| id := uuid; what := t; state := Drafted; by_when := None; review_at := None; next_action := []; two_minute_rule := false; milestones := [];
     stop_loss := no_stop_loss; discipline_streak := 0; sustained_value_plan := None; retrospective := None; execution_checklist := empty_checklist;
     source_journal := None; created_at := now; updated_at := now; closed_at := None |}.
Definition from_raw (uuid t : text) (now : T) : Commitment T D :=
  let c := new_commitment uuid t now in
  {| id := id c; what := what c; state := state c; by_when := by_when c; review_at := review_at c; next_action := t;
     two_minute_rule := two_minute_rule c; milestones := milestones c; stop_loss := stop_loss c; discipline_streak := discipline_streak c;
     sustained_value_plan := sustained_value_plan c; retrospective := retrospective c; execution_checklist := execution_checklist c;
     source_journal := source_journal c; created_at := created_at c; updated_at := updated_at c; closed_at := closed_at c |}.

(** ** The machine *)

Definition fed_back (m : Milestone T D) : bool := m_completed m && given (m_completed_at m).
Definition no_such_move (from to : CommitmentState) : result unit TransitionError := Err (InvalidTransition (state_str from) (state_str to)).
Definition can_transition_to (c : Commitment T D) (target : CommitmentState) : result unit TransitionError :=
  match state c, target with
  | Drafted, Validated =>
    if negb (given (low_cost_validation (execution_checklist c))) then Err MissingValidation
    else if negb (triggered (stop_loss c)) && negb (given (economic (stop_loss c))) && negb (given (time_hours (stop_loss c))) then Err MissingStopLoss
    else Ok tt
  | Validated, Executing => if length (milestones c) <? 3 then Err (InsufficientMilestones (length (milestones c))) else Ok tt
  | Executing, Reviewing => if forallb fed_back (milestones c) then Ok tt else Err MissingMilestoneDataFeedback
  | Reviewing, Completed =>
    match retrospective c with
    | Some r => match trim r with [] => Err MissingRetrospective | _ => Ok tt end
    | None => Err MissingRetrospective
    end
  | Reviewing, Pivoted => if given (sustained_value_plan c) then Ok tt else Err MissingSustainedValue
  | _, Abandoned => if negb (triggered (stop_loss c)) && negb (given (sustained_value_plan c)) then Err MissingStopLossExtraction else Ok tt
  | from, to => no_such_move from to
  end.
Definition is_closed (s : CommitmentState) : bool := match s with Completed | Abandoned | Pivoted => true | _ => false end.
Definition moved_to (target : CommitmentState) (now : T) (c : Commitment T D) : Commitment T D :=
  {| id := id c; what := what c; state := target; by_when := by_when c; review_at := review_at c; next_action := next_action c;
     two_minute_rule := two_minute_rule c; milestones := milestones c; stop_loss := stop_loss c; discipline_streak := discipline_streak c;
     sustained_value_plan := sustained_value_plan c; retrospective := retrospective c; execution_checklist := execution_checklist c;
     source_journal := source_journal c; created_at := created_at c; updated_at := now;
     closed_at := if is_closed target then Some now else closed_at c |}.
Definition transition (target : CommitmentState) (now : T) (c : Commitment T D) : result unit TransitionError * Commitment T D :=
  match can_transition_to c target with Ok _ => (Ok tt, moved_to target now c) | Err e => (Err e, c) end.
Definition with_stop_loss (l : StopLossLine T) (c : Commitment T D) : Commitment T D :=
  {| id := id c; what := what c; state := state c; by_when := by_when c; review_at := review_at c; next_action := next_action c;
     two_minute_rule := two_minute_rule c; milestones := milestones c; stop_loss := l; discipline_streak := discipline_streak c;
     sustained_value_plan := sustained_value_plan c; retrospective := retrospective c; execution_checklist := execution_checklist c;
     source_journal := source_journal c; created_at := created_at c; updated_at := updated_at c; closed_at := closed_at c |}.
Definition trigger_stop_loss (now : T) (c : Commitment T D) : Commitment T D :=
  let l := stop_loss c in
  (transition Abandoned now (with_stop_loss {| economic := economic l; time_hours := time_hours l; trigger_action := trigger_action l;
    triggered := true; triggered_at := Some now |} c)).2.
Definition with_milestones (l : list (Milestone T D)) (now : T) (c : Commitment T D) : Commitment T D :=
  {| id := id c; what := what c; state := state c; by_when := by_when c; review_at := review_at c; next_action := next_action c;
     two_minute_rule := two_minute_rule c; milestones := l; stop_loss := stop_loss c; discipline_streak := discipline_streak c;
     sustained_value_plan := sustained_value_plan c; retrospective := retrospective c; execution_checklist := execution_checklist c;
     source_journal := source_journal c; created_at := created_at c; updated_at := now; closed_at := closed_at c |}.
Definition add_milestone (description : text) (target : option D) (now : T) (c : Commitment T D) : Commitment T D :=
  with_milestones (milestones c ++ [{| m_description := description; m_target := target; m_completed := false; m_completed_at := None |}]) now c.
Definition complete_milestone (i : nat) (now : T) (c : Commitment T D) : result unit text * Commitment T D :=
  match milestones c !! i with
  | None => (Err (utf8 ("milestone index " +:+ pretty i +:+ " out of range")), c)
  | Some m =>
    if m_completed m then (Err (utf8 "milestone already completed"), c)
    else (Ok tt, with_milestones (<[i := {| m_description := m_description m; m_target := m_target m; m_completed := true; m_completed_at := Some now |}]> (milestones c)) now c)
  end.
Definition is_overdue (now : T) (c : Commitment T D) : bool :=
  negb (is_closed (state c)) && match review_at c with Some d => date_before d (date_of now) | None => false end.

(** ** The file *)

Definition slugify_text `{Alphabet, Lowercase} (t : text) : text :=
  take 60 (trim_matches is_dash (map (fun c => if alphanumeric c then c else 45%N) (to_lowercase t))).
Definition escaped (t : text) : text := replace t [34%N] [92%N; 34%N].
Definition in_quotes (t : text) : text := [34%N] ++ t ++ [34%N].
Definition field_line (key : string) (value : text) : text := utf8 key ++ utf8 ": " ++ value.
Definition bool_text (b : bool) : text := utf8 (if b then "true" else "false").
Definition optional_line {A} (key : string) (show : A -> text) (o : option A) : list text :=
  match o with Some a => [field_line key (show a)] | None => [] end.
Definition milestone_line (m : Milestone T D) : text :=
  utf8 "- [" ++ utf8 (if m_completed m then "x" else " ") ++ utf8 "] " ++ m_description m
  ++ match m_target m with Some d => utf8 " (by " ++ show_date d ++ utf8 ")" | None => [] end.
Definition head_lines (c : Commitment T D) : list text :=
  [field_line "id" (id c); field_line "what" (in_quotes (escaped (what c))); field_line "state" (utf8 (state_str (state c)))]
  ++ optional_line "by_when" show_date (by_when c) ++ optional_line "review_at" show_date (review_at c)
  ++ [field_line "next_action" (in_quotes (escaped (next_action c))); field_line "two_minute_rule" (bool_text (two_minute_rule c));
      field_line "discipline_streak" (utf8 (pretty (discipline_streak c))); field_line "created_at" (show_time (created_at c));
      field_line "updated_at" (show_time (updated_at c))]
  ++ optional_line "closed_at" show_time (closed_at c) ++ optional_line "source_journal" (fun j => j) (source_journal c).
Definition body_lines (c : Commitment T D) : list text :=
  [[]; utf8 "# Commitment: " ++ what c; []; utf8 "**State**: " ++ utf8 (state_str (state c)); []; utf8 "## Milestones"; []]
  ++ match milestones c with [] => [utf8 "_(no milestones)_"] | l => map milestone_line l end
  ++ [[]; utf8 "## Stop Loss"; []] ++ optional_line "economic" show_float (economic (stop_loss c))
  ++ optional_line "time_hours" show_float (time_hours (stop_loss c))
  ++ [field_line "trigger_action" (trigger_action (stop_loss c)); field_line "triggered" (bool_text (triggered (stop_loss c))); []]
  ++ match sustained_value_plan c with Some plan => [utf8 "## Sustained Value Plan"; []; plan; []] | None => [] end.
Definition to_markdown (c : Commitment T D) : text :=
  flat_map (fun l => l ++ [10%N]) ([utf8 "---"] ++ head_lines c ++ [utf8 "---"] ++ body_lines c).

(** frontmatter.rs. *)
Fixpoint front_lines (ls : list text) : option (list text) :=
  match ls with
  | [] => None
  | line :: rest => if bool_decide (trim line = utf8 "---") then Some [] else l ← front_lines rest; Some (line :: l)
  end.
Definition extract_frontmatter (content : text) : option text :=
  match lines content with
  | first :: rest => if bool_decide (trim first = utf8 "---") then flat_map (fun l => l ++ [10%N]) <$> front_lines rest else None
  | [] => None
  end.
Fixpoint field_in (key : text) (ls : list text) : option text :=
  match ls with
  | [] => None
  | line :: rest =>
    match strip_prefix (trim line) (key ++ utf8 ":") with
    | Some value => match trim value with [] => field_in key rest | v => Some v end
    | None => field_in key rest
    end
  end.
Definition parse_field (frontmatter : text) (key : string) : option text := field_in (utf8 key) (lines frontmatter).
Fixpoint after_fence (ls : list text) : list text :=
  match ls with [] => [] | line :: rest => if bool_decide (trim line = utf8 "---") then rest else after_fence rest end.
Definition extract_body (content : text) : text := flat_map (fun l => l ++ [10%N]) (after_fence (tl (lines content))).

(** The lines of a section, up to the next header. *)
Fixpoint up_to_header (ls : list text) : list text :=
  match ls with [] => [] | line :: rest => if starts_with (trim line) (utf8 "## ") then [] else line :: up_to_header rest end.
Fixpoint section_of (header : text) (ls : list text) : option (list text) :=
  match ls with [] => None | line :: rest => if bool_decide (trim line = header) then Some (up_to_header rest) else section_of header rest end.
Fixpoint rfind (p t : text) : option nat :=
  match t with
  | [] => if starts_with t p then Some 0 else None
  | _ :: rest => match rfind p rest with Some i => Some (S i) | None => if starts_with t p then Some 0 else None end
  end.
Definition trim_end_of (c : char) (t : text) : text := rev (trim_start_matches (fun d => (d =? c)%N) (rev t)).
Definition parse_milestone (line : text) : option (Milestone T D) :=
  item ← strip_prefix (trim line) (utf8 "- ");
  let completed := starts_with item (utf8 "[x] ") in
  let desc := default item (strip_prefix item (utf8 (if completed then "[x] " else "[ ] "))) in
  let '(desc, target) := match rfind (utf8 " (by ") desc with
    | Some i => (take i desc, parse_date (trim_end_of 41%N (drop (i + 5) desc)))
    | None => (desc, None)
    end in
  Some {| m_description := desc; m_target := target; m_completed := completed; m_completed_at := None |}.
(** A second header of the same name within the section does not end it. *)
Fixpoint section_again (header : text) (ls : list text) : list text :=
  match ls with
  | [] => []
  | line :: rest =>
    if bool_decide (trim line = header) then section_again header rest
    else if starts_with (trim line) (utf8 "## ") then [] else line :: section_again header rest
  end.
Fixpoint section_lines (header : text) (ls : list text) : list text :=
  match ls with [] => [] | line :: rest => if bool_decide (trim line = header) then section_again header rest else section_lines header rest end.
Definition parse_milestones (body : text) : list (Milestone T D) := omap parse_milestone (section_lines (utf8 "## Milestones") (lines body)).
Definition read_stop_loss (l : StopLossLine T) (line : text) : StopLossLine T :=
  let trimmed := trim line in
  match strip_prefix trimmed (utf8 "economic: ") with
  | Some v => {| economic := parse_float v; time_hours := time_hours l; trigger_action := trigger_action l; triggered := triggered l; triggered_at := triggered_at l |}
  | None => match strip_prefix trimmed (utf8 "time_hours: ") with
  | Some v => {| economic := economic l; time_hours := parse_float v; trigger_action := trigger_action l; triggered := triggered l; triggered_at := triggered_at l |}
  | None => match strip_prefix trimmed (utf8 "trigger_action: ") with
  | Some v => {| economic := economic l; time_hours := time_hours l; trigger_action := v; triggered := triggered l; triggered_at := triggered_at l |}
  | None => match strip_prefix trimmed (utf8 "triggered: ") with
  | Some v => {| economic := economic l; time_hours := time_hours l; trigger_action := trigger_action l; triggered := bool_decide (v = utf8 "true"); triggered_at := triggered_at l |}
  | None => l
  end end end end.
Definition parse_stop_loss (body : text) : StopLossLine T := foldl read_stop_loss no_stop_loss (section_lines (utf8 "## Stop Loss") (lines body)).
Definition parse_body_section (body : text) (header : string) : option text :=
  ls ← section_of (utf8 header) (lines body);
  match trim (flat_map (fun l => l ++ [10%N]) ls) with [] => None | t => Some t end.
Definition is_quote (c : char) : bool := (c =? 34)%N.
Definition from_markdown (now : T) (content : text) : result (Commitment T D) text :=
  match extract_frontmatter content with
  | None => Err (utf8 "missing frontmatter")
  | Some fm =>
    match parse_field fm "id" with
    | None => Err (utf8 "missing id field")
    | Some uuid =>
      let body := extract_body content in
      Ok {| id := uuid;
            what := default [] (trim_matches is_quote <$> parse_field fm "what");
            state := default Drafted (s ← parse_field fm "state"; state_from_str s);
            by_when := (s ← parse_field fm "by_when"; parse_date s);
            review_at := (s ← parse_field fm "review_at"; parse_date s);
            next_action := default [] (trim_matches is_quote <$> parse_field fm "next_action");
            two_minute_rule := default false ((fun s => bool_decide (s = utf8 "true")) <$> parse_field fm "two_minute_rule");
            milestones := parse_milestones body;
            stop_loss := parse_stop_loss body;
            discipline_streak := default 0%N (s ← parse_field fm "discipline_streak"; parse_unsigned 32 s);
            sustained_value_plan := parse_body_section body "## Sustained Value Plan";
            retrospective := parse_body_section body "## Retrospective";
            execution_checklist := empty_checklist;
            source_journal := parse_field fm "source_journal";
            created_at := default now (s ← parse_field fm "created_at"; parse_time s);
            updated_at := default now (s ← parse_field fm "updated_at"; parse_time s);
            closed_at := (s ← parse_field fm "closed_at"; parse_time s) |}
    end
  end.

(** ** The directory *)

Definition slug `{Alphabet, Lowercase} (c : Commitment T D) : text := slugify_text (what c).
Definition save `{Alphabet, Lowercase, Refusals} (dir : text) (clock : Z) (c : Commitment T D) (d : fs) : result text text * fs :=
  match create_dir_all dir d with
  | Err e => (Err e, d)
  | Ok d =>
    let path := within dir (slug c ++ utf8 ".md") in
    match overwrite path (to_markdown c) clock d with
    | (None, d) => (Ok path, d)
    | (Some e, d) => (Err e, d)
    end
  end.
Definition load `{Refusals} (now : T) (path : text) (d : fs) : result (Commitment T D) text :=
  match read_to_string path d with Some content => from_markdown now content | None => Err (utf8 "read: " ++ path) end.
Definition load_all `{Refusals, Listing} (now : T) (dir : text) (d : fs) : result (list (Commitment T D)) text :=
  if negb (is_dir d dir) then Ok []
  else match entries d dir with
  | None => Err (utf8 "read dir: " ++ dir)
  | Some es => Ok (omap (fun path => match load now path d with Ok c => Some c | Err _ => None end) (filter (fun path => is_md path = true) es))
  end.
End commitment.

(** ** The life of a commitment, and what its file forgets

    States change along their arrows and under their guards, over any history; a
    commitment that comes from its file can be neither validated nor reviewed. *)

Section life.
Context {T D : Type} {HD : Dates T D}.

(** A call of a method, and the commitment after it. *)
Inductive method := MTransition (target : CommitmentState) (now : T) | MTrigger (now : T) | MAdd (description : text) (target : option D) (now : T) | MComplete (i : nat) (now : T).
Definition run_method (c : Commitment T D) (m : method) : Commitment T D :=
  match m with
  | MTransition target now => (transition target now c).2
  | MTrigger now => trigger_stop_loss now c
  | MAdd description target now => add_milestone description target now c
  | MComplete i now => (complete_milestone i now c).2
  end.
(** The other fields are public: what an assignment leaves as it is. *)
Definition assigned (c c' : Commitment T D) : Prop :=
  state c' = state c /\ milestones c' = milestones c /\ closed_at c' = closed_at c
  /\ triggered (stop_loss c') = triggered (stop_loss c) /\ triggered_at (stop_loss c') = triggered_at (stop_loss c).
Inductive history (c0 : Commitment T D) : Commitment T D -> Prop :=
  | history_new : history c0 c0
  | history_call c m : history c0 c -> history c0 (run_method c m)
  | history_edit c c' : history c0 c -> assigned c c' -> history c0 c'.

(** The arrows between states with their guards. *)
Definition arrow (c : Commitment T D) (to : CommitmentState) : Prop :=
  match state c, to with
  | Drafted, Validated => given (low_cost_validation (execution_checklist c)) = true
      /\ (triggered (stop_loss c) = true \/ given (economic (stop_loss c)) = true \/ given (time_hours (stop_loss c)) = true)
  | Validated, Executing => 3 <= length (milestones c)
  | Executing, Reviewing => Forall (fun m => m_completed m = true /\ given (m_completed_at m) = true) (milestones c)
  | Reviewing, Completed => exists r, retrospective c = Some r /\ trim r <> []
  | Reviewing, Pivoted => given (sustained_value_plan c) = true
  | _, Abandoned => triggered (stop_loss c) = true \/ given (sustained_value_plan c) = true
  | _, _ => False
  end.
Lemma can_transition_arrow c target : can_transition_to c target = Ok tt <-> arrow c target.
Proof.
  unfold can_transition_to, arrow, no_such_move. destruct (state c), target; try done;
    try (destruct (triggered (stop_loss c)), (given (sustained_value_plan c)); cbn; intuition congruence).
  - destruct (given (low_cost_validation _)), (triggered _), (given (economic _)), (given (time_hours _)); cbn; intuition congruence.
  - destruct (Nat.ltb_spec (length (milestones c)) 3); split; try done; lia.
  - rewrite Forall_forall. destruct (forallb fed_back (milestones c)) eqn:E; split; try done.
    + intros _ m Hm. rewrite forallb_forall in E. apply list_elem_of_In in Hm. specialize (E m Hm). by apply andb_true_iff in E.
    + intros H. exfalso. apply not_true_iff_false in E. apply E, forallb_forall. intros m Hm%list_elem_of_In. apply andb_true_iff. by apply H.
  - destruct (retrospective c) as [r|]; [|split; [done|by intros (r & ? & _)]]. destruct (trim r) eqn:E; split; try done.
    + intros (r' & [= <-] & H). by rewrite E in H.
    + intros _. exists r. by rewrite E.
Qed.
(** *** What holds over a history *)

Definition active (s : CommitmentState) : bool := match s with Executing | Reviewing | Completed | Pivoted => true | _ => false end.
Record lawful (c : Commitment T D) : Prop := {
  law_closed : given (closed_at c) = is_closed (state c);
  law_milestones : active (state c) = true -> 3 <= length (milestones c);
  law_dated : Forall (fun m => m_completed m = given (m_completed_at m)) (milestones c);
  law_stopped : triggered (stop_loss c) = given (triggered_at (stop_loss c));
}.
Lemma lawful_edited c c' : assigned c c' -> lawful c -> lawful c'.
Proof. intros (E1 & E2 & E3 & E4 & E5) [L1 L2 L3 L4]. split; rewrite ?E1, ?E2, ?E3, ?E4, ?E5; done. Qed.
Lemma lawful_moved c target now : arrow c target -> lawful c -> lawful (moved_to target now c).
Proof.
  intros HA [L1 L2 L3 L4]. split; cbn [moved_to state closed_at milestones stop_loss]; [| |done|done].
  - unfold arrow in HA. destruct target; cbn [is_closed]; try done; rewrite L1; by destruct (state c).
  - intros Ht. unfold arrow in HA. destruct target; try done; destruct (state c); try done; by apply L2.
Qed.
Lemma transition_cases target now c : (transition target now c = (Ok tt, moved_to target now c) /\ arrow c target)
  \/ (exists e, transition target now c = (Err e, c)) /\ ~ arrow c target.
Proof.
  unfold transition. pose proof (can_transition_arrow c target) as HA. destruct (can_transition_to c target) as [[]|e]; [left; by split; [|apply HA]|].
  right. split; [by exists e|]. by intros H%HA.
Qed.
Lemma lawful_transition target now c : lawful c -> lawful (transition target now c).2.
Proof. intros L. destruct (transition_cases target now c) as [[-> HA]|[[e ->] _]]; [by apply lawful_moved|done]. Qed.
Lemma lawful_call c m : lawful c -> lawful (run_method c m).
Proof.
  intros L. destruct m as [target now|now|description target now|i now]; cbn [run_method].
  - by apply lawful_transition.
  - apply lawful_transition. destruct L as [L1 L2 L3 L4]. by split.
  - destruct L as [L1 L2 L3 L4]. split; cbn [add_milestone with_milestones state closed_at milestones stop_loss]; [done| | |done].
    + intros H%L2. rewrite length_app. lia.
    + apply Forall_app. by split; [|apply Forall_singleton].
  - destruct L as [L1 L2 L3 L4]. unfold complete_milestone. destruct (milestones c !! i) as [m|] eqn:E; [|done].
    destruct (m_completed m); [done|]. split; cbn [snd with_milestones state closed_at milestones stop_loss]; [done| | |done].
    + by rewrite length_insert.
    + by apply Forall_insert.
Qed.
(** C31. Over any history of calls and of assignments to the other fields, a commitment has
    a time of closing exactly when it is closed, at least three milestones once it
    has been executed, and times exactly on what is completed or triggered. *)
Theorem lifecycle uuid t now c : history (new_commitment uuid t now) c -> lawful c.
Proof. induction 1 as [|c m _ IH|c c' _ IH E]; [by split|by apply lawful_call|by eapply lawful_edited]. Qed.
(** A call that changes the state follows an arrow, whose guard holds; what refuses
    is left as it was. *)
Theorem transition_exact target now c :
  (arrow c target /\ transition target now c = (Ok tt, moved_to target now c))
  \/ (~ arrow c target /\ exists e, transition target now c = (Err e, c)).
Proof. destruct (transition_cases target now c) as [[E HA]|[HE HA]]; [by left|by right]. Qed.
(** A closed commitment changes at most to abandoned. *)
Theorem closed_for_good c m : is_closed (state c) = true -> state (run_method c m) = state c \/ state (run_method c m) = Abandoned.
Proof.
  intros Hc. assert (forall target (now : T) (c1 : Commitment T D), state c1 = state c -> state (transition target now c1).2 = state c \/ state (transition target now c1).2 = Abandoned) as HT.
  { intros target now c1 E. destruct (transition_cases target now c1) as [[-> HA]|[[e ->] _]]; [|by left]. right. cbn [snd moved_to state].
    unfold arrow in HA. rewrite E in HA. by destruct (state c), target. }
  destruct m as [target now|now|description target now|i now]; cbn [run_method]; [by apply HT|by apply HT|by left|].
  left. unfold complete_milestone. destruct (milestones c !! i); [|done]. by destruct (m_completed _).
Qed.

(** *** What a file forgets *)

Definition unvalidated (c : Commitment T D) : Prop := given (low_cost_validation (execution_checklist c)) = false /\ (state c = Drafted \/ state c = Abandoned).
Definition unreviewable (c : Commitment T D) : Prop :=
  Exists (fun m => m_completed m = true /\ m_completed_at m = None) (milestones c) /\ (state c = Executing \/ state c = Abandoned).
Lemma unvalidated_moved target now c : unvalidated c -> unvalidated (transition target now c).2.
Proof.
  intros [U1 U2]. destruct (transition_cases target now c) as [[-> HA]|[[e ->] _]]; [|done]. split; [done|]. cbn [snd moved_to state].
  unfold arrow in HA. destruct U2 as [E|E]; rewrite E in HA; destruct target; try done; [|by right..]. destruct HA as [HA _]. by rewrite U1 in HA.
Qed.
Lemma unreviewable_moved target now c : unreviewable c -> unreviewable (transition target now c).2.
Proof.
  intros [U1 U2]. destruct (transition_cases target now c) as [[-> HA]|[[e ->] _]]; [|done]. split; [done|]. cbn [snd moved_to state].
  unfold arrow in HA. destruct U2 as [E|E]; rewrite E in HA; destruct target; try done; [|by right..].
  exfalso. apply Exists_exists in U1 as (m & Hm & Hc & Hn). rewrite Forall_forall in HA. destruct (HA m Hm) as [_ H]. by rewrite Hn in H.
Qed.
Lemma stuck_call c m : (unvalidated c -> unvalidated (run_method c m)) /\ (unreviewable c -> unreviewable (run_method c m)).
Proof.
  destruct m as [target now|now|description target now|i now]; cbn [run_method]; split; intros U; try done;
    try (by apply unvalidated_moved); try (by apply unreviewable_moved).
  - destruct U as [U1 U2]. split; [|done]. cbn [add_milestone with_milestones milestones]. apply Exists_app. by left.
  - unfold complete_milestone. destruct (milestones c !! i) as [m|]; [|done]. by destruct (m_completed m).
  - unfold complete_milestone. destruct (milestones c !! i) as [m|] eqn:E; [|done]. destruct (m_completed m) eqn:Em; [done|].
    destruct U as [U1 U2]. split; [|done]. cbn [snd with_milestones milestones]. apply Exists_exists in U1 as (m' & Hm' & Hc & Hn).
    apply list_elem_of_lookup_1 in Hm' as [j Hj]. apply Exists_exists. exists m'. split; [|done]. apply (list_elem_of_lookup_2 _ j).
    rewrite list_lookup_insert_ne; [done|]. intros <-. congruence.
Qed.
Lemma loaded_forgets now content c : from_markdown now content = Ok c ->
  execution_checklist c = empty_checklist /\ Forall (fun m => m_completed_at m = None) (milestones c).
Proof.
  unfold from_markdown. destruct (extract_frontmatter content) as [fm|]; [|done]. destruct (parse_field fm "id"); [|done]. intros [= <-]. split; [done|].
  cbn [milestones]. unfold parse_milestones. apply Forall_forall. intros m (line & _ & Hm)%list_elem_of_omap. unfold parse_milestone in Hm.
  destruct (strip_prefix _ _) as [item|]; [|done]. cbn [mbind option_bind] in Hm. by destruct (rfind _ _); injection Hm as <-.
Qed.
(** Whatever the file, a commitment that was loaded as a draft is never validated by
    its methods, and one that was loaded in execution with a milestone completed is
    never reviewed: the checklist and the times of completion are not in the file,
    and no method brings them back. *)
Theorem loaded_is_stuck now content c ms : from_markdown now content = Ok c ->
  (state c = Drafted -> state (foldl run_method c ms) = Drafted \/ state (foldl run_method c ms) = Abandoned)
  /\ (state c = Executing -> Exists (fun m => m_completed m = true) (milestones c) ->
      state (foldl run_method c ms) = Executing \/ state (foldl run_method c ms) = Abandoned).
Proof.
  intros (Hk & Hm)%loaded_forgets. assert (forall c, (unvalidated c -> unvalidated (foldl run_method c ms)) /\ (unreviewable c -> unreviewable (foldl run_method c ms))) as HS.
  { clear. induction ms as [|m ms IH]; intros c; [done|]. cbn [foldl]. destruct (IH (run_method c m)) as [I1 I2], (stuck_call c m) as [S1 S2]. auto. }
  split.
  - intros E. apply HS. split; [by rewrite Hk|by left].
  - intros E HE. apply HS. split; [|by left]. apply Exists_exists in HE as (m & Hin & Hc). apply Exists_exists. exists m.
    split; [done|]. split; [done|]. rewrite Forall_forall in Hm. by apply Hm.
Qed.
End life.

(** *** A file, and what it does not hold *)

#[local] Instance plain_dates : Dates nat nat :=
  {| show_time n := utf8 (pretty n); parse_time t := N.to_nat <$> parse_unsigned 32 t; show_date n := utf8 (pretty n);
     parse_date t := N.to_nat <$> parse_unsigned 32 t; show_float _ := utf8 "0"; parse_float _ := None; date_of n := n; date_before := Nat.ltb |}.
Definition under_review : Commitment nat nat :=
  {| id := utf8 "c1"; what := utf8 "write"; state := Reviewing; by_when := Some 9; review_at := None; next_action := utf8 "call"; two_minute_rule := true;
     milestones := map (fun n => {| m_description := utf8 "part"; m_target := Some n; m_completed := true; m_completed_at := Some n |}) [1; 2; 3];
     stop_loss := no_stop_loss; discipline_streak := 4; sustained_value_plan := Some (utf8 "a plan"); retrospective := Some (utf8 "done well");
     execution_checklist := empty_checklist; source_journal := None; created_at := 1; updated_at := 5; closed_at := None |}.
Definition loaded {A} (c : Commitment nat nat) (f : Commitment nat nat -> A) (a : A) : A :=
  match from_markdown 0 (to_markdown c) with Ok c => f c | Err _ => a end.
(** What is written is read back, but for the retrospective and the times: a
    commitment under review that was written and read cannot be completed. *)
Example retrospective_is_lost : can_transition_to under_review Completed = Ok tt
  /\ loaded under_review (fun c => can_transition_to c Completed) (Ok tt) = Err MissingRetrospective
  /\ loaded under_review (fun c => (what c, state c, map m_target (milestones c), sustained_value_plan c, discipline_streak c)) ([], Drafted, [], None, 0%N)
      = (utf8 "write", Reviewing, [Some 1; Some 2; Some 3], Some (utf8 "a plan"), 4%N).
Proof. by vm_compute. Qed.
(** A quote in the text comes back behind a backslash, and again each time. *)
Example quotes_grow : loaded {| id := utf8 "c2"; what := [97; 34; 98]%N; state := Drafted; by_when := None; review_at := None; next_action := []; two_minute_rule := false;
    milestones := []; stop_loss := no_stop_loss; discipline_streak := 0; sustained_value_plan := None; retrospective := None;
    execution_checklist := empty_checklist; source_journal := None; created_at := 1; updated_at := 1; closed_at := None |} what [] = [97; 92; 34; 98]%N.
Proof. by vm_compute. Qed.
#[local] Instance nothing_refused : Refusals := fun _ => false.
#[local] Instance by_name : Listing := {| list_order l := l; list_order_perm l := reflexivity l |}.
#[local] Instance ascii_letters : Alphabet := fun c => is_ascii_digit c || ((97 <=? c) && (c <=? 122))%N.
#[local] Instance ascii_lowercase : Lowercase := {| lower_char c := [Text.ascii_lower c]; lower_char_ascii c H := eq_refl |}.
Definition raw (uuid t : string) : Commitment nat nat := from_raw (utf8 uuid) (utf8 t) 1.
Definition saved (cs : list (Commitment nat nat)) : list text :=
  match load_all 1 (utf8 "/z/c") (foldl (fun d c => (save (utf8 "/z/c") 0 c d).2) ∅ cs) with
  | Ok cs => map id cs | Err _ => [] end.
(** Two commitments with one slug share a file, and one without a letter has the name
    [.md], which has no extension: what is saved is not what is loaded. *)
Example saved_over : saved [raw "a" "Write it"; raw "b" "write.it"] = [utf8 "b"] /\ saved [raw "c" "???"] = [].
Proof. by vm_compute. Qed.
Lemma loaded_is_stuck_witness : exists c, from_markdown 0 (to_markdown under_review) = Ok c
  /\ ((state c = Drafted -> state (foldl run_method c [MTrigger 3]) = Drafted \/ state (foldl run_method c [MTrigger 3]) = Abandoned)
  /\ (state c = Executing -> Exists (fun m => m_completed m = true) (milestones c) ->
      state (foldl run_method c [MTrigger 3]) = Executing \/ state (foldl run_method c [MTrigger 3]) = Abandoned)).
Proof.
  destruct (from_markdown 0 (to_markdown under_review)) as [c|e] eqn:E; [|by vm_compute in E].
  exists c. split; [done|]. by apply (loaded_is_stuck 0 (to_markdown under_review)).
Defined.
Lemma lifecycle_witness : history (new_commitment (utf8 "c") (utf8 "write") 1) (trigger_stop_loss 3 (new_commitment (utf8 "c") (utf8 "write") 1) : Commitment nat nat)
  /\ lawful (trigger_stop_loss 3 (new_commitment (utf8 "c") (utf8 "write") 1) : Commitment nat nat).
Proof.
  assert (history (new_commitment (utf8 "c") (utf8 "write") 1) (trigger_stop_loss 3 (new_commitment (utf8 "c") (utf8 "write") 1) : Commitment nat nat)) as H
    by exact (history_call _ _ (MTrigger 3) (history_new _)).
  split; [exact H|]. exact (lifecycle (utf8 "c") (utf8 "write") 1 _ H).
Defined.
