(* ===== verification/Retention.v ===== *)
(** * Retention

    Models zen-vault/src/distill/retention.rs with the paths it takes from
    zen-core/src/paths.rs, over the files of [Transaction]: the table of policies, the
    rotation of a log, the deletion by age and by count, and the report.  Any
    operation on the disk may be refused, and what renaming a directory does is left
    open ([Faults]); the recursive walk is the crate walkdir ([Walkdir]); instants are
    nanoseconds.  A path is its text, absolute and normalised, and sizes are
    unbounded. *)

From S2P Require Import Prelude Text Ordering Transaction Pages PagesProps.
From Stdlib Require Import Lia.
Local Open Scope list_scope.

(** ** The disk *)

Inductive sweep_op := Stat (p : text) | ListDir (p : text) | Delete (p : text) | Rename (p q : text) | Create (p : text).
Class Faults := {
  faulty : sweep_op -> bool;
  dir_len : N;
  move_dir : text -> text -> fs -> option fs;
  move_dir_frame : forall p q d d', move_dir p q d = Some d' -> forall x, ~ below p x -> ~ below q x -> d' !! x = d !! x;
}.
(** The files that [WalkDir::new(dir).min_depth(1)] comes to, in its order. *)
Class Walkdir := {
  walk_dir : fs -> text -> list text;
  walk_dir_once : forall d dir, NoDup (walk_dir d dir);
  walk_dir_below : forall d dir p, p ∈ walk_dir d dir -> below dir p /\ p <> dir /\ exists c t, d !! p = Some (File c t);
}.

Definition file_len (content : text) : N := N.of_nat (str_len content).
Definition is_file (d : fs) (p : text) : bool := match d !! p with Some (File _ _) => true | _ => false end.

(** [fs::rename], [fs::remove_file] and [fs::File::create]; [None] for an error. *)
Section operations.
Context {F : Faults}.
Definition metadata (p : text) (d : fs) : option N :=
  if faulty (Stat p) then None else match d !! p with Some (File c _) => Some (file_len c) | Some Dir => Some dir_len | None => None end.
Definition found (p : text) (d : fs) : bool := bool_decide (is_Some (metadata p d)).
Definition delete_file (p : text) (d : fs) : option fs :=
  if faulty (Delete p) then None else if is_file d p then Some (delete p d) else None.
Definition rename (p q : text) (d : fs) : option fs :=
  if faulty (Rename p q) then None
  else match d !! p, d !! q with
  | Some (File _ _), Some Dir => None
  | Some (File c t), _ => Some (<[q := File c t]> (delete p d))
  | Some Dir, _ => move_dir p q d
  | None, _ => None
  end.
Definition create (p : text) (clock : Z) (d : fs) : option fs :=
  if faulty (Create p) || is_dir d p then None else Some (<[p := File [] clock]> d).
End operations.

(** ** The table *)

Definition MIB : N := 1024 * 1024.
Inductive Action :=
  | Rotate (max_bytes : N) (keep : nat)
  | DeleteOlder (pattern : option text) (days : Z) (recursive : bool)
  | KeepNewest (pattern : text) (keep : nat)
  | ReportOnly.
Record Policy := { home : string; root : text; action : Action }.

Definition join (dir : text) (s : string) : text := within dir (utf8 s).
Definition logs (global : text) : text := join global "logs".
Definition memory (global : text) : text := join global "memories".
Definition vault (global : text) : text := join global "vault".
Definition wiki (global : text) : text := join (vault global) "wiki".
Definition archive (global : text) : text := join (vault global) "archive".
Definition journal_entries (global : text) : text := join (memory global) "journal".
Definition rotating (h : string) (root : text) (max_bytes : N) (keep : nat) : Policy := {| home := h; root := root; action := Rotate max_bytes keep |}.
Definition aging (h : string) (root : text) (pattern : option string) (days : Z) (recursive : bool) : Policy :=
  {| home := h; root := root; action := DeleteOlder (utf8 <$> pattern) days recursive |}.
Definition policies (g : text) : list Policy :=
  [ rotating "logs/audit.jsonl" (join (logs g) "audit.jsonl") (10 * MIB) 3;
    rotating "logs/loop-gaps.jsonl" (join (logs g) "loop-gaps.jsonl") (5 * MIB) 2;
    aging "logs/.txn-*" (logs g) (Some ".txn-*.jsonl") 7 false;
    aging "vault/iterations" (join (vault g) "iterations") None 90 true;
    rotating "logs/discovery-tree.jsonl" (join (logs g) "discovery-tree.jsonl") (5 * MIB) 2;
    aging "logs/outbox" (join (logs g) "outbox") (Some "*.json") 30 false;
    aging "logs/wake-up" (logs g) (Some "wake-up-*.md") 14 false;
    aging "logs/archive" (join (logs g) "archive") (Some "*.md") 365 false;
    aging "memories/journal" (journal_entries g) None 90 true;
    aging "memories/research-suggestions" (join (memory g) "research-suggestions") (Some "*.md") 30 false;
    {| home := "memories/demoted-beliefs"; root := join (memory g) "demoted-beliefs"; action := KeepNewest (utf8 "*.md") 200 |};
    aging "memories/virtue_logs" (join (vault g) "memories/virtue_logs") None 365 true;
    aging "vault/output" (join (vault g) "output") (Some "*.md") 365 false;
    aging "vault/wiki/wisdom/suggestions" (join (wiki g) "wisdom/suggestions") (Some "*.md") 180 false;
    aging "logs/raw" (join (logs g) "raw") None 14 true;
    aging "sessions" (join g "sessions") None 90 true;
    rotating "vault/wiki/log.md" (join (wiki g) "log.md") MIB 2;
    rotating "vault/wiki/contradictions.md" (join (wiki g) "contradictions.md") MIB 2;
    rotating "logs/memory-nudges.jsonl" (join (logs g) "memory-nudges.jsonl") (512 * 1024) 2;
    rotating "logs/promotion-confirmed.jsonl" (join (logs g) "promotion-confirmed.jsonl") (512 * 1024) 2;
    aging "logs/decision-audit/labels.jsonl" (join (logs g) "decision-audit") (Some "labels.jsonl") 365 false;
    aging "skills" (join g "skills") (Some "*-history.jsonl") 365 false;
    aging "vault/wiki/wisdom/rewinds" (join (wiki g) "wisdom/rewinds") (Some "*.md") 90 false;
    aging "vault/wiki/wisdom/reflections" (join (wiki g) "wisdom/reflections") (Some "*.md") 90 false;
    rotating "logs/safety-audit.jsonl" (join (logs g) "safety-audit.jsonl") MIB 2;
    aging "logs/tasks" (join (logs g) "tasks") None 7 true;
    {| home := "vault/archive/quarantine"; root := join (archive g) "quarantine"; action := ReportOnly |} ]%string.

(** ** The report *)

Record HomeReport := { removed_files : N; h_rotated : N; bytes_freed : N; observed_files : N; observed_bytes : N }.
Definition nothing_done : HomeReport := {| removed_files := 0; h_rotated := 0; bytes_freed := 0; observed_files := 0; observed_bytes := 0 |}.
Definition one_removed (len : N) (h : HomeReport) : HomeReport :=
  {| removed_files := removed_files h + 1; h_rotated := h_rotated h; bytes_freed := bytes_freed h + len;
     observed_files := observed_files h; observed_bytes := observed_bytes h |}.
Definition one_observed (len : N) (h : HomeReport) : HomeReport :=
  {| removed_files := removed_files h; h_rotated := h_rotated h; bytes_freed := bytes_freed h;
     observed_files := observed_files h + 1; observed_bytes := observed_bytes h + len |}.
Definition rotation (freed : N) : HomeReport :=
  {| removed_files := 0; h_rotated := 1; bytes_freed := freed; observed_files := 0; observed_bytes := 0 |}.
Definition RetentionReport : Type := gmap string HomeReport.
Definition total (f : HomeReport -> N) (r : RetentionReport) : N := map_fold (fun _ h acc => f h + acc)%N 0%N r.
Definition removed (r : RetentionReport) : N := total removed_files r.
Definition rotated (r : RetentionReport) : N := total h_rotated r.
Definition freed (r : RetentionReport) : N := total bytes_freed r.

(** ** The actions *)

Section actions.
Context {F : Faults} {Ls : Listing} {W : Walkdir}.

Definition sibling (file : text) (n : nat) : text := file ++ 46%N :: utf8 (pretty n).
Definition cascade_step (file : text) (d : fs) (i : nat) : fs :=
  if found (sibling file i) d then default d (rename (sibling file i) (sibling file (S i)) d) else d.
Definition rotate (file : text) (max_bytes : N) (keep : nat) (clock : Z) (dry_run : bool) (d : fs) : HomeReport * fs :=
  match metadata file d with
  | None => (nothing_done, d)
  | Some size =>
    if (size <? max_bytes)%N then (nothing_done, d)
    else
      let oldest := sibling file keep in
      let oldest_len := default 0%N (metadata oldest d) in
      if dry_run then (rotation oldest_len, d)
      else
        let '(h, d) := if (0 <? oldest_len)%N || found oldest d
          then match delete_file oldest d with Some d => (rotation oldest_len, d) | None => (rotation 0, d) end else (rotation 0, d) in
        let d := foldl (cascade_step file) d (rev (seq 1 (keep - 1))) in
        match rename file (sibling file 1) d with
        | None => (h, d)
        | Some d => (h, default d (create file clock d))
        end
  end.

Definition matches_glob (name pattern : text) : bool :=
  match split_once 42%N pattern with
  | None => bool_decide (name = pattern)
  | Some (prefix, suffix) => starts_with name prefix && ends_with name suffix && (str_len prefix + str_len suffix <=? str_len name)
  end.
Definition matching (pattern : option text) (p : text) : bool := match pattern with Some pat => matches_glob (name_of p) pat | None => true end.
(** Asked of files only. *)
Definition stat_file (p : text) (d : fs) : option (Z * N) :=
  if faulty (Stat p) then None else match d !! p with Some (File c t) => Some (t, file_len c) | _ => None end.
Definition system_time_of (t : Z) : Z := Z.max 0 (t / 1000000000) * 1000000000.
Definition cutoff (now days : Z) : Z := system_time_of (now - days * 86400 * 1000000000).
(** The files a visit comes to. *)
Definition visit_files (dir : text) (recursive : bool) (d : fs) : list text :=
  if negb (found dir d) then []
  else if recursive then walk_dir d dir
  else if faulty (ListDir dir) || negb (is_dir d dir) then []
  else filter (fun p => is_file d p && negb (faulty (Stat p))) (list_order (filter (fun p => dir_of p = Some dir) (map_to_list d).*1)).

Definition discard (dry_run : bool) (len : N) (p : text) (s : HomeReport * fs) : HomeReport * fs :=
  if dry_run then (one_removed len s.1, s.2)
  else match delete_file p s.2 with Some d => (one_removed len s.1, d) | None => s end.
Definition delete_step (pattern : option text) (oldest : Z) (dry_run : bool) (s : HomeReport * fs) (p : text) : HomeReport * fs :=
  if negb (matching pattern p) then s
  else match stat_file p s.2 with
  | None => s
  | Some (mtime, len) => if (oldest <=? mtime)%Z then s else discard dry_run len p s
  end.
Definition delete_older (dir : text) (pattern : option text) (days : Z) (recursive : bool) (now : Z) (dry_run : bool) (d : fs) : HomeReport * fs :=
  foldl (delete_step pattern (cutoff now days) dry_run) (nothing_done, d) (visit_files dir recursive d).

Record stated := { s_mtime : Z; s_len : N; s_path : text }.
Definition fresher (a b : stated) : bool :=
  ((s_mtime b <? s_mtime a) || ((s_mtime a =? s_mtime b) && String.ltb (to_string (name_of (s_path a))) (to_string (name_of (s_path b)))))%Z.
Definition stated_of (pattern : text) (d : fs) (p : text) : option stated :=
  if matches_glob (name_of p) pattern
  then '(mtime, len) ← stat_file p d; Some {| s_mtime := mtime; s_len := len; s_path := p |} else None.
Definition keep_newest (dir : text) (pattern : text) (keep : nat) (dry_run : bool) (d : fs) : HomeReport * fs :=
  let files := omap (stated_of pattern d) (visit_files dir false d) in
  if length files <=? keep then (nothing_done, d)
  else foldl (fun s f => discard dry_run (s_len f) (s_path f) s) (nothing_done, d) (drop keep (sort_by fresher files)).

Definition report_only (dir : text) (d : fs) : HomeReport :=
  foldl (fun h p => match metadata p d with Some len => one_observed len h | None => h end) nothing_done (visit_files dir true d).

(** ** A sweep *)

Record RetentionConfig := { enabled : option bool; dry_run : option bool }.
Definition run_policy (policy : Policy) (now clock : Z) (dry : bool) (d : fs) : HomeReport * fs :=
  match action policy with
  | Rotate max_bytes keep => rotate (root policy) max_bytes keep clock dry d
  | DeleteOlder pattern days recursive => delete_older (root policy) pattern days recursive now dry d
  | KeepNewest pattern keep => keep_newest (root policy) pattern keep dry d
  | ReportOnly => (report_only (root policy) d, d)
  end.
Definition sweep_policy (now clock : Z) (dry : bool) (s : RetentionReport * fs) (policy : Policy) : RetentionReport * fs :=
  let r := run_policy policy now clock dry s.2 in (<[home policy := r.1]> s.1, r.2).
Definition apply_policies (global : text) (cfg : RetentionConfig) (now clock : Z) (d : fs) : RetentionReport * fs :=
  if negb (default true (enabled cfg)) then (∅, d)
  else foldl (sweep_policy now clock (default false (dry_run cfg))) (∅, d) (policies global).
End actions.
