(* ===== verification/RetentionProps.v ===== *)
(** * What a sweep does to the disk

    Exact accounts of the deletions of a policy and of the rotation of a log, whatever
    the disk refuses; what a whole sweep can touch, and the places it cannot; and sweeps
    of a small disk. *)

From S2P Require Import Prelude Text Ordering Transaction Pages PagesProps PagesSweep Retention.
From Stdlib Require Import Lia.
Local Open Scope list_scope.

(** ** Numbers as texts *)

Definition ascii (s : string) : Prop := Forall (fun a => (Ascii.N_of_ascii a < 128)%N) (String.list_ascii_of_string s).
Lemma utf8_ascii s : ascii s -> utf8 s = map Ascii.N_of_ascii (String.list_ascii_of_string s).
Proof.
  unfold ascii, utf8. induction 1 as [|a l Ha _ IH]; [done|]. cbn [map utf8_decode].
  destruct (N.ltb_spec (Ascii.N_of_ascii a) 128); [by rewrite IH|lia].
Qed.
Lemma pretty_go_ascii x : forall s, ascii s -> ascii (pretty_N_go x s).
Proof.
  induction (N.lt_wf_0 x) as [x _ IH]. intros s Hs. destruct (decide (0 < x)%N) as [Hx|Hx].
  - rewrite pretty_N_go_step by done. apply IH; [apply N.div_lt; lia|]. unfold ascii. cbn. apply Forall_cons. split; [|done].
    assert (x `mod` 10 < 10)%N by (apply N.mod_lt; lia). unfold pretty_N_char. by repeat case_match.
  - assert (x = 0%N) as -> by lia. by rewrite pretty_N_go_0.
Qed.
Lemma pretty_ascii (n : nat) : ascii (pretty n).
Proof. unfold pretty, pretty_nat, pretty, pretty_N. case_decide; [by repeat constructor|]. apply pretty_go_ascii. constructor. Qed.
#[local] Instance ascii_code_inj : Inj eq eq Ascii.N_of_ascii.
Proof. intros a b H. by rewrite <- (Ascii.ascii_N_embedding a), H, Ascii.ascii_N_embedding. Qed.
Lemma pretty_utf8_inj (n m : nat) : utf8 (pretty n) = utf8 (pretty m) -> n = m.
Proof.
  rewrite !utf8_ascii by apply pretty_ascii. intros H. apply (inj pretty).
  rewrite <- (String.string_of_list_ascii_of_string (pretty n)), <- (String.string_of_list_ascii_of_string (pretty m)). f_equal.
  revert H. apply (list_fmap_eq_inj Ascii.N_of_ascii). apply _.
Qed.
Lemma sibling_inj file n m : sibling file n = sibling file m -> n = m.
Proof. unfold sibling. intros [= H]%app_inv_head. by apply pretty_utf8_inj. Qed.
Lemma sibling_ne file n : sibling file n <> file.
Proof. intros H%(f_equal length). unfold sibling in H. rewrite length_app in H. cbn in H. lia. Qed.

Section sweep.
Context {F : Faults} {Ls : Listing} {W : Walkdir}.

(** ** Deletions *)

Definition without (l : list text) (d : fs) : fs := foldr delete d l.
Lemma without_lookup l d x : without l d !! x = if bool_decide (x ∈ l) then None else d !! x.
Proof.
  induction l as [|p l IH]; cbn [without foldr]; [by rewrite bool_decide_eq_false_2 by apply not_elem_of_nil|].
  fold (without l d). destruct (decide (x = p)) as [->|N].
  - rewrite lookup_delete_eq, bool_decide_eq_true_2; [done|by left].
  - rewrite lookup_delete_ne, IH by done.
    destruct (decide (x ∈ l)); [rewrite !bool_decide_eq_true_2; [done|by right|done]|].
    rewrite !bool_decide_eq_false_2; [done| |done]. by intros [?|?]%elem_of_cons.
Qed.
Definition len_at (d : fs) (p : text) : N := match d !! p with Some (File c _) => file_len c | _ => 0 end.
Definition erased_report (d : fs) (l : list text) : HomeReport := foldl (fun h p => one_removed (len_at d p) h) nothing_done l.
(** A file of a visit that is past the cutoff; [dry] counts what could not be deleted too. *)
Definition stale (pattern : option text) (oldest : Z) (d : fs) (p : text) : bool :=
  matching pattern p && match stat_file p d with Some (t, _) => (t <? oldest)%Z | None => false end.
Definition erasable (dry : bool) (p : text) : bool := dry || negb (faulty (Delete p)).

Lemma visit_once dir recursive d : NoDup (visit_files dir recursive d).
Proof.
  unfold visit_files. destruct (found dir d); [|constructor]. destruct recursive; [apply walk_dir_once|]. cbn.
  destruct (_ || _); [constructor|]. apply NoDup_filter. rewrite list_order_perm. apply NoDup_filter, NoDup_fst_map_to_list.
Qed.
Lemma visit_file dir recursive d p : p ∈ visit_files dir recursive d ->
  is_file d p = true /\ (if recursive then below dir p /\ p <> dir else dir_of p = Some dir).
Proof.
  unfold visit_files. destruct (found dir d); [|by intros ?%elem_of_nil]. cbn [negb]. destruct recursive.
  - intros (H1 & H2 & c & t & E)%walk_dir_below. unfold is_file. by rewrite E.
  - destruct (_ || _); [by intros ?%elem_of_nil|]. intros [[H1 H2]%andb_prop_elim H3]%list_elem_of_filter.
    split; [by apply Is_true_true|]. rewrite list_order_perm in H3. by apply list_elem_of_filter in H3 as [H3 _].
Qed.
(** Deleting the files of a list that satisfy [P], one after the other. *)
Lemma discards (P : text -> bool) (f : HomeReport * fs -> text -> HomeReport * fs) dry l d : NoDup l -> Forall (fun p => is_file d p = true) l ->
  (forall p h gone, p ∈ l -> p ∉ gone -> f (h, without gone d) p = if P p then discard dry (len_at d p) p (h, without gone d) else (h, without gone d)) ->
  forall h gone, (forall p, p ∈ l -> p ∉ gone) ->
  foldl f (h, without gone d) l
  = let out := filter (fun p => P p && erasable dry p) l in
    (foldl (fun h p => one_removed (len_at d p) h) h out, if dry then without gone d else without (rev out ++ gone) d).
Proof.
  induction l as [|p l IH]; intros Hl Hf Hn h gone Hg; [by destruct dry|]. apply NoDup_cons in Hl as [Hp Hl]. apply Forall_cons in Hf as [Hfp Hf].
  cbn [foldl]. rewrite Hn; [|by left|apply Hg; by left]. assert (forall q h gone, q ∈ l -> q ∉ gone ->
    f (h, without gone d) q = if P q then discard dry (len_at d q) q (h, without gone d) else (h, without gone d)) as Hn' by (intros; apply Hn; [by right|done]).
  assert (forall q, q ∈ l -> q ∉ gone) as Hg' by (intros q Hq; apply Hg; by right).
  rewrite filter_cons. case_decide as HE.
  - apply andb_prop_elim in HE as [->%Is_true_true HE]. unfold discard. cbn [fst snd]. destruct dry.
    { cbn [foldl]. by rewrite IH. }
    apply negb_prop_elim, Is_true_false in HE. unfold delete_file. rewrite HE. assert (is_file (without gone d) p = true) as ->.
    { unfold is_file. rewrite without_lookup, bool_decide_eq_false_2; [done|]. apply Hg. by left. }
    change (delete p (without gone d)) with (without (p :: gone) d). rewrite IH; [|done..|].
    + cbn [foldl rev]. by rewrite <- app_assoc.
    + intros q Hq. apply not_elem_of_cons. split; [by intros ->|by apply Hg'].
  - destruct (P p) eqn:EP; [|by apply IH]. unfold discard. cbn [fst snd]. destruct dry; [by exfalso; apply HE|].
    unfold delete_file. destruct (faulty (Delete p)) eqn:E; [by apply IH|]. exfalso. apply HE. unfold erasable. by rewrite E.
Qed.
Lemma discards_all P f dry l d : NoDup l -> Forall (fun p => is_file d p = true) l ->
  (forall p h gone, p ∈ l -> p ∉ gone -> f (h, without gone d) p = if (P : text -> bool) p then discard dry (len_at d p) p (h, without gone d) else (h, without gone d)) ->
  let out := filter (fun p => P p && erasable dry p) l in foldl f (nothing_done, d) l = (erased_report d out, if dry then d else without (rev out) d).
Proof.
  intros Hl Hf Hn out. assert (forall p : text, p ∈ l -> p ∉ ([] : list text)) as Hg by (intros; apply not_elem_of_nil).
  rewrite (discards P f dry l d Hl Hf Hn nothing_done [] Hg : foldl f (nothing_done, d) l = _). cbn [without foldr]. by rewrite app_nil_r.
Qed.
Lemma stat_without p gone d : p ∉ gone -> stat_file p (without gone d) = stat_file p d.
Proof. intros H. unfold stat_file. by rewrite without_lookup, bool_decide_eq_false_2. Qed.
Lemma stat_len p d t len : stat_file p d = Some (t, len) -> len = len_at d p /\ exists c, d !! p = Some (File c t).
Proof. unfold stat_file, len_at. destruct (faulty _); [done|]. destruct (d !! p) as [[c t'|]|]; try done. intros [= <- <-]. split; [done|by eexists]. Qed.

(** What a deletion by age removes and reports: the files of the home that match, are
    strictly older than the cutoff, and can be deleted. *)
Theorem delete_older_exact dir pattern days recursive now dry d :
  let out := filter (fun p => stale pattern (cutoff now days) d p && erasable dry p) (visit_files dir recursive d) in
  delete_older dir pattern days recursive now dry d = (erased_report d out, if dry then d else without (rev out) d).
Proof.
  apply discards_all; [apply visit_once|by apply Forall_forall; intros p [H _]%visit_file|]. intros p h gone _ Hg.
  unfold delete_step, stale. cbn [snd]. rewrite stat_without by done. destruct (matching pattern p); [|done]. cbn [negb andb].
  destruct (stat_file p d) as [[t len]|] eqn:E; [|done]. apply stat_len in E as [-> _]. rewrite Z.ltb_antisym. by destruct (cutoff now days <=? t)%Z.
Qed.
(** The files of a home that count, the newest first. *)
Definition newest_first (dir pattern : text) (d : fs) : list stated := sort_by fresher (omap (stated_of pattern d) (visit_files dir false d)).
Lemma stated_spec pattern d p f : stated_of pattern d p = Some f -> s_path f = p /\ s_len f = len_at d p /\ matches_glob (name_of p) pattern = true
  /\ exists c, d !! p = Some (File c (s_mtime f)).
Proof.
  unfold stated_of. destruct (matches_glob _ _); [|done]. destruct (stat_file p d) as [[t len]|] eqn:E; [|done]. cbn. intros [= <-].
  by apply stat_len in E as [-> H].
Qed.
Lemma stated_once pattern d l : NoDup l -> NoDup (map s_path (omap (stated_of pattern d) l)).
Proof.
  induction 1 as [|p l Hp _ IH]; cbn; [constructor|]. destruct (stated_of pattern d p) as [f|] eqn:E; [|done]. cbn. constructor; [|done].
  apply stated_spec in E as (-> & _). intros (g & Eg & Hg)%list_elem_of_fmap. apply list_elem_of_omap in Hg as (q & Hq & E').
  apply stated_spec in E' as (<- & _). by subst.
Qed.
Lemma ranked_spec dir pattern d f : f ∈ newest_first dir pattern d -> dir_of (s_path f) = Some dir /\ matches_glob (name_of (s_path f)) pattern = true
  /\ s_len f = len_at d (s_path f) /\ exists c, d !! s_path f = Some (File c (s_mtime f)).
Proof.
  unfold newest_first. rewrite sort_by_perm. intros (p & Hp & E)%list_elem_of_omap. apply visit_file in Hp as [_ Hp]. by apply stated_spec in E as (-> & H1 & H2 & H3).
Qed.
Lemma ranked_once dir pattern d : NoDup (map s_path (newest_first dir pattern d)).
Proof. unfold newest_first. eapply NoDup_Permutation_proper; [by rewrite sort_by_perm|]. apply stated_once, visit_once. Qed.
#[local] Instance fresher_order : WeakOrder fresher (fun _ => True).
Proof.
  split; unfold fresher.
  - intros x y _ _. rewrite !orb_true_iff, orb_false_iff, !andb_true_iff, andb_false_iff, Z.ltb_lt, Z.eqb_eq, Z.ltb_ge, Z.eqb_neq.
    intros [H|[H1 H2]]; [lia|]. split; [lia|]. right. by apply (before_asym (P := fun _ => True)).
  - intros x y z _ _ _. rewrite !orb_true_iff, !andb_true_iff, !Z.ltb_lt, !Z.eqb_eq. intros [H|[H1 H2]]; [lia|].
    destruct (before_cotrans (P := fun _ => True) _ (to_string (name_of (s_path y))) _ I I I H2) as [H3|H3]; lia || auto.
    + destruct (Z.lt_trichotomy (s_mtime x) (s_mtime y)) as [?|[?|?]]; auto with lia.
    + destruct (Z.lt_trichotomy (s_mtime x) (s_mtime y)) as [?|[?|?]]; auto with lia.
Qed.
(** What a deletion by count removes and reports: what comes after the first [keep]
    files of the home, none of which is older. *)
Theorem keep_newest_exact dir pattern keep dry d :
  let out := filter (fun p => erasable dry p) (map s_path (drop keep (newest_first dir pattern d))) in
  keep_newest dir pattern keep dry d = (erased_report d out, if dry then d else without (rev out) d)
  /\ forall f g, f ∈ take keep (newest_first dir pattern d) -> g ∈ drop keep (newest_first dir pattern d) -> (s_mtime g <= s_mtime f)%Z.
Proof.
  intros out. split.
  - assert (forall f, f ∈ drop keep (newest_first dir pattern d) -> s_len f = len_at d (s_path f) /\ is_file d (s_path f) = true) as Hs.
    { intros f Hf. assert (f ∈ newest_first dir pattern d) as (_ & _ & H1 & c & H2)%ranked_spec.
      { rewrite <- (take_drop keep (newest_first dir pattern d)). apply elem_of_app. by right. }
       split; [done|]. unfold is_file. by rewrite H2. }
    assert (forall s, foldl (fun s f => discard dry (s_len f) (s_path f) s) s (drop keep (newest_first dir pattern d))
      = foldl (fun s p => discard dry (len_at d p) p s) s (map s_path (drop keep (newest_first dir pattern d)))) as HE.
    { clear -Hs. induction (drop _ _) as [|f l IH]; intros s; [done|]. cbn [foldl map]. destruct (Hs f (list_elem_of_here _ _)) as [-> _].
      apply IH. intros g Hg. apply Hs. by right. }
    pose proof (discards_all (fun _ => true) (fun s p => discard dry (len_at d p) p s) dry (map s_path (drop keep (newest_first dir pattern d))) d) as HD.
    cbn [andb] in HD. fold out in HD. unfold keep_newest. change (sort_by fresher _) with (newest_first dir pattern d). rewrite HE. destruct (_ <=? keep) eqn:EL.
    + apply Nat.leb_le in EL. assert (drop keep (newest_first dir pattern d) = []) as E0.
      { apply drop_ge. unfold newest_first. by rewrite sort_by_perm. }
      unfold out. rewrite E0. by destruct dry.
    + apply HD; [| |done].
      * pose proof (ranked_once dir pattern d) as HN. rewrite <- (take_drop keep (newest_first dir pattern d)), map_app in HN. by apply NoDup_app in HN as (_ & _ & HN).
      * apply Forall_forall. intros p (f & -> & Hf)%list_elem_of_fmap. by apply Hs.
  - intros f g [i Hf]%list_elem_of_lookup_1 [j Hg]%list_elem_of_lookup_1. apply lookup_take_Some in Hf as [Hf Hi]. rewrite lookup_drop in Hg.
    assert (ordered fresher (newest_first dir pattern d)) as HO by (apply (sort_by_ordered fresher (P := fun _ => True)); by apply Forall_true).
    specialize (HO i (keep + j) f g ltac:(lia) Hf Hg). unfold fresher in HO. apply orb_false_iff in HO as [HO _]. by apply Z.ltb_ge in HO.
Qed.
End sweep.

(** ** Rotations, and a whole sweep

    A rotation shifts its log by one and never loses the log itself; and a sweep touches
    only what its table names, whatever the disk refuses. *)

Lemma not_below_shorter dir p : length p < length dir -> ~ below dir p.
Proof. intros H [Hl _]%below_length. lia. Qed.
Lemma sibling_longer file i : length file < length (sibling file i).
Proof. unfold sibling. rewrite length_app. cbn. lia. Qed.

Section sweep.
Context {F : Faults} {Ls : Listing} {W : Walkdir}.

(** *** Rotation *)

Lemma rename_frame p q d d' x : rename p q d = Some d' -> ~ below p x -> ~ below q x -> d' !! x = d !! x.
Proof.
  unfold rename. destruct (faulty _); [done|]. intros E Hp Hq.
  assert (x <> p) by (intros ->; by apply Hp, below_refl). assert (x <> q) by (intros ->; by apply Hq, below_refl).
  destruct (d !! p) as [[c t|]|]; [|by eapply move_dir_frame|done]. destruct (d !! q) as [[c' t'|]|]; try done;
    injection E as <-; by rewrite lookup_insert_ne, lookup_delete_ne.
Qed.
Lemma create_frame p clock d x : x <> p -> default d (create p clock d) !! x = d !! x.
Proof. intros H. unfold create. destruct (_ || _); [done|]. cbn. by rewrite lookup_insert_ne. Qed.
Lemma delete_file_frame p d d' x : delete_file p d = Some d' -> x <> p -> d' !! x = d !! x.
Proof. unfold delete_file. destruct (faulty _); [done|]. destruct (is_file d p); [|done]. intros [= <-] H. by rewrite lookup_delete_ne. Qed.
(** What a rotation may touch: the log and its siblings. *)
Definition family (file : text) (keep : nat) (x : text) : Prop := below file x \/ Exists (fun i => below (sibling file i) x) (seq 1 keep).
Lemma family_sibling file keep i x : 1 <= i <= keep -> below (sibling file i) x -> family file keep x.
Proof. intros Hi Hb. right. apply Exists_exists. exists i. split; [|done]. apply elem_of_seq. lia. Qed.
Lemma cascade_frame file keep l d x : Forall (fun i => 1 <= i < keep) l -> ~ family file keep x -> foldl (cascade_step file) d l !! x = d !! x.
Proof.
  intros Hl Hx. revert d. induction Hl as [|i l Hi _ IH]; intros d; [done|]. cbn [foldl]. rewrite IH. unfold cascade_step. destruct (found _ _); [|done].
  destruct (rename _ _ d) as [d'|] eqn:E; [|done]. eapply rename_frame; [exact E| |]; intros Hb; apply Hx; (eapply family_sibling; [|exact Hb]); lia.
Qed.
Definition oldest_gone (file : text) (keep : nat) (d : fs) : HomeReport * fs :=
  let oldest := sibling file keep in let oldest_len := default 0%N (metadata oldest d) in
  if (0 <? oldest_len)%N || found oldest d
  then match delete_file oldest d with Some d => (rotation oldest_len, d) | None => (rotation 0, d) end else (rotation 0, d).
Lemma oldest_gone_frame file keep d x : x <> sibling file keep -> (oldest_gone file keep d).2 !! x = d !! x.
Proof. intros H. unfold oldest_gone. destruct (_ || _); [|done]. destruct (delete_file _ d) as [d'|] eqn:E; [|done]. by eapply delete_file_frame. Qed.
(** The run of a rotation: the oldest is dropped, the others shift, the log goes last. *)
Lemma rotate_run file max_bytes keep clock d size : metadata file d = Some size -> (max_bytes <= size)%N ->
  rotate file max_bytes keep clock false d =
    let '(h, d) := oldest_gone file keep d in
    let d := foldl (cascade_step file) d (rev (seq 1 (keep - 1))) in
    (h, match rename file (sibling file 1) d with None => d | Some d => default d (create file clock d) end).
Proof.
  intros E H. unfold rotate. rewrite E. destruct (N.ltb_spec size max_bytes); [lia|]. fold (oldest_gone file keep d).
  destruct (oldest_gone file keep d) as [h d1]. by destruct (rename _ _ _).
Qed.
Lemma cascade_indices keep : Forall (fun i => 1 <= i < keep) (rev (seq 1 (keep - 1))).
Proof. apply Forall_rev, Forall_forall. intros i Hi%elem_of_seq. lia. Qed.
Lemma rotate_idle file max_bytes keep clock dry d : dry = true \/ metadata file d = None \/ (exists size, metadata file d = Some size /\ (size < max_bytes)%N) ->
  (rotate file max_bytes keep clock dry d).2 = d.
Proof.
  unfold rotate. intros H. destruct (metadata file d) as [size|]; [|done]. destruct (N.ltb_spec size max_bytes); [done|].
  destruct H as [->|[?|(s & [= ->] & ?)]]; [done..|lia].
Qed.
Lemma rotate_frame file max_bytes keep clock dry d x : 1 <= keep -> ~ family file keep x -> (rotate file max_bytes keep clock dry d).2 !! x = d !! x.
Proof.
  intros Hk Hx. destruct dry; [rewrite rotate_idle by auto; done|]. destruct (metadata file d) as [size|] eqn:E; [|by rewrite rotate_idle by auto].
  destruct (N.ltb_spec size max_bytes) as [Hl|Hl]; [by rewrite rotate_idle by eauto|]. rewrite (rotate_run _ _ _ _ _ size) by done.
  destruct (oldest_gone file keep d) as [h d1] eqn:E1. assert (d1 !! x = d !! x) as <-.
  { change d1 with (h, d1).2. rewrite <- E1. apply oldest_gone_frame. intros ->. apply Hx, (family_sibling _ _ keep); [lia|apply below_refl]. }
  rewrite <- (cascade_frame file keep (rev (seq 1 (keep - 1))) d1 x) by (done || apply cascade_indices). cbn [snd].
  destruct (rename _ _ _) as [d2|] eqn:E2; [|done]. rewrite create_frame; [|intros ->; apply Hx; left; apply below_refl].
  eapply rename_frame; [exact E2| |]; intros Hb; apply Hx; [by left|]. by apply (family_sibling _ _ 1); [lia|].
Qed.
(** Whatever is refused, and so wherever it is cut short, a rotation leaves the content
    of the log at the log or at its first sibling. *)
Theorem rotate_keeps_log file max_bytes keep clock dry d c t : d !! file = Some (File c t) ->
  let d' := (rotate file max_bytes keep clock dry d).2 in d' !! file = Some (File c t) \/ d' !! sibling file 1 = Some (File c t).
Proof.
  intros Hd d'. unfold d'. destruct dry; [rewrite rotate_idle by auto; by left|]. destruct (metadata file d) as [size|] eqn:E; [|rewrite rotate_idle by auto; by left].
  destruct (N.ltb_spec size max_bytes) as [Hl|Hl]; [rewrite rotate_idle by eauto; by left|]. rewrite (rotate_run _ _ _ _ _ size) by done.
  destruct (oldest_gone file keep d) as [h d1] eqn:E1.
  assert (forall i, ~ below (sibling file i) file) as Hs by (intros i; apply not_below_shorter, sibling_longer).
  assert (d1 !! file = Some (File c t)) as H1.
  { change d1 with (h, d1).2. rewrite <- E1, oldest_gone_frame; [done|]. intros H. by apply (sibling_ne file keep). }
  assert (forall l d, foldl (cascade_step file) d l !! file = d !! file) as HC.
  { clear -Hs. induction l as [|i l IH]; intros d; [done|]. cbn [foldl]. rewrite IH. unfold cascade_step. destruct (found _ _); [|done].
    destruct (rename _ _ d) as [d'|] eqn:E; [|done]. by eapply rename_frame. }
  rewrite <- (HC (rev (seq 1 (keep - 1))) d1) in H1. cbn [snd]. set (d2 := foldl _ _ _) in *. unfold rename. rewrite H1.
  destruct (faulty _); [by left|].
  destruct (d2 !! sibling file 1) as [[c' t'|]|]; [right|by left|right]; rewrite create_frame by apply sibling_ne; apply lookup_insert_eq.
Qed.

(** *** A whole sweep *)

(** What a policy may touch: the log with its siblings, what is past its age, what it
    ranks. *)
Definition touches (now : Z) (d : fs) (p : text) (policy : Policy) : Prop :=
  match action policy with
  | Rotate _ keep => family (root policy) keep p
  | DeleteOlder pattern days recursive => matching pattern p = true /\ (if recursive then below (root policy) p else dir_of p = Some (root policy))
      /\ match d !! p with Some (File _ t) => (t < cutoff now days)%Z | _ => False end
  | KeepNewest pattern keep => matches_glob (name_of p) pattern = true /\ dir_of p = Some (root policy)
  | ReportOnly => False
  end.
#[export] Instance node_eq_dec : EqDecision node.
Proof. solve_decision. Defined.
#[export] Instance touches_dec now d p policy : Decision (touches now d p policy).
Proof.
  unfold touches. destruct (action policy) as [m k|pattern days recursive|pattern k|]; [unfold family; solve_decision| |solve_decision|solve_decision].
  apply and_dec; [solve_decision|]. apply and_dec; [destruct recursive; solve_decision|]. destruct (d !! p) as [[c t|]|]; solve_decision.
Defined.
Lemma touches_local now d d' p policy : d' !! p = d !! p -> touches now d' p policy <-> touches now d p policy.
Proof. intros E. unfold touches. by rewrite E. Qed.
Lemma erased_spec d p dry (out : list text) : (if (dry : bool) then d else without (rev out) d) !! p <> d !! p -> p ∈ out.
Proof.
  destruct dry; [done|]. rewrite without_lookup. case_bool_decide as H; [|done]. intros _. apply list_elem_of_In, in_rev, list_elem_of_In. done.
Qed.
Definition keeps_some (policy : Policy) : Prop := match action policy with Rotate _ keep => 1 <= keep | _ => True end.
Lemma policy_touches_only policy now clock dry d p : keeps_some policy -> (run_policy policy now clock dry d).2 !! p <> d !! p -> touches now d p policy.
Proof.
  unfold keeps_some, run_policy, touches. destruct (action policy) as [m k|pattern days recursive|pattern k|]; [| | |done].
  - intros Hk H. destruct (decide (family (root policy) k p)) as [|N]; [done|]. exfalso. by apply H, rotate_frame.
  - intros _. rewrite delete_older_exact. cbn [snd]. intros [HP Hv]%erased_spec%list_elem_of_filter. apply visit_file in Hv as [_ Hv].
    apply andb_prop_elim in HP as [HP _]. unfold stale in HP. apply andb_prop_elim in HP as [Hm%Is_true_true Hs]. split_and!; [done| |].
    + destruct recursive; [apply Hv|done].
    + destruct (stat_file p d) as [[t len]|] eqn:E; [|done]. apply stat_len in E as [_ [c ->]]. by apply Is_true_true, Z.ltb_lt in Hs.
  - intros _. destruct (keep_newest_exact (root policy) pattern k dry d) as [-> _]. cbn [snd].
    intros [_ (f & -> & Hf)%list_elem_of_fmap]%erased_spec%list_elem_of_filter. assert (f ∈ newest_first (root policy) pattern d) as (H1 & H2 & _)%ranked_spec; [|done].
    rewrite <- (take_drop k (newest_first _ _ _)). apply elem_of_app. by right.
Qed.
Lemma sweep_policies now clock dry l p : Forall keeps_some l -> forall s,
  (foldl (sweep_policy now clock dry) s l).2 !! p <> s.2 !! p -> Exists (touches now s.2 p) l.
Proof.
  induction 1 as [|policy l Hk _ IH]; intros s H; [done|]. destruct (decide (touches now s.2 p policy)) as [|N]; [by left|]. right.
  assert ((sweep_policy now clock dry s policy).2 !! p = s.2 !! p) as E.
  { cbn [sweep_policy snd]. destruct (decide ((run_policy policy now clock dry s.2).2 !! p = s.2 !! p)) as [|N']; [done|]. by apply policy_touches_only in N'. }
  cbn [foldl] in H. rewrite <- E in H. apply IH in H. eapply Exists_impl; [exact H|]. intros q Hq. by apply (touches_local now _ _ p q E).
Qed.
Lemma table_keeps g : Forall keeps_some (policies g).
Proof. unfold policies. repeat constructor; cbn; lia. Qed.
(** C30. Whatever is refused, an entry of the disk that a sweep changes is one that a policy
    of its table may touch. *)
Theorem sweep_touches_only global cfg now clock d p :
  (apply_policies global cfg now clock d).2 !! p <> d !! p -> Exists (touches now d p) (policies global).
Proof. unfold apply_policies. destruct (default true (enabled cfg)); [|done]. apply sweep_policies, table_keeps. Qed.
Lemma dry_policies now clock l : forall s, (foldl (sweep_policy now clock true) s l).2 = s.2.
Proof.
  induction l as [|policy l IH]; intros s; [done|]. cbn [foldl]. rewrite IH. cbn [sweep_policy snd]. unfold run_policy. destruct (action policy) as [m k|pattern days recursive|pattern k|].
  - apply rotate_idle. by left.
  - by rewrite delete_older_exact.
  - by destruct (keep_newest_exact (root policy) pattern k true s.2) as [-> _].
  - done.
Qed.
(** A dry run changes nothing, and neither does a sweep that is switched off. *)
Theorem dry_run_is_dry global cfg now clock d : dry_run cfg = Some true \/ enabled cfg = Some false -> (apply_policies global cfg now clock d).2 = d.
Proof.
  unfold apply_policies. intros [->| ->]; [|done]. destruct (default true (enabled cfg)); [|done].
  exact (dry_policies now clock (policies global) (∅, d)).
Qed.
(** A policy by age or by count reports the same in a dry run as in a run in which no
    deletion is refused. *)
Theorem dry_run_report policy now clock d : (forall p, faulty (Delete p) = false) -> match action policy with Rotate _ _ => False | _ => True end ->
  (run_policy policy now clock true d).1 = (run_policy policy now clock false d).1.
Proof.
  intros HF HA. unfold run_policy. assert (forall dry p, erasable dry p = true) as HE by (intros [] p; unfold erasable; by rewrite ?HF).
  assert (forall (P Q : text -> Prop) {HP : forall x, Decision (P x)} {HQ : forall x, Decision (Q x)} l, (forall x, P x <-> Q x) -> filter P l = filter Q l) as HX
    by (intros; by apply list_filter_iff).
  destruct (action policy) as [m k|pattern days recursive|pattern k|]; [done| | |done].
  - rewrite !delete_older_exact. cbn [fst]. f_equal. apply HX. intros p. by rewrite !HE.
  - destruct (keep_newest_exact (root policy) pattern k true d) as [-> _], (keep_newest_exact (root policy) pattern k false d) as [-> _].
    cbn [fst]. f_equal. apply HX. intros p. by rewrite !HE.
Qed.

Section shifts.
Context (file : text) (keep : nat) (clock : Z) (d : fs).
Hypothesis nothing_refused : forall o, faulty o = false.
Hypothesis no_dirs : forall i, 1 <= i <= keep -> is_dir d (sibling file i) = false.
Lemma found_plain p d' : found p d' = exists_ d' p.
Proof. unfold found, metadata, exists_. rewrite nothing_refused. by destruct (d' !! p) as [[c t|]|]. Qed.
Lemma rename_plain p q d' c t : d' !! p = Some (File c t) -> is_dir d' q = false -> rename p q d' = Some (<[q := File c t]> (delete p d')).
Proof. unfold rename, is_dir. intros -> Hq. rewrite nothing_refused. by destruct (d' !! q) as [[]|]. Qed.
Lemma cascade_step_plain i d' : is_dir d' (sibling file i) = false -> d' !! sibling file (S i) = None ->
  cascade_step file d' i !! sibling file (S i) = d' !! sibling file i /\ cascade_step file d' i !! sibling file i = None
  /\ forall x, x <> sibling file i -> x <> sibling file (S i) -> cascade_step file d' i !! x = d' !! x.
Proof.
  intros Hi Hs. unfold cascade_step. rewrite found_plain. unfold exists_. destruct (d' !! sibling file i) as [[c t|]|] eqn:E.
  - rewrite bool_decide_eq_true_2 by (by eexists). rewrite (rename_plain _ _ d' c t E) by (by unfold is_dir; rewrite Hs). cbn. split_and!.
    + apply lookup_insert_eq.
    + rewrite lookup_insert_ne by (intros H%sibling_inj; lia). apply lookup_delete_eq.
    + intros x H1 H2. by rewrite lookup_insert_ne, lookup_delete_ne.
  - unfold is_dir in Hi. by rewrite E in Hi.
  - by rewrite bool_decide_eq_false_2 by (intros [? [=]]).
Qed.
Lemma cascade_plain n : forall d', (forall i, 1 <= i <= n -> is_dir d' (sibling file i) = false) -> d' !! sibling file (S n) = None ->
  let d2 := foldl (cascade_step file) d' (rev (seq 1 n)) in
  d2 !! sibling file 1 = None /\ (forall i, 1 <= i <= n -> d2 !! sibling file (S i) = d' !! sibling file i)
  /\ forall x, (forall i, 1 <= i <= S n -> x <> sibling file i) -> d2 !! x = d' !! x.
Proof.
  induction n as [|n IH]; intros d' Hd Hs; [split; [done|split; [intros; lia|done]]|].
  rewrite seq_S, rev_app_distr. cbn [rev app foldl]. cbn [Nat.add].
  destruct (cascade_step_plain (S n) d' (Hd (S n) ltac:(lia)) Hs) as (H1 & H2 & H3).
  assert (forall i, 1 <= i <= n -> cascade_step file d' (S n) !! sibling file i = d' !! sibling file i) as HL.
  { intros i Hi. apply H3; intros E%sibling_inj; lia. }
  destruct (IH (cascade_step file d' (S n))) as (I1 & I2 & I3); [|done|split_and!].
  - intros i Hi. unfold is_dir. rewrite HL by done. apply Hd. lia.
  - done.
  - intros i Hi. destruct (decide (i = S n)) as [->|N]; [|rewrite I2 by lia; apply HL; lia].
    rewrite I3; [done|]. intros j Hj E%sibling_inj. lia.
  - intros x Hx. rewrite I3 by (intros j Hj; apply Hx; lia). apply H3; apply Hx; lia.
Qed.
(** When nothing is refused, a log that reached its size becomes its first sibling, each
    sibling the next, the last one is gone, and the log starts empty. *)
Theorem rotate_shifts max_bytes c t : 1 <= keep -> d !! file = Some (File c t) -> (max_bytes <= file_len c)%N ->
  let d' := (rotate file max_bytes keep clock false d).2 in
  d' !! file = Some (File [] clock) /\ d' !! sibling file 1 = Some (File c t)
  /\ (forall i, 1 <= i < keep -> d' !! sibling file (S i) = d !! sibling file i)
  /\ forall x, x <> file -> (forall i, 1 <= i <= keep -> x <> sibling file i) -> d' !! x = d !! x.
Proof.
  intros Hk Hd Hm d'. unfold d'. rewrite (rotate_run _ _ _ _ _ (file_len c)) by (done || by unfold metadata; rewrite nothing_refused, Hd).
  destruct (oldest_gone file keep d) as [h d1] eqn:E1. assert (d1 = delete (sibling file keep) d) as ->.
  { change d1 with (h, d1).2. rewrite <- E1. unfold oldest_gone. rewrite found_plain. unfold exists_, metadata, delete_file, is_file. rewrite !nothing_refused.
    specialize (no_dirs keep ltac:(lia)). unfold is_dir in no_dirs. destruct (d !! sibling file keep) as [[c' t'|]|] eqn:E; [|done|].
    - rewrite orb_true_r. done.
    - cbn. symmetry. by apply delete_id. }
  assert (forall i, i <> keep -> delete (sibling file keep) d !! sibling file i = d !! sibling file i) as HS.
  { intros i Hi. apply lookup_delete_ne. intros H%sibling_inj. lia. }
  destruct (cascade_plain (keep - 1) (delete (sibling file keep) d)) as (C1 & C2 & C3).
  { intros i Hi. unfold is_dir. rewrite HS by lia. apply no_dirs. lia. }
  { replace (S (keep - 1)) with keep by lia. apply lookup_delete_eq. }
  set (d2 := foldl _ _ _) in *. cbn [snd].
  assert (d2 !! file = Some (File c t)) as H2.
  { rewrite C3, lookup_delete_ne; [done|apply sibling_ne|]. intros i _ H. by apply (sibling_ne file i). }
  rewrite (rename_plain _ _ d2 c t H2) by (unfold is_dir; by rewrite C1). unfold create. rewrite nothing_refused.
  assert (is_dir (<[sibling file 1 := File c t]> (delete file d2)) file = false) as ->.
  { unfold is_dir. by rewrite lookup_insert_ne, lookup_delete_eq by apply sibling_ne. }
  cbn. split_and!.
  - apply lookup_insert_eq.
  - rewrite lookup_insert_ne by (intros H; by apply (sibling_ne file 1)). apply lookup_insert_eq.
  - intros i Hi. rewrite lookup_insert_ne by (intros H; by apply (sibling_ne file (S i))). rewrite lookup_insert_ne by (intros H%sibling_inj; lia).
    rewrite lookup_delete_ne by (intros H; by apply (sibling_ne file (S i))). rewrite C2 by lia. apply HS. lia.
  - intros x Hx Hn. assert (x <> sibling file 1) by (apply Hn; lia). rewrite lookup_insert_ne, lookup_insert_ne, lookup_delete_ne by congruence.
    rewrite C3 by (intros i Hi; apply Hn; lia). apply lookup_delete_ne. apply not_eq_sym, Hn. lia.
Qed.
End shifts.
End sweep.

(** ** What a sweep spares, and some sweeps

    The homes of the table are apart from the quarantine, the notes and the settings;
    and sweeps of a small disk, with what refused renames cost a rotated log. *)

(** *** The homes, below the global root *)

Definition under (g : text) (policy : Policy) : Policy := {| home := home policy; root := g ++ root policy; action := action policy |}.
Lemma join_app g h s : join (g ++ h) s = g ++ join h s.
Proof. unfold join, within. by rewrite <- app_assoc. Qed.
Lemma join_root g s : join g s = g ++ join [] s.
Proof. by rewrite <- join_app, app_nil_r. Qed.
Lemma policies_under g : policies g = map (under g) (policies []).
Proof.
  unfold policies, wiki, archive, journal_entries, logs, memory, vault.
  rewrite !(join_root g), !join_app. cbn [map]. unfold under, rotating, aging. cbn [home root action]. reflexivity.
Qed.
(** The directories and files below which a policy touches anything. *)
Definition heads (policy : Policy) : list text :=
  match action policy with
  | Rotate _ keep => root policy :: map (sibling (root policy)) (seq 1 keep)
  | ReportOnly => []
  | _ => [root policy]
  end.
Lemma touches_heads now d p policy : touches now d p policy -> Exists (fun h => below h p) (heads policy).
Proof.
  unfold touches, heads. destruct (action policy) as [m k|pattern days recursive|pattern k|]; [|intros (_ & H & _)|intros [_ H]|done].
  - intros [H|H]; [by left|right]. apply Exists_exists in H as (i & Hi & H). apply Exists_exists. exists (sibling (root policy) i). split; [|done].
    apply list_elem_of_fmap. by exists i.
  - left. destruct recursive; [done|by apply below_dir_of].
  - left. by apply below_dir_of.
Qed.
Lemma heads_under g policy : heads (under g policy) = map (app g) (heads policy).
Proof.
  unfold heads, under. cbn [action root]. destruct (action policy) as [m k| | |]; try done. cbn [map]. f_equal. rewrite map_map. apply map_ext.
  intros i. unfold sibling. by rewrite <- app_assoc.
Qed.
(** A place below the root that is apart from every home. *)
Definition elsewhere (place : string) : bool :=
  let q := join [] place in forallb (fun h => negb (belowb h q || belowb q h)) (flat_map heads (policies [])).
Lemma below_app g a b : below (g ++ a) (g ++ b) -> below a b.
Proof.
  rewrite !below_spec. unfold within. intros [H%app_inv_head|[r H]]; [by left|right]. exists r. rewrite <- app_assoc in H. by apply app_inv_head in H.
Qed.

Section sweep.
Context {F : Faults} {Ls : Listing} {W : Walkdir}.
(** Whatever is refused, a sweep leaves what is elsewhere as it is. *)
Theorem sweep_leaves_elsewhere global cfg now clock d place p : elsewhere place = true -> below (join global place) p ->
  (apply_policies global cfg now clock d).2 !! p = d !! p.
Proof.
  intros He Hp. destruct (decide ((apply_policies global cfg now clock d).2 !! p = d !! p)) as [|N]; [done|]. exfalso.
  apply sweep_touches_only, Exists_exists in N as (policy & Hin & Ht). rewrite policies_under in Hin. apply list_elem_of_fmap in Hin as (q & -> & Hq).
  apply touches_heads, Exists_exists in Ht as (h & Hh & Hb). rewrite heads_under in Hh. apply list_elem_of_fmap in Hh as (h' & -> & Hh').
  unfold elsewhere in He. rewrite forallb_forall in He. specialize (He h'). rewrite in_flat_map in He. apply negb_true_iff, orb_false_iff in He as [H1 H2];
    [|exists q; split; by apply list_elem_of_In].
  rewrite join_root in Hp. destruct (below_chain _ _ p Hb Hp) as [H|H]; apply below_app in H; unfold below in H; congruence.
Qed.
(** Quarantined notes are user data: no sweep changes any. *)
Corollary quarantine_untouched global cfg now clock d p : below (join (archive global) "quarantine") p ->
  (apply_policies global cfg now clock d).2 !! p = d !! p.
Proof.
  intros H. apply (sweep_leaves_elsewhere global cfg now clock d "vault/archive/quarantine"); [by vm_compute|].
  assert (join (archive global) "quarantine" = join global "vault/archive/quarantine") as <-; [|done].
  unfold archive, vault. by rewrite (join_root global "vault"), !join_app, (join_root global "vault/archive/quarantine").
Qed.
End sweep.
Example elsewhere_places : forallb elsewhere ["vault/inbox"; "vault/raw"; "vault/wiki/notions"; "vault/wiki/index.md"; "vault/projects"; "vault/memories/journal";
  "memories/MEMORY.md"; "config.toml"; "data"]%string = true.
Proof. by vm_compute. Qed.

(** *** Sweeps of a small disk *)

#[local] Instance by_name : Listing := {| list_order l := l; list_order_perm l := reflexivity l |}.
#[local] Instance sweep_op_eq_dec : EqDecision sweep_op.
Proof. solve_decision. Defined.
Lemma nothing_moves (p q : text) (d d' : fs) : None = Some d' -> forall x, ~ below p x -> ~ below q x -> d' !! x = d !! x.
Proof. done. Qed.
(** A disk that refuses the operations of a list. *)
Definition refusing (l : list sweep_op) : Faults :=
  {| faulty o := bool_decide (o ∈ l); dir_len := 4096; move_dir _ _ _ := None; move_dir_frame := nothing_moves |}.
Definition files_below (d : fs) (dir : text) : list text := filter (fun p => below dir p /\ p <> dir /\ is_file d p = true) (map_to_list d).*1.
#[local] Instance every_file : Walkdir.
Proof.
  refine {| walk_dir := files_below |}.
  - intros d dir. apply NoDup_filter, NoDup_fst_map_to_list.
  - intros d dir p [(H1 & H2 & H3) _]%list_elem_of_filter. split_and!; [done..|]. unfold is_file in H3.
    destruct (d !! p) as [[c t|]|]; [by eauto|done..].
Defined.

Definition zen : text := utf8 "/z".
Definition at_ (s : string) : text := join zen s.
Definition day : Z := 86400 * 1000000000.
Definition small (s : string) (t : Z) : text * node := (at_ s, File (utf8 "text") t).
(** Day 100: a task's output from day 1 and from day 95, a quarantined note, a wake-up. *)
Definition disk : fs := list_to_map
  [ (zen, Dir); (at_ "logs", Dir); (at_ "logs/tasks", Dir); (at_ "logs/tasks/t1", Dir); small "logs/tasks/t1/stdout" day; small "logs/tasks/t1/meta.json" (95 * day);
    small "vault/archive/quarantine/n.md" 0; small "logs/wake-up-1.md" (86 * day); small "logs/wake-up-2.md" (86 * day - 1); small "logs/wake-up.md" 0 ]%string.
Definition config (dry : bool) : RetentionConfig := {| enabled := None; dry_run := Some dry |}.
Definition swept (dry : bool) : RetentionReport * fs := @apply_policies (refusing []) _ _ zen (config dry) (100 * day) (100 * day) disk.
Example swept_disk : ((swept false).2 !! at_ "logs/tasks/t1/stdout", (swept false).2 !! at_ "logs/wake-up-2.md", size (swept false).2, size disk) = (None, None, 8, 10)
  /\ (removed (swept false).1, freed (swept false).1) = (2, 8)%N /\ (removed (swept true).1, freed (swept true).1) = (2, 8)%N.
Proof. by vm_compute. Qed.
Definition output : text := at_ "logs/tasks/t1/stdout".
Lemma output_goes : (@apply_policies (refusing []) by_name every_file zen (config false) (100 * day) (100 * day) disk).2 !! output <> disk !! output.
Proof. by vm_compute. Qed.
Lemma sweep_touches_only_witness : Exists (@touches (100 * day) disk output) (policies zen).
Proof. exact (@sweep_touches_only (refusing []) by_name every_file zen (config false) (100 * day) (100 * day) disk output output_goes). Defined.

(** *** Refused renames *)

Definition log_ : text := at_ "log".
Definition rotated_log : fs := list_to_map [(log_, File (utf8 "live") 9); (sibling log_ 1, File (utf8 "one") 8); (sibling log_ 2, File (utf8 "two") 7); (sibling log_ 3, File (utf8 "three") 6)].
Definition kept (d : fs) : list (option node) := map (fun p => d !! p) [log_; sibling log_ 1; sibling log_ 2; sibling log_ 3].
Example rotates : kept (@rotate (refusing []) log_ 4 3 10 false rotated_log).2
  = [Some (File [] 10); Some (File (utf8 "live") 9); Some (File (utf8 "one") 8); Some (File (utf8 "two") 7)].
Proof. by vm_compute. Qed.
(** One refused rename in the cascade costs two siblings: the oldest, and the one that
    stayed, which the next rename overwrites. *)
Example two_siblings_lost : kept (@rotate (refusing [Rename (sibling log_ 2) (sibling log_ 3)]) log_ 4 3 10 false rotated_log).2
  = [Some (File [] 10); Some (File (utf8 "live") 9); Some (File (utf8 "one") 8); None].
Proof. by vm_compute. Qed.
(** While the rename of the log itself is refused, each sweep drops one more sibling,
    and nothing comes in: after three sweeps none is left. *)
Definition stuck_sweep (d : fs) : fs := (@rotate (refusing [Rename log_ (sibling log_ 1)]) log_ 4 3 10 false d).2.
Example retries_drop_siblings : kept (stuck_sweep rotated_log) = [Some (File (utf8 "live") 9); None; Some (File (utf8 "one") 8); Some (File (utf8 "two") 7)]
  /\ kept (stuck_sweep (stuck_sweep (stuck_sweep rotated_log))) = [Some (File (utf8 "live") 9); None; None; None].
Proof. by vm_compute. Qed.
